(* ===== verification/_CoqProject ===== *)
-Q . S2P
Prelude.v
PyStr.v
PyRe.v
PyPath.v
PyVal.v
PyNum.v
PyFloat.v
Worklist.v
Finding.v
Guardrails.v
Escalation.v
Stage1.v
Sig.v
Stage3.v
Session.v
Report.v
PyJson.v
PyFormat.v
Relay.v
Stage2.v
Analyze.v
StaticAnalysis.v
Smartgraphical.v
Onchain.v
WriteExecute.v
PySha.v
Cursor.v
Methodology.v
Actions.v
Adapters.v
Surface.v
Pipeline.v
Patch.v
Confirm.v
ModelSlots.v
Causes.v
SolIndex.v
Checkpoint.v
Grounding.v
SolUtils.v
ExploitLoop.v
Fixers.v
Inventory.v
Eval.v
Operator.v
Events.v
Reach.v
Repeat.v
CodeGraph.v
Bench.v
ProofBench.v
Screen.v
RunnerBase.v
RunnerFix.v
RunnerLookup.v
RunnerSource.v
RunnerHints.v
RunnerPrompts.v
RunnerSynth.v
RunnerDraft.v
RunnerAttempt.v
Runner.v
RunnerWorld.v
RunnerSound.v
RunnerMain.v
Http.v
HttpSound.v
