(* ===== verification/Prelude.v ===== *)
(** * A verification library for araratsec-agent

    araratsec-agent is a smart-contract audit agent: a "pack" of audit tools, prompts
    and workflows that runs on a task-agnostic kernel (the package sr_agent, which is
    not in the repository).  This library models the deterministic core of the pack in
    Rocq and proves what each component promises.  All paths below are under src/.

    ** The program

    An audit starts from a validated input (audit_agent/session.py, input_val.py).
    In the batch driver (pipeline.py) and in the chat alike, actions go through the
    kernel's executor to the pack's adapters (methodology/adapters.py), which ask the
    pure reducer (methodology/service.py) for the next event and its preview; the
    kernel commits the event to its append-only memory, and the roadmap is always
    recomputed as a fold of the committed events.  The older three-stage planner
    (planner/stage1.py, sig.py, stage2.py, stage3.py) discovers targets with regexes,
    relays them to a model and combines the findings that interact.  Tools wrap Slither,
    Mythril, SmartGraphical, the chain and Foundry (tools/).  The agent sees the tools
    through one table (agent_tool_surface.py, dispatch.py); dangerous actions wait for
    an approval that the operator's frontend gates (frontend/backend/confirm.py); its
    sessions are scoped to an external directory or a fresh clone (sessions.py, clone.py)
    and stream their trace through an event bus (events.py).  The proof package (proof/)
    helps to write PoC tests, and the loop of scripts/exploit_loop.py drafts, runs and
    redrafts one.  The queue runner (scripts/poc_queue_runner.py) takes the findings of a report
    one by one: it grounds a finding in a deploy base, which it synthesizes when there is
    none that will do, drafts a PoC, runs it, repairs it or feeds the failure back for
    another attempt, checks a passing one against the finding's own fix on a copy of the
    project, and closes the finding with one terminal event under a cause that the taxonomy
    (scripts/scaffold_taxonomy.py) later counts.  The evaluation (eval/), the benchmarks
    (scripts/bench.py, scripts/proof_bench.py) and the capability screen
    (scripts/capability_screen.py), the last two by running the queue runner as a process,
    measure what is found and proved.

    ** The files

    Foundations, which model the parts of Python the code uses:
    - Prelude: exceptions and the result monad [res], the state monad [ST] (a raise
      keeps the state), stable sorting, insertion-ordered dictionaries, automation;
    - PyStr, PyRe, PyPath, PyVal, PyNum, PyFloat, PyJson, PySha: str, re, pathlib, dynamic
      values, int() and float(), binary64 arithmetic with round() and repr(), json,
      hashlib.sha256.  The regex matcher is related to a declarative semantics, the
      JSON encoder and decoder are inverse to each other ([loads_dumps]), SHA-256
      computes its constants and is tested on the standard vectors;
    - Worklist: the stack-and-seen traversal shared by Sig and SolIndex, with its
      termination and reachability theorem.

    Components, each file named with the modules it models:
    - Finding (finding.py), Guardrails (guardrails/), Escalation (escalation.py),
      Session (session.py, config.py, input_val.py), Report (report.py);
    - Stage1, Sig, Stage3 (planner/stage1.py, sig.py, stage3.py), Relay
      (relay_ingest.py), Stage2 and Analyze (planner/stage2.py, analyze.py);
    - StaticAnalysis, Smartgraphical, Onchain, WriteExecute (tools/);
    - Cursor, Methodology, Adapters (methodology/cursor.py, models.py and service.py,
      adapters.py and include.py), Pipeline (pipeline.py);
    - Actions (actions.py, tool_registry.py, pack.py), Surface (agent_tool_surface.py,
      dispatch.py, reasoning.py);
    - Patch (proof/patch_reconstruct.py), SolIndex (proof/solidity_index.py), Causes
      (proof/scaffold_causes.py, scripts/scaffold_taxonomy.py), Checkpoint
      (proof/compiled_checkpoint.py), Grounding (proof/anti_mock_grounding.py,
      observed_fork_grounding.py), SolUtils (proof/solidity_utils.py);
    - Fixers (proof/solidity_fixers.py), Inventory (proof/scaffold_api_inventory.py),
      Reach and Repeat (the two halves of proof/scaffold_reachability.py: what is detected
      and checked in the sources, and what is remembered of failing runs);
    - ExploitLoop (scripts/exploit_loop.py), CodeGraph (scripts/codegraph.py), Bench
      (scripts/bench.py), Eval (eval/dataset.py, runner.py, regression.py), ProofBench
      (scripts/proof_bench.py), Screen (scripts/capability_screen.py);
    - the queue runner (scripts/poc_queue_runner.py): RunnerBase (events, causes, retries,
      clients, the log as state), RunnerFix (task lists, the report's fix, the check by
      mutation), RunnerLookup (the lookup protocols and the round trip), RunnerSource (what
      is read of the target: sources, base, file map, callable interface, example),
      RunnerHints (the hints on a failure), RunnerPrompts (the prompts verbatim),
      RunnerSynth (synthesis of a base), RunnerDraft (drafts, fixes and the agentic loop),
      RunnerAttempt (one attempt), Runner (a finding and the queue), RunnerSound (what a
      proof stands for), RunnerMain (the main function); the last two evaluate whole runs
      on a scripted outside;
    - Confirm, ModelSlots, Operator and Events (frontend/backend/confirm.py,
      model_config.py, clone.py and sessions.py, events.py), the parts of the operator's
      server, which Http composes (frontend/backend/app.py, state.py) and HttpSound
      proves to refine them.

    A definition carries the name of the function, constant or class it translates,
    without a leading underscore; a loop body or a branch of a long function has a
    definition of its own next to it.

    ** How the program is modelled

    A function that can raise returns [res]; one that changes an object, a file, the
    module's globals or the kernel's store is in [ST] over a record of what it can
    change, and an exception keeps the changes made before it, as in Python.  Findings
    that stage 3 updates in place live in a heap of references.  Files are finite maps
    from paths to texts where the code writes them, and a [FileSystem] record where it
    only asks.  Untyped JSON payloads are [pyval]; an operation on a value of the wrong
    type raises what Python raises.  Strings are UTF-8 bytes; lengths and slices that the
    code takes in characters are taken in characters ([ulen], [utake]), and the classes of
    regular expressions are those of ASCII.  The queue runner's state is its log and the
    history of what it did outside; the disk, the sandbox, the model, git and the clocks
    answer as functions of that history ([RunnerFix.Outside]), so that every answer may
    depend on all that was done before.  The event bus is a transition system: its
    executions are sequences of actions, with what was published and received as history.
    So is the operator's server over it: a route is a step, a message or a socket the
    steps between its suspensions, and what a turn of the kernel's loop does meanwhile is
    a label of the step, so that every interleaving is an execution.

    What is not in the repository is a parameter: the kernel (memory, executor, relay
    transport, sandbox, sanitizer, path guard, confirmation records), pydantic's
    validation of untyped bodies, the Solidity parser, web3, the checksum of addresses,
    the model clients, clocks and random tokens.  What a theorem needs of a parameter is a
    hypothesis or the laws of a class ([Transport] in Stage2, [PyEnumLaws] in Finding),
    each with a concrete instance in a witness.

    Fuel: the traversals run for [Worklist.budget] iterations, which [walk_spec]
    shows to be enough for every graph, cyclic or not; the JSON decoder runs for the
    length of its text; the discovery loop of Cursor for the number of chunks,
    which [discovery_exhausts] shows to be enough; the exploit loop for the drafts of its
    budget ([exploit_loop_bounded]); the shortest chain of CodeGraph for one turn per edge,
    shown to be enough in [path_is_shortest]; the walk over the parents of a contract for a
    number of turns that is a parameter, and [inventory_terminates] gives one; the rendering of Solidity types has
    the interpreter's recursion limit as a parameter and raises like it.  The bisection of
    ProofBench is exact within its 40 turns ([ppf_brackets_quantile]); the walk over imports
    runs for the number of turns that [RunnerSource.turns_needed] computes from the files; a
    lookup protocol for one turn more than its budget ([round_trip_bounded]); the attempts,
    the repairs in place and the rounds of a smoke build for the bounds the code gives them;
    the runner's inventory raises OutOfFuel past its bound, which no fuel beyond
    [inventory_terminates] does.

    ** What the theorems show

    - The methodology: the roadmap is a well-formed function of the event log
      ([roadmap_of_events]); the preview a transition carries is what the memory projects
      to once it is committed ([apply_preview_faithful]); the two ways to ask whether
      a finding is grounded agree ([grounding_agrees]); parity listings are canonical
      ([parity_canonical]); chunks partition the listing and discovery exhausts it
      ([partition_chunks_partition], [discovery_exhausts]); what the check and discovery
      actions commit ([run_check_outcomes], [run_discovery_commits]); the batch driver
      pauses or writes the one report of the final projection
      ([continue_audit_outcomes], [pointer_roundtrip]).
    - Safety of effects: an approval needs the unused token of a fetched notice
      ([approval_gate]); no write or execute tool runs from dispatch ([surface_safe]);
      confirmed actions have exactly their effects ([execute_confirmed_effects],
      [write_poc_one_file], [run_tests_offline]); the analyzers are confined
      ([analyzers_confined]); inputs and parameters are guarded
      ([validate_audit_input_gate], [validate_params_guards],
      [analyze_transactions_guarded]); the pack's tables are coherent ([pack_coherent]);
      the model key is write-only ([slots_safe]); sessions are opened for external
      directories only ([start_external]) and cloning keeps its token silent
      ([clone_token_silent]); the bus isolates sessions and keeps the order in every
      interleaving ([bus_isolated_in_order]), and a published event arrives
      ([published_event_arrives]).  The operator's server keeps all of this together: its
      sockets are the subscribers and its messages are accounted for
      ([server_keeps_books]), only a read notice leads to an approval
      ([approval_takes_reading]), and a refusal has its reason and no effect on the books
      ([refusals_have_reasons]).
    - The planner: balanced bodies and the partition of stage 1
      ([match_body_balanced], [run_stage1_partition]); propagation is the transitive
      closure ([propagate_transitive_closure]); stage 2 terminates, resumes and is
      idempotent ([run_stage2_resumes], [run_stage2_local_total]); stage 3 refines a
      pure function of each finding and is safe on severities ([run_stage3_pointwise],
      [stage3_severity_safety]).
    - Conversions and renderings: tool results become findings one to one
      ([slither_to_findings_one_to_one], [sg_to_findings_one_to_one],
      [adapt_findings_accounts], [signal_from_escalates]); the report and the tool
      output account for everything within their bounds ([report_partition],
      [truncate_lines_budget]).
    - Proof support: a reconstructed patch means exactly the report's fix or is refused
      ([reconstruct_applies]); the inheritance queries are reachability
      ([inheritance_queries]); the taxonomy accounts for its log ([classify_accounts]);
      a refused repair restores the best attempt so far ([refuse_restores_best]); the
      fixers touch what they say ([import_paths_scoped], [address_fix_line_scoped],
      [undeclared_import_known], [synth_repair_rows]); an inventory holds what the
      ancestors declare, each name at one type, within its budget
      ([inventory_of_ancestors], [dedup_state_types], [render_within_budget],
      [inventory_terminates]); wiring patterns are grounded in the sources, complete
      checks mean the wiring is there, its repair only retargets, and excerpts keep their
      budget up to the markers ([detected_grounded], [check_reachability_exact],
      [wiring_only_retargets], [excerpt_within]); call site, caller, streak and baseline
      are what the history of the runs says ([canonical_call_site_spec],
      [caller_is_nearest_prank], [streak_is_run], [reminder_is_regression]).
    - Measuring: the exploit loop ends and its result means what it says
      ([exploit_loop_bounded], [exploit_loop_result]); an evaluation run counts every
      criterion once and its gate is its thresholds ([dataset_well_formed],
      [eval_run_accounts], [gate_decides]); the benchmark's matching never inflates and
      never wastes ([matching_is_exact]); chains in the code graph are shortest
      ([path_is_shortest]); the credible interval brackets its quantiles and a report counts
      each run once ([ppf_brackets_quantile], [score_accounts], [run_case_pinned]); the screen
      publishes what happened and its front is what nothing beats
      ([cascade_class_accounts], [pareto_front], [run_signals_sound], [prereg_appends]).
    - The queue runner: a proof is checked before it is called one
      ([passed_verified_sound]), on a throwaway copy ([mutation_verify_sound]) and with the
      finding's own fix ([extracted_fix_confident]); every finding of a run gets exactly
      one terminal and a run that stops early leaves its target as it was ([main_accounts],
      [queue_accounts]), and a synthesis one of its own, promoting only what
      builds ([synthesis_accounts]); a round trip and an excerpt stay within their budgets
      ([round_trip_bounded], [location_source_within], [trace_excerpt_bounded]); retries,
      prompts and the example are what they say ([call_with_retry_outcomes],
      [prompts_resolve], [example_not_leaked]).

    A few lemmas record surprises: [Pipeline.skipped_reported_as_analyzed],
    [Methodology.duplicate_ids_disagree], [Patch.removal_taken_for_header],
    [Patch.trailing_context_overlaps], [Causes.retry_charged_to_synthesis],
    [ModelSlots.rejected_request_applied], [ExploitLoop.blank_line_before_verb_raises],
    [ExploitLoop.gap_overflow_escapes], [ExploitLoop.changed_without_pragma],
    [Fixers.final_newline_dropped], [Fixers.address_applied_without_change],
    [Eval.known_tag_is_never_false_positive], [Operator.ancestor_of_agent_accepted],
    [Operator.failed_report_leaves_saved_chat], [Operator.upper_scheme_keeps_url],
    [Reach.plain_field_missed], [Reach.comparison_taken_for_setter],
    [Reach.two_step_order_ignored], [Reach.excerpt_over_budget],
    [Repeat.tree_layout_misses_frame], [ProofBench.verified_run_is_error_stage],
    [RunnerLookup.marker_survives_stripping], [RunnerLookup.raw_call_raises],
    [RunnerSource.commas_pass_preflight], [RunnerSynth.empty_base_reused],
    [RunnerHints.long_reason_exceeds], [RunnerSound.reverted_code_reported_proved],
    [RunnerSound.agentic_outcome_unknown], [RunnerSound.artifact_raw_id],
    [HttpSound.foreign_token_crashes], [HttpSound.odd_file_hides_queue],
    [HttpSound.raised_turn_is_silent], [HttpSound.overlapping_turn_hides_pause].

    ** What is not modelled

    The command line (I/O around modelled operations); the decoding of requests by the
    framework, with bodies that hold other values than strings and nulls, and the serving
    of the page's files; pushing a dataset or scores to the tracing service; building the code graph (an external tool);
    the construction of the kernel's loop in a session; the argument parsers of the
    scripts, the queue runner's keep-alive thread, which can log between two steps of a run,
    and the files its log is appended to; the hash of the oracle's source in the screen; the
    unified difference of difflib, a parameter of the runner; the model-backed detector of
    scripts/bench.py; the fine-tuning scripts and the web interface.  Logging, tracing and
    progress events are left out everywhere but in the exploit loop and the queue runner,
    whose results count them.  The minutes of the runner's budgets are integers in the units
    of its monotonic clock, without the rounding of a division by sixty. *)

From stdpp Require Export base tactics decidable gmap strings list sorting pretty.
From Stdlib Require Export ZArith Lia Ascii.

#[global] Open Scope Z_scope.
#[global] Open Scope nat_scope.

(** ** Exceptions and the result monad

    A Python call either returns or raises.  An exception is its class name and
    its message; [res] is the sum of the two outcomes. *)

Record exn := Exn { exn_class : string; exn_msg : string }.

Inductive res (A : Type) :=
  | Ok (a : A)
  | Raise (e : exn).
Arguments Ok {A} _.
Arguments Raise {A} _.

#[export] Instance exn_eq_dec : EqDecision exn.
Proof. solve_decision. Defined.
#[export] Instance res_eq_dec {A} `{EqDecision A} : EqDecision (res A).
Proof. solve_decision. Defined.

#[export] Instance res_ret : MRet res := fun _ a => Ok a.
#[export] Instance res_bind : MBind res := fun _ _ f m =>
  match m with Ok a => f a | Raise e => Raise e end.

Definition is_ok_res {A} (m : res A) : bool :=
  match m with Ok _ => true | Raise _ => false end.

(** [try: m except Exception: h] *)
Definition catch_all {A} (m : res A) (h : exn -> A) : A :=
  match m with Ok a => a | Raise e => h e end.

Definition res_to_option {A} (m : res A) : option A :=
  match m with Ok a => Some a | Raise _ => None end.

Lemma res_bind_Ok {A B} (m : res A) (f : A -> res B) b :
  (m ≫= f) = Ok b <-> exists a, m = Ok a /\ f a = Ok b.
Proof. destruct m; cbn; naive_solver. Qed.

Lemma bind_raises {A B} (m : res A) (f : A -> res B) e :
  (m ≫= f) = Raise e -> m = Raise e \/ exists a, m = Ok a /\ f a = Raise e.
Proof. destruct m; cbn; [right; eauto|left; congruence]. Qed.

(** A list built by a function that can raise, from left to right *)
Fixpoint map_res {A B} (f : A -> res B) (l : list A) : res (list B) :=
  match l with
  | [] => Ok []
  | x :: l' => y ← f x; ys ← map_res f l'; Ok (y :: ys)
  end.

(** ** State and exceptions

    A method that changes an object, a file or the kernel's store: a function from
    the state before to the state after and the outcome.  The state of a call that
    raises is kept. *)

Definition ST (S A : Type) : Type := S -> S * res A.
#[export] Instance st_ret {S} : MRet (ST S) := fun _ a s => (s, Ok a).
#[export] Instance st_bind {S} : MBind (ST S) := fun _ _ f m s =>
  match m s with (s', Ok a) => f a s' | (s', Raise e) => (s', Raise e) end.

Definition st_lift {S A} (m : res A) : ST S A := fun s => (s, m).
Definition st_gets {S A} (f : S -> A) : ST S A := fun s => (s, Ok (f s)).
Definition st_modify {S} (f : S -> S) : ST S unit := fun s => (f s, Ok tt).

Lemma st_bind_Ok {S A B} (m : ST S A) (f : A -> ST S B) s s' a :
  m s = (s', Ok a) -> (m ≫= f) s = f a s'.
Proof. intros Hm. unfold mbind, st_bind. by rewrite Hm. Qed.

Lemma st_bind_inv {S A B} (m : ST S A) (f : A -> ST S B) s s' o :
  (m ≫= f) s = (s', o) ->
  (exists s1 a, m s = (s1, Ok a) /\ f a s1 = (s', o)) \/ (exists e, m s = (s', Raise e) /\ o = Raise e).
Proof. unfold mbind, st_bind. destruct (m s) as [s1 [a|e]]; [eauto|]. intros [= <- <-]. eauto. Qed.

(** Loops over a list *)
Fixpoint fold_res {A B} (f : A -> B -> res A) (a : A) (l : list B) : res A :=
  match l with [] => Ok a | x :: l' => a ← f a x; fold_res f a l' end.
Fixpoint map_st {S A B} (f : A -> ST S B) (l : list A) : ST S (list B) :=
  match l with [] => mret [] | x :: l' => y ← f x; ys ← map_st f l'; mret (y :: ys) end.
Fixpoint fold_st {S A B} (f : B -> A -> ST S A) (l : list B) (a : A) : ST S A :=
  match l with [] => mret a | x :: l' => a ← f x a; fold_st f l' a end.

(** [try: m finally: f] *)
Definition finally {S A} (m : ST S A) (f : ST S unit) : ST S A := fun s =>
  let '(s1, r) := m s in let '(s2, r') := f s1 in (s2, match r' with Ok _ => r | Raise e => Raise e end).

(** ** Tactics *)

(** Case analysis on every match of the goal, closing the contradictory ones. *)
Ltac case_all := repeat (case_match; simplify_eq/=); try done.

(** Splits boolean conjunctions/disjunctions in the hypotheses and the goal into
    propositions. *)
Ltac boolify :=
  repeat match goal with
  | H : context [_ && _ = true] |- _ => rewrite andb_true_iff in H
  | H : context [_ || _ = true] |- _ => rewrite orb_true_iff in H
  | H : context [negb _ = true] |- _ => rewrite negb_true_iff in H
  | H : context [bool_decide _ = true] |- _ => rewrite bool_decide_eq_true in H
  | H : context [bool_decide _ = false] |- _ => rewrite bool_decide_eq_false in H
  | |- context [_ && _ = true] => rewrite andb_true_iff
  | |- context [_ || _ = true] => rewrite orb_true_iff
  | |- context [negb _ = true] => rewrite negb_true_iff
  | |- context [bool_decide _ = true] => rewrite bool_decide_eq_true
  | |- context [bool_decide _ = false] => rewrite bool_decide_eq_false
  end.

Create HintDb py.
Create Rewrite HintDb pyr.

(** ** Python's stable sort

    [list.sort] and [sorted] are stable, so the result is determined by the key
    order.  Insertion before the first element that is not smaller, folded from
    the right, is the stable sort. *)

Section stable_sort.
Context {A : Type} (leb : A -> A -> bool).

Fixpoint insert_stable (x : A) (l : list A) : list A :=
  match l with
  | [] => [x]
  | y :: l' => if leb x y then x :: y :: l' else y :: insert_stable x l'
  end.

Definition py_sort (l : list A) : list A := foldr insert_stable [] l.

Lemma insert_stable_perm x l : insert_stable x l ≡ₚ x :: l.
Proof.
  induction l as [|y l IH]; simpl; [done|].
  destruct (leb x y); [done|]. rewrite IH. apply Permutation_swap.
Qed.

Lemma py_sort_perm l : py_sort l ≡ₚ l.
Proof.
  induction l as [|x l IH]; simpl; [done|].
  by rewrite insert_stable_perm, IH.
Qed.

Lemma elem_of_py_sort x l : x ∈ py_sort l <-> x ∈ l.
Proof. by rewrite py_sort_perm. Qed.

Lemma length_py_sort l : length (py_sort l) = length l.
Proof. by rewrite py_sort_perm. Qed.

Context (leb_total : forall x y, leb x y = true \/ leb y x = true).
Context (leb_trans : forall x y z, leb x y = true -> leb y z = true -> leb x z = true).

Lemma insert_stable_sorted x l :
  StronglySorted (fun a b => leb a b = true) l ->
  StronglySorted (fun a b => leb a b = true) (insert_stable x l).
Proof.
  induction 1 as [|y l Hs IH Hy]; simpl; [by repeat constructor|].
  destruct (leb x y) eqn:Hxy.
  - constructor; [by constructor|]. constructor; [done|].
  eapply Forall_impl; [exact Hy|]. intros z; simpl; eauto.
  - constructor; [done|].
  rewrite insert_stable_perm. constructor; [|done].
  destruct (leb_total x y); congruence.
Qed.

Lemma py_sort_sorted l : StronglySorted (fun a b => leb a b = true) (py_sort l).
Proof. induction l; simpl; [constructor|]. by apply insert_stable_sorted. Qed.

(** Stability: a class of elements the order does not separate keeps its
    original relative order. *)
Lemma py_sort_id l : StronglySorted (fun a b => leb a b = true) l -> py_sort l = l.
Proof.
  induction 1 as [|x l Hs IH Hx]; [done|]. cbn [py_sort foldr] in *. fold (py_sort l). rewrite IH.
  destruct Hx as [|y l Hy _]; [done|]. cbn [insert_stable]. by rewrite Hy.
Qed.

Lemma py_sort_idem l : py_sort (py_sort l) = py_sort l.
Proof. apply py_sort_id, py_sort_sorted. Qed.

Lemma insert_stable_filter (P : A -> Prop) `{!forall x, Decision (P x)} x l :
  (forall a b, P a -> P b -> leb a b = true) ->
  filter P (insert_stable x l) = filter P (x :: l).
Proof.
  intros HP. induction l as [|y l IH]; simpl; [done|].
  destruct (leb x y) eqn:Hxy; [done|].
  rewrite !filter_cons in *. destruct (decide (P x)) as [Hx|Hx], (decide (P y)) as [Hy|Hy];
  rewrite ?IH; try done.
  rewrite HP in Hxy; done.
Qed.

Lemma py_sort_stable (P : A -> Prop) `{!forall x, Decision (P x)} l :
  (forall a b, P a -> P b -> leb a b = true) ->
  filter P (py_sort l) = filter P l.
Proof.
  intros HP. induction l as [|x l IH]; simpl; [done|].
  rewrite insert_stable_filter by done. by rewrite !filter_cons, IH.
Qed.
End stable_sort.

(** Two sorted permutations of each other are equal when the order is antisymmetric. *)
Lemma py_sort_map {A B} (leb : A -> A -> bool) (leb' : B -> B -> bool) (f : A -> B) l : (forall x y, leb' (f x) (f y) = leb x y) ->
  py_sort leb' (map f l) = map f (py_sort leb l).
Proof.
  intros Hf. induction l as [|x l IH]; [done|]. cbn [py_sort foldr map] in *. fold (py_sort leb l) (py_sort leb' (map f l)). rewrite IH.
  generalize (py_sort leb l). clear l IH. intros l. induction l as [|y l IH]; [done|]. cbn [insert_stable map]. rewrite Hf.
  destruct (leb x y); [done|]. cbn [map]. by rewrite IH.
Qed.

Lemma sorted_perm_eq {A} (leb : A -> A -> bool) (Hanti : forall x y, leb x y = true -> leb y x = true -> x = y) l l' :
  l ≡ₚ l' -> StronglySorted (fun a b => leb a b = true) l -> StronglySorted (fun a b => leb a b = true) l' -> l = l'.
Proof.
  intros Hp H1 H2. assert (AntiSymm eq (fun a b => leb a b = true)) by (intros x y; apply Hanti).
  by apply (StronglySorted_unique (fun a b => leb a b = true)).
Qed.

(** Python's [max(xs, key=...)] keeps the first maximal element: the accumulator
    is replaced only by a strictly greater one. *)
Fixpoint py_max_from {A} (ltb : A -> A -> bool) (best : A) (l : list A) : A :=
  match l with
  | [] => best
  | x :: l' => py_max_from ltb (if ltb best x then x else best) l'
  end.

(** ** Lists and options *)

Lemma Forall_filter_sub {A} (P Q : A -> Prop) `{!forall x, Decision (P x)} l :
  Forall Q l -> Forall Q (filter P l).
Proof. rewrite !Forall_forall. intros HQ x Hx. apply list_elem_of_filter in Hx. naive_solver. Qed.

(** Above every element of a finite list lies an element that nothing of the list is
    strictly above. *)
Lemma maximal_above {A} (R : A -> A -> bool) (l : list A) :
  (forall x, x ∈ l -> R x x = false) -> (forall x y z, y ∈ l -> R x y = true -> R y z = true -> R x z = true) ->
  forall x, x ∈ l -> exists m, m ∈ l /\ (m = x \/ R m x = true) /\ forall y, y ∈ l -> R y m = false.
Proof.
  intros Hirr Htr. set (up x := List.filter (fun y => R y x) l).
  enough (forall n x, length (up x) < n -> x ∈ l -> exists m, m ∈ l /\ (m = x \/ R m x = true) /\ forall y, y ∈ l -> R y m = false) as H
    by (intros x Hx; apply (H (S (length (up x)))); [lia|done]).
  induction n as [|n IH]; intros x Hn Hx; [lia|]. destruct (up x) as [|y rest] eqn:Hup.
  - exists x. split_and!; [done|by left|]. intros y Hy. destruct (R y x) eqn:Hyx; [|done].
    assert (y ∈ up x) as H by (unfold up; by rewrite list_elem_of_In, filter_In, <- list_elem_of_In). rewrite Hup in H. by apply not_elem_of_nil in H.
  - assert (y ∈ up x) as Hy by (rewrite Hup; by left). unfold up in Hy. rewrite list_elem_of_In, filter_In, <- list_elem_of_In in Hy.
    destruct Hy as [Hyl Hyx]. destruct (IH y) as (m & Hm & Hmy & Hmax); [|done|].
    + enough (length (up y) < length (up x)) by (rewrite Hup in *; cbn [length] in *; lia).
      assert (forall k, (forall z, z ∈ k -> z ∈ l) -> length (List.filter (fun z => R z y) k) <= length (List.filter (fun z => R z x) k)
        /\ (y ∈ k -> length (List.filter (fun z => R z y) k) < length (List.filter (fun z => R z x) k))) as Hk; [|by apply Hk].
      clear IH Hn Hup. induction k as [|z k IHk]; intros Hk; [split; [done|by intros ?%not_elem_of_nil]|].
      destruct IHk as [Hle Hlt]; [intros w Hw; apply Hk; by right|]. cbn [List.filter].
      destruct (R z y) eqn:Hzy; [rewrite (Htr z y x Hyl Hzy Hyx)|destruct (R z x) eqn:Hzx]; cbn [length].
      * split; [lia|]. intros [<-|H]%elem_of_cons; [by rewrite Hirr in Hzy|]. pose proof (Hlt H). lia.
      * split; [lia|]. intros _. lia.
      * split; [lia|]. intros [<-|?]%elem_of_cons; [congruence|]. by apply Hlt.
    + exists m. split_and!; [done| |done]. right. destruct Hmy as [->|Hmy]; [done|by apply (Htr m y x)].
Qed.

(** The first element satisfying a boolean test: [next((x for x in l if p(x)), None)]. *)
Fixpoint first {A} (p : A -> bool) (l : list A) : option A :=
  match l with
  | [] => None
  | x :: l' => if p x then Some x else first p l'
  end.

Lemma first_Some {A} (p : A -> bool) l x :
  first p l = Some x -> x ∈ l /\ p x = true.
Proof. induction l as [|y l IH]; simpl; intros; case_all; set_solver. Qed.

Lemma first_None {A} (p : A -> bool) l :
  first p l = None <-> forall x, x ∈ l -> p x = false.
Proof.
  induction l as [|y l IH]; simpl; [set_solver|].
  destruct (p y) eqn:Hy; split; intros H; [done| |intros x; rewrite elem_of_cons|].
  - rewrite (H y) in Hy; set_solver.
  - intros [->|Hx]; [done|]. by apply IH.
  - apply IH. intros x Hx. apply H. set_solver.
Qed.

Lemma filter_all_false {A} (p : A -> bool) l : (forall x, x ∈ l -> p x = false) -> List.filter p l = [].
Proof.
  induction l as [|x l IH]; intros Hp; [done|]. cbn. rewrite Hp by left. apply IH. intros y Hy. apply Hp. by right.
Qed.

Definition is_none {A} (o : option A) : bool :=
  match o with None => true | Some _ => false end.

(** [d.get(k, default)] on an association list in insertion order. *)
Fixpoint assoc {K V} `{EqDecision K} (k : K) (l : list (K * V)) : option V :=
  match l with
  | [] => None
  | (k', v) :: l' => if decide (k = k') then Some v else assoc k l'
  end.

(** [d[k] = v] on an association list: an existing key keeps its position. *)
Fixpoint assoc_set {K V} `{EqDecision K} (k : K) (v : V) (l : list (K * V)) : list (K * V) :=
  match l with
  | [] => [(k, v)]
  | (k', v') :: l' => if decide (k = k') then (k, v) :: l' else (k', v') :: assoc_set k v l'
  end.

Lemma assoc_set_eq {K V} `{EqDecision K} (k : K) (v : V) l : assoc k (assoc_set k v l) = Some v.
Proof. induction l as [|[k' v'] l IH]; simpl; repeat case_decide; simpl; repeat case_decide; congruence. Qed.

Lemma assoc_set_ne {K V} `{EqDecision K} (k k' : K) (v : V) l :
  k <> k' -> assoc k' (assoc_set k v l) = assoc k' l.
Proof.
  intros. induction l as [|[k0 v0] l IH]; simpl; repeat case_decide; simpl; repeat case_decide; congruence.
Qed.

Lemma assoc_Some_elem {K V} `{EqDecision K} (k : K) (v : V) l : assoc k l = Some v -> (k, v) ∈ l.
Proof. induction l as [|[k' v'] l IH]; simpl; [done|]. case_decide; set_solver. Qed.

Lemma assoc_NoDup_elem {K V} `{EqDecision K} (k : K) (v : V) l :
  NoDup l.*1 -> (k, v) ∈ l -> assoc k l = Some v.
Proof.
  induction l as [|[k' v'] l IH]; csimpl; [by intros _ ?%not_elem_of_nil|].
  intros [Hk Hnd]%NoDup_cons [[= -> ->]|Hin]%elem_of_cons; [by rewrite decide_True|].
  rewrite decide_False; [by apply IH|]. intros ->. apply Hk. apply list_elem_of_fmap. by exists (k', v).
Qed.

Lemma assoc_set_keys_old {K V} `{EqDecision K} (k : K) (v : V) l :
  k ∈ l.*1 -> (assoc_set k v l).*1 = l.*1.
Proof.
  induction l as [|[k' v'] l IH]; csimpl; [set_solver|].
  case_decide as Hk; csimpl; [by subst|]. intros Hin. rewrite IH; set_solver.
Qed.

Lemma assoc_set_keys_new {K V} `{EqDecision K} (k : K) (v : V) l :
  k ∉ l.*1 -> assoc_set k v l = l ++ [(k, v)].
Proof.
  induction l as [|[k' v'] l IH]; csimpl; [done|].
  intros Hin. rewrite decide_False by set_solver. rewrite IH; set_solver.
Qed.

Lemma assoc_keys {K V} `{EqDecision K} (k : K) (l : list (K * V)) :
  is_Some (assoc k l) <-> k ∈ l.*1.
Proof.
  induction l as [|[k' v] l IH]; csimpl; [split; [intros [? ?]; done|set_solver]|].
  rewrite elem_of_cons, <- IH. case_decide; naive_solver.
Qed.

Lemma assoc_None {K V} `{EqDecision K} (k : K) (l : list (K * V)) : assoc k l = None <-> k ∉ l.*1.
Proof. rewrite <- assoc_keys, eq_None_not_Some. done. Qed.

Lemma Forall_assoc_set {K V} `{EqDecision K} (P : K * V -> Prop) k v l :
  P (k, v) -> Forall P l -> Forall P (assoc_set k v l).
Proof.
  intros Hk. induction 1 as [|[k' v'] l Hx Hl IH]; cbn; [by repeat constructor|].
  case_decide; by constructor.
Qed.

Lemma NoDup_assoc_set {K V} `{EqDecision K} k (v : V) (l : list (K * V)) :
  NoDup l.*1 -> NoDup (assoc_set k v l).*1.
Proof.
  intros Hnd. destruct (decide (k ∈ l.*1)) as [Hk|Hk]; [by rewrite assoc_set_keys_old|].
  rewrite assoc_set_keys_new, fmap_app by done. apply NoDup_app. split_and!; [done| |apply NoDup_singleton].
  intros x Hx ->%list_elem_of_singleton. done.
Qed.

Lemma elem_of_assoc_set_ne {K V} `{EqDecision K} k (v : V) k' v' (l : list (K * V)) :
  (k', v') ∈ l -> k' <> k -> (k', v') ∈ assoc_set k v l.
Proof.
  induction l as [|[k0 v0] l IH]; [by intros ?%not_elem_of_nil|]. cbn.
  intros [[= -> ->]|Hin]%elem_of_cons Hne; case_decide; subst; try done; [left|right..]; auto.
Qed.

Lemma elem_of_assoc_set_eq {K V} `{EqDecision K} k (v : V) (l : list (K * V)) : (k, v) ∈ assoc_set k v l.
Proof. induction l as [|[k0 v0] l IH]; cbn; [left|]. case_decide; [left|by right]. Qed.

#[export] Hint Resolve assoc_set_eq assoc_Some_elem : py.
#[export] Hint Rewrite @assoc_set_eq @length_py_sort : pyr.

Lemma elem_of_concat_fmap {A B C} (g : B -> list C) (f : A -> B) l x :
  x ∈ List.concat (g <$> map f l) <-> exists a, a ∈ l /\ x ∈ g (f a).
Proof.
  rewrite list_elem_of_In, in_concat. split.
  - intros (y & Hy & Hx). apply list_elem_of_In, list_elem_of_fmap in Hy as (b & -> & (a & -> & Ha)%list_elem_of_fmap).
    exists a. split; [done|by apply list_elem_of_In].
  - intros (a & Ha & Hx). exists (g (f a)). split; [|by apply list_elem_of_In].
    apply list_elem_of_In, list_elem_of_fmap. eexists; split; [done|]. apply list_elem_of_fmap. eauto.
Qed.

(** ** Order-preserving removal of duplicates

    [dict.fromkeys(l)]: the first occurrences, in order. *)

Fixpoint unique_from {A} `{EqDecision A} (seen l : list A) : list A :=
  match l with
  | [] => []
  | x :: l' => if bool_decide (x ∈ seen) then unique_from seen l' else x :: unique_from (x :: seen) l'
  end.
Definition unique {A} `{EqDecision A} (l : list A) : list A := unique_from [] l.

Lemma elem_of_unique_from {A} `{EqDecision A} (seen l : list A) x :
  x ∈ unique_from seen l <-> x ∈ l /\ x ∉ seen.
Proof.
  revert seen. induction l as [|y l IH]; intros seen; cbn; [set_solver|].
  case_bool_decide as Hy; [rewrite IH; set_solver|].
  rewrite elem_of_cons, IH. destruct (decide (x = y)); set_solver.
Qed.

Lemma NoDup_unique_from {A} `{EqDecision A} (seen l : list A) : NoDup (unique_from seen l).
Proof.
  revert seen. induction l as [|y l IH]; intros seen; cbn; [constructor|].
  case_bool_decide; [apply IH|]. constructor; [|apply IH]. rewrite elem_of_unique_from. set_solver.
Qed.

Lemma elem_of_unique {A} `{EqDecision A} (l : list A) x : x ∈ unique l <-> x ∈ l.
Proof. unfold unique. rewrite elem_of_unique_from. set_solver. Qed.

Lemma NoDup_unique {A} `{EqDecision A} (l : list A) : NoDup (unique l).
Proof. apply NoDup_unique_from. Qed.

(** ** Grouping

    [d.setdefault(key(x), []).append(x)] over a list, for the elements that are kept. *)

Definition group_step {A K} `{EqDecision K} (keep : A -> bool) (key : A -> K) (d : list (K * list A)) (x : A) : list (K * list A) :=
  if keep x then assoc_set (key x) (default [] (assoc (key x) d) ++ [x]) d else d.

Lemma filter_snoc {A} (p : A -> bool) l x : List.filter p (l ++ [x]) = List.filter p l ++ (if p x then [x] else []).
Proof. by rewrite List.filter_app. Qed.

Lemma group_spec {A K} `{EqDecision K} (keep : A -> bool) (key : A -> K) l :
  let d := foldl (group_step keep key) [] l in
  NoDup d.*1 /\
  (forall k xs, (k, xs) ∈ d -> xs = List.filter (fun x => keep x && bool_decide (key x = k)) l /\ xs <> []) /\
  (forall x, x ∈ l -> keep x = true -> key x ∈ d.*1).
Proof.
  cbv zeta. induction l as [|x l (Hnd & Hb & Hall)] using rev_ind; cbn [foldl].
  { split_and!; [constructor|by intros ? ? ?%not_elem_of_nil|by intros ? ?%not_elem_of_nil]. }
  rewrite foldl_snoc. set (d := foldl (group_step keep key) [] l) in *. unfold group_step.
  destruct (keep x) eqn:Hx.
  - set (d' := assoc_set (key x) (default [] (assoc (key x) d) ++ [x]) d).
    assert (NoDup d'.*1) as Hnd' by (by apply NoDup_assoc_set). split_and!; [done| |].
    + intros k xs Hin. apply (assoc_NoDup_elem _ _ _ Hnd') in Hin. unfold d' in Hin. rewrite filter_snoc, Hx. cbn [andb].
      destruct (decide (key x = k)) as [<-|Hne].
      * rewrite bool_decide_true by done. rewrite assoc_set_eq in Hin. injection Hin as <-. split; [|by destruct (default [] _)]. f_equal.
        destruct (assoc (key x) d) as [ys|] eqn:E; cbn [default].
        -- apply assoc_Some_elem, Hb in E. naive_solver.
        -- symmetry. apply filter_all_false. intros y Hy. apply andb_false_iff. destruct (keep y) eqn:Hky; [right|by left].
           apply bool_decide_eq_false. intros Heq. assert (key y ∈ d.*1) as Hk by (by apply Hall). rewrite Heq in Hk.
           apply assoc_keys in Hk as [? Hk]. congruence.
      * rewrite bool_decide_false by done. rewrite app_nil_r. apply Hb. rewrite assoc_set_ne in Hin by done. by apply assoc_Some_elem.
    + intros y [Hy| ->%list_elem_of_singleton]%elem_of_app Hky; apply assoc_keys; unfold d'; [|by rewrite assoc_set_eq].
      destruct (decide (key x = key y)) as [->|Hne]; [by rewrite assoc_set_eq|].
      rewrite assoc_set_ne by done. apply assoc_keys. by apply Hall.
  - split_and!; [done| |].
    + intros k xs Hin. rewrite filter_snoc, Hx, app_nil_r. by apply Hb.
    + intros y [Hy| ->%list_elem_of_singleton]%elem_of_app Hky; [by apply Hall|congruence].
Qed.

Lemma map_res_Ok {A B} (f : A -> res B) l l' : map_res f l = Ok l' <-> Forall2 (fun x y => f x = Ok y) l l'.
Proof.
  revert l'. induction l as [|x l IH]; intros l'; cbn [map_res].
  - split; [by intros [= <-]|]. intros H. by apply Forall2_nil_inv_l in H as ->.
  - split.
    + intros (y & Hy & (ys & Hys & [= <-])%res_bind_Ok)%res_bind_Ok. constructor; [done|by apply IH].
    + intros (y & ys & Hy & Hys & ->)%Forall2_cons_inv_l. rewrite Hy. cbn. apply IH in Hys. by rewrite Hys.
Qed.

(** ** Loops

    [while True] with its variables as an argument: a turn either goes on with new
    values of the variables or returns.  [n] bounds the turns; [None] is running out
    of them. *)

Fixpoint iter_st {S V A} (turn : V -> ST S (V + A)) (n : nat) (v : V) : ST S (option A) :=
  match n with
  | 0 => mret None
  | S n' => o ← turn v; match o with inl v' => iter_st turn n' v' | inr a => mret (Some a) end
  end.

Section iter_st.
Context {S V A : Type} (turn : V -> ST S (V + A)).

(** A measure that every turn decreases, under an invariant, bounds the turns. *)
Lemma iter_st_total (I : V -> S -> Prop) (mu : V -> nat) n v s :
  (forall v s s' v', I v s -> turn v s = (s', Ok (inl v')) -> I v' s' /\ mu v' < mu v) ->
  I v s -> mu v < n -> (iter_st turn n v s).2 <> Ok None.
Proof.
  intros Hmu. revert v s. induction n as [|n IH]; intros v s Hv Hn; [lia|].
  cbn [iter_st]. unfold mbind, st_bind. destruct (turn v s) as [s' [[v'|a]|e]] eqn:Et; [|done..].
  apply Hmu in Et as [Hv' Hlt]; [|done]. apply IH; [done|lia].
Qed.

(** An invariant of the variables and the state holds at the turn that returns, and
    at the turn that raises. *)
Lemma iter_st_invariant (I : V -> S -> Prop) n v s s' r :
  (forall v s s' v', I v s -> turn v s = (s', Ok (inl v')) -> I v' s') ->
  I v s -> iter_st turn n v s = (s', r) ->
  match r with
  | Ok (Some a) => exists v1 s1, I v1 s1 /\ turn v1 s1 = (s', Ok (inr a))
  | Ok None => exists v1, I v1 s'
  | Raise e => exists v1 s1, I v1 s1 /\ turn v1 s1 = (s', Raise e)
  end.
Proof.
  intros HI. revert v s. induction n as [|n IH]; intros v s Hv; cbn [iter_st].
  { intros [= <- <-]. by exists v. }
  unfold mbind, st_bind. destruct (turn v s) as [s1 [[v'|a]|e]] eqn:Et.
  - intros Hr. eapply IH; [|exact Hr]. by eapply HI.
  - intros [= <- <-]. eauto.
  - intros [= <- <-]. eauto.
Qed.

(** More turns give the same result. *)
Lemma iter_st_more n m v s s' r :
  iter_st turn n v s = (s', r) -> r <> Ok None -> n <= m -> iter_st turn m v s = (s', r).
Proof.
  revert m v s. induction n as [|n IH]; intros m v s; cbn [iter_st].
  { intros [= <- <-]. done. }
  intros Hr Hne Hm. destruct m as [|m]; [lia|]. cbn [iter_st]. revert Hr.
  unfold mbind, st_bind. destruct (turn v s) as [s1 [[v'|a]|e]]; [|done..].
  intros Hr. apply IH; [done..|lia].
Qed.
End iter_st.

(** ** Steps of a preorder

    What every step of a computation respects, the whole of it respects, however it ends:
    a state that only grows, a field that is kept. *)

Definition steps {S A} (R : S -> S -> Prop) (m : ST S A) : Prop := forall s s' x, m s = (s', x) -> R s s'.

Section steps.
Context {S : Type} (R : S -> S -> Prop) `{!PreOrder R}.

Lemma steps_still {A} (m : ST S A) : (forall s, (m s).1 = s) -> steps R m.
Proof. intros Hm s s' x H. specialize (Hm s). rewrite H in Hm. cbn in Hm. by rewrite Hm. Qed.
Lemma steps_ret {A} (a : A) : steps R (mret a).
Proof. by apply steps_still. Qed.
Lemma steps_lift {A} (m : res A) : steps R (st_lift m).
Proof. by apply steps_still. Qed.
Lemma steps_gets {A} (f : S -> A) : steps R (st_gets f).
Proof. by apply steps_still. Qed.
Lemma steps_modify f : (forall s, R s (f s)) -> steps R (st_modify f).
Proof. intros Hf s s' x [= <- _]. apply Hf. Qed.

Lemma steps_bind {A B} (m : ST S A) (f : A -> ST S B) : steps R m -> (forall a, steps R (f a)) -> steps R (a ← m; f a).
Proof.
  intros Hm Hf s s' x H. apply st_bind_inv in H as [(s1 & a & H1 & H2)|(e & H1 & ->)]; [|by eapply Hm].
  etrans; [by eapply Hm|by eapply Hf].
Qed.

Lemma steps_map {A B} (f : A -> ST S B) l : (forall a, steps R (f a)) -> steps R (map_st f l).
Proof.
  intros Hf. induction l as [|a l IH]; cbn [map_st]; [apply steps_ret|]. apply steps_bind; [apply Hf|]. intros b.
  apply steps_bind; [exact IH|]. intros bs. apply steps_ret.
Qed.

Lemma steps_iter {V A} (turn : V -> ST S (V + A)) n v : (forall v, steps R (turn v)) -> steps R (iter_st turn n v).
Proof.
  intros Ht. revert v. induction n as [|n IH]; intros v; cbn [iter_st]; [apply steps_ret|]. apply steps_bind; [apply Ht|].
  intros [v'|a]; [apply IH|apply steps_ret].
Qed.

Lemma steps_finally {A} (m : ST S A) f : steps R m -> steps R f -> steps R (finally m f).
Proof.
  intros Hm Hf s s' x H. unfold finally in H. destruct (m s) as [s1 y] eqn:E1, (f s1) as [s2 z] eqn:E2. injection H as <- _.
  etrans; [by eapply Hm|by eapply Hf].
Qed.
End steps.
