(* ===== verification/PyStr.v ===== *)
(** * Python string operations

    The [str] methods the code uses, on [string].  A Python [str] is modelled by
    its UTF-8 bytes; on ASCII text (all the text the code inspects character by
    character) a byte is a character, and [str] comparison, which goes by code
    point, agrees with the byte order. *)

From S2P Require Import Prelude.

Declare Scope py_scope.
Delimit Scope py_scope with py.

(** ** Characters *)

Definition ascii_in (lo hi : nat) (c : ascii) : bool :=
  (lo <=? nat_of_ascii c)%nat && (nat_of_ascii c <=? hi)%nat.

Definition is_digit (c : ascii) : bool := ascii_in 48 57 c.
Definition is_upper (c : ascii) : bool := ascii_in 65 90 c.
Definition is_lower (c : ascii) : bool := ascii_in 97 122 c.
Definition is_alpha (c : ascii) : bool := is_upper c || is_lower c.
Definition is_alnum (c : ascii) : bool := is_alpha c || is_digit c.
(** [\w] *)
Definition is_word (c : ascii) : bool := is_alnum c || Ascii.eqb c "_"%char.
(** [str.isspace], [\s]: tab .. carriage return, the four separators, blank *)
Definition is_space (c : ascii) : bool :=
  ascii_in 9 13 c || ascii_in 28 31 c || Ascii.eqb c " "%char.
(** The line boundaries of [str.splitlines] below 128 *)
Definition is_linebreak (c : ascii) : bool := ascii_in 10 13 c || ascii_in 28 30 c.

Definition lower_char (c : ascii) : ascii :=
  if is_upper c then ascii_of_nat (nat_of_ascii c + 32) else c.
Definition upper_char (c : ascii) : ascii :=
  if is_lower c then ascii_of_nat (nat_of_ascii c - 32) else c.

Definition nl : ascii := "010"%char.
Definition cr : ascii := "013"%char.
Definition nls : string := String nl "".
Definition dquote : string := String "034"%char "".

(** ** Slices and predicates *)

Definition truthy (s : string) : bool := match s with "" => false | _ => true end.

Fixpoint smap (f : ascii -> ascii) (s : string) : string :=
  match s with "" => "" | String c s' => String (f c) (smap f s') end.

Definition lower (s : string) : string := smap lower_char s.
Definition upper (s : string) : string := smap upper_char s.
Definition capitalize (s : string) : string :=
  match s with "" => "" | String c s' => String (upper_char c) (lower s') end.

(** [s[n:]] and [s[:n]] *)
Fixpoint sdrop (n : nat) (s : string) : string :=
  match n, s with
  | 0, _ => s
  | S n', String _ s' => sdrop n' s'
  | S _, "" => ""
  end.

Fixpoint stake (n : nat) (s : string) : string :=
  match n, s with
  | S n', String c s' => String c (stake n' s')
  | _, _ => ""
  end.

(** [s[i:j]] *)
Definition slice (i j : nat) (s : string) : string := stake (j - i) (sdrop i s).

Fixpoint drop_prefix (p s : string) : option string :=
  match p, s with
  | "", _ => Some s
  | String c p', String d s' => if Ascii.eqb c d then drop_prefix p' s' else None
  | String _ _, "" => None
  end.

Definition starts_with (p s : string) : bool :=
  match drop_prefix p s with Some _ => true | None => false end.

Fixpoint srev_app (s acc : string) : string :=
  match s with "" => acc | String c s' => srev_app s' (String c acc) end.
Definition srev (s : string) : string := srev_app s "".

Definition ends_with (p s : string) : bool := starts_with (srev p) (srev s).

Definition removesuffix (p s : string) : string :=
  if ends_with p s then stake (String.length s - String.length p) s else s.

(** [s.find(sub)]; [None] is Python's [-1] *)
Fixpoint sfind (sub s : string) : option nat :=
  if starts_with sub s then Some 0
  else match s with
       | "" => None
       | String _ s' => S <$> sfind sub s'
       end.

(** [s.find(sub, start)] for [start <= len(s)] *)
Definition sfind_at (sub s : string) (start : nat) : option nat :=
  (fun k => start + k) <$> sfind sub (sdrop start s).

(** [sub in s] *)
Definition contains (sub s : string) : bool :=
  match sfind sub s with Some _ => true | None => false end.

Notation "a ∈? s" := (contains a s) (at level 70) : py_scope.

Fixpoint count_char (c : ascii) (s : string) : nat :=
  match s with
  | "" => 0
  | String d s' => (if Ascii.eqb c d then 1 else 0) + count_char c s'
  end.

(** [s.count(c, 0, n)] *)
Definition count_before (c : ascii) (s : string) (n : nat) : nat := count_char c (stake n s).

(** ** Splitting and joining *)

(** [s.split(c)] on a one-character separator *)
Fixpoint split_char (c : ascii) (s : string) : list string :=
  match s with
  | "" => [""]
  | String d s' =>
      if Ascii.eqb c d then "" :: split_char c s'
      else match split_char c s' with
           | [] => [String d ""]
           | p :: ps => String d p :: ps
           end
  end.

(** [s.split(sep)] for a separator of several characters; [cur] is the current piece, in reverse *)
Fixpoint split_str_aux (sep : string) (skip : nat) (cur s : string) : list string :=
  match s with
  | "" => [srev cur]
  | String c s' =>
      match skip with
      | S k => split_str_aux sep k cur s'
      | 0 => match drop_prefix sep s with
             | Some _ => srev cur :: split_str_aux sep (String.length sep - 1) "" s'
             | None => split_str_aux sep 0 (String c cur) s'
             end
      end
  end.
Definition split_str (sep s : string) : list string := split_str_aux sep 0 "" s.

(** [sep.join(parts)] *)
Fixpoint join (sep : string) (l : list string) : string :=
  match l with
  | [] => ""
  | [p] => p
  | p :: l' => p +:+ sep +:+ join sep l'
  end.

Definition unlines (l : list string) : string := join nls l.

(** [s.split(sep, 1)]: the text before and after the first separator *)
Definition split_once (sep s : string) : option (string * string) :=
  i ← sfind sep s; Some (stake i s, sdrop (i + String.length sep) s).

Definition head_or_empty (l : list string) : string := default "" (head l).
Definition last_or_empty (l : list string) : string := default "" (last l).

(** [s.split(c)[0]] and [s.split(c)[-1]] *)
Definition before_char (c : ascii) (s : string) : string := head_or_empty (split_char c s).
Definition after_last_char (c : ascii) (s : string) : string := last_or_empty (split_char c s).

Fixpoint lstrip (s : string) : string :=
  match s with
  | "" => ""
  | String c s' => if is_space c then lstrip s' else s
  end.
(** [s.lstrip(chars)] and [s.rstrip(chars)] *)
Fixpoint drop_while (p : ascii -> bool) (s : string) : string :=
  match s with "" => "" | String c s' => if p c then drop_while p s' else s end.
Definition rdrop_while (p : ascii -> bool) (s : string) : string := srev (drop_while p (srev s)).

Definition rstrip (s : string) : string := srev (lstrip (srev s)).
Definition strip (s : string) : string := rstrip (lstrip s).

(** [s.splitlines()]: ["\r\n"] is one boundary; no final empty line *)
Fixpoint splitlines_aux (cur : string) (s : string) : list string :=
  match s with
  | "" => if truthy cur then [srev cur] else []
  | String c s' =>
      if is_linebreak c then
        srev cur ::
        match s' with
        | String d s'' =>
            if Ascii.eqb c cr && Ascii.eqb d nl then splitlines_aux "" s''
            else splitlines_aux "" s'
        | "" => []
        end
      else splitlines_aux (String c cur) s'
  end.
Definition splitlines (s : string) : list string := splitlines_aux "" s.

(** [s.replace(old, new)] for a non-empty [old]: leftmost, non-overlapping;
    [skip] counts the characters of the current occurrence still to drop. *)
Fixpoint replace_aux (old new : string) (skip : nat) (s : string) : string :=
  match s with
  | "" => ""
  | String c s' =>
      match skip with
      | S k => replace_aux old new k s'
      | 0 => if starts_with old s
             then new +:+ replace_aux old new (String.length old - 1) s'
             else String c (replace_aux old new 0 s')
      end
  end.
Definition replace (old new s : string) : string := replace_aux old new 0 s.

(** [int(s)] for a string of decimal digits, after the value [acc] read so far *)
Fixpoint digits_val (acc : Z) (s : string) : Z :=
  match s with
  | "" => acc
  | String c s' => digits_val (acc * 10 + (Z.of_nat (nat_of_ascii c) - 48))%Z s'
  end.

(** [f"{n:03d}"] for a natural number *)
Definition pad3 (n : nat) : string :=
  let s := pretty n in
  match String.length s with
  | 0 => "000" | 1 => "00" +:+ s | 2 => "0" +:+ s | _ => s
  end.

Definition pybool (b : bool) : string := if b then "True" else "False".

Definition hex_digit (n : nat) : ascii :=
  if n <? 10 then ascii_of_nat (48 + n) else ascii_of_nat (87 + n).

(** One character of [repr(s)] inside the quote [q] *)
Definition repr_char (q c : ascii) : string :=
  if Ascii.eqb c q || Ascii.eqb c "\"%char then String "\" (String c "")
  else if Ascii.eqb c nl then "\n"
  else if Ascii.eqb c cr then "\r"
  else if Ascii.eqb c "009"%char then "\t"
  else if ascii_in 0 31 c || Ascii.eqb c "127"%char then
    "\x" +:+ String (hex_digit (nat_of_ascii c / 16)) (String (hex_digit (nat_of_ascii c mod 16)) "")
  else String c "".

Fixpoint concat_map_str (f : ascii -> string) (s : string) : string :=
  match s with "" => "" | String c s' => f c +:+ concat_map_str f s' end.

(** [repr(s)]: single quotes unless the text holds one and no double quote *)
Definition repr_str (s : string) : string :=
  let q := if (0 <? count_char "'" s) && (count_char "034"%char s =? 0) then "034"%char else "'"%char in
  String q (concat_map_str (repr_char q) s +:+ String q "").

(** [f"{n:02d}"] and [f"{n:04d}"] for a natural number *)
Definition pad_to (w n : nat) : string :=
  let s := pretty n in srev (srev s +:+ String.concat "" (repeat "0" (w - String.length s))).

(** A literal holding double quotes, written with backquotes in their place. *)
Definition bq (s : string) : string := smap (fun c => if Ascii.eqb c "`" then "034"%char else c) s.

(** ** Slices by characters

    A slice of a text that may hold other than ASCII characters counts characters:
    the bytes of the UTF-8 encoding that are not continuation bytes. *)

Definition is_cont (c : ascii) : bool := ascii_in 128 191 c.

Fixpoint ulen (s : string) : nat :=
  match s with "" => 0 | String c s' => (if is_cont c then 0 else 1) + ulen s' end.

(** [s[:n]] *)
Fixpoint utake (n : nat) (s : string) : string :=
  match s with
  | "" => ""
  | String c s' =>
      if is_cont c then String c (utake n s')
      else match n with 0 => "" | S n' => String c (utake n' s') end
  end.

(** [s[n:]] *)
Fixpoint udrop (n : nat) (s : string) : string :=
  match s with
  | "" => ""
  | String c s' =>
      if is_cont c then udrop n s'
      else match n with 0 => s | S n' => udrop n' s' end
  end.

(** [f"{s:<w}"] *)
Definition pad_right (w : nat) (s : string) : string := s +:+ String.concat "" (repeat " " (w - ulen s)).

(** [s[-n:]] for [n > 0] *)
Definition ulast (n : nat) (s : string) : string := udrop (ulen s - n) s.

(** ** Order *)

Definition str_leb (a b : string) : bool := String.leb a b.
Definition str_ltb (a b : string) : bool := String.ltb a b.

(** ** Lemmas *)

#[local] Arguments String.append !_ _ / : simpl nomatch.

Lemma sapp_nil_r s : s +:+ "" = s.
Proof. induction s as [|c s IH]; cbn; congruence. Qed.

Lemma sapp_assoc a b c : (a +:+ b) +:+ c = a +:+ (b +:+ c).
Proof. induction a as [|d a IH]; cbn; congruence. Qed.

Lemma length_sapp a b : String.length (a +:+ b) = String.length a + String.length b.
Proof. induction a as [|d a IH]; cbn; congruence. Qed.

Lemma stake_sdrop n s : stake n s +:+ sdrop n s = s.
Proof. revert n. induction s as [|c s IH]; intros [|n]; cbn; congruence. Qed.

Lemma length_stake n s : String.length (stake n s) = Nat.min n (String.length s).
Proof. revert n. induction s as [|c s IH]; intros [|n]; cbn; congruence. Qed.

Lemma length_sdrop n s : String.length (sdrop n s) = String.length s - n.
Proof. revert n. induction s as [|c s IH]; intros [|n]; cbn; congruence. Qed.

Lemma stake_app_length a b : stake (String.length a) (a +:+ b) = a.
Proof. induction a as [|c a IH]; cbn; [by destruct b|congruence]. Qed.

Lemma sdrop_app_length a b : sdrop (String.length a) (a +:+ b) = b.
Proof. induction a as [|c a IH]; cbn; [by destruct b|congruence]. Qed.

Lemma sdrop_add n m s : sdrop (n + m) s = sdrop m (sdrop n s).
Proof. revert n. induction s as [|c s IH]; intros [|n]; cbn; auto. by destruct m. Qed.

Lemma stake_add n m s : stake (n + m) s = stake n s +:+ stake m (sdrop n s).
Proof.
  revert n. induction s as [|c s IH]; intros [|n]; cbn; [by destruct m..|by destruct m|].
  by rewrite IH.
Qed.

Lemma sdrop_0 s : sdrop 0 s = s.
Proof. by destruct s. Qed.

Lemma drop_prefix_Some p s t : drop_prefix p s = Some t <-> s = p +:+ t.
Proof.
  revert s. induction p as [|c p IH]; intros s; cbn; [split; congruence|].
  destruct s as [|d s]; [done|]. destruct (Ascii.eqb_spec c d) as [->|Hne].
  - rewrite IH. split; [by intros ->|by intros [=]].
  - split; [done|]. intros [=]; congruence.
Qed.

Lemma starts_with_spec p s : starts_with p s = true <-> exists t, s = p +:+ t.
Proof.
  unfold starts_with. destruct (drop_prefix p s) as [t|] eqn:E.
  - apply drop_prefix_Some in E. naive_solver.
  - split; [done|]. intros [t Ht]. apply drop_prefix_Some in Ht. congruence.
Qed.

(** A successful find splits the string at the occurrence, and no earlier
    position starts with the needle. *)
Lemma sfind_Some sub s k :
  sfind sub s = Some k ->
  s = stake k s +:+ sub +:+ sdrop (k + String.length sub) s /\
  k + String.length sub <= String.length s /\
  forall j, j < k -> starts_with sub (sdrop j s) = false.
Proof.
  revert k. induction s as [|c s IH]; intros k; cbn;
    destruct (starts_with sub _) eqn:Hsw; intros Hk; simplify_eq.
  - apply starts_with_spec in Hsw as [t Ht]. symmetry in Ht.
    destruct sub; simplify_eq/=. split_and!; [done|lia|lia].
  - apply starts_with_spec in Hsw as [t Ht]. cbn.
    split_and!; [|rewrite ?Ht..].
    + cbn. rewrite Ht, sdrop_app_length. done.
    + change (S (String.length s)) with (String.length (String c s)).
      rewrite Ht, length_sapp. lia.
    + lia.
  - destruct (sfind sub s) as [k'|]; simplify_eq/=.
    destruct (IH k' eq_refl) as (Heq & Hlen & Hmin).
    split_and!; [congruence|lia|].
    intros [|j] Hj; cbn; [done|]. apply Hmin. lia.
Qed.

Lemma sfind_None sub s :
  sfind sub s = None <-> forall j, j <= String.length s -> starts_with sub (sdrop j s) = false.
Proof.
  induction s as [|c s IH]; cbn; destruct (starts_with sub _) eqn:Hsw.
  - split; [done|]. intros H. specialize (H 0 ltac:(lia)). cbn in H. congruence.
  - split; [|done]. intros _ j Hj. by replace j with 0 by lia.
  - split; [done|]. intros H. specialize (H 0 ltac:(lia)). cbn in H. congruence.
  - rewrite fmap_None, IH. split.
    + intros H [|j] Hj; [done|]. cbn. apply H. lia.
    + intros H j Hj. apply (H (S j)). lia.
Qed.

Lemma contains_spec sub s : contains sub s = true <-> exists a b, s = a +:+ sub +:+ b.
Proof.
  unfold contains. destruct (sfind sub s) as [k|] eqn:E.
  - split; [|done]. intros _. apply sfind_Some in E as [-> _]. eauto.
  - split; [done|]. intros (a & b & ->). rewrite sfind_None in E.
    specialize (E (String.length a)). rewrite sdrop_app_length in E.
    rewrite length_sapp in E. assert (starts_with sub (sub +:+ b) = true) as Hsw.
    { apply starts_with_spec; eauto. }
    rewrite E in Hsw; [done|lia].
Qed.

Lemma split_char_nonempty c s : split_char c s <> [].
Proof. destruct s as [|d s]; cbn; [done|]. case_all. Qed.

(** Joining the pieces of a split gives the string back. *)
Lemma join_split_char c s : join (String c "") (split_char c s) = s.
Proof.
  induction s as [|d s IH]; [done|]. cbn [split_char].
  destruct (Ascii.eqb_spec c d) as [->|Hne].
  - pose proof (split_char_nonempty d s). destruct (split_char d s) as [|p ps]; [done|].
    cbn in *. by rewrite IH.
  - pose proof (split_char_nonempty c s). destruct (split_char c s) as [|p [|q ps]]; [done|..];
      cbn in *; congruence.
Qed.

Lemma split_char_no_sep c s : Forall (fun p => count_char c p = 0) (split_char c s).
Proof.
  induction s as [|d s IH]; cbn; [by repeat constructor|].
  destruct (Ascii.eqb_spec c d) as [->|Hne]; [by constructor|].
  pose proof (split_char_nonempty c s) as Hns.
  destruct (split_char c s) as [|p ps]; [done|]. inversion_clear IH.
  constructor; [|done]. cbn. destruct (Ascii.eqb_spec c d); [done|]. done.
Qed.

Lemma split_char_count c s : count_char c s = length (split_char c s) - 1.
Proof.
  induction s as [|d s IH]; cbn; [done|].
  pose proof (split_char_nonempty c s) as Hns.
  destruct (Ascii.eqb_spec c d) as [->|Hne]; cbn; rewrite IH;
    destruct (split_char _ s); try done; cbn in *; lia.
Qed.

(** The pieces of a join are found again when none of them holds the separator. *)
Lemma split_char_app c p s :
  count_char c p = 0 ->
  split_char c (p +:+ String c s) = p :: split_char c s.
Proof.
  induction p as [|d p IH]; cbn; [by rewrite Ascii.eqb_refl|].
  destruct (Ascii.eqb_spec c d); [done|]. intros Hp. by rewrite IH.
Qed.

Lemma split_char_atom c p : count_char c p = 0 -> split_char c p = [p].
Proof.
  induction p as [|d p IH]; cbn; [done|].
  destruct (Ascii.eqb_spec c d); [done|]. intros Hp. by rewrite IH.
Qed.

Lemma split_char_join c l :
  l <> [] -> Forall (fun p => count_char c p = 0) l ->
  split_char c (join (String c "") l) = l.
Proof.
  induction l as [|p l IH]; [done|]. intros _. rewrite Forall_cons. intros [Hp Hl].
  destruct l as [|q l]; cbn [join]; [by apply split_char_atom|].
  change (String c "" +:+ ?t) with (String c t). rewrite split_char_app by done.
  f_equal. by apply IH.
Qed.

Lemma before_char_app c p s : count_char c p = 0 -> before_char c (p +:+ String c s) = p.
Proof. intros. unfold before_char. by rewrite split_char_app. Qed.

Lemma before_char_atom c p : count_char c p = 0 -> before_char c p = p.
Proof. intros. unfold before_char. by rewrite split_char_atom. Qed.

Lemma str_leb_total a b : str_leb a b = true \/ str_leb b a = true.
Proof. apply String.leb_total. Qed.

Lemma str_leb_antisym a b : str_leb a b = true -> str_leb b a = true -> a = b.
Proof. apply String.leb_antisym. Qed.

Lemma str_leb_cons a c b d :
  str_leb (String a c) (String b d) =
  match (N_of_ascii a ?= N_of_ascii b)%N with Lt => true | Eq => str_leb c d | Gt => false end.
Proof. unfold str_leb, String.leb. cbn. unfold Ascii.compare. by destruct (_ ?= _)%N. Qed.

Lemma str_leb_trans a b c :
  str_leb a b = true -> str_leb b c = true -> str_leb a c = true.
Proof.
  revert b c. induction a as [|x a IH]; intros [|y b] [|z c]; try done.
  rewrite !str_leb_cons.
  destruct (N.compare_spec (N_of_ascii x) (N_of_ascii y)) as [Hxy|Hxy|Hxy]; [| |done];
  destruct (N.compare_spec (N_of_ascii y) (N_of_ascii z)) as [Hyz|Hyz|Hyz]; try done; intros H1 H2;
  destruct (N.compare_spec (N_of_ascii x) (N_of_ascii z)) as [Hxz|Hxz|Hxz]; try done; try lia.
  eauto.
Qed.

Lemma str_leb_refl a : str_leb a a = true.
Proof. destruct (str_leb_total a a); done. Qed.

(** Decimal printing is read back by [digits_val]. *)
Lemma pretty_N_char_val x : (x < 10)%N -> (Z.of_nat (nat_of_ascii (pretty_N_char x)) - 48)%Z = Z.of_N x.
Proof.
  intros Hx. assert (x = 0 \/ x = 1 \/ x = 2 \/ x = 3 \/ x = 4 \/ x = 5 \/ x = 6 \/ x = 7 \/ x = 8 \/ x = 9)%N as Hc by lia.
  destruct Hc as [->|[->|[->|[->|[->|[->|[->|[->|[->| ->]]]]]]]]]; reflexivity.
Qed.

Lemma digits_val_go x s : digits_val 0 (pretty_N_go x s) = digits_val (Z.of_N x) s.
Proof.
  revert s. induction (N.lt_wf_0 x) as [x _ IH]; intros s. destruct (decide (x = 0%N)) as [->|Hx].
  { by rewrite pretty_N_go_0. }
  rewrite pretty_N_go_step by lia. rewrite IH by (apply N.div_lt; lia). cbn [digits_val].
  rewrite pretty_N_char_val by (apply N.mod_lt; lia). f_equal.
  pose proof (N.div_mod x 10 ltac:(lia)). lia.
Qed.

Lemma digits_val_pretty (n : nat) : digits_val 0 (pretty n) = Z.of_nat n.
Proof.
  unfold pretty, pretty_nat, pretty, pretty_N. destruct (decide (N.of_nat n = 0%N)) as [Hn|Hn].
  - assert (n = 0) as -> by lia. reflexivity.
  - rewrite digits_val_go. cbn [digits_val]. lia.
Qed.

Lemma digits_val_pad3 n : digits_val 0 (pad3 n) = Z.of_nat n.
Proof.
  unfold pad3. pose proof (digits_val_pretty n) as Hp.
  destruct (pretty n) as [|a [|b [|c s]]]; exact Hp.
Qed.

Lemma pad3_inj n m : pad3 n = pad3 m -> n = m.
Proof. intros Hp. apply Nat2Z.inj. by rewrite <- !digits_val_pad3, Hp. Qed.

#[export] Hint Rewrite sapp_nil_r sapp_assoc length_sapp stake_sdrop length_stake length_sdrop
  stake_app_length sdrop_app_length : pyr.
#[export] Hint Resolve str_leb_total str_leb_trans str_leb_refl : py.

Lemma ulen_utake n s : ulen (utake n s) <= n.
Proof.
  revert n. induction s as [|c s IH]; intros n; cbn [utake ulen]; [lia|].
  destruct (is_cont c) eqn:Hc; [cbn [ulen]; rewrite Hc; apply IH|].
  destruct n as [|n]; cbn [ulen]; [lia|]. rewrite Hc. specialize (IH n). lia.
Qed.

Lemma utake_prefix n s : exists t, s = utake n s +:+ t.
Proof.
  revert n. induction s as [|c s IH]; intros n; cbn [utake]; [by exists ""|].
  destruct (is_cont c); [destruct (IH n) as [t Ht]; exists t; cbn; congruence|].
  destruct n as [|n]; [by eexists|]. destruct (IH n) as [t Ht]. exists t. cbn. congruence.
Qed.

Lemma ulen_udrop n s : ulen (udrop n s) = ulen s - n.
Proof.
  revert n. induction s as [|c s IH]; intros n; cbn [udrop ulen]; [lia|].
  destruct (is_cont c) eqn:Hc; [by rewrite IH|]. destruct n as [|n]; [cbn [ulen]; rewrite Hc; lia|]. rewrite IH. lia.
Qed.

Lemma ulen_ulast n s : ulen (ulast n s) <= n.
Proof. unfold ulast. rewrite ulen_udrop. lia. Qed.

Lemma ulast_suffix n s : exists t, s = t +:+ ulast n s.
Proof.
  unfold ulast. generalize (ulen s - n). clear n. induction s as [|c s IH]; intros n; cbn [udrop]; [by exists ""|].
  destruct (is_cont c); [destruct (IH n) as [t Ht]; exists (String c t); cbn; congruence|].
  destruct n as [|n]; [by exists ""|]. destruct (IH n) as [t Ht]. exists (String c t). cbn. congruence.
Qed.

Lemma lstrip_suffix s : exists a, s = a +:+ lstrip s.
Proof.
  induction s as [|c s [a IH]]; cbn [lstrip]; [by exists ""|].
  destruct (is_space c); [|by exists ""]. exists (String c a). cbn. congruence.
Qed.

Lemma split_once_Some sep s a b : split_once sep s = Some (a, b) -> s = a +:+ sep +:+ b.
Proof.
  unfold split_once. destruct (sfind sep s) as [k|] eqn:E; [|done]. intros [= <- <-].
  by apply sfind_Some in E as [E _].
Qed.

Lemma split_once_None sep s : split_once sep s = None -> contains sep s = false.
Proof. unfold split_once, contains. by destruct (sfind sep s). Qed.

Lemma ulen_app a b : ulen (a +:+ b) = ulen a + ulen b.
Proof.
  induction a as [|c a IH]; [done|]. change (String c a +:+ b) with (String c (a +:+ b)). cbn [ulen]. rewrite IH. lia.
Qed.

Lemma ulen_join sep s l :
  ulen (join sep (s :: l)) + ulen sep = list_sum (map (fun s => ulen s + ulen sep) (s :: l)).
Proof.
  revert s. induction l as [|s' l IH]; intros s; [cbn; lia|]. specialize (IH s').
  change (join sep (s :: s' :: l)) with (s +:+ sep +:+ join sep (s' :: l)). rewrite !ulen_app.
  cbn [map list_sum foldr] in *. lia.
Qed.

Lemma ulen_concat s l : ulen (String.concat "" (s :: l)) = ulen s + ulen (String.concat "" l).
Proof. destruct l as [|s' l]; [cbn; lia|]. change (String.concat "" (s :: s' :: l)) with (s +:+ "" +:+ String.concat "" (s' :: l)). by rewrite !ulen_app. Qed.

Lemma ulen_concat_nls l : ulen (String.concat "" (map (fun s => s +:+ nls) l)) = list_sum (map (fun s => ulen s + 1) l).
Proof.
  induction l as [|s l IH]; [done|]. cbn [map]. change (list_sum (?a :: ?l)) with (a + list_sum l).
  by rewrite ulen_concat, IH, ulen_app.
Qed.

Lemma ulen_unlines s l : ulen (unlines (s :: l)) + 1 = list_sum (map (fun s => ulen s + 1) (s :: l)).
Proof. apply (ulen_join nls). Qed.

Lemma ulen_unlines_le l : ulen (unlines l) <= list_sum (map (fun s => ulen s + 1) l).
Proof. destruct l as [|s l]; [done|]. rewrite <- ulen_unlines. lia. Qed.

Lemma ulen_srev_app s acc : ulen (srev_app s acc) = ulen s + ulen acc.
Proof. revert acc. induction s as [|c s IH]; intros acc; cbn; [done|]. rewrite IH. cbn. lia. Qed.

Lemma ulen_srev s : ulen (srev s) = ulen s.
Proof. unfold srev. rewrite ulen_srev_app. cbn. lia. Qed.

Lemma is_linebreak_width c : is_linebreak c = true -> is_cont c = false.
Proof. unfold is_linebreak, is_cont, ascii_in. destruct (Nat.leb_spec 128 (nat_of_ascii c)); [|done]. boolify. rewrite !Nat.leb_le. lia. Qed.

(** Strings whose characters all satisfy a test *)
Definition schars (p : ascii -> bool) (s : string) : Prop := Forall (fun c => p c = true) (String.list_ascii_of_string s).

Lemma schars_app p a b : schars p (a +:+ b) <-> schars p a /\ schars p b.
Proof.
  unfold schars. induction a as [|c a IH]; [split; [split; [constructor|done]|by intros [_ ?]]|].
  change (String c a +:+ b) with (String c (a +:+ b)). cbn [String.list_ascii_of_string]. rewrite !Forall_cons, IH. tauto.
Qed.

Lemma schars_cons p c s : schars p (String c s) <-> p c = true /\ schars p s.
Proof. unfold schars. cbn [String.list_ascii_of_string]. by rewrite Forall_cons. Qed.

Lemma schars_impl (p q : ascii -> bool) s : schars p s -> (forall c, p c = true -> q c = true) -> schars q s.
Proof. intros Hs Hpq. eapply Forall_impl; [exact Hs|exact Hpq]. Qed.

Lemma schars_join p sep l : schars p sep -> Forall (schars p) l -> schars p (join sep l).
Proof.
  intros Hsep. induction 1 as [|x l Hx Hl IH]; [constructor|]. destruct l as [|y l]; [exact Hx|].
  change (join sep (x :: y :: l)) with (x +:+ sep +:+ join sep (y :: l)). by rewrite !schars_app.
Qed.

Lemma srev_app_twice s : forall acc b, srev_app (srev_app s acc) b = srev_app acc (s +:+ b).
Proof. induction s as [|c s IH]; intros acc b; [done|]. cbn [srev_app]. by rewrite IH. Qed.

Lemma srev_involutive s : srev (srev s) = s.
Proof. unfold srev. rewrite srev_app_twice. apply sapp_nil_r. Qed.

Lemma srev_app_acc s : forall acc, srev_app s acc = srev s +:+ acc.
Proof.
  unfold srev. induction s as [|c s IH]; intros acc; [done|]. cbn [srev_app]. rewrite IH, (IH (String c "")), sapp_assoc. done.
Qed.

Lemma srev_cons c s : srev (String c s) = srev s +:+ String c "".
Proof. unfold srev at 1. cbn [srev_app]. apply srev_app_acc. Qed.

Lemma srev_snoc m d : srev (m +:+ String d "") = String d (srev m).
Proof.
  induction m as [|c m IH]; [done|]. change (String c m +:+ String d "") with (String c (m +:+ String d "")).
  by rewrite !srev_cons, IH.
Qed.

Lemma strip_id c m d : is_space c = false -> is_space d = false -> strip (String c (m +:+ String d "")) = String c (m +:+ String d "").
Proof.
  intros Hc Hd. unfold strip. cbn [lstrip]. rewrite Hc. unfold rstrip.
  change (String c (m +:+ String d "")) with (String c m +:+ String d ""). rewrite srev_snoc. cbn [lstrip]. rewrite Hd.
  by rewrite <- srev_snoc, srev_involutive.
Qed.

Lemma starts_with_char c s : starts_with (String c "") s = true -> exists s', s = String c s'.
Proof. unfold starts_with. destruct s as [|d s]; [done|]. cbn [drop_prefix]. destruct (Ascii.eqb_spec c d) as [->|]; [by eexists|done]. Qed.

(** A text that ends with a newline, and one more line *)
Lemma splitlines_aux_app o : forall cur t, splitlines_aux cur (o +:+ nls +:+ t) = splitlines_aux cur (o +:+ nls) ++ splitlines_aux "" t.
Proof.
  induction o as [o IH] using (induction_ltof1 _ String.length). unfold ltof in IH. intros cur t. destruct o as [|c o].
  - change ("" +:+ nls +:+ t) with (String nl t). change ("" +:+ nls) with (String nl ""). cbn [splitlines_aux].
    change (is_linebreak nl) with true. change (Ascii.eqb nl cr) with false. cbn [andb]. destruct t; done.
  - change (String c o +:+ nls +:+ t) with (String c (o +:+ nls +:+ t)). change (String c o +:+ nls) with (String c (o +:+ nls)). cbn [splitlines_aux].
    destruct (is_linebreak c); [|by apply IH; cbn; lia]. cbn [app]. f_equal.
    destruct o as [|d o].
    + change ("" +:+ nls +:+ t) with (String nl t). change ("" +:+ nls) with (String nl ""). cbn iota.
      destruct (Ascii.eqb c cr && Ascii.eqb nl nl); [done|]. change (String nl t) with ("" +:+ nls +:+ t). change (String nl "") with ("" +:+ nls).
      apply IH. cbn. lia.
    + change (String d o +:+ nls +:+ t) with (String d (o +:+ nls +:+ t)). change (String d o +:+ nls) with (String d (o +:+ nls)). cbn iota.
      destruct (Ascii.eqb c cr && Ascii.eqb d nl); [apply IH; cbn; lia|].
      change (String d (o +:+ nls +:+ t)) with (String d o +:+ nls +:+ t). change (String d (o +:+ nls)) with (String d o +:+ nls). apply IH. cbn. lia.
Qed.

Lemma splitlines_aux_line line : forall cur, schars (fun c => negb (is_linebreak c)) line -> splitlines_aux cur (line +:+ nls) = [srev (srev_app line cur)].
Proof.
  induction line as [|c line IH]; intros cur Hl; [reflexivity|]. apply schars_cons in Hl as [Hc Hl].
  change (String c line +:+ nls) with (String c (line +:+ nls)). cbn [splitlines_aux srev_app]. apply negb_true_iff in Hc. rewrite Hc. by apply IH.
Qed.

Lemma splitlines_snoc old line : old = "" \/ ends_with nls old = true -> schars (fun c => negb (is_linebreak c)) line ->
  splitlines (old +:+ line +:+ nls) = splitlines old ++ [line].
Proof.
  intros Hold Hl. assert (splitlines (line +:+ nls) = [line]) as Hone.
  { unfold splitlines. rewrite splitlines_aux_line by done. fold (srev line). by rewrite srev_involutive. }
  destruct Hold as [->|Hold]; [exact Hone|]. assert (exists o, old = o +:+ nls) as [o ->].
  { unfold ends_with in Hold. apply starts_with_char in Hold as [s' Hs']. exists (srev s'). by rewrite <- (srev_involutive old), Hs', srev_cons. }
  rewrite sapp_assoc. unfold splitlines. rewrite splitlines_aux_app. f_equal. exact Hone.
Qed.

(** Every line but the last stands for its text and at least one character. *)
Lemma ulen_splitlines_aux cur s :
  list_sum (map (fun s => ulen s + 1) (splitlines_aux cur s)) <= ulen cur + ulen s + 1.
Proof.
  revert cur. induction s as [s IH] using (induction_ltof1 _ String.length). unfold ltof in IH.
  intros cur. destruct s as [|c s]; cbn [splitlines_aux].
  { destruct (truthy cur); [|cbn; lia]. cbn [map]. change (list_sum [?a]) with (a + 0). rewrite ulen_srev. cbn. lia. }
  destruct (is_linebreak c) eqn:Hc.
  - pose proof (is_linebreak_width c Hc) as Hw. cbn [map]. change (list_sum (?a :: ?l)) with (a + list_sum l).
    rewrite ulen_srev. cbn [ulen]. rewrite Hw. destruct s as [|d s]; [cbn; lia|].
    destruct (Ascii.eqb c cr && Ascii.eqb d nl).
    + specialize (IH s ltac:(cbn; lia) ""). cbn [ulen] in *. lia.
    + specialize (IH (String d s) ltac:(cbn; lia) ""). cbn [ulen] in *. lia.
  - specialize (IH s ltac:(cbn; lia) (String c cur)). cbn [ulen] in *. lia.
Qed.

(** Without the last line the text is no longer than before. *)
Lemma ulen_drop_last_line s : ulen (unlines (removelast (splitlines s))) <= ulen s.
Proof.
  pose proof (ulen_splitlines_aux "" s) as H. unfold splitlines. revert H. cbn [ulen].
  destruct (splitlines_aux "" s) as [|x l _] using rev_ind; [cbn; lia|]. rewrite removelast_last, map_app, list_sum_app.
  cbn [map]. change (list_sum [?a]) with (a + 0). intros H. etransitivity; [apply ulen_unlines_le|]. lia.
Qed.
