(* ===== verification/PyRe.v ===== *)
(** * The regular expressions of Python's [re]

    A backtracking matcher for the patterns the code compiles: the first match in
    the order in which [re] explores the alternatives, with its capture groups,
    and [search], [match], [finditer], [findall] and [sub] on top of it.  The
    matcher is related to a declarative semantics [denotes]; it never needs fuel,
    because every iteration of a repetition consumes a character. *)

From S2P Require Import Prelude PyStr.

Inductive re :=
  | REps
  | RSet (p : ascii -> bool)          (* one character of a class *)
  | RSeq (a b : re)
  | RAlt (a b : re)
  | RStar (greedy : bool) (a : re)
  | RGroup (i : nat) (a : re)         (* capturing group *)
  | RBound                            (* \b *)
  | RBol (multiline : bool)           (* ^ *)
  | REol (multiline : bool)           (* $ *)
  | RNotAhead (a : re)                (* (?!a) *)
  | RNotBehind (p : ascii -> bool).   (* (?<![...]) *)

(** A position in the subject: the character before it, what is left, its offset,
    and the groups captured so far (latest first). *)
Record mstate := MState {
  m_prev : option ascii;
  m_rest : string;
  m_pos : nat;
  m_caps : list (nat * (nat * nat));
  }.

Definition advance (c : ascii) (rest : string) (st : mstate) : mstate :=
  MState (Some c) rest (S (m_pos st)) (m_caps st).

Definition capture (i : nat) (from : mstate) (st : mstate) : mstate :=
  MState (m_prev st) (m_rest st) (m_pos st) ((i, (m_pos from, m_pos st)) :: m_caps st).

Definition next_is (p : ascii -> bool) (s : string) : bool :=
  match s with "" => false | String c _ => p c end.
Definition prev_is (p : ascii -> bool) (o : option ascii) : bool :=
  match o with None => false | Some c => p c end.

Definition at_bound (st : mstate) : bool :=
  xorb (prev_is is_word (m_prev st)) (next_is is_word (m_rest st)).
Definition at_bol (multiline : bool) (st : mstate) : bool :=
  is_none (m_prev st) || (multiline && prev_is (Ascii.eqb nl) (m_prev st)).
(** [$] also matches before a final newline *)
Definition at_eol (multiline : bool) (st : mstate) : bool :=
  negb (truthy (m_rest st)) || String.eqb (m_rest st) nls
  || (multiline && next_is (Ascii.eqb nl) (m_rest st)).

Definition orelse {A} (o o' : option A) : option A :=
  match o with Some x => Some x | None => o' end.

Fixpoint rmatch (r : re) (st : mstate) (k : mstate -> option mstate) : option mstate :=
  match r with
  | REps => k st
  | RSet p =>
      match m_rest st with
      | String c rest => if p c then k (advance c rest st) else None
      | "" => None
      end
  | RSeq a b => rmatch a st (fun st' => rmatch b st' k)
  | RAlt a b => orelse (rmatch a st k) (rmatch b st k)
  | RStar greedy a =>
      (fix loop (n : nat) (st : mstate) : option mstate :=
         match n with
         | 0 => k st
         | S n' =>
             let more := rmatch a st (fun st' =>
               if m_pos st <? m_pos st' then loop n' st' else None) in
             if greedy then orelse more (k st) else orelse (k st) more
         end) (String.length (m_rest st)) st
  | RGroup i a => rmatch a st (fun st' => k (capture i st st'))
  | RBound => if at_bound st then k st else None
  | RBol ml => if at_bol ml st then k st else None
  | REol ml => if at_eol ml st then k st else None
  | RNotAhead a => match rmatch a st Some with Some _ => None | None => k st end
  | RNotBehind p => if prev_is p (m_prev st) then None else k st
  end.

(** ** Derived forms *)

Definition RChr (c : ascii) : re := RSet (Ascii.eqb c).
Fixpoint RStr (s : string) : re :=
  match s with "" => REps | String c s' => RSeq (RChr c) (RStr s') end.
(** A literal under [re.IGNORECASE] *)
Fixpoint RStrI (s : string) : re :=
  match s with "" => REps | String c s' => RSeq (RSet (fun d => Ascii.eqb (lower_char d) (lower_char c))) (RStrI s') end.
(** [[abc]] *)
Definition in_chars (l : string) (c : ascii) : bool :=
  match sfind (String c "") l with Some _ => true | None => false end.
Definition ROneOf (l : string) : re := RSet (in_chars l).
(** [[^abc]] *)
Definition RNoneOf (l : string) : re := RSet (fun c => negb (in_chars l c)).
Definition RMany (a : re) : re := RStar true a.              (* a* *)
Definition RManyLazy (a : re) : re := RStar false a.         (* a*? *)
Definition RSome (a : re) : re := RSeq a (RStar true a).     (* a+ *)
Definition RSomeLazy (a : re) : re := RSeq a (RStar false a). (* a+? *)
Definition ROpt (a : re) : re := RAlt a REps.                (* a? *)
Fixpoint RTimes (n : nat) (a : re) : re :=                   (* a{n} *)
  match n with 0 => REps | S n' => RSeq a (RTimes n' a) end.
Fixpoint RUpTo (n : nat) (a : re) : re :=                    (* a{0,n} *)
  match n with 0 => REps | S n' => ROpt (RSeq a (RUpTo n' a)) end.
Definition RBetween (m n : nat) (a : re) : re := RSeq (RTimes m a) (RUpTo (n - m) a).
Fixpoint RAll (l : list re) : re :=
  match l with [] => REps | [a] => a | a :: l' => RSeq a (RAll l') end.
Fixpoint RAny (l : list re) : re :=
  match l with [] => RSet (fun _ => false) | [a] => a | a :: l' => RAlt a (RAny l') end.

Definition RWord : re := RSet is_word.       (* \w *)
Definition RSpace : re := RSet is_space.     (* \s *)
Definition RDigit : re := RSet is_digit.     (* \d *)
(** [.] without DOTALL *)
Definition RDot : re := RSet (fun c => negb (Ascii.eqb c nl)).
(** [.] with DOTALL *)
Definition RDotAll : re := RSet (fun _ => true).

(** ** The [re] functions *)

(** A match object: the span and the groups' spans. *)
Record rmatched := RMatched {
  mt_start : nat;
  mt_end : nat;
  mt_caps : list (nat * (nat * nat));
  }.

Definition matched_from (st0 st : mstate) : rmatched :=
  RMatched (m_pos st0) (m_pos st) (m_caps st).

Definition state_at (s : string) (i : nat) : mstate :=
  MState (match i with 0 => None | S j => String.get j s end) (sdrop i s) i [].

(** [pattern.match(s, i)] *)
Definition re_match_at (r : re) (s : string) (i : nat) : option rmatched :=
  matched_from (state_at s i) <$> rmatch r (state_at s i) Some.

Fixpoint search_from (r : re) (prev : option ascii) (rest : string) (pos : nat) : option rmatched :=
  let st := MState prev rest pos [] in
  match rmatch r st Some with
  | Some st' => Some (matched_from st st')
  | None =>
      match rest with
      | "" => None
      | String c rest' => search_from r (Some c) rest' (S pos)
      end
  end.

(** [pattern.search(s)] from offset [i] *)
Definition re_search_at (r : re) (s : string) (i : nat) : option rmatched :=
  search_from r (m_prev (state_at s i)) (sdrop i s) i.
Definition re_search (r : re) (s : string) : option rmatched := re_search_at r s 0.
Definition re_match (r : re) (s : string) : option rmatched := re_match_at r s 0.
Definition re_test (r : re) (s : string) : bool :=
  match re_search r s with Some _ => true | None => false end.
Definition re_fullstart (r : re) (s : string) : bool :=
  match re_match r s with Some _ => true | None => false end.

(** [pattern.finditer(s)]: the matches from left to right; the scan goes on at the
    end of a match, one character further after an empty one. *)
Fixpoint finditer_aux (fuel : nat) (r : re) (s : string) (i : nat) : list rmatched :=
  match fuel with
  | 0 => []
  | S fuel' =>
      if String.length s <? i then []
      else match re_search_at r s i with
           | None => []
           | Some m =>
               m :: finditer_aux fuel' r s (if mt_start m <? mt_end m then mt_end m else S (mt_end m))
           end
  end.
Definition re_finditer (r : re) (s : string) : list rmatched :=
  finditer_aux (S (S (String.length s))) r s 0.

(** [m.group(i)]; [None] for a group that took no part in the match *)
Definition re_group (i : nat) (s : string) (m : rmatched) : option string :=
  if decide (i = 0) then Some (slice (mt_start m) (mt_end m) s)
  else (fun '(a, b) => slice a b s) <$> assoc i (mt_caps m).

Definition group_or_empty (i : nat) (s : string) (m : rmatched) : string :=
  default "" (re_group i s m).

(** [pattern.findall(s)] for a pattern with no group, and with one *)
Definition re_findall0 (r : re) (s : string) : list string :=
  map (group_or_empty 0 s) (re_finditer r s).
Definition re_findall1 (r : re) (s : string) : list string :=
  map (group_or_empty 1 s) (re_finditer r s).

(** [pattern.sub(repl, s)] for a literal replacement *)
Fixpoint sub_aux (repl s : string) (i : nat) (ms : list rmatched) : string :=
  match ms with
  | [] => sdrop i s
  | m :: ms' => slice i (mt_start m) s +:+ repl +:+ sub_aux repl s (mt_end m) ms'
  end.
Definition re_sub (r : re) (repl s : string) : string := sub_aux repl s 0 (re_finditer r s).

(** ** Declarative semantics *)

Fixpoint denotes (r : re) (st st' : mstate) : Prop :=
  match r with
  | REps => st' = st
  | RSet p => exists c rest, m_rest st = String c rest /\ p c = true /\ st' = advance c rest st
  | RSeq a b => exists st1, denotes a st st1 /\ denotes b st1 st'
  | RAlt a b => denotes a st st' \/ denotes b st st'
  | RStar _ a => rtc (fun x y => denotes a x y /\ m_pos x < m_pos y) st st'
  | RGroup i a => exists st1, denotes a st st1 /\ st' = capture i st st1
  | RBound => at_bound st = true /\ st' = st
  | RBol ml => at_bol ml st = true /\ st' = st
  | REol ml => at_eol ml st = true /\ st' = st
  | RNotAhead a => (forall st1, ~ denotes a st st1) /\ st' = st
  | RNotBehind p => prev_is p (m_prev st) = false /\ st' = st
  end.

(** Offsets and remaining text move together. *)
Definition extent (st : mstate) : nat := m_pos st + String.length (m_rest st).

Lemma denotes_extent r st st' : denotes r st st' -> extent st' = extent st.
Proof.
  unfold extent.
  revert st st'. induction r as [|p|a IHa b IHb|a IHa b IHb|g a IHa|i a IHa| | | |a IHa|p];
    intros st st'; cbn; try naive_solver lia.
  - intros (c & rest & Hr & _ & ->). rewrite Hr. cbn. lia.
  - intros (st1 & H1 & H2). rewrite (IHb _ _ H2). by apply IHa.
  - induction 1 as [|x y z [Hxy _] _ IH]; [done|]. rewrite IH. by apply IHa.
Qed.

Section star.
Context (a : re).
Context (IHs : forall st k x, rmatch a st k = Some x ->
           exists st', denotes a st st' /\ k st' = Some x).
Context (IHc : forall st k, rmatch a st k = None ->
           forall st', denotes a st st' -> k st' = None).

Definition star_loop (greedy : bool) (k : mstate -> option mstate) :=
  fix loop (n : nat) (st : mstate) : option mstate :=
  match n with
  | 0 => k st
  | S n' =>
    let more := rmatch a st (fun st' =>
      if m_pos st <? m_pos st' then loop n' st' else None) in
    if greedy then orelse more (k st) else orelse (k st) more
  end.

Lemma orelse_Some {A} (o o' : option A) x :
  orelse o o' = Some x -> o = Some x \/ o' = Some x.
Proof. destruct o; cbn; auto. Qed.

Lemma orelse_None {A} (o o' : option A) : orelse o o' = None <-> o = None /\ o' = None.
Proof. destruct o; cbn; naive_solver. Qed.

Lemma star_sound g k n st x :
  star_loop g k n st = Some x -> exists st', denotes (RStar g a) st st' /\ k st' = Some x.
Proof.
  revert st. induction n as [|n IH]; intros st; cbn [star_loop].
  { intros Hx. exists st. split; [apply rtc_refl|done]. }
  intros Hx.
  assert (k st = Some x \/ rmatch a st (fun st' =>
  if m_pos st <? m_pos st' then star_loop g k n st' else None) = Some x) as [Hk|Hm].
  { destruct g; apply orelse_Some in Hx; tauto. }
  { exists st. split; [apply rtc_refl|done]. }
  apply IHs in Hm as (st1 & Hd & Hl). destruct (Nat.ltb_spec (m_pos st) (m_pos st1)); [|done].
  apply IH in Hl as (st' & Hs & Hk). exists st'. split; [|done].
  eapply rtc_l; [split; [exact Hd|done]|exact Hs].
Qed.

Lemma star_complete g k n st :
  String.length (m_rest st) <= n ->
  star_loop g k n st = None -> forall st', denotes (RStar g a) st st' -> k st' = None.
Proof.
  revert st. induction n as [|n IH]; intros st Hn; cbn [star_loop].
  - intros Hk st' Hd. apply rtc_inv in Hd as [->|(y & [Hy Hlt] & _)]; [done|].
  apply denotes_extent in Hy. unfold extent in Hy. lia.
  - intros Hx st' Hd.
  assert (k st = None /\ rmatch a st (fun st' =>
  if m_pos st <? m_pos st' then star_loop g k n st' else None) = None) as [Hk Hm].
  { destruct g; apply orelse_None in Hx; tauto. }
  apply rtc_inv in Hd as [->|(y & [Hy Hlt] & Hd)]; [done|].
  pose proof (denotes_extent _ _ _ Hy) as He. unfold extent in He.
  apply (IHc _ _ Hm) in Hy. apply Nat.ltb_lt in Hlt as Hlt'. rewrite Hlt' in Hy.
  apply (IH y); [lia|done..].
Qed.
End star.

Lemma rmatch_star g a st k :
  rmatch (RStar g a) st k = star_loop a g k (String.length (m_rest st)) st.
Proof. reflexivity. Qed.

Lemma rmatch_spec r :
  (forall st k x, rmatch r st k = Some x -> exists st', denotes r st st' /\ k st' = Some x) /\
  (forall st k, rmatch r st k = None -> forall st', denotes r st st' -> k st' = None).
Proof.
  induction r as [|p|a [IHas IHac] b [IHbs IHbc]|a [IHas IHac] b [IHbs IHbc]
    |g a [IHs IHc]|i a [IHs IHc]| | | |a [IHs IHc]|p].
  - cbn; naive_solver.
  - split; intros st k; cbn; destruct (m_rest st) as [|c rest].
    + done.
    + intros x. destruct (p c) eqn:Hp; [|done]. eauto 10.
    + by intros _ st' (? & ? & ? & _).
    + intros Hk st' (c' & rest' & Hr & Hp & ->). injection Hr as <- <-. by rewrite Hp in Hk.
  - split; intros st k; cbn.
    + intros x Hx. apply IHas in Hx as (s1 & Hd1 & Hx). apply IHbs in Hx as (s2 & Hd2 & Hx). eauto.
    + intros Hn st' (s1 & Hd1 & Hd2). apply (IHac _ _ Hn) in Hd1. by apply (IHbc _ _ Hd1).
  - split; intros st k; cbn.
    + intros x [Hx|Hx]%orelse_Some; [apply IHas in Hx|apply IHbs in Hx]; naive_solver.
    + intros [H1 H2]%orelse_None st' [Hd|Hd]; eauto.
  - split; intros st k; rewrite rmatch_star.
    + intros x. by apply star_sound.
    + apply star_complete; [done|lia].
  - split; intros st k; cbn.
    + intros x Hx. apply IHs in Hx as (s1 & Hd & Hx). eauto.
    + intros Hn st' (s1 & Hd & ->). by apply (IHc _ _ Hn) in Hd.
  - split; intros st k; cbn; destruct (at_bound st); naive_solver.
  - split; intros st k; cbn; destruct (at_bol multiline st); naive_solver.
  - split; intros st k; cbn; destruct (at_eol multiline st); naive_solver.
  - split; intros st k; cbn; destruct (rmatch a st Some) as [y|] eqn:E.
    + done.
    + intros x Hx. exists st. split; [|done]. split; [|done].
      intros st1 Hd. by apply (IHc _ _ E) in Hd.
    + intros _ st' [Hno ->]. apply IHs in E as (s1 & Hd & _). by apply Hno in Hd.
    + intros Hk st' [_ ->]. done.
  - split; intros st k; cbn; destruct (prev_is p (m_prev st)); naive_solver.
Qed.

(** [r] matches somewhere from [st]. *)
Definition matches_from (r : re) (st : mstate) : Prop := exists st', denotes r st st'.

Lemma rmatch_Some_iff r st : is_Some (rmatch r st Some) <-> matches_from r st.
Proof.
  destruct (rmatch_spec r) as [Hs Hc]. split.
  - intros [x Hx]. apply Hs in Hx as (st' & Hd & _). by exists st'.
  - intros [st' Hd]. destruct (rmatch r st Some) eqn:E; [done|]. by apply (Hc _ _ E) in Hd.
Qed.

Lemma rmatch_None_iff r st : rmatch r st Some = None <-> ~ matches_from r st.
Proof. rewrite <- rmatch_Some_iff. destruct (rmatch r st Some); naive_solver. Qed.

Lemma state_at_S s i :
  i < String.length s -> exists c, sdrop i s = String c (sdrop (S i) s) /\ String.get i s = Some c.
Proof.
  revert s. induction i as [|i IH]; intros [|c s]; cbn; intros Hi; [lia| |lia|].
  - by exists c.
  - apply IH. lia.
Qed.

(** [search] finds the leftmost position at which the pattern matches. *)
Lemma search_from_spec r s i :
  i <= String.length s ->
  match re_search_at r s i with
  | Some m =>
      i <= mt_start m <= String.length s /\
      (exists st', denotes r (state_at s (mt_start m)) st' /\ mt_end m = m_pos st' /\
                   mt_caps m = m_caps st') /\
      forall j, i <= j < mt_start m -> ~ matches_from r (state_at s j)
  | None => forall j, i <= j <= String.length s -> ~ matches_from r (state_at s j)
  end.
Proof.
  remember (String.length s - i) as d eqn:Hd. revert i Hd.
  induction d as [|d IH]; intros i Hd Hi; unfold re_search_at.
  - assert (sdrop i s = "") as Hnil.
    { pose proof (length_sdrop i s). destruct (sdrop i s); cbn in *; [done|lia]. }
    rewrite Hnil. cbn [search_from].
    change (MState (m_prev (state_at s i)) "" i []) with
      (MState (m_prev (state_at s i)) "" i []). rewrite <- Hnil.
    change (MState (m_prev (state_at s i)) (sdrop i s) i []) with (state_at s i).
    destruct (rmatch r (state_at s i) Some) as [st'|] eqn:E.
    + cbn. destruct (rmatch_spec r) as [Hs _]. apply Hs in E as (st1 & Hden & [= ->]).
      split_and!; [lia|lia|eauto|lia].
    + intros j Hj. replace j with i by lia. by apply rmatch_None_iff.
  - destruct (state_at_S s i) as (c & Hc & Hget); [lia|].
    rewrite Hc. cbn [search_from]. rewrite <- Hc.
    change (MState (m_prev (state_at s i)) (sdrop i s) i []) with (state_at s i).
    destruct (rmatch r (state_at s i) Some) as [st'|] eqn:E.
    + cbn. destruct (rmatch_spec r) as [Hs _]. apply Hs in E as (st1 & Hden & [= ->]).
      split_and!; [lia|lia|eauto|lia].
    + apply rmatch_None_iff in E. specialize (IH (S i) ltac:(lia) ltac:(lia)).
      unfold re_search_at in IH. cbn [m_prev state_at] in IH. rewrite Hget in IH.
      destruct (search_from r (Some c) (sdrop (S i) s) (S i)) as [m|].
      * destruct IH as (H1 & H2 & H3). split_and!; [lia|lia|done|].
        intros j Hj. destruct (decide (j = i)) as [->|]; [done|]. apply H3. lia.
      * intros j Hj. destruct (decide (j = i)) as [->|]; [done|]. apply IH. lia.
Qed.

Lemma re_test_spec r s :
  re_test r s = true <-> exists j, j <= String.length s /\ matches_from r (state_at s j).
Proof.
  unfold re_test, re_search. pose proof (search_from_spec r s 0 ltac:(lia)) as H.
  destruct (re_search_at r s 0) as [m|].
  - destruct H as (? & (st' & Hd & _) & _). split; [|done]. intros _.
    exists (mt_start m). split; [lia|]. by exists st'.
  - split; [done|]. intros (j & Hj & Hm). destruct (H j); [lia|done].
Qed.

(** ** The matches of a scan are laid out from left to right *)

Lemma denotes_pos r st st' : denotes r st st' -> m_pos st <= m_pos st'.
Proof.
  revert st st'. induction r as [|p|a IHa b IHb|a IHa b IHb|g a IHa|i a IHa| | | |a IHa|p]; intros st st'.
  - by intros ->.
  - intros (c & rest & _ & _ & ->). cbn. lia.
  - intros (st1 & H1 & H2). apply IHa in H1. apply IHb in H2. lia.
  - intros [H|H]; auto.
  - induction 1 as [|x y z [_ Hxy] _ IH]; lia.
  - intros (st1 & H & ->). by apply IHa in H.
  - by intros [_ ->].
  - by intros [_ ->].
  - by intros [_ ->].
  - by intros [_ ->].
  - by intros [_ ->].
Qed.

Lemma state_at_extent s i : i <= String.length s -> extent (state_at s i) = String.length s.
Proof. intros Hi. unfold extent, state_at. cbn. rewrite length_sdrop. lia. Qed.

Lemma re_search_at_bounds r s i m :
  i <= String.length s -> re_search_at r s i = Some m -> i <= mt_start m /\ mt_start m <= mt_end m <= String.length s.
Proof.
  intros Hi Hm. pose proof (search_from_spec r s i Hi) as H. rewrite Hm in H. destruct H as (Hs & (st' & Hd & -> & _) & _).
  pose proof (denotes_pos _ _ _ Hd) as Hp. pose proof (denotes_extent _ _ _ Hd) as He.
  rewrite state_at_extent in He by lia. unfold extent in He. cbn in Hp. lia.
Qed.

Fixpoint laid_out (s : string) (i : nat) (ms : list rmatched) : Prop :=
  match ms with
  | [] => True
  | m :: ms' => i <= mt_start m /\ mt_start m <= mt_end m <= String.length s /\ laid_out s (mt_end m) ms'
  end.

Lemma laid_out_weaken s i j ms : i <= j -> laid_out s j ms -> laid_out s i ms.
Proof. destruct ms; cbn; [done|]. naive_solver lia. Qed.

Lemma finditer_laid_out r s : laid_out s 0 (re_finditer r s).
Proof.
  unfold re_finditer. generalize (S (S (String.length s))) as fuel. intros fuel. generalize 0 as i.
  induction fuel as [|fuel IH]; intros i; cbn [finditer_aux]; [done|].
  destruct (Nat.ltb_spec (String.length s) i) as [|Hi]; [done|].
  destruct (re_search_at r s i) as [m|] eqn:Hm; [|done]. cbn [laid_out].
  apply re_search_at_bounds in Hm as [H1 H2]; [|lia]. split_and!; [lia..|].
  eapply laid_out_weaken; [|apply IH]. destruct (_ <? _); lia.
Qed.

(** [re.sub] with a function of the match *)
Fixpoint sub_with (f : rmatched -> string) (s : string) (i : nat) (ms : list rmatched) : string :=
  match ms with
  | [] => sdrop i s
  | m :: ms' => slice i (mt_start m) s +:+ f m +:+ sub_with f s (mt_end m) ms'
  end.
Definition re_sub_with (r : re) (f : rmatched -> string) (s : string) : string := sub_with f s 0 (re_finditer r s).

(** The text between the matches, and the matches *)
Fixpoint pieces (s : string) (i : nat) (ms : list rmatched) : list (string + rmatched) :=
  match ms with
  | [] => [inl (sdrop i s)]
  | m :: ms' => inl (slice i (mt_start m) s) :: inr m :: pieces s (mt_end m) ms'
  end.
Definition render_pieces (f : rmatched -> string) (ps : list (string + rmatched)) : string :=
  foldr (fun p acc => (match p with inl t => t | inr m => f m end) +:+ acc) "" ps.

Lemma render_pieces_cons f p ps :
  render_pieces f (p :: ps) = (match p with inl t => t | inr m => f m end) +:+ render_pieces f ps.
Proof. done. Qed.

Lemma sub_with_pieces f s i ms : sub_with f s i ms = render_pieces f (pieces s i ms).
Proof.
  revert i. induction ms as [|m ms IH]; intros i; cbn [sub_with pieces]; rewrite !render_pieces_cons; [symmetry; apply sapp_nil_r|].
  by rewrite IH.
Qed.

Lemma slice_sdrop i j s : i <= j -> slice i j s +:+ sdrop j s = sdrop i s.
Proof. intros H. unfold slice. replace j with (i + (j - i)) at 2 by lia. rewrite sdrop_add. apply stake_sdrop. Qed.

Lemma group_0 s m : group_or_empty 0 s m = slice (mt_start m) (mt_end m) s.
Proof. done. Qed.

Lemma render_pieces_same s i ms : laid_out s i ms -> render_pieces (group_or_empty 0 s) (pieces s i ms) = sdrop i s.
Proof.
  revert i. induction ms as [|m ms IH]; intros i; cbn [pieces laid_out]; rewrite !render_pieces_cons.
  { intros _. apply sapp_nil_r. }
  intros (H1 & H2 & H3). rewrite IH by done. rewrite group_0.
  rewrite slice_sdrop by lia. apply slice_sdrop. lia.
Qed.

Lemma sub_with_ext f g s i ms : (forall m, m ∈ ms -> f m = g m) -> sub_with f s i ms = sub_with g s i ms.
Proof.
  revert i. induction ms as [|m ms IH]; intros i H; cbn [sub_with]; [done|].
  rewrite H by left. rewrite IH; [done|]. intros m' Hm. apply H. by right.
Qed.

(** Replacing every match by its own text changes nothing *)
Lemma re_sub_same r f s : (forall m, m ∈ re_finditer r s -> f m = group_or_empty 0 s m) -> re_sub_with r f s = s.
Proof.
  intros H. unfold re_sub_with. rewrite (sub_with_ext f (group_or_empty 0 s)) by done. rewrite sub_with_pieces.
  rewrite render_pieces_same by apply finditer_laid_out. apply sdrop_0.
Qed.

(** ** What a match reads *)

Lemma denotes_reads r st st' : denotes r st st' -> exists x, m_rest st = x +:+ m_rest st' /\ m_pos st' = m_pos st + String.length x.
Proof.
  assert (forall st, exists x, m_rest st = x +:+ m_rest st /\ m_pos st = m_pos st + String.length x) as Hnil by (intros s; exists ""; cbn; auto with lia).
  assert (forall st st1 st2, (exists x, m_rest st = x +:+ m_rest st1 /\ m_pos st1 = m_pos st + String.length x) ->
    (exists x, m_rest st1 = x +:+ m_rest st2 /\ m_pos st2 = m_pos st1 + String.length x) ->
    exists x, m_rest st = x +:+ m_rest st2 /\ m_pos st2 = m_pos st + String.length x) as Happ.
  { intros s s1 s2 (x & Hx & Hp) (y & Hy & Hq). exists (x +:+ y). rewrite Hx, Hy, sapp_assoc, length_sapp. split; [done|lia]. }
  revert st st'. induction r as [|p|a IHa b IHb|a IHa b IHb|g a IHa|i a IHa| | | |a IHa|p]; intros st st'; cbn [denotes].
  - intros ->. apply Hnil.
  - intros (c & rest & Hr & _ & ->). exists (String c ""). rewrite Hr. cbn. split; [done|lia].
  - intros (st1 & H1 & H2). eapply Happ; [by apply IHa|by apply IHb].
  - intros [H|H]; [by apply IHa|by apply IHb].
  - induction 1 as [|x y z [Hxy _] _ IH]; [apply Hnil|]. eapply Happ; [by apply IHa|exact IH].
  - intros (st1 & H & ->). exact (IHa _ _ H).
  - intros [_ ->]. apply Hnil.
  - intros [_ ->]. apply Hnil.
  - intros [_ ->]. apply Hnil.
  - intros [_ ->]. apply Hnil.
  - intros [_ ->]. apply Hnil.
Qed.

Lemma denotes_str lit : forall st st', denotes (RStr lit) st st' -> m_rest st = lit +:+ m_rest st' /\ m_pos st' = m_pos st + String.length lit /\ m_caps st' = m_caps st.
Proof.
  induction lit as [|c lit IH]; intros st st'; cbn [RStr denotes].
  - intros ->. split_and!; [done|cbn; lia|done].
  - intros (st1 & (d & rest & Hr & Hc & ->) & H). apply Ascii.eqb_eq in Hc as <-. apply IH in H as (H1 & H2 & H3). cbn [advance m_rest m_pos m_caps] in *.
    rewrite Hr, H1, H2, H3. split_and!; [done|cbn; lia|done].
Qed.

Lemma denotes_star_set_caps g p st st' : denotes (RStar g (RSet p)) st st' -> m_caps st' = m_caps st.
Proof. cbn [denotes]. induction 1 as [|x y z [(c & rest & _ & _ & ->) _] _ IH]; [done|]. by rewrite IH. Qed.

Lemma slice_read p s x rest : sdrop p s = x +:+ rest -> slice p (p + String.length x) s = x.
Proof.
  intros H. unfold slice. rewrite H. replace (p + String.length x - p) with (String.length x) by lia. clear H.
  induction x as [|c x IH]; [by destruct rest|]. change (String c x +:+ rest) with (String c (x +:+ rest)). cbn. by rewrite IH.
Qed.

(** A literal, a captured text and a literal: what is captured stands between them *)
Lemma search_between lit p lit' s m x :
  re_search (RAll [RStr lit; RGroup 1 (RManyLazy (RSet p)); RStr lit']) s = Some m -> re_group 1 s m = Some x ->
  exists a b, s = a +:+ lit +:+ x +:+ lit' +:+ b.
Proof.
  intros Hm Hx. pose proof (search_from_spec (RAll [RStr lit; RGroup 1 (RManyLazy (RSet p)); RStr lit']) s 0 ltac:(lia)) as H.
  unfold re_search in Hm. rewrite Hm in H. destruct H as (Hs & (st' & Hd & He & Hc) & _).
  cbn [RAll denotes] in Hd. destruct Hd as (st1 & H1 & (st2 & (st3 & H3 & ->) & H4)).
  apply denotes_str in H1 as (Hr1 & Hp1 & Hc1). pose proof H3 as H3'. apply denotes_star_set_caps in H3'. apply denotes_reads in H3 as (y & Hr3 & Hp3).
  assert (m_rest st3 = lit' +:+ m_rest st' /\ m_caps st' = m_caps (capture 1 st1 st3)) as [Hr4 Hc4].
  { apply denotes_str in H4 as (? & ? & ?). by split. }
  cbn [state_at m_rest m_pos m_caps] in *. unfold re_group in Hx. rewrite Hc, Hc4 in Hx. cbn in Hx.
  injection Hx as <-. rewrite Hp3. exists (stake (mt_start m) s), (m_rest st').
  assert (slice (m_pos st1) (m_pos st1 + String.length y) s = y) as ->.
  { eapply slice_read. rewrite Hp1, sdrop_add, Hr1, <- Hr3. clear. induction lit as [|c l IH]; [done|]. exact IH. }
  rewrite <- Hr4, <- Hr3, <- Hr1. symmetry. apply stake_sdrop.
Qed.
