(* ===== verification/PyPath.v ===== *)
(** * Paths (pathlib) and the file-system boundary

    A [Path] is its tuple of parts, an absolute path starting with the part "/".
    Reading the disk is not modelled: a [FileSystem] record holds what the code
    asks it for, and every function that touches the disk takes one. *)

From S2P Require Import Prelude PyStr.

Definition path := list string.

(** [str(p)] *)
Definition path_str (p : path) : string :=
  match p with
  | [] => "."
  | "/" :: rest => "/" +:+ join "/" rest
  | _ => join "/" p
  end.

Definition is_absolute (p : path) : bool :=
  match p with "/" :: _ => true | _ => false end.

(** [Path(s)]: empty parts and "." are dropped *)
Definition to_path (s : string) : path :=
  let parts := List.filter (fun p => truthy p && negb (String.eqb p ".")) (split_char "/" s) in
  if starts_with "/" s then "/" :: parts else parts.

(** [a / b] *)
Definition path_join (a b : path) : path := if is_absolute b then b else a ++ b.

(** [p.parent]; the parent of a root and of the empty path is itself *)
Definition parent (p : path) : path :=
  match p with [] => [] | ["/"] => ["/"] | _ => removelast p end.

(** [p.name] *)
Definition path_name (p : path) : string :=
  match p with ["/"] => "" | _ => default "" (last p) end.

Fixpoint strip_parts (root p : path) : option path :=
  match root, p with
  | [], _ => Some p
  | r :: root', q :: p' => if String.eqb r q then strip_parts root' p' else None
  | _ :: _, [] => None
  end.

(** [p.is_relative_to(root)], [p.relative_to(root)] *)
Definition is_relative_to (p root : path) : bool := negb (is_none (strip_parts root p)).

(** [root in p.parents] *)
Definition in_parents (root p : path) : bool :=
  match strip_parts root p with Some (_ :: _) => true | _ => false end.

(** The order of paths: part by part. *)
Fixpoint path_leb (p q : path) : bool :=
  match p, q with
  | [], _ => true
  | _ :: _, [] => false
  | a :: p', b :: q' => if String.eqb a b then path_leb p' q' else str_leb a b
  end.

(** The operations of the disk the modelled code performs.  [fs_rglob_sol root] is
    [root.rglob("*.sol")], [fs_read p] the text of a file or the [OSError]. *)
Record FileSystem := mkFS {
  fs_resolve : path -> path;
  fs_resolve_error : path -> option string;
  fs_exists : path -> bool;
  fs_is_file : path -> bool;
  fs_is_dir : path -> bool;
  fs_read : path -> res string;
  fs_rglob : path -> list path;
  fs_rglob_sol : path -> list path;
}.

(** [os.path.abspath(p)] from the working directory [cwd], the parts below the root:
    ".." drops a part and is dropped at the root. *)
Definition push_part (acc : path) (x : string) : path :=
  if String.eqb x ".." then removelast acc else acc ++ [x].
Definition norm_parts (p : path) : path := foldl push_part [] p.
Definition abs_parts (cwd p : path) : path := norm_parts (tail (path_join cwd p)).

Fixpoint drop_common (a b : path) : path * path :=
  match a, b with
  | x :: a', y :: b' => if String.eqb x y then drop_common a' b' else (a, b)
  | _, _ => (a, b)
  end.

Definition relative_parts (a b : path) : path :=
  let '(a', b') := drop_common a b in repeat ".." (length b') ++ a'.

(** [os.path.relpath(p, start)] *)
Definition relpath (cwd p start : path) : string :=
  match relative_parts (abs_parts cwd p) (abs_parts cwd start) with [] => "." | parts => join "/" parts end.

Lemma path_join_child d s : s <> "/" -> path_join d [s] = d ++ [s].
Proof.
  intros Hs. unfold path_join. assert (is_absolute [s] = false) as ->; [|done].
  destruct s as [|c [|e s]]; try done.
  - destruct c as [[] [] [] [] [] [] [] []]; try done; by destruct Hs.
  - by destruct c as [[] [] [] [] [] [] [] []].
Qed.

Lemma strip_parts_app root p : strip_parts root (root ++ p) = Some p.
Proof. induction root as [|r root IH]; cbn; [done|]. by rewrite String.eqb_refl. Qed.

Lemma strip_parts_Some root p q : strip_parts root p = Some q <-> p = root ++ q.
Proof.
  split; [|intros ->; apply strip_parts_app].
  revert p. induction root as [|r root IH]; intros p; cbn; [congruence|].
  destruct p as [|x p]; [done|]. destruct (String.eqb_spec r x) as [->|]; [|done].
  intros H. by rewrite (IH p H).
Qed.

Lemma path_leb_total p q : path_leb p q = true \/ path_leb q p = true.
Proof.
  revert q. induction p as [|a p IH]; intros [|b q]; cbn; auto.
  rewrite (String.eqb_sym b a). destruct (String.eqb_spec a b) as [->|]; [apply IH|].
  apply str_leb_total.
Qed.

Lemma path_leb_trans p q r : path_leb p q = true -> path_leb q r = true -> path_leb p r = true.
Proof.
  revert q r. induction p as [|a p IH]; intros [|b q] [|c r]; cbn; try done.
  destruct (String.eqb_spec a b) as [->|Hab], (String.eqb_spec b c) as [->|Hbc]; try done.
  - apply IH.
  - by rewrite (proj2 (String.eqb_neq a c) Hab).
  - intros H1 H2. destruct (String.eqb_spec a c) as [->|Hac].
    + destruct Hab. by apply str_leb_antisym.
    + eauto using str_leb_trans.
Qed.

#[export] Hint Resolve path_leb_total path_leb_trans : py.

Lemma is_relative_to_spec p root : is_relative_to p root = true <-> exists q, p = root ++ q.
Proof.
  unfold is_relative_to. destruct (strip_parts root p) as [q|] eqn:E; cbn.
  - apply strip_parts_Some in E. naive_solver.
  - split; [done|]. intros [q Hq%strip_parts_Some]. congruence.
Qed.

(** A disk on which every path is its own resolution and no file exists, the
    starting point of concrete examples. *)
Definition empty_fs : FileSystem := {|
  fs_resolve p := p;
  fs_resolve_error _ := None;
  fs_exists _ := false;
  fs_is_file _ := false;
  fs_is_dir _ := false;
  fs_read p := Raise (Exn "FileNotFoundError" (path_str p));
  fs_rglob _ := [];
  fs_rglob_sol _ := [];
|}.

(** ** Relative paths *)

Lemma norm_parts_no_dots p : Forall (fun x => x <> "..") p -> norm_parts p = p.
Proof.
  unfold norm_parts. assert (forall acc, Forall (fun x => x <> "..") p -> foldl push_part acc p = acc ++ p) as H.
  { induction p as [|x p IH]; intros acc; [by rewrite app_nil_r|]. rewrite Forall_cons. intros [Hx Hp]. cbn [foldl].
    rewrite IH by done. unfold push_part. rewrite (proj2 (String.eqb_neq x "..") Hx). by rewrite <- app_assoc. }
  intros Hp. by rewrite (H [] Hp).
Qed.

Lemma norm_parts_are_no_dots p : Forall (fun x => x <> "..") (norm_parts p).
Proof.
  unfold norm_parts. assert (forall acc, Forall (fun x => x <> "..") acc -> Forall (fun x => x <> "..") (foldl push_part acc p)) as H.
  { induction p as [|x p IH]; intros acc Hacc; [done|]. cbn [foldl]. apply IH. unfold push_part.
    destruct (String.eqb_spec x "..").
    - destruct acc as [|y acc] using rev_ind; [done|]. rewrite removelast_last.
      by apply Forall_app in Hacc as [? _].
    - apply Forall_app. split; [done|]. by constructor. }
  by apply H.
Qed.

Lemma drop_common_spec a b : exists c, a = c ++ (drop_common a b).1 /\ b = c ++ (drop_common a b).2.
Proof.
  revert b. induction a as [|x a IH]; intros b; [by exists []; destruct b|].
  destruct b as [|y b]; [by exists []|]. cbn [drop_common].
  destruct (String.eqb_spec x y) as [->|]; [|by exists []].
  destruct (IH b) as (c & Ha & Hb). exists (y :: c). cbn. by rewrite <- Ha, <- Hb.
Qed.

Lemma pop_parts acc n : foldl push_part acc (repeat ".." n) = take (length acc - n) acc.
Proof.
  revert acc. induction n as [|n IH]; intros acc; cbn [repeat foldl].
  { by rewrite Nat.sub_0_r, take_ge. }
  rewrite IH. change (push_part acc "..") with (removelast acc).
  destruct acc as [|y acc] using rev_ind; [done|]. rewrite removelast_last, length_app. cbn [length].
  rewrite take_app_le by lia. f_equal. lia.
Qed.

(** Walking the relative parts from [b] leads to [a]. *)
Lemma relative_parts_lead a b :
  Forall (fun x => x <> "..") a -> Forall (fun x => x <> "..") b -> norm_parts (b ++ relative_parts a b) = a.
Proof.
  intros Ha Hb. unfold relative_parts. destruct (drop_common_spec a b) as (c & Hac & Hbc).
  destruct (drop_common a b) as [a' b']. cbn [fst snd] in *. subst a b.
  unfold norm_parts. rewrite !foldl_app.
  assert (Forall (fun x => x <> "..") c) as Hc by (by apply Forall_app in Ha as [? _]).
  assert (Forall (fun x => x <> "..") (c ++ a')) as Hca by done.
  fold (norm_parts c). rewrite (norm_parts_no_dots c Hc).
  assert (foldl push_part c b' = c ++ b') as ->.
  { transitivity (norm_parts (c ++ b')); [|by apply norm_parts_no_dots].
    unfold norm_parts. rewrite foldl_app. fold (norm_parts c). by rewrite (norm_parts_no_dots c Hc). }
  rewrite pop_parts, length_app. replace (length c + length b' - length b') with (length c) by lia.
  rewrite take_app_length. transitivity (norm_parts (c ++ a')); [|by apply norm_parts_no_dots].
  unfold norm_parts. rewrite foldl_app. fold (norm_parts c). by rewrite (norm_parts_no_dots c Hc).
Qed.

(** The relative path of [p] from [start] leads from [start] to [p]. *)
Lemma relpath_leads cwd p start :
  exists parts, relpath cwd p start = (match parts with [] => "." | _ => join "/" parts end) /\
    norm_parts (abs_parts cwd start ++ parts) = abs_parts cwd p.
Proof.
  exists (relative_parts (abs_parts cwd p) (abs_parts cwd start)).
  split; [unfold relpath; by destruct (relative_parts _ _)|].
  apply relative_parts_lead; apply norm_parts_are_no_dots.
Qed.
