(* ===== verification/PyVal.v ===== *)
(** * Dynamic values

    What [json.loads] returns and what untyped payloads are made of.  A dict is
    the list of its items in insertion order.  A float is kept as its
    [repr], which is what code that only tests and prints it needs; PyNum reads it as a number. *)

From S2P Require Import Prelude PyStr.

Inductive pyval :=
| PNone
| PBool (b : bool)
| PInt (z : Z)
| PFloat (repr : string)
| PStr (s : string)
| PList (l : list pyval)
| PDict (d : list (string * pyval)).

(** Induction with hypotheses on the elements of lists and dicts. *)
Section pyval_rect.
Context (P : pyval -> Prop).
Context (Hnone : P PNone) (Hbool : forall b, P (PBool b)) (Hint : forall z, P (PInt z))
  (Hfloat : forall s, P (PFloat s)) (Hstr : forall s, P (PStr s))
  (Hlist : forall l, Forall P l -> P (PList l))
  (Hdict : forall d, Forall (fun kv => P kv.2) d -> P (PDict d)).

Fixpoint pyval_ind' (v : pyval) : P v :=
  match v with
  | PNone => Hnone
  | PBool b => Hbool b
  | PInt z => Hint z
  | PFloat s => Hfloat s
  | PStr s => Hstr s
  | PList l => Hlist l
      ((fix go (l : list pyval) : Forall P l :=
          match l with
          | [] => List.Forall_nil P
          | x :: l' => List.Forall_cons P x l' (pyval_ind' x) (go l')
          end) l)
  | PDict d => Hdict d
      ((fix go (d : list (string * pyval)) : Forall (fun kv => P kv.2) d :=
          match d with
          | [] => List.Forall_nil _
          | x :: d' => List.Forall_cons _ x d' (pyval_ind' x.2) (go d')
          end) d)
  end.
End pyval_rect.

Fixpoint pyval_eqb (x y : pyval) : bool :=
  match x, y with
  | PNone, PNone => true
  | PBool a, PBool b => Bool.eqb a b
  | PInt a, PInt b => (a =? b)%Z
  | PFloat a, PFloat b | PStr a, PStr b => String.eqb a b
  | PList l, PList l' =>
      (fix go (l l' : list pyval) : bool :=
         match l, l' with
         | [], [] => true
         | a :: l1, b :: l2 => pyval_eqb a b && go l1 l2
         | _, _ => false
         end) l l'
  | PDict d, PDict d' =>
      (fix go (d d' : list (string * pyval)) : bool :=
         match d, d' with
         | [], [] => true
         | a :: l1, b :: l2 => String.eqb a.1 b.1 && pyval_eqb a.2 b.2 && go l1 l2
         | _, _ => false
         end) d d'
  | _, _ => false
  end.

Lemma pyval_eqb_eq x y : pyval_eqb x y = true <-> x = y.
Proof.
  revert y. induction x as [|b|z|s|s|l IH|d IH] using pyval_ind'; intros [|b'|z'|s'|s'|l'|d'];
    cbn [pyval_eqb]; try (split; [done|congruence]).
  - rewrite Bool.eqb_true_iff. split; congruence.
  - rewrite Z.eqb_eq. split; congruence.
  - rewrite String.eqb_eq. split; congruence.
  - rewrite String.eqb_eq. split; congruence.
  - trans (l = l'); [|split; congruence].
    revert l'. induction IH as [|a l Ha _ IHl]; intros [|b l']; try done.
    rewrite andb_true_iff, Ha, IHl. split; [intros [-> ->]|intros [=]]; done.
  - trans (d = d'); [|split; congruence].
    revert d'. induction IH as [|[k a] l Ha _ IHl]; intros [|[k' b] l']; try done.
    cbn [fst snd] in *. rewrite !andb_true_iff, Ha, IHl, String.eqb_eq.
    split; [intros [[-> ->] ->]|intros [=]]; done.
Qed.

#[export] Instance pyval_eq_dec : EqDecision pyval.
Proof.
  intros x y. destruct (pyval_eqb x y) eqn:E; [left|right]; rewrite <- pyval_eqb_eq; congruence.
Defined.

(** ** Python operations on dynamic values *)

(** [bool(v)] *)
Definition truthy_val (v : pyval) : bool :=
  match v with
  | PNone => false
  | PBool b => b
  | PInt z => negb (z =? 0)%Z
  | PFloat s => negb (bool_decide (s ∈ ["0.0"; "-0.0"]))
  | PStr s => truthy s
  | PList l => negb (bool_decide (l = []))
  | PDict d => negb (bool_decide (d = []))
  end.

(** [v or w] *)
Definition por (v w : pyval) : pyval := if truthy_val v then v else w.

Definition is_dict (v : pyval) : bool := match v with PDict _ => true | _ => false end.
Definition is_list (v : pyval) : bool := match v with PList _ => true | _ => false end.
Definition is_pystr (v : pyval) : bool := match v with PStr _ => true | _ => false end.

Definition type_name (v : pyval) : string :=
  match v with
  | PNone => "NoneType" | PBool _ => "bool" | PInt _ => "int" | PFloat _ => "float"
  | PStr _ => "str" | PList _ => "list" | PDict _ => "dict"
  end.

(** [v.get(k, dflt)]: only a dict has the attribute. *)
Definition pget (v : pyval) (k : string) (dflt : pyval) : res pyval :=
  match v with
  | PDict d => Ok (default dflt (assoc k d))
  | _ => Raise (Exn "AttributeError" ("'" +:+ type_name v +:+ "' object has no attribute 'get'"))
  end.

(** Iterating a value in a [for] loop. *)
Definition piter (v : pyval) : res (list pyval) :=
  match v with
  | PList l => Ok l
  | PDict d => Ok (map (fun kv => PStr kv.1) d)
  | PStr s => Ok (map (fun c => PStr (String c "")) (String.list_ascii_of_string s))
  | _ => Raise (Exn "TypeError" ("'" +:+ type_name v +:+ "' object is not iterable"))
  end.

(** [v.strip()], [v.lower()] and the like: only a [str] has the attribute. *)
Definition pstr_method (name : string) (f : string -> string) (v : pyval) : res string :=
  match v with
  | PStr s => Ok (f s)
  | _ => Raise (Exn "AttributeError"
           ("'" +:+ type_name v +:+ "' object has no attribute '" +:+ name +:+ "'"))
  end.

(** A value expected to be a string (a declared field type). *)
Definition as_str (v : pyval) : res string :=
  match v with
  | PStr s => Ok s
  | _ => Raise (Exn "TypeError" ("expected str, got " +:+ type_name v))
  end.

(** Plain lookup in a value known to be a dict; [None] elsewhere. *)
Definition dget (v : pyval) (k : string) : option pyval :=
  match v with PDict d => assoc k d | _ => None end.

Definition dget_str (v : pyval) (k dflt : string) : string :=
  match dget v k with Some (PStr s) => s | _ => dflt end.

(** [repr(v)] and [str(v)] *)
Fixpoint py_repr (v : pyval) : string :=
  match v with
  | PNone => "None"
  | PBool b => pybool b
  | PInt z => pretty z
  | PFloat l => l
  | PStr s => repr_str s
  | PList l => "[" +:+ join ", " (map py_repr l) +:+ "]"
  | PDict d => "{" +:+ join ", " (map (fun kv => repr_str kv.1 +:+ ": " +:+ py_repr kv.2) d) +:+ "}"
  end.

Definition py_str (v : pyval) : string := match v with PStr s => s | _ => py_repr v end.

(** [v[k]] with a string key *)
Definition getitem (v : pyval) (k : string) : res pyval :=
  match v with
  | PDict d => match assoc k d with Some x => Ok x | None => Raise (Exn "KeyError" (repr_str k)) end
  | PList _ => Raise (Exn "TypeError" "list indices must be integers or slices, not str")
  | PStr _ => Raise (Exn "TypeError" "string indices must be integers, not 'str'")
  | _ => Raise (Exn "TypeError" ("'" +:+ type_name v +:+ "' object is not subscriptable"))
  end.

(** [v[k] = x] *)
Definition setitem (v : pyval) (k : string) (x : pyval) : res pyval :=
  match v with
  | PDict d => Ok (PDict (assoc_set k x d))
  | _ => Raise (Exn "TypeError" ("'" +:+ type_name v +:+ "' object does not support item assignment"))
  end.

(** Membership in a set hashes the value. *)
Definition hashable (v : pyval) : res pyval :=
  match v with
  | PList _ | PDict _ => Raise (Exn "TypeError" ("unhashable type: '" +:+ type_name v +:+ "'"))
  | _ => Ok v
  end.
