(* ===== verification/PyNum.v ===== *)
(** * Reading numbers: int() and float()

    The built-in constructors on strings, and IEEE 754 binary64 arithmetic with the
    Standard Library's executable [SpecFloat]: round to nearest, ties to even.  A
    decimal is rounded once, from its exact value. *)

From S2P Require Import Prelude PyStr.
From Stdlib Require Export Floats.SpecFloat.

Abbreviation pyfloat := spec_float.

Definition float_abs (x : pyfloat) : pyfloat := SFabs x.
Definition float_sub (x y : pyfloat) : pyfloat := SFsub 53 1024 x y.

(** The double nearest to [z * 2 ^ 0], infinite beyond the range *)
Definition float_round_Z (z : Z) : pyfloat := binary_normalize 53 1024 z 0 false.

(** [float(z)] for an [int]: the conversion raises where a literal gives infinity *)
Definition float_of_int (z : Z) : res pyfloat :=
  match float_round_Z z with
  | S754_infinity _ => Raise (Exn "OverflowError" "int too large to convert to float")
  | f => Ok f
  end.

(** A run of digits with single underscores between them, after the value [acc] of
    the [n] digits read so far *)
Fixpoint scan_digits (acc : Z) (n : nat) (s : string) : Z * nat * string :=
  match s with
  | "" => (acc, n, "")
  | String c s' =>
      if is_digit c then scan_digits (acc * 10 + (Z.of_nat (nat_of_ascii c) - 48))%Z (S n) s'
      else if Ascii.eqb c "_" && (0 <? n) && match s' with String d _ => is_digit d | "" => false end
      then scan_digits acc n s'
      else (acc, n, s)
  end.

(** The sign and what follows it *)
Definition read_sign (s : string) : bool * string :=
  match s with
  | String c s' => if Ascii.eqb c "-" then (true, s') else if Ascii.eqb c "+" then (false, s') else (false, s)
  | "" => (false, "")
  end.

(** The longest run of digits [int] converts *)
Definition INT_MAX_STR_DIGITS : nat := Z.to_nat 4300.

(** [int(s)]; [None] is [ValueError] *)
Definition py_int (s : string) : option Z :=
  let '(neg, body) := read_sign (strip s) in
  match scan_digits 0 0 body with
  | (v, n, "") =>
      if (0 <? n) && (n <=? INT_MAX_STR_DIGITS) then Some (if neg then (- v)%Z else v) else None
  | _ => None
  end.

(** The double nearest to [d * 10 ^ e] for [d > 0] *)
Definition float_of_decimal (neg : bool) (d : positive) (e : Z) : pyfloat :=
  if (0 <=? e)%Z then
    let f := float_round_Z (Zpos d * 10 ^ e) in if neg then SFopp f else f
  else
    let '(mz, ez, lz) := SFdiv_core_binary 53 1024 (Zpos d) 0 (10 ^ (- e)) 0 in
    binary_round_aux 53 1024 neg mz ez lz.

(** [e[+-]digits] at the end of a literal; no exponent is 0 *)
Definition read_exponent (s : string) : option Z :=
  match s with
  | "" => Some 0%Z
  | String c s' =>
      if Ascii.eqb (lower_char c) "e" then
        let '(neg, body) := read_sign s' in
        match scan_digits 0 0 body with
        | (v, n, "") => if 0 <? n then Some (if neg then (- v)%Z else v) else None
        | _ => None
        end
      else None
  end.

(** [float(s)]; [None] is [ValueError] *)
Definition py_float (s : string) : option pyfloat :=
  let '(neg, body) := read_sign (strip s) in
  if bool_decide (lower body ∈ ["inf"; "infinity"]) then Some (S754_infinity neg)
  else if String.eqb (lower body) "nan" then Some S754_nan
  else
    let '(ip, ni, rest) := scan_digits 0 0 body in
    let '(d, nf, rest) :=
      match rest with
      | String c rest' =>
          if Ascii.eqb c "." then let '(d, k, r) := scan_digits 0 0 rest' in ((ip * 10 ^ Z.of_nat k + d)%Z, k, r)
          else (ip, 0, rest)
      | "" => (ip, 0, rest)
      end in
    if ni + nf =? 0 then None
    else
      e ← read_exponent rest;
      Some match d with
           | Zpos d => float_of_decimal neg d (e - Z.of_nat nf)
           | _ => S754_zero neg
           end.

(** [p / q] of two positive ints, rounded once *)
Definition float_of_ratio (neg : bool) (p q : Z) : pyfloat :=
  let '(mz, ez, lz) := SFdiv_core_binary 53 1024 p 0 q 0 in binary_round_aux 53 1024 neg mz ez lz.

(** [a / b] of naturals, [b > 0] *)
Definition true_div (a b : nat) : pyfloat :=
  match a with 0 => S754_zero false | _ => float_of_ratio false (Z.of_nat a) (Z.of_nat b) end.

Definition float_ltb (x y : pyfloat) : bool := SFltb x y.

(** The nearest integer to [p / q], ties to even *)
Definition round_half_even (p q : Z) : Z :=
  let '(d, r) := Z.div_eucl p q in
  match (2 * r ?= q)%Z with
  | Lt => d
  | Gt => (d + 1)%Z
  | Eq => if Z.even d then d else (d + 1)%Z
  end.

(** [m * 2 ^ e] as a quotient *)
Definition float_quotient (m : positive) (e : Z) : Z * Z :=
  if (0 <=? e)%Z then ((Zpos m * 2 ^ e)%Z, 1%Z) else (Zpos m, (2 ^ (- e))%Z).

Definition sign_str (neg : bool) : string := if neg then "-" else "".

(** A natural number of cents with two decimals *)
Definition cents_str (n : Z) : string :=
  let '(q, r) := Z.div_eucl n 100 in pretty q +:+ "." +:+ pad_to 2 (Z.to_nat r).

(** [f"{x:.2f}"], rounding the exact value *)
Definition float_fixed2 (x : pyfloat) : string :=
  match x with
  | S754_nan => "nan"
  | S754_infinity neg => sign_str neg +:+ "inf"
  | S754_zero neg => sign_str neg +:+ "0.00"
  | S754_finite neg m e => let '(p, q) := float_quotient m e in sign_str neg +:+ cents_str (round_half_even (p * 100) q)
  end.

(** [f"{x:.2%}"]: the product with 100 is rounded before the formatting *)
Definition float_percent (x : pyfloat) : string := float_fixed2 (SFmul 53 1024 x (float_round_Z 100)) +:+ "%".

(** [round(x, n)]: the exact value rounded to [n] decimals, ties to even, read back *)
Definition float_round (n : Z) (x : pyfloat) : pyfloat :=
  match x with
  | S754_finite neg m e =>
      let '(p, q) := float_quotient m e in
      match round_half_even (p * 10 ^ n) q with
      | Zpos d => float_of_decimal neg d (- n)
      | _ => S754_zero neg
      end
  | _ => x
  end.

(** The power of ten of the first digit of [p / q] *)
Definition decimal_exponent (p q : Z) : Z :=
  let k := (Z.of_nat (String.length (pretty p)) - Z.of_nat (String.length (pretty q)))%Z in
  let at_least (k : Z) := if (0 <=? k)%Z then (q * 10 ^ k <=? p)%Z else (q <=? p * 10 ^ (- k))%Z in
  if at_least k then k else (k - 1)%Z.

(** [p / q] to [n] significant digits: the digits and the exponent of the last one *)
Definition significant (n : nat) (p q : Z) : Z * Z :=
  let s := (Z.of_nat n - 1 - decimal_exponent p q)%Z in
  let d := if (0 <=? s)%Z then round_half_even (p * 10 ^ s) q else round_half_even p (q * 10 ^ (- s)) in
  (d, (- s)%Z).

(** The fewest digits that read back as the float *)
Fixpoint shortest (fuel n : nat) (neg : bool) (p q : Z) (x : pyfloat) : Z * Z :=
  let '(d, e) := significant n p q in
  match fuel with
  | 0 => (d, e)
  | S fuel' =>
      if match d with Zpos d' => SFeqb (float_of_decimal neg d' e) x | _ => false end then (d, e)
      else shortest fuel' (S n) neg p q x
  end.

Definition exponent_str (e : Z) : string :=
  (if (e <? 0)%Z then "e-" else "e+") +:+ pad_to 2 (Z.to_nat (Z.abs e)).

(** Digits and the exponent of the last one, in positional notation from 1e-4 to 1e16 *)
Definition digits_str (d e : Z) : string :=
  let ds := pretty d in
  let n := String.length ds in
  let point := (Z.of_nat n + e)%Z in
  if (point <=? -4)%Z || (16 <? point)%Z then
    stake 1 ds +:+ (if 1 <? n then "." +:+ sdrop 1 ds else "") +:+ exponent_str (point - 1)
  else if (point <=? 0)%Z then "0." +:+ String.concat "" (repeat "0" (Z.to_nat (- point))) +:+ ds
  else if (Z.of_nat n <=? point)%Z then ds +:+ String.concat "" (repeat "0" (Z.to_nat (point - Z.of_nat n))) +:+ ".0"
  else stake (Z.to_nat point) ds +:+ "." +:+ sdrop (Z.to_nat point) ds.

(** [repr(x)] *)
Definition float_repr (x : pyfloat) : string :=
  match x with
  | S754_nan => "nan"
  | S754_infinity neg => sign_str neg +:+ "inf"
  | S754_zero neg => sign_str neg +:+ "0.0"
  | S754_finite neg m e =>
      let '(p, q) := float_quotient m e in
      let '(d, k) := shortest 16 1 neg p q x in sign_str neg +:+ digits_str d k
  end.

(** ** Properties *)

Lemma is_digit_range c : is_digit c = true -> 48 <= nat_of_ascii c <= 57.
Proof. unfold is_digit, ascii_in. boolify. rewrite !Nat.leb_le. lia. Qed.

Lemma scan_digits_nonneg acc n s : (0 <= acc)%Z -> (0 <= (scan_digits acc n s).1.1)%Z.
Proof.
  revert acc n. induction s as [|c s IH]; intros acc n Ha; [done|]. cbn [scan_digits].
  destruct (is_digit c) eqn:Hd; [apply IH; apply is_digit_range in Hd; lia|].
  destruct (_ && _ && _); [by apply IH|done].
Qed.

Lemma scan_digits_digits acc n s : (forall c, c ∈ String.list_ascii_of_string s -> is_digit c = true) ->
  scan_digits acc n s = (digits_val acc s, n + String.length s, "").
Proof.
  revert acc n. induction s as [|c s IH]; intros acc n Hs; cbn [scan_digits digits_val String.length].
  { by rewrite Nat.add_0_r. }
  assert (is_digit c = true) as -> by (apply Hs; constructor).
  rewrite IH by (intros d Hd; apply Hs; by constructor). by rewrite Nat.add_succ_r.
Qed.

(** Small integers convert exactly: two to the 53 is the first magnitude whose successor
    is rounded; a difference taken before the conversion keeps what a difference taken
    after it loses. *)
Example int_difference_is_exact :
  float_of_int (Z.abs (1999999999999999999 - 2000000000000000000)) = float_of_int 1 /\
  float_sub (float_round_Z 1999999999999999999) (float_round_Z 2000000000000000000) = S754_zero false.
Proof. vm_compute. done. Qed.

Example py_numbers :
  py_int " -1_000 " = Some (-1000)%Z /\ py_int "1__0" = None /\ py_int "0x10" = None /\
  py_float "1e3" = py_float "1000.0" /\ py_float ".5" = py_float "5E-1" /\ py_float "1._5" = None /\
  py_float "0.1" = Some (S754_finite false 7205759403792794 (-56)) /\ py_float "-Infinity" = Some (S754_infinity true).
Proof. vm_compute. done. Qed.

Example float_texts :
  map float_repr (omap py_float ["0.1"; "1"; "2.5e-7"; "123456789.125"; "1e16"; "12345678901234567890"; "0.0001"; "-0.8"]) =
    ["0.1"; "1.0"; "2.5e-07"; "123456789.125"; "1e+16"; "1.2345678901234567e+19"; "0.0001"; "-0.8"] /\
  map float_percent [true_div 2 3; true_div 4 5; true_div 1 800; true_div 0 3] = ["66.67%"; "80.00%"; "0.12%"; "0.00%"] /\
  float_repr (true_div 2 3) = "0.6666666666666666".
Proof. vm_compute. done. Qed.

Example float_rounds :
  map float_repr (map (float_round 4) [true_div 2 3; true_div 1 8; true_div 1 3; true_div 1 4000; true_div 7 7]) =
    ["0.6667"; "0.125"; "0.3333"; "0.0003"; "1.0"] /\
  map float_repr (map (float_round 2) (omap py_float ["2.675"; "0.125"; "-0.375"])) = ["2.67"; "0.12"; "-0.38"].
Proof. vm_compute. done. Qed.
