(* ===== verification/PyFloat.v ===== *)
(** * Arithmetic on floats

    The operators [+], [-], [*], [/] and the comparisons of Python's float, and the
    lemmas that make an algorithm on floats exact: on dyadic numbers [k / 2 ^ n] whose
    numerators fit the 53 bits of a double, addition, subtraction, halving and
    comparison are those of the numbers. *)

From S2P Require Import Prelude PyStr PyVal PyNum.

Definition float_add (x y : pyfloat) : pyfloat := SFadd 53 1024 x y.
Definition float_mul (x y : pyfloat) : pyfloat := SFmul 53 1024 x y.
Definition float_opp (x : pyfloat) : pyfloat := SFopp x.
Definition float_leb (x y : pyfloat) : bool := SFleb x y.
Definition is_float_zero (x : pyfloat) : bool := match x with S754_zero _ => true | _ => false end.

(** [x / y] *)
Definition float_div (x y : pyfloat) : res pyfloat :=
  if is_float_zero y then Raise (Exn "ZeroDivisionError" "float division by zero") else Ok (SFdiv 53 1024 x y).

(** [1.0], [0.5] and the like *)
Definition float_lit (s : string) : pyfloat := default S754_nan (py_float s).

(** [int(x)]: towards zero *)
Definition int_of_float (x : pyfloat) : res Z :=
  match x with
  | S754_nan => Raise (Exn "ValueError" "cannot convert float NaN to integer")
  | S754_infinity _ => Raise (Exn "OverflowError" "cannot convert float infinity to integer")
  | S754_zero _ => Ok 0%Z
  | S754_finite neg m e => let '(p, q) := float_quotient m e in Ok (if neg then (- (p / q))%Z else (p / q)%Z)
  end.

(** [f"{x:.nf}"] for [n > 0], rounding the exact value *)
Definition float_fixed (n : nat) (x : pyfloat) : string :=
  match x with
  | S754_nan => "nan"
  | S754_infinity neg => sign_str neg +:+ "inf"
  | S754_zero neg => sign_str neg +:+ "0." +:+ pad_to n 0
  | S754_finite neg m e =>
      let '(p, q) := float_quotient m e in
      let '(u, r) := Z.div_eucl (round_half_even (p * 10 ^ Z.of_nat n) q) (10 ^ Z.of_nat n) in
      sign_str neg +:+ pretty u +:+ "." +:+ pad_to n (Z.to_nat r)
  end.

#[global] Arguments float_add : simpl never.
#[global] Arguments float_sub : simpl never.
#[global] Arguments float_mul : simpl never.
#[global] Arguments float_div : simpl never.
#[global] Arguments float_lit : simpl never.

(** ** Numbers in dynamic values *)

Definition no_conversion (target : string) (v : pyval) : exn :=
  Exn "TypeError" (target +:+ "() argument must be a string or a real number, not '" +:+ type_name v +:+ "'").

(** The float a value holds *)
Definition val_pyfloat (l : string) : pyfloat := default S754_nan (py_float l).

(** [int(v)] *)
Definition int_val (v : pyval) : res Z :=
  match v with
  | PBool b => Ok (if b then 1 else 0)%Z
  | PInt z => Ok z
  | PFloat l => int_of_float (val_pyfloat l)
  | PStr s => match py_int s with Some z => Ok z | None => Raise (Exn "ValueError" ("invalid literal for int() with base 10: " +:+ repr_str s)) end
  | _ => Raise (no_conversion "int" v)
  end.

(** [float(v)] *)
Definition float_val (v : pyval) : res pyfloat :=
  match v with
  | PBool b => Ok (float_round_Z (if b then 1 else 0)%Z)
  | PInt z => float_of_int z
  | PFloat l => Ok (val_pyfloat l)
  | PStr s => match py_float s with Some f => Ok f | None => Raise (Exn "ValueError" ("could not convert string to float: " +:+ repr_str s)) end
  | _ => Raise (no_conversion "float" v)
  end.

(** [isinstance(v, (int, float))] *)
Definition is_number (v : pyval) : bool := match v with PBool _ | PInt _ | PFloat _ => true | _ => false end.

Declare Scope pyfloat_scope.
Delimit Scope pyfloat_scope with pyfloat.
Infix "+" := float_add : pyfloat_scope.
Infix "-" := float_sub : pyfloat_scope.
Infix "*" := float_mul : pyfloat_scope.
Infix "<?" := float_ltb : pyfloat_scope.
Infix "<=?" := float_leb : pyfloat_scope.

(** ** The order of floats *)

Ltac float_order :=
  repeat match goal with
  | x : pyfloat |- _ => destruct x as [[]|[]| |[] ? ?]
  end; unfold float_ltb, float_leb, SFltb, SFleb; cbn [SFcompare];
  try done;
  repeat match goal with
  | |- context [Z.compare ?a ?b] => destruct (Z.compare_spec a b); try lia
  | |- context [Pos.compare_cont Eq ?a ?b] => change (Pos.compare_cont Eq a b) with (Pos.compare a b); destruct (Pos.compare_spec a b); try lia
  end; try done.

Lemma float_lt_le_trans x y z : float_ltb x y = true -> float_leb y z = true -> float_ltb x z = true.
Proof. float_order. Qed.

Lemma float_le_trans x y z : float_leb x y = true -> float_leb y z = true -> float_leb x z = true.
Proof. float_order. Qed.

Lemma float_lt_trans x y z : float_ltb x y = true -> float_ltb y z = true -> float_ltb x z = true.
Proof. float_order. Qed.

Lemma float_le_lt_trans x y z : float_leb x y = true -> float_ltb y z = true -> float_ltb x z = true.
Proof. float_order. Qed.

Lemma float_lt_irrefl x : float_ltb x x = false.
Proof. float_order. Qed.

(** ** Exact rounding *)

Lemma digits2_log2 p : Zpos (digits2_pos p) = (Z.log2 (Zpos p) + 1)%Z.
Proof.
  induction p as [p IH|p IH|]; cbn [digits2_pos]; [..|done]; rewrite Pos2Z.inj_succ, IH.
  - rewrite (Pos2Z.inj_xI p), Z.log2_succ_double by lia. lia.
  - rewrite (Pos2Z.inj_xO p), Z.log2_double by lia. lia.
Qed.

Lemma digits2_shift p q j : (0 <= j)%Z -> Zpos q = (Zpos p * 2 ^ j)%Z -> Zpos (digits2_pos q) = (Zpos (digits2_pos p) + j)%Z.
Proof. intros Hj Hq. rewrite !digits2_log2, Hq, Z.log2_mul_pow2 by lia. lia. Qed.

Lemma iter_pos_shr n p : forall q, Zpos q = (Zpos p * 2 ^ Zpos n)%Z ->
  iter_pos shr_1 n {| shr_m := Zpos q; shr_r := false; shr_s := false |} = {| shr_m := Zpos p; shr_r := false; shr_s := false |}.
Proof.
  revert p. induction n as [n IH|n IH|]; intros p q Hq; cbn [iter_pos].
  - assert (Zpos q = 2 * (Zpos p * 2 ^ (2 * Zpos n)))%Z as Hq'.
    { rewrite Hq, (Pos2Z.inj_xI n). replace (2 * Zpos n + 1)%Z with (1 + 2 * Zpos n)%Z by lia. rewrite Z.pow_add_r by lia. lia. }
    destruct q as [q|q|]; try lia. rewrite Pos2Z.inj_xO in Hq'. apply Z.mul_reg_l in Hq'; [|lia]. cbn [shr_1 orb].
    assert (0 < 2 ^ Zpos n)%Z as Hpos by (apply Z.pow_pos_nonneg; lia).
    destruct (Zpos p * 2 ^ Zpos n)%Z as [|r|] eqn:Hr; [lia| |lia].
    rewrite (IH r q); [by apply (IH p r)|]. rewrite Hq', <- Hr. replace (2 * Zpos n)%Z with (Zpos n + Zpos n)%Z by lia.
    rewrite Z.pow_add_r by lia. lia.
  - assert (0 < 2 ^ Zpos n)%Z as Hpos by (apply Z.pow_pos_nonneg; lia).
    destruct (Zpos p * 2 ^ Zpos n)%Z as [|r|] eqn:Hr; [lia| |lia].
    rewrite (IH r q); [by apply (IH p r)|]. rewrite Hq, (Pos2Z.inj_xO n), <- Hr.
    replace (2 * Zpos n)%Z with (Zpos n + Zpos n)%Z by lia. rewrite Z.pow_add_r by lia. lia.
  - destruct q as [q|q|]; try lia. rewrite Pos2Z.inj_xO in Hq. cbn [shr_1 orb]. do 2 f_equal. lia.
Qed.

(** A mantissa and an exponent in the format of doubles *)
Definition canonical (m : positive) (e : Z) : Prop := fexp 53 1024 (Zpos (digits2_pos m) + e) = e /\ (e <= 971)%Z.

Lemma round_aux_exact s m e q f : canonical m e -> (f <= e)%Z -> Zpos q = (Zpos m * 2 ^ (e - f))%Z ->
  binary_round_aux 53 1024 s (Zpos q) f loc_Exact = S754_finite s m e.
Proof.
  intros [Hc He] Hf Hq. unfold binary_round_aux, shr_fexp. cbn [Zdigits2 shr_record_of_loc].
  rewrite (digits2_shift m q (e - f)) by (done || lia).
  replace (Zpos (digits2_pos m) + (e - f) + f)%Z with (Zpos (digits2_pos m) + e)%Z by lia. rewrite Hc.
  assert (shr {| shr_m := Zpos q; shr_r := false; shr_s := false |} f (e - f) =
    ({| shr_m := Zpos m; shr_r := false; shr_s := false |}, e)) as ->.
  { unfold shr. destruct (e - f)%Z as [|n|n] eqn:En; [|f_equal; [by apply iter_pos_shr|lia]|lia].
    f_equal; [|lia]. do 2 f_equal. assert (Zpos q = Zpos m) by lia. congruence. }
  cbn [shr_m loc_of_shr_record round_nearest_even Zdigits2]. rewrite Hc, Z.sub_diag. cbn [shr shr_m].
  change (1024 - 53)%Z with 971%Z. by rewrite (proj2 (Z.leb_le e 971)).
Qed.

Lemma pos_iter_xO p n : Zpos (Pos.iter xO p n) = (Zpos p * 2 ^ Zpos n)%Z.
Proof.
  induction n as [|n IH] using Pos.peano_ind; [cbn; lia|].
  rewrite Pos.iter_succ, Pos2Z.inj_xO, IH, Pos2Z.inj_succ, Z.pow_succ_r by lia. lia.
Qed.

Lemma round_exact s m e q f : canonical m e ->
  (f <= e)%Z /\ Zpos q = (Zpos m * 2 ^ (e - f))%Z \/ (e <= f)%Z /\ Zpos m = (Zpos q * 2 ^ (f - e))%Z ->
  binary_round 53 1024 s q f = S754_finite s m e.
Proof.
  intros Hm Hq. assert (fexp 53 1024 (Zpos (digits2_pos q) + f) = e) as Hf.
  { destruct Hm as [Hc _]. destruct Hq as [[Hle Hq]|[Hle Hq]].
    - rewrite (digits2_shift m q (e - f)) by (done || lia). by replace (Zpos (digits2_pos m) + (e - f) + f)%Z with (Zpos (digits2_pos m) + e)%Z by lia.
    - rewrite (digits2_shift q m (f - e)) in Hc by (done || lia). by replace (Zpos (digits2_pos q) + (f - e) + e)%Z with (Zpos (digits2_pos q) + f)%Z in Hc by lia. }
  unfold binary_round. rewrite Hf. unfold shl_align. destruct (e - f)%Z as [|n|n] eqn:En.
  - assert (e = f) as -> by lia. apply round_aux_exact; [done|lia|]. destruct Hq as [[_ Hq]|[_ Hq]]; rewrite Hq, Z.sub_diag; cbn; lia.
  - destruct Hq as [[Hle Hq]|[Hle Hq]]; [|lia]. apply round_aux_exact; [done|lia|]. by rewrite Hq, ?En.
  - destruct Hq as [[Hle Hq]|[Hle Hq]]; [lia|]. apply round_aux_exact; [done|lia|].
    rewrite pos_iter_xO, Z.sub_diag, Hq. replace (f - e)%Z with (Zpos n) by lia. lia.
Qed.

(** ** Dyadic numbers *)

(** The double of [k / 2 ^ n] *)
Definition dy (k n : Z) : pyfloat := binary_normalize 53 1024 k (- n) false.

Definition fits (k : Z) : Prop := (0 <= k < 2 ^ 53)%Z.

(** The mantissa and the exponent of [k / 2 ^ n] have the value of [k / 2 ^ n] *)
Lemma dy_canonical (k : positive) n : (Zpos k < 2 ^ 53)%Z -> (0 <= n <= 1000)%Z ->
  exists m e, dy (Zpos k) n = S754_finite false m e /\ canonical m e /\ (e <= - n)%Z /\ Zpos m = (Zpos k * 2 ^ (- n - e))%Z
    /\ e = (Zpos (digits2_pos k) - n - 53)%Z.
Proof.
  intros Hk Hn. assert (Zpos (digits2_pos k) <= 53)%Z as Hd.
  { rewrite digits2_log2. assert (Z.log2 (Zpos k) < 53)%Z by (by apply Z.log2_lt_pow2). lia. }
  set (e := (Zpos (digits2_pos k) - n - 53)%Z).
  assert (0 < 2 ^ (- n - e))%Z as Hpos by (apply Z.pow_pos_nonneg; lia).
  destruct (Zpos k * 2 ^ (- n - e))%Z as [|m|] eqn:Hm; [lia| |lia].
  assert (canonical m e) as Hc.
  { split; [|lia]. rewrite (digits2_shift k m (- n - e)) by (done || lia). unfold fexp, emin. lia. }
  exists m, e. split_and!; [|done|lia|done|done]. unfold dy. cbn [binary_normalize].
  apply round_exact; [done|]. right. split; [lia|]. by rewrite Hm.
Qed.

Lemma dy_normal (k : positive) n q f : (Zpos k < 2 ^ 53)%Z -> (0 <= n <= 1000)%Z -> (f <= - n)%Z ->
  Zpos q = (Zpos k * 2 ^ (- n - f))%Z -> binary_round 53 1024 false q f = dy (Zpos k) n.
Proof.
  intros Hk Hn Hf Hq. destruct (dy_canonical k n Hk Hn) as (m & e & -> & Hc & He & Hm & _).
  apply round_exact; [done|]. destruct (Z.le_gt_cases f e) as [Hle|Hlt]; [left|right]; (split; [lia|]).
  - rewrite Hq, Hm, <- Z.mul_assoc, <- Z.pow_add_r by lia. do 2 f_equal. lia.
  - rewrite Hq, Hm, <- Z.mul_assoc, <- Z.pow_add_r by lia. do 2 f_equal. lia.
Qed.

(** The same number with another denominator *)
Lemma dy_scale k n j : fits (k * 2 ^ j) -> (0 <= k)%Z -> (0 <= j)%Z -> (0 <= n)%Z -> (n + j <= 1000)%Z -> dy (k * 2 ^ j) (n + j) = dy k n.
Proof.
  intros [_ Hfit] Hk Hj Hn Hnj. assert (0 < 2 ^ j)%Z as Hpos by (apply Z.pow_pos_nonneg; lia).
  destruct k as [|k|k]; [done| |lia]. destruct (Zpos k * 2 ^ j)%Z as [|q|] eqn:Hq; [lia| |lia].
  unfold dy at 1. cbn [binary_normalize]. apply dy_normal; [nia|lia..|]. rewrite <- Hq. do 2 f_equal. lia.
Qed.

Lemma align_value m e ez : (ez <= e)%Z -> Zpos (fst (shl_align m e ez)) = (Zpos m * 2 ^ (e - ez))%Z.
Proof.
  intros He. unfold shl_align. destruct (ez - e)%Z as [|n|n] eqn:En; cbn [fst].
  - replace (e - ez)%Z with 0%Z by lia. lia.
  - lia.
  - rewrite pos_iter_xO. do 2 f_equal. lia.
Qed.

Lemma dy_aligned (k : positive) n m e ez : (ez <= e)%Z -> (e <= - n)%Z -> Zpos m = (Zpos k * 2 ^ (- n - e))%Z ->
  Zpos (fst (shl_align m e ez)) = (Zpos k * 2 ^ (- n - ez))%Z.
Proof.
  intros Hz He Hm. rewrite align_value, Hm, <- Z.mul_assoc, <- Z.pow_add_r by lia. do 2 f_equal. lia.
Qed.

Lemma dy_add a b n : fits a -> fits b -> fits (a + b) -> (0 <= n <= 1000)%Z -> (dy a n + dy b n)%pyfloat = dy (a + b) n.
Proof.
  intros [Ha _] [Hb _] [_ Hab] Hn. destruct a as [|a|a]; [|destruct b as [|b|b]|]; [..|lia].
  - rewrite Z.add_0_l. destruct b as [|b|b]; [done| |lia]. destruct (dy_canonical b n) as (m & e & -> & _); [lia..|]. done.
  - rewrite Z.add_0_r. destruct (dy_canonical a n) as (m & e & -> & _); [lia..|]. done.
  - destruct (dy_canonical a n) as (m & e & -> & _ & He & Hm & _); [lia..|].
    destruct (dy_canonical b n) as (m' & e' & -> & _ & He' & Hm' & _); [lia..|].
    unfold float_add. cbn [SFadd cond_Zopp]. set (ez := Z.min e e').
    rewrite (dy_aligned a n m e ez), (dy_aligned b n m' e' ez) by (done || lia). rewrite <- Z.mul_add_distr_r.
    assert (0 < 2 ^ (- n - ez))%Z as Hpos by (apply Z.pow_pos_nonneg; lia).
    change (Zpos a + Zpos b)%Z with (Zpos (a + b)).
    destruct (Zpos (a + b) * 2 ^ (- n - ez))%Z as [|q|] eqn:Hq; [lia| |lia]. cbn [binary_normalize].
    apply dy_normal; [lia..|]. by rewrite Hq.
  - lia.
Qed.

Lemma dy_sub a b n : fits a -> fits b -> (b <= a)%Z -> (0 <= n <= 1000)%Z -> (dy a n - dy b n)%pyfloat = dy (a - b) n.
Proof.
  intros [Ha Ha'] [Hb _] Hab Hn. destruct b as [|b|b]; [|destruct a as [|a|a]|]; [..|lia].
  - rewrite Z.sub_0_r. destruct a as [|a|a]; [done| |lia]. destruct (dy_canonical a n) as (m & e & -> & _); [lia..|]. done.
  - lia.
  - destruct (dy_canonical a n) as (m & e & -> & _ & He & Hm & _); [lia..|].
    destruct (dy_canonical b n) as (m' & e' & -> & _ & He' & Hm' & _); [lia..|].
    unfold float_sub. cbn [SFsub cond_Zopp]. set (ez := Z.min e e').
    rewrite (dy_aligned a n m e ez), (dy_aligned b n m' e' ez) by (done || lia). rewrite <- Z.mul_sub_distr_r.
    assert (0 < 2 ^ (- n - ez))%Z as Hpos by (apply Z.pow_pos_nonneg; lia).
    destruct (Zpos a - Zpos b)%Z as [|c|] eqn:Hc; [done| |lia].
    destruct (Zpos c * 2 ^ (- n - ez))%Z as [|q|] eqn:Hq; [lia| |lia]. cbn [binary_normalize].
    apply dy_normal; [lia..|]. by rewrite Hq.
  - lia.
Qed.

Lemma dy_half k n : fits k -> (0 <= n < 1000)%Z -> (float_lit "0.5" * dy k n)%pyfloat = dy k (n + 1).
Proof.
  intros [Hk Hk'] Hn. change (float_lit "0.5") with (S754_finite false (2 ^ 52) (-53)). destruct k as [|k|k]; [done| |lia].
  destruct (dy_canonical k n) as (m & e & -> & Hc & He & Hm & Hee); [lia..|].
  destruct (dy_canonical k (n + 1)) as (m' & e' & -> & Hc' & He' & Hm' & Hee'); [lia..|].
  unfold float_mul. cbn [SFmul xorb]. assert (e' = e - 1)%Z as -> by lia.
  assert (m' = m) as ->. { assert (Zpos m' = Zpos m); [|congruence]. rewrite Hm, Hm'. do 2 f_equal. lia. }
  apply round_aux_exact; [done|lia|]. rewrite Pos2Z.inj_mul. replace (e - 1 - (-53 + e))%Z with 52%Z by lia.
  change (Zpos (2 ^ 52)) with (2 ^ 52)%Z. lia.
Qed.

Lemma dy_compare a b n : fits a -> fits b -> (0 <= n <= 1000)%Z -> SFcompare (dy a n) (dy b n) = Some (a ?= b)%Z.
Proof.
  intros [Ha Ha'] [Hb Hb'] Hn. destruct a as [|a|a], b as [|b|b]; try lia; [done|..].
  - destruct (dy_canonical b n) as (m & e & -> & _); [lia..|]. done.
  - destruct (dy_canonical a n) as (m & e & -> & _); [lia..|]. done.
  - destruct (dy_canonical a n) as (m & e & -> & _ & He & Hm & Hee); [lia..|].
    destruct (dy_canonical b n) as (m' & e' & -> & _ & He' & Hm' & Hee'); [lia..|]. cbn [SFcompare]. f_equal.
    rewrite digits2_log2 in Hee, Hee'. destruct (Z.compare_spec e e') as [Heq|Hlt|Hlt].
    + subst e'. change (Pos.compare_cont Eq m m') with (Zpos m ?= Zpos m')%Z. rewrite Hm, Hm', <- Heq.
      assert (0 < 2 ^ (- n - e))%Z by (apply Z.pow_pos_nonneg; lia). symmetry. apply Zmult_compare_compat_r. lia.
    + symmetry. apply Z.compare_lt_iff. apply Z.log2_lt_cancel. lia.
    + symmetry. apply Z.compare_gt_iff. apply Z.log2_lt_cancel. lia.
Qed.

Lemma dy_leb a b n : fits a -> fits b -> (0 <= n <= 1000)%Z -> float_leb (dy a n) (dy b n) = (a <=? b)%Z.
Proof. intros Ha Hb Hn. unfold float_leb, SFleb. by rewrite dy_compare. Qed.

Lemma dy_ltb a b n : fits a -> fits b -> (0 <= n <= 1000)%Z -> float_ltb (dy a n) (dy b n) = (a <? b)%Z.
Proof. intros Ha Hb Hn. unfold float_ltb, SFltb. by rewrite dy_compare. Qed.
