(* ===== verification/Worklist.v ===== *)
(** * Worklist traversals

    Several components explore a graph with a stack and a [seen] set: the state
    propagation of the interference graph, the inheritance queries of the symbol
    index.  [walk] is that loop, [None] standing for a loop that has not finished
    within the given number of iterations; [walk_spec] shows that [budget] iterations
    suffice and that the nodes seen are exactly those reachable from the stack. *)

From S2P Require Import Prelude.

Section worklist.
Context {K : Type} `{Countable K} (g : gmap K (list K)).

Definition succs (x : K) : list K := default [] (g !! x).
Definition edge (x y : K) : Prop := y ∈ succs x.

(** [while stack: x = stack.pop(); if x in seen: continue; seen.add(x);
    stack.extend(succs(x))]; the top of the stack is the head of the list. *)
Fixpoint walk (fuel : nat) (stack : list K) (seen : gset K) : option (gset K) :=
  match stack, fuel with
  | [], _ => Some seen
  | _ :: _, 0 => None
  | x :: st, S fuel' =>
  if decide (x ∈ seen) then walk fuel' st seen
  else walk fuel' (rev (succs x) ++ st) ({[x]} ∪ seen)
  end.

(** The edges leaving the nodes not yet seen. *)
Definition pending_edges (seen : gset K) : nat :=
  map_fold (fun k v n => if decide (k ∈ seen) then n else length v + n) 0 g.

Definition measure (stack : list K) (seen : gset K) : nat := length stack + pending_edges seen.

(** A number of iterations that is always enough. *)
Definition budget (stack : list K) : nat := length stack + pending_edges ∅.

Lemma pending_fold_comm (seen : gset K) (m : gmap K (list K)) i x :
  m !! i = None ->
  map_fold (fun k v n => if decide (k ∈ seen) then n else length v + n) 0 (<[i:=x]> m) =
  (if decide (i ∈ seen) then 0 else length x) +
  map_fold (fun k v n => if decide (k ∈ seen) then n else length v + n) 0 m.
Proof.
  intros Hi. rewrite map_fold_insert_L; [case_decide; lia| |done].
  intros. repeat case_decide; lia.
Qed.

Lemma pending_add x (seen : gset K) :
  x ∉ seen -> pending_edges seen = length (succs x) + pending_edges ({[x]} ∪ seen).
Proof.
  intros Hx. unfold pending_edges, succs.
  assert (forall m : gmap K (list K), m !! x = None ->
  map_fold (fun k v n => if decide (k ∈ seen) then n else length v + n) 0 m =
  map_fold (fun k v n => if decide (k ∈ {[x]} ∪ seen) then n else length v + n) 0 m) as Hsame.
  { intros m. induction m as [|i v m Hi IH] using map_ind; intros Hm; [by rewrite !map_fold_empty|].
  rewrite !pending_fold_comm by done.
  assert (i <> x) by (intros ->; by rewrite lookup_insert_eq in Hm).
  rewrite lookup_insert_ne in Hm by done. rewrite IH by done.
  repeat case_decide; set_solver. }
  destruct (g !! x) as [v|] eqn:Hg; cbn.
  - assert (g = <[x:=v]> (delete x g)) as Hins by (by rewrite insert_delete_id).
  rewrite Hins, !pending_fold_comm by apply lookup_delete_eq.
  rewrite decide_False, decide_True by set_solver.
  rewrite Hsame by apply lookup_delete_eq. lia.
  - by rewrite Hsame.
Qed.

Lemma walk_total fuel stack seen :
  measure stack seen <= fuel -> is_Some (walk fuel stack seen).
Proof.
  unfold measure. revert stack seen.
  induction fuel as [|fuel IH]; intros [|x st] seen Hm; cbn [walk length] in *; eauto; [lia|].
  case_decide as Hx; apply IH; [lia|].
  rewrite (pending_add x seen) in Hm by done. rewrite length_app, length_rev. lia.
Qed.

Lemma walk_grow fuel stack seen F : walk fuel stack seen = Some F -> seen ⊆ F /\ (forall x, x ∈ stack -> x ∈ F).
Proof.
  revert stack seen. induction fuel as [|fuel IH]; intros [|x st] seen; cbn [walk];
  intros Hw; simplify_eq; try set_solver.
  case_decide; apply IH in Hw as [H1 H2]; (split; [set_solver|]);
  intros y; rewrite elem_of_cons; intros [->|Hy]; set_solver.
Qed.

Lemma walk_closed fuel stack seen F :
  (forall x y, x ∈ seen -> edge x y -> y ∈ seen \/ y ∈ stack) ->
  walk fuel stack seen = Some F -> forall x y, x ∈ F -> edge x y -> y ∈ F.
Proof.
  revert stack seen. induction fuel as [|fuel IH]; intros [|x st] seen Hinv; cbn [walk];
  intros Hw; simplify_eq; try (intros a b Ha Hab; destruct (Hinv a b Ha Hab); set_solver).
  case_decide as Hx; (eapply IH; [|exact Hw]); intros a b Ha Hab.
  - destruct (Hinv a b Ha Hab) as [?|Hb]; [by left|].
  apply elem_of_cons in Hb as [->|?]; auto.
  - apply elem_of_union in Ha as [->%elem_of_singleton|Ha].
  + right. apply elem_of_app. left. unfold edge in Hab.
  rewrite list_elem_of_In, <- in_rev, <- list_elem_of_In. done.
  + destruct (Hinv a b Ha Hab) as [?|Hb]; [set_solver|].
  apply elem_of_cons in Hb as [->|?]; set_solver.
Qed.

Lemma walk_reach fuel stack seen F x :
  walk fuel stack seen = Some F -> x ∈ F ->
  x ∈ seen \/ exists s, s ∈ stack /\ rtc edge s x.
Proof.
  revert stack seen. induction fuel as [|fuel IH]; intros [|s st] seen; cbn [walk];
  intros Hw Hx; simplify_eq; auto.
  case_decide as Hs; apply IH in Hw; try done.
  - destruct Hw as [?|(t & Ht & Hr)]; [by left|]. right. exists t. set_solver.
  - destruct Hw as [Hin|(t & Ht & Hr)].
  + apply elem_of_union in Hin as [->%elem_of_singleton|?]; [|by left].
  right. exists s. split; [set_solver|apply rtc_refl].
  + right. apply elem_of_app in Ht as [Ht|Ht]; [|exists t; set_solver].
  rewrite list_elem_of_In, <- in_rev, <- list_elem_of_In in Ht.
  exists s. split; [set_solver|]. by eapply rtc_l.
Qed.

(** The loop terminates within its budget, and sees exactly the reachable nodes. *)
Lemma walk_spec stack fuel :
  budget stack <= fuel ->
  exists F, walk fuel stack ∅ = Some F /\
  forall x, x ∈ F <-> exists s, s ∈ stack /\ rtc edge s x.
Proof.
  intros Hf. destruct (walk_total fuel stack ∅) as [F HF]; [exact Hf|].
  exists F. split; [done|]. intros x. split.
  - intros Hx. destruct (walk_reach _ _ _ _ _ HF Hx) as [?|?]; [set_solver|done].
  - intros (s & Hs & Hr). apply walk_grow in HF as HF'. destruct HF' as [_ Hst].
  assert (forall a b, a ∈ F -> edge a b -> b ∈ F) as Hcl.
  { eapply walk_closed; [|exact HF]. set_solver. }
  apply Hst in Hs. clear Hst HF Hf. induction Hr; eauto.
Qed.
End worklist.
