(* ===== verification/Finding.v ===== *)
(** * Findings (audit_agent/finding.py)

    The enumerations of the audit domain and the [Finding] record.  [PyEnum] is
    the interface of a [(str, Enum)] class: its members in declaration order and
    their string values; [enum_of] is the call [E(value)]. *)

From S2P Require Import Prelude PyStr.

Class PyEnum (A : Type) := {
  enum_members : list A;
  enum_value : A -> string;
  enum_name : string;
  }.

(** [E(value)]: the member with that value, in declaration order. *)
Definition enum_of {A} `{PyEnum A} (v : string) : option A :=
  first (fun a => String.eqb (enum_value a) v) enum_members.

(** [E(value)] as a call: a value of no member is a [ValueError]. *)
Definition enum_call {A} `{PyEnum A} (v : string) : res A :=
  match enum_of v with
  | Some a => Ok a
  | None => Raise (Exn "ValueError" ("'" +:+ v +:+ "' is not a valid " +:+ enum_name))
  end.

(** The laws a well-declared enumeration satisfies: every member is listed, and
    no two members share a value. *)
Class PyEnumLaws (A : Type) `{PyEnum A} : Prop := {
  enum_complete : forall a : A, a ∈ enum_members;
  enum_value_inj : forall a b : A, enum_value a = enum_value b -> a = b;
  }.

Lemma enum_of_value {A} `{PyEnumLaws A} (a : A) : enum_of (enum_value a) = Some a.
Proof.
  unfold enum_of. destruct (first _ _) as [b|] eqn:E.
  - apply first_Some in E as [_ Hb]. apply String.eqb_eq in Hb. f_equal. by apply enum_value_inj.
  - rewrite first_None in E. specialize (E a (enum_complete a)). by rewrite String.eqb_refl in E.
Qed.

Lemma enum_of_Some {A} `{PyEnumLaws A} v (a : A) : enum_of v = Some a <-> enum_value a = v.
Proof.
  split; [|intros <-; apply enum_of_value].
  intros E. apply first_Some in E as [_ Hb]. by apply String.eqb_eq.
Qed.

(** ** Severity *)

Module Severity.
Inductive severity := critical | high | medium | low | informational.

Definition severity_value (s : severity) : string :=
  match s with
  | critical => "critical" | high => "high" | medium => "medium"
  | low => "low" | informational => "informational"
  end.
End Severity.
Export (hints) Severity.
Abbreviation severity := Severity.severity.

#[export] Instance severity_eq_dec : EqDecision severity.
Proof. solve_decision. Defined.

#[export] Instance severity_enum : PyEnum severity := {
  enum_members := [Severity.critical; Severity.high; Severity.medium; Severity.low;
                   Severity.informational];
  enum_value := Severity.severity_value;
  enum_name := "Severity";
  }.

#[export] Instance severity_enum_laws : PyEnumLaws severity.
Proof. split; [intros []; cbn; set_solver|by intros [] []]. Qed.

(** ** Finding and PoC status *)

Module FindingStatus.
Inductive finding_status := open | confirmed | mock_review | unverified | false_positive.

Definition finding_status_value (s : finding_status) : string :=
  match s with
  | open => "open" | confirmed => "confirmed" | mock_review => "mock_review"
  | unverified => "unverified" | false_positive => "false_positive"
  end.
End FindingStatus.
Abbreviation finding_status := FindingStatus.finding_status.

#[export] Instance finding_status_eq_dec : EqDecision finding_status.
Proof. solve_decision. Defined.

#[export] Instance finding_status_enum : PyEnum finding_status := {
  enum_members := [FindingStatus.open; FindingStatus.confirmed; FindingStatus.mock_review;
                   FindingStatus.unverified; FindingStatus.false_positive];
  enum_value := FindingStatus.finding_status_value;
  enum_name := "FindingStatus";
  }.

#[export] Instance finding_status_enum_laws : PyEnumLaws finding_status.
Proof. split; [intros []; cbn; set_solver|by intros [] []]. Qed.

Module PoCStatus.
Inductive poc_status := passed | failed | mock_review.

Definition poc_status_value (s : poc_status) : string :=
  match s with passed => "passed" | failed => "failed" | mock_review => "mock_review" end.
End PoCStatus.
Abbreviation poc_status := PoCStatus.poc_status.

#[export] Instance poc_status_eq_dec : EqDecision poc_status.
Proof. solve_decision. Defined.

#[export] Instance poc_status_enum : PyEnum poc_status := {
  enum_members := [PoCStatus.passed; PoCStatus.failed; PoCStatus.mock_review];
  enum_value := PoCStatus.poc_status_value;
  enum_name := "PoCStatus";
  }.

#[export] Instance poc_status_enum_laws : PyEnumLaws poc_status.
Proof. split; [intros []; cbn; set_solver|by intros [] []]. Qed.

(** ** The Bastet taxonomy *)

Module BastetTag.
Inductive bastet_tag :=
  | access_control | missing_access_control | incorrect_access_control
  | reentrancy | read_only_reentrancy | cross_function_reentrancy
  | arithmetic | overflow_underflow | precision_loss | rounding_error
  | oracle_manipulation | price_manipulation | flash_loan_attack
  | frontrunning | sandwich_attack | mev
  | logic_error | incorrect_calculation | wrong_assumption | missing_check
  | state_corruption | incorrect_state_update | missing_state_update
  | denial_of_service | gas_exhaustion | unbounded_loop
  | signature_replay | missing_signature_verification | signature_malleability
  | uninitialized_variable | missing_initialization
  | upgradability | storage_collision | delegatecall_injection
  | erc20_compliance | fee_on_transfer | rebasing_token
  | unchecked_return_value | arbitrary_external_call
  | centralization_risk | admin_privilege
  | timestamp_dependence | block_number_dependence
  | hardcoded_address | missing_event | informational.

Definition bastet_tag_value (t : bastet_tag) : string :=
  match t with
  | access_control => "access-control"
  | missing_access_control => "missing-access-control"
  | incorrect_access_control => "incorrect-access-control"
  | reentrancy => "reentrancy"
  | read_only_reentrancy => "read-only-reentrancy"
  | cross_function_reentrancy => "cross-function-reentrancy"
  | arithmetic => "arithmetic"
  | overflow_underflow => "overflow-underflow"
  | precision_loss => "precision-loss"
  | rounding_error => "rounding-error"
  | oracle_manipulation => "oracle-manipulation"
  | price_manipulation => "price-manipulation"
  | flash_loan_attack => "flash-loan-attack"
  | frontrunning => "frontrunning"
  | sandwich_attack => "sandwich-attack"
  | mev => "mev"
  | logic_error => "logic-error"
  | incorrect_calculation => "incorrect-calculation"
  | wrong_assumption => "wrong-assumption"
  | missing_check => "missing-check"
  | state_corruption => "state-corruption"
  | incorrect_state_update => "incorrect-state-update"
  | missing_state_update => "missing-state-update"
  | denial_of_service => "denial-of-service"
  | gas_exhaustion => "gas-exhaustion"
  | unbounded_loop => "unbounded-loop"
  | signature_replay => "signature-replay"
  | missing_signature_verification => "missing-signature-verification"
  | signature_malleability => "signature-malleability"
  | uninitialized_variable => "uninitialized-variable"
  | missing_initialization => "missing-initialization"
  | upgradability => "upgradability"
  | storage_collision => "storage-collision"
  | delegatecall_injection => "delegatecall-injection"
  | erc20_compliance => "erc20-compliance"
  | fee_on_transfer => "fee-on-transfer"
  | rebasing_token => "rebasing-token"
  | unchecked_return_value => "unchecked-return-value"
  | arbitrary_external_call => "arbitrary-external-call"
  | centralization_risk => "centralization-risk"
  | admin_privilege => "admin-privilege"
  | timestamp_dependence => "timestamp-dependence"
  | block_number_dependence => "block-number-dependence"
  | hardcoded_address => "hardcoded-address"
  | missing_event => "missing-event"
  | informational => "informational"
  end.

Definition bastet_members : list bastet_tag :=
  [access_control; missing_access_control; incorrect_access_control; reentrancy;
  read_only_reentrancy; cross_function_reentrancy; arithmetic; overflow_underflow;
  precision_loss; rounding_error; oracle_manipulation; price_manipulation;
  flash_loan_attack; frontrunning; sandwich_attack; mev; logic_error;
  incorrect_calculation; wrong_assumption; missing_check; state_corruption;
  incorrect_state_update; missing_state_update; denial_of_service; gas_exhaustion;
  unbounded_loop; signature_replay; missing_signature_verification;
  signature_malleability; uninitialized_variable; missing_initialization;
  upgradability; storage_collision; delegatecall_injection; erc20_compliance;
  fee_on_transfer; rebasing_token; unchecked_return_value; arbitrary_external_call;
  centralization_risk; admin_privilege; timestamp_dependence; block_number_dependence;
  hardcoded_address; missing_event; informational].
End BastetTag.
Abbreviation bastet_tag := BastetTag.bastet_tag.

#[export] Instance bastet_tag_eq_dec : EqDecision bastet_tag.
Proof. solve_decision. Defined.

#[export] Instance bastet_tag_enum : PyEnum bastet_tag := {
  enum_members := BastetTag.bastet_members;
  enum_value := BastetTag.bastet_tag_value;
  enum_name := "BastetTag";
  }.

Lemma bastet_of_value_all :
  forallb (fun t => bool_decide (enum_of (enum_value t) = Some t)) BastetTag.bastet_members = true.
Proof. vm_compute. reflexivity. Qed.

Lemma bastet_complete (t : bastet_tag) : t ∈ BastetTag.bastet_members.
Proof. apply list_elem_of_In. destruct t; cbn; tauto. Qed.

#[export] Instance bastet_tag_enum_laws : PyEnumLaws bastet_tag.
Proof.
  split; [apply bastet_complete|].
  intros a b Hab. pose proof bastet_of_value_all as Hall. rewrite forallb_forall in Hall.
  pose proof (Hall a (proj1 (list_elem_of_In _ _) (bastet_complete a))) as Ha.
  pose proof (Hall b (proj1 (list_elem_of_In _ _) (bastet_complete b))) as Hb.
  apply bool_decide_eq_true in Ha, Hb. rewrite Hab in Ha. congruence.
Qed.

(** ** The Finding model

    [preconditions] is the dict in insertion order. *)
Record Finding := mkFinding {
  finding_id : string;
  location : string;
  function_name : string;
  f_bastet_tag : option bastet_tag;
  f_severity : severity;
  f_status : finding_status;
  preconditions : list (Z * bool);
  mitigations_present : list string;
  poc_path : option string;
  f_poc_status : option poc_status;
  combined_with : list string;
  }.

#[export] Instance finding_eq_dec : EqDecision Finding.
Proof. solve_decision. Defined.

(** [Finding(...)] with the constructor's defaults for the fields not given. *)
Definition new_finding (fid loc fn : string) (sev : severity) : Finding :=
  mkFinding fid loc fn None sev FindingStatus.open [] [] None None [].

Definition with_severity (s : severity) (f : Finding) : Finding :=
  mkFinding (finding_id f) (location f) (function_name f) (f_bastet_tag f) s (f_status f)
    (preconditions f) (mitigations_present f) (poc_path f) (f_poc_status f) (combined_with f).
Definition with_combined (l : list string) (f : Finding) : Finding :=
  mkFinding (finding_id f) (location f) (function_name f) (f_bastet_tag f) (f_severity f)
    (f_status f) (preconditions f) (mitigations_present f) (poc_path f) (f_poc_status f) l.
Definition with_tag (t : option bastet_tag) (f : Finding) : Finding :=
  mkFinding (finding_id f) (location f) (function_name f) t (f_severity f)
    (f_status f) (preconditions f) (mitigations_present f) (poc_path f) (f_poc_status f)
    (combined_with f).
Definition with_evidence (pre : list (Z * bool)) (mit : list string) (f : Finding) : Finding :=
  mkFinding (finding_id f) (location f) (function_name f) (f_bastet_tag f) (f_severity f)
    (f_status f) pre mit (poc_path f) (f_poc_status f) (combined_with f).

(** The rank table shared by the guardrail, the escalation rules, stage 3 and the
    evaluation runner. *)
Definition severity_rank (s : severity) : nat :=
  match s with
  | Severity.informational => 0 | Severity.low => 1 | Severity.medium => 2
  | Severity.high => 3 | Severity.critical => 4
  end.

Lemma severity_rank_inj a b : severity_rank a = severity_rank b -> a = b.
Proof. by destruct a, b. Qed.

#[export] Hint Resolve severity_rank_inj enum_of_value : py.
