(* ===== verification/Guardrails.v ===== *)
(** * Deterministic guardrails (audit_agent/guardrails/)

    [Severity_check] is severity.py: the two correction rules.  [Mock_detect] is
    mock_detect.py: the substring screen of PoC tests. *)

From S2P Require Import Prelude PyStr Finding.

Module Severity_check.

Record SeverityVerdict := mkVerdict {
  original : severity;
  corrected : option severity;
  correction_reason : option string;
  }.

Definition was_corrected (v : SeverityVerdict) : bool := negb (is_none (corrected v)).

Definition final (v : SeverityVerdict) : severity :=
  match corrected v with Some s => s | None => original v end.

(** [sum(1 for v in finding.preconditions.values() if v)] *)
Definition active_preconditions (f : Finding) : nat :=
  length (filter (fun p => p.2 = true) (preconditions f)).

Definition has_mitigations (f : Finding) : bool :=
  (0 <? length (mitigations_present f))%nat.

Definition downgrade_reason (f : Finding) : string :=
  "Severity downgraded " +:+ enum_value (f_severity f) +:+ " → medium: mitigations present ("
  +:+ join ", " (mitigations_present f) +:+ "). SCB correction applied.".

Definition upgrade_reason (f : Finding) : string :=
  "Severity upgraded " +:+ enum_value (f_severity f) +:+ " → high: "
  +:+ pretty (active_preconditions f) +:+ " active preconditions, no mitigations. "
  +:+ "Precondition threshold correction applied.".

Definition check_severity (f : Finding) : SeverityVerdict :=
  let sev := f_severity f in
  let active := active_preconditions f in
  let mitigated := has_mitigations f in
  if mitigated && (severity_rank Severity.medium <? severity_rank sev)%nat then
  mkVerdict sev (Some Severity.medium) (Some (downgrade_reason f))
  else if (4 <=? active)%nat && negb mitigated then
  if (severity_rank sev <? severity_rank Severity.high)%nat then
  mkVerdict sev (Some Severity.high) (Some (upgrade_reason f))
  else mkVerdict sev None None
  else mkVerdict sev None None.

(** The specification the module's docstring gives: a cap at medium when any
    mitigation is present, a floor at high for four active preconditions
    without mitigation. *)
Definition corrected_rank (mitigated : bool) (active rank : nat) : nat :=
  if mitigated then Nat.min (severity_rank Severity.medium) rank
  else if (4 <=? active)%nat then Nat.max (severity_rank Severity.high) rank
  else rank.

Lemma final_rank f :
  severity_rank (final (check_severity f)) =
  corrected_rank (has_mitigations f) (active_preconditions f) (severity_rank (f_severity f)).
Proof.
  unfold check_severity, corrected_rank.
  destruct (has_mitigations f), (4 <=? active_preconditions f)%nat; by destruct (f_severity f).
Qed.

Lemma corrected_rank_idemp m a r :
  corrected_rank m a (corrected_rank m a r) = corrected_rank m a r.
Proof. unfold corrected_rank. destruct m, (4 <=? a)%nat; lia. Qed.

Lemma was_corrected_iff f :
  was_corrected (check_severity f) = true <-> final (check_severity f) <> f_severity f.
Proof.
  unfold check_severity.
  destruct (has_mitigations f), (4 <=? active_preconditions f)%nat; by destruct (f_severity f).
Qed.

Lemma check_severity_reason f :
  is_none (correction_reason (check_severity f)) = negb (was_corrected (check_severity f)).
Proof. unfold check_severity. case_all. Qed.

(**  The severity guardrail implements its two documented rules: the final
    severity is the reported one capped at medium when a mitigation is present
    and raised to at least high when four preconditions are active without
    mitigation; a correction is recorded, with its reason, exactly when the
    severity changes; and the guardrail is idempotent, a corrected finding
    needing no further correction. *)
Theorem check_severity_rules (f : Finding) :
  let v := check_severity f in
  severity_rank (final v) =
  corrected_rank (has_mitigations f) (active_preconditions f) (severity_rank (f_severity f)) /\
  (was_corrected v = true <-> final v <> f_severity f) /\
  is_none (correction_reason v) = negb (was_corrected v) /\
  was_corrected (check_severity (with_severity (final v) f)) = false.
Proof.
  intros v. split_and!; [apply final_rank|apply was_corrected_iff|apply check_severity_reason|].
  apply not_true_iff_false. rewrite was_corrected_iff. intros Hne. apply Hne.
  apply severity_rank_inj. rewrite final_rank. cbn. unfold v. rewrite final_rank.
  apply corrected_rank_idemp.
Qed.

End Severity_check.

Module Mock_detect.

(** Pattern and label, in the order of the dict. *)
Definition MOCK_PATTERNS : list (string * string) :=
  [ ("vm.mockCall", "mocked_external_call");
  ("vm.store(", "direct_storage_write");
  ("vm.etch(", "code_replacement");
  ("vm.assume(", "input_overconstraint");
  ("not implemented", "unimplemented_stub");
  ("assertTrue(true", "trivial_assertion");
  ("// TODO", "incomplete_marker") ].

Record TestQuality := mkQuality {
  is_mock : bool;
  q_flags : list string;
  q_status : finding_status;
  }.

Definition check_test_realism (test_code : string) : TestQuality :=
  let flags := map snd (List.filter (fun p => contains p.1 test_code) MOCK_PATTERNS) in
  if negb (bool_decide (flags = [])) then mkQuality true flags FindingStatus.mock_review
  else mkQuality false [] FindingStatus.confirmed.

Lemma contains_app_l sub a b : contains sub a = true -> contains sub (a +:+ b) = true.
Proof.
  rewrite !contains_spec. intros (x & y & ->). exists x, (y +:+ b).
  by rewrite !sapp_assoc.
Qed.

Lemma contains_app_r sub a b : contains sub b = true -> contains sub (a +:+ b) = true.
Proof.
  rewrite !contains_spec. intros (x & y & ->). exists (a +:+ x), y. by rewrite !sapp_assoc.
Qed.

Lemma elem_of_flags l code :
  l ∈ q_flags (check_test_realism code) <->
  exists p, (p, l) ∈ MOCK_PATTERNS /\ contains p code = true.
Proof.
  unfold check_test_realism.
  set (flags := map _ _).
  assert (l ∈ flags <-> exists p, (p, l) ∈ MOCK_PATTERNS /\ contains p code = true) as Hfl.
  { unfold flags. rewrite list_elem_of_In, in_map_iff. setoid_rewrite list_elem_of_In.
  split.
  - intros ([p l'] & Hl & Hin). apply filter_In in Hin. naive_solver.
  - intros (p & Hin & Hc). exists (p, l). rewrite filter_In. done. }
  destruct (decide (flags = [])) as [He|He].
  - rewrite bool_decide_true by done. cbn. rewrite <- Hfl, He. done.
  - rewrite bool_decide_false by done. done.
Qed.

Lemma is_mock_flags code : is_mock (check_test_realism code) = true <-> q_flags (check_test_realism code) <> [].
Proof. unfold check_test_realism. case_bool_decide; cbn; naive_solver. Qed.

End Mock_detect.
