(* ===== verification/Escalation.v ===== *)
(** * Domain escalation triggers (audit_agent/escalation.py)

    [domain_escalation] is the first-match ladder over triggers 3 to 7.  The
    trigger names are the members of the kernel's [EscalationTrigger] that the
    module uses; [EscalationResult] carries the three fields it fills. *)

From S2P Require Import Prelude PyStr Finding.

Inductive escalation_trigger :=
  | critical_finding | unverified_high | mock_test | contradicting_findings | unknown_pattern.

#[export] Instance escalation_trigger_eq_dec : EqDecision escalation_trigger.
Proof. solve_decision. Defined.

Record EscalationResult := mkEscalation {
  triggered : bool;
  trigger : escalation_trigger;
  detail : string;
  }.

(** [abs(rank(existing) - rank(finding))] *)
Definition rank_gap (a b : severity) : nat :=
  (severity_rank a - severity_rank b) + (severity_rank b - severity_rank a).

Definition same_place (a b : Finding) : bool :=
  String.eqb (location a) (location b) && String.eqb (function_name a) (function_name b).

(** The loop of trigger 6: the first existing finding at the same location and
    function whose severity is two ranks away. *)
Definition first_contradiction (f : Finding) (existing : list Finding) : option Finding :=
  first (fun e => same_place e f && (2 <=? rank_gap (f_severity e) (f_severity f))%nat) existing.

Definition untagged_serious (f : Finding) : bool :=
  is_none (f_bastet_tag f)
  && negb (bool_decide (f_severity f = Severity.informational \/ f_severity f = Severity.low)).

Definition domain_escalation (finding : option Finding) (existing : list Finding)
    : option EscalationResult :=
  match finding with
  | None => None
  | Some f =>
    if bool_decide (f_severity f = Severity.critical) then
      Some (mkEscalation true critical_finding
        ("Critical severity finding at " +:+ location f))
    else if bool_decide (f_severity f = Severity.high)
            && bool_decide (f_status f = FindingStatus.unverified) then
      Some (mkEscalation true unverified_high
        ("Unverified high-severity finding " +:+ finding_id f +:+ " at " +:+ location f))
    else if bool_decide (f_poc_status f = Some PoCStatus.mock_review) then
      Some (mkEscalation true mock_test
        ("PoC for " +:+ finding_id f +:+ " uses mock patterns — human review required"))
    else match first_contradiction f existing with
    | Some e =>
        Some (mkEscalation true contradicting_findings
          ("Contradicting severity at " +:+ location f +:+ ": existing="
           +:+ enum_value (f_severity e) +:+ ", new=" +:+ enum_value (f_severity f)))
    | None =>
      if untagged_serious f then
        Some (mkEscalation true unknown_pattern
          ("No Bastet tag on " +:+ enum_value (f_severity f) +:+ " finding " +:+ finding_id f))
      else None
    end
  end.

(** ** The abstract ladder

    Each trigger as an independent condition; the ladder must report the first
    that holds and stay silent exactly when none does. *)
Definition trigger_holds (t : escalation_trigger) (f : Finding) (existing : list Finding) : Prop :=
  match t with
  | critical_finding => f_severity f = Severity.critical
  | unverified_high => f_severity f = Severity.high /\ f_status f = FindingStatus.unverified
  | mock_test => f_poc_status f = Some PoCStatus.mock_review
  | contradicting_findings =>
      exists e, e ∈ existing /\ location e = location f /\ function_name e = function_name f /\
        (2 <= rank_gap (f_severity e) (f_severity f))
  | unknown_pattern =>
      f_bastet_tag f = None /\ f_severity f <> Severity.informational /\ f_severity f <> Severity.low
  end.

Definition trigger_order (t : escalation_trigger) : nat :=
  match t with
  | critical_finding => 3 | unverified_high => 4 | mock_test => 5
  | contradicting_findings => 6 | unknown_pattern => 7
  end.

Lemma first_contradiction_spec f existing :
  is_none (first_contradiction f existing) = false <-> trigger_holds contradicting_findings f existing.
Proof.
  unfold first_contradiction, same_place. destruct (first _ _) as [e|] eqn:E; cbn.
  - apply first_Some in E as [Hin Hb]. boolify. destruct Hb as [[H1 H2] H3].
    apply String.eqb_eq in H1, H2. apply Nat.leb_le in H3. split; eauto 10.
  - split; [done|]. intros (e & Hin & H1 & H2 & H3). rewrite first_None in E.
    specialize (E e Hin). rewrite H1, H2, !String.eqb_refl in E. cbn [andb] in E.
    apply Nat.leb_gt in E. lia.
Qed.

Lemma untagged_serious_spec f existing :
  untagged_serious f = true <-> trigger_holds unknown_pattern f existing.
Proof.
  unfold untagged_serious. cbn. rewrite andb_true_iff, negb_true_iff, bool_decide_eq_false.
  destruct (f_bastet_tag f); cbn; naive_solver.
Qed.

(**  The escalation ladder implements the five independent triggers with
    first-match-wins priority: it reports trigger [t] exactly when the condition
    of [t] holds and no earlier trigger's condition does, and it returns nothing
    exactly when no trigger's condition holds. *)
Theorem domain_escalation_first_match (f : Finding) (existing : list Finding) :
  match domain_escalation (Some f) existing with
  | Some r =>
      triggered r = true /\ trigger_holds (trigger r) f existing /\
      forall t, trigger_order t < trigger_order (trigger r) -> ~ trigger_holds t f existing
  | None => forall t, ~ trigger_holds t f existing
  end.
Proof.
  pose proof (first_contradiction_spec f existing) as H6.
  pose proof (untagged_serious_spec f existing) as H7.
  unfold domain_escalation.
  case_bool_decide as H3; [split_and!; [done..|intros []; cbn; lia]|].
  case_bool_decide as H4a; cbn [andb].
  - case_bool_decide as H4b; [split_and!; [done..|intros []; cbn; lia || naive_solver]|].
    case_bool_decide as H5; [split_and!; [done..|intros []; cbn; lia || naive_solver]|].
    destruct (first_contradiction f existing) as [e|]; cbn in H6.
    + split_and!; [done|by apply H6|intros []; cbn; lia || naive_solver].
    + destruct (untagged_serious f).
      * split_and!; [done|by apply H7|]. intros []; cbn; try (lia || naive_solver).
      * intros t. destruct t; naive_solver.
  - case_bool_decide as H5; [split_and!; [done..|intros []; cbn; lia || naive_solver]|].
    destruct (first_contradiction f existing) as [e|]; cbn in H6.
    + split_and!; [done|by apply H6|intros []; cbn; lia || naive_solver].
    + destruct (untagged_serious f).
      * split_and!; [done|by apply H7|]. intros []; cbn; try (lia || naive_solver).
      * intros t. destruct t; naive_solver.
Qed.
