(* ===== verification/Stage1.v ===== *)
(** * Stage 1, deterministic discovery (audit_agent/planner/stage1.py)

    Function extraction from Solidity text, the red-flag score, and [run_stage1],
    which orders the functions with a positive score and lists the others. *)

From S2P Require Import Prelude PyStr PyRe PyPath.

(** [\bfunction\s+(\w+)\s*\(] *)
Definition FUNC_RE : re :=
  RAll [RBound; RStr "function"; RSome RSpace; RGroup 1 (RSome RWord); RMany RSpace; RChr "("].

(** [[^=!<>]=[^=]] *)
Definition ASSIGN_RE : re := RAll [RNoneOf "=!<>"; RChr "="; RNoneOf "="].

(** Needle, label and weight, in the order of the dict. *)
Definition RED_FLAGS : list (string * (string * nat)) :=
  [ ("delegatecall", ("delegatecall", 6));
    ("selfdestruct", ("selfdestruct", 6));
    (".call{value", ("low_level_call_value", 5));
    (".call(", ("low_level_call", 3));
    ("tx.origin", ("tx_origin_auth", 4));
    ("assembly", ("inline_assembly", 3));
    ("blockhash", ("weak_randomness", 2));
    (".transfer(", ("native_transfer", 2));
    (".send(", ("native_send", 2));
    ("block.timestamp", ("timestamp_dependence", 1)) ].

Record FunctionTarget := mkTarget {
  target : string;
  score : nat;
  flags : list string;
  }.

(** The loop of [_match_body]: the offset of the brace that brings the depth back
    to zero. *)
Fixpoint close_brace (depth : Z) (s : string) : option nat :=
  match s with
  | "" => None
  | String c s' =>
      if Ascii.eqb c "{" then S <$> close_brace (depth + 1) s'
      else if Ascii.eqb c "}" then
        if (depth - 1 =? 0)%Z then Some 0 else S <$> close_brace (depth - 1) s'
      else S <$> close_brace depth s'
  end.

Definition match_body (source : string) (open_idx : nat) : string :=
  match close_brace 0 (sdrop open_idx source) with
  | Some k => slice (S open_idx) (open_idx + k) source
  | None => sdrop (S open_idx) source
  end.

(** One iteration of the loop of [extract_functions]; [None] is [continue]. *)
Definition extract_one (source : string) (m : rmatched) : option (string * string * nat) :=
  let name := group_or_empty 1 source m in
  let start := mt_start m in
  let semi := sfind_at ";" source start in
  match sfind_at "{" source start with
  | None => None
  | Some brace =>
      if match semi with Some k => (k <? brace)%nat | None => false end then None
      else Some (name, match_body source brace, S (count_before nl source start))
  end.

Definition extract_functions (source : string) : list (string * string * nat) :=
  omap (extract_one source) (re_finditer FUNC_RE source).

Definition red_flag_hits (body : string) : list (string * nat) :=
  map snd (List.filter (fun p => contains p.1 body) RED_FLAGS).

Definition reentrancy_shape (body : string) : bool :=
  match sfind ".call" body with
  | Some i => re_test ASSIGN_RE (sdrop i body)
  | None => false
  end.

Definition score_function (body : string) : nat * list string :=
  let hits := red_flag_hits body in
  let total := list_sum (map snd hits) in
  let labels := map fst hits in
  if reentrancy_shape body then (total + 5, labels ++ ["external_call_before_state_write"])
  else (total, labels).

Record Stage1Report := mkReport {
  priority_targets : list string;
  skipped_targets : list string;
  notes : string;
  }.

(** The sort key [(-t.score, t.target)]. *)
Definition target_leb (a b : FunctionTarget) : bool :=
  if (score a =? score b)%nat then str_leb (target a) (target b) else (score b <? score a)%nat.

Section stage1.
Context (fs : FileSystem).

Definition collect_sol_files (audit_root : path) (exclude focus : list path) : list path :=
  match focus with
  | _ :: _ => map (fun f => if is_absolute f then f else path_join audit_root f) focus
  | [] =>
  let exclude_resolved := map (fs_resolve fs) exclude in
  List.filter
    (fun p => negb (existsb (fun e => starts_with (path_str e) (path_str (fs_resolve fs p)))
                            exclude_resolved))
    (py_sort path_leb (fs_rglob_sol fs audit_root))
  end.

Definition rel_of (audit_root p : path) : path :=
  if in_parents audit_root p || bool_decide (parent p = audit_root)
  then default p (strip_parts audit_root p) else p.

(** The targets of one file: each function with its score; a file that cannot be
    read contributes none. *)
Definition file_targets (audit_root p : path) : list FunctionTarget :=
  match fs_read fs p with
  | Raise _ => []
  | Ok source =>
  map (fun '(name, body, _) =>
         let '(sc, fl) := score_function body in
         mkTarget (path_str (rel_of audit_root p) +:+ ":" +:+ name) sc fl)
      (extract_functions source)
  end.

Definition all_targets (audit_root : path) (exclude focus : list path) : list FunctionTarget :=
  concat (map (file_targets audit_root) (collect_sol_files audit_root exclude focus)).

Definition note_line (t : FunctionTarget) : string :=
  target t +:+ " (score=" +:+ pretty (score t) +:+ ": " +:+ join ", " (flags t) +:+ ")".

Definition run_stage1 (audit_root : path) (exclude focus : list path) : Stage1Report :=
  let found := all_targets audit_root exclude focus in
  let targets := py_sort target_leb (List.filter (fun t => (0 <? score t)%nat) found) in
  let skipped := List.filter (fun t => negb (0 <? score t)%nat) found in
  let notes_lines := map note_line (take 10 targets) in
  mkReport (map target targets) (map target skipped)
  (match notes_lines with
 | [] => "No red-flag functions found."
 | _ => "Top red-flag targets:" +:+ nls +:+ unlines notes_lines
 end).
End stage1.

(** ** Brace matching *)

(** The depth reached by reading [s] from depth [d]; [None] when a closing brace
    has no partner. *)
Fixpoint run_depth (d : nat) (s : string) : option nat :=
  match s with
  | "" => Some d
  | String c s' =>
      if Ascii.eqb c "{" then run_depth (S d) s'
      else if Ascii.eqb c "}" then match d with 0 => None | S d' => run_depth d' s' end
      else run_depth d s'
  end.

(** Every brace of [s] has its partner in [s]. *)
Definition balanced (s : string) : bool := bool_decide (run_depth 0 s = Some 0).

Lemma close_brace_sound d s k :
  close_brace (Z.of_nat (S d)) s = Some k ->
  run_depth d (stake k s) = Some 0 /\ exists post, s = stake k s +:+ String "}" post.
Proof.
  revert d k. induction s as [|c s IH]; intros d k; [done|]. cbn [close_brace].
  destruct (Ascii.eqb_spec c "{") as [->|Hl].
  - replace (Z.of_nat (S d) + 1)%Z with (Z.of_nat (S (S d))) by lia.
    destruct (close_brace _ s) as [k'|] eqn:E; [|done]. intros [= <-].
    apply IH in E as [Hr [post Hp]]. split; [done|]. exists post. cbn [stake]. by rewrite Hp at 1.
  - destruct (Ascii.eqb_spec c "}") as [->|Hr].
    + destruct d as [|d]; cbn [Z.of_nat]; [intros [= <-]; split; [done|by exists s]|].
      replace (Z.of_nat (S (S d)) - 1)%Z with (Z.of_nat (S d)) by lia.
      destruct (Z.eqb_spec (Z.of_nat (S d)) 0); [lia|].
      destruct (close_brace _ s) as [k'|] eqn:E; [|done]. intros [= <-].
      apply IH in E as [Hd [post Hp]]. split; [done|]. exists post. cbn [stake]. by rewrite Hp at 1.
    + destruct (close_brace _ s) as [k'|] eqn:E; [|done]. intros [= <-].
      apply IH in E as [Hd [post Hp]]. split.
      * cbn [stake run_depth]. by rewrite (proj2 (Ascii.eqb_neq _ _) Hl), (proj2 (Ascii.eqb_neq _ _) Hr).
      * exists post. cbn [stake]. by rewrite Hp at 1.
Qed.

Lemma close_brace_complete d b post :
  run_depth d b = Some 0 ->
  close_brace (Z.of_nat (S d)) (b +:+ String "}" post) = Some (String.length b).
Proof.
  revert d. induction b as [|c b IH]; intros d.
  - cbn [run_depth]. intros [= ->]. done.
  - change (String c b +:+ String "}" post) with (String c (b +:+ String "}" post)).
    cbn [run_depth close_brace String.length].
    destruct (Ascii.eqb_spec c "{") as [->|Hl].
    + intros Hd. replace (Z.of_nat (S d) + 1)%Z with (Z.of_nat (S (S d))) by lia.
      by rewrite (IH _ Hd).
    + destruct (Ascii.eqb_spec c "}") as [->|Hr].
      * destruct d as [|d]; [done|]. intros Hd.
        replace (Z.of_nat (S (S d)) - 1)%Z with (Z.of_nat (S d)) by lia.
        destruct (Z.eqb_spec (Z.of_nat (S d)) 0); [lia|]. by rewrite (IH _ Hd).
      * intros Hd. by rewrite (IH _ Hd).
Qed.

Lemma match_body_at pre rest :
  match_body (pre +:+ String "{" rest) (String.length pre) =
  match close_brace 1 rest with Some k => stake k rest | None => rest end.
Proof.
  unfold match_body. rewrite sdrop_app_length. cbn [close_brace Ascii.eqb].
  assert (sdrop (S (String.length pre)) (pre +:+ String "{" rest) = rest) as Hd.
  { replace (S (String.length pre)) with (String.length pre + 1) by lia.
    rewrite sdrop_add, sdrop_app_length. cbn. apply sdrop_0. }
  replace (0 + 1)%Z with 1%Z by lia. cbn.
  destruct (close_brace 1 rest) as [k|]; cbn [fmap option_fmap option_map]; [|done].
  unfold slice. rewrite Hd. f_equal. lia.
Qed.

(**  [_match_body] returns the text up to the brace that closes the one at the
    given offset: when the text after the opening brace is [b}post] with [b]
    balanced the body is [b], whatever follows; and when no balanced prefix is
    closed the whole rest of the source is returned. *)
Theorem match_body_balanced (pre rest : string) :
  let src := pre +:+ String "{" rest in
  (forall b post, rest = b +:+ String "}" post -> balanced b = true ->
     match_body src (String.length pre) = b) /\
  ((forall b post, rest = b +:+ String "}" post -> balanced b = false) ->
     match_body src (String.length pre) = rest).
Proof.
  intros src. unfold src. rewrite match_body_at. split.
  - intros b post -> Hb. apply bool_decide_eq_true in Hb.
    rewrite (close_brace_complete 0) by done. apply stake_app_length.
  - intros Hno. destruct (close_brace 1 rest) as [k|] eqn:E; [|done].
    apply (close_brace_sound 0) in E as [Hr [post Hp]].
    specialize (Hno _ _ Hp). apply bool_decide_eq_false in Hno. done.
Qed.

Lemma match_body_balanced_witness :
  match_body "f(){if(x){y;}} g(){}" 3 = "if(x){y;}" /\ match_body "f(){if(x){y;}" 3 = "if(x){y;}".
Proof.
  split.
  - apply (proj1 (match_body_balanced "f()" "if(x){y;}} g(){}") "if(x){y;}" " g(){}"); reflexivity.
  - apply (proj2 (match_body_balanced "f()" "if(x){y;}")). intros b post Hb.
    apply not_true_iff_false. intros Hbal.
    pose proof (proj1 (match_body_balanced "f()" "if(x){y;}") b post Hb Hbal) as Hm.
    vm_compute in Hm. rewrite <- Hm in Hb. vm_compute in Hb. discriminate Hb.
Defined.

(** ** The report *)

Lemma target_leb_total a b : target_leb a b = true \/ target_leb b a = true.
Proof.
  unfold target_leb. rewrite (Nat.eqb_sym (score b)).
  destruct (Nat.eqb_spec (score a) (score b)); [apply str_leb_total|].
  rewrite !Nat.ltb_lt. lia.
Qed.

Lemma target_leb_trans a b c :
  target_leb a b = true -> target_leb b c = true -> target_leb a c = true.
Proof.
  unfold target_leb.
  destruct (Nat.eqb_spec (score a) (score b)), (Nat.eqb_spec (score b) (score c)),
    (Nat.eqb_spec (score a) (score c)); rewrite ?Nat.ltb_lt; try lia; eauto with py.
Qed.

(**  [run_stage1] loses and invents no function: the prioritized and the
    skipped targets together are exactly the functions extracted from the collected
    files; every prioritized one has a positive score and every skipped one score
    zero; and the prioritized ones are ordered by decreasing score, ties by name. *)
Theorem run_stage1_partition (fs : FileSystem) (audit_root : path) (exclude focus : list path) :
  let found := all_targets fs audit_root exclude focus in
  let r := run_stage1 fs audit_root exclude focus in
  exists prio skip,
    priority_targets r = map target prio /\ skipped_targets r = map target skip /\
    prio ++ skip ≡ₚ found /\
    Forall (fun t => 0 < score t) prio /\ Forall (fun t => score t = 0) skip /\
    StronglySorted (fun a b => score b < score a \/
                      (score a = score b /\ str_leb (target a) (target b) = true)) prio.
Proof.
  intros found r. unfold r, run_stage1. cbn [priority_targets skipped_targets].
  eexists _, _. split_and!; [reflexivity..| | | |].
  - rewrite py_sort_perm. fold found. clear r.
    induction found as [|t l IH]; [done|]. cbn [List.filter].
    destruct (0 <? score t)%nat; cbn [negb app]; [by rewrite IH|]. by rewrite <- Permutation_middle, IH.
  - rewrite py_sort_perm. apply Forall_forall. intros t. rewrite list_elem_of_In, filter_In, Nat.ltb_lt.
    tauto.
  - apply Forall_forall. intros t. rewrite list_elem_of_In, filter_In, negb_true_iff, Nat.ltb_ge. lia.
  - eapply StronglySorted_ind with (P := fun l => StronglySorted _ l);
      [constructor| |apply (py_sort_sorted _ target_leb_total target_leb_trans)].
    intros a l _ IH Hl. constructor; [done|]. eapply Forall_impl; [exact Hl|].
    intros b. cbn. unfold target_leb. destruct (Nat.eqb_spec (score a) (score b)); [auto|].
    rewrite Nat.ltb_lt. auto.
Qed.
