(* ===== verification/Sig.v ===== *)
(** * The State Interference Graph (audit_agent/planner/sig.py)

    Which functions read and write which state variables, and which of them call
    out: from Solidity text ([build_sig]) and from SmartGraphical's structural
    graph ([build_sig_from_smartgraphical]), where a caller inherits the state of
    everything it reaches along call edges. *)

From S2P Require Import Prelude PyStr PyRe PyVal Worklist Stage1.

(** [[A-Za-z_]\w*] *)
Definition IDENT_RE : re :=
  RSeq (RSet (fun c => is_alpha c || Ascii.eqb c "_")) (RMany RWord).

(** An identifier (group 1), any number of index suffixes, and an assignment
    operator: "=" not followed by "=" or ">", or one of += -= *= /=. *)
Definition WRITE_RE : re :=
  RAll [ RBound; RGroup 1 IDENT_RE; RMany RSpace;
         RMany (RAll [RChr "["; RMany (RNoneOf "]"); RChr "]"]);
         RMany RSpace;
         RAny [ RSeq (RChr "=") (RNotAhead (ROneOf "=>"));
                RStr "+="; RStr "-="; RStr "*="; RStr "/=" ] ].

Definition EXTERNAL_CALL : list string :=
  [".call"; ".delegatecall"; ".transfer("; ".send("; ".staticcall"].

Definition DECL_SKIP : list string :=
  ["function"; "modifier"; "event"; "struct"; "enum"; "constructor"; "using"; "import";
   "pragma"; "error"; "receive"; "fallback"; "return"].

Record FunctionNode := mkNode {
  fn_name : string;
  reads : gset string;
  writes : gset string;
  has_external_call : bool;
}.

(** The dict [functions], in insertion order. *)
Record StateInterferenceGraph := mkSig { functions : list (string * FunctionNode) }.

Definition touches (n : FunctionNode) : gset string := reads n ∪ writes n.

Definition shares (fa fb : FunctionNode) : bool :=
  negb (bool_decide (writes fa ∩ touches fb = ∅))
  || negb (bool_decide (writes fb ∩ touches fa = ∅)).

Definition interferes (sig : StateInterferenceGraph) (a b : string) : bool :=
  match assoc a (functions sig), assoc b (functions sig) with
  | Some fa, Some fb => shares fa fb
  | _, _ => false
  end.

Definition can_reenter (sig : StateInterferenceGraph) (a b : string) : bool :=
  match assoc a (functions sig) with
  | Some fa => has_external_call fa && interferes sig a b
  | None => false
  end.

(** ** From source text *)

Definition decl_var_name (stmt0 : string) : option string :=
  let stmt := strip stmt0 in
  if negb (truthy stmt) then None
  else
    if match re_match IDENT_RE stmt with
       | Some m => bool_decide (group_or_empty 0 stmt m ∈ DECL_SKIP)
       | None => false
       end then None
    else
      let decl := before_char "=" (replace "=>" " " stmt) in
      last (re_findall0 IDENT_RE decl).

(** The character loop: brace depth, the buffer (latest character first), and the
    names found so far. *)
Fixpoint state_vars_loop (depth : Z) (buf : string) (acc : gset string) (s : string) : gset string :=
  match s with
  | "" => acc
  | String c s' =>
      if Ascii.eqb c "{" then state_vars_loop (depth + 1) "" acc s'
      else if Ascii.eqb c "}" then state_vars_loop (depth - 1) "" acc s'
      else if Ascii.eqb c ";" then
        let acc' :=
          if (depth =? 1)%Z then
            match decl_var_name (srev buf) with
            | Some name => if truthy name then {[name]} ∪ acc else acc
            | None => acc
            end
          else acc in
        state_vars_loop depth "" acc' s'
      else state_vars_loop depth (if (depth =? 1)%Z then String c buf else buf) acc s'
  end.

Definition extract_state_vars (source : string) : gset string :=
  state_vars_loop 0 "" ∅ source.

Definition node_of_body (state_vars : gset string) (name body : string) : FunctionNode :=
  let written : gset string :=
    list_to_set (List.filter (fun t => bool_decide (t ∈ state_vars)) (re_findall1 WRITE_RE body)) in
  let referenced : gset string :=
    list_to_set (List.filter (fun t => bool_decide (t ∈ state_vars)) (re_findall0 IDENT_RE body)) in
  mkNode name (referenced ∖ written) written (existsb (fun tok => contains tok body) EXTERNAL_CALL).

Definition build_sig (source : string) : StateInterferenceGraph :=
  let state_vars := extract_state_vars source in
  mkSig (fold_left
    (fun fs '(name, body, _) => assoc_set name (node_of_body state_vars name body) fs)
    (extract_functions source) []).

Fixpoint filtered_pairs_from (sig : StateInterferenceGraph) (locs : list string) : list (string * string) :=
  match locs with
  | [] => []
  | a :: rest =>
      map (fun b => (a, b))
        (List.filter (fun b => interferes sig (after_last_char ":" a) (after_last_char ":" b)) rest)
      ++ filtered_pairs_from sig rest
  end.

Definition get_filtered_pairs (finding_locations : list string) (sig : StateInterferenceGraph)
    : list (string * string) := filtered_pairs_from sig finding_locations.

(** ** From SmartGraphical's graph *)

(** [_node_short_name]: [":" not in node_id] needs a string (or a container). *)
Definition node_short_name (node_id : pyval) : res (option string) :=
  match node_id with
  | PStr s =>
      match split_once ":" s with
      | None => Ok None
      | Some (_, rest) => Ok (Some (after_last_char "." rest))
      end
  | PList l => if bool_decide (PStr ":" ∈ l)
               then Raise (Exn "AttributeError" "'list' object has no attribute 'split'") else Ok None
  | PDict d => if bool_decide (":" ∈ d.*1)
               then Raise (Exn "AttributeError" "'dict' object has no attribute 'split'") else Ok None
  | v => Raise (Exn "TypeError" ("argument of type '" +:+ type_name v +:+ "' is not iterable"))
  end.

(** [parse_sg_graph]: the nodes and the edges. *)
Definition parse_sg_graph (graph : pyval) : res (pyval * pyval) :=
  match dget graph "nodes", dget graph "edges" with
  | Some n, Some e => Ok (n, e)
  | _, _ =>
      let ms := if is_dict graph then default (PDict []) (dget graph "model_summary") else PDict [] in
      let inner := if is_dict ms then default (PDict []) (dget ms "graph") else PDict [] in
      nodes ← pget inner "nodes" (PList []);
      edges ← pget inner "edges" (PList []);
      Ok (nodes, edges)
  end.

Definition upd_node (name : string) (f : FunctionNode -> FunctionNode)
    (fs : list (string * FunctionNode)) : list (string * FunctionNode) :=
  map (fun '(k, n) => (k, if decide (k = name) then f n else n)) fs.

Definition add_reads (s : gset string) (n : FunctionNode) : FunctionNode :=
  mkNode (fn_name n) (reads n ∪ s) (writes n) (has_external_call n).
Definition add_writes (s : gset string) (n : FunctionNode) : FunctionNode :=
  mkNode (fn_name n) (reads n) (writes n ∪ s) (has_external_call n).
Definition set_external (n : FunctionNode) : FunctionNode :=
  mkNode (fn_name n) (reads n) (writes n) true.

Definition sg_nodes (nodes : list pyval) : res (list (string * FunctionNode)) :=
  foldl (fun acc node =>
    fs ← acc;
    group ← pget node "group" PNone;
    if bool_decide (group = PStr "function") then
      nid ← pget node "id" (PStr "");
      short ← node_short_name nid;
      let name := default "" short in
      if truthy name && bool_decide (assoc name fs = None)
      then Ok (fs ++ [(name, mkNode name ∅ ∅ false)]) else Ok fs
    else Ok fs) (Ok []) nodes.

Definition known (fs : list (string * FunctionNode)) (o : option string) : option string :=
  match o with Some n => if is_none (assoc n fs) then None else Some n | None => None end.

Definition nonempty (o : option string) : option string :=
  match o with Some n => if truthy n then Some n else None | None => None end.

Definition kind_in (kind : pyval) (l : list string) : bool := bool_decide (kind ∈ map PStr l).

Abbreviation calls_map := (gmap string (gset string)).

(** One edge: a read, a write, a call, or an external call. *)
Definition sg_edge (st : list (string * FunctionNode) * calls_map) (edge : pyval)
    : res (list (string * FunctionNode) * calls_map) :=
  let '(fs, calls) := st in
  kind ← pget edge "kind" (PStr "");
  source ← pget edge "source" (PStr "");
  src ← node_short_name (por source (PStr ""));
  tgt0 ← pget edge "target" (PStr "");
  tgt ← node_short_name (por tgt0 (PStr ""));
  if kind_in kind ["state_to_function_read"; "cross_type_state_read"] then
    match known fs tgt, nonempty src with
    | Some t, Some s => Ok (upd_node t (add_reads {[s]}) fs, calls)
    | _, _ => Ok (fs, calls)
    end
  else if kind_in kind ["state_to_function_write"; "cross_type_state_write"] then
    match known fs tgt, nonempty src with
    | Some t, Some s => Ok (upd_node t (add_writes {[s]}) fs, calls)
    | _, _ => Ok (fs, calls)
    end
  else if kind_in kind ["function_to_function"; "cross_type_call"] then
    match known fs src, nonempty tgt with
    | Some s, Some t => Ok (fs, <[s := {[t]} ∪ default ∅ (calls !! s)]> calls)
    | _, _ => Ok (fs, calls)
    end
  else if kind_in kind ["function_to_system"; "function_to_object"] then
    match known fs src with
    | Some s => Ok (upd_node s set_external fs, calls)
    | None => Ok (fs, calls)
    end
  else Ok (fs, calls).

Definition sg_edges (fs : list (string * FunctionNode)) (edges : list pyval)
    : res (list (string * FunctionNode) * calls_map) :=
  foldl (fun acc e => st ← acc; sg_edge st e) (Ok (fs, ∅)) edges.

(** Transitive propagation.  The order in which Python iterates a set is a
    parameter, [iter]. *)
Section propagate.
Context (iter : gset string -> list string).

Definition call_graph (calls : calls_map) : gmap string (list string) := iter <$> calls.

(** [_reachable(start)] *)
Definition reachable (calls : calls_map) (start : string) : gset string :=
  let g := call_graph calls in
  let stack := rev (default [] (g !! start)) in
  default ∅ (walk g (budget g stack) stack ∅).

(** The body of the loop over [sig.functions.items()]. *)
Definition absorb (name : string) (fs : list (string * FunctionNode)) (callee : string)
    : list (string * FunctionNode) :=
  match assoc callee fs with
  | Some other =>
      if decide (callee = name) then fs
      else upd_node name (fun n => add_writes (writes other) (add_reads (reads other) n)) fs
  | None => fs
  end.

Definition propagate_one (calls : calls_map) (fs : list (string * FunctionNode)) (name : string)
    : list (string * FunctionNode) :=
  foldl (absorb name) fs (iter (reachable calls name)).

Definition propagate (calls : calls_map) (fs : list (string * FunctionNode))
    : list (string * FunctionNode) :=
  foldl (propagate_one calls) fs (fs.*1).

Definition build_sig_from_smartgraphical (graph : pyval) : res StateInterferenceGraph :=
  '(nodes, edges) ← parse_sg_graph graph;
  ns ← piter nodes;
  fs ← sg_nodes ns;
  es ← piter edges;
  '(fs', calls) ← sg_edges fs es;
  Ok (mkSig (propagate calls fs')).
End propagate.

(** ** Interference is symmetric *)

Lemma shares_comm fa fb : shares fa fb = shares fb fa.
Proof. unfold shares. apply orb_comm. Qed.

Lemma interferes_comm sig a b : interferes sig a b = interferes sig b a.
Proof.
  unfold interferes. destruct (assoc a _), (assoc b _); try done. apply shares_comm.
Qed.

(** ** Transitive propagation

    [E] is the call relation; [has] reads a node's sets, tagged by kind. *)

Lemma assoc_upd_node k name f fs :
  assoc k (upd_node name f fs) = if decide (k = name) then f <$> assoc k fs else assoc k fs.
Proof.
  unfold upd_node. induction fs as [|[k' n] fs IH]; cbn; [by case_decide|].
  rewrite IH. repeat case_decide; by subst.
Qed.

Lemma upd_node_keys name f fs : (upd_node name f fs).*1 = fs.*1.
Proof.
  unfold upd_node. induction fs as [|[k n] fs IH]; cbn; [done|]. by rewrite <- IH.
Qed.

Definition has (n : FunctionNode) (t : bool * string) : Prop :=
  t.2 ∈ (if t.1 then reads n else writes n).

Section propagate_proof.
Context (iter : gset string -> list string) (iter_perm : forall s, iter s ≡ₚ elements s).
Context (calls : calls_map) (fs0 : list (string * FunctionNode)).

Definition calls_to (a b : string) : Prop := b ∈ (default ∅ (calls !! a) : gset string).

(** What [k] should end up with: the facts of everything it reaches. *)
Definition inherited (k : string) (t : bool * string) : Prop :=
  exists c nc, rtc calls_to k c /\ assoc c fs0 = Some nc /\ has nc t.

Lemma elem_of_iter x s : x ∈ iter s <-> x ∈ s.
Proof. by rewrite iter_perm, elem_of_elements. Qed.

Lemma edge_calls_to a b : edge (call_graph iter calls) a b <-> calls_to a b.
Proof.
  unfold edge, succs, call_graph, calls_to. rewrite lookup_fmap.
  destruct (calls !! a); cbn; [apply elem_of_iter|set_solver].
Qed.

Lemma reachable_spec s x : x ∈ reachable iter calls s <-> tc calls_to s x.
Proof.
  unfold reachable. set (g := call_graph iter calls). set (stack := rev _).
  destruct (walk_spec g stack (budget g stack)) as (F & HF & Hx); [lia|].
  rewrite HF. cbn. rewrite Hx.
  assert (forall y, y ∈ stack <-> calls_to s y) as Hst.
  { intros y. unfold stack. rewrite list_elem_of_In, <- in_rev, <- list_elem_of_In.
    apply edge_calls_to. }
  assert (forall a b, rtc (edge g) a b <-> rtc calls_to a b) as Hrtc.
  { intros a b. split; induction 1; try apply rtc_refl;
      (eapply rtc_l; [by apply edge_calls_to|done]). }
  setoid_rewrite Hst. setoid_rewrite Hrtc. split.
  - intros (y & Hy & Hr). by eapply tc_rtc_r; [apply tc_once|].
  - intros Ht. inversion Ht as [? ? Hy|? y ? Hy Hr]; subst.
    + exists x. split; [done|apply rtc_refl].
    + exists y. split; [done|]. by apply tc_rtc.
Qed.

Definition prop_inv (fs : list (string * FunctionNode)) : Prop :=
  fs.*1 = fs0.*1 /\
  forall k n, assoc k fs = Some n -> exists n0, assoc k fs0 = Some n0 /\
    fn_name n = fn_name n0 /\ has_external_call n = has_external_call n0 /\
    (forall t, has n0 t -> has n t) /\ (forall t, has n t -> inherited k t).

Definition grows (fs fs' : list (string * FunctionNode)) : Prop :=
  forall k n', assoc k fs' = Some n' -> exists n, assoc k fs = Some n /\ forall t, has n t -> has n' t.

Lemma has_add o n t : has (add_writes (writes o) (add_reads (reads o) n)) t <-> has n t \/ has o t.
Proof. destruct t as [[] v]; unfold has; cbn; set_solver. Qed.

Lemma absorb_spec name callee fs :
  rtc calls_to name callee -> prop_inv fs ->
  let fs' := absorb name fs callee in
  prop_inv fs' /\ grows fs fs' /\
  (forall n o, assoc name fs' = Some n -> assoc callee fs0 = Some o -> forall t, has o t -> has n t).
Proof.
  intros Hr [Hk Hinv] fs'. unfold fs', absorb.
  assert (forall n0, assoc callee fs0 = Some n0 -> is_Some (assoc callee fs)) as Hdef.
  { intros n0 Hn0. apply assoc_keys. rewrite Hk. apply assoc_keys. eauto. }
  destruct (assoc callee fs) as [o|] eqn:Ho.
  - destruct (decide (callee = name)) as [->|Hne].
    + split_and!; [done|intros k n; eauto|].
      intros n o' Hn Ho'. simplify_eq. destruct (Hinv _ _ Ho) as (o0 & Ho0 & _ & _ & Hsub & _).
      by simplify_eq.
    + split_and!.
      * split; [by rewrite upd_node_keys|]. intros k n. rewrite assoc_upd_node.
        case_decide as Hkn; [subst k|apply Hinv].
        intros (n1 & Hn1 & ->)%fmap_Some. destruct (Hinv _ _ Hn1) as (n0 & H0 & Hnm & Hex & Hs & Hc).
        exists n0. split_and!; try done; intros t; rewrite has_add; [naive_solver|].
        intros [Ht|Ht]; [by apply Hc|]. destruct (Hinv _ _ Ho) as (_ & _ & _ & _ & _ & Hco).
        destruct (Hco t Ht) as (c & nc & Hrc & Hnc & Hh). exists c, nc. split_and!; [|done..].
        by etrans.
      * intros k n'. rewrite assoc_upd_node. case_decide; [|eauto].
        intros (n1 & Hn1 & ->)%fmap_Some. exists n1. split; [done|]. intros t. rewrite has_add. auto.
      * intros n o0. rewrite assoc_upd_node, decide_True by done.
        intros (n1 & Hn1 & ->)%fmap_Some Ho0 t Ht. rewrite has_add. right.
        destruct (Hinv _ _ Ho) as (o1 & Ho1 & _ & _ & Hs & _). apply Hs. by simplify_eq.
  - split_and!; [done|intros k n; eauto|]. intros n o _ Ho'.
    destruct (Hdef _ Ho') as [? ?]. congruence.
Qed.

Lemma grows_trans fs1 fs2 fs3 : grows fs1 fs2 -> grows fs2 fs3 -> grows fs1 fs3.
Proof. intros H1 H2 k n3 H3. apply H2 in H3 as (n2 & H3 & ?). apply H1 in H3 as (n1 & ? & ?). eauto. Qed.

Lemma absorb_all name l fs :
  (forall c, c ∈ l -> rtc calls_to name c) -> prop_inv fs ->
  let fs' := foldl (absorb name) fs l in
  prop_inv fs' /\ grows fs fs' /\
  (forall c n o, c ∈ l -> assoc name fs' = Some n -> assoc c fs0 = Some o ->
     forall t, has o t -> has n t).
Proof.
  revert fs. induction l as [|c l IH]; intros fs Hl Hinv; cbn.
  - split_and!; [done|intros k n; eauto|set_solver].
  - destruct (absorb_spec name c fs) as (Hi & Hg & Hn); [apply Hl; set_solver|done|].
    destruct (IH (absorb name fs c)) as (Hi' & Hg' & Hn'); [set_solver|done|].
    split_and!; [done|by eapply grows_trans|].
    intros c' n o [->|Hc']%elem_of_cons Hn1 Ho t Ht; [|eauto].
    apply Hg' in Hn1 as (n2 & Hn2 & Hs). apply Hs. eauto.
Qed.

Lemma propagate_one_spec name fs :
  prop_inv fs ->
  let fs' := propagate_one iter calls fs name in
  prop_inv fs' /\ grows fs fs' /\
  (forall n, assoc name fs' = Some n -> forall t, inherited name t -> has n t).
Proof.
  intros Hinv fs'. unfold fs', propagate_one.
  destruct (absorb_all name (iter (reachable iter calls name)) fs) as (Hi & Hg & Hn); [|done|].
  { intros c. rewrite elem_of_iter, reachable_spec. apply tc_rtc. }
  split_and!; [done..|]. intros n Hname t (c & nc & Hr & Hc & Ht).
  apply rtc_tc in Hr as [->|Hr].
  - destruct Hi as [_ Hi]. destruct (Hi _ _ Hname) as (n0 & H0 & _ & _ & Hs & _). simplify_eq. auto.
  - eapply (Hn c n nc); [by rewrite elem_of_iter, reachable_spec|done..].
Qed.

Lemma propagate_all l fs :
  prop_inv fs ->
  let fs' := foldl (propagate_one iter calls) fs l in
  prop_inv fs' /\ grows fs fs' /\
  (forall k n, k ∈ l -> assoc k fs' = Some n -> forall t, inherited k t -> has n t).
Proof.
  revert fs. induction l as [|k l IH]; intros fs Hinv; cbn.
  - split_and!; [done|intros k n; eauto|set_solver].
  - destruct (propagate_one_spec k fs Hinv) as (Hi & Hg & Hn).
    destruct (IH _ Hi) as (Hi' & Hg' & Hn'). split_and!; [done|by eapply grows_trans|].
    intros k' n [->|Hk']%elem_of_cons Hk t Ht; [|eauto].
    apply Hg' in Hk as (n2 & Hn2 & Hs). apply Hs. eauto.
Qed.
End propagate_proof.

(** C25.  The propagation along call edges computes exactly the transitive closure,
    whatever the order in which Python iterates its sets and although the nodes are
    updated in place while others are still being processed: each function ends up
    reading (writing) precisely the variables read (written) by itself or by a
    function reachable from it through calls, cycles included; no function is added
    or lost, and the external-call flags are untouched. *)
Theorem propagate_transitive_closure (iter : gset string -> list string)
    (iter_perm : forall s, iter s ≡ₚ elements s) (calls : calls_map)
    (fs : list (string * FunctionNode)) :
  let out := propagate iter calls fs in
  out.*1 = fs.*1 /\
  forall k n, assoc k out = Some n ->
    (exists n0, assoc k fs = Some n0 /\ has_external_call n = has_external_call n0) /\
    (forall v, v ∈ reads n <-> exists c nc, rtc (calls_to calls) k c /\
                                 assoc c fs = Some nc /\ v ∈ reads nc) /\
    (forall v, v ∈ writes n <-> exists c nc, rtc (calls_to calls) k c /\
                                  assoc c fs = Some nc /\ v ∈ writes nc).
Proof.
  intros out. destruct (propagate_all iter iter_perm calls fs (fs.*1) fs) as ([Hk Hi] & _ & Hn).
  { split; [done|]. intros k n Hkn. exists n. split_and!; try done.
    intros t Ht. exists k, n. split_and!; [apply rtc_refl|done..]. }
  split; [done|]. intros k n Hkn. pose proof Hkn as Hin.
  destruct (Hi _ _ Hkn) as (n0 & H0 & _ & Hex & _ & Hc).
  assert (k ∈ fs.*1) as Hkin by (apply (assoc_keys k fs); eauto).
  split_and!; [eauto| |]; intros v; split.
  - intros Hv. apply (Hc (true, v)). exact Hv.
  - intros Hv. apply (Hn k n Hkin Hin (true, v)). exact Hv.
  - intros Hv. apply (Hc (false, v)). exact Hv.
  - intros Hv. apply (Hn k n Hkin Hin (false, v)). exact Hv.
Qed.

(** Two functions calling each other: each inherits what the other reads. *)
Definition demo_calls : calls_map := <["a" := {["b"]}]> (<["b" := {["a"]}]> ∅).
Definition demo_nodes : list (string * FunctionNode) :=
  [("a", mkNode "a" {["x"]} ∅ false); ("b", mkNode "b" {["y"]} {["x"]} true)].

Lemma propagate_transitive_closure_witness :
  exists n, assoc "a" (propagate elements demo_calls demo_nodes) = Some n /\ "y" ∈ reads n /\ "x" ∈ writes n.
Proof.
  destruct (propagate_transitive_closure elements (fun s => Permutation_refl _) demo_calls demo_nodes)
    as [Hk Hn].
  assert (is_Some (assoc "a" (propagate elements demo_calls demo_nodes))) as [n Ha].
  { apply assoc_keys. rewrite Hk. left. }
  exists n. split; [exact Ha|]. destruct (Hn "a" n Ha) as (_ & Hr & Hw).
  assert (rtc (calls_to demo_calls) "a" "b") as Hab.
  { eapply rtc_l; [|apply rtc_refl]. unfold calls_to, demo_calls.
    rewrite lookup_insert_eq. cbn. set_solver. }
  split; [apply Hr|apply Hw]; exists "b", (mkNode "b" {["y"]} {["x"]} true);
    (split; [exact Hab|split; [reflexivity|cbn; set_solver]]).
Defined.
