(* ===== verification/Stage3.v ===== *)
(** * Stage 3, deterministic synthesis (audit_agent/planner/stage3.py)

    Findings are objects: the function updates them in place and compares them by
    identity.  A list of findings is a list of references into a heap, so that
    aliased entries of the list behave as in the code. *)

From S2P Require Import Prelude PyStr Finding Guardrails Sig.

Abbreviation ref := nat.
Abbreviation heap := (gmap ref Finding).

Record Stage3Result := mkStage3 {
  corrections : list string;
  combinations : list string;
}.

(** A reference of the list is always allocated; a dangling one is not a Python
    value, and reads as a blank finding. *)
Definition deref (h : heap) (r : ref) : Finding :=
  default (new_finding "" "" "" Severity.informational) (h !! r).

(** Pass 1: the severity correction of each finding, in list order. *)
Fixpoint correct_pass (refs : list ref) (h : heap) : heap * list string :=
  match refs with
  | [] => (h, [])
  | r :: refs' =>
      let verdict := Severity_check.check_severity (deref h r) in
      if Severity_check.was_corrected verdict then
        let h' := <[r := with_severity (Severity_check.final verdict) (deref h r)]> h in
        let '(h'', cs) := correct_pass refs' h' in
        (h'', default "" (Severity_check.correction_reason verdict) :: cs)
      else correct_pass refs' h
  end.

Definition source_of (f : Finding) : string := before_char ":" (location f).
Definition function_of (f : Finding) : string := after_last_char ":" (location f).

(** [groups[source].append(finding)], the dict in insertion order. *)
Definition group_by_source (h : heap) (refs : list ref) : list (string * list ref) :=
  fold_left (fun gs r =>
    let k := source_of (deref h r) in assoc_set k (default [] (assoc k gs) ++ [r]) gs) refs [].

Definition interacts (sig : option StateInterferenceGraph) (h : heap) (a b : ref) : bool :=
  if decide (a = b) then false
  else match sig with
       | None => true
       | Some g => interferes g (function_of (deref h a)) (function_of (deref h b))
       end.

Definition interacting_with (sig : option StateInterferenceGraph) (h : heap) (group : list ref)
    (r : ref) : list ref := List.filter (interacts sig h r) group.

Definition link_one (sig : option StateInterferenceGraph) (group : list ref) (h : heap) (r : ref) : heap :=
  <[r := with_combined (map (fun g => finding_id (deref h g)) (interacting_with sig h group r))
           (deref h r)]> h.

Definition is_severe (f : Finding) : bool :=
  (severity_rank Severity.high <=? severity_rank (f_severity f))%nat
  && bool_decide (mitigations_present f = []).

Definition to_elevate (sig : option StateInterferenceGraph) (h : heap) (group : list ref) : list ref :=
  let severe := List.filter (fun r => is_severe (deref h r)) group in
  List.filter (fun r => existsb (interacts sig h r) severe) severe.

Definition elevate_one (h : heap) (r : ref) : heap :=
  <[r := with_severity Severity.critical (deref h r)]> h.

Definition chain_note (source_file : string) (h : heap) (elevate : list ref) : string :=
  source_file +:+ ": " +:+ pretty (length elevate) +:+
  " interacting unmitigated high+ findings → critical chain (" +:+
  join ", " (map (fun r => finding_id (deref h r)) elevate) +:+ ")".

(** The body of the loop over the groups. *)
Definition combine_group (sigs : list (string * StateInterferenceGraph))
    (st : heap * list string) (g : string * list ref) : heap * list string :=
  let '(h, combos) := st in
  let '(source_file, group) := g in
  if (length group <? 2)%nat then (h, combos)
  else
    let sig := assoc source_file sigs in
    let h1 := fold_left (link_one sig group) group h in
    let elevate := to_elevate sig h1 group in
    if (2 <=? length elevate)%nat then
      let h2 := fold_left elevate_one elevate h1 in
      (h2, combos ++ [chain_note source_file h2 elevate])
    else (h1, combos).

Definition run_stage3 (refs : list ref) (sigs : list (string * StateInterferenceGraph)) (h : heap)
    : heap * Stage3Result :=
  let '(h1, corrections) := correct_pass refs h in
  let '(h2, combinations) := fold_left (combine_group sigs) (group_by_source h1 refs) (h1, []) in
  (h2, mkStage3 corrections combinations).

(** ** The functional view of the in-place updates *)

(** What linking and grouping look at; no update changes it. *)
Definition same_static (f f' : Finding) : Prop :=
  finding_id f = finding_id f' /\ location f = location f' /\
  mitigations_present f = mitigations_present f'.

Definition heap_static (h h' : heap) : Prop := forall r, same_static (deref h r) (deref h' r).

Lemma heap_static_refl h : heap_static h h.
Proof. by intros r. Qed.

Lemma heap_static_trans h1 h2 h3 : heap_static h1 h2 -> heap_static h2 h3 -> heap_static h1 h3.
Proof. intros H1 H2 r. destruct (H1 r) as (?&?&?), (H2 r) as (?&?&?). split_and!; congruence. Qed.

Lemma deref_insert h r f x : deref (<[r := f]> h) x = if decide (r = x) then f else deref h x.
Proof. unfold deref. rewrite lookup_insert. by case_decide. Qed.

Lemma heap_static_insert h r f : same_static (deref h r) f -> heap_static h (<[r := f]> h).
Proof. intros Hs x. rewrite deref_insert. case_decide; by subst. Qed.

(** A loop that rewrites each referenced object with an idempotent function
    rewrites every object of the list once, whatever its number of occurrences. *)
Definition upd_all (F : ref -> Finding -> Finding) (l : list ref) (h : heap) : heap :=
  fold_left (fun h r => <[r := F r (deref h r)]> h) l h.

Lemma upd_all_lookup F l h r :
  (forall x f, F x (F x f) = F x f) ->
  upd_all F l h !! r = if decide (r ∈ l) then Some (F r (deref h r)) else h !! r.
Proof.
  intros HF. revert h. induction l as [|x l IH]; intros h; [done|].
  change (upd_all F (x :: l) h) with (upd_all F l (<[x := F x (deref h x)]> h)).
  rewrite IH, deref_insert, lookup_insert.
  destruct (decide (x = r)) as [->|Hx].
  - rewrite (decide_True (P := r ∈ r :: l)) by set_solver. case_decide; by rewrite ?HF.
  - destruct (decide (r ∈ l)); [rewrite decide_True by set_solver|rewrite decide_False by set_solver]; done.
Qed.

Lemma deref_upd_all F l h r :
  (forall x f, F x (F x f) = F x f) ->
  deref (upd_all F l h) r = if decide (r ∈ l) then F r (deref h r) else deref h r.
Proof. intros HF. unfold deref at 1. rewrite upd_all_lookup by done. by case_decide. Qed.

(** *** Pass 1 *)

Definition corrected_view (f : Finding) : Finding :=
  with_severity (Severity_check.final (Severity_check.check_severity f)) f.

Lemma with_severity_id f : with_severity (f_severity f) f = f.
Proof. by destruct f. Qed.

Lemma corrected_view_id f :
  Severity_check.was_corrected (Severity_check.check_severity f) = false -> corrected_view f = f.
Proof.
  intros Hc. unfold corrected_view.
  destruct (decide (Severity_check.final (Severity_check.check_severity f) = f_severity f)) as [->|Hne];
    [apply with_severity_id|].
  apply Severity_check.was_corrected_iff in Hne. congruence.
Qed.

Lemma corrected_view_rank f :
  severity_rank (f_severity (corrected_view f)) =
  Severity_check.corrected_rank (Severity_check.has_mitigations f)
    (Severity_check.active_preconditions f) (severity_rank (f_severity f)).
Proof. apply Severity_check.final_rank. Qed.

Lemma corrected_view_idemp f : corrected_view (corrected_view f) = corrected_view f.
Proof.
  apply corrected_view_id, not_true_iff_false. rewrite Severity_check.was_corrected_iff.
  intros Hne. apply Hne. apply severity_rank_inj.
  rewrite Severity_check.final_rank, corrected_view_rank. apply Severity_check.corrected_rank_idemp.
Qed.

Lemma correct_pass_upd refs h :
  (forall r, r ∈ refs -> is_Some (h !! r)) ->
  (correct_pass refs h).1 = upd_all (fun _ => corrected_view) refs h.
Proof.
  revert h. induction refs as [|r refs IH]; intros h Hall; [done|]. cbn [correct_pass].
  destruct (Severity_check.was_corrected _) eqn:Hc.
  - set (h' := <[r := _]> h). change (upd_all _ (r :: refs) h) with (upd_all (fun _ => corrected_view) refs h').
    rewrite <- IH; [by destruct (correct_pass refs h')|].
    intros x Hx. unfold h'. rewrite lookup_insert. case_decide; [done|]. apply Hall. set_solver.
  - rewrite IH by set_solver. unfold upd_all at 2. cbn [fold_left].
    assert (<[r := corrected_view (deref h r)]> h = h) as ->; [|done].
    rewrite corrected_view_id by done. apply insert_id. unfold deref.
    destruct (Hall r ltac:(set_solver)) as [f ->]. done.
Qed.

(** *** Grouping *)

Lemma group_by_source_spec h refs k :
  assoc k (group_by_source h refs) =
  (let g := List.filter (fun r => String.eqb (source_of (deref h r)) k) refs in
   if bool_decide (g = []) then None else Some g).
Proof.
  unfold group_by_source.
  assert (forall gs, assoc k (fold_left (fun gs r => let k := source_of (deref h r) in
      assoc_set k (default [] (assoc k gs) ++ [r]) gs) refs gs) =
    let g := default [] (assoc k gs) ++ List.filter (fun r => String.eqb (source_of (deref h r)) k) refs in
    if bool_decide (g = []) then assoc k gs else Some g) as Hgen.
  { induction refs as [|r refs IH]; intros gs; cbn.
    - destruct (assoc k gs) as [[|x g]|]; reflexivity || (cbn; by rewrite ?app_nil_r).
    - rewrite IH. destruct (String.eqb_spec (source_of (deref h r)) k) as [<-|Hne].
      + rewrite assoc_set_eq. cbn. rewrite <- app_assoc. cbn.
        rewrite !bool_decide_false; [done|by destruct (default _ _)..].
      + by rewrite assoc_set_ne. }
  by rewrite Hgen.
Qed.

Lemma group_by_source_NoDup h refs : NoDup (group_by_source h refs).*1.
Proof.
  unfold group_by_source.
  assert (forall gs : list (string * list ref), NoDup gs.*1 -> NoDup (fold_left (fun gs r =>
    let k := source_of (deref h r) in assoc_set k (default [] (assoc k gs) ++ [r]) gs) refs gs).*1) as Hgen;
    [|apply Hgen; constructor].
  induction refs as [|r refs IH]; intros gs Hgs; cbn; [done|]. apply IH.
  set (k := source_of _). destruct (decide (k ∈ gs.*1)) as [Hk|Hk].
  - by rewrite assoc_set_keys_old.
  - rewrite assoc_set_keys_new, fmap_app by done. apply NoDup_app. split; [done|]. split; [|apply NoDup_singleton].
    intros x Hx Hx'. apply list_elem_of_singleton in Hx' as ->. done.
Qed.

(** *** One group *)

Definition group_view (sig : option StateInterferenceGraph) (h : heap) (group : list ref) (r : ref) : Finding :=
  let f := deref h r in
  if (length group <? 2)%nat then f
  else
    let linked := with_combined (map (fun g => finding_id (deref h g)) (interacting_with sig h group r)) f in
    let elevate := to_elevate sig h group in
    if (2 <=? length elevate)%nat && bool_decide (r ∈ elevate)
    then with_severity Severity.critical linked else linked.

Lemma interacts_static sig h h' a b : heap_static h h' -> interacts sig h a b = interacts sig h' a b.
Proof.
  intros Hh. unfold interacts, function_of.
  destruct (Hh a) as (_ & -> & _), (Hh b) as (_ & -> & _). done.
Qed.

Lemma interacting_with_static sig h h' group r :
  heap_static h h' -> interacting_with sig h group r = interacting_with sig h' group r.
Proof. intros Hh. unfold interacting_with. apply List.filter_ext. intros b. by apply interacts_static. Qed.

Lemma existsb_ext_elem {A} (p q : A -> bool) l :
  (forall x, x ∈ l -> p x = q x) -> existsb p l = existsb q l.
Proof.
  induction l as [|x l IH]; intros H; [done|]. cbn. rewrite H by set_solver.
  rewrite IH; [done|]. intros y Hy. apply H. set_solver.
Qed.

Lemma filter_ext_elem {A} (p q : A -> bool) l :
  (forall x, x ∈ l -> p x = q x) -> List.filter p l = List.filter q l.
Proof. intros H. apply List.filter_ext_in. intros x Hx. apply H. by apply list_elem_of_In. Qed.

Lemma to_elevate_ext sig h h' group :
  heap_static h h' -> (forall r, r ∈ group -> f_severity (deref h r) = f_severity (deref h' r)) ->
  to_elevate sig h group = to_elevate sig h' group.
Proof.
  intros Hh Hs. unfold to_elevate.
  rewrite (filter_ext_elem (fun r => is_severe (deref h r)) (fun r => is_severe (deref h' r)) group).
  - apply List.filter_ext. intros a. apply existsb_ext_elem. intros b _. by apply interacts_static.
  - intros r Hr. unfold is_severe. rewrite (Hs r Hr). destruct (Hh r) as (_ & _ & ->). done.
Qed.

Lemma map_ids_static h h' l : heap_static h h' ->
  map (fun g => finding_id (deref h g)) l = map (fun g => finding_id (deref h' g)) l.
Proof. intros Hh. apply List.map_ext. intros g. by destruct (Hh g) as (-> & _). Qed.

(** Linking only ever looks at fields that linking does not change, so the
    sequence of in-place updates is one simultaneous update. *)
Lemma link_fold sig group l h :
  fold_left (link_one sig group) l h =
  upd_all (fun r => with_combined (map (fun g => finding_id (deref h g)) (interacting_with sig h group r))) l h.
Proof.
  assert (forall hc, heap_static h hc -> fold_left (link_one sig group) l hc =
    upd_all (fun r => with_combined (map (fun g => finding_id (deref h g)) (interacting_with sig h group r))) l hc)
    as Hgen; [|apply Hgen, heap_static_refl].
  induction l as [|r l IH]; intros hc Hc; [done|]. cbn [fold_left]. unfold upd_all. cbn [fold_left].
  assert (link_one sig group hc r = <[r := with_combined (map (fun g => finding_id (deref h g))
    (interacting_with sig h group r)) (deref hc r)]> hc) as Hl.
  { unfold link_one. by rewrite (map_ids_static h hc _ Hc), (interacting_with_static sig h hc _ _ Hc). }
  rewrite <- Hl. apply IH. eapply heap_static_trans; [exact Hc|]. rewrite Hl. apply heap_static_insert. done.
Qed.

Lemma upd_all_static F l h : (forall r f, same_static f (F r f)) -> heap_static h (upd_all F l h).
Proof.
  intros HF. revert h. induction l as [|x l IH]; intros h; [apply heap_static_refl|].
  eapply heap_static_trans; [|apply IH]. by apply heap_static_insert.
Qed.

Lemma elem_of_to_elevate sig h group r : r ∈ to_elevate sig h group -> r ∈ group.
Proof. intros Hr. unfold to_elevate in Hr. rewrite !list_elem_of_In, !filter_In in *. tauto. Qed.

Lemma combine_group_lookup sigs h combos k group r :
  (combine_group sigs (h, combos) (k, group)).1 !! r =
  if decide (r ∈ group) then if (length group <? 2)%nat then h !! r else
    Some (group_view (assoc k sigs) h group r) else h !! r.
Proof.
  unfold combine_group, group_view. destruct (length group <? 2)%nat; [by case_decide|].
  set (sig := assoc k sigs). rewrite link_fold.
  set (L := fun r0 : ref => with_combined _).
  assert (forall x f, L x (L x f) = L x f) as HL by done.
  assert (heap_static h (upd_all L group h)) as Hst by (by apply upd_all_static).
  assert (to_elevate sig (upd_all L group h) group = to_elevate sig h group) as Hel.
  { symmetry. apply to_elevate_ext; [done|]. intros x Hx. rewrite deref_upd_all by done. by rewrite decide_True. }
  rewrite Hel. destruct (2 <=? length (to_elevate sig h group))%nat; cbn.
  - change (fold_left elevate_one ?l ?hh) with (upd_all (fun _ => with_severity Severity.critical) l hh).
    rewrite upd_all_lookup, deref_upd_all, upd_all_lookup by done.
    destruct (decide (r ∈ to_elevate sig h group)) as [He|He].
    + pose proof (elem_of_to_elevate _ _ _ _ He). rewrite !decide_True, bool_decide_true by done. done.
    + rewrite bool_decide_false by done. by case_decide.
  - rewrite upd_all_lookup by done. by case_decide.
Qed.

(** *** The loop over the groups *)

Lemma group_view_ext sig h h' group r :
  heap_static h h' -> (forall x, x ∈ group -> deref h x = deref h' x) -> r ∈ group ->
  group_view sig h group r = group_view sig h' group r.
Proof.
  intros Hh Hg Hr. unfold group_view.
  by rewrite (map_ids_static h h' _ Hh), (interacting_with_static sig h h' _ _ Hh),
    (to_elevate_ext sig h h' group Hh) by (intros ??; by rewrite Hg); rewrite (Hg r Hr).
Qed.

Lemma group_view_static sig h group r : same_static (deref h r) (group_view sig h group r).
Proof. unfold group_view. case_match; [done|]. by case_match. Qed.

Definition owns (gs : list (string * list ref)) (r : ref) (k : string) (g : list ref) : Prop :=
  (k, g) ∈ gs /\ r ∈ g.

Lemma combine_fold_lookup sigs gs h h0 combos r :
  (forall k g k' g' x, (k, g) ∈ gs -> (k', g') ∈ gs -> x ∈ g -> x ∈ g' -> k = k') ->
  NoDup gs.*1 ->
  heap_static h0 h -> (forall k g x, (k, g) ∈ gs -> x ∈ g -> deref h x = deref h0 x /\ is_Some (h !! x)) ->
  (forall k g, owns gs r k g -> (fold_left (combine_group sigs) gs (h, combos)).1 !! r =
     Some (group_view (assoc k sigs) h0 g r)) /\
  ((forall k g, ~ owns gs r k g) -> (fold_left (combine_group sigs) gs (h, combos)).1 !! r = h !! r).
Proof.
  revert h combos. induction gs as [|[k g] gs IH]; intros h combos Hdisj Hnd Hst Heq.
  { split; [intros ? ? [[]%not_elem_of_nil _]|done]. }
  apply NoDup_cons in Hnd as [Hk Hnd]. cbn [fold_left].
  pose proof (combine_group_lookup sigs h combos k g) as Hl.
  destruct (combine_group sigs (h, combos) (k, g)) as [h' combos']. cbn [fst] in Hl.
  assert (forall x, x ∈ g -> h' !! x = Some (group_view (assoc k sigs) h0 g x)) as Hin.
  { intros x Hx. rewrite Hl, decide_True by done.
    rewrite <- (group_view_ext (assoc k sigs) h h0) by
      first [ done | by intros y Hy; apply (Heq k g y); [left|]
            | by intros y; destruct (Hst y) as (? & ? & ?) ].
    unfold group_view. case_match; [|done].
    destruct (Heq k g x ltac:(left) Hx) as [_ [f Hf]]. unfold deref. by rewrite Hf. }
  assert (forall x, x ∉ g -> h' !! x = h !! x) as Hout by (intros x Hx; by rewrite Hl, decide_False).
  assert (forall k' g' x, (k', g') ∈ gs -> x ∈ g' -> x ∉ g) as Hsep.
  { intros k' g' x Hin' Hx' Hx. apply Hk. apply list_elem_of_fmap. exists (k', g'). split; [|done].
    cbn. apply (Hdisj k g k' g' x); [left|by right|done..]. }
  destruct (IH h' combos') as [IH1 IH2].
  - intros k1 g1 k2 g2 x H1 H2. apply (Hdisj k1 g1 k2 g2 x); by right.
  - done.
  - intros x. destruct (decide (x ∈ g)) as [Hx|Hx].
    + unfold deref at 2. rewrite (Hin x Hx). cbn. apply group_view_static.
    + unfold deref at 2. rewrite (Hout x Hx). apply Hst.
  - intros k' g' x Hg' Hx. unfold deref at 1. rewrite (Hout x) by (by eapply Hsep).
    apply (Heq k' g' x); [by right|done].
  - split.
    + intros k' g' [[[= -> ->]|Hg']%elem_of_cons Hr]; [|by apply IH1].
      rewrite IH2; [by apply Hin|]. intros k' g' [Hg' Hr']. by apply (Hsep k' g' r).
    + intros Hno. rewrite IH2.
      * apply Hout. intros Hr. apply (Hno k g). split; [left|done].
      * intros k' g' [Hg' Hr]. apply (Hno k' g'). split; [by right|done].
Qed.

Definition same_source (h : heap) (refs : list ref) (r : ref) : list ref :=
  List.filter (fun x => String.eqb (source_of (deref h x)) (source_of (deref h r))) refs.

(** What stage 3 makes of the finding [r] of the list, in one step. *)
Definition stage3_view (sigs : list (string * StateInterferenceGraph)) (h : heap) (refs : list ref) (r : ref) : Finding :=
  let h1 := upd_all (fun _ => corrected_view) refs h in
  group_view (assoc (source_of (deref h1 r)) sigs) h1 (same_source h1 refs r) r.

Lemma group_by_source_elem h refs k g :
  (k, g) ∈ group_by_source h refs ->
  g = List.filter (fun r => String.eqb (source_of (deref h r)) k) refs.
Proof.
  intros Hin. pose proof (group_by_source_spec h refs k) as Hs.
  rewrite (assoc_NoDup_elem k g) in Hs by (done || apply group_by_source_NoDup).
  cbv zeta in Hs. case_match; congruence.
Qed.

Lemma elem_of_source_filter h refs k r :
  r ∈ List.filter (fun r => String.eqb (source_of (deref h r)) k) refs <-> r ∈ refs /\ source_of (deref h r) = k.
Proof. rewrite !list_elem_of_In, filter_In, String.eqb_eq. done. Qed.

Lemma run_stage3_lookup sigs refs h r :
  (forall x, x ∈ refs -> is_Some (h !! x)) ->
  (run_stage3 refs sigs h).1 !! r =
  if decide (r ∈ refs) then Some (stage3_view sigs h refs r) else h !! r.
Proof.
  intros Hall. unfold run_stage3, stage3_view. pose proof (correct_pass_upd refs h Hall) as Hc.
  destruct (correct_pass refs h) as [h1 cs]. cbn [fst] in Hc. subst h1. set (h1 := upd_all _ refs h).
  set (gs := group_by_source h1 refs).
  destruct (combine_fold_lookup sigs gs h1 h1 [] r) as [H1 H2].
  - intros k g k' g' x Hg%group_by_source_elem Hg'%group_by_source_elem Hx Hx'. subst g g'.
    apply elem_of_source_filter in Hx as [_ <-], Hx' as [_ <-]. done.
  - apply group_by_source_NoDup.
  - apply heap_static_refl.
  - intros k g x Hg%group_by_source_elem Hx. subst g. apply elem_of_source_filter in Hx as [Hx _].
    split; [done|]. unfold h1. rewrite upd_all_lookup by apply (fun _ => corrected_view_idemp).
    rewrite decide_True by done. done.
  - destruct (fold_left (combine_group sigs) gs (h1, [])) as [h2 combos]. cbn [fst] in *.
    case_decide as Hr.
    + apply H1. split; [|by apply elem_of_source_filter].
      apply assoc_Some_elem. unfold gs. rewrite group_by_source_spec. cbv zeta.
      rewrite bool_decide_false; [done|]. intros Hn. apply (not_elem_of_nil r). rewrite <- Hn.
      by apply elem_of_source_filter.
    + rewrite H2.
      * unfold h1. rewrite upd_all_lookup by apply (fun _ => corrected_view_idemp). by rewrite decide_False.
      * intros k g [Hg%group_by_source_elem Hrg]. subst g. by apply elem_of_source_filter in Hrg as [? _].
Qed.

(** ** Properties *)

(** C21. Refinement of the in-place updates: whatever the aliasing of the list,
    after stage 3 every finding of the list is the pure function [stage3_view] of
    the initial heap (its severity corrected, its same-source peers that interact
    with it linked, critical when it belongs to a chain of two or more) and no
    object outside the list is touched. *)
Theorem run_stage3_pointwise (sigs : list (string * StateInterferenceGraph)) refs h
    (Halloc : forall r, r ∈ refs -> is_Some (h !! r)) :
  forall r, (run_stage3 refs sigs h).1 !! r =
    if decide (r ∈ refs) then Some (stage3_view sigs h refs r) else h !! r.
Proof. intros r. by apply run_stage3_lookup. Qed.

Lemma to_elevate_spec sig h group r :
  r ∈ to_elevate sig h group <->
  (r ∈ group /\ is_severe (deref h r) = true) /\
  exists g, (g ∈ group /\ is_severe (deref h g) = true) /\ interacts sig h r g = true.
Proof.
  unfold to_elevate. rewrite list_elem_of_In, filter_In, <- list_elem_of_In, existsb_exists.
  setoid_rewrite <- list_elem_of_In.
  assert (forall x, x ∈ List.filter (fun r => is_severe (deref h r)) group <->
    x ∈ group /\ is_severe (deref h x) = true) as Hf by (intros x; by rewrite !list_elem_of_In, filter_In).
  rewrite Hf. by setoid_rewrite Hf.
Qed.

Lemma group_view_severity sig h group r :
  f_severity (group_view sig h group r) = f_severity (deref h r) \/
  (f_severity (group_view sig h group r) = Severity.critical /\ r ∈ to_elevate sig h group /\
   (2 <= length (to_elevate sig h group))%nat).
Proof.
  unfold group_view. case_match; [by left|]. case_match eqn:He; [|by left].
  right. apply andb_true_iff in He as [Hl%Nat.leb_le Hr%bool_decide_eq_true]. done.
Qed.

Lemma corrected_capped f :
  mitigations_present f <> [] -> (severity_rank (f_severity (corrected_view f)) <= severity_rank Severity.medium)%nat.
Proof.
  intros Hm. rewrite corrected_view_rank. unfold Severity_check.corrected_rank.
  assert (Severity_check.has_mitigations f = true) as -> by (unfold Severity_check.has_mitigations; by destruct (mitigations_present f)).
  lia.
Qed.

(** Safety of the chain rule: stage 3 never leaves a mitigated finding above
    medium, it never lowers a severity below the guardrail's verdict, and it
    raises one above that verdict only to critical, for an unmitigated finding of
    rank high or more that interacts with another such finding of its own source. *)
Theorem stage3_severity_safety (sigs : list (string * StateInterferenceGraph)) refs h r
    (Halloc : forall x, x ∈ refs -> is_Some (h !! x)) (Hr : r ∈ refs) :
  exists f', (run_stage3 refs sigs h).1 !! r = Some f' /\
    let f := deref h r in
    let verdict := f_severity (corrected_view f) in
    same_static f f' /\
    (mitigations_present f <> [] -> (severity_rank (f_severity f') <= severity_rank Severity.medium)%nat) /\
    (f_severity f' = verdict \/
     f_severity f' = Severity.critical /\ mitigations_present f = [] /\
     (severity_rank Severity.high <= severity_rank verdict)%nat /\
     exists g, g ∈ refs /\ g <> r /\ source_of (deref h g) = source_of f /\
       mitigations_present (deref h g) = []).
Proof.
  rewrite run_stage3_lookup, decide_True by done. eexists; split; [done|]. cbv zeta. unfold stage3_view.
  set (h1 := upd_all _ refs h).
  assert (forall x, x ∈ refs -> deref h1 x = corrected_view (deref h x)) as Hd.
  { intros x Hx. unfold h1. rewrite deref_upd_all by apply (fun _ => corrected_view_idemp). by rewrite decide_True. }
  set (sig := assoc _ sigs). set (group := same_source h1 refs r).
  pose proof (group_view_static sig h1 group r) as Hst. rewrite (Hd r Hr) in Hst.
  pose proof (group_view_severity sig h1 group r) as Hsev. rewrite (Hd r Hr) in Hsev.
  assert (forall x, is_severe (deref h1 x) = true -> x ∈ refs -> mitigations_present (deref h x) = [] /\
    (severity_rank Severity.high <= severity_rank (f_severity (corrected_view (deref h x))))%nat) as Hsv.
  { intros x Hx Hx'. rewrite Hd in Hx by done. unfold is_severe in Hx.
    apply andb_true_iff in Hx as [Hx1%Nat.leb_le Hx2%bool_decide_eq_true]. done. }
  split; [exact Hst|]. destruct Hsev as [->|(Hc & He & _)].
  - split; [apply corrected_capped|by left].
  - apply to_elevate_spec in He as ((_ & Hs) & g & (Hg & Hgs) & Hi).
    destruct (Hsv r Hs Hr) as [Hm Hrank]. split; [done|]. right. split_and!; [done..|].
    unfold group, same_source in Hg. apply elem_of_source_filter in Hg as [Hg Hsrc].
    exists g. split_and!; [done| |by rewrite !Hd in Hsrc by done|by apply Hsv].
    intros ->. unfold interacts in Hi. by rewrite decide_True in Hi.
Qed.

Definition demo_finding (id loc : string) (sev : Severity.severity) (mit : list string) : Finding :=
  with_evidence [] mit (new_finding id loc "f" sev).

Definition demo_heap : heap :=
  <[0 := demo_finding "F1" "Vault.sol:withdraw" Severity.high []]>
  (<[1 := demo_finding "F2" "Vault.sol:deposit" Severity.high []]>
  (<[2 := demo_finding "F3" "Vault.sol:pause" Severity.critical ["onlyOwner"]]> ∅)).

Lemma demo_alloc : forall x, x ∈ [0; 1; 2; 0] -> is_Some (demo_heap !! x).
Proof. intros x Hx. repeat (apply elem_of_cons in Hx as [->|Hx]; [by eexists|]). by apply not_elem_of_nil in Hx. Defined.

Lemma run_stage3_pointwise_witness :
  (run_stage3 [0; 1; 2; 0] [] demo_heap).1 !! 0 =
  Some (with_combined ["F2"; "F3"] (demo_finding "F1" "Vault.sol:withdraw" Severity.critical [])).
Proof. rewrite (run_stage3_pointwise [] [0; 1; 2; 0] demo_heap demo_alloc 0). vm_compute. reflexivity. Defined.

Lemma stage3_severity_safety_witness : exists f', (run_stage3 [0; 1; 2; 0] [] demo_heap).1 !! 2 = Some f' /\
  (severity_rank (f_severity f') <= 2)%nat.
Proof.
  destruct (stage3_severity_safety [] [0; 1; 2; 0] demo_heap 2 demo_alloc) as (f' & Hf & _ & Hm & _).
  - by right; right; left.
  - exists f'. split; [exact Hf|]. apply Hm. done.
Defined.
