(* ===== verification/Session.v ===== *)
(** * Sessions, configuration and input validation

    audit_agent/session.py, audit_agent/config.py, audit_agent/input_val.py.  The
    pydantic models are records; a validator that raises is a function into [res].
    The principal is the kernel's type, a parameter. *)

From S2P Require Import Prelude PyStr PyRe PyPath Finding Stage1.

(** ** Models (session.py) *)

Section session.
Context {Principal : Type}.

Record AuditInput := mkInput {
  in_path : option path;
  in_address : option string;
  exclude_paths : list path;
  focus_files : list path;
  include_imports : bool;
  in_principal : Principal;
  resume_session_id : option string;
}.

(** [_source_present], run after every construction *)
Definition source_present (i : AuditInput) : res AuditInput :=
  match in_path i, in_address i with
  | None, None => Raise (Exn "ValueError" "At least one of 'path' or 'address' must be provided")
  | _, _ => Ok i
  end.

Record Checkpoint := mkCheckpoint {
  cp_stage : Z;
  cp_completed_at : string;
  cp_files_analyzed : list string;
  cp_finding_ids : list string;
  cp_high_priority_locations : list string;
  cp_skipped : list string;
  cp_source_type : string;
}.

Definition new_checkpoint (stage : Z) (now : string) : Checkpoint :=
  mkCheckpoint stage now [] [] [] [] "orchestrator".

Record AuditSession := mkSession {
  session_id : string;
  s_principal : Principal;
  audit_input : AuditInput;
  started_at : string;
  current_stage : Z;
  stage1_report : option Stage1Report;
  stage2_completed : list string;
  stage2_remaining : list string;
  stage3_completed : list string;
  finding_ids : list string;
  token_budget_used : Z;
  iterations : Z;
}.

(** [AuditSession(principal=..., audit_input=...)]: a fresh id, now, stage 1 *)
Definition new_session (uuid now : string) (p : Principal) (i : AuditInput) : AuditSession :=
  mkSession uuid p i now 1 None [] [] [] [] 0 0.

Definition add_finding_id (id : string) (s : AuditSession) : AuditSession :=
  mkSession (session_id s) (s_principal s) (audit_input s) (started_at s) (current_stage s)
    (stage1_report s) (stage2_completed s) (stage2_remaining s) (stage3_completed s)
    (finding_ids s ++ [id]) (token_budget_used s) (iterations s).

(** ** Input validation (input_val.py)

    [to_checksum_address] is eth_utils'. *)

Context (fs : FileSystem) (to_checksum_address : string -> res string).

Definition validation_error (msg : string) {A} : res A := Raise (Exn "InputValidationError" msg).

Definition resolve (p : path) : res path :=
  match fs_resolve_error fs p with Some e => Raise (Exn "OSError" e) | None => Ok (fs_resolve fs p) end.

Definition validate_filepath (p root_dir : path) : res path :=
  match (resolved ← resolve p; root_resolved ← resolve root_dir; Ok (resolved, root_resolved)) with
  | Raise e => validation_error ("Cannot resolve path " +:+ path_str p +:+ ": " +:+ exn_msg e)
  | Ok (resolved, root_resolved) =>
      if negb (fs_exists fs resolved) then validation_error ("Path does not exist: " +:+ path_str p)
      else if negb (is_relative_to resolved root_resolved) then
        validation_error ("Path '" +:+ path_str p +:+ "' escapes allowed root '" +:+ path_str root_dir +:+ "'")
      else Ok resolved
  end.

Definition is_hex (c : ascii) : bool := is_digit c || ascii_in 97 102 c || ascii_in 65 70 c.

(** ["^0x[0-9a-fA-F]{40}$"] *)
Definition EIP55_RE : re :=
  RSeq (RBol false) (RSeq (RStr "0x") (RSeq (RBetween 40 40 (RSet is_hex)) (REol false))).

Definition validate_eip55 (address : string) : res string :=
  if is_none (re_match EIP55_RE address) then
    validation_error ("Not a valid Ethereum address: " +:+ repr_str address)
  else
    match to_checksum_address address with
    | Raise e => validation_error ("Invalid EIP-55 address: " +:+ exn_msg e)
    | Ok checksummed =>
        if negb (String.eqb checksummed address) && negb (String.eqb address (lower address)) then
          validation_error ("Address fails EIP-55 checksum. Did you mean " +:+ checksummed +:+ "?")
        else Ok checksummed
    end.

Fixpoint check_excludes (audit_path : option path) (excl : list path) : res unit :=
  match excl with
  | [] => Ok tt
  | e :: excl' =>
      match audit_path with
      | Some ap =>
          if negb (is_relative_to e ap) then
            validation_error ("exclude_path '" +:+ path_str e +:+ "' is not under audit path '" +:+ path_str ap +:+ "'")
          else check_excludes audit_path excl'
      | None => check_excludes audit_path excl'
      end
  end.

Definition validate_audit_input (i : AuditInput) (audit_root : path) : res unit :=
  _ ← match in_path i with
      | Some p =>
          resolved ← validate_filepath p audit_root;
          match fs_rglob_sol fs resolved with
          | [] => validation_error ("No .sol files found under " +:+ path_str p)
          | _ => Ok tt
          end
      | None => Ok tt
      end;
  _ ← match in_address i with
      | Some a => _ ← validate_eip55 a; Ok tt
      | None => Ok tt
      end;
  check_excludes (in_path i) (exclude_paths i).

(** ** Properties of the gate *)

Lemma validate_filepath_Ok p root q :
  validate_filepath p root = Ok q <->
  fs_resolve_error fs p = None /\ fs_resolve_error fs root = None /\ q = fs_resolve fs p /\
  fs_exists fs q = true /\ is_relative_to q (fs_resolve fs root) = true.
Proof.
  unfold validate_filepath, resolve.
  destruct (fs_resolve_error fs p), (fs_resolve_error fs root); cbn; try (split; [done|by intros (?&?&?)]).
  destruct (fs_exists fs _) eqn:He; cbn; [|split; [done|intros (_&_&->&?&_); congruence]].
  destruct (is_relative_to _ _) eqn:Hr; cbn; [|split; [done|intros (_&_&->&_&?); congruence]].
  split; [by intros [= <-]|by intros (_&_&->&_)].
Qed.

Lemma validate_eip55_Ok a c :
  validate_eip55 a = Ok c <->
  is_Some (re_match EIP55_RE a) /\ to_checksum_address a = Ok c /\ (c = a \/ a = lower a).
Proof.
  unfold validate_eip55. destruct (re_match EIP55_RE a) eqn:Hm; cbn; [|by split; [|intros ([? ?]&_)]].
  destruct (to_checksum_address a) as [c'|e] eqn:Hc; [|by split; [|intros (_&?&_)]].
  destruct (String.eqb_spec c' a) as [->|Hne], (String.eqb_spec a (lower a)) as [Hl|Hl]; cbn.
  all: split; [intros [=]; subst; eauto|intros (_ & [= ->] & [?|?]); congruence].
Qed.

Lemma check_excludes_Ok ap excl :
  check_excludes ap excl = Ok tt <->
  forall p e, ap = Some p -> e ∈ excl -> exists rest, e = p ++ rest.
Proof.
  induction excl as [|x excl IH]; cbn [check_excludes].
  { split; [|done]. by intros _ p e _ ?%not_elem_of_nil. }
  destruct ap as [p|]; [|rewrite IH; split; [done|by intros]].
  destruct (is_relative_to x p) eqn:Hx; cbn.
  - apply is_relative_to_spec in Hx. rewrite IH. setoid_rewrite elem_of_cons. naive_solver.
  - split; [done|]. intros H. apply not_true_iff_false in Hx as []. apply is_relative_to_spec, (H p x); [done|left].
Qed.

Lemma validate_filepath_raises p root e :
  validate_filepath p root = Raise e -> exn_class e = "InputValidationError".
Proof.
  unfold validate_filepath. destruct (_ ≫= _) as [[q r]|]; [|by intros [= <-]].
  destruct (negb (fs_exists fs q)); [by intros [= <-]|].
  destruct (negb (is_relative_to q r)); [by intros [= <-]|done].
Qed.

Lemma validate_eip55_raises a e : validate_eip55 a = Raise e -> exn_class e = "InputValidationError".
Proof.
  unfold validate_eip55. destruct (is_none _); [by intros [= <-]|].
  destruct (to_checksum_address a); [|by intros [= <-]]. destruct (_ && _); [by intros [= <-]|done].
Qed.

Lemma check_excludes_raises ap l e : check_excludes ap l = Raise e -> exn_class e = "InputValidationError".
Proof.
  induction l as [|x l IH]; cbn [check_excludes]; [done|].
  destruct ap; [|exact IH]. destruct (negb _); [by intros [= <-]|exact IH].
Qed.

(** The gate accepts an input exactly when its path, if given, resolves to an
    existing place inside the audit root holding a .sol file, its address, if
    given, has the shape of an address, is known to eth_utils and is either
    checksummed or all lower case, and every excluded path is under the audit
    path; it raises nothing but InputValidationError otherwise. *)
Theorem validate_audit_input_gate (i : AuditInput) root :
  (validate_audit_input i root = Ok tt <->
   (forall p, in_path i = Some p ->
      fs_resolve_error fs p = None /\ fs_resolve_error fs root = None /\
      fs_exists fs (fs_resolve fs p) = true /\
      (exists rest, fs_resolve fs p = fs_resolve fs root ++ rest) /\
      fs_rglob_sol fs (fs_resolve fs p) <> []) /\
   (forall a, in_address i = Some a ->
      exists c, is_Some (re_match EIP55_RE a) /\ to_checksum_address a = Ok c /\ (c = a \/ a = lower a)) /\
   (forall p e, in_path i = Some p -> e ∈ exclude_paths i -> exists rest, e = p ++ rest)) /\
  (forall e, validate_audit_input i root = Raise e -> exn_class e = "InputValidationError").
Proof.
  split.
  - unfold validate_audit_input. rewrite res_bind_Ok. setoid_rewrite res_bind_Ok. split.
    + intros ([] & Hp & [] & Ha & He). pose proof (proj1 (check_excludes_Ok _ _) He) as He'. split_and!; [| |done].
      * intros p Hip. rewrite Hip, res_bind_Ok in Hp. destruct Hp as (q & Hq%validate_filepath_Ok & Hs).
        destruct Hq as (? & ? & -> & ? & Hrel). split_and!; [done..| |by intros Hn; rewrite Hn in Hs].
        by apply is_relative_to_spec.
      * intros a Hia. rewrite Hia, res_bind_Ok in Ha. destruct Ha as (c & Hc%validate_eip55_Ok & _). eauto.
    + intros (Hp & Ha & He). exists tt. split; [|exists tt; split; [|by apply check_excludes_Ok]].
      * destruct (in_path i) as [p|]; [|done]. destruct (Hp p eq_refl) as (?&?&?&?&Hs).
        rewrite res_bind_Ok. exists (fs_resolve fs p). rewrite validate_filepath_Ok.
        split; [split_and!; [done..|by apply is_relative_to_spec]|by destruct (fs_rglob_sol fs _)].
      * destruct (in_address i) as [a|]; [|done]. destruct (Ha a eq_refl) as (c&?&?&?).
        rewrite res_bind_Ok. exists c. by rewrite validate_eip55_Ok.
  - intros e. unfold validate_audit_input.
    intros [Hp|(? & _ & [Ha|(? & _ & He)]%bind_raises)]%bind_raises.
    + destruct (in_path i); [|done]. apply bind_raises in Hp as [Hp|(q & _ & Hp)]; [by eapply validate_filepath_raises|].
      destruct (fs_rglob_sol fs q); [by injection Hp as <-|done].
    + destruct (in_address i); [|done].
      apply bind_raises in Ha as [Ha|(q & _ & Ha)]; [by eapply validate_eip55_raises|done].
    + by eapply check_excludes_raises.
Qed.
End session.

(** ** Configuration (config.py)

    [os.environ] is a finite map; the kernel configuration is an opaque object read
    through its attribute lookup.  Attribute values are strings, paths rendered. *)

Module Config.

Definition environ : Type := gmap string string.
Definition getenv (env : environ) (k dflt : string) : string := default dflt (env !! k).

Definition default_model_roles (env : environ) : list (string * string) :=
  [("stage1", getenv env "SR_STAGE1_MODEL" "claude-opus-4-8");
   ("stage2", getenv env "SR_STAGE2_MODEL" "sr-stage2");
   ("stage3", getenv env "SR_STAGE3_MODEL" "claude-opus-4-8");
   ("poc", getenv env "SR_POC_MODEL" "qwen3-coder")].

Record AuditConfig := mkConfig {
  kernel : string -> res string;
  alchemy_api_key : string;
  tenderly_api_key : string;
  workspaces_root : path;
  git_token : string;
  smartgraphical_root : string;
  chat_tool_timeout_s : string;
  model_roles : list (string * string);
}.

Definition load_audit_config (env : environ) (tmpdir : path) (kernel_config : string -> res string)
    (kernel_arg : option (string -> res string)) : AuditConfig :=
  mkConfig (default kernel_config kernel_arg)
    (getenv env "ALCHEMY_API_KEY" "")
    (getenv env "TENDERLY_API_KEY" "")
    (to_path (getenv env "SR_WORKSPACES_ROOT" (path_str (tmpdir ++ ["sr-agent-workspaces"]))))
    (getenv env "GITHUB_TOKEN" "")
    (getenv env "SR_SMARTGRAPHICAL_ROOT" "")
    "30.0"
    (default_model_roles env).

(** The instance's own scalar fields, found before [__getattr__] runs *)
Definition own_attr (c : AuditConfig) (name : string) : option string :=
  assoc name
    [("alchemy_api_key", alchemy_api_key c); ("tenderly_api_key", tenderly_api_key c);
     ("workspaces_root", path_str (workspaces_root c)); ("git_token", git_token c);
     ("smartgraphical_root", smartgraphical_root c); ("chat_tool_timeout_s", chat_tool_timeout_s c)].

(** [config.name]: an own field, else delegated to the kernel configuration *)
Definition getattr (c : AuditConfig) (name : string) : res string :=
  match own_attr c name with Some v => Ok v | None => kernel c name end.

End Config.
