(* ===== verification/Report.v ===== *)
(** * Report generation (audit_agent/report.py)

    The findings are the payloads stored in memory: the fields of [Finding], any of
    which may be missing, and the optional notes.  A missing key is [None]. *)

From S2P Require Import Prelude PyStr Finding Stage1.

Record FindingPayload := mkPayload {
  p_finding_id : option string;
  p_severity : option string;
  p_location : option string;
  p_function_name : option string;
  p_status : option string;
  p_bastet_tag : option string;
  p_engine : option string;
  p_notes : option string;
  p_notes_flags : list string;
  p_mitigations_present : list string;
  p_combined_with : list string;
}.

Definition SEVERITY_ORDER : list string := ["critical"; "high"; "medium"; "low"; "informational"].
Definition UNVERIFIED_STATUSES : list string := ["unverified"; "mock_review"].
Definition HIDDEN_STATUSES : list string := ["false_positive"].

(** [SEVERITY_ORDER.index(severity)], [len(SEVERITY_ORDER)] on a ValueError *)
Fixpoint index_of (x : string) (l : list string) : nat :=
  match l with [] => 0 | y :: l' => if String.eqb x y then 0 else S (index_of x l') end.
Definition rank (severity : string) : nat := index_of severity SEVERITY_ORDER.

Definition opt_line (o : option string) (label : string) : list string :=
  match o with Some v => if truthy v then [label +:+ v] else [] | None => [] end.
Definition list_line (l : list string) (label : string) : list string :=
  match l with [] => [] | _ => [label +:+ join ", " l] end.

Definition render_finding (f : FindingPayload) : list string :=
  let fid := default "?" (p_finding_id f) in
  let severity := default "?" (p_severity f) in
  let location := default "?" (p_location f) in
  let func := default "?" (p_function_name f) in
  let notes := strip (default "" (p_notes f)) in
  ["### [" +:+ upper severity +:+ "] " +:+ fid +:+ " — `" +:+ func +:+ "`"; "";
   "- **Location**: " +:+ location]
  ++ opt_line (p_engine f) "- **Engine**: "
  ++ opt_line (p_bastet_tag f) "- **Category**: "
  ++ list_line (p_mitigations_present f) "- **Mitigations present**: "
  ++ list_line (p_combined_with f) "- **Combined with**: "
  ++ list_line (p_notes_flags f) "- **Sanitizer flags**: "
  ++ (if truthy notes then [""; notes] else [])
  ++ [""].

Definition status_of (f : FindingPayload) : string := default "open" (p_status f).
Definition severity_of (f : FindingPayload) : string := default "" (p_severity f).
Definition is_hidden (f : FindingPayload) : bool := bool_decide (status_of f ∈ HIDDEN_STATUSES).
Definition is_unverified (f : FindingPayload) : bool := bool_decide (status_of f ∈ UNVERIFIED_STATUSES).

(** The sort key [(_rank(severity), finding_id)] *)
Definition payload_leb (f g : FindingPayload) : bool :=
  if (rank (severity_of f) =? rank (severity_of g))%nat
  then str_leb (default "" (p_finding_id f)) (default "" (p_finding_id g))
  else (rank (severity_of f) <? rank (severity_of g))%nat.

Definition visible (findings : list FindingPayload) : list FindingPayload :=
  List.filter (fun f => negb (is_hidden f)) findings.
Definition main_findings (findings : list FindingPayload) : list FindingPayload :=
  py_sort payload_leb (List.filter (fun f => negb (is_unverified f)) (visible findings)).
Definition unverified_findings (findings : list FindingPayload) : list FindingPayload :=
  py_sort payload_leb (List.filter is_unverified (visible findings)).

(** [counts]: initialised to zero for each severity, bumped per main finding *)
Definition bump (counts : list (string * nat)) (f : FindingPayload) : list (string * nat) :=
  match assoc (severity_of f) counts with
  | Some n => assoc_set (severity_of f) (S n) counts
  | None => counts
  end.
Definition severity_counts (main : list FindingPayload) : list (string * nat) :=
  fold_left bump main (map (fun s => (s, 0)) SEVERITY_ORDER).

(** [datetime.isoformat(timespec="seconds")] of an aware UTC timestamp *)
Record utc_time := mkUtc { year : nat; month : nat; day : nat; hour : nat; minute : nat; second : nat }.
Definition isoformat (t : utc_time) : string :=
  pad_to 4 (year t) +:+ "-" +:+ pad_to 2 (month t) +:+ "-" +:+ pad_to 2 (day t) +:+ "T" +:+
  pad_to 2 (hour t) +:+ ":" +:+ pad_to 2 (minute t) +:+ ":" +:+ pad_to 2 (second t) +:+ "+00:00".

Definition coverage_section (stage1 : option Stage1Report) : list string :=
  match stage1 with
  | Some r =>
      let analyzed := priority_targets r in
      let skipped := skipped_targets r in
      ["**Analyzed (" +:+ pretty (length analyzed) +:+ ")**: prioritized red-flag targets"]
      ++ map (fun t => "- " +:+ t) analyzed ++ [""]
      ++ ["**Not analyzed (" +:+ pretty (length skipped) +:+ ")**: no red-flag signal"]
      ++ map (fun t => "- " +:+ t) skipped ++ [""]
  | None => ["_Coverage data unavailable._"; ""]
  end.

Definition report_lines (project_id : string) (findings : list FindingPayload)
    (stage1 : option Stage1Report) (generated_at : utc_time) (combinations : list string) : list string :=
  let main := main_findings findings in
  let unverified := unverified_findings findings in
  let counts := severity_counts main in
  ["# Security Audit — " +:+ project_id; "";
   "_Generated " +:+ isoformat generated_at +:+ "_"; "";
   "## Summary"; ""]
  ++ ["| Severity | Count |"; "|---|---|"]
  ++ map (fun sev => "| " +:+ capitalize sev +:+ " | " +:+ pretty (default 0 (assoc sev counts)) +:+ " |")
       SEVERITY_ORDER
  ++ [""]
  ++ ["## Findings"; ""]
  ++ match main with [] => ["_No confirmed findings._"; ""] | _ => List.concat (map render_finding main) end
  ++ match unverified with
     | [] => []
     | _ => ["## Unverified Findings"; "";
             "_Reported by analysis but not yet verified; treat as leads._"; ""]
            ++ List.concat (map render_finding unverified)
     end
  ++ match combinations with
     | [] => []
     | _ => ["## Combination Chains"; ""] ++ map (fun c => "- " +:+ c) combinations ++ [""]
     end
  ++ ["## Coverage"; ""]
  ++ coverage_section stage1.

(** [generate_report], with [generated_at or datetime.now(timezone.utc)] *)
Definition generate_report (now : utc_time) (project_id : string) (findings : list FindingPayload)
    (stage1 : option Stage1Report) (generated_at : option utc_time)
    (combinations : option (list string)) : string :=
  unlines (report_lines project_id findings stage1 (default now generated_at) (default [] combinations)).

(** ** Properties *)

Lemma payload_leb_total f g : payload_leb f g = true \/ payload_leb g f = true.
Proof.
  unfold payload_leb. rewrite (Nat.eqb_sym (rank (severity_of g))).
  destruct (Nat.eqb_spec (rank (severity_of f)) (rank (severity_of g))); [apply str_leb_total|].
  rewrite !Nat.ltb_lt. lia.
Qed.

Lemma payload_leb_trans f g h :
  payload_leb f g = true -> payload_leb g h = true -> payload_leb f h = true.
Proof.
  unfold payload_leb.
  destruct (Nat.eqb_spec (rank (severity_of f)) (rank (severity_of g))) as [E1|E1],
    (Nat.eqb_spec (rank (severity_of g)) (rank (severity_of h))) as [E2|E2],
    (Nat.eqb_spec (rank (severity_of f)) (rank (severity_of h))) as [E3|E3];
    rewrite ?Nat.ltb_lt; try lia. apply str_leb_trans.
Qed.

Lemma filter_negb_perm {A} (p : A -> bool) l :
  List.filter (fun x => negb (p x)) l ++ List.filter p l ≡ₚ l.
Proof.
  induction l as [|x l IH]; [done|]. cbn. destruct (p x); cbn.
  - rewrite <- Permutation_middle. by f_equiv.
  - by f_equiv.
Qed.

Definition count_severity (s : string) (l : list FindingPayload) : nat :=
  length (List.filter (fun f => String.eqb (severity_of f) s) l).

Lemma bump_fold l counts s :
  assoc s (fold_left bump l counts) = (fun n => n + count_severity s l) <$> assoc s counts.
Proof.
  revert counts. induction l as [|f l IH]; intros counts; cbn [fold_left].
  - destruct (assoc s counts); cbn; [f_equal; lia|done].
  - rewrite IH. unfold bump, count_severity. cbn [List.filter].
    destruct (String.eqb_spec (severity_of f) s) as [->|Hne].
    + destruct (assoc s counts) as [n|] eqn:E; [rewrite assoc_set_eq; cbn; f_equal; lia|by rewrite E].
    + destruct (assoc (severity_of f) counts) eqn:E; [by rewrite assoc_set_ne|done].
Qed.

Lemma severity_counts_spec l s :
  s ∈ SEVERITY_ORDER -> assoc s (severity_counts l) = Some (count_severity s l).
Proof.
  intros Hs. unfold severity_counts. rewrite bump_fold.
  repeat (apply elem_of_cons in Hs as [->|Hs]; [done|]). by apply not_elem_of_nil in Hs.
Qed.

(** The report loses and invents nothing: the two sections are a permutation of
    the findings that are not false positives, each in severity-first order with
    ties by id; unverified ones are apart; and each row of the summary table is the
    number of confirmed-section findings of that severity. *)
Theorem report_partition (findings : list FindingPayload) :
  main_findings findings ++ unverified_findings findings ≡ₚ visible findings /\
  (forall f, f ∈ visible findings <-> f ∈ findings /\ status_of f <> "false_positive") /\
  StronglySorted (fun f g => payload_leb f g = true) (main_findings findings) /\
  StronglySorted (fun f g => payload_leb f g = true) (unverified_findings findings) /\
  (forall f, f ∈ unverified_findings findings <->
     f ∈ findings /\ (status_of f = "unverified" \/ status_of f = "mock_review")) /\
  (forall s, s ∈ SEVERITY_ORDER ->
     assoc s (severity_counts (main_findings findings)) = Some (count_severity s (main_findings findings))).
Proof.
  assert (forall f, f ∈ visible findings <-> f ∈ findings /\ status_of f <> "false_positive") as Hv.
  { intros f. unfold visible, is_hidden. rewrite list_elem_of_In, filter_In, <- list_elem_of_In, negb_true_iff,
      bool_decide_eq_false. set_solver. }
  split_and!.
  - unfold main_findings, unverified_findings. rewrite !py_sort_perm. apply filter_negb_perm.
  - exact Hv.
  - apply py_sort_sorted; [apply payload_leb_total|apply payload_leb_trans].
  - apply py_sort_sorted; [apply payload_leb_total|apply payload_leb_trans].
  - intros f. unfold unverified_findings. rewrite elem_of_py_sort, list_elem_of_In, filter_In,
      <- list_elem_of_In, Hv. unfold is_unverified, UNVERIFIED_STATUSES. rewrite bool_decide_eq_true.
    rewrite !elem_of_cons, elem_of_nil. split; [naive_solver|].
    intros [Hf [Hs|Hs]]; rewrite Hs; naive_solver.
  - intros s. apply severity_counts_spec.
Qed.
