(* ===== verification/PyJson.v ===== *)
(** * json.loads and json.dumps

    The decoder of the standard library, on UTF-8 text, into [pyval], and the
    encoder with [indent=2].  The decoder recurses with fuel, the length of the
    text: every recursive call has consumed a character.  [loads] is [None] where
    Python raises JSONDecodeError. *)

From S2P Require Import Prelude PyStr PyVal PyNum.

Definition is_json_ws (c : ascii) : bool :=
  Ascii.eqb c " "%char || Ascii.eqb c "009"%char || Ascii.eqb c nl || Ascii.eqb c cr.

Fixpoint skip_ws (s : string) : string :=
  match s with
  | String c s' => if is_json_ws c then skip_ws s' else s
  | "" => ""
  end.

(** ** Strings *)

Definition hex_val (c : ascii) : option N :=
  if is_digit c then Some (N_of_ascii c - 48)%N
  else if ascii_in 97 102 c then Some (N_of_ascii c - 87)%N
  else if ascii_in 65 70 c then Some (N_of_ascii c - 55)%N
  else None.

Definition hex4 (a b c d : ascii) : option N :=
  x ← hex_val a; y ← hex_val b; z ← hex_val c; w ← hex_val d;
  Some (((x * 16 + y) * 16 + z) * 16 + w)%N.

(** The UTF-8 encoding of a code point *)
Definition utf8 (n : N) : string :=
  let b (k : N) := ascii_of_N k in
  if (n <? 128)%N then String (b n) ""
  else if (n <? 2048)%N then String (b (192 + n / 64)%N) (String (b (128 + n mod 64)%N) "")
  else if (n <? 65536)%N then
    String (b (224 + n / 4096)%N) (String (b (128 + (n / 64) mod 64)%N) (String (b (128 + n mod 64)%N) ""))
  else
    String (b (240 + n / 262144)%N) (String (b (128 + (n / 4096) mod 64)%N)
      (String (b (128 + (n / 64) mod 64)%N) (String (b (128 + n mod 64)%N) ""))).

Definition is_high (n : N) : bool := (55296 <=? n)%N && (n <? 56320)%N.
Definition is_low (n : N) : bool := (56320 <=? n)%N && (n <? 57344)%N.

Definition simple_escape (c : ascii) : option ascii :=
  if Ascii.eqb c "034"%char then Some "034"%char
  else if Ascii.eqb c "\"%char then Some "\"%char
  else if Ascii.eqb c "/"%char then Some "/"%char
  else if Ascii.eqb c "b"%char then Some "008"%char
  else if Ascii.eqb c "f"%char then Some "012"%char
  else if Ascii.eqb c "n"%char then Some nl
  else if Ascii.eqb c "r"%char then Some cr
  else if Ascii.eqb c "t"%char then Some "009"%char
  else None.

(** A string body up to its closing quote; [hi] is a high surrogate just read,
    waiting for the low one. *)
Definition flush (hi : option N) (s : string) : string :=
  match hi with Some h => utf8 h +:+ s | None => s end.

Fixpoint parse_string (hi : option N) (s : string) : option (string * string) :=
  match s with
  | "" => None
  | String c s1 =>
      if Ascii.eqb c "034"%char then Some (flush hi "", s1)
      else if Ascii.eqb c "\"%char then
        match s1 with
        | String "u" (String a (String b (String d (String e s2)))) =>
            n ← hex4 a b d e;
            match hi with
            | Some h =>
                if is_low n then
                  p ← parse_string None s2;
                  Some (utf8 (65536 + (h - 55296) * 1024 + (n - 56320))%N +:+ fst p, snd p)
                else if is_high n then
                  p ← parse_string (Some n) s2; Some (utf8 h +:+ fst p, snd p)
                else p ← parse_string None s2; Some (utf8 h +:+ utf8 n +:+ fst p, snd p)
            | None =>
                if is_high n then parse_string (Some n) s2
                else p ← parse_string None s2; Some (utf8 n +:+ fst p, snd p)
            end
        | String e s2 =>
            x ← simple_escape e; p ← parse_string None s2; Some (flush hi (String x (fst p)), snd p)
        | "" => None
        end
      else if ascii_in 0 31 c then None
      else p ← parse_string None s1; Some (flush hi (String c (fst p)), snd p)
  end.

(** ** Numbers *)

Fixpoint span_digits (s : string) : string * string :=
  match s with
  | String c s' => if is_digit c then let '(d, r) := span_digits s' in (String c d, r) else ("", s)
  | "" => ("", "")
  end.

(** An integer literal: a zero, or digits not starting with a zero *)
Definition int_part (s : string) : option (string * string) :=
  match s with
  | String c s' => if Ascii.eqb c "0" then Some ("0", s') else if is_digit c then Some (span_digits s) else None
  | "" => None
  end.

(** The optional fraction *)
Definition frac_part (s : string) : string * string :=
  match s with
  | String c s' =>
      if Ascii.eqb c "." then let '(d, r) := span_digits s' in if truthy d then (String c d, r) else ("", s) else ("", s)
  | "" => ("", "")
  end.

(** The optional exponent *)
Definition exp_part (s : string) : string * string :=
  match s with
  | String c s' =>
      if Ascii.eqb c "e" || Ascii.eqb c "E" then
        let '(sg, t) := match s' with
                        | String g s'' => if Ascii.eqb g "+" || Ascii.eqb g "-" then (String g "", s'') else ("", s')
                        | "" => ("", "")
                        end in
        let '(d, r) := span_digits t in
        if truthy d then (String c (sg +:+ d), r) else ("", s)
      else ("", s)
  | "" => ("", "")
  end.

(** The [repr] of the float a literal denotes *)
Definition float_text (l : string) : string := float_repr (default S754_nan (py_float l)).

(** A number after its sign *)
Definition parse_signed (neg : bool) (body : string) : option (pyval * string) :=
  p ← int_part body;
  let '(ip, r1) := p in
  let '(fp, r2) := frac_part r1 in
  let '(ep, r3) := exp_part r2 in
  if truthy fp || truthy ep then
    Some (PFloat (float_text ((if neg then "-" else "") +:+ ip +:+ fp +:+ ep)), r3)
  else Some (PInt (let z := digits_val 0 ip in if neg then - z else z)%Z, r3).

Definition parse_number (s : string) : option (pyval * string) :=
  match s with
  | String c s' => if Ascii.eqb c "-" then parse_signed true s' else parse_signed false s
  | "" => None
  end.

(** ** Values *)

Definition literals : list (string * pyval) :=
  [("null", PNone); ("true", PBool true); ("false", PBool false); ("NaN", PFloat "nan");
   ("Infinity", PFloat "inf"); ("-Infinity", PFloat "-inf")].

Fixpoint parse_literal (l : list (string * pyval)) (s : string) : option (pyval * string) :=
  match l with
  | [] => parse_number s
  | (w, v) :: l' => match drop_prefix w s with Some r => Some (v, r) | None => parse_literal l' s end
  end.

(** The rest of the text after the character [c], when it starts with it *)
Definition eat (c : ascii) (s : string) : option string :=
  match s with String d r => if Ascii.eqb c d then Some r else None | "" => None end.

(** [parse_elems] reads the elements of a non-empty list, [parse_members] the
    members of a non-empty object, the closing bracket included. *)
Fixpoint parse_value (fuel : nat) (s : string) : option (pyval * string) :=
  match fuel with
  | 0 => None
  | S fuel =>
      match s with
      | "" => None
      | String c s' =>
          if Ascii.eqb c "034"%char then p ← parse_string None s'; Some (PStr (fst p), snd p)
          else if Ascii.eqb c "[" then
            match eat "]" (skip_ws s') with
            | Some r => Some (PList [], r)
            | None => p ← parse_elems fuel (skip_ws s'); Some (PList (fst p), snd p)
            end
          else if Ascii.eqb c "{" then
            match eat "}" (skip_ws s') with
            | Some r => Some (PDict [], r)
            | None => p ← parse_members fuel [] (skip_ws s'); Some (PDict (fst p), snd p)
            end
          else parse_literal literals s
      end
  end
with parse_elems (fuel : nat) (s : string) : option (list pyval * string) :=
  match fuel with
  | 0 => None
  | S fuel =>
      p ← parse_value fuel s;
      match skip_ws (snd p) with
      | String "]" r => Some ([fst p], r)
      | String "," r => q ← parse_elems fuel (skip_ws r); Some (fst p :: fst q, snd q)
      | _ => None
      end
  end
with parse_members (fuel : nat) (acc : list (string * pyval)) (s : string)
    : option (list (string * pyval) * string) :=
  match fuel with
  | 0 => None
  | S fuel =>
      match s with
      | String q s' =>
          if Ascii.eqb q "034"%char then
            k ← parse_string None s';
            match skip_ws (snd k) with
            | String ":" r =>
                v ← parse_value fuel (skip_ws r);
                let acc' := assoc_set (fst k) (fst v) acc in
                match skip_ws (snd v) with
                | String "}" r' => Some (acc', r')
                | String "," r' => parse_members fuel acc' (skip_ws r')
                | _ => None
                end
            | _ => None
            end
          else None
      | "" => None
      end
  end.

(** [json.loads(text)] *)
Definition loads (text : string) : option pyval :=
  p ← parse_value (2 * String.length text + 2) (skip_ws text);
  match skip_ws (snd p) with "" => Some (fst p) | _ => None end.

(** ** The encoder *)

(** The code points of a UTF-8 text; a malformed byte stands for itself. *)
Fixpoint decode_utf8 (s : string) : list N :=
  match s with
  | "" => []
  | String c s1 =>
      let n := N_of_ascii c in
      let low (d : ascii) := (N_of_ascii d - 128)%N in
      if (n <? 192)%N then n :: decode_utf8 s1
      else match s1 with
      | String d s2 =>
          if (n <? 224)%N then ((n - 192) * 64 + low d)%N :: decode_utf8 s2
          else match s2 with
          | String e s3 =>
              if (n <? 240)%N then ((n - 224) * 4096 + low d * 64 + low e)%N :: decode_utf8 s3
              else match s3 with
              | String f s4 => ((n - 240) * 262144 + low d * 4096 + low e * 64 + low f)%N :: decode_utf8 s4
              | "" => [n]
              end
          | "" => [n]
          end
      | "" => [n]
      end
  end.

Definition hex_nibble (n : N) : ascii := hex_digit (N.to_nat (n mod 16)).
Definition u_escape (n : N) : string :=
  "\u" +:+ String (hex_nibble (n / 4096)) (String (hex_nibble (n / 256)) (String (hex_nibble (n / 16))
    (String (hex_nibble n) ""))).

(** One code point of [json.dumps] with [ensure_ascii] *)
Definition dump_cp (n : N) : string :=
  if (n =? 34)%N then "\" +:+ dquote
  else if (n =? 92)%N then "\\"
  else if (n =? 10)%N then "\n" else if (n =? 13)%N then "\r" else if (n =? 9)%N then "\t"
  else if (n =? 12)%N then "\f" else if (n =? 8)%N then "\b"
  else if (32 <=? n)%N && (n <=? 126)%N then String (ascii_of_N n) ""
  else if (n <? 65536)%N then u_escape n
  else let v := (n - 65536)%N in u_escape (55296 + v / 1024) +:+ u_escape (56320 + v mod 1024).

Definition dump_string (s : string) : string :=
  dquote +:+ foldr (fun n acc => dump_cp n +:+ acc) dquote (decode_utf8 s).

Fixpoint newline_indent (level : nat) : string :=
  match level with 0 => nls | S l => newline_indent l +:+ "  " end.

(** What can follow a number *)
Definition no_number (rest : string) : bool :=
  match rest with String c _ => negb (is_digit c || Ascii.eqb c "." || Ascii.eqb c "e" || Ascii.eqb c "E" || Ascii.eqb c "+" || Ascii.eqb c "-") | "" => true end.

(** The white space of an encoding: after an opening bracket, after a comma and
    before a closing bracket. *)
Record layout := mkLayout {
  l_open : nat -> string;
  l_sep : nat -> string;
  l_close : nat -> string;
  l_colon : string;
  l_open_ws level t : skip_ws (l_open level +:+ t) = skip_ws t;
  l_sep_ws level t : skip_ws (l_sep level +:+ t) = skip_ws t;
  l_close_ws level t : skip_ws (l_close level +:+ t) = skip_ws t;
  l_colon_ws t : skip_ws (l_colon +:+ t) = skip_ws t;
  l_close_stop level t : no_number t = true -> no_number (l_close level +:+ t) = true;
}.

#[local] Arguments String.append !_ _ / : simpl nomatch.

Lemma skip_ws_indent level t : skip_ws (newline_indent level +:+ t) = skip_ws t.
Proof. revert t. induction level as [|l IH]; intros t; [reflexivity|]. cbn [newline_indent]. by rewrite sapp_assoc, IH. Qed.

Lemma newline_indent_stop level t : no_number (newline_indent level +:+ t) = true.
Proof. revert t. induction level as [|l IH]; intros t; [reflexivity|]. cbn [newline_indent]. by rewrite sapp_assoc, IH. Qed.

(** [indent=2], the default separators, and [separators=(",", ":")] *)
Definition indented : layout :=
  mkLayout (fun l => newline_indent (S l)) (fun l => newline_indent (S l)) newline_indent " "
    (fun l => skip_ws_indent (S l)) (fun l => skip_ws_indent (S l)) skip_ws_indent (fun _ => eq_refl) (fun l t _ => newline_indent_stop l t).
Definition one_line : layout :=
  mkLayout (fun _ => "") (fun _ => " ") (fun _ => "") " "
    (fun _ _ => eq_refl) (fun _ _ => eq_refl) (fun _ _ => eq_refl) (fun _ => eq_refl) (fun _ _ H => H).
Definition compact : layout :=
  mkLayout (fun _ => "") (fun _ => "") (fun _ => "") ""
    (fun _ _ => eq_refl) (fun _ _ => eq_refl) (fun _ _ => eq_refl) (fun _ => eq_refl) (fun _ _ H => H).

(** *** Numbers are read up to what follows them *)

Lemma span_digits_app s rest : no_number rest = true ->
  span_digits (s +:+ rest) = ((span_digits s).1, (span_digits s).2 +:+ rest).
Proof.
  intros Hr. induction s as [|c s IH]; cbn [span_digits String.append].
  - destruct rest as [|c rest]; [done|]. cbn in Hr |- *. by destruct (is_digit c).
  - destruct (is_digit c); [|done]. rewrite IH. by destruct (span_digits s).
Qed.

Lemma int_part_app s ip r rest : no_number rest = true -> int_part s = Some (ip, r) -> int_part (s +:+ rest) = Some (ip, r +:+ rest).
Proof.
  intros Hr. destruct s as [|c s]; [done|]. unfold int_part. change (String c s +:+ rest) with (String c (s +:+ rest)). cbv iota.
  destruct (Ascii.eqb c "0"); [by intros [= <- <-]|]. destruct (is_digit c) eqn:Hd; [|done].
  change (String c (s +:+ rest)) with (String c s +:+ rest). rewrite span_digits_app by done. destruct (span_digits (String c s)). by intros [= <- <-].
Qed.

Lemma frac_part_app s rest : no_number rest = true -> frac_part (s +:+ rest) = ((frac_part s).1, (frac_part s).2 +:+ rest).
Proof.
  intros Hr. destruct s as [|c s]; cbn [String.append frac_part].
  - destruct rest as [|c rest]; [done|]. cbn in Hr |- *. by destruct (Ascii.eqb c "."), (is_digit c).
  - destruct (Ascii.eqb c "."); [|done]. rewrite span_digits_app by done. destruct (span_digits s) as [d r]. by destruct d.
Qed.

(** The digits of an exponent, after its letter and its sign *)
Definition exp_digits (c : ascii) (sg t u : string) : string * string :=
  let '(d, r) := span_digits t in if truthy d then (String c (sg +:+ d), r) else ("", u).

Lemma exp_digits_app c sg t u rest : no_number rest = true ->
  exp_digits c sg (t +:+ rest) (u +:+ rest) = ((exp_digits c sg t u).1, (exp_digits c sg t u).2 +:+ rest).
Proof. intros Hr. unfold exp_digits. rewrite span_digits_app by done. destruct (span_digits t) as [d r]. by destruct d. Qed.

Lemma exp_part_app s rest : no_number rest = true -> exp_part (s +:+ rest) = ((exp_part s).1, (exp_part s).2 +:+ rest).
Proof.
  intros Hr. destruct s as [|c s]; cbn [String.append exp_part].
  - destruct rest as [|c rest]; [done|]. cbn in Hr |- *.
    destruct (Ascii.eqb c "e"), (Ascii.eqb c "E"), (is_digit c), (Ascii.eqb c "."); done.
  - destruct (_ || _); [|done]. destruct s as [|g s]; cbn [String.append].
    + destruct rest as [|g rest]; [done|]. pose proof Hr as Hr'. cbn in Hr.
      destruct (Ascii.eqb g "+") eqn:Hp; [by rewrite !orb_true_r in Hr|]. destruct (Ascii.eqb g "-") eqn:Hm; [by rewrite !orb_true_r in Hr|].
      cbn [orb]. exact (exp_digits_app c "" "" (String c "") (String g rest) Hr').
    + destruct (_ || _).
      * exact (exp_digits_app c (String g "") s (String c (String g s)) rest Hr).
      * exact (exp_digits_app c "" (String g s) (String c (String g s)) rest Hr).
Qed.

Lemma parse_signed_app neg body v r rest : no_number rest = true ->
  parse_signed neg body = Some (v, r) -> parse_signed neg (body +:+ rest) = Some (v, r +:+ rest).
Proof.
  intros Hr. unfold parse_signed. destruct (int_part body) as [[ip r1]|] eqn:Hi; [|done]. rewrite (int_part_app _ _ _ _ Hr Hi).
  cbn [mbind option_bind]. rewrite frac_part_app by done. destruct (frac_part r1) as [fp r2]. cbn [fst snd].
  rewrite exp_part_app by done. destruct (exp_part r2) as [ep r3]. cbn [fst snd].
  destruct (_ || _); by intros [= <- <-].
Qed.

Lemma parse_number_app l v r rest : no_number rest = true -> parse_number l = Some (v, r) -> parse_number (l +:+ rest) = Some (v, r +:+ rest).
Proof.
  intros Hr. unfold parse_number. destruct l as [|c l]; [done|]. change (String c l +:+ rest) with (String c (l +:+ rest)). cbv iota.
  destruct (Ascii.eqb c "-"); [by apply parse_signed_app|]. change (String c (l +:+ rest)) with (String c l +:+ rest). by apply parse_signed_app.
Qed.

(** The text of a number starts with a digit, or with a minus and a digit *)
Definition starts_number (s : string) : bool :=
  match s with
  | String c s' => is_digit c || Ascii.eqb c "-" && match s' with String d _ => is_digit d | "" => false end
  | "" => false
  end.

Lemma parse_signed_starts neg s p : parse_signed neg s = Some p -> match s with String c _ => is_digit c = true | "" => False end.
Proof. destruct s as [|c s]; [done|]. cbn. destruct (Ascii.eqb_spec c "0") as [->|]; [done|]. by destruct (is_digit c). Qed.

Lemma parse_number_starts s v r : parse_number s = Some (v, r) -> starts_number s = true.
Proof.
  unfold parse_number. destruct s as [|c s]; [done|]. cbn [starts_number]. destruct (Ascii.eqb c "-") eqn:Hc; intros H%parse_signed_starts.
  - destruct s as [|d s]; [done|]. rewrite H. by rewrite orb_true_r.
  - by rewrite H.
Qed.

Lemma is_digit_cases c : is_digit c = true -> c ∈ String.list_ascii_of_string "0123456789".
Proof. destruct c as [[] [] [] [] [] [] [] []]; cbn; try done; intros _; set_solver. Qed.

Ltac digit_cases H :=
  apply is_digit_cases in H; cbn [String.list_ascii_of_string] in H;
  repeat (apply elem_of_cons in H as [->|H]); [..|by apply not_elem_of_nil in H].

Lemma parse_literal_number s : starts_number s = true -> parse_literal literals s = parse_number s.
Proof.
  destruct s as [|c s]; [done|]. cbn [starts_number]. rewrite orb_true_iff, andb_true_iff. intros [Hc|[Hc Hs]].
  - digit_cases Hc; done.
  - apply Ascii.eqb_eq in Hc as ->. destruct s as [|d s]; [done|]. digit_cases Hs; done.
Qed.

Lemma pretty_char_digit x : (x < 10)%N -> is_digit (pretty_N_char x) = true /\ ((0 < x)%N -> Ascii.eqb (pretty_N_char x) "0" = false).
Proof.
  intros Hx. assert (x = 0 \/ x = 1 \/ x = 2 \/ x = 3 \/ x = 4 \/ x = 5 \/ x = 6 \/ x = 7 \/ x = 8 \/ x = 9)%N as Hc by lia.
  destruct Hc as [->|[->|[->|[->|[->|[->|[->|[->|[->| ->]]]]]]]]]; (split; [done|intros; first [done|lia]]).
Qed.

(** A positive number is printed as digits, the first of them not zero *)
Lemma pretty_go_digits x s : (0 < x)%N -> exists c ds, pretty_N_go x s = String c (ds +:+ s) /\ is_digit c = true /\ Ascii.eqb c "0" = false /\
  Forall (fun c => is_digit c = true) (String.list_ascii_of_string ds).
Proof.
  revert s. induction (N.lt_wf_0 x) as [x _ IH]; intros s Hx. rewrite pretty_N_go_step by done.
  destruct (pretty_char_digit (x mod 10)) as [Hd Hz]; [apply N.mod_lt; lia|]. destruct (decide (x / 10 = 0)%N) as [Hq|Hq].
  - rewrite Hq, pretty_N_go_0. exists (pretty_N_char (x mod 10)), "". split_and!; [done..| |constructor].
    apply Hz. pose proof (N.div_mod x 10 ltac:(lia)). lia.
  - destruct (IH (x / 10)%N) with (s := String (pretty_N_char (x mod 10)) s) as (c & ds & -> & Hc & Hc0 & Hds); [by apply N.div_lt|by apply N.neq_0_lt_0|].
    exists c, (ds +:+ String (pretty_N_char (x mod 10)) ""). split_and!; [by rewrite sapp_assoc|done..|].
    clear -Hds Hd. induction ds as [|a ds IH]; cbn in *; [by repeat constructor|]. apply Forall_cons in Hds as [? ?]. constructor; auto.
Qed.

Lemma span_digits_all s : Forall (fun c => is_digit c = true) (String.list_ascii_of_string s) -> span_digits s = (s, "").
Proof.
  induction s as [|c s IH]; [done|]. cbn [String.list_ascii_of_string span_digits]. intros [Hc Hs]%Forall_cons. by rewrite Hc, IH.
Qed.

Lemma parse_signed_pretty neg x : parse_signed neg (pretty x) = Some (PInt (if neg then - Z.of_N x else Z.of_N x)%Z, "").
Proof.
  assert (int_part (pretty x) = Some (pretty x, "") /\ digits_val 0 (pretty x) = Z.of_N x) as [Hi Hv]; [|unfold parse_signed; rewrite Hi; cbn; by rewrite Hv].
  unfold pretty, pretty_N. destruct (decide (x = 0)%N) as [->|Hx]; [done|]. rewrite digits_val_go. split; [|done].
  destruct (pretty_go_digits x "") as (c & ds & -> & Hc & Hc0 & Hds); [lia|]. rewrite sapp_nil_r. cbn [int_part]. rewrite Hc0, Hc.
  rewrite span_digits_all; [done|]. by constructor.
Qed.

Lemma parse_number_pretty z : parse_number (pretty z) = Some (PInt z, "").
Proof.
  destruct z as [|p|p]; [done| |].
  - change (pretty (Zpos p)) with (pretty (Npos p)). pose proof (parse_signed_pretty false (Npos p)) as H. unfold parse_number.
    pose proof (parse_signed_starts _ _ _ H) as Hs. destruct (pretty (Npos p)) as [|c s]; [done|].
    destruct (Ascii.eqb_spec c "-") as [->|]; [done|]. exact H.
  - change (pretty (Zneg p)) with (String "-" (pretty (Npos p))). exact (parse_signed_pretty true (Npos p)).
Qed.

(** The first character of an encoded value is neither blank nor a closing bracket. *)
Definition starts_value (s : string) : Prop :=
  match s with String c _ => is_json_ws c = false /\ c <> "]"%char /\ c <> "}"%char | "" => False end.

Lemma starts_number_value s : starts_number s = true -> starts_value s.
Proof.
  destruct s as [|c s]; [done|]. cbn [starts_number starts_value]. rewrite orb_true_iff, andb_true_iff. intros [Hc|[Hc _]].
  - digit_cases Hc; by split_and!.
  - apply Ascii.eqb_eq in Hc as ->. by split_and!.
Qed.

Lemma parse_value_number fuel s v r rest : no_number rest = true -> parse_number s = Some (v, r) -> parse_value (S fuel) (s +:+ rest) = Some (v, r +:+ rest).
Proof.
  intros Hr Hs. pose proof (parse_number_starts _ _ _ Hs) as Hst. pose proof (parse_number_app _ _ _ _ Hr Hs) as Hp.
  assert (starts_number (s +:+ rest) = true) as Hst' by (by eapply parse_number_starts). rewrite <- (parse_literal_number _ Hst') in Hp.
  rewrite <- Hp. destruct s as [|c s]; [done|]. change (String c s +:+ rest) with (String c (s +:+ rest)) in *. cbn [parse_value].
  cbn [starts_number] in Hst. apply orb_true_iff in Hst as [Hc|[Hc _]%andb_true_iff].
  - digit_cases Hc; done.
  - by apply Ascii.eqb_eq in Hc as ->.
Qed.

(** A float in a document *)
Definition json_float (l : string) : string :=
  if String.eqb l "nan" then "NaN" else if String.eqb l "inf" then "Infinity" else if String.eqb l "-inf" then "-Infinity" else l.

Section dumps.
Context (lay : layout).

Definition wrap_items (op cl : string) (level : nat) (items : list string) : string :=
  match items with
  | [] => op +:+ cl
  | _ => op +:+ l_open lay level +:+ join ("," +:+ l_sep lay level) items +:+ l_close lay level +:+ cl
  end.

(** [json.dumps(v)] at a nesting level *)
Fixpoint dumps_at (level : nat) (v : pyval) : string :=
  match v with
  | PNone => "null"
  | PBool true => "true"
  | PBool false => "false"
  | PInt z => pretty z
  | PFloat l => json_float l
  | PStr s => dump_string s
  | PList l => wrap_items "[" "]" level (map (dumps_at (S level)) l)
  | PDict d => wrap_items "{" "}" level
      (map (fun kv => dump_string kv.1 +:+ ":" +:+ l_colon lay +:+ dumps_at (S level) kv.2) d)
  end.

(** ** Round trip

    Documents of ASCII strings, finite numbers, booleans, null, lists and dicts without
    duplicate keys are read back as written. *)

Definition is_ascii (s : string) : Prop := Forall (fun c => (N_of_ascii c < 128)%N) (String.list_ascii_of_string s).

Inductive plain : pyval -> Prop :=
| plain_none : plain PNone
| plain_bool b : plain (PBool b)
| plain_int z : plain (PInt z)
| plain_float l : parse_number (json_float l) = Some (PFloat l, "") -> plain (PFloat l)
| plain_str s : is_ascii s -> plain (PStr s)
| plain_list l : Forall plain l -> plain (PList l)
| plain_dict d : Forall (fun kv => is_ascii kv.1 /\ plain kv.2) d -> NoDup d.*1 -> plain (PDict d).

Lemma parse_dump_cp c t :
  (N_of_ascii c < 128)%N ->
  parse_string None (dump_cp (N_of_ascii c) +:+ t) =
  (p ← parse_string None t; Some (String c (fst p), snd p)).
Proof.
  destruct c as [b0 b1 b2 b3 b4 b5 b6 b7].
  destruct b7; [by destruct b0, b1, b2, b3, b4, b5, b6|]. intros _.
  destruct b0, b1, b2, b3, b4, b5, b6; reflexivity.
Qed.

Lemma parse_dump_string s rest :
  is_ascii s -> parse_string None (foldr (fun n acc => dump_cp n +:+ acc) dquote (decode_utf8 s) +:+ rest) = Some (s, rest).
Proof.
  unfold is_ascii. induction s as [|c s IH]; intros Hs; [reflexivity|].
  cbn [String.list_ascii_of_string] in Hs. apply Forall_cons in Hs as [Hc Hs].
  cbn [decode_utf8]. rewrite (proj2 (N.ltb_lt (N_of_ascii c) 192)) by lia. cbn [foldr].
  rewrite sapp_assoc, parse_dump_cp, IH by done. reflexivity.
Qed.

Ltac skip_layout := rewrite ?(l_open_ws lay), ?(l_sep_ws lay), ?(l_close_ws lay).

Lemma starts_value_skip s t : starts_value s -> skip_ws (s +:+ t) = s +:+ t.
Proof. destruct s as [|c s]; [done|]. intros (Hc & _). cbn. by rewrite Hc. Qed.

Lemma dumps_starts level v : plain v -> starts_value (dumps_at level v).
Proof.
  destruct 1 as [|[]|z|l Hl|s _|l _|d _ _]; cbn; try done.
  - eapply starts_number_value, parse_number_starts, parse_number_pretty.
  - by eapply starts_number_value, parse_number_starts.
  - by destruct l.
  - by destruct d.
Qed.

Fixpoint vsize (v : pyval) : nat :=
  match v with
  | PList l => S (foldr (fun x n => S (vsize x + n)) 0 l)
  | PDict d => S (foldr (fun kv n => S (vsize kv.2 + n)) 0 d)
  | _ => 1
  end.

Definition reads_back (v : pyval) : Prop :=
  forall level fuel rest, vsize v <= fuel -> no_number rest = true -> parse_value fuel (dumps_at level v +:+ rest) = Some (v, rest).

Definition member_text (level : nat) (kv : string * pyval) : string :=
  dump_string kv.1 +:+ ":" +:+ l_colon lay +:+ dumps_at level kv.2.

Lemma join_cons sep x y l : join sep (x :: y :: l) = x +:+ sep +:+ join sep (y :: l).
Proof. reflexivity. Qed.

Lemma skip_ws_char c t : is_json_ws c = false -> skip_ws (String c t) = String c t.
Proof. intros Hc. cbn. by rewrite Hc. Qed.

Lemma parse_elems_ok level level' l x fuel rest :
  Forall (fun v => plain v /\ reads_back v) (x :: l) ->
  foldr (fun x n => S (vsize x + n)) 0 (x :: l) <= fuel ->
  parse_elems fuel (join ("," +:+ l_sep lay level') (map (dumps_at level) (x :: l))
    +:+ l_close lay level' +:+ String "]" rest) = Some (x :: l, rest).
Proof.
  revert x fuel. induction l as [|y l IH]; intros x fuel Hall Hf;
    apply Forall_cons in Hall as [[Hp Hx] Hall]; cbn [foldr] in Hf; (destruct fuel as [|fuel]; [lia|]);
    cbn [parse_elems].
  - cbn [map join]. rewrite Hx by (lia || by apply l_close_stop). cbn [fst snd mbind option_bind].
    skip_layout; rewrite skip_ws_char by done. done.
  - cbn [map]. rewrite join_cons, !sapp_assoc, Hx by (lia || done). cbn [fst snd mbind option_bind].
    change ("," +:+ ?t) with (String "," t). rewrite skip_ws_char by done. cbv iota beta.
    skip_layout. change (dumps_at level y :: map (dumps_at level) l) with (map (dumps_at level) (y :: l)).
    rewrite starts_value_skip.
    + rewrite IH; [done|done|cbn [foldr]; lia].
    + apply Forall_cons in Hall as [[Hy _] _]. pose proof (dumps_starts level y Hy) as Hs.
      destruct l; [done|]. cbn [map]. rewrite join_cons. by destruct (dumps_at level y).
Qed.

Lemma parse_members_ok level level' d kv fuel acc rest :
  Forall (fun kv => is_ascii kv.1 /\ plain kv.2 /\ reads_back kv.2) (kv :: d) ->
  NoDup (acc ++ kv :: d).*1 ->
  foldr (fun kv n => S (vsize kv.2 + n)) 0 (kv :: d) <= fuel ->
  parse_members fuel acc (join ("," +:+ l_sep lay level') (map (member_text level) (kv :: d))
    +:+ l_close lay level' +:+ String "}" rest) = Some (acc ++ kv :: d, rest).
Proof.
  revert kv fuel acc. induction d as [|kv' d IH]; intros [k v] fuel acc Hall Hnd Hf;
    apply Forall_cons in Hall as [(Hk & Hp & Hv) Hall]; cbn [foldr fst snd] in *; (destruct fuel as [|fuel]; [lia|]).
  all: assert (k ∉ acc.*1) as Hnew by
    (rewrite fmap_app in Hnd; apply NoDup_app in Hnd as (_ & Hnd & _); intros Hin; apply (Hnd k Hin); left).
  all: assert (forall t, no_number t = true -> parse_members (S fuel) acc (member_text level (k, v) +:+ t) =
      match skip_ws t with
      | String "}" r' => Some (acc ++ [(k, v)], r')
      | String "," r' => parse_members fuel (acc ++ [(k, v)]) (skip_ws r')
      | _ => None
      end) as Hstep.
  1, 3: intros t Ht; unfold member_text, dump_string; rewrite !sapp_assoc; cbn [fst snd parse_members];
      unfold dquote; change (String "034" "" +:+ ?u) with (String "034"%char u); cbv iota;
      change (Ascii.eqb "034" "034") with true; cbv iota;
      fold dquote; rewrite parse_dump_string by done; cbn [mbind option_bind fst snd];
      change (":" +:+ ?u) with (String ":" u); rewrite skip_ws_char by done; cbv iota beta; rewrite (l_colon_ws lay);
      rewrite starts_value_skip by (by apply dumps_starts); rewrite Hv by (done || lia); cbn [mbind option_bind fst snd];
      rewrite assoc_set_keys_new by done; reflexivity.
  - cbn [map join]. rewrite Hstep by (by apply l_close_stop). skip_layout. rewrite skip_ws_char by done. done.
  - cbn [map]. rewrite join_cons, !sapp_assoc, Hstep by done.
    change ("," +:+ ?t) with (String "," t). rewrite skip_ws_char by done. cbv iota beta.
    skip_layout.
    change (member_text level kv' :: map (member_text level) d) with (map (member_text level) (kv' :: d)).
    rewrite starts_value_skip.
    + rewrite IH; [by rewrite <- app_assoc|done|by rewrite <- app_assoc|cbn [foldr]; lia].
    + destruct d; [done|]. cbn [map]. rewrite join_cons. unfold member_text, dump_string. done.
Qed.

Lemma eat_value t c : starts_value t -> c = "]"%char \/ c = "}"%char -> eat c t = None.
Proof.
  destruct t as [|d t]; [done|]. intros (_ & H1 & H2) Hc. cbn.
  destruct (Ascii.eqb_spec c d) as [->|]; [|done]. destruct Hc; congruence.
Qed.

Lemma starts_value_app s t : starts_value s -> starts_value (s +:+ t).
Proof. by destruct s. Qed.

Lemma starts_value_join sep x l : starts_value x -> starts_value (join sep (x :: l)).
Proof. intros Hx. destruct l; [done|]. rewrite join_cons. by apply starts_value_app. Qed.

Lemma plain_reads_back v : plain v -> reads_back v.
Proof.
  induction v as [|b|z|s|s|l IH|d IH] using pyval_ind'; intros Hv level fuel rest Hf Hrest; inversion_clear Hv;
    (destruct fuel as [|fuel]; [cbn in Hf; lia|]).
  - reflexivity.
  - by destruct b.
  - cbn [dumps_at]. by rewrite (parse_value_number _ _ (PInt z) "") by (done || apply parse_number_pretty).
  - cbn [dumps_at]. by rewrite (parse_value_number _ _ (PFloat s) "").
  - cbn [dumps_at]. unfold dump_string. rewrite sapp_assoc.
    change (dquote +:+ ?u) with (String "034"%char u). cbn [parse_value].
    change (Ascii.eqb "034" "034") with true. cbv iota. by rewrite parse_dump_string.
  - destruct l as [|x l]; [reflexivity|].
    assert (Forall (fun v => plain v /\ reads_back v) (x :: l)) as Hall.
    { rewrite Forall_forall in *. intros y Hy. split; [by apply H|by apply IH, H]. }
    cbn [dumps_at wrap_items map]. rewrite !sapp_assoc.
    change ("[" +:+ ?u) with (String "[" u). cbn [parse_value]. change (Ascii.eqb "[" "034") with false.
    change (Ascii.eqb "[" "[") with true. cbv iota. skip_layout.
    assert (starts_value (dumps_at (S level) x)) as Hs by (apply dumps_starts; by inversion_clear H).
    rewrite starts_value_skip by (by apply starts_value_join).
    rewrite eat_value by (by left || by apply starts_value_app, starts_value_join).
    change (dumps_at (S level) x :: map (dumps_at (S level)) l) with (map (dumps_at (S level)) (x :: l)).
    change ("]" +:+ rest) with (String "]" rest).
    rewrite parse_elems_ok; [done|done|]. cbn [vsize] in Hf. lia.
  - destruct d as [|kv d]; [reflexivity|].
    assert (Forall (fun kv => is_ascii kv.1 /\ plain kv.2 /\ reads_back kv.2) (kv :: d)) as Hall.
    { rewrite Forall_forall in *. intros y Hy. destruct (H y Hy). split_and!; [done..|by apply IH]. }
    cbn [dumps_at wrap_items map]. rewrite !sapp_assoc.
    change ("{" +:+ ?u) with (String "{" u). cbn [parse_value]. change (Ascii.eqb "{" "034") with false.
    change (Ascii.eqb "{" "[") with false. change (Ascii.eqb "{" "{") with true. cbv iota. skip_layout.
    rewrite starts_value_skip by (by apply starts_value_join).
    rewrite eat_value by (by right || by apply starts_value_app, starts_value_join).
    change ((dump_string kv.1 +:+ ":" +:+ l_colon lay +:+ dumps_at (S level) kv.2) ::
      map (fun kv => dump_string kv.1 +:+ ":" +:+ l_colon lay +:+ dumps_at (S level) kv.2) d)
      with (map (member_text (S level)) (kv :: d)).
    change ("}" +:+ rest) with (String "}" rest).
    rewrite parse_members_ok; [done|done|done|]. cbn [vsize] in Hf. lia.
Qed.

Lemma fuel_join {A} (f : A -> string) (g : A -> nat) l sep :
  1 <= String.length sep -> Forall (fun x => g x <= 2 * String.length (f x)) l ->
  foldr (fun x n => S (g x + n)) 0 l <= 2 * String.length (join sep (map f l)) + 1.
Proof.
  intros Hs. induction 1 as [|x [|y l] Hx _ IH]; [cbn; lia|cbn; lia|].
  cbn [map]. rewrite join_cons, !length_sapp.
  change (f y :: map f l) with (map f (y :: l)). cbn [foldr] in *. lia.
Qed.

Lemma wrap_items_length op cl level items :
  String.length op = 1 -> String.length cl = 1 ->
  2 * String.length (join ("," +:+ l_sep lay level) items) + 4 <= 2 * String.length (wrap_items op cl level items).
Proof.
  intros Ho Hc. unfold wrap_items. destruct items as [|x items]; rewrite ?length_sapp; [cbn [join]|]; cbn; lia.
Qed.

Lemma vsize_bound v level : plain v -> vsize v <= 2 * String.length (dumps_at level v).
Proof.
  revert level. induction v as [|b|z|s|s|l IH|d IH] using pyval_ind'; intros level Hv; inversion_clear Hv; cbn [vsize dumps_at].
  - cbn. lia.
  - destruct b; cbn; lia.
  - pose proof (parse_number_starts _ _ _ (parse_number_pretty z)). destruct (pretty z); cbn in *; [done|lia].
  - pose proof (parse_number_starts _ _ _ H). destruct (json_float s); cbn in *; [done|lia].
  - unfold dump_string. rewrite length_sapp. cbn. lia.
  - pose proof (wrap_items_length "[" "]" level (map (dumps_at (S level)) l) eq_refl eq_refl).
    pose proof (fuel_join (dumps_at (S level)) vsize l ("," +:+ l_sep lay level)) as Hj.
    rewrite length_sapp in Hj. cbn [String.length] in Hj. etrans; [apply le_n_S, Hj|lia]; [lia|].
    rewrite Forall_forall in *. intros y Hy. by apply IH, H.
  - set (f := fun kv : string * pyval => dump_string kv.1 +:+ ":" +:+ l_colon lay +:+ dumps_at (S level) kv.2).
    pose proof (wrap_items_length "{" "}" level (map f d) eq_refl eq_refl).
    pose proof (fuel_join f (fun kv => vsize kv.2) d ("," +:+ l_sep lay level)) as Hj.
    rewrite length_sapp in Hj. cbn [String.length] in Hj. etrans; [apply le_n_S, Hj|lia]; [lia|].
    rewrite Forall_forall in *. intros y Hy. unfold f. rewrite !length_sapp.
    pose proof (IH y Hy (S level) (proj2 (H y Hy))). lia.
Qed.

(** What the encoder writes, the decoder reads back. *)
Lemma loads_dumps_at v : plain v -> loads (dumps_at 0 v) = Some v.
Proof.
  intros Hv. unfold loads.
  assert (skip_ws (dumps_at 0 v) = dumps_at 0 v) as ->.
  { rewrite <- (sapp_nil_r (dumps_at 0 v)). by apply starts_value_skip, dumps_starts. }
  rewrite <- (sapp_nil_r (dumps_at 0 v)) at 2. rewrite plain_reads_back; [done|done| |done].
  pose proof (vsize_bound v 0 Hv). lia.
Qed.
End dumps.

(** [json.dumps(v, indent=2)] and [json.dumps(v)] *)
Definition dumps (v : pyval) : string := dumps_at indented 0 v.
Definition dumps_line (v : pyval) : string := dumps_at one_line 0 v.

Lemma loads_dumps v : plain v -> loads (dumps v) = Some v.
Proof. apply loads_dumps_at. Qed.
Lemma loads_dumps_line v : plain v -> loads (dumps_line v) = Some v.
Proof. apply loads_dumps_at. Qed.

(** [sort_keys=True] *)
Fixpoint sort_keys (v : pyval) : pyval :=
  match v with
  | PList l => PList (map sort_keys l)
  | PDict d => PDict (py_sort (fun x y => str_leb x.1 y.1) (map (fun kv => (kv.1, sort_keys kv.2)) d))
  | _ => v
  end.

Lemma plain_sort_keys v : plain v -> plain (sort_keys v).
Proof.
  induction v as [|b|z|s|s|l IH|d IH] using pyval_ind'; intros Hv; inversion_clear Hv; cbn [sort_keys]; try by constructor.
  - constructor. rewrite Forall_map. rewrite Forall_forall in *. intros x Hx. by apply IH, H.
  - constructor.
    + rewrite py_sort_perm, Forall_map. rewrite Forall_forall in *. intros x Hx. destruct (H x Hx). split; [done|by apply IH].
    + rewrite py_sort_perm. by rewrite <- list_fmap_compose.
Qed.

Lemma sort_keys_idem v : sort_keys (sort_keys v) = sort_keys v.
Proof.
  induction v as [|b|z|s|s|l IH|d IH] using pyval_ind'; try done; cbn [sort_keys].
  - f_equal. rewrite map_map. apply map_ext_in. intros x Hx%list_elem_of_In. rewrite Forall_forall in IH. by apply IH.
  - f_equal. rewrite !(py_sort_map (fun x y => str_leb x.1 y.1) _ (fun kv => (kv.1, sort_keys kv.2))) by done.
    rewrite py_sort_idem by eauto using str_leb_total, str_leb_trans. rewrite map_map. apply map_ext_in. intros x Hx%list_elem_of_In.
    rewrite elem_of_py_sort in Hx. rewrite Forall_forall in IH. cbn. by rewrite IH.
Qed.

(** *** A document on one line has no line boundary *)

Definition line_char (c : ascii) : bool := negb (is_linebreak c).

Lemma digit_line_char c : is_digit c = true -> line_char c = true.
Proof. intros Hc. digit_cases Hc; reflexivity. Qed.

Lemma span_digits_chars s : schars line_char (span_digits s).1 /\ s = (span_digits s).1 +:+ (span_digits s).2.
Proof.
  induction s as [|c s [IH1 IH2]]; [split; [constructor|done]|]. cbn [span_digits]. destruct (is_digit c) eqn:Hc; [|split; [constructor|done]].
  destruct (span_digits s) as [d r]. cbn [fst snd] in *. split; [apply schars_cons; split; [by apply digit_line_char|done]|].
  change (String c d +:+ r) with (String c (d +:+ r)). by rewrite <- IH2.
Qed.

Lemma int_part_chars s ip r : int_part s = Some (ip, r) -> schars line_char r -> schars line_char s.
Proof.
  unfold int_part. destruct s as [|c s]; [done|]. destruct (Ascii.eqb_spec c "0") as [->|_].
  - intros [= <- <-] Hr. by apply schars_cons.
  - destruct (is_digit c); [|done]. destruct (span_digits_chars (String c s)) as [Hd Heq]. destruct (span_digits (String c s)) as [d q].
    intros [= <- <-] Hr. cbn [fst snd] in *. rewrite Heq. by apply schars_app.
Qed.

Lemma frac_part_chars s : schars line_char (frac_part s).2 -> schars line_char s.
Proof.
  unfold frac_part. destruct s as [|c s]; [done|]. destruct (Ascii.eqb_spec c ".") as [->|_]; [|done].
  destruct (span_digits_chars s) as [Hd Heq]. destruct (span_digits s) as [d r]. cbn [fst snd] in *. destruct (truthy d); [|done].
  cbn [snd]. intros Hr. apply schars_cons. split; [done|]. by rewrite Heq, schars_app.
Qed.

Lemma exp_part_chars s : schars line_char (exp_part s).2 -> schars line_char s.
Proof.
  unfold exp_part. destruct s as [|c s]; [done|]. destruct (Ascii.eqb c "e" || Ascii.eqb c "E") eqn:Hc; [|done].
  assert (line_char c = true) as Hl by (apply orb_true_iff in Hc as [->%Ascii.eqb_eq| ->%Ascii.eqb_eq]; done).
  set (gt := match s with String g s'' => if Ascii.eqb g "+" || Ascii.eqb g "-" then (String g "", s'') else ("", s) | "" => ("", "") end).
  assert (schars line_char gt.2 -> schars line_char s) as Hgt.
  { unfold gt. destruct s as [|g s'']; [done|]. destruct (Ascii.eqb g "+" || Ascii.eqb g "-") eqn:Hg; [|done]. cbn [snd]. intros Ht. apply schars_cons.
    split; [|done]. apply orb_true_iff in Hg as [->%Ascii.eqb_eq| ->%Ascii.eqb_eq]; done. }
  destruct gt as [sg t]. destruct (span_digits_chars t) as [Hd Heq]. destruct (span_digits t) as [d r]. cbn [fst snd] in *. destruct (truthy d); [|done].
  cbn [snd]. intros Hr. apply schars_cons. split; [done|]. apply Hgt. by rewrite Heq, schars_app.
Qed.

Lemma parse_number_chars s v r : parse_number s = Some (v, r) -> schars line_char r -> schars line_char s.
Proof.
  assert (forall neg body, parse_signed neg body = Some (v, r) -> schars line_char r -> schars line_char body) as Hsigned.
  { intros neg body. unfold parse_signed. destruct (int_part body) as [[ip r1]|] eqn:Hi; [|done]. cbn [mbind option_bind].
    destruct (frac_part r1) as [fp r2] eqn:Hf, (exp_part r2) as [ep r3] eqn:He. intros Hv Hr.
    assert (r3 = r) as -> by (destruct (truthy fp || truthy ep); congruence).
    eapply int_part_chars; [exact Hi|]. apply frac_part_chars. rewrite Hf. apply exp_part_chars. cbn [snd]. by rewrite He. }
  unfold parse_number. destruct s as [|c s]; [done|]. destruct (Ascii.eqb_spec c "-") as [->|_]; intros Hv Hr.
  - apply schars_cons. split; [done|]. by eapply Hsigned.
  - by eapply Hsigned.
Qed.

Lemma dump_cp_chars c : (N_of_ascii c < 128)%N -> schars line_char (dump_cp (N_of_ascii c)).
Proof.
  destruct c as [b0 b1 b2 b3 b4 b5 b6 b7]. destruct b7; [by destruct b0, b1, b2, b3, b4, b5, b6|]. intros _. unfold schars.
  destruct b0, b1, b2, b3, b4, b5, b6; repeat constructor.
Qed.

Lemma dump_string_chars s : is_ascii s -> schars line_char (dump_string s).
Proof.
  intros Hs. unfold dump_string. apply schars_app. split; [by repeat constructor|]. unfold is_ascii in Hs.
  induction s as [|c s IH]; [by repeat constructor|]. cbn [String.list_ascii_of_string] in Hs. apply Forall_cons in Hs as [Hc Hs].
  cbn [decode_utf8]. rewrite (proj2 (N.ltb_lt (N_of_ascii c) 192)) by lia. cbn [foldr]. apply schars_app.
  split; [by apply dump_cp_chars|by apply IH].
Qed.

Lemma wrap_items_chars op cl level items : schars line_char op -> schars line_char cl -> Forall (schars line_char) items ->
  schars line_char (wrap_items one_line op cl level items).
Proof.
  intros Ho Hc Hi. unfold wrap_items. destruct items as [|x items]; [by apply schars_app|]. cbn [l_open l_sep l_close one_line].
  rewrite !schars_app. split_and!; [done|constructor| |constructor|done]. apply schars_join; [by repeat constructor|done].
Qed.

Lemma dumps_line_chars v : forall level, plain v -> schars line_char (dumps_at one_line level v).
Proof.
  induction v as [|b|z|s|s|l IH|d IH] using pyval_ind'; intros level Hv; inversion_clear Hv; cbn [dumps_at].
  - by repeat constructor.
  - destruct b; by repeat constructor.
  - eapply parse_number_chars; [apply parse_number_pretty|constructor].
  - eapply parse_number_chars; [exact H|constructor].
  - by apply dump_string_chars.
  - apply wrap_items_chars; [by repeat constructor..|]. apply Forall_map. rewrite Forall_forall in *. intros x Hx. by apply IH, H.
  - apply wrap_items_chars; [by repeat constructor..|]. apply Forall_map. rewrite Forall_forall in *. intros x Hx. destruct (H x Hx).
    rewrite !schars_app. split_and!; [by apply dump_string_chars|by repeat constructor|by repeat constructor|by apply IH].
Qed.

(** A document written as a line is one line of the file *)
Lemma splitlines_dumps old v : old = "" \/ ends_with nls old = true -> plain v -> splitlines (old +:+ dumps_line v +:+ nls) = splitlines old ++ [dumps_line v].
Proof. intros Hold Hv. apply splitlines_snoc; [done|]. by apply dumps_line_chars. Qed.

Lemma strip_dumps_dict d : strip (dumps_line (PDict d)) = dumps_line (PDict d).
Proof.
  unfold dumps_line. cbn [dumps_at]. unfold wrap_items. destruct (map _ d) as [|x items]; [reflexivity|]. cbn [l_open l_sep l_close one_line].
  change (strip (String "{" (join ", " (x :: items) +:+ String "}" "")) = String "{" (join ", " (x :: items) +:+ String "}" "")).
  by apply strip_id.
Qed.

#[export] Hint Resolve loads_dumps loads_dumps_line plain_sort_keys : py.
