(* ===== verification/PyFormat.v ===== *)
(** * [str.format] with keyword arguments that are texts

    The fields of a format string with their conversions and specifications, the accesses
    to a character, and what each malformed template or missing field raises, in order.
    An attribute of a text shows as a bound method, whose address is left out. *)

From S2P Require Import Prelude PyStr PyVal PyNum PyJson.

Module Format.

Definition value_error (msg : string) : exn := Exn "ValueError" msg.

(** ** Fields *)

(** The name of a field and the character that ends it, a bracket hiding the others *)
Fixpoint read_name (in_bracket : bool) (s : string) : res (string * option ascii * string) :=
  match s with
  | "" => Ok ("", None, "")
  | String c s' =>
      if in_bracket then r ← read_name (negb (Ascii.eqb c "]")) s'; Ok (String c r.1.1, r.1.2, r.2)
      else if Ascii.eqb c "{" then Raise (value_error "unexpected '{' in field name")
      else if Ascii.eqb c "}" || Ascii.eqb c ":" || Ascii.eqb c "!" then Ok ("", Some c, s')
      else r ← read_name (Ascii.eqb c "[") s'; Ok (String c r.1.1, r.1.2, r.2)
  end.

(** A specification up to the brace that closes the field, [depth] others being open *)
Fixpoint read_spec (depth : nat) (s : string) : res (string * string) :=
  match s with
  | "" => Raise (value_error "unmatched '{' in format spec")
  | String c s' =>
      if Ascii.eqb c "}" then
        match depth with 0 => Ok ("", s') | S d => r ← read_spec d s'; Ok (String c r.1, r.2) end
      else r ← read_spec (if Ascii.eqb c "{" then S depth else depth) s'; Ok (String c r.1, r.2)
  end.

Record field := mkField { f_name : string; f_conversion : option ascii; f_spec : string }.

(** The field after an opening brace, and the rest of the template *)
Definition parse_field (s : string) : res (field * string) :=
  n ← read_name false s;
  let '(name, last, s) := n in
  let with_spec conversion s := r ← read_spec 0 s; Ok (mkField name conversion r.1, r.2) in
  match last with
  | None => Raise (value_error "expected '}' before end of string")
  | Some c =>
      if Ascii.eqb c "}" then Ok (mkField name None "", s)
      else if Ascii.eqb c ":" then with_spec None s
      else match s with
           | "" => Raise (value_error "end of string while looking for conversion specifier")
           | String v "" => with_spec (Some v) ""
           | String v (String d s') =>
               if Ascii.eqb d "}" then Ok (mkField name (Some v) "", s')
               else if Ascii.eqb d ":" then with_spec (Some v) s'
               else Raise (value_error "expected ':' after conversion specifier")
           end
  end.

(** ** Values *)

(** A text, or an object that is none, as it shows *)
Inductive fvalue := FText (s : string) | FObject (shown : string).

(** The public methods of a text *)
Definition STR_METHODS : list string :=
  ["capitalize"; "casefold"; "center"; "count"; "encode"; "endswith"; "expandtabs"; "find"; "format"; "format_map"; "index"; "isalnum"; "isalpha";
   "isascii"; "isdecimal"; "isdigit"; "isidentifier"; "islower"; "isnumeric"; "isprintable"; "isspace"; "istitle"; "isupper"; "join"; "ljust";
   "lower"; "lstrip"; "maketrans"; "partition"; "removeprefix"; "removesuffix"; "replace"; "rfind"; "rindex"; "rjust"; "rpartition"; "rsplit";
   "rstrip"; "split"; "splitlines"; "startswith"; "strip"; "swapcase"; "title"; "translate"; "upper"; "zfill"].

Fixpoint every (p : ascii -> bool) (s : string) : bool := match s with "" => true | String c s' => p c && every p s' end.
Definition all_digits (s : string) : bool := truthy s && every is_digit s.
Definition MAX_INDEX : Z := 9223372036854775807.

(** A position, [None] when it is no number *)
Definition position (s : string) : res (option Z) :=
  if all_digits s then
    let n := digits_val 0 s in if (n <=? MAX_INDEX)%Z then Ok (Some n) else Raise (value_error "Too many decimal digits in format string")
  else Ok None.

Definition get_attribute (v : fvalue) (name : string) : res fvalue :=
  match v with
  | FText _ =>
      if bool_decide (name ∈ STR_METHODS) then Ok (FObject ("<built-in method " +:+ name +:+ " of str object>"))
      else Raise (Exn "AttributeError" ("'str' object has no attribute '" +:+ name +:+ "'"))
  | FObject _ => Raise (Exn "AttributeError" ("'builtin_function_or_method' object has no attribute '" +:+ name +:+ "'"))
  end.

Definition get_item (v : fvalue) (index : string) : res fvalue :=
  i ← position index;
  match v, i with
  | FText s, Some i =>
      if (i <? Z.of_nat (ulen s))%Z then Ok (FText (utake 1 (udrop (Z.to_nat i) s))) else Raise (Exn "IndexError" "string index out of range")
  | FText _, None => Raise (Exn "TypeError" "string indices must be integers, not 'str'")
  | FObject _, _ => Raise (Exn "TypeError" "'builtin_function_or_method' object is not subscriptable")
  end.

(** A part of a name up to the next access *)
Fixpoint until (stop : ascii -> bool) (s : string) : string * string :=
  match s with "" => ("", "") | String c s' => if stop c then ("", s) else let '(a, b) := until stop s' in (String c a, b) end.
Definition opens (c : ascii) : bool := Ascii.eqb c "." || Ascii.eqb c "[".

(** The accesses of a field; each takes at least one character *)
Fixpoint accesses (n : nat) (v : fvalue) (s : string) : res fvalue :=
  match n, s with
  | S n', String c s' =>
      if Ascii.eqb c "." then
        let '(name, rest) := until opens s' in
        if truthy name then v ← get_attribute v name; accesses n' v rest else Raise (value_error "Empty attribute in format string")
      else if Ascii.eqb c "[" then
        match until (Ascii.eqb "]") s' with
        | (index, String _ rest) =>
            if truthy index then v ← get_item v index; accesses n' v rest else Raise (value_error "Empty attribute in format string")
        | (_, "") => Raise (value_error "Missing ']' in format string")
        end
      else Raise (value_error "Only '.' or '[' may follow ']' in format field specifier")
  | _, _ => Ok v
  end.

Definition field_value (args : list (string * string)) (name : string) : res fvalue :=
  let '(first, rest) := until opens name in
  i ← position first;
  if negb (truthy first) || negb (is_none i) then
    Raise (Exn "IndexError" ("Replacement index " +:+ pretty (default 0%Z i) +:+ " out of range for positional args tuple"))
  else match assoc first args with
       | Some v => accesses (String.length rest) (FText v) rest
       | None => Raise (Exn "KeyError" (repr_str first))
       end.

(** ** Conversions and specifications *)

Definition shown (v : fvalue) : string := match v with FText s => s | FObject s => s end.
Definition shown_repr (v : fvalue) : string := match v with FText s => repr_str s | FObject s => s end.

(** The escape of a character that is not ASCII *)
Definition ascii_escape (n : N) : string :=
  let hex (k : N) := String (hex_digit (N.to_nat (N.modulo (N.shiftr n (4 * k)) 16))) "" in
  if (n <? 128)%N then String (ascii_of_N n) ""
  else if (n <? 256)%N then "\x" +:+ hex 1%N +:+ hex 0%N
  else if (n <? 65536)%N then "\u" +:+ hex 3%N +:+ hex 2%N +:+ hex 1%N +:+ hex 0%N
  else "\U" +:+ hex 7%N +:+ hex 6%N +:+ hex 5%N +:+ hex 4%N +:+ hex 3%N +:+ hex 2%N +:+ hex 1%N +:+ hex 0%N.
Definition shown_ascii (v : fvalue) : string := foldr (fun n t => ascii_escape n +:+ t) "" (decode_utf8 (shown_repr v)).

Definition convert (conversion : option ascii) (v : fvalue) : res fvalue :=
  match conversion with
  | None => Ok v
  | Some c =>
      if Ascii.eqb c "r" then Ok (FText (shown_repr v))
      else if Ascii.eqb c "s" then Ok (FText (shown v))
      else if Ascii.eqb c "a" then Ok (FText (shown_ascii v))
      else Raise (value_error ("Unknown conversion specifier " +:+ String c ""))
  end.

Definition is_align (c : string) : bool := bool_decide (c ∈ ["<"; ">"; "="; "^"]).

(** [s] without a leading [p], and whether it had it *)
Definition strip_one (p s : string) : bool * string := if starts_with p s then (true, sdrop (String.length p) s) else (false, s).

(** [format(s, spec)] of a text: fill and alignment, width, precision and type *)
Definition format_str (s spec : string) : res string :=
  if negb (truthy spec) then Ok s
  else
    let one := utake 1 spec in
    let two := utake 1 (udrop 1 spec) in
    let '(fill, align, rest) :=
      if is_align two then (Some one, Some two, udrop 2 spec) else if is_align one then (None, Some one, udrop 1 spec) else (None, None, spec) in
    let '(sign, rest) := if bool_decide (utake 1 rest ∈ ["+"; "-"; " "]) then (Some (utake 1 rest), udrop 1 rest) else (None, rest) in
    let '(z, rest) := strip_one "z" rest in
    let '(alternate, rest) := strip_one "#" rest in
    let '(zero, rest) := if is_none fill then strip_one "0" rest else (false, rest) in
    let '(width, rest) := until (fun c => negb (is_digit c)) rest in
    w ← position width;
    let '(separator, rest) := if bool_decide (utake 1 rest ∈ [","; "_"]) then (true, udrop 1 rest) else (false, rest) in
    let '(dot, rest) := strip_one "." rest in
    let '(precision, rest) := if (dot : bool) then until (fun c => negb (is_digit c)) rest else ("", rest) in
    p ← position precision;
    if (dot : bool) && is_none p then Raise (value_error "Format specifier missing precision")
    else if 1 <? ulen rest then Raise (value_error ("Invalid format specifier '" +:+ spec +:+ "' for object of type 'str'"))
    else if (separator : bool) && negb (bool_decide (rest ∈ ["d"; "e"; "f"; "g"; "E"; "G"; "%"; "F"; ""])) then Raise (value_error "Cannot specify ',' with 's'.")
    else if negb (bool_decide (rest ∈ [""; "s"])) then Raise (value_error ("Unknown format code '" +:+ rest +:+ "' for object of type 'str'"))
    else if (separator : bool) then Raise (value_error "Cannot specify ',' with 's'.")
    else if negb (is_none sign) then
      Raise (value_error (if bool_decide (sign = Some " ") then "Space not allowed in string format specifier" else "Sign not allowed in string format specifier"))
    else if (z : bool) then Raise (value_error "Negative zero coercion (z) not allowed in string format specifier")
    else if (alternate : bool) then Raise (value_error "Alternate form (#) not allowed in string format specifier")
    else if bool_decide (align = Some "=") then Raise (value_error "'=' alignment not allowed in string format specifier")
    else
      let text := match p with Some p => utake (Z.to_nat p) s | None => s end in
      let total := match w with Some w => (w - Z.of_nat (ulen text))%Z | None => 0%Z end in
      let left := if bool_decide (align = Some ">") then total else if bool_decide (align = Some "^") then (total / 2)%Z else 0%Z in
      let fill := default (if (zero : bool) then "0" else " ") fill in
      let pad n := String.concat "" (repeat fill (Z.to_nat n)) in
      Ok (pad left +:+ text +:+ pad (total - left)%Z).

Definition render (v : fvalue) (spec : string) : res string :=
  match v with
  | FText s => format_str s spec
  | FObject s => if truthy spec then Raise (Exn "TypeError" "unsupported format string passed to builtin_function_or_method.__format__") else Ok s
  end.

(** ** Templates *)

(** [depth] more levels of fields inside specifications are allowed; each step takes at
    least one of the [n] characters *)
Fixpoint fmt (args : list (string * string)) (n depth : nat) (s : string) : res string :=
  match n, s with
  | S n', String c s' =>
      if Ascii.eqb c "{" then
        match s' with
        | "" => Raise (value_error "Single '{' encountered in format string")
        | String d s'' =>
            if Ascii.eqb d "{" then r ← fmt args n' depth s''; Ok (String "{" r)
            else
              fr ← parse_field s';
              let '(f, rest) := fr in
              v ← field_value args (f_name f);
              v ← convert (f_conversion f) v;
              spec ← (if contains "{" (f_spec f) then
                        match depth with
                        | 0 => Raise (value_error "Max string recursion exceeded")
                        | S d => fmt args n' d (f_spec f)
                        end
                      else Ok (f_spec f));
              text ← render v spec;
              r ← fmt args n' depth rest; Ok (text +:+ r)
        end
      else if Ascii.eqb c "}" then
        match s' with
        | String d s'' => if Ascii.eqb d "}" then r ← fmt args n' depth s''; Ok (String "}" r) else Raise (value_error "Single '}' encountered in format string")
        | "" => Raise (value_error "Single '}' encountered in format string")
        end
      else r ← fmt args n' depth s'; Ok (String c r)
  | _, _ => Ok ""
  end.

End Format.

(** [template.format(...)] for keyword arguments *)
Definition py_format (template : string) (args : list (string * string)) : res string := Format.fmt args (String.length template) 1 template.

(** A template without braces is itself *)
Lemma py_format_plain args t : Format.every (fun c => negb (Ascii.eqb c "{" || Ascii.eqb c "}")) t = true -> py_format t args = Ok t.
Proof.
  unfold py_format. generalize 1. intros depth. induction t as [|c t IH]; [done|]. cbn [Format.every String.length Format.fmt]. intros [Hc Ht]%andb_true_iff.
  apply negb_true_iff, orb_false_iff in Hc as [-> ->]. by rewrite IH.
Qed.

(** ** Examples *)

Example format_fields :
  py_format "{x}-{x!r}-{x[1]}-{{}}-{x:>5}|{x:*^{w}}|{x:.2}" [("x", "abc"); ("w", "7")] = Ok "abc-'abc'-b-{}-  abc|**abc**|ab".
Proof. vm_compute. reflexivity. Qed.

Example format_errors :
  map (fun t => match py_format t [("x", "abc")] with Ok _ => "" | Raise e => exn_class e end)
    ["{y}"; "{}"; "{0}"; "{x[9]}"; "{x[a]}"; "{x.y}"; "{x"; "}"; "{x:d}"; "{x!z}"; "{x.upper:>3}"; "{x:{y}}"]
  = ["KeyError"; "IndexError"; "IndexError"; "IndexError"; "TypeError"; "AttributeError"; "ValueError"; "ValueError"; "ValueError"; "ValueError"; "TypeError"; "KeyError"].
Proof. vm_compute. reflexivity. Qed.
