(* ===== verification/Relay.v ===== *)
(** * Relay ingestion (audit_agent/relay_ingest.py)

    The raw findings of a relayed answer become validated findings or error lines.
    The extraction of raw findings from free text and the sanitizer are the kernel's,
    the validation of a payload is pydantic's: parameters. *)

From S2P Require Import Prelude PyStr PyPath PyVal PyJson Finding Session.

Abbreviation payload := (list (string * pyval)).

(** What [sanitize] returns *)
Record Sanitized := mkSanitized { normalized : string; san_flags : list string }.

Record RelayFinding := mkRelayFinding {
  rf_finding : Finding;
  rf_notes : string;
  rf_notes_flags : list string;
}.

Record RelayIngestResult := mkIngest {
  ri_request_id : string;
  ri_findings : list RelayFinding;
  ri_errors : list string;
  needs_resend : bool;
}.

Definition ingest_ok (r : RelayIngestResult) : bool :=
  negb (needs_resend r) && negb (bool_decide (ri_findings r = [])).

Definition resend (request_id msg : string) : RelayIngestResult := mkIngest request_id [] [msg] true.

(** [raw.pop(k, ...)] *)
Definition pop_key (k : string) (raw : payload) : payload :=
  List.filter (fun kv => negb (String.eqb kv.1 k)) raw.

Section ingest.
Context (extract_findings : string -> res (list payload)).
(** Whether an exception is a [RelayAdapterError]: a text without findings to extract *)
Context (relay_adapter_error : exn -> bool).
Context (make_finding : payload -> res Finding).
Context (sanitize : string -> Sanitized).

(** One iteration of the loop: the adapted finding or the error line. *)
Definition adapt_one (idx : nat) (raw : payload) : RelayFinding + string :=
  let notes := por (default (PStr "") (assoc "notes" raw)) (PStr "") in
  let raw := pop_key "status_change" (pop_key "notes" raw) in
  match make_finding raw with
  | Raise e => inr ("finding[" +:+ pretty idx +:+ "]: " +:+ exn_msg e)
  | Ok finding =>
      let clean := sanitize (py_str notes) in
      inl (mkRelayFinding finding (normalized clean) (san_flags clean))
  end.

Fixpoint adapt_loop (idx : nat) (raws : list payload) (r : RelayIngestResult) : RelayIngestResult :=
  match raws with
  | [] => r
  | raw :: raws' =>
      adapt_loop (S idx) raws'
        (match adapt_one idx raw with
         | inl f => mkIngest (ri_request_id r) (ri_findings r ++ [f]) (ri_errors r) (needs_resend r)
         | inr e => mkIngest (ri_request_id r) (ri_findings r) (ri_errors r ++ [e]) (needs_resend r)
         end)
  end.

Definition adapt_findings (raw_text request_id : string) : res RelayIngestResult :=
  match extract_findings raw_text with
  | Raise e => if relay_adapter_error e then Ok (resend request_id (exn_msg e)) else Raise e
  | Ok raws =>
      let r := adapt_loop 0 raws (mkIngest request_id [] [] false) in
      Ok match ri_findings r, ri_errors r with
         | [], [] => mkIngest (ri_request_id r) [] ["response contained zero findings"] (needs_resend r)
         | _, _ => r
         end
  end.

(** ** The response store

    [response id] is the text of the response file of a request, when it exists. *)
Definition ingest_response (response : string -> option string) (request_id : string)
    (response_text : option string) : res RelayIngestResult :=
  match response_text with
  | Some text => adapt_findings text request_id
  | None =>
      match response request_id with
      | None => Ok (resend request_id "no response file found")
      | Some text => adapt_findings text request_id
      end
  end.

Lemma adapt_loop_spec idx raws r :
  let out := imap (fun i raw => adapt_one (idx + i) raw) raws in
  adapt_loop idx raws r =
  mkIngest (ri_request_id r) (ri_findings r ++ omap (fun o => match o with inl f => Some f | inr _ => None end) out)
    (ri_errors r ++ omap (fun o => match o with inr e => Some e | inl _ => None end) out) (needs_resend r).
Proof.
  revert idx r. induction raws as [|raw raws IH]; intros idx r; cbn [imap].
  { cbn. rewrite !app_nil_r. by destruct r. }
  cbn [adapt_loop]. rewrite IH. cbn zeta. cbn [omap list_omap]. rewrite Nat.add_0_r.
  rewrite (imap_ext (fun i raw => adapt_one (S idx + i) raw) ((fun i raw => adapt_one (idx + i) raw) ∘ S)) by
    (intros i x _; cbn; f_equal; lia).
  destruct (adapt_one idx raw); cbn; rewrite <- ?app_assoc; done.
Qed.

(** Adapting a response loses nothing: every raw finding of an extractable text becomes
    either one validated finding or one error line, in order; a text that the extraction
    refuses asks for a resend and yields no finding, and another exception is raised;
    a response with neither findings nor errors is reported as an error, so an
    ingested result is never silently empty. *)
Theorem adapt_findings_accounts (text rid : string) :
  match extract_findings text with
  | Raise e => adapt_findings text rid = (if relay_adapter_error e then Ok (resend rid (exn_msg e)) else Raise e)
  | Ok raws => exists r, adapt_findings text rid = Ok r /\ ri_request_id r = rid /\
      needs_resend r = false /\
      ri_findings r = omap (fun o => match o with inl f => Some f | inr _ => None end) (imap adapt_one raws) /\
      (raws <> [] -> length (ri_findings r) + length (ri_errors r) = length raws) /\
      (ri_findings r = [] -> ri_errors r <> []) /\
      (ingest_ok r = true <-> exists f raw i, raws !! i = Some raw /\ adapt_one i raw = inl f)
  end.
Proof.
  unfold adapt_findings. destruct (extract_findings text) as [raws|e]; [|done].
  rewrite adapt_loop_spec. cbn [ri_request_id ri_findings ri_errors needs_resend app].
  change (imap (fun i raw => adapt_one (0 + i) raw) raws) with (imap adapt_one raws).
  set (out := imap adapt_one raws).
  set (fs := omap (fun o => match o with inl f => Some f | inr _ => None end) out).
  set (es := omap (fun o => match o with inr e => Some e | inl _ => None end) out).
  assert (length fs + length es = length raws) as Hlen.
  { unfold fs, es. rewrite <- (length_imap adapt_one raws). fold out. clearbody out. clear fs es.
    induction out as [|[f|e] out IH]; cbn; [done|lia..]. }
  assert ((exists f raw i, raws !! i = Some raw /\ adapt_one i raw = inl f) <-> fs <> []) as Hok.
  { unfold fs. split.
    - intros (f & raw & i & Hi & Ha) Hn. apply (not_elem_of_nil f). rewrite <- Hn. apply list_elem_of_omap.
      exists (inl f). split; [|done]. unfold out. apply list_elem_of_lookup. exists i. by rewrite list_lookup_imap, Hi, <- Ha.
    - intros Hne. destruct (omap _ out) as [|f fs'] eqn:Ho; [done|].
      assert (f ∈ f :: fs') as Hf by left. rewrite <- Ho in Hf. apply list_elem_of_omap in Hf as ([f'|] & Hin & [= ->]).
      unfold out in Hin. apply list_elem_of_lookup in Hin as [i Hi]. rewrite list_lookup_imap in Hi.
      apply fmap_Some in Hi as (raw & Hraw & Ha). eauto 6. }
  clearbody fs es.
  eexists. split; [reflexivity|].
  destruct fs as [|f fs'], es as [|e es']; cbn [ri_request_id ri_findings ri_errors needs_resend]; split_and!; try done.
  all: rewrite ?Hok; unfold ingest_ok; cbn; try done.
  all: intros Hr; destruct raws; [done|cbn in Hlen; lia].
Qed.
End ingest.
