(* ===== verification/Stage2.v ===== *)
(** * Stage 2 (audit_agent/planner/stage2.py)

    Requests are emitted for the targets not yet in the manifest, and the responses
    that have arrived are ingested; the manifest file carries the progress from one
    run to the next.  The kernel's transport is a class: it issues request ids, and
    a request id stays bound to its target. *)

From S2P Require Import Prelude PyStr PyVal PyJson Finding Session Relay.

(** The relay transport of the kernel, over a store [W]. *)
Class Transport (W : Type) := {
  tr_request : string -> string -> option string -> W -> string * W;
  tr_response : W -> string -> option string;
  (** the target a request id was issued for *)
  tr_owner : W -> string -> option string;
}.

(** Without an operation id a request gets an id that stays bound to its target; with one,
    the id of the request is the operation's, where the answer is then looked for *)
Class TransportLaws (W : Type) `{Transport W} := {
  tr_request_owner t c w : is_ascii t -> is_ascii (tr_request t c None w).1 /\
    tr_owner (tr_request t c None w).2 (tr_request t c None w).1 = Some t;
  tr_owner_stable t c w id t' : tr_owner w id = Some t' -> tr_owner (tr_request t c None w).2 id = Some t';
  tr_request_operation t c o w : (tr_request t c (Some o) w).1 = o;
}.

(** The operation id of a request: an empty one is none *)
Definition operation (operation_id : option string) : option string :=
  match operation_id with Some o => if truthy o then Some o else None | None => None end.

Record Stage2Result := mkStage2 {
  s2_status : string;
  s2_findings : list Finding;
  s2_pending : list string;
  s2_requested : nat;
  s2_ingested : nat;
}.

Definition s2_done (r : Stage2Result) : bool := String.eqb (s2_status r) "done".

Section stage2.
Context {W : Type} `{Transport W} {Principal : Type}.
Context (extract_findings : string -> res (list payload)) (relay_adapter_error : exn -> bool)
  (make_finding : payload -> res Finding) (sanitize : string -> Sanitized).
Context (context_provider : string -> res string).

(** What a run reads and writes: the relay store, the manifest file of the
    session, the session object. *)
Record st := mkSt {
  st_world : W;
  st_manifest : option string;
  st_session : @AuditSession Principal;
}.

Abbreviation M := (ST st).

Definition load_manifest : M pyval := st_gets (fun s =>
  match st_manifest s with
  | None => PDict []
  | Some text => default (PDict []) (loads text)
  end).

Definition save_manifest (manifest : pyval) : M unit :=
  st_modify (fun s => mkSt (st_world s) (Some (dumps manifest)) (st_session s)).

(** [manifest.values()], [manifest.items()] *)
Definition items (v : pyval) (method : string) : res payload :=
  match v with
  | PDict d => Ok d
  | _ => Raise (Exn "AttributeError" ("'" +:+ type_name v +:+ "' object has no attribute '" +:+ method +:+ "'"))
  end.

Fixpoint targets_in (d : payload) : res (list pyval) :=
  match d with
  | [] => Ok []
  | (_, entry) :: d' => t ← getitem entry "target"; t ← hashable t; ts ← targets_in d'; Ok (t :: ts)
  end.

Definition issue (target context : string) (operation_id : option string) : M string := fun s =>
  let '(id, w) := tr_request target context operation_id (st_world s) in
  (mkSt w (st_manifest s) (st_session s), Ok id).

Definition new_entry (target : string) : pyval := PDict [("target", PStr target); ("ingested", PBool false)].

(** The first loop: a request for each target not yet in the manifest. *)
Fixpoint request_loop (already : list pyval) (operation_id : option string) (targets : list string)
    (manifest : payload) (requested : nat) : M (payload * nat) :=
  match targets with
  | [] => mret (manifest, requested)
  | target :: targets' =>
      if bool_decide (PStr target ∈ already) then request_loop already operation_id targets' manifest requested
      else
        context ← st_lift (context_provider target);
        id ← issue target context (operation operation_id);
        request_loop already operation_id targets' (assoc_set id (new_entry target) manifest) (S requested)
  end.

Record progress := mkProgress { pr_findings : list Finding; pr_pending : list string; pr_ingested : nat }.

Definition push_ids (fs : list Finding) : M unit := st_modify (fun s =>
  mkSt (st_world s) (st_manifest s) (foldl (fun a f => add_finding_id (Finding.finding_id f) a) (st_session s) fs)).

Definition relay_findings (r : RelayIngestResult) : list Finding := map rf_finding (ri_findings r).

(** The second loop, over the entries of the manifest: what remains of the
    manifest, with the entries ingested marked, and the progress. *)
Fixpoint ingest_loop (entries : payload) (p : progress) : M (payload * progress) :=
  match entries with
  | [] => mret ([], p)
  | (id, entry) :: entries' =>
      flag ← st_lift (getitem entry "ingested");
      if truthy_val flag then
        rest ← ingest_loop entries' p; mret ((id, entry) :: rest.1, rest.2)
      else
        w ← st_gets st_world;
        result ← st_lift (ingest_response extract_findings relay_adapter_error make_finding sanitize (tr_response w) id None);
        if needs_resend result then
          rest ← ingest_loop entries' (mkProgress (pr_findings p) (pr_pending p ++ [id]) (pr_ingested p));
          mret ((id, entry) :: rest.1, rest.2)
        else
          _ ← push_ids (relay_findings result);
          entry' ← st_lift (setitem entry "ingested" (PBool true));
          rest ← ingest_loop entries'
            (mkProgress (pr_findings p ++ relay_findings result) (pr_pending p) (S (pr_ingested p)));
          mret ((id, entry') :: rest.1, rest.2)
  end.

Definition run_stage2 (targets : list string) (operation_id : option string) : M Stage2Result :=
  v ← load_manifest;
  d ← st_lift (items v "values");
  already ← st_lift (targets_in d);
  requested ← request_loop already operation_id targets d 0;
  _ ← save_manifest (PDict requested.1);
  done ← ingest_loop requested.1 (mkProgress [] [] 0);
  _ ← save_manifest (PDict done.1);
  let p := done.2 in
  mret (mkStage2 (match pr_pending p with [] => "done" | _ => "paused" end)
    (pr_findings p) (pr_pending p) requested.2 (pr_ingested p)).

(** ** The manifest as a list of (request, target, ingested) *)

Abbreviation entries := (list (string * (string * bool))).

Definition enc (e : string * (string * bool)) : string * pyval :=
  (e.1, PDict [("target", PStr e.2.1); ("ingested", PBool e.2.2)]).
Definition manifest_doc (es : entries) : pyval := PDict (map enc es).

(** Request ids are distinct and, when requests get ids of their own, each is bound to its
    entry's target. *)
Definition manifest_wf (op : option string) (es : entries) (w : W) : Prop :=
  NoDup es.*1 /\ Forall (fun e => is_ascii e.1 /\ is_ascii e.2.1 /\ (operation op = None -> tr_owner w e.1 = Some e.2.1)) es.

(** The targets that have no entry, in the order given *)
Definition targets_of (es : entries) : list string := map (fun e => e.2.1) es.
Definition uncovered (es : entries) (ts : list string) : list string := List.filter (fun t => negb (bool_decide (t ∈ targets_of es))) ts.
(** The manifest once they were requested under one operation: one entry, the last one's *)
Definition under_operation (o : string) (es : entries) (ts : list string) : entries :=
  match last ts with Some t => assoc_set o (t, false) es | None => es end.

(** What has arrived for a request, and the exception that reading it raises, if any *)
Definition response (w : W) (id : string) : res RelayIngestResult :=
  ingest_response extract_findings relay_adapter_error make_finding sanitize (tr_response w) id None.
Definition response_of (w : W) (id : string) : RelayIngestResult := default (resend id "") (res_to_option (response w id)).
Definition unreadable (w : W) (e : string * (string * bool)) : option exn :=
  if e.2.2 then None else match response w e.1 with Raise x => Some x | Ok _ => None end.
Definition arrived (w : W) (e : string * (string * bool)) : bool :=
  negb e.2.2 && negb (needs_resend (response_of w e.1)).
Definition waiting (w : W) (e : string * (string * bool)) : bool :=
  negb e.2.2 && needs_resend (response_of w e.1).
Definition mark (w : W) (e : string * (string * bool)) : string * (string * bool) :=
  (e.1, (e.2.1, e.2.2 || arrived w e)).
Definition new_findings (w : W) (es : entries) : list Finding :=
  List.concat (map (fun e => relay_findings (response_of w e.1)) (List.filter (arrived w) es)).
Definition pendings (w : W) (es : entries) : list string := map fst (List.filter (waiting w) es).

Definition add_findings (fs : list Finding) (s : st) : st :=
  mkSt (st_world s) (st_manifest s) (foldl (fun a f => add_finding_id (Finding.finding_id f) a) (st_session s) fs).

Lemma manifest_plain op es w : manifest_wf op es w -> plain (manifest_doc es).
Proof.
  intros [Hnd Hall]. constructor.
  - apply Forall_forall. intros kv Hkv. apply list_elem_of_fmap in Hkv as (e & -> & He).
    rewrite Forall_forall in Hall. destruct (Hall e He) as (? & ? & _). split; [done|].
    constructor; [|repeat constructor; set_solver].
    repeat constructor; done.
  - replace (map enc es).*1 with es.*1; [done|]. rewrite <- list_fmap_compose. done.
Qed.

Lemma targets_in_enc es : targets_in (map enc es) = Ok (map (fun e => PStr e.2.1) es).
Proof. induction es as [|e es IH]; [done|]. cbn. by rewrite IH. Qed.

Lemma assoc_set_enc id t (es : entries) :
  assoc_set id (new_entry t) (map enc es) = map enc (assoc_set id (t, false) es).
Proof. induction es as [|[k v] es IH]; cbn; [done|]. case_decide; cbn; [done|]. by rewrite IH. Qed.

Lemma add_findings_app fs gs s : add_findings gs (add_findings fs s) = add_findings (fs ++ gs) s.
Proof. unfold add_findings. cbn. by rewrite foldl_app. Qed.

Lemma add_findings_nil s : add_findings [] s = s.
Proof. by destruct s. Qed.

Lemma st_bind_Raise {A B} (m : M A) (f : A -> M B) s0 s1 e : m s0 = (s1, Raise e) -> (m ≫= f) s0 = (s1, Raise e).
Proof. unfold mbind, st_bind. by intros ->. Qed.

Lemma ingest_pending id t (d : payload) p s :
  ingest_loop (enc (id, (t, false)) :: d) p s =
  (result ← st_lift (response (st_world s) id);
   if needs_resend result then
     rest ← ingest_loop d (mkProgress (pr_findings p) (pr_pending p ++ [id]) (pr_ingested p));
     mret (enc (id, (t, false)) :: rest.1, rest.2)
   else
     _ ← push_ids (relay_findings result);
     entry' ← st_lift (setitem (enc (id, (t, false))).2 "ingested" (PBool true));
     rest ← ingest_loop d
       (mkProgress (pr_findings p ++ relay_findings result) (pr_pending p) (S (pr_ingested p)));
     mret ((id, entry') :: rest.1, rest.2)) s.
Proof. reflexivity. Qed.

Lemma ingest_step id t b (d : payload) p s :
  unreadable (st_world s) (id, (t, b)) = None ->
  ingest_loop (enc (id, (t, b)) :: d) p s =
  if b then (rest ← ingest_loop d p; mret (enc (id, (t, b)) :: rest.1, rest.2)) s
  else let r := response_of (st_world s) id in
    if needs_resend r then
      (rest ← ingest_loop d (mkProgress (pr_findings p) (pr_pending p ++ [id]) (pr_ingested p));
       mret (enc (id, (t, b)) :: rest.1, rest.2)) s
    else
      (rest ← ingest_loop d (mkProgress (pr_findings p ++ relay_findings r) (pr_pending p) (S (pr_ingested p)));
       mret (enc (id, (t, true)) :: rest.1, rest.2)) (add_findings (relay_findings r) s).
Proof.
  destruct b; [reflexivity|]. rewrite ingest_pending. unfold unreadable, response_of. cbn [fst snd].
  destruct (response (st_world s) id) as [result|]; [|done]. intros _. cbv zeta. cbn [res_to_option default]. unfold Datatypes.id.
  unfold mbind at 1, st_bind at 1. cbn [st_lift]. destruct (needs_resend result); reflexivity.
Qed.

Lemma ingest_step_raises id t b (d : payload) p s x :
  unreadable (st_world s) (id, (t, b)) = Some x -> ingest_loop (enc (id, (t, b)) :: d) p s = (s, Raise x).
Proof.
  destruct b; [done|]. rewrite ingest_pending. unfold unreadable. cbn [fst snd].
  destruct (response (st_world s) id) as [result|x']; [done|]. by intros [= ->].
Qed.

(** The loop up to the first answer that cannot be read *)
Lemma ingest_loop_ok es p s :
  match omap (unreadable (st_world s)) es with
  | [] => ingest_loop (map enc es) p s =
      (add_findings (new_findings (st_world s) es) s,
       Ok (map enc (map (mark (st_world s)) es),
           mkProgress (pr_findings p ++ new_findings (st_world s) es)
             (pr_pending p ++ pendings (st_world s) es)
             (pr_ingested p + length (List.filter (arrived (st_world s)) es))))
  | x :: _ => exists before e, before ++ [e] `prefix_of` es /\ unreadable (st_world s) e = Some x /\
      ingest_loop (map enc es) p s = (add_findings (new_findings (st_world s) before) s, Raise x)
  end.
Proof.
  revert p s. induction es as [|[id [t b]] es IH]; intros p s.
  { cbn. rewrite !app_nil_r, Nat.add_0_r, add_findings_nil. by destruct p. }
  cbn [omap list_omap]. change (map enc ((id, (t, b)) :: es)) with (enc (id, (t, b)) :: map enc es).
  destruct (unreadable (st_world s) (id, (t, b))) as [x|] eqn:Hu.
  { exists [], (id, (t, b)). split; [apply prefix_cons, prefix_nil|]. split; [done|].
    rewrite (ingest_step_raises _ _ _ _ _ _ _ Hu). by rewrite add_findings_nil. }
  rewrite ingest_step by done. cbv zeta.
  assert (forall es', new_findings (st_world s) ((id, (t, b)) :: es') =
    (if arrived (st_world s) (id, (t, b)) then relay_findings (response_of (st_world s) id) else []) ++ new_findings (st_world s) es') as Hnew.
  { intros es'. unfold new_findings. cbn [List.filter]. by destruct (arrived _ _). }
  assert (arrived (st_world s) (id, (t, b)) = negb b && negb (needs_resend (response_of (st_world s) id))) as Harr by done.
  change (map (mark (st_world s)) ((id, (t, b)) :: es)) with ((id, (t, b || arrived (st_world s) (id, (t, b)))) :: map (mark (st_world s)) es).
  unfold pendings. cbn [List.filter]. rewrite Hnew.
  change (waiting (st_world s) (id, (t, b))) with (negb b && needs_resend (response_of (st_world s) id)). rewrite Harr in *.
  set (R := response_of (st_world s) id) in *.
  assert (forall q s0, st_world s0 = st_world s ->
    match omap (unreadable (st_world s)) es with
    | [] => ingest_loop (map enc es) q s0 =
        (add_findings (new_findings (st_world s) es) s0, Ok (map enc (map (mark (st_world s)) es),
           mkProgress (pr_findings q ++ new_findings (st_world s) es) (pr_pending q ++ pendings (st_world s) es)
             (pr_ingested q + length (List.filter (arrived (st_world s)) es))))
    | x :: _ => exists before e, before ++ [e] `prefix_of` es /\ unreadable (st_world s) e = Some x /\ ingest_loop (map enc es) q s0 = (add_findings (new_findings (st_world s) before) s0, Raise x)
    end) as IH'. { intros q s0 Hw. specialize (IH q s0). by rewrite Hw in IH. }
  clear IH. destruct b; cbn [negb andb orb app]; [|destruct (needs_resend R) eqn:HR; cbn [negb andb orb app]].
  - specialize (IH' p s eq_refl). destruct (omap _ es) as [|x xs].
    + by rewrite (st_bind_Ok _ _ _ _ _ IH').
    + destruct IH' as (before & e & Hp & He & Hrun). exists ((id, (t, true)) :: before), e. split; [by apply prefix_cons|]. split; [done|]. rewrite Hnew. cbn [negb andb app].
      unfold mbind, st_bind. by rewrite Hrun.
  - specialize (IH' (mkProgress (pr_findings p) (pr_pending p ++ [id]) (pr_ingested p)) s eq_refl). destruct (omap _ es) as [|x xs].
    + rewrite (st_bind_Ok _ _ _ _ _ IH'). cbn [pr_findings pr_pending pr_ingested fst snd map]. by rewrite <- app_assoc.
    + destruct IH' as (before & e & Hp & He & Hrun). exists ((id, (t, false)) :: before), e. split; [by apply prefix_cons|]. split; [done|]. rewrite Hnew. cbn [negb andb app].
      unfold mbind, st_bind. by rewrite Hrun.
  - specialize (IH' (mkProgress (pr_findings p ++ relay_findings R) (pr_pending p) (S (pr_ingested p))) (add_findings (relay_findings R) s) eq_refl).
    destruct (omap _ es) as [|x xs].
    + rewrite (st_bind_Ok _ _ _ _ _ IH'). cbn [pr_findings pr_pending pr_ingested fst snd map length].
      rewrite add_findings_app, <- app_assoc. unfold mret, st_ret. cbn [fst snd]. by rewrite <- Nat.add_succ_comm.
    + destruct IH' as (before & e & Hp & He & Hrun). exists ((id, (t, false)) :: before), e. split; [by apply prefix_cons|]. split; [done|]. rewrite Hnew. cbn [negb andb].
      unfold mbind, st_bind. rewrite Hrun. by rewrite add_findings_app.
Qed.

Definition with_world (w : W) (s : st) : st := mkSt w (st_manifest s) (st_session s).

Context `{!TransportLaws W}.

(** One request keeps the manifest well formed and adds its target; with an id of its own
    it only ever replaces an entry of the same target. *)
Lemma request_step es w t c op :
  manifest_wf op es w -> is_ascii t -> (forall o, op = Some o -> is_ascii o) ->
  let id := (tr_request t c (operation op) w).1 in let w' := (tr_request t c (operation op) w).2 in
  let es' := assoc_set id (t, false) es in
  manifest_wf op es' w' /\ (forall o, operation op = Some o -> id = o) /\
  (operation op = None ->
   (id, (t, false)) ∈ es' /\ (forall e, e ∈ es -> e.2.1 <> t -> e ∈ es') /\
   (forall t', (exists id b, (id, (t', b)) ∈ es) -> exists id b, (id, (t', b)) ∈ es')).
Proof.
  intros [Hnd Hall] Ht Hasc id w' es'. destruct (operation op) as [o|] eqn:Hop.
  - assert (id = o) as Hid by apply tr_request_operation. assert (is_ascii o) as Ho.
    { unfold operation in Hop. destruct op as [o'|]; [|done]. destruct (truthy o'); [|done]. injection Hop as ->. by apply Hasc. }
    split_and!; [split|by intros o' [= <-]|done].
    + by apply NoDup_assoc_set.
    + apply Forall_assoc_set; [cbn [fst snd]; rewrite Hid; split_and!; [done..|congruence]|]. eapply Forall_impl; [exact Hall|].
      intros e (? & ? & _). split_and!; [done..|]. congruence.
  - destruct (tr_request_owner t c w Ht) as [Hi Hown]. fold id in Hi, Hown. fold w' in Hown.
    assert (forall e, e ∈ es -> tr_owner w' e.1 = Some e.2.1) as Hold.
    { intros e He. rewrite Forall_forall in Hall. destruct (Hall e He) as (_ & _ & Ho). by apply tr_owner_stable, Ho. }
    assert (forall e, e ∈ es -> e.2.1 <> t -> e ∈ es') as Hkeep.
    { intros [k v] Hin Hne. apply elem_of_assoc_set_ne; [done|]. intros ->. specialize (Hold _ Hin). cbn in Hold, Hne. congruence. }
    split_and!; [split|done|intros _; split_and!; [apply elem_of_assoc_set_eq|exact Hkeep|]].
    + by apply NoDup_assoc_set.
    + apply Forall_assoc_set; [done|]. apply Forall_forall. intros e He. rewrite Forall_forall in Hall. destruct (Hall e He) as (? & ? & _). auto.
    + intros t' (k & b & Hin). destruct (decide (t' = t)) as [->|Hne].
      * exists id, false. apply elem_of_assoc_set_eq.
      * exists k, b. by apply Hkeep.
Qed.

Lemma assoc_set_twice (k : string) (v v' : string * bool) es : assoc_set k v' (assoc_set k v es) = assoc_set k v' es.
Proof.
  induction es as [|[k1 v1] es IH]; cbn; [by rewrite decide_True|].
  destruct (decide (k = k1)) as [->|Hn]; cbn; [by rewrite decide_True|rewrite decide_False by done; by rewrite IH].
Qed.

Lemma under_operation_cons o t ts es :
  under_operation o (assoc_set o (t, false) es) ts = under_operation o es (t :: ts).
Proof.
  unfold under_operation. destruct ts as [|t' ts]; [done|]. rewrite !last_cons. cbn. destruct (last ts); cbn; by rewrite assoc_set_twice.
Qed.

Definition fresh_targets (already ts : list string) : list string := List.filter (fun t => negb (bool_decide (t ∈ already))) ts.

Lemma request_loop_ok already op ts es n s :
  manifest_wf op es (st_world s) -> Forall is_ascii ts -> (forall o, op = Some o -> is_ascii o) ->
  exists w', (exists e t, request_loop (map PStr already) op ts (map enc es) n s = (with_world w' s, Raise e) /\
      t ∈ fresh_targets already ts /\ context_provider t = Raise e) \/
  exists es', request_loop (map PStr already) op ts (map enc es) n s = (with_world w' s, Ok (map enc es', n + length (fresh_targets already ts))) /\
    manifest_wf op es' w' /\
    (operation op = None ->
     (forall t, t ∈ ts -> t ∈ already \/ exists id b, (id, (t, b)) ∈ es') /\
     (forall t, (exists id b, (id, (t, b)) ∈ es) -> exists id b, (id, (t, b)) ∈ es') /\
     (forall e, e ∈ es -> e.2.1 ∈ already -> e ∈ es')) /\
    (forall o, operation op = Some o -> es' = under_operation o es (fresh_targets already ts)) /\
    (fresh_targets already ts = [] -> es' = es /\ w' = st_world s).
Proof.
  intros Hwf Hasc Hop. revert es n s Hwf. induction Hasc as [|t ts Ht Hasc IH]; intros es n s Hwf.
  { exists (st_world s). right. exists es. cbn. rewrite Nat.add_0_r. split_and!; try done; [by destruct s|].
    intros _. split_and!; [by intros t ?%not_elem_of_nil|done..]. }
  cbn [request_loop]. unfold fresh_targets. cbn [List.filter].
  assert (bool_decide (PStr t ∈ map PStr already) = bool_decide (t ∈ already)) as ->.
  { apply bool_decide_ext. rewrite list_elem_of_fmap. naive_solver. }
  destruct (bool_decide_reflect (t ∈ already)) as [Hin|Hin]; cbn [negb]; fold (fresh_targets already ts).
  - destruct (IH es n s Hwf) as [w' [Hr|(es' & Hrun & Hwf' & Hnone & Hsome & Hsame)]]; exists w'; [by left|right].
    exists es'. split_and!; [done..| |done|done]. intros Hn. destruct (Hnone Hn) as (H1 & H2 & H3). split_and!; [|done..].
    intros t' [->|Ht']%elem_of_cons; auto.
  - destruct (context_provider t) as [c|e] eqn:Hc.
    2: { exists (st_world s). left. exists e, t. split_and!; [|by left|done]. by destruct s. }
    destruct (request_step es (st_world s) t c op Hwf Ht Hop) as (Hwf1 & Hid & Hnone1).
    set (id := (tr_request t c (operation op) (st_world s)).1) in *. set (w1 := (tr_request t c (operation op) (st_world s)).2) in *.
    assert (forall k : string -> M (payload * nat), (context ← st_lift (Ok c); id ← issue t context (operation op); k id) s = k id (with_world w1 s)) as Hrun1.
    { intros k. unfold mbind, st_bind, st_lift, issue. unfold id, w1. by destruct (tr_request t c (operation op) (st_world s)). }
    rewrite Hrun1, assoc_set_enc.
    destruct (IH (assoc_set id (t, false) es) (S n) (with_world w1 s) Hwf1) as [w' [(e & t' & Hr & Hf & He)|(es' & Hrun & Hwf' & Hnone & Hsome & Hsame)]];
      exists w'; [left|right].
    + exists e, t'. split_and!; [done|by right|done].
    + exists es'. cbn [length]. rewrite Nat.add_succ_r. split_and!; [exact Hrun|done| | |done].
      * intros Hn. destruct (Hnone Hn) as (H1 & H2 & H3), (Hnone1 Hn) as (Hnew & Hkeep & Htgt). split_and!.
        -- intros t' [->|Ht']%elem_of_cons; [|by apply H1]. right. apply H2. eauto.
        -- intros t' Ht'. by apply H2, Htgt.
        -- intros e He Ha. apply H3; [|done]. apply Hkeep; [done|]. intros Heq. by rewrite Heq in Ha.
      * intros o Ho. rewrite (Hsome o Ho), (Hid o Ho). apply under_operation_cons.
Qed.

Lemma mark_arrived w e : arrived w (mark w e) = false.
Proof. destruct e as [id [t b]]. unfold mark, arrived. cbn. destruct b; cbn; [done|]. by destruct (needs_resend _). Qed.

Lemma mark_waiting w e : waiting w (mark w e) = waiting w e /\ waiting w e = negb (mark w e).2.2.
Proof.
  destruct e as [id [t b]]. unfold mark, waiting, arrived. cbn. destruct b; cbn; [done|].
  by destruct (needs_resend _).
Qed.

Lemma mark_idemp w e : mark w (mark w e) = mark w e.
Proof. unfold mark at 1. rewrite mark_arrived, orb_false_r. by destruct e as [id [t b]]. Qed.

Lemma new_findings_marked w es : new_findings w (map (mark w) es) = [] /\
  List.filter (arrived w) (map (mark w) es) = [].
Proof.
  assert (List.filter (arrived w) (map (mark w) es) = []) as Hf.
  { apply filter_all_false. intros x (e & -> & _)%list_elem_of_fmap. apply mark_arrived. }
  unfold new_findings. by rewrite Hf.
Qed.

Lemma pendings_marked w es :
  pendings w (map (mark w) es) = pendings w es /\
  pendings w es = map fst (List.filter (fun e => negb e.2.2) (map (mark w) es)).
Proof.
  unfold pendings. induction es as [|e es [IH1 IH2]]; [done|]. cbn [map List.filter].
  destruct (mark_waiting w e) as [Hw Hw']. rewrite Hw, <- Hw'.
  destruct (waiting w e); cbn [map]; rewrite ?IH1, <- ?IH2; done.
Qed.

Definition on_disk (es : entries) (s : st) : Prop :=
  st_manifest s = Some (dumps (manifest_doc es)) \/ (st_manifest s = None /\ es = []).

Lemma load_manifest_ok op es s :
  manifest_wf op es (st_world s) -> on_disk es s -> load_manifest s = (s, Ok (manifest_doc es)).
Proof.
  intros Hwf [Hd|[Hd ->]]; unfold load_manifest, st_gets; rewrite Hd; [|done].
  by rewrite loads_dumps by (by eapply manifest_plain).
Qed.

(** What a run that got its contexts leaves, from the entries [es1] once requested *)
Definition stage2_state (es1 : entries) (w : W) (s : st) : st :=
  add_findings (new_findings w es1) (mkSt w (Some (dumps (manifest_doc (map (mark w) es1)))) (st_session s)).
Definition stage2_result (es1 : entries) (w : W) (n : nat) : Stage2Result :=
  mkStage2 (match pendings w es1 with [] => "done" | _ => "paused" end)
    (new_findings w es1) (pendings w es1) n (length (List.filter (arrived w) es1)).

Lemma run_stage2_ok es s ts op :
  manifest_wf op es (st_world s) -> on_disk es s -> Forall is_ascii ts -> (forall o, op = Some o -> is_ascii o) ->
  exists w, (exists e t, run_stage2 ts op s = (with_world w s, Raise e) /\ t ∈ uncovered es ts /\ context_provider t = Raise e) \/
  exists es1,
    match omap (unreadable w) es1 with
    | [] => run_stage2 ts op s = (stage2_state es1 w s, Ok (stage2_result es1 w (length (uncovered es ts))))
    | x :: _ => exists before e, before ++ [e] `prefix_of` es1 /\ unreadable w e = Some x /\
        run_stage2 ts op s = (add_findings (new_findings w before) (mkSt w (Some (dumps (manifest_doc es1))) (st_session s)), Raise x)
    end /\
    manifest_wf op es1 w /\
    (operation op = None -> (forall t, t ∈ ts -> exists id b, (id, (t, b)) ∈ es1) /\ (forall e, e ∈ es -> e ∈ es1)) /\
    (forall o, operation op = Some o -> es1 = under_operation o es (uncovered es ts)) /\
    (uncovered es ts = [] -> es1 = es /\ w = st_world s).
Proof.
  intros Hwf Hd Hasc Hop.
  assert (forall (A : Type) (k : list pyval -> payload -> M A), (v ← load_manifest; d ← st_lift (items v "values"); already ← st_lift (targets_in d); k already d) s
    = k (map PStr (targets_of es)) (map enc es) s) as Hload.
  { intros A k. rewrite (st_bind_Ok _ _ _ _ _ (load_manifest_ok op es s Hwf Hd)), (st_bind_Ok _ _ s s (map enc es)) by done.
    rewrite (st_bind_Ok _ _ s s (map (fun e => PStr e.2.1) es)) by (unfold st_lift; by rewrite targets_in_enc).
    unfold targets_of. by rewrite List.map_map. }
  destruct (request_loop_ok (targets_of es) op ts es 0 s Hwf Hasc Hop) as [w [(e & t & Hrun & Ht & He)|(es1 & Hrun & Hwf1 & Hnone & Hsome & Hsame)]];
    exists w; [left|right].
  - exists e, t. split_and!; [|done|done]. unfold run_stage2. rewrite Hload. unfold mbind, st_bind. by rewrite Hrun.
  - exists es1. split_and!; try done.
    + pose proof (ingest_loop_ok es1 (mkProgress [] [] 0) (mkSt w (Some (dumps (PDict (map enc es1)))) (st_session s))) as Hi. cbn [st_world] in Hi.
      unfold run_stage2. rewrite Hload, (st_bind_Ok _ _ _ _ _ Hrun). cbn [fst].
      unfold save_manifest at 1, st_modify at 1. rewrite (st_bind_Ok _ _ _ (mkSt w (Some (dumps (PDict (map enc es1)))) (st_session s)) tt) by done.
      destruct (omap (unreadable w) es1) as [|x xs].
      * rewrite (st_bind_Ok _ _ _ _ _ Hi). cbn [st_world pr_findings pr_pending pr_ingested fst snd].
        unfold save_manifest, st_modify. reflexivity.
      * destruct Hi as (before & e & Hp & He & Hi). exists before, e. split_and!; [done|done|]. exact (st_bind_Raise _ _ _ _ _ Hi).
    + intros Hn. destruct (Hnone Hn) as (H1 & H2 & H3). split.
      * intros t Ht. destruct (H1 t Ht) as [Hin|?]; [|done]. apply list_elem_of_fmap in Hin as ([id [t' b]] & -> & Hin). apply H2. eauto.
      * intros e He. apply H3; [done|]. apply list_elem_of_fmap. by exists e.
Qed.

(** Once marked, what arrived is not read again *)
Lemma unreadable_marked w es : omap (unreadable w) es = [] -> omap (unreadable w) (map (mark w) es) = [].
Proof.
  induction es as [|[id [t b]] es IH]; [done|]. cbn [map omap list_omap]. intros Hr.
  assert (unreadable w (id, (t, b)) = None) as Hu by (by destruct (unreadable w (id, (t, b)))).
  rewrite Hu in Hr. unfold unreadable, mark in *. cbn [fst snd] in *. destruct (b || arrived w (id, (t, b))) eqn:Hb; [by apply IH|].
  apply orb_false_iff in Hb as [-> _]. destruct (response w id); [by apply IH|done].
Qed.

Definition covers (es : entries) (ts : list string) : Prop := forall t, t ∈ ts -> exists id b, (id, (t, b)) ∈ es.

Lemma uncovered_none es ts : covers es ts -> uncovered es ts = [].
Proof.
  intros Hc. apply filter_all_false. intros t Ht. apply negb_false_iff, bool_decide_eq_true. destruct (Hc t Ht) as (id & b & Hin).
  apply list_elem_of_fmap. by exists (id, (t, b)).
Qed.

Lemma mark_wf op es w : manifest_wf op es w -> manifest_wf op (map (mark w) es) w.
Proof.
  intros [Hnd Hall]. split; [by rewrite <- list_fmap_compose|]. apply Forall_fmap. eapply Forall_impl; [exact Hall|]. by intros [].
Qed.

Lemma covers_mark w es ts : covers es ts <-> covers (map (mark w) es) ts.
Proof.
  split; intros Hc t Ht; destruct (Hc t Ht) as (id & b & He).
  - exists id, (mark w (id, (t, b))).2.2. apply list_elem_of_fmap. by exists (id, (t, b)).
  - apply list_elem_of_fmap in He as ([id' [t' b']] & [= -> -> ->] & He). by exists id', b'.
Qed.

Lemma finding_ids_added fs (se : @AuditSession Principal) :
  Session.finding_ids (foldl (fun a f => add_finding_id (Finding.finding_id f) a) se fs) = Session.finding_ids se ++ map Finding.finding_id fs.
Proof. revert se. induction fs as [|f fs IH]; intros se; cbn; [by rewrite app_nil_r|]. rewrite IH. cbn. by rewrite <- app_assoc. Qed.

(** A run over what a run left behind, when every target is covered *)
Lemma run_stage2_again op es1 w s ts n :
  manifest_wf op es1 w -> Forall is_ascii ts -> (forall o, op = Some o -> is_ascii o) -> covers es1 ts -> omap (unreadable w) es1 = [] ->
  run_stage2 ts op (stage2_state es1 w s) =
    (stage2_state es1 w s, Ok (mkStage2 (s2_status (stage2_result es1 w n)) [] (s2_pending (stage2_result es1 w n)) 0 0)).
Proof.
  intros Hwf Hasc Hop Hc Hread. set (es' := map (mark w) es1).
  destruct (pendings_marked w es1) as [Hp1 Hp2], (new_findings_marked w es1) as [Hn1 Hn2]. fold es' in Hp1, Hp2, Hn1, Hn2.
  assert (uncovered es' ts = []) as Hun by by apply uncovered_none, covers_mark.
  destruct (run_stage2_ok es' (stage2_state es1 w s) ts op) as [w2 [(e & t & _ & Ht & _)|(es2 & Hrun & _ & _ & _ & Hsame)]];
    [by apply mark_wf|by left|done|done| |].
  - rewrite Hun in Ht. by apply not_elem_of_nil in Ht.
  - destruct (Hsame Hun) as [-> ->]. change (st_world (stage2_state es1 w s)) with w in Hrun. rewrite (unreadable_marked w es1 Hread : omap (unreadable w) es' = []) in Hrun.
    rewrite Hrun, Hun. unfold stage2_result, stage2_state. cbn [st_world add_findings s2_status s2_pending].
    rewrite Hn1, Hn2, Hp1, add_findings_nil. cbn [length]. f_equal. unfold add_findings. cbn [st_world st_session st_manifest].
    do 4 f_equal. unfold es'. rewrite List.map_map. apply List.map_ext. intros e. apply mark_idemp.
Qed.

(** C22. Stage 2 makes progress and resumes, over a well-formed manifest, on disk or absent.
    A run raises only what the context of a target without an entry raises, and then leaves
    the manifest and the session, or what reading an answer that arrived raises besides a
    refusal to extract from it, and then the requests are in the manifest but no answer is
    marked, although the session got the ids of those before.  Otherwise it requests each
    of the targets without an entry, ingests what arrived for the entries not ingested,
    lists as pending exactly the entries that remain, is done when there is none, and
    appends exactly the ids of its findings to the session.  Without an operation id every
    target given gets its entry and no entry is lost; with one all the requests have that
    one id, so one entry stands for the last target only.  Whenever every target has its
    entry, running again on what was left requests nothing, ingests nothing, repeats no
    finding and changes nothing. *)
Theorem run_stage2_resumes es s ts op
    (Hwf : manifest_wf op es (st_world s)) (Hd : on_disk es s) (Hasc : Forall is_ascii ts) (Hop : forall o, op = Some o -> is_ascii o) :
  match run_stage2 ts op s with
  | (s', Raise e) =>
      (st_manifest s' = st_manifest s /\ st_session s' = st_session s /\ exists t, t ∈ uncovered es ts /\ context_provider t = Raise e) \/
      exists es1 before en, manifest_wf op es1 (st_world s') /\ st_manifest s' = Some (dumps (manifest_doc es1)) /\
        before ++ [en] `prefix_of` es1 /\ unreadable (st_world s') en = Some e /\
        Session.finding_ids (st_session s') =
          Session.finding_ids (st_session s) ++ map Finding.finding_id (new_findings (st_world s') before)
  | (s', Ok r) => exists es1, let w := st_world s' in let es' := map (mark w) es1 in
      manifest_wf op es' w /\ st_manifest s' = Some (dumps (manifest_doc es')) /\
      (operation op = None -> covers es' ts /\ forall e, e ∈ es -> e ∈ es1) /\
      (forall o, operation op = Some o -> es1 = under_operation o es (uncovered es ts)) /\
      s2_requested r = length (uncovered es ts) /\ s2_findings r = new_findings w es1 /\
      s2_ingested r = length (List.filter (arrived w) es1) /\
      s2_pending r = map fst (List.filter (fun e => negb e.2.2) es') /\
      (s2_done r = true <-> forall e, e ∈ es' -> e.2.2 = true) /\
      Session.finding_ids (st_session s') =
        Session.finding_ids (st_session s) ++ map Finding.finding_id (s2_findings r) /\
      (covers es' ts -> run_stage2 ts op s' = (s', Ok (mkStage2 (s2_status r) [] (s2_pending r) 0 0)))
  end.
Proof.
  destruct (run_stage2_ok es s ts op Hwf Hd Hasc Hop) as [w [(e & t & -> & Ht & He)|(es1 & Hrun & Hwf1 & Hnone & Hsome & _)]];
    [left; split_and!; [done..|]; by exists t|].
  destruct (omap (unreadable w) es1) as [|x xs] eqn:Hread.
  2: { destruct Hrun as (before & en & Hp & He & ->). right. exists es1, before, en. split_and!; try done. apply finding_ids_added. }
  rewrite Hrun. destruct (pendings_marked w es1) as [_ Hp2]. exists es1. cbv zeta. change (st_world (stage2_state es1 w s)) with w.
  split_and!; try done.
  - by apply mark_wf.
  - intros Hn. destruct (Hnone Hn) as [H1 H2]. split; [by apply covers_mark|done].
  - unfold s2_done, stage2_result. cbn [s2_status]. rewrite Hp2. split.
    + intros Hdone [id [t b]] He. destruct b; [done|].
      assert ((id, (t, false)) ∈ List.filter (fun e => negb e.2.2) (map (mark w) es1)) as Hf.
      { apply list_elem_of_In, filter_In. split; [by apply list_elem_of_In|done]. }
      destruct (List.filter _ (map (mark w) es1)); [by apply not_elem_of_nil in Hf|done].
    + intros Hall. rewrite filter_all_false; [done|]. intros e He. by rewrite (Hall e He).
  - apply finding_ids_added.
  - intros Hc. apply run_stage2_again; try done. by eapply covers_mark.
Qed.
End stage2.

(** A transport that numbers its requests, with the answers given. *)
Record DemoWorld := mkDemo { dw_owner : list (string * string); dw_answers : list (string * string) }.

#[export] Instance demo_transport : Transport DemoWorld := {
  tr_request t _ o w :=
    let id := default ("REQ-" +:+ t) o in
    (id, mkDemo (assoc_set id t (dw_owner w)) (dw_answers w));
  tr_response w id := assoc id (dw_answers w);
  tr_owner w id := drop_prefix "REQ-" id;
}.

#[export] Instance demo_transport_laws : TransportLaws DemoWorld.
Proof.
  split; cbn [tr_request tr_owner demo_transport fst snd default].
  - intros t _ _ Ht. split; [by repeat (constructor; [done|])|]. by apply drop_prefix_Some.
  - done.
  - done.
Qed.

Definition demo_state : @st DemoWorld unit :=
  mkSt (mkDemo [] [("REQ-a.sol:f", "ok")]) None
    (new_session "sid" "now" tt (mkInput (Some ["a.sol"]) None [] [] false tt None)).

Abbreviation demo_stage2 op state :=
  (run_stage2 (fun _ => Ok [[("finding_id", PStr "F1")]]) (fun _ => true) (fun _ => Ok (new_finding "F1" "a.sol:f" "f" Severity.high))
    (fun text => mkSanitized text []) (fun _ => Ok "ctx") ["a.sol:f"; "b.sol:g"] op state).

Lemma run_stage2_resumes_witness :
  exists s' r, demo_stage2 None demo_state = (s', Ok r) /\
    s2_pending r = ["REQ-b.sol:g"] /\ Session.finding_ids (st_session s') = ["F1"] /\
    map fst (dw_owner (st_world s')) = ["REQ-a.sol:f"; "REQ-b.sol:g"] /\
    demo_stage2 None s' = (s', Ok (mkStage2 (s2_status r) [] (s2_pending r) 0 0)).
Proof.
  destruct (demo_stage2 None demo_state) as [s' o] eqn:E. pose proof E as E'. vm_compute in E'. injection E' as <- <-. rewrite <- E.
  do 2 eexists. split; [exact E|]. split_and!; [vm_compute; reflexivity..|].
  pose proof (run_stage2_resumes (W := DemoWorld) (Principal := unit)
    (fun _ => Ok [[("finding_id", PStr "F1")]]) (fun _ => true)
    (fun _ => Ok (new_finding "F1" "a.sol:f" "f" Severity.high)) (fun s => mkSanitized s [])
    (fun _ => Ok "ctx") [] demo_state ["a.sol:f"; "b.sol:g"] None) as H. rewrite E in H.
  destruct H as (es1 & _ & _ & Hnone & _ & _ & _ & _ & _ & _ & _ & Hagain);
    [split; constructor|by right|repeat constructor|done|].
  apply Hagain. by apply Hnone.
Defined.

(** Under an operation id the requests of two targets share one entry, the last one's, and
    the first is requested again at every run *)
Example operation_collides :
  let r := demo_stage2 (Some "op-1") demo_state in
  st_manifest r.1 = Some (dumps (PDict [("op-1", PDict [("target", PStr "b.sol:g"); ("ingested", PBool false)])])) /\
  (s2_requested <$> res_to_option r.2) = Some 2 /\
  (s2_requested <$> res_to_option (demo_stage2 (Some "op-1") r.1).2) = Some 1.
Proof. vm_compute. split_and!; reflexivity. Qed.
