(* ===== verification/StaticAnalysis.v ===== *)
(** * Slither and Mythril (audit_agent/tools/static_analysis.py)

    The parsers work on the decoded JSON, whatever its shape: a value of another
    type than expected raises as in Python.  The sandbox is the kernel's: a function
    from a run request to the result of the container. *)

From S2P Require Import Prelude PyStr PyPath PyVal PyJson Finding.

(** ** The kernel's sandbox interface *)

Record Mount := mkMount { host_path : path; container_path : string; read_only : bool }.

Record SandboxRequest := mkRequest {
  rq_image : string;
  rq_command : list string;
  rq_mounts : list Mount;
  rq_workdir : option string;
  rq_timeout_s : string;
  rq_network : string;
  rq_env : list (string * string);
}.

Record SandboxResult := mkResult { sr_stdout : string; sr_stderr : string; sr_exit_code : Z; sr_ok : bool }.

Abbreviation Sandbox := (SandboxRequest -> res SandboxResult).

(** ** Slither *)

Definition SLITHER_IMAGE : string := "slither-sandbox".
Definition CONTAINER_MOUNT : string := "/audit/contracts".

Definition SLITHER_IMPACT_TO_SEVERITY : list (string * string) :=
  [("High", "high"); ("Medium", "medium"); ("Low", "low"); ("Informational", "informational");
   ("Optimization", "informational")].

Definition SLITHER_CHECK_TO_TAG : list (string * bastet_tag) :=
  [("reentrancy-eth", BastetTag.reentrancy);
   ("reentrancy-no-eth", BastetTag.reentrancy);
   ("reentrancy-benign", BastetTag.reentrancy);
   ("reentrancy-events", BastetTag.reentrancy);
   ("arbitrary-send-eth", BastetTag.arbitrary_external_call);
   ("unchecked-transfer", BastetTag.unchecked_return_value);
   ("unchecked-lowlevel", BastetTag.unchecked_return_value);
   ("unchecked-send", BastetTag.unchecked_return_value);
   ("tx-origin", BastetTag.access_control);
   ("suicidal", BastetTag.access_control);
   ("controlled-delegatecall", BastetTag.delegatecall_injection);
   ("delegatecall-loop", BastetTag.delegatecall_injection);
   ("weak-prng", BastetTag.timestamp_dependence);
   ("timestamp", BastetTag.timestamp_dependence);
   ("incorrect-equality", BastetTag.logic_error);
   ("missing-zero-check", BastetTag.missing_check)].

(** The dataclass does not check its field types. *)
Record SlitherFinding := mkSlither {
  sl_check : pyval;
  sl_impact : pyval;
  sl_confidence : pyval;
  sl_description : string;
  sl_function : pyval;
  sl_line : pyval;
}.

(** [d.get(k, dflt)] of a table with string keys; an unhashable key raises. *)
Definition table_get {A} (tbl : list (string * A)) (k : pyval) : res (option A) :=
  k ← hashable k; Ok (match k with PStr s => assoc s tbl | _ => None end).

Definition sl_severity (f : SlitherFinding) : res string :=
  s ← table_get SLITHER_IMPACT_TO_SEVERITY (sl_impact f); Ok (default "informational" s).

(** [next((e for e in elements if e.get("type") == "function"), None)] *)
Fixpoint first_function (elements : list pyval) : res (option pyval) :=
  match elements with
  | [] => Ok None
  | e :: es =>
      ty ← pget e "type" PNone;
      if bool_decide (ty = PStr "function") then Ok (Some e) else first_function es
  end.

(** [v[0]] *)
Definition index0 (v : pyval) : res pyval :=
  match v with
  | PList (x :: _) => Ok x
  | PList [] => Raise (Exn "IndexError" "list index out of range")
  | PStr (String c _) => Ok (PStr (String c ""))
  | PStr "" => Raise (Exn "IndexError" "string index out of range")
  | PDict _ => Raise (Exn "KeyError" "0")
  | _ => Raise (Exn "TypeError" ("'" +:+ type_name v +:+ "' object is not subscriptable"))
  end.

Definition element_function_line (elements : pyval) : res (pyval * pyval) :=
  es ← piter elements;
  func_el ← first_function es;
  el ← match func_el with
       | Some e => Ok e
       | None => if truthy_val elements then index0 elements else Ok PNone
       end;
  if negb (truthy_val el) then Ok (PStr "", PNone)
  else
    sm ← pget el "source_mapping" PNone;
    ls ← pget (por sm (PDict [])) "lines" PNone;
    let ls := por ls (PList []) in
    name ← pget (default (PDict []) func_el) "name" (PStr "");
    line ← (if truthy_val ls then index0 ls else Ok PNone);
    Ok (name, line).

Definition parse_detector (d : pyval) : res SlitherFinding :=
  elements ← pget d "elements" PNone;
  fl ← element_function_line (por elements (PList []));
  check ← pget d "check" (PStr "");
  impact ← pget d "impact" (PStr "");
  confidence ← pget d "confidence" (PStr "");
  descr ← pget d "description" (PStr "");
  descr ← pstr_method "strip" strip (por descr (PStr ""));
  Ok (mkSlither check impact confidence descr fl.1 fl.2).

Section static_analysis.
(** The text of a JSONDecodeError *)
Context (json_error : string -> string).

Definition parse_slither_json (stdout : string) : res (list SlitherFinding) :=
  match loads stdout with
  | None => Raise (Exn "SlitherError" ("could not parse slither JSON: " +:+ json_error stdout))
  | Some data =>
      results ← pget data "results" PNone;
      detectors ← pget (por results (PDict [])) "detectors" PNone;
      ds ← piter (por detectors (PList []));
      map_res parse_detector ds
  end.

(** [Finding(...)] on the fields given: only the function name may be ill typed. *)
Definition tool_finding (fid loc : string) (fn : pyval) (severity : string) (tag : option bastet_tag) : res Finding :=
  sev ← enum_call severity;
  match por fn (PStr "unknown") with
  | PStr name => Ok (with_tag tag (new_finding fid loc name sev))
  | _ => Raise (Exn "ValidationError" "function_name: Input should be a valid string")
  end.

(** [f"{file_rel}:{line}" if line else file_rel] *)
Definition tool_location (file_rel : string) (line : pyval) : string :=
  if truthy_val line then file_rel +:+ ":" +:+ py_str line else file_rel.

Definition slither_finding (file_rel id_prefix : string) (i : nat) (sf : SlitherFinding) : res Finding :=
  sev ← sl_severity sf;
  tag ← table_get SLITHER_CHECK_TO_TAG (sl_check sf);
  tool_finding (id_prefix +:+ "-" +:+ pad3 i) (tool_location file_rel (sl_line sf)) (sl_function sf) sev tag.

(** [enumerate(xs, 1)] *)
Fixpoint enum_res {A B} (f : nat -> A -> res B) (i : nat) (l : list A) : res (list B) :=
  match l with
  | [] => Ok []
  | x :: l' => y ← f i x; ys ← enum_res f (S i) l'; Ok (y :: ys)
  end.

Definition slither_to_findings (sfs : list SlitherFinding) (file_rel id_prefix : string) : res (list Finding) :=
  enum_res (slither_finding file_rel id_prefix) 1 sfs.

(** The common head of both runs: the target relative to the root. *)
Definition relative_target (fs : FileSystem) (err : string) (target audit_root : path) : res path :=
  let audit_root := fs_resolve fs audit_root in
  let target := fs_resolve fs target in
  match strip_parts audit_root target with
  | Some rel => Ok rel
  | None => Raise (Exn err ("target " +:+ path_str target +:+ " is outside audit root " +:+ path_str audit_root))
  end.

Definition scan_request (fs : FileSystem) (image : string) (command : list string) (audit_root : path)
    (timeout_s : string) : SandboxRequest :=
  mkRequest image command [mkMount (fs_resolve fs audit_root) CONTAINER_MOUNT true] None timeout_s "none" [].

Definition run_slither (fs : FileSystem) (sandbox : Sandbox) (target audit_root : path) (image : string)
    (detectors : option (list string)) (timeout_s : string) : res (list SlitherFinding) :=
  rel ← relative_target fs "SlitherError" target audit_root;
  let command := [CONTAINER_MOUNT +:+ "/" +:+ path_str rel; "--json"; "-"]
                 ++ match detectors with Some (d :: ds) => ["--detect"; join "," (d :: ds)] | _ => [] end in
  result ← sandbox (scan_request fs image command audit_root timeout_s);
  if negb (truthy (strip (sr_stdout result))) then
    Raise (Exn "SlitherError" ("slither produced no JSON output (stderr: " +:+ stake 300 (sr_stderr result) +:+ ")"))
  else parse_slither_json (sr_stdout result).

(** ** Mythril *)

Definition MYTHRIL_IMAGE : string := "mythril-sandbox".

Record MythrilFinding := mkMythril {
  my_title : pyval;
  my_swc_id : string;
  my_severity : pyval;
  my_function : pyval;
  my_description : string;
}.

Definition severity_norm (f : MythrilFinding) : res string :=
  pstr_method "lower" lower (por (my_severity f) (PStr "informational")).

Definition parse_issue (i : pyval) : res MythrilFinding :=
  description ← pget i "description" PNone;
  description ← (if negb (truthy_val description) then
      h ← pget i "description_head" (PStr "");
      t ← pget i "description_tail" (PStr "");
      ps ← map_res as_str (List.filter truthy_val [h; t]);
      Ok (PStr (join " " ps))
    else Ok description);
  title ← pget i "title" (PStr "");
  swc ← pget i "swc-id" (PStr "");
  severity ← pget i "severity" (PStr "");
  function ← pget i "function" (PStr "");
  d ← pstr_method "strip" strip description;
  Ok (mkMythril title (py_str swc) severity function d).

Definition parse_mythril_json (stdout : string) : res (list MythrilFinding) :=
  match loads stdout with
  | None => Raise (Exn "MythrilError" ("could not parse mythril JSON: " +:+ json_error stdout))
  | Some data =>
      success ← pget data "success" PNone;
      error ← pget data "error" PNone;
      if bool_decide (success = PBool false) || truthy_val error then
        Raise (Exn "MythrilError" ("mythril analysis failed: " +:+ stake 200 (py_str error)))
      else
        issues ← pget data "issues" PNone;
        iss ← piter (por issues (PList []));
        map_res parse_issue iss
  end.

Definition run_mythril (fs : FileSystem) (sandbox : Sandbox) (target audit_root : path) (image : string)
    (solc_version : option string) (max_depth : option nat) (timeout_s : string) : res (list MythrilFinding) :=
  rel ← relative_target fs "MythrilError" target audit_root;
  let command := ["analyze"; CONTAINER_MOUNT +:+ "/" +:+ path_str rel; "-o"; "json"]
    ++ match solc_version with Some v => if truthy v then ["--solv"; v] else [] | None => [] end
    ++ match max_depth with Some (S d) => ["--max-depth"; pretty (S d)] | _ => [] end in
  result ← sandbox (scan_request fs image command audit_root timeout_s);
  if negb (truthy (strip (sr_stdout result))) then
    Raise (Exn "MythrilError" ("mythril produced no JSON output (stderr: " +:+ stake 300 (sr_stderr result) +:+ ")"))
  else parse_mythril_json (sr_stdout result).

(** ** Confinement of the runs *)

(** A scan the sandbox may be asked for: the audit root is the only mount and is
    read-only, there is no network and no environment, and the file scanned is a
    path of the container below the mount that denotes a target inside the root. *)
Definition confined (fs : FileSystem) (audit_root : path) (rq : SandboxRequest) : Prop :=
  rq_mounts rq = [mkMount (fs_resolve fs audit_root) CONTAINER_MOUNT true] /\
  rq_network rq = "none" /\ rq_env rq = [] /\
  exists rel target, fs_resolve fs target = fs_resolve fs audit_root ++ rel /\
    (CONTAINER_MOUNT +:+ "/" +:+ path_str rel) ∈ rq_command rq.

Lemma relative_target_Ok fs err target root rel :
  relative_target fs err target root = Ok rel <-> fs_resolve fs target = fs_resolve fs root ++ rel.
Proof.
  unfold relative_target. rewrite <- strip_parts_Some. destruct (strip_parts _ _); split; congruence.
Qed.

Lemma bind_ext_res {A B} (m : res A) (f g : A -> res B) :
  (forall a, m = Ok a -> f a = g a) -> (m ≫= f) = (m ≫= g).
Proof. destruct m; cbn; auto. Qed.

(** The analyzers are confined: two sandboxes that agree on the confined
    requests are indistinguishable to both runs, so no other request is ever made;
    and a target that resolves outside the audit root is refused with the tool's
    own error before any container starts. *)
Theorem analyzers_confined (fs : FileSystem) (sb sb' : Sandbox) (target root : path)
    (Hsb : forall rq, confined fs root rq -> sb rq = sb' rq) image detectors solc depth timeout :
  run_slither fs sb target root image detectors timeout = run_slither fs sb' target root image detectors timeout /\
  run_mythril fs sb target root image solc depth timeout = run_mythril fs sb' target root image solc depth timeout /\
  ((forall rel, fs_resolve fs target <> fs_resolve fs root ++ rel) ->
     exists msg, run_slither fs sb target root image detectors timeout = Raise (Exn "SlitherError" msg) /\
       run_mythril fs sb target root image solc depth timeout = Raise (Exn "MythrilError" msg)).
Proof.
  split_and!.
  - unfold run_slither. apply bind_ext_res. intros rel Hrel%relative_target_Ok. rewrite Hsb; [done|].
    split_and!; [done..|]. exists rel, target. split; [done|left].
  - unfold run_mythril. apply bind_ext_res. intros rel Hrel%relative_target_Ok. rewrite Hsb; [done|].
    split_and!; [done..|]. exists rel, target. split; [done|right; left].
  - intros Hout. unfold run_slither, run_mythril, relative_target.
    destruct (strip_parts _ _) as [rel|] eqn:Hs; [apply strip_parts_Some in Hs; by destruct (Hout rel)|].
    eexists. split; reflexivity.
Qed.

(** ** The conversion to findings *)

Lemma enum_res_Ok {A B} (f : nat -> A -> res B) i l ys :
  enum_res f i l = Ok ys <-> length ys = length l /\
    forall j x y, l !! j = Some x -> ys !! j = Some y -> f (i + j) x = Ok y.
Proof.
  revert i ys. induction l as [|x l IH]; intros i ys; cbn [enum_res].
  { split; [intros [= <-]; split; [done|by intros ???]|]. intros [Hl _]. by destruct ys. }
  rewrite res_bind_Ok. split.
  - intros (y & Hy & (ys' & Hys & [= <-])%res_bind_Ok). apply IH in Hys as [Hl Hall]. split; [cbn; congruence|].
    intros [|j] a b; cbn; [intros [= <-] [= <-]; by rewrite Nat.add_0_r|]. rewrite Nat.add_succ_r. apply (Hall j).
  - intros [Hl Hall]. destruct ys as [|y ys]; [done|]. exists y. split.
    + rewrite <- (Nat.add_0_r i). by apply (Hall 0).
    + apply res_bind_Ok. exists ys. split; [|done]. apply IH. split; [cbn in Hl; congruence|].
      intros j a b Ha Hb. specialize (Hall (S j) a b Ha Hb). by rewrite Nat.add_succ_r in Hall.
Qed.

Lemma sapp_inj_l p a b : p +:+ a = p +:+ b -> a = b.
Proof. induction p as [|c p IH]; [done|]. change (String c (p +:+ a) = String c (p +:+ b) -> a = b). intros [= Hp]. auto. Qed.

Lemma slither_severity_known sf s :
  sl_severity sf = Ok s -> exists sev : severity, enum_call s = Ok sev.
Proof.
  unfold sl_severity, table_get. rewrite res_bind_Ok. intros (o & Ho & Hs). rewrite res_bind_Ok in Ho.
  destruct Ho as (k & _ & Hk).
  assert (s = default "informational" match k with PStr s => assoc s SLITHER_IMPACT_TO_SEVERITY | _ => None end)
    as -> by congruence. clear Hs Hk.
  destruct k as [| | | |k| |]; try (exists Severity.informational; reflexivity).
  destruct (assoc k SLITHER_IMPACT_TO_SEVERITY) as [v|] eqn:E; [|exists Severity.informational; reflexivity].
  apply assoc_Some_elem in E. repeat (apply elem_of_cons in E as [[= -> ->]|E]; [eexists; reflexivity|]).
  by apply not_elem_of_nil in E.
Qed.

(** Ids numbered by position are distinct. *)
Lemma numbered_ids_NoDup prefix fs :
  (forall i f, fs !! i = Some f -> finding_id f = prefix +:+ "-" +:+ pad3 (S i)) -> NoDup (map finding_id fs).
Proof.
  intros Hf. apply NoDup_alt. intros i j id Hi Hj. rewrite list_lookup_fmap in Hi, Hj.
  apply fmap_Some in Hi as (f & Hi & ->). apply fmap_Some in Hj as (g & Hj & Hid).
  rewrite (Hf i f Hi), (Hf j g Hj) in Hid. apply sapp_inj_l, sapp_inj_l, pad3_inj in Hid. congruence.
Qed.

(** The conversion of Slither's results is one to one: it yields a finding per
    detection, in order, all with distinct ids, each with the location of its line,
    the mapped severity (informational for an impact Slither does not document) and
    the mapped tag, and the status, evidence and links of a fresh finding. *)
Theorem slither_to_findings_one_to_one sfs file_rel prefix fs
    (Hok : slither_to_findings sfs file_rel prefix = Ok fs) :
  length fs = length sfs /\ NoDup (map finding_id fs) /\
  forall i sf f, sfs !! i = Some sf -> fs !! i = Some f ->
    finding_id f = prefix +:+ "-" +:+ pad3 (S i) /\
    location f = (if truthy_val (sl_line sf) then file_rel +:+ ":" +:+ py_str (sl_line sf) else file_rel) /\
    (exists s, sl_severity sf = Ok s /\ enum_call s = Ok (f_severity f)) /\
    table_get SLITHER_CHECK_TO_TAG (sl_check sf) = Ok (f_bastet_tag f) /\
    f_status f = FindingStatus.open /\ mitigations_present f = [] /\ preconditions f = [] /\ combined_with f = [].
Proof.
  apply enum_res_Ok in Hok as [Hlen Hall].
  assert (forall i sf f, sfs !! i = Some sf -> fs !! i = Some f ->
    finding_id f = prefix +:+ "-" +:+ pad3 (S i) /\
    location f = (if truthy_val (sl_line sf) then file_rel +:+ ":" +:+ py_str (sl_line sf) else file_rel) /\
    (exists s, sl_severity sf = Ok s /\ enum_call s = Ok (f_severity f)) /\
    table_get SLITHER_CHECK_TO_TAG (sl_check sf) = Ok (f_bastet_tag f) /\
    f_status f = FindingStatus.open /\ mitigations_present f = [] /\ preconditions f = [] /\ combined_with f = []) as Hf.
  { intros i sf f Hi Hf. specialize (Hall i sf f Hi Hf). unfold slither_finding, tool_finding in Hall.
    apply res_bind_Ok in Hall as (s & Hs & (tag & Ht & (sev & He & Hm)%res_bind_Ok)%res_bind_Ok).
    destruct (por _ _) as [| | | |name| |]; simplify_eq. cbn. rewrite Ht. split_and!; try done. eauto. }
  split_and!; [done| |exact Hf].
  apply (numbered_ids_NoDup prefix). intros i f Hi.
  destruct (lookup_lt_is_Some_2 sfs i) as [sf Hsf]; [rewrite <- Hlen; by eapply lookup_lt_Some|].
  by destruct (Hf i sf f Hsf Hi).
Qed.
End static_analysis.

Definition demo_slither : SlitherFinding :=
  mkSlither (PStr "reentrancy-eth") (PStr "High") (PStr "Medium") "Reentrancy in withdraw" (PStr "withdraw") (PInt 12).

Lemma analyzers_confined_witness : exists msg,
  run_slither (fun s => s) empty_fs (fun _ => Ok (mkResult "{}" "" 0 true)) ["/"; "etc"; "passwd"] ["/"; "audit"]
    SLITHER_IMAGE None "30.0" = Raise (Exn "SlitherError" msg).
Proof.
  destruct (analyzers_confined (fun s => s) empty_fs (fun _ => Ok (mkResult "{}" "" 0 true))
    (fun _ => Ok (mkResult "{}" "" 0 true)) ["/"; "etc"; "passwd"] ["/"; "audit"] (fun _ _ => eq_refl)
    SLITHER_IMAGE None None None "30.0") as (_ & _ & Hout).
  destruct Hout as (msg & Hm & _); [intros rel; discriminate|]. exists msg. exact Hm.
Defined.

Lemma slither_to_findings_one_to_one_witness :
  exists fs, slither_to_findings [demo_slither; demo_slither] "Vault.sol" "SLITHER" = Ok fs /\ NoDup (map finding_id fs).
Proof.
  eexists. split; [vm_compute; reflexivity|].
  apply (slither_to_findings_one_to_one [demo_slither; demo_slither] "Vault.sol" "SLITHER").
  vm_compute. reflexivity.
Defined.
