(* ===== verification/Smartgraphical.v ===== *)
(** * SmartGraphical (audit_agent/tools/smartgraphical.py)

    The engine runs as a subprocess, a parameter; its JSON is parsed tolerantly and
    mapped to findings. *)

From S2P Require Import Prelude PyStr PyPath PyVal PyJson Finding StaticAnalysis.

Definition SG_CONFIDENCE_TO_SEVERITY : list (string * string) :=
  [("high", "high"); ("medium", "medium"); ("low", "low")].

Definition SG_RULE_TO_TAG : list (string * bastet_tag) :=
  [("read_only_oracle_reentrancy", BastetTag.read_only_reentrancy);
   ("unstake_share_burn_order", BastetTag.reentrancy);
   ("bridge_retry_reentrancy", BastetTag.cross_function_reentrancy);
   ("check_order", BastetTag.oracle_manipulation);
   ("min_slippage_bounds", BastetTag.sandwich_attack);
   ("outer_calls", BastetTag.missing_access_control);
   ("unallowed_manipulation", BastetTag.missing_access_control);
   ("withdraw_check", BastetTag.logic_error);
   ("local_points", BastetTag.logic_error);
   ("staking", BastetTag.logic_error);
   ("pool_interactions", BastetTag.erc20_compliance);
   ("tainted_input_unguarded_sink", BastetTag.missing_check)].

Record SGFinding := mkSG {
  sg_rule_id : pyval;
  sg_task_id : string;
  sg_title : pyval;
  sg_category : pyval;
  sg_confidence : pyval;
  sg_message : pyval;
  sg_remediation_hint : pyval;
  sg_function : pyval;
  sg_line : pyval;
}.

(** One dict of the findings list *)
Definition sg_finding (f : pyval) : res SGFinding :=
  evs ← pget f "evidences" PNone;
  ev ← index0 (por evs (PList [PDict []]));
  ln ← pget ev "line_number" PNone;
  let line := por ln (PInt 0) in
  line ← (if negb (truthy_val line) then
            lns ← pget ev "line_numbers" PNone;
            let lns := por lns (PList []) in
            if truthy_val lns then index0 lns else Ok (PInt 0)
          else Ok line);
  rule ← pget f "rule_id" (PStr "");
  task ← pget f "task_id" (PStr "");
  title ← pget f "title" (PStr "");
  category ← pget f "category" (PStr "");
  confidence ← pget f "confidence" (PStr "");
  message ← pget f "message" (PStr "");
  hint ← pget f "remediation_hint" (PStr "");
  fn ← pget ev "function_name" (PStr "");
  Ok (mkSG rule (py_str task) title category confidence message hint fn (por line PNone)).

Definition findings_from_data (data : pyval) : res (list SGFinding) :=
  let findings := match data with PDict d => default data (assoc "findings" d) | _ => data end in
  match findings with
  | PList l => map_res sg_finding (List.filter is_dict l)
  | _ => Ok []
  end.

Definition sg_to_finding (file_rel id_prefix : string) (i : nat) (sf : SGFinding) : res Finding :=
  severity ← table_get SG_CONFIDENCE_TO_SEVERITY (sg_confidence sf);
  tag ← table_get SG_RULE_TO_TAG (sg_rule_id sf);
  tool_finding (id_prefix +:+ "-" +:+ pad3 i) (tool_location file_rel (sg_line sf)) (sg_function sf)
    (default "low" severity) tag.

Definition sg_to_findings (sfs : list SGFinding) (file_rel id_prefix : string) : res (list Finding) :=
  enum_res (sg_to_finding file_rel id_prefix) 1 sfs.

Section smartgraphical.
Context (json_error : string -> string).

Definition sg_json (text : string) : res pyval :=
  match loads text with
  | Some v => Ok v
  | None => Raise (Exn "SmartGraphicalError" ("could not parse SmartGraphical JSON: " +:+ json_error text))
  end.

Definition parse_sg_findings (stdout : string) : res (list SGFinding) :=
  if negb (truthy (strip stdout)) then Ok []
  else data ← sg_json stdout; findings_from_data data.

(** [subprocess.run(...)]: the captured output, or the exception *)
Record Process := mkProcess { proc_stdout : string; proc_stderr : string }.
Context (subprocess_run : path -> path -> path -> res Process).

Definition run_smartgraphical (fs : FileSystem) (target sg_root : path) (sg_python : option path)
    : res (list SGFinding * pyval) :=
  let sg_python := default (path_join sg_root [".venv"; "bin"; "python"]) sg_python in
  if negb (fs_exists fs sg_python) then
    Raise (Exn "SmartGraphicalError" ("SmartGraphical interpreter not found: " +:+ path_str sg_python))
  else
    let target := fs_resolve fs target in
    match subprocess_run sg_python target sg_root with
    | Raise e =>
        if bool_decide (exn_class e ∈ ["FileNotFoundError"; "TimeoutExpired"]) then
          Raise (Exn "SmartGraphicalError" ("SmartGraphical run failed: " +:+ exn_msg e))
        else Raise e
    | Ok proc =>
        if negb (truthy (strip (proc_stdout proc))) then
          Raise (Exn "SmartGraphicalError"
            ("SmartGraphical produced no output (stderr: " +:+ stake 300 (proc_stderr proc) +:+ ")"))
        else
          data ← sg_json (proc_stdout proc);
          findings ← findings_from_data data;
          Ok (findings, match data with PDict d => default (PDict []) (assoc "graph" d) | _ => PDict [] end)
    end.
End smartgraphical.

Lemma sg_severity_of c s :
  table_get SG_CONFIDENCE_TO_SEVERITY c = Ok s ->
  default "low" s = (if bool_decide (c = PStr "high") then "high"
                     else if bool_decide (c = PStr "medium") then "medium" else "low").
Proof.
  unfold table_get. rewrite res_bind_Ok. intros (k & Hk & Hs).
  assert (s = match k with PStr s => assoc s SG_CONFIDENCE_TO_SEVERITY | _ => None end) as -> by congruence. clear Hs.
  destruct c; try discriminate; cbn in Hk; simplify_eq; try reflexivity.
  unfold SG_CONFIDENCE_TO_SEVERITY. cbn [assoc].
  destruct (decide (s = "high")) as [->|H1]; [reflexivity|].
  destruct (decide (s = "medium")) as [->|H2]; [reflexivity|].
  rewrite !bool_decide_false by congruence. by case_decide.
Qed.

(** A SmartGraphical result becomes findings one to one, in order, with distinct
    ids; the severity is read from the confidence, and a confidence that is not one
    of the three known words gives the lowest, low, never a higher one. *)
Theorem sg_to_findings_one_to_one sfs file_rel prefix fs
    (Hok : sg_to_findings sfs file_rel prefix = Ok fs) :
  length fs = length sfs /\ NoDup (map finding_id fs) /\
  forall i sf f, sfs !! i = Some sf -> fs !! i = Some f ->
    finding_id f = prefix +:+ "-" +:+ pad3 (S i) /\
    location f = tool_location file_rel (sg_line sf) /\
    f_severity f = (if bool_decide (sg_confidence sf = PStr "high") then Severity.high
                    else if bool_decide (sg_confidence sf = PStr "medium") then Severity.medium
                    else Severity.low) /\
    table_get SG_RULE_TO_TAG (sg_rule_id sf) = Ok (f_bastet_tag f).
Proof.
  apply enum_res_Ok in Hok as [Hlen Hall].
  assert (forall i sf f, sfs !! i = Some sf -> fs !! i = Some f ->
    finding_id f = prefix +:+ "-" +:+ pad3 (S i) /\
    location f = tool_location file_rel (sg_line sf) /\
    f_severity f = (if bool_decide (sg_confidence sf = PStr "high") then Severity.high
                    else if bool_decide (sg_confidence sf = PStr "medium") then Severity.medium
                    else Severity.low) /\
    table_get SG_RULE_TO_TAG (sg_rule_id sf) = Ok (f_bastet_tag f)) as Hf.
  { intros i sf f Hi Hf. specialize (Hall i sf f Hi Hf). unfold sg_to_finding, tool_finding in Hall.
    apply res_bind_Ok in Hall as (s & Hs & (tag & Ht & (sev & He & Hm)%res_bind_Ok)%res_bind_Ok).
    apply sg_severity_of in Hs. rewrite Hs in He.
    destruct (por _ _) as [| | | |name| |]; simplify_eq. cbn. rewrite Ht. split_and!; try done.
    repeat case_bool_decide; cbv in He; congruence. }
  split_and!; [done| |exact Hf]. apply (numbered_ids_NoDup prefix). intros i f Hi.
  destruct (lookup_lt_is_Some_2 sfs i) as [sf Hsf]; [rewrite <- Hlen; by eapply lookup_lt_Some|].
  by destruct (Hf i sf f Hsf Hi).
Qed.

Lemma sg_to_findings_one_to_one_witness :
  exists fs, sg_to_findings [mkSG (PStr "staking") "7" (PStr "") (PStr "") (PStr "high") (PStr "") (PStr "")
      (PStr "stake") (PInt 4)] "Pool.sol" "SG" = Ok fs /\ NoDup (map finding_id fs).
Proof.
  eexists. split; [vm_compute; reflexivity|].
  apply (sg_to_findings_one_to_one [mkSG (PStr "staking") "7" (PStr "") (PStr "") (PStr "high") (PStr "") (PStr "")
      (PStr "stake") (PInt 4)] "Pool.sol" "SG"). vm_compute. reflexivity.
Defined.
