(* ===== verification/Onchain.v ===== *)
(** * On-chain tools (audit_agent/tools/onchain.py)

    The transaction fetcher and the decompiler are injected functions; a fetched
    transaction is a dict of untyped values. *)

From S2P Require Import Prelude PyStr PyRe PyPath PyVal Session StaticAnalysis.

Definition MAX_BLOCKS : Z := 10000.
(** The same pattern as the EIP-55 screen of the input gate *)
Definition ADDRESS_RE : re := EIP55_RE.

Definition valid_address (address : string) : bool := negb (is_none (re_match ADDRESS_RE address)).

Definition onchain_error {A} (msg : string) : res A := Raise (Exn "OnChainError" msg).

Record TransactionAnalysis := mkAnalysis {
  ta_address : string;
  ta_from_block : Z;
  ta_to_block : Z;
  ta_tx_count : nat;
  ta_notes : list string;
  ta_transactions : list pyval;
}.

(** [int(v)] on a transaction value *)
Definition py_int (v : pyval) : res Z :=
  match v with
  | PInt z => Ok z
  | PBool b => Ok (if b then 1 else 0)%Z
  | PStr s =>
      let t := strip s in
      let '(neg, d) := match t with
                       | String c r => if Ascii.eqb c "-" then (true, r) else if Ascii.eqb c "+" then (false, r) else (false, t)
                       | "" => (false, "") end in
      if truthy d && forallb is_digit (String.list_ascii_of_string d)
      then Ok (let z := digits_val 0 d in if neg then - z else z)%Z
      else Raise (Exn "ValueError" ("invalid literal for int() with base 10: " +:+ repr_str s))
  | _ => Raise (Exn "TypeError" ("int() argument must be a string, a bytes-like object or a real number, not '"
                +:+ type_name v +:+ "'"))
  end.

(** The body of the loop over the transactions: the notes one adds. *)
Definition tx_notes (focus_set : list string) (tx : pyval) : res (list string) :=
  input ← pget tx "input" (PStr "");
  let selector := stake 10 (py_str input) in
  method ← pget tx "method" (PStr "");
  skip ← (if negb (bool_decide (focus_set = [])) && truthy_val method then
            m ← pstr_method "lower" lower method; Ok (negb (bool_decide (m ∈ focus_set)))
          else Ok false);
  if skip : bool then Ok []
  else
    let name := por method (PStr selector) in
    value ← pget tx "value" (PInt 0);
    n1 ← (if truthy_val value then
            v ← py_int value;
            if (0 <? v)%Z then
              h ← pget tx "hash" (PStr "?");
              Ok ["value transfer " +:+ py_str value +:+ " in " +:+ py_str h +:+ " (" +:+ py_str name +:+ ")"]
            else Ok []
          else Ok []);
    n2 ← (if truthy selector && negb (String.eqb selector "0x") then
            f ← pget tx "from" (PStr "?");
            Ok ["call " +:+ py_str name +:+ " from " +:+ py_str f]
          else Ok []);
    Ok (n1 ++ n2).

Definition analyze_transactions (address : string) (from_block to_block : Z)
    (fetcher : string -> Z -> Z -> res (list pyval)) (focus : list string) : res TransactionAnalysis :=
  if negb (valid_address address) then onchain_error ("invalid address: " +:+ repr_str address)
  else if (to_block <? from_block)%Z then
    onchain_error ("to_block " +:+ pretty to_block +:+ " < from_block " +:+ pretty from_block)
  else
    let span := (to_block - from_block)%Z in
    if (MAX_BLOCKS <? span)%Z then
      onchain_error ("block range " +:+ pretty span +:+ " exceeds limit " +:+ pretty MAX_BLOCKS)
    else
      txs ← fetcher address from_block to_block;
      notes ← map_res (tx_notes (map lower focus)) txs;
      Ok (mkAnalysis address from_block to_block (length txs) (List.concat notes) txs).

(** [make_alchemy_fetcher]: [web3] is the lazily imported client, or the reason it
    cannot be built; it lists the transactions of a block. *)
Definition fetch_block (address : string) (bn : Z) (block : list pyval) : res (list pyval) :=
  l ← map_res (fun tx =>
    to ← pget tx "to" PNone;
    to ← pstr_method "lower" lower (por to (PStr ""));
    if String.eqb to (lower address) then
      h ← pget tx "hash" PNone;
      from ← pget tx "from" (PStr "");
      to' ← pget tx "to" (PStr "");
      value ← pget tx "value" (PInt 0);
      value ← py_int value;
      input ← pget tx "input" (PStr "");
      Ok [PDict [("hash", if truthy_val h then h else PStr ""); ("from", from); ("to", to');
                 ("value", PInt value); ("input", input); ("block", PInt bn)]]
    else Ok []) block;
  Ok (List.concat l).

Definition block_range (from_block to_block : Z) : list Z :=
  map (fun k => from_block + Z.of_nat k)%Z (seq 0 (Z.to_nat (to_block + 1 - from_block))).

Definition make_alchemy_fetcher (web3 : string -> res (Z -> list pyval)) (api_key network : string)
    : res (string -> Z -> Z -> res (list pyval)) :=
  if negb (truthy api_key) then onchain_error "no ALCHEMY_API_KEY configured"
  else match web3 ("https://" +:+ network +:+ ".g.alchemy.com/v2/" +:+ api_key) with
  | Raise e => onchain_error ("web3 unavailable: " +:+ exn_msg e)
  | Ok get_block => Ok (fun address from_block to_block =>
      ls ← map_res (fun bn => fetch_block address bn (get_block bn)) (block_range from_block to_block);
      Ok (List.concat ls))
  end.

Record DecompilationResult := mkDecompilation { dc_address : string; dc_tool : string; dc_success : bool; dc_output : string }.

Definition decompile_bytecode (address tool : string)
    (runner : option (string -> string -> res DecompilationResult)) : res DecompilationResult :=
  if negb (valid_address address) then onchain_error ("invalid address: " +:+ repr_str address)
  else if negb (bool_decide (tool ∈ ["heimdall"; "panoramix"])) then
    onchain_error ("unsupported decompiler: " +:+ repr_str tool)
  else match runner with
  | None => Ok (mkDecompilation address tool false "no decompiler runner configured (dry run)")
  | Some run => run address tool
  end.

(** The resource guard: transactions are fetched only for a well-formed address
    and a non-negative range of at most 10000 blocks (so at most 10001 blocks are
    read), and every other request is refused with OnChainError whatever the
    fetcher would do; a fetcher that is only right on guarded requests is enough. *)
Theorem analyze_transactions_guarded address from_block to_block (f g : string -> Z -> Z -> res (list pyval)) focus
    (Hfg : forall a x y, valid_address a = true -> (0 <= y - x <= 10000)%Z -> f a x y = g a x y) :
  analyze_transactions address from_block to_block f focus = analyze_transactions address from_block to_block g focus /\
  (forall r, analyze_transactions address from_block to_block f focus = Ok r ->
     valid_address address = true /\ (0 <= to_block - from_block <= 10000)%Z /\
     (Z.of_nat (length (block_range from_block to_block)) <= 10001)%Z /\
     ta_tx_count r = length (ta_transactions r)) /\
  (valid_address address = false \/ (to_block - from_block < 0 \/ 10000 < to_block - from_block)%Z ->
     exists msg, analyze_transactions address from_block to_block f focus = Raise (Exn "OnChainError" msg)).
Proof.
  unfold analyze_transactions, MAX_BLOCKS, onchain_error.
  destruct (valid_address address) eqn:Hv; cbn [negb]; [|split_and!; [done|done|eauto]].
  destruct (Z.ltb_spec to_block from_block); [split_and!; [done|done|eauto]|].
  destruct (Z.ltb_spec 10000 (to_block - from_block)); [split_and!; [done|done|eauto]|].
  rewrite (Hfg address from_block to_block) by (done || lia). split_and!; [done| |intros [?|?]; [done|lia]].
  intros r (txs & _ & (ns & _ & [= <-])%res_bind_Ok)%res_bind_Ok. split_and!; [done|lia|lia| |done].
  unfold block_range. rewrite length_map, length_seq. lia.
Qed.

Lemma analyze_transactions_guarded_witness : exists msg,
  analyze_transactions "0xabababababababababababababababababababab" 5 20000
    (fun _ _ _ => Raise (Exn "Timeout" "")) [] = Raise (Exn "OnChainError" msg).
Proof.
  apply (analyze_transactions_guarded "0xabababababababababababababababababababab" 5 20000
    (fun _ _ _ => Raise (Exn "Timeout" "")) (fun _ _ _ => Raise (Exn "Timeout" "")) []); [done|].
  right. right. lia.
Defined.
