(* ===== verification/WriteExecute.v ===== *)
(** * WRITE_EXECUTE tools (audit_agent/tools/write_execute.py)

    [write_poc] writes one file; the files of the disk are a finite map from paths
    to texts.  [run_tests] hands one shell command to the kernel's sandbox.
    [deploy_test_contract] is guarded by the network. *)

From S2P Require Import Prelude PyStr PyPath PyFormat StaticAnalysis.

Abbreviation Files := (gmap path string).

Definition ALLOWED_DEPLOY_NETWORKS : list string := ["anvil"; "localhost"].
Definition FOUNDRY_IMAGE : string := "ghcr.io/foundry-rs/foundry:latest".

Record PoCResult := mkPoC { poc_finding_id : string; poc_path : path; poc_framework : string }.
Record TestResult := mkTest { passed : bool; exit_code : Z; stdout : string; stderr : string }.
Record DeployResult := mkDeploy { network : string; dep_address : option string; success : bool; detail : string }.

(** Backquotes stand for the double quotes of the source. *)
Definition FOUNDRY_STUB : string := bq
"// SPDX-License-Identifier: MIT
pragma solidity ^0.8.20;

import {{Test}} from `forge-std/Test.sol`;

/// @notice PoC for finding {finding_id}
/// Auto-generated stub — fill in the exploit path, then run via the sandbox.
contract PoC_{ident} is Test {{
    function setUp() public {{}}

    function test_exploit_{ident}() public {{
        // TODO: reproduce finding {finding_id}
        // 1. set up the vulnerable state
        // 2. execute the attacker-controlled path
        // 3. assert the broken invariant
        revert(`PoC not implemented`);
    }}
}}
".

Definition ident (finding_id : string) : string := smap (fun c => if is_alnum c then c else "_"%char) finding_id.

Definition write_poc (finding_id : string) (poc_dir : path) (framework : string)
    (generator : option (string -> res string)) : ST Files PoCResult :=
  if negb (String.eqb framework "foundry") then
    st_lift (Raise (Exn "ValueError" ("Unsupported framework: " +:+ repr_str framework)))
  else
    let id := ident finding_id in
    content ← st_lift (match generator with
                       | Some g => g finding_id
                       | None => py_format FOUNDRY_STUB [("finding_id", finding_id); ("ident", id)]
                       end);
    let p := path_join poc_dir [id +:+ ".t.sol"] in
    _ ← st_modify (fun files => <[p := content]> files);
    mret (mkPoC finding_id p framework).

Definition opt_truthy (o : option string) : option string :=
  match o with Some s => if truthy s then Some s else None | None => None end.

(** The shell command of [run_tests] *)
Definition forge_command (forking trace : bool) (test_path foundry_test_dir : option string) : string :=
  let inner := if forking then "forge test" else "forge test --offline" in
  let inner := if trace then inner +:+ " -vvv" else inner in
  let inner := match opt_truthy test_path with Some p => inner +:+ " --match-path " +:+ p | None => inner end in
  match opt_truthy foundry_test_dir with Some d => "FOUNDRY_TEST=" +:+ d +:+ " " +:+ inner | None => inner end.

Definition test_request (project_dir : path) (test_path : option string) (image timeout_s : string)
    (foundry_test_dir fork_rpc : option string) (extra_mounts : list Mount) (trace : bool) : SandboxRequest :=
  let forking := negb (is_none (opt_truthy fork_rpc)) in
  mkRequest image [forge_command forking trace test_path foundry_test_dir]
    ([mkMount project_dir "/work" false] ++ extra_mounts)
    (Some "/work") timeout_s (if forking then "bridge" else "none")
    (match opt_truthy fork_rpc with Some url => [("MAINNET_RPC_URL", url)] | None => [] end).

Definition run_tests (project_dir : path) (sandbox : Sandbox) (test_path : option string) (image timeout_s : string)
    (foundry_test_dir fork_rpc : option string) (extra_mounts : list Mount) (trace : bool) : res TestResult :=
  result ← sandbox (test_request project_dir test_path image timeout_s foundry_test_dir fork_rpc extra_mounts trace);
  Ok (mkTest (sr_ok result) (sr_exit_code result) (sr_stdout result) (sr_stderr result)).

Definition deploy_test_contract (net : string) (deployer : option (unit -> res DeployResult)) : res DeployResult :=
  if negb (bool_decide (net ∈ ALLOWED_DEPLOY_NETWORKS)) then
    Raise (Exn "DeployTargetError" ("deploy_test_contract only allowed on ['anvil', 'localhost'], got " +:+ repr_str net))
  else match deployer with
  | None => Ok (mkDeploy net None false "no deployer configured (dry run)")
  | Some d => d tt
  end.

(** ** Properties *)

Fixpoint all_chars (p : ascii -> bool) (s : string) : bool :=
  match s with "" => true | String c s' => p c && all_chars p s' end.

Lemma ident_word s : all_chars is_word (ident s) = true.
Proof.
  induction s as [|c s IH]; [done|]. cbn. fold (ident s). rewrite IH, andb_true_r.
  unfold is_word. by destruct (is_alnum c) eqn:E; rewrite ?E.
Qed.

Lemma all_chars_count (p : ascii -> bool) c s : p c = false -> all_chars p s = true -> count_char c s = 0.
Proof.
  intros Hc. induction s as [|d s IH]; [done|]. cbn. intros [Hd Hs]%andb_true_iff.
  destruct (Ascii.eqb_spec c d) as [->|]; [congruence|by apply IH].
Qed.

Lemma count_char_app c a b : count_char c (a +:+ b) = count_char c a + count_char c b.
Proof. induction a as [|d a IH]; [done|]. change (String d a +:+ b) with (String d (a +:+ b)). cbn. rewrite IH. lia. Qed.

Lemma py_format_stub fid :
  exists content, py_format FOUNDRY_STUB [("finding_id", fid); ("ident", ident fid)] = Ok content.
Proof. eexists. reflexivity. Qed.

(** Writing a PoC touches exactly one file: a direct child of the PoC directory
    whose name is the finding id with every character that is not alphanumeric
    replaced, followed by .t.sol, so no id can name another directory; the default
    stub never fails, and another framework or a failing generator writes nothing. *)
Theorem write_poc_one_file fid poc_dir framework generator files :
  match write_poc fid poc_dir framework generator files with
  | (files', Ok r) =>
      poc_path r = poc_dir ++ [ident fid +:+ ".t.sol"] /\ poc_finding_id r = fid /\
      count_char "/" (ident fid +:+ ".t.sol") = 0 /\
      (forall p, p <> poc_path r -> files' !! p = files !! p) /\
      (exists content, files' !! poc_path r = Some content /\
         forall g, generator = Some g -> g fid = Ok content)
  | (files', Raise e) => files' = files /\ (framework <> "foundry" \/ exists g, generator = Some g /\ g fid = Raise e)
  end.
Proof.
  unfold write_poc. destruct (String.eqb_spec framework "foundry") as [->|Hf]; cbn [negb]; [|cbn; by split; [|left]].
  set (m := match generator with Some g => _ | None => _ end).
  destruct m as [content|e] eqn:Hm.
  - rewrite path_join_child by (intros Hs; apply (f_equal String.length) in Hs; rewrite length_sapp in Hs; cbn in Hs; lia).
    cbn. split_and!; [done|done| |intros p Hp; by rewrite lookup_insert_ne|].
    + rewrite count_char_app. rewrite (all_chars_count is_word); [done|done|apply ident_word].
    + exists content. rewrite lookup_insert_eq. split; [done|]. intros g ->. exact Hm.
  - cbn. split; [done|]. right. unfold m in Hm. destruct generator as [g|]; [eauto|].
    destruct (py_format_stub fid) as [c Hc]. congruence.
Qed.

(** Tests run offline unless a fork is asked for: without a fork URL the one
    request made has no network, no environment and a single command string that
    passes --offline to forge; the project is the only mount beside the caller's;
    with a fork URL the command is not offline and the URL is the only variable. *)
Theorem run_tests_offline project sandbox test_path image timeout dir fork extra trace :
  let rq := test_request project test_path image timeout dir fork extra trace in
  (forall e, sandbox rq = Raise e ->
     run_tests project sandbox test_path image timeout dir fork extra trace = Raise e) /\
  length (rq_command rq) = 1 /\ rq_mounts rq = mkMount project "/work" false :: extra /\
  (opt_truthy fork = None -> rq_network rq = "none" /\ rq_env rq = [] /\
     exists pre post, rq_command rq = [pre +:+ "forge test --offline" +:+ post]) /\
  (forall url, opt_truthy fork = Some url -> rq_network rq = "bridge" /\ rq_env rq = [("MAINNET_RPC_URL", url)]) /\
  (forall r, sandbox rq = Ok r ->
     run_tests project sandbox test_path image timeout dir fork extra trace =
       Ok (mkTest (sr_ok r) (sr_exit_code r) (sr_stdout r) (sr_stderr r))).
Proof.
  cbv zeta. unfold run_tests. split_and!; try done.
  - by intros e ->.
  - intros Hf. unfold test_request. cbn. rewrite Hf. cbn. split_and!; [done..|].
    unfold forge_command. destruct (opt_truthy dir) as [d|].
    + exists ("FOUNDRY_TEST=" +:+ d +:+ " ").
      eexists ((if trace then " -vvv" else "") +:+ match opt_truthy test_path with Some p => " --match-path " +:+ p | None => "" end).
      rewrite !sapp_assoc. by destruct trace, (opt_truthy test_path); rewrite ?sapp_assoc, ?sapp_nil_r.
    + exists "".
      eexists ((if trace then " -vvv" else "") +:+ match opt_truthy test_path with Some p => " --match-path " +:+ p | None => "" end).
      by destruct trace, (opt_truthy test_path); rewrite ?sapp_assoc, ?sapp_nil_r.
  - intros url Hu. unfold test_request. cbn. by rewrite Hu.
  - by intros r ->.
Qed.
