(* ===== verification/PySha.v ===== *)
(** * hashlib.sha256(...).hexdigest()

    FIPS 180-4 on 32-bit words kept in [N] with the reduction written out; a byte
    string is a [string]. *)

From S2P Require Import Prelude PyStr.

Definition word : N := 4294967296%N.
Definition addw (a b : N) : N := ((a + b) mod word)%N.
Definition rotr (k x : N) : N := (N.lor (N.shiftr x k) (N.shiftl x (32 - k) mod word))%N.
Definition notw (x : N) : N := N.lxor x (word - 1).

Definition big_sigma0 (x : N) : N := N.lxor (N.lxor (rotr 2 x) (rotr 13 x)) (rotr 22 x).
Definition big_sigma1 (x : N) : N := N.lxor (N.lxor (rotr 6 x) (rotr 11 x)) (rotr 25 x).
Definition small_sigma0 (x : N) : N := N.lxor (N.lxor (rotr 7 x) (rotr 18 x)) (N.shiftr x 3).
Definition small_sigma1 (x : N) : N := N.lxor (N.lxor (rotr 17 x) (rotr 19 x)) (N.shiftr x 10).
Definition ch (x y z : N) : N := N.lxor (N.land x y) (N.land (notw x) z).
Definition maj (x y z : N) : N := N.lxor (N.lxor (N.land x y) (N.land x z)) (N.land y z).

(** The round constants are the first 32 bits of the fractional parts of the cube
    roots of the first 64 primes, the initial state those of the square roots of the
    first eight: computed here rather than transcribed. *)
Definition primes (n : nat) : list N :=
  take n (List.filter (fun p => forallb (fun d => negb (p mod d =? 0)%N) (map N.of_nat (seq 2 (N.to_nat (N.sqrt p) - 1))))
            (map N.of_nat (seq 2 (5 * n)))).

Fixpoint bisect (steps : nat) (below : N -> bool) (lo : N) : N :=
  match steps with
  | 0 => lo
  | S k => let mid := (lo + N.shiftl 1 (N.of_nat k))%N in bisect k below (if below mid then mid else lo)
  end.

(** floor (p^(1/e) * 2^32), whose low word is the fraction *)
Definition root_bits (e p : N) : N := (bisect 48 (fun x => (x ^ e <=? p * 2 ^ (32 * e))%N) 0 mod word)%N.

Definition K256 : list N := Eval vm_compute in map (root_bits 3) (primes 64).
Definition H256 : list N := Eval vm_compute in map (root_bits 2) (primes 8).

(** The message bytes with the padding: 0x80, zeros, the bit length on 64 bits *)
Definition be64 (n : N) : list N := map (fun k => (N.shiftr n (8 * N.of_nat k) mod 256)%N) (rev (seq 0 8)).

Definition padded (m : list N) : list N :=
  m ++ [128%N] ++ repeat 0%N ((119 - length m mod 64) mod 64) ++ be64 (8 * N.of_nat (length m)).

Fixpoint words (l : list N) : list N :=
  match l with
  | a :: b :: c :: d :: l' => (N.shiftl a 24 + N.shiftl b 16 + N.shiftl c 8 + d)%N :: words l'
  | _ => []
  end.

(** The message schedule, latest word first *)
Fixpoint schedule (n : nat) (w : list N) : list N :=
  match n with
  | 0 => w
  | S n' =>
      let at' (k : nat) := nth (k - 1) w 0%N in
      schedule n' (addw (addw (small_sigma1 (at' 2)) (at' 7)) (addw (small_sigma0 (at' 15)) (at' 16)) :: w)
  end.

Definition round (st : list N) (kw : N * N) : list N :=
  match st with
  | [a; b; c; d; e; f; g; h] =>
      let t1 := addw (addw (addw h (big_sigma1 e)) (addw (ch e f g) kw.1)) kw.2 in
      let t2 := addw (big_sigma0 a) (maj a b c) in
      [addw t1 t2; a; b; c; addw d t1; e; f; g]
  | _ => st
  end.

Definition compress (st block : list N) : list N :=
  let w := rev (schedule 48 (rev block)) in
  zip_with addw st (fold_left round (zip K256 w) st).

Fixpoint blocks (fuel : nat) (st l : list N) : list N :=
  match fuel, l with
  | S f, _ :: _ => blocks f (compress st (take 16 l)) (drop 16 l)
  | _, _ => st
  end.

Definition hex_word (n : N) : list ascii :=
  map (fun k => hex_digit (N.to_nat (N.shiftr n (4 * N.of_nat k) mod 16))) (rev (seq 0 8)).

Definition sha256_hex (s : string) : string :=
  let ws := words (padded (map N_of_ascii (String.list_ascii_of_string s))) in
  String.string_of_list_ascii (List.concat (map hex_word (blocks (length ws) H256 ws))).

Example sha256_abc : sha256_hex "abc" = "ba7816bf8f01cfea414140de5dae2223b00361a396177a9cb410ff61f20015ad".
Proof. vm_compute. reflexivity. Qed.

Example sha256_two_blocks : sha256_hex "abcdbcdecdefdefgefghfghighijhijkijkljklmklmnlmnomnopnopq" =
  "248d6a61d20638b8e5c026930c3e6039a33ce45964ff2167f6ecedd419db06c1".
Proof. vm_compute. reflexivity. Qed.

Lemma round_length st kw : length st = 8 -> length (round st kw) = 8.
Proof. intros Hs. do 9 (destruct st as [|? st]; try done). Qed.

Lemma compress_length st b : length st = 8 -> length (compress st b) = 8.
Proof.
  intros Hs. unfold compress.
  assert (forall l st, length st = 8 -> length (fold_left round l st) = 8) as Hf.
  { intros l. induction l as [|x l IH]; intros st' Hl; [done|]. cbn. by apply IH, round_length. }
  rewrite length_zip_with. rewrite (Hf _ _ Hs), Hs. done.
Qed.

Lemma blocks_length fuel st l : length st = 8 -> length (blocks fuel st l) = 8.
Proof.
  revert st l. induction fuel as [|fuel IH]; intros st l Hs; [done|]. cbn [blocks]. destruct l; [done|].
  by apply IH, compress_length.
Qed.

(** A hex digest is never empty. *)
Lemma sha256_hex_truthy s : truthy (sha256_hex s) = true.
Proof.
  unfold sha256_hex. cbv zeta. set (ws := words _).
  pose proof (blocks_length (length ws) H256 ws eq_refl) as Hl.
  destruct (blocks (length ws) H256 ws) as [|x l]; [done|]. done.
Qed.
