(* ===== verification/Cursor.v ===== *)
(** * Discovery chunks (audit_agent/methodology/cursor.py)

    The included files are cut into chunks of bounded size, each named by a digest
    of its content; discovery works through the first chunk not yet committed.
    [canonical_bytes] is the kernel's canonical serialization. *)

From S2P Require Import Prelude PyStr PyVal PySha.

Definition CHUNK_SIZE : nat := 32.

(** [str(p).replace("\\", "/")] *)
Definition posix (p : string) : string := smap (fun c => if Ascii.eqb c "\" then "/"%char else c) p.

Section cursor.
Context (canonical_bytes : pyval -> string).

Definition chunk_id_for (roadmap_revision : Z) (relpaths : list string) : string :=
  sha256_hex (canonical_bytes (PDict
    [("roadmap_revision", PInt roadmap_revision);
     ("paths", PList (map PStr (py_sort str_leb (map posix relpaths))))])).

(** [ordered[i : i + size]] for [i] in [range(0, len(ordered), size)] *)
Fixpoint slices (fuel size : nat) (l : list string) : list (list string) :=
  match fuel, l with
  | S fuel, _ :: _ => take size l :: slices fuel size (drop size l)
  | _, _ => []
  end.

Definition ordered (relpaths : list string) : list string := py_sort str_leb (map posix relpaths).

Definition partition_chunks (relpaths : list string) (roadmap_revision : Z) (size : nat)
    : list (string * list string) :=
  let o := ordered relpaths in
  map (fun group => (chunk_id_for roadmap_revision group, group)) (slices (length o) size o).

Definition first_uncommitted_chunk (relpaths committed : list string) (roadmap_revision : Z)
    : option (string * list string) :=
  first (fun c => negb (bool_decide (c.1 ∈ committed))) (partition_chunks relpaths roadmap_revision CHUNK_SIZE).

(** ** Properties *)

Lemma slices_concat fuel size l :
  0 < size -> length l <= fuel -> List.concat (slices fuel size l) = l.
Proof.
  intros Hs. revert l. induction fuel as [|fuel IH]; intros [|x l] Hl; cbn [slices]; try done; [cbn in Hl; lia|].
  cbn [List.concat]. rewrite IH; [apply take_drop|]. rewrite length_drop. cbn in *. lia.
Qed.

Lemma slices_bounds fuel size l g :
  0 < size -> g ∈ slices fuel size l -> 0 < length g <= size.
Proof.
  intros Hs. revert l. induction fuel as [|fuel IH]; intros [|x l]; cbn [slices]; try by intros ?%not_elem_of_nil.
  intros [->|Hg]%elem_of_cons; [|by eapply IH]. rewrite length_take. cbn. lia.
Qed.

(** Only the last slice is shorter than the size. *)
Lemma slices_full fuel size l i g :
  0 < size -> length l <= fuel -> slices fuel size l !! i = Some g ->
  is_Some (slices fuel size l !! S i) -> length g = size.
Proof.
  intros Hs. revert l i. induction fuel as [|fuel IH]; intros [|x l] i Hl; cbn [slices]; try done.
  destruct i as [|i]; cbn [lookup list_lookup].
  - intros [= <-] Hn. rewrite length_take.
    assert (drop size (x :: l) <> []) as Hd by (intros Hd; rewrite Hd in Hn; destruct fuel; by destruct Hn).
    assert (length (drop size (x :: l)) <> 0) as Hd' by (intros H0; by apply nil_length_inv in H0).
    rewrite length_drop in Hd'. lia.
  - intros Hg Hn. eapply IH; [|exact Hg|exact Hn]. rewrite length_drop. cbn in *. lia.
Qed.

(** Chunking is a partition: the chunks concatenated are the sorted normalized
    listing, every chunk holds between 1 and [size] paths and all but the last
    exactly [size], each is named by the digest of the revision and its paths, and
    the order of the listing does not matter. *)
Theorem partition_chunks_partition (relpaths : list string) rev size (Hs : 0 < size) :
  let cs := partition_chunks relpaths rev size in
  List.concat (cs.*2) = ordered relpaths /\
  ordered relpaths ≡ₚ map posix relpaths /\
  StronglySorted (fun a b => str_leb a b = true) (ordered relpaths) /\
  (forall c, c ∈ cs -> c.1 = chunk_id_for rev c.2 /\ 0 < length c.2 <= size) /\
  (forall i c, cs !! i = Some c -> is_Some (cs !! S i) -> length c.2 = size) /\
  (forall relpaths', relpaths ≡ₚ relpaths' -> partition_chunks relpaths' rev size = cs).
Proof.
  cbv zeta. unfold partition_chunks. set (o := ordered relpaths).
  assert (forall l : list (list string), (map (fun group => (chunk_id_for rev group, group)) l).*2 = l) as Hsnd.
  { intros l. rewrite <- list_fmap_compose. apply list_fmap_id. }
  split_and!.
  - rewrite Hsnd. by apply slices_concat.
  - unfold o, ordered. apply py_sort_perm.
  - apply py_sort_sorted; [apply str_leb_total|apply str_leb_trans].
  - intros c (g & -> & Hg)%list_elem_of_fmap. split; [done|]. by eapply slices_bounds.
  - intros i c Hi Hn. rewrite list_lookup_fmap in Hi. rewrite list_lookup_fmap, fmap_is_Some in Hn.
    apply fmap_Some in Hi as (g & Hg & ->). by eapply slices_full.
  - intros rp' Hp. assert (ordered rp' = o) as ->; [|done]. unfold o, ordered.
    apply (sorted_perm_eq str_leb str_leb_antisym); [|apply py_sort_sorted..].
    all: try apply str_leb_total. all: try apply str_leb_trans.
    rewrite !py_sort_perm. by rewrite Hp.
Qed.

(** The chunks still to do *)
Definition remaining (relpaths committed : list string) (rev : Z) : list (string * list string) :=
  List.filter (fun c => negb (bool_decide (c.1 ∈ committed))) (partition_chunks relpaths rev CHUNK_SIZE).

Lemma remaining_step relpaths committed rev c :
  first_uncommitted_chunk relpaths committed rev = Some c ->
  c ∈ remaining relpaths committed rev /\
  length (remaining relpaths (committed ++ [c.1]) rev) < length (remaining relpaths committed rev).
Proof.
  intros Hf. apply first_Some in Hf as [Hin Hc]. unfold remaining.
  assert (forall x, negb (bool_decide (x ∈ committed ++ [c.1])) = true -> negb (bool_decide (x ∈ committed)) = true) as Hmono.
  { intros x. rewrite !negb_true_iff, !bool_decide_eq_false. set_solver. }
  assert (negb (bool_decide (c.1 ∈ committed ++ [c.1])) = false) as Hc'.
  { apply negb_false_iff, bool_decide_eq_true. set_solver. }
  split; [apply list_elem_of_In, filter_In; split; [by apply list_elem_of_In|done]|].
  induction (partition_chunks relpaths rev CHUNK_SIZE) as [|x l IH]; [by apply not_elem_of_nil in Hin|].
  cbn [List.filter]. pose proof (Hmono x.1) as Hx.
  assert (length (List.filter (fun c0 => negb (bool_decide (c0.1 ∈ committed ++ [c.1]))) l) <=
    length (List.filter (fun c0 => negb (bool_decide (c0.1 ∈ committed))) l)) as Hle.
  { clear -Hmono. induction l as [|y l IH]; [done|]. cbn [List.filter]. pose proof (Hmono y.1).
    destruct (negb (bool_decide (y.1 ∈ committed ++ [c.1]))); [rewrite H by done; cbn; lia|].
    destruct (negb (bool_decide (y.1 ∈ committed))); cbn; lia. }
  apply elem_of_cons in Hin as [<-|Hin].
  - rewrite Hc, Hc'. cbn. lia.
  - specialize (IH Hin). destruct (negb (bool_decide (x.1 ∈ committed ++ [c.1]))); [rewrite Hx by done; cbn; lia|].
    destruct (negb (bool_decide (x.1 ∈ committed))); cbn; lia.
Qed.

(** Discovery repeated, each chunk committed in turn *)
Fixpoint discover_all (fuel : nat) (relpaths committed : list string) (rev : Z) : list string :=
  match fuel with
  | 0 => committed
  | S fuel =>
      match first_uncommitted_chunk relpaths committed rev with
      | None => committed
      | Some c => discover_all fuel relpaths (committed ++ [c.1]) rev
      end
  end.

Lemma discover_all_done fuel relpaths committed rev :
  length (remaining relpaths committed rev) <= fuel ->
  first_uncommitted_chunk relpaths (discover_all fuel relpaths committed rev) rev = None.
Proof.
  revert committed. induction fuel as [|fuel IH]; intros committed Hl; cbn [discover_all].
  - destruct (first_uncommitted_chunk relpaths committed rev) as [c|] eqn:Hf; [|done].
    apply remaining_step in Hf as [_ Hlt]. lia.
  - destruct (first_uncommitted_chunk relpaths committed rev) as [c|] eqn:Hf; [|done].
    apply remaining_step in Hf as [_ Hlt]. apply IH. lia.
Qed.

(** Discovery makes progress and ends: a chunk is offered exactly while one is
    uncommitted, it is the first uncommitted one of the listing, committing it
    strictly shrinks what remains, and after as many steps as there are chunks
    nothing is left: every included path is in a committed chunk. *)
Theorem discovery_exhausts (relpaths committed : list string) rev :
  (first_uncommitted_chunk relpaths committed rev = None <->
     forall c, c ∈ partition_chunks relpaths rev CHUNK_SIZE -> c.1 ∈ committed) /\
  (forall c, first_uncommitted_chunk relpaths committed rev = Some c ->
     ~ (c.1 ∈ committed) /\ c ∈ partition_chunks relpaths rev CHUNK_SIZE /\
     length (remaining relpaths (committed ++ [c.1]) rev) < length (remaining relpaths committed rev)) /\
  (forall final, final = discover_all (length (partition_chunks relpaths rev CHUNK_SIZE)) relpaths committed rev ->
   forall p, p ∈ relpaths -> exists c, c ∈ partition_chunks relpaths rev CHUNK_SIZE /\ posix p ∈ c.2 /\ c.1 ∈ final).
Proof.
  assert (forall com, first_uncommitted_chunk relpaths com rev = None <->
     forall c, c ∈ partition_chunks relpaths rev CHUNK_SIZE -> c.1 ∈ com) as Hnone.
  { intros com. unfold first_uncommitted_chunk. rewrite first_None. setoid_rewrite negb_false_iff.
    by setoid_rewrite bool_decide_eq_true. }
  split_and!; [apply Hnone| |].
  - intros c Hc. pose proof (remaining_step _ _ _ _ Hc) as [_ Hlt].
    unfold first_uncommitted_chunk in Hc. apply first_Some in Hc as [Hin Hc].
    apply negb_true_iff, bool_decide_eq_false in Hc. done.
  - intros final -> p Hp. set (final := discover_all _ _ _ _).
    assert (first_uncommitted_chunk relpaths final rev = None) as Hfin.
    { apply discover_all_done. unfold remaining. apply List.filter_length_le. }
    rewrite Hnone in Hfin.
    assert (posix p ∈ List.concat ((partition_chunks relpaths rev CHUNK_SIZE).*2)) as Hcat.
    { unfold partition_chunks. rewrite <- list_fmap_compose.
      rewrite (list_fmap_id (slices _ _ _)) || (rewrite (list_fmap_ext _ id) by done; rewrite list_fmap_id).
      rewrite slices_concat by (unfold CHUNK_SIZE; lia). unfold ordered. rewrite elem_of_py_sort.
      apply list_elem_of_fmap. eauto. }
    apply list_elem_of_In, in_concat in Hcat as (g & Hg%list_elem_of_In & Hpg%list_elem_of_In).
    apply list_elem_of_fmap in Hg as (c & -> & Hc). exists c. split_and!; [done..|by apply Hfin].
Qed.
End cursor.

Lemma partition_chunks_partition_witness :
  map (fun c => length c.2) (partition_chunks (fun _ => "x") ["b.sol"; "a\x.sol"; "c.sol"] 0 2) = [2; 1] /\
  List.concat ((partition_chunks (fun _ => "x") ["b.sol"; "a\x.sol"; "c.sol"] 0 2).*2) = ["a/x.sol"; "b.sol"; "c.sol"].
Proof.
  split; [vm_compute; reflexivity|].
  destruct (partition_chunks_partition (fun _ => "x") ["b.sol"; "a\x.sol"; "c.sol"] 0 2 ltac:(lia)) as (H & _).
  rewrite H. vm_compute. reflexivity.
Defined.
