(* ===== verification/Methodology.v ===== *)
(** * The methodology reducer

    audit_agent/methodology/models.py and audit_agent/methodology/service.py: the
    roadmap is a fold over the events of a memory snapshot, and a transition is a
    pure function of the snapshot and the action.  The snapshot and its items are
    the kernel's; pydantic's validation of untyped bodies is a parameter, its
    serialization of a model is the dict of the declared fields. *)

From S2P Require Import Prelude PyStr PyVal Finding Stage1 Stage3.

(** ** Models (models.py) *)

Inductive TransitionType := discover | check | synthesize | skip | gap.
Inductive StageOutcome := ran | did_not_run | timeout | skipped | empty.
Inductive AnalyzerOutcome := a_ran | a_did_not_run | a_timeout.
Inductive RoadmapState := rs_pending | rs_analysed | rs_skipped | rs_gap.

#[export] Instance TransitionType_eq_dec : EqDecision TransitionType.
Proof. solve_decision. Defined.
#[export] Instance StageOutcome_eq_dec : EqDecision StageOutcome.
Proof. solve_decision. Defined.
#[export] Instance AnalyzerOutcome_eq_dec : EqDecision AnalyzerOutcome.
Proof. solve_decision. Defined.
#[export] Instance RoadmapState_eq_dec : EqDecision RoadmapState.
Proof. solve_decision. Defined.

Definition transition_str (t : TransitionType) : string :=
  match t with discover => "discover" | check => "check" | synthesize => "synthesize" | skip => "skip" | gap => "gap" end.
Definition outcome_str (o : StageOutcome) : string :=
  match o with ran => "ran" | did_not_run => "did_not_run" | timeout => "timeout" | skipped => "skipped" | empty => "empty" end.
Definition analyzer_outcome_str (o : AnalyzerOutcome) : string :=
  match o with a_ran => "ran" | a_did_not_run => "did_not_run" | a_timeout => "timeout" end.
Definition state_str (s : RoadmapState) : string :=
  match s with rs_pending => "pending" | rs_analysed => "analysed" | rs_skipped => "skipped" | rs_gap => "gap" end.

Record StageEvent := mkEvent {
  ev_transition_type : TransitionType;
  ev_roadmap_revision : Z;
  ev_chunk_id : option string;
  ev_target : option string;
  ev_outcome : StageOutcome;
  ev_reason : option string;
  ev_as_of_sequence : Z;
  ev_targets : list string;
  ev_skipped_targets : list string;
}.

Definition truthy_opt (o : option string) : bool := match o with Some s => truthy s | None => false end.

(** [_required_fields]: the validator run on every construction *)
Definition required_fields (e : StageEvent) : res StageEvent :=
  let t := ev_transition_type e in
  if bool_decide (t = discover) && negb (truthy_opt (ev_chunk_id e)) then
    Raise (Exn "ValidationError" "discover requires chunk_id")
  else if bool_decide (t ∈ [check; skip; gap]) && negb (truthy_opt (ev_target e)) then
    Raise (Exn "ValidationError" (transition_str t +:+ " requires target"))
  else if bool_decide (t ∈ [skip; gap]) && negb (truthy (strip (default "" (ev_reason e)))) then
    Raise (Exn "ValidationError" (transition_str t +:+ " requires a non-empty reason"))
  else Ok e.

Record AnalyzerExecution := mkExecution {
  ex_analyzer_id : string;
  ex_analyzer_version : string;
  ex_target : string;
  ex_target_digest : string;
  ex_outcome : AnalyzerOutcome;
  ex_result_truncated : string;
  ex_finding_ids : list string;
}.

Record RoadmapRow := mkRow {
  row_target : string;
  row_state : RoadmapState;
  row_reason : option string;
  row_chunk_id : option string;
}.

Record ProjectedFinding := mkProjected {
  pf_finding_id : string;
  pf_location : string;
  pf_severity : string;
  pf_tags : list string;
  pf_preconditions : list (Z * bool);
  pf_notes : string;
  pf_grounded : bool;
  pf_analyzer_id : option string;
}.

Record RoadmapProjection := mkProjection {
  pj_as_of_sequence : Z;
  pj_targets : list RoadmapRow;
  pj_findings : list ProjectedFinding;
  pj_empty_label : option string;
}.

Record CanonicalParityRecord := mkParity {
  cr_transition_type : option string;
  cr_chunk_id : option string;
  cr_analyzer_id : option string;
  cr_target : option string;
  cr_analyzer_outcome : option string;
  cr_grounded : bool;
  cr_location : string;
  cr_severity : string;
  cr_tags : list string;
  cr_preconditions : list (Z * bool);
  cr_notes : string;
}.

Record MethodologyTransition := mkTransition {
  tr_event : StageEvent;
  tr_executions : list AnalyzerExecution;
  tr_findings : list Finding;
  tr_projection : RoadmapProjection;
}.

(** [model_dump(mode="json")] *)
Definition dump_opt (o : option string) : pyval := match o with Some s => PStr s | None => PNone end.
Definition dump_strs (l : list string) : pyval := PList (map PStr l).

Definition dump_event (e : StageEvent) : pyval := PDict
  [("kind", PStr "stage_event");
   ("transition_type", PStr (transition_str (ev_transition_type e)));
   ("roadmap_revision", PInt (ev_roadmap_revision e));
   ("chunk_id", dump_opt (ev_chunk_id e));
   ("target", dump_opt (ev_target e));
   ("outcome", PStr (outcome_str (ev_outcome e)));
   ("reason", dump_opt (ev_reason e));
   ("as_of_sequence", PInt (ev_as_of_sequence e));
   ("targets", dump_strs (ev_targets e));
   ("skipped_targets", dump_strs (ev_skipped_targets e))].

Definition dump_execution (e : AnalyzerExecution) : pyval := PDict
  [("kind", PStr "analyzer_execution");
   ("analyzer_id", PStr (ex_analyzer_id e));
   ("analyzer_version", PStr (ex_analyzer_version e));
   ("target", PStr (ex_target e));
   ("target_digest", PStr (ex_target_digest e));
   ("analyzer_outcome", PStr (analyzer_outcome_str (ex_outcome e)));
   ("result_truncated", PStr (ex_result_truncated e));
   ("finding_ids", dump_strs (ex_finding_ids e))].

(** ** The kernel's snapshot and actions *)

Record SnapshotItem := mkItem {
  si_record_id : string;
  si_log_sequence : Z;
  si_kind : string;
  si_source_type : string;
  si_timestamp : string;
  si_operation_id : option string;
  si_body : pyval;
}.

Record MemorySnapshot := mkSnapshot {
  sn_session_id : string;
  sn_as_of_sequence : Z;
  sn_measured_bytes : Z;
  sn_items : list SnapshotItem;
}.

Record Action := mkAction { action_type : string; params : list (string * pyval) }.

Definition param (a : Action) (k : string) : pyval := default PNone (assoc k (params a)).

(** ** The service (service.py) *)

(** [_payload_bodies] *)
Definition payload_bodies (item : SnapshotItem) : res (list pyval) :=
  let body := por (si_body item) (PDict []) in
  let own := kind ← pget body "kind" PNone;
             Ok (if bool_decide (kind ∈ [PStr "stage_event"; PStr "analyzer_execution"]) then [body] else []) in
  if String.eqb (si_kind item) "dispatch_commit" then
    payloads ← pget body "payloads" PNone;
    match payloads with
    | PList l => Ok (List.filter is_dict l)
    | _ =>
        kind ← pget body "kind" PNone;
        if truthy_val kind then Ok [body] else own
    end
  else own.

(** [_rows]: the dict of rows in order of first mention *)
Definition touch_event (rows : list (string * RoadmapRow)) (e : StageEvent) : list (string * RoadmapRow) :=
  let set_row (st : RoadmapState) (reason : option string) :=
    match ev_target e with
    | Some t => if truthy t then assoc_set t (mkRow t st reason (ev_chunk_id e)) rows else rows
    | None => rows
    end in
  match ev_transition_type e with
  | discover => fold_left (fun rows t =>
      match assoc t rows with
      | Some _ => rows
      | None => assoc_set t (mkRow t rs_pending None (ev_chunk_id e)) rows
      end) (ev_targets e) rows
  | check => set_row rs_analysed None
  | skip => set_row rs_skipped (ev_reason e)
  | gap => set_row rs_gap (ev_reason e)
  | synthesize => rows
  end.

Definition row_map (events : list StageEvent) : list (string * RoadmapRow) := fold_left touch_event events [].
Definition rows_of (events : list StageEvent) : list RoadmapRow := (row_map events).*2.

(** [_grounding_map] *)
Definition by_id (findings : list Finding) : list (string * Finding) :=
  fold_left (fun m f => assoc_set (finding_id f) f m) findings [].

Definition ground_one (ids : list (string * Finding)) (exe : AnalyzerExecution)
    (grounded : list (string * bool)) (fid : string) : list (string * bool) :=
  match assoc fid ids with
  | None => grounded
  | Some f => if String.eqb (ex_target exe) (before_char ":" (location f)) then assoc_set fid true grounded else grounded
  end.

Definition grounding_map (findings : list Finding) (executions : list AnalyzerExecution) : list (string * bool) :=
  let grounded := fold_left (fun m f => assoc_set (finding_id f) false m) findings [] in
  let ids := by_id findings in
  fold_left (fun g exe =>
    if bool_decide (ex_outcome exe = a_ran) then fold_left (ground_one ids exe) (ex_finding_ids exe) g else g)
    executions grounded.

Definition EMPTY_LABEL : string := "empty: no findings to synthesize".

(** [run_stage3(list(findings))] on freshly validated, distinct objects *)
Definition stage3_findings (findings : list Finding) : list Finding :=
  let refs := seq 0 (length findings) in
  let h : heap := list_to_map (zip refs findings) in
  let h' := (run_stage3 refs [] h).1 in
  map (deref h') refs.

Section service.
Context (validate_event : pyval -> res StageEvent)
        (validate_execution : pyval -> res AnalyzerExecution)
        (validate_finding : pyval -> res Finding).

Definition reject_bad_snapshot (s : MemorySnapshot) : res unit :=
  if existsb (fun i => (sn_as_of_sequence s <? si_log_sequence i)%Z) (sn_items s) then
    Raise (Exn "SnapshotRejected" ("snapshot names a future watermark: as_of_sequence="
      +:+ pretty (sn_as_of_sequence s) +:+ " but an item is above it"))
  else Ok tt.

Fixpoint unpack_bodies (bodies : list pyval) (acc : list StageEvent * list AnalyzerExecution)
    : res (list StageEvent * list AnalyzerExecution) :=
  match bodies with
  | [] => Ok acc
  | body :: bodies' =>
      let kind := default PNone (dget body "kind") in
      if bool_decide (kind = PStr "stage_event") then
        e ← validate_event body; unpack_bodies bodies' (acc.1 ++ [e], acc.2)
      else if bool_decide (kind = PStr "analyzer_execution") then
        e ← validate_execution body; unpack_bodies bodies' (acc.1, acc.2 ++ [e])
      else unpack_bodies bodies' acc
  end.

Fixpoint unpack_items (items : list SnapshotItem) (acc : list StageEvent * list AnalyzerExecution)
    : res (list StageEvent * list AnalyzerExecution) :=
  match items with
  | [] => Ok acc
  | item :: items' => bodies ← payload_bodies item; acc' ← unpack_bodies bodies acc; unpack_items items' acc'
  end.

Definition unpack (s : MemorySnapshot) : res (list StageEvent * list AnalyzerExecution) :=
  unpack_items (sn_items s) ([], []).

Definition item_finding (item : SnapshotItem) : option Finding :=
  if String.eqb (si_kind item) "finding" && truthy_val (si_body item)
  then res_to_option (validate_finding (si_body item)) else None.

Definition snapshot_findings (s : MemorySnapshot) : list Finding := omap item_finding (sn_items s).

Definition grounded_by (executions : list AnalyzerExecution) (fid : string) : option string :=
  ex_analyzer_id <$> first (fun e => bool_decide (fid ∈ ex_finding_ids e) && bool_decide (ex_outcome e = a_ran)) executions.

Definition project_finding (grounded : list (string * bool)) (executions : list AnalyzerExecution) (f : Finding)
    : ProjectedFinding :=
  mkProjected (finding_id f) (location f) (enum_value (f_severity f))
    (match f_bastet_tag f with Some t => [enum_value t] | None => [] end)
    (preconditions f) "" (default false (assoc (finding_id f) grounded)) (grounded_by executions (finding_id f)).

Definition project (s : MemorySnapshot) : res RoadmapProjection :=
  _ ← reject_bad_snapshot s;
  ee ← unpack s;
  let '(events, executions) := ee in
  let findings := snapshot_findings s in
  let grounded := grounding_map findings executions in
  Ok (mkProjection (sn_as_of_sequence s) (rows_of events)
    (map (project_finding grounded executions) findings)
    (if existsb (fun e => bool_decide (ev_transition_type e = synthesize) && bool_decide (ev_outcome e = empty)) events
     then Some EMPTY_LABEL else None)).

Definition imagine (s : MemorySnapshot) (event : StageEvent) (executions : list AnalyzerExecution) : MemorySnapshot :=
  let seq := (sn_as_of_sequence s + 1)%Z in
  let bodies := dump_event event :: map dump_execution executions in
  mkSnapshot (sn_session_id s) seq (sn_measured_bytes s)
    (sn_items s ++ [mkItem "imagined" seq "dispatch_commit" "tool_output" "0" None
                      (PDict [("payloads", PList bodies)])]).

(** The keyword arguments of [apply] *)
Record ApplyArgs := mkArgs {
  aa_report : option Stage1Report;
  aa_executions : list AnalyzerExecution;
  aa_extra_findings : list Finding;
  aa_chunk_id : option string;
  aa_outcome : option StageOutcome;
  aa_reason : option string;
  aa_gap_target : option string;
}.
Definition no_args : ApplyArgs := mkArgs None [] [] None None None None.

Definition ZEROS : string := String.concat "" (repeat "0" 64).
Definition str_or_empty (v : pyval) : string := py_str (por v (PStr "")).

(** The event of an action and the findings the transition carries. *)
Definition action_event (s : MemorySnapshot) (action : Action) (a : ApplyArgs) (revision : Z)
    : res (StageEvent * list Finding) :=
  let at' := action_type action in
  let watermark := sn_as_of_sequence s in
  if String.eqb at' "run_discovery" then
    let cid := por (por (dump_opt (aa_chunk_id a)) (param action "chunk_id")) (PStr ZEROS) in
    e ← required_fields (mkEvent discover revision (Some (py_str cid)) None ran None watermark
          (match aa_report a with Some r => priority_targets r | None => [] end)
          (match aa_report a with Some r => skipped_targets r | None => [] end));
    Ok (e, aa_extra_findings a)
  else if String.eqb at' "run_check" then
    e ← required_fields (mkEvent check revision None (Some (str_or_empty (param action "target")))
          (default ran (aa_outcome a)) None watermark [] []);
    Ok (e, aa_extra_findings a)
  else if String.eqb at' "skip_target" then
    e ← required_fields (mkEvent skip revision None (Some (str_or_empty (param action "target"))) skipped
          (Some (strip (py_str (por (por (param action "reason") (dump_opt (aa_reason a))) (PStr "")))))
          watermark [] []);
    Ok (e, aa_extra_findings a)
  else if String.eqb at' "run_synthesis" then
    let findings := snapshot_findings s ++ aa_extra_findings a in
    let '(synth, outcome) := match findings with
                             | [] => ([], empty)
                             | _ => (stage3_findings findings, ran)
                             end in
    e ← required_fields (mkEvent synthesize revision None None outcome None watermark [] []);
    Ok (e, synth)
  else if String.eqb at' "gap" || truthy_opt (aa_gap_target a) then
    e ← required_fields (mkEvent gap revision None
          (Some (py_str (por (dump_opt (aa_gap_target a)) (PStr (str_or_empty (param action "target"))))))
          did_not_run
          (Some (py_str (por (dump_opt (aa_reason a)) (PStr "path is outside the bound include set"))))
          watermark [] []);
    Ok (e, aa_extra_findings a)
  else Raise (Exn "ValueError" ("unsupported methodology action " +:+ repr_str at')).

Definition is_empty_synthesis (e : StageEvent) : bool :=
  bool_decide (ev_transition_type e = synthesize) && bool_decide (ev_outcome e = empty).

Definition with_empty_label (p : RoadmapProjection) : RoadmapProjection :=
  mkProjection (pj_as_of_sequence p) (pj_targets p) (pj_findings p) (Some EMPTY_LABEL).

(** [_revision] *)
Definition revision_of (s : MemorySnapshot) : res Z := ee ← unpack s; Ok (Z.of_nat (length ee.1)).

Definition apply_action (s : MemorySnapshot) (action : Action) (a : ApplyArgs) : res MethodologyTransition :=
  _ ← reject_bad_snapshot s;
  revision ← revision_of s;
  ef ← action_event s action a revision;
  projection ← project (imagine s ef.1 (aa_executions a));
  Ok (mkTransition ef.1 (aa_executions a) ef.2
        (if is_empty_synthesis ef.1 then with_empty_label projection else projection)).

(** The sort key of the parity records *)
Definition parity_key (r : CanonicalParityRecord) : list string :=
  [default "" (cr_transition_type r); default "" (cr_chunk_id r); default "" (cr_target r);
   default "" (cr_analyzer_id r)].
Fixpoint strs_leb (a b : list string) : bool :=
  match a, b with
  | [], _ => true
  | _ :: _, [] => false
  | x :: a', y :: b' => if String.eqb x y then strs_leb a' b' else str_leb x y
  end.
Definition parity_leb (r r' : CanonicalParityRecord) : bool := strs_leb (parity_key r) (parity_key r').

Definition event_parity (e : StageEvent) : CanonicalParityRecord :=
  mkParity (Some (transition_str (ev_transition_type e))) (ev_chunk_id e) None (ev_target e) None false "" "" [] [] "".
Definition execution_parity (e : AnalyzerExecution) : CanonicalParityRecord :=
  mkParity None None (Some (ex_analyzer_id e)) (Some (ex_target e))
    (Some (analyzer_outcome_str (ex_outcome e))) false "" "" [] [] "".
Definition finding_parity (f : ProjectedFinding) : CanonicalParityRecord :=
  mkParity None None (pf_analyzer_id f)
    (if truthy (pf_location f) then Some (before_char ":" (pf_location f)) else None) None
    (pf_grounded f) (pf_location f) (pf_severity f) (pf_tags f) (pf_preconditions f) (pf_notes f).

Definition parity (s : MemorySnapshot) : res (list CanonicalParityRecord) :=
  projection ← project s;
  ee ← unpack s;
  Ok (py_sort parity_leb (map event_parity ee.1 ++ map execution_parity ee.2
                          ++ map finding_parity (pj_findings projection))).

Definition is_grounded (s : MemorySnapshot) (fid : string) (target target_digest : option string) : res bool :=
  _ ← reject_bad_snapshot s;
  ee ← unpack s;
  match first (fun f => String.eqb (finding_id f) fid) (snapshot_findings s) with
  | None => Ok false
  | Some f =>
      let want_target := if truthy_opt target then default "" target else before_char ":" (location f) in
      Ok (existsb (fun exe =>
        bool_decide (fid ∈ ex_finding_ids exe) && bool_decide (ex_outcome exe = a_ran)
        && String.eqb (ex_target exe) want_target
        && match target_digest with Some d => String.eqb (ex_target_digest exe) d | None => true end) ee.2)
  end.

(** ** The roadmap as a fold over the events *)

(** What an event says about a target, if it settles it *)
Definition settles (t : string) (e : StageEvent) : option RoadmapRow :=
  if bool_decide (ev_target e = Some t) && truthy t then
    match ev_transition_type e with
    | check => Some (mkRow t rs_analysed None (ev_chunk_id e))
    | skip => Some (mkRow t rs_skipped (ev_reason e) (ev_chunk_id e))
    | gap => Some (mkRow t rs_gap (ev_reason e) (ev_chunk_id e))
    | _ => None
    end
  else None.

Definition discovers (t : string) (e : StageEvent) : option RoadmapRow :=
  if bool_decide (ev_transition_type e = discover) && bool_decide (t ∈ ev_targets e)
  then Some (mkRow t rs_pending None (ev_chunk_id e)) else None.

(** The row of a target: the last settling event, else the first discovery *)
Definition row_spec (t : string) (events : list StageEvent) : option RoadmapRow :=
  match last (omap (settles t) events) with
  | Some r => Some r
  | None => head (omap (discovers t) events)
  end.

Lemma fold_discover_assoc t chunk ts rows :
  assoc t (fold_left (fun rows t => match assoc t rows with
    | Some _ => rows | None => assoc_set t (mkRow t rs_pending None chunk) rows end) ts rows) =
  match assoc t rows with
  | Some r => Some r
  | None => if bool_decide (t ∈ ts) then Some (mkRow t rs_pending None chunk) else None
  end.
Proof.
  revert rows. induction ts as [|x ts IH]; intros rows; cbn [fold_left].
  { by destruct (assoc t rows). }
  rewrite IH. destruct (decide (x = t)) as [->|Hx].
  - rewrite (bool_decide_true (t ∈ t :: ts)) by left.
    destruct (assoc t rows) as [r|] eqn:E; rewrite ?E; [done|]. by rewrite assoc_set_eq.
  - assert (bool_decide (t ∈ x :: ts) = bool_decide (t ∈ ts)) as ->.
    { apply bool_decide_ext. rewrite elem_of_cons. naive_solver. }
    destruct (assoc x rows) eqn:E; [done|]. by rewrite assoc_set_ne.
Qed.

Lemma touch_assoc t rows e :
  assoc t (touch_event rows e) =
  match settles t e with
  | Some r => Some r
  | None => match assoc t rows with Some r => Some r | None => discovers t e end
  end.
Proof.
  unfold touch_event, settles, discovers.
  assert (forall st re, assoc t match ev_target e with
      | Some t0 => if truthy t0 then assoc_set t0 (mkRow t0 st re (ev_chunk_id e)) rows else rows
      | None => rows end =
    if bool_decide (ev_target e = Some t) && truthy t then Some (mkRow t st re (ev_chunk_id e)) else assoc t rows) as Hset.
  { intros st re. destruct (ev_target e) as [t0|]; [|by rewrite bool_decide_false].
    destruct (decide (t0 = t)) as [->|Hne].
    - rewrite bool_decide_true by done. cbn. destruct (truthy t); [apply assoc_set_eq|done].
    - rewrite bool_decide_false by congruence. cbn. destruct (truthy t0); [by apply assoc_set_ne|done]. }
  destruct (ev_transition_type e); cbn [bool_decide]; rewrite ?Hset, ?fold_discover_assoc.
  - rewrite (bool_decide_true (discover = discover)) by done. cbn [andb].
    destruct (bool_decide (ev_target e = Some t) && truthy t); by destruct (assoc t rows).
  - rewrite (bool_decide_false (check = discover)) by done.
    destruct (bool_decide (ev_target e = Some t) && truthy t); [done|]. by destruct (assoc t rows).
  - rewrite (bool_decide_false (synthesize = discover)) by done.
    destruct (bool_decide (ev_target e = Some t) && truthy t); by destruct (assoc t rows).
  - rewrite (bool_decide_false (skip = discover)) by done.
    destruct (bool_decide (ev_target e = Some t) && truthy t); [done|]. by destruct (assoc t rows).
  - rewrite (bool_decide_false (gap = discover)) by done.
    destruct (bool_decide (ev_target e = Some t) && truthy t); [done|]. by destruct (assoc t rows).
Qed.

Lemma row_map_snoc events e : row_map (events ++ [e]) = touch_event (row_map events) e.
Proof. unfold row_map. by rewrite fold_left_app. Qed.

Lemma row_map_spec t events : assoc t (row_map events) = row_spec t events.
Proof.
  induction events as [|e events IH] using rev_ind; [done|].
  rewrite row_map_snoc, touch_assoc, IH. unfold row_spec. rewrite !omap_app.
  assert (omap (settles t) [e] = match settles t e with Some r => [r] | None => [] end) as -> by (cbn; by destruct (settles t e)).
  assert (omap (discovers t) [e] = match discovers t e with Some r => [r] | None => [] end) as -> by (cbn; by destruct (discovers t e)).
  destruct (settles t e) as [r|]; [by rewrite last_snoc|]. rewrite app_nil_r.
  destruct (last (omap (settles t) events)); [done|].
  destruct (omap (discovers t) events); cbn; [by destruct (discovers t e)|done].
Qed.

Lemma fold_prefix {A B K} (f : list (K * B) -> A -> list (K * B)) l rows :
  (forall rows a, rows.*1 `prefix_of` (f rows a).*1) -> rows.*1 `prefix_of` (fold_left f l rows).*1.
Proof.
  intros Hf. revert rows. induction l as [|a l IH]; intros rows; cbn; [done|]. etrans; [apply Hf|apply IH].
Qed.

Lemma assoc_set_prefix {K V} `{EqDecision K} k (v : V) (l : list (K * V)) : l.*1 `prefix_of` (assoc_set k v l).*1.
Proof.
  destruct (decide (k ∈ l.*1)) as [Hk|Hk]; [by rewrite assoc_set_keys_old|].
  rewrite assoc_set_keys_new, fmap_app by done. by eexists.
Qed.

Lemma touch_prefix rows e : rows.*1 `prefix_of` (touch_event rows e).*1.
Proof.
  unfold touch_event. destruct (ev_transition_type e); try done.
  - apply fold_prefix. intros rs t. destruct (assoc t rs); [done|apply assoc_set_prefix].
  - destruct (ev_target e) as [t|]; [destruct (truthy t)|]; try done; apply assoc_set_prefix.
  - destruct (ev_target e) as [t|]; [destruct (truthy t)|]; try done; apply assoc_set_prefix.
  - destruct (ev_target e) as [t|]; [destruct (truthy t)|]; try done; apply assoc_set_prefix.
Qed.

Lemma fold_NoDup {A B K} (f : list (K * B) -> A -> list (K * B)) l rows :
  (forall rows a, NoDup rows.*1 -> NoDup (f rows a).*1) -> NoDup rows.*1 -> NoDup (fold_left f l rows).*1.
Proof. intros Hf. revert rows. induction l as [|a l IH]; intros rows Hr; cbn; auto. Qed.

Lemma row_map_NoDup events : NoDup (row_map events).*1.
Proof.
  apply fold_NoDup; [|constructor]. intros rows e Hr. unfold touch_event. destruct (ev_transition_type e); try done.
  - apply fold_NoDup; [|done]. intros rs t Hrs. destruct (assoc t rs); [done|by apply NoDup_assoc_set].
  - destruct (ev_target e) as [t|]; [destruct (truthy t)|]; try done; by apply NoDup_assoc_set.
  - destruct (ev_target e) as [t|]; [destruct (truthy t)|]; try done; by apply NoDup_assoc_set.
  - destruct (ev_target e) as [t|]; [destruct (truthy t)|]; try done; by apply NoDup_assoc_set.
Qed.

Lemma settles_target t e r : settles t e = Some r -> row_target r = t /\ row_state r <> rs_pending.
Proof. unfold settles. destruct (_ && _); [|done]. destruct (ev_transition_type e); intros [=]; by subst. Qed.

Lemma row_spec_target t events r : row_spec t events = Some r -> row_target r = t.
Proof.
  unfold row_spec. destruct (last _) as [r'|] eqn:El.
  - intros [= ->]. apply last_Some in El as [l' El]. assert (r ∈ omap (settles t) events) as Hr by (rewrite El; set_solver).
    apply list_elem_of_omap in Hr as (e & _ & He). by apply settles_target in He as [? _].
  - intros Hh. assert (r ∈ omap (discovers t) events) as Hr by (destruct (omap (discovers t) events); simplify_eq/=; left).
    apply list_elem_of_omap in Hr as (e & _ & He). unfold discovers in He. case_match; by simplify_eq.
Qed.

(** C20. The roadmap is a well-formed function of the event log: one row per target,
    under its own name, in the order of first mention, which later events only
    extend; the row is the verdict of the last check, skip or gap event of the
    target, or pending since its first discovery; and a target once analysed, skipped
    or marked a gap never becomes pending again. *)
Theorem roadmap_of_events (events events' : list StageEvent) :
  NoDup (map row_target (rows_of events)) /\
  (forall t r, (r ∈ rows_of events /\ row_target r = t) <-> row_spec t events = Some r) /\
  map row_target (rows_of events) `prefix_of` map row_target (rows_of (events ++ events')) /\
  (forall t r, row_spec t events = Some r -> row_state r <> rs_pending ->
     exists r', row_spec t (events ++ events') = Some r' /\ row_state r' <> rs_pending).
Proof.
  assert (forall es, map row_target (rows_of es) = (row_map es).*1) as Hkeys.
  { intros es. unfold rows_of. rewrite <- list_fmap_compose. apply list_fmap_ext. intros i [k r] Hi. cbn.
    apply list_elem_of_lookup_2, (assoc_NoDup_elem k r) in Hi; [|apply row_map_NoDup].
    rewrite row_map_spec in Hi. by apply row_spec_target in Hi. }
  split_and!.
  - rewrite Hkeys. apply row_map_NoDup.
  - intros t r. rewrite <- row_map_spec. split.
    + intros [Hr <-]. apply list_elem_of_fmap in Hr as ([k r'] & -> & Hin). cbn in *.
      pose proof (assoc_NoDup_elem k r' (row_map events) (row_map_NoDup events) Hin) as Ha.
      assert (row_target r' = k) as ->; [|done]. rewrite row_map_spec in Ha. by apply row_spec_target in Ha.
    + intros Ha. split; [|rewrite row_map_spec in Ha; by apply row_spec_target in Ha].
      apply list_elem_of_fmap. exists (t, r). split; [done|by apply assoc_Some_elem].
  - rewrite !Hkeys. unfold row_map. rewrite fold_left_app. apply fold_prefix, touch_prefix.
  - intros t r Hr Hs. unfold row_spec in *. rewrite omap_app.
    destruct (last (omap (settles t) events)) as [r0|] eqn:El.
    + destruct (last (omap (settles t) events ++ omap (settles t) events')) as [r'|] eqn:El'.
      * exists r'. split; [done|]. apply last_Some in El' as [l' El'].
        assert (r' ∈ omap (settles t) (events ++ events')) as Hin by (rewrite omap_app, El'; set_solver).
        apply list_elem_of_omap in Hin as (e & _ & He). by apply settles_target in He as [_ ?].
      * apply last_None in El'. apply app_eq_nil in El' as [El' _]. by rewrite El' in El.
    + assert (r ∈ omap (discovers t) events) as Hin by (destruct (omap (discovers t) events); simplify_eq/=; left).
      apply list_elem_of_omap in Hin as (e & _ & He). unfold discovers in He. case_match; by simplify_eq.
Qed.

(** ** Grounding *)

Definition grounds (ids : list (string * Finding)) (k : string) (exe : AnalyzerExecution) : bool :=
  bool_decide (ex_outcome exe = a_ran) && bool_decide (k ∈ ex_finding_ids exe)
  && match assoc k ids with Some f => String.eqb (ex_target exe) (before_char ":" (location f)) | None => false end.

Lemma ground_one_assoc ids exe g fid k :
  assoc k (ground_one ids exe g fid) =
  if bool_decide (fid = k) && match assoc k ids with Some f => String.eqb (ex_target exe) (before_char ":" (location f)) | None => false end
  then Some true else assoc k g.
Proof.
  unfold ground_one. destruct (bool_decide_reflect (fid = k)) as [->|Hne]; cbn [andb].
  - destruct (assoc k ids); [|done]. destruct (String.eqb _ _); [apply assoc_set_eq|done].
  - destruct (assoc fid ids); [|done]. destruct (String.eqb _ _); [by apply assoc_set_ne|done].
Qed.

Lemma ground_fold_assoc ids exe fids g k :
  assoc k (fold_left (ground_one ids exe) fids g) =
  if bool_decide (k ∈ fids) && match assoc k ids with Some f => String.eqb (ex_target exe) (before_char ":" (location f)) | None => false end
  then Some true else assoc k g.
Proof.
  revert g. induction fids as [|x fids IH]; intros g; [by rewrite bool_decide_false by apply not_elem_of_nil|].
  cbn [fold_left]. rewrite IH, ground_one_assoc.
  assert (bool_decide (k ∈ x :: fids) = bool_decide (x = k) || bool_decide (k ∈ fids)) as ->.
  { apply Bool.eq_iff_eq_true. boolify. rewrite elem_of_cons. naive_solver. }
  destruct (bool_decide (x = k)), (bool_decide (k ∈ fids)); cbn [andb orb]; try done.
  destruct (assoc k ids) as [f|]; [|done]. by destruct (String.eqb _ _).
Qed.

Lemma grounding_map_assoc findings executions k :
  assoc k (grounding_map findings executions) =
  if existsb (grounds (by_id findings) k) executions then Some true
  else if bool_decide (k ∈ map finding_id findings) then Some false else None.
Proof.
  unfold grounding_map. set (ids := by_id findings).
  assert (forall g, assoc k (fold_left (fun g exe =>
    if bool_decide (ex_outcome exe = a_ran) then fold_left (ground_one ids exe) (ex_finding_ids exe) g else g) executions g) =
    if existsb (grounds ids k) executions then Some true else assoc k g) as Hex.
  { induction executions as [|exe exs IH]; intros g; [done|]. cbn [fold_left existsb]. rewrite IH.
    unfold grounds at 2. destruct (bool_decide (ex_outcome exe = a_ran)); cbn [andb orb]; [|done].
    rewrite ground_fold_assoc. destruct (bool_decide _ && _); cbn [orb]; [by case_match|done]. }
  rewrite Hex. case_match; [done|].
  assert (forall m, assoc k (fold_left (fun m f => assoc_set (finding_id f) false m) findings m) =
    if bool_decide (k ∈ map finding_id findings) then Some false else assoc k m) as Hin; [|apply Hin].
  clear. induction findings as [|f fs IH]; intros m; [done|]. cbn [fold_left map]. rewrite IH.
  assert (bool_decide (k ∈ finding_id f :: map finding_id fs) = bool_decide (k = finding_id f) || bool_decide (k ∈ map finding_id fs)) as ->.
  { apply Bool.eq_iff_eq_true. boolify. by rewrite elem_of_cons. }
  destruct (bool_decide_reflect (k = finding_id f)) as [->|Hne]; cbn [orb].
  - rewrite assoc_set_eq. by case_match.
  - by rewrite assoc_set_ne.
Qed.

Lemma by_id_notin fs m k :
  k ∉ map finding_id fs -> assoc k (fold_left (fun m f => assoc_set (finding_id f) f m) fs m) = assoc k m.
Proof.
  revert m. induction fs as [|g fs IH]; intros m; [done|]. cbn [map fold_left].
  intros [Hg Hk]%not_elem_of_cons. rewrite IH by done. by rewrite assoc_set_ne.
Qed.

Lemma by_id_assoc findings f :
  NoDup (map finding_id findings) -> f ∈ findings -> assoc (finding_id f) (by_id findings) = Some f.
Proof.
  unfold by_id. generalize (@nil (string * Finding)) as m.
  induction findings as [|g fs IH]; intros m; [by intros _ ?%not_elem_of_nil|]. cbn [map fold_left].
  intros [Hg Hnd]%NoDup_cons [->|Hf]%elem_of_cons; [|by apply IH].
  rewrite by_id_notin by done. apply assoc_set_eq.
Qed.

Lemma first_unique findings f :
  NoDup (map finding_id findings) -> f ∈ findings ->
  first (fun g => String.eqb (finding_id g) (finding_id f)) findings = Some f.
Proof.
  induction findings as [|g fs IH]; [by intros _ ?%not_elem_of_nil|]. cbn [map first].
  intros [Hg Hnd]%NoDup_cons [->|Hf]%elem_of_cons; [by rewrite String.eqb_refl|].
  destruct (String.eqb_spec (finding_id g) (finding_id f)) as [Heq|]; [|by apply IH].
  destruct Hg. rewrite Heq. apply list_elem_of_fmap. eauto.
Qed.

(** C23. The two answers to "is this finding grounded" agree: over a snapshot whose
    finding ids are distinct, the flag a projection gives a finding is the answer of
    [is_grounded], and it is true exactly when an analyzer that ran on the finding's
    own file reported its id; a projected finding is never grounded otherwise. *)
Theorem grounding_agrees (s : MemorySnapshot) p f
    (Hnd : NoDup (map finding_id (snapshot_findings s))) (Hp : project s = Ok p) (Hf : f ∈ snapshot_findings s) :
  exists events executions pf, unpack s = Ok (events, executions) /\
    pf ∈ pj_findings p /\ pf_finding_id pf = finding_id f /\ pf_location pf = location f /\
    is_grounded s (finding_id f) None None = Ok (pf_grounded pf) /\
    (pf_grounded pf = true <-> exists exe, exe ∈ executions /\ ex_outcome exe = a_ran /\
       finding_id f ∈ ex_finding_ids exe /\ ex_target exe = before_char ":" (location f)).
Proof.
  unfold project in Hp. apply res_bind_Ok in Hp as ([] & Hr & Hp). apply res_bind_Ok in Hp as ([events exs] & Hu & Hp).
  injection Hp as <-. set (g := grounding_map _ _).
  exists events, exs, (project_finding g exs f). split; [done|]. cbn [pj_findings].
  split; [apply list_elem_of_fmap; by exists f|]. do 2 (split; [done|]).
  assert (pf_grounded (project_finding g exs f) = existsb (grounds (by_id (snapshot_findings s)) (finding_id f)) exs) as Hgr.
  { cbn. unfold g. rewrite grounding_map_assoc. case_match; [done|]. by case_match. }
  rewrite Hgr. split.
  - unfold is_grounded. rewrite Hr. cbn [mbind res_bind]. rewrite Hu. cbn [mbind res_bind snd].
    rewrite first_unique by done. f_equal. cbn [truthy_opt].
    apply existsb_ext_elem. intros e _. unfold grounds. rewrite by_id_assoc by done.
    by rewrite andb_true_r, (andb_comm (bool_decide (ex_outcome e = a_ran))).
  - rewrite existsb_exists. setoid_rewrite <- list_elem_of_In. unfold grounds. rewrite by_id_assoc by done.
    split; intros (exe & Hin & H); exists exe; [|destruct H as (? & ? & ?)]; boolify; rewrite String.eqb_eq in *; tauto.
Qed.

(** ** Transitions *)

Lemma unpack_items_app items items' acc :
  unpack_items (items ++ items') acc = (acc' ← unpack_items items acc; unpack_items items' acc').
Proof.
  revert acc. induction items as [|i items IH]; intros acc; [done|]. cbn [app unpack_items].
  destruct (payload_bodies i) as [bs|]; [|done]. cbn [mbind res_bind].
  destruct (unpack_bodies bs acc) as [acc'|]; [|done]. apply IH.
Qed.

Lemma required_fields_Ok e e' : required_fields e = Ok e' -> e' = e.
Proof. unfold required_fields. repeat case_match; congruence. Qed.

Lemma action_event_ok s action a rev e fs :
  action_event s action a rev = Ok (e, fs) ->
  required_fields e = Ok e /\ ev_roadmap_revision e = rev /\ ev_as_of_sequence e = sn_as_of_sequence s.
Proof.
  unfold action_event. cbv zeta.
  assert (forall e0 (fs0 : list Finding), (x ← required_fields e0; Ok (x, fs0)) = Ok (e, fs) ->
    required_fields e0 = Ok e0 /\ e = e0) as Hreq.
  { intros e0 fs0 (x & Hx & [= <- <-])%res_bind_Ok. pose proof (required_fields_Ok _ _ Hx) as ->. done. }
  destruct (String.eqb (action_type action) "run_discovery"); [intros [H ->]%Hreq; done|].
  destruct (String.eqb (action_type action) "run_check"); [intros [H ->]%Hreq; done|].
  destruct (String.eqb (action_type action) "skip_target"); [intros [H ->]%Hreq; done|].
  destruct (String.eqb (action_type action) "run_synthesis").
  { destruct (match snapshot_findings s ++ aa_extra_findings a with [] => _ | _ => _ end) as [synth o].
    intros [H ->]%Hreq. done. }
  destruct (_ || _); [intros [H ->]%Hreq; done|done].
Qed.

Lemma filter_is_dict_dumps e xs :
  List.filter is_dict (dump_event e :: map dump_execution xs) = dump_event e :: map dump_execution xs.
Proof. cbn. f_equal. induction xs as [|x xs IH]; cbn; [done|]. by rewrite IH. Qed.

(** An item by which the kernel commits a transition *)
Definition commits (item : SnapshotItem) (e : StageEvent) (xs : list AnalyzerExecution) : Prop :=
  si_kind item = "dispatch_commit" /\
  si_body item = PDict [("payloads", PList (dump_event e :: map dump_execution xs))].

Definition empty_label_of (events : list StageEvent) : option string :=
  if existsb is_empty_synthesis events then Some EMPTY_LABEL else None.

Context (validate_dump_event : forall e, required_fields e = Ok e -> validate_event (dump_event e) = Ok e)
        (validate_dump_execution : forall x, validate_execution (dump_execution x) = Ok x).

Lemma unpack_executions xs acc :
  unpack_bodies (map dump_execution xs) acc = Ok (acc.1, acc.2 ++ xs).
Proof.
  revert acc. induction xs as [|x xs IH]; intros [es acc]; cbn [map unpack_bodies fst snd].
  { by rewrite app_nil_r. }
  change (default PNone (dget (dump_execution x) "kind")) with (PStr "analyzer_execution").
  rewrite (bool_decide_false (PStr "analyzer_execution" = PStr "stage_event")) by done.
  rewrite (bool_decide_true (PStr "analyzer_execution" = PStr "analyzer_execution")) by done.
  rewrite validate_dump_execution. cbn [mbind res_bind].
  rewrite IH. cbn. by rewrite <- app_assoc.
Qed.

Lemma unpack_dumps e xs acc :
  required_fields e = Ok e ->
  unpack_bodies (dump_event e :: map dump_execution xs) acc = Ok (acc.1 ++ [e], acc.2 ++ xs).
Proof.
  intros He. cbn [unpack_bodies].
  change (default PNone (dget (dump_event e) "kind")) with (PStr "stage_event").
  rewrite (bool_decide_true (PStr "stage_event" = PStr "stage_event")) by done.
  rewrite validate_dump_event by done. cbn [mbind res_bind]. by rewrite unpack_executions.
Qed.

Lemma payload_bodies_commit item e xs :
  commits item e xs -> payload_bodies item = Ok (dump_event e :: map dump_execution xs).
Proof.
  intros [Hk Hb]. unfold payload_bodies. rewrite Hk, Hb.
  change (Ok (List.filter is_dict (dump_event e :: map dump_execution xs)) = Ok (dump_event e :: map dump_execution xs)).
  by rewrite filter_is_dict_dumps.
Qed.

Lemma unpack_commit item e xs acc :
  required_fields e = Ok e -> commits item e xs ->
  unpack_items [item] acc = Ok (acc.1 ++ [e], acc.2 ++ xs).
Proof.
  intros He Hc. cbn [unpack_items]. rewrite (payload_bodies_commit item e xs Hc). cbn [mbind res_bind].
  by rewrite unpack_dumps.
Qed.

Lemma project_commit s events exs item e xs n mb :
  reject_bad_snapshot s = Ok tt -> unpack s = Ok (events, exs) -> required_fields e = Ok e -> commits item e xs ->
  (si_log_sequence item <= n)%Z -> (sn_as_of_sequence s <= n)%Z ->
  project (mkSnapshot (sn_session_id s) n mb (sn_items s ++ [item])) =
  Ok (mkProjection n (rows_of (events ++ [e]))
       (map (project_finding (grounding_map (snapshot_findings s) (exs ++ xs)) (exs ++ xs)) (snapshot_findings s))
       (empty_label_of (events ++ [e]))).
Proof.
  intros Hr Hu He Hc Hseq Hn. unfold project.
  assert (reject_bad_snapshot (mkSnapshot (sn_session_id s) n mb (sn_items s ++ [item])) = Ok tt) as ->.
  { unfold reject_bad_snapshot in *. cbn. destruct (existsb _ (sn_items s)) eqn:Hx; [done|].
    rewrite existsb_app. cbn. rewrite (proj2 (Z.ltb_ge _ _) Hseq). rewrite orb_false_r.
    destruct (existsb (fun i => (n <? si_log_sequence i)%Z) (sn_items s)) eqn:Hy; [|done]. exfalso.
    apply existsb_exists in Hy as (i & Hi & Hlt%Z.ltb_lt). apply not_true_iff_false in Hx as [].
    apply existsb_exists. exists i. split; [done|]. apply Z.ltb_lt. lia. }
  cbn [mbind res_bind]. unfold unpack in *. cbn [sn_items]. rewrite unpack_items_app, Hu. cbn [mbind res_bind].
  rewrite (unpack_commit item e xs) by done. cbn [mbind res_bind fst snd sn_as_of_sequence].
  assert (snapshot_findings (mkSnapshot (sn_session_id s) n mb (sn_items s ++ [item])) = snapshot_findings s) as ->.
  { unfold snapshot_findings. cbn [sn_items]. rewrite omap_app. destruct Hc as [Hk _].
    assert (omap item_finding [item] = []) as -> by (cbn; unfold item_finding; by rewrite Hk). by rewrite app_nil_r. }
  done.
Qed.

(** C6. The preview is faithful: the projection a transition carries is exactly what
    projecting the memory gives once the kernel has committed the transition, under
    any record of the commit; its roadmap is the fold of the log with the new event,
    numbered by the events before it and stamped with the snapshot's watermark. *)
Theorem apply_preview_faithful (s : MemorySnapshot) action a t (Hok : apply_action s action a = Ok t) :
  exists events exs, unpack s = Ok (events, exs) /\
    ev_roadmap_revision (tr_event t) = Z.of_nat (length events) /\
    ev_as_of_sequence (tr_event t) = sn_as_of_sequence s /\
    required_fields (tr_event t) = Ok (tr_event t) /\
    pj_targets (tr_projection t) = rows_of (events ++ [tr_event t]) /\
    pj_as_of_sequence (tr_projection t) = (sn_as_of_sequence s + 1)%Z /\
    forall item n mb, commits item (tr_event t) (tr_executions t) ->
      (si_log_sequence item <= n)%Z -> (sn_as_of_sequence s <= n)%Z ->
      project (mkSnapshot (sn_session_id s) n mb (sn_items s ++ [item])) =
      Ok (mkProjection n (pj_targets (tr_projection t)) (pj_findings (tr_projection t)) (pj_empty_label (tr_projection t))).
Proof.
  unfold apply_action in Hok. apply res_bind_Ok in Hok as ([] & Hr & Hok).
  apply res_bind_Ok in Hok as (rev & Hrev & Hok). apply res_bind_Ok in Hrev as ([events exs] & Hu & Hrev).
  apply res_bind_Ok in Hok as ([e fs] & He & Hok). apply action_event_ok in He as (He & Hrv & Hseq).
  apply res_bind_Ok in Hok as (p & Hp & Hok). cbn [fst snd] in *.
  unfold imagine in Hp. rewrite (project_commit s events exs _ e (aa_executions a)) in Hp by (done || (cbn; lia)).
  exists events, exs. assert (t = mkTransition e (aa_executions a) fs p) as ->.
  { injection Hok as <-. f_equal. destruct (is_empty_synthesis e) eqn:Hes; [|done].
    injection Hp as <-. unfold with_empty_label, empty_label_of. cbn. rewrite existsb_app. cbn. rewrite Hes.
    by rewrite orb_true_r. }
  cbn [tr_event tr_executions tr_projection]. injection Hrev as <-. injection Hp as <-. cbn [pj_targets pj_as_of_sequence pj_findings pj_empty_label].
  split_and!; try done. intros item n mb Hc Hs Hn. by apply project_commit.
Qed.

(** ** Parity *)

Lemma strs_leb_total a b : strs_leb a b = true \/ strs_leb b a = true.
Proof.
  revert b. induction a as [|x a IH]; intros [|y b]; cbn; auto.
  rewrite (String.eqb_sym y x). destruct (String.eqb_spec x y) as [->|]; [apply IH|apply str_leb_total].
Qed.

Lemma strs_leb_trans a b c : strs_leb a b = true -> strs_leb b c = true -> strs_leb a c = true.
Proof.
  revert b c. induction a as [|x a IH]; intros [|y b] [|z c]; cbn; try done.
  destruct (String.eqb_spec x y) as [->|Hxy], (String.eqb_spec y z) as [->|Hyz]; try done.
  - apply IH.
  - by rewrite (proj2 (String.eqb_neq x z) Hxy).
  - intros H1 H2. destruct (String.eqb_spec x z) as [->|].
    + destruct Hxy. by apply str_leb_antisym.
    + by eapply str_leb_trans.
Qed.

(** Parity is canonical: a parity listing is a permutation of one record per
    event, per execution and per projected finding, sorted by its key; two accepted
    snapshots with the same events, executions and findings have the same listing,
    whatever their record ids, times and watermarks; and a snapshot holding an item
    above its watermark is refused by every operation. *)
Theorem parity_canonical (s s' : MemorySnapshot) :
  (forall rs, parity s = Ok rs -> exists events exs p, unpack s = Ok (events, exs) /\ project s = Ok p /\
     StronglySorted (fun r r' => parity_leb r r' = true) rs /\
     rs ≡ₚ map event_parity events ++ map execution_parity exs ++ map finding_parity (pj_findings p) /\
     length rs = length events + length exs + length (snapshot_findings s)) /\
  (reject_bad_snapshot s = Ok tt -> reject_bad_snapshot s' = Ok tt ->
     unpack s = unpack s' -> snapshot_findings s = snapshot_findings s' -> parity s = parity s') /\
  ((exists i, i ∈ sn_items s /\ (sn_as_of_sequence s < si_log_sequence i)%Z) ->
     exists msg, let e := Exn "SnapshotRejected" msg in
       project s = Raise e /\ parity s = Raise e /\
       (forall fid t d, is_grounded s fid t d = Raise e) /\ (forall action a, apply_action s action a = Raise e)).
Proof.
  split_and!.
  - intros rs (p & Hp & ([events exs] & Hu & [= <-])%res_bind_Ok)%res_bind_Ok.
    exists events, exs, p. split_and!; try done.
    + apply py_sort_sorted.
      * intros a b. apply strs_leb_total.
      * intros a b c. apply strs_leb_trans.
    + apply py_sort_perm.
    + rewrite length_py_sort, !length_app, !length_map. cbn [fst snd].
      unfold project in Hp. apply res_bind_Ok in Hp as (? & _ & Hp). rewrite Hu in Hp.
      cbn [mbind res_bind] in Hp. injection Hp as <-. cbn [pj_findings]. rewrite length_map. lia.
  - intros Hr Hr' Hu Hf. unfold parity, project. rewrite Hr, Hr'. cbn [mbind res_bind]. rewrite Hu, Hf.
    destruct (unpack s') as [[events exs]|]; reflexivity.
  - intros (i & Hi & Hlt). eexists. cbv zeta.
    assert (reject_bad_snapshot s = Raise (Exn "SnapshotRejected" ("snapshot names a future watermark: as_of_sequence="
      +:+ pretty (sn_as_of_sequence s) +:+ " but an item is above it"))) as Hr.
    { unfold reject_bad_snapshot. rewrite (proj2 (existsb_exists _ _)); [done|].
      exists i. split; [by apply list_elem_of_In|by apply Z.ltb_lt]. }
    unfold parity, is_grounded, apply_action, project. rewrite Hr. cbn [mbind res_bind]. done.
Qed.
End service.

(** ** A decoder that satisfies the laws, for concrete runs *)

Definition dec_opt (v : option pyval) : option string := match v with Some (PStr s) => Some s | _ => None end.
Definition dec_int (v : option pyval) : Z := match v with Some (PInt z) => z | _ => 0%Z end.
Definition dec_strs (v : option pyval) : list string :=
  match v with Some (PList l) => omap (fun x => match x with PStr s => Some s | _ => None end) l | _ => [] end.

Definition dec_transition (s : string) : TransitionType :=
  default gap (first (fun t => String.eqb (transition_str t) s) [discover; check; synthesize; skip; gap]).
Definition dec_outcome (s : string) : StageOutcome :=
  default ran (first (fun t => String.eqb (outcome_str t) s) [ran; did_not_run; timeout; skipped; empty]).
Definition dec_analyzer_outcome (s : string) : AnalyzerOutcome :=
  default a_ran (first (fun t => String.eqb (analyzer_outcome_str t) s) [a_ran; a_did_not_run; a_timeout]).

Definition decode_event (v : pyval) : res StageEvent :=
  required_fields (mkEvent (dec_transition (dget_str v "transition_type" "")) (dec_int (dget v "roadmap_revision"))
    (dec_opt (dget v "chunk_id")) (dec_opt (dget v "target")) (dec_outcome (dget_str v "outcome" ""))
    (dec_opt (dget v "reason")) (dec_int (dget v "as_of_sequence")) (dec_strs (dget v "targets"))
    (dec_strs (dget v "skipped_targets"))).

Definition decode_execution (v : pyval) : res AnalyzerExecution :=
  Ok (mkExecution (dget_str v "analyzer_id" "") (dget_str v "analyzer_version" "") (dget_str v "target" "")
    (dget_str v "target_digest" "") (dec_analyzer_outcome (dget_str v "analyzer_outcome" ""))
    (dget_str v "result_truncated" "") (dec_strs (dget v "finding_ids"))).

Lemma dec_dump_strs l : dec_strs (Some (dump_strs l)) = l.
Proof. cbn. induction l as [|x l IH]; cbn; [done|]. by rewrite IH. Qed.

Lemma decode_dump_event e : required_fields e = Ok e -> decode_event (dump_event e) = Ok e.
Proof.
  intros He. unfold decode_event. rewrite <- He. f_equal. destruct e as [t rv c tg o r w ts sk].
  f_equal; [by destruct t|by destruct c|by destruct tg|by destruct o|by destruct r|apply dec_dump_strs..].
Qed.

Lemma decode_dump_execution x : decode_execution (dump_execution x) = Ok x.
Proof.
  unfold decode_execution. destruct x as [i v tg d o r ids]. f_equal.
  f_equal; [by destruct o|apply dec_dump_strs].
Qed.

Definition decode_finding (v : pyval) : res Finding :=
  Ok (new_finding (dget_str v "finding_id" "") (dget_str v "location" "") (dget_str v "function_name" "") Severity.high).

Definition demo_execution : AnalyzerExecution := mkExecution "run_slither" "v" "a.sol" "d" a_ran "" ["SLITHER-001"].
Definition demo_snapshot : MemorySnapshot := mkSnapshot "s" 3 0
  [mkItem "r1" 1 "dispatch_commit" "tool_output" "t" None
     (PDict [("payloads", PList [dump_event (mkEvent discover 0 (Some "c") None ran None 0 ["a.sol:f"; "b.sol:g"] [])])]);
   mkItem "r2" 2 "finding" "tool_output" "t" None
     (PDict [("finding_id", PStr "SLITHER-001"); ("location", PStr "a.sol:7"); ("function_name", PStr "f")]);
   mkItem "r3" 3 "dispatch_commit" "tool_output" "t" None
     (PDict [("payloads", PList [dump_event (mkEvent check 1 None (Some "a.sol:f") ran None 1 [] []);
                                 dump_execution demo_execution])])].

Lemma grounding_agrees_witness :
  is_grounded decode_event decode_execution decode_finding demo_snapshot "SLITHER-001" None None = Ok true.
Proof.
  destruct (grounding_agrees decode_event decode_execution decode_finding demo_snapshot
    (match project decode_event decode_execution decode_finding demo_snapshot with Ok p => p | _ => mkProjection 0 [] [] None end)
    (new_finding "SLITHER-001" "a.sol:7" "f" Severity.high)) as (es & xs & pf & Hu & _ & _ & _ & Hg & Hiff).
  - vm_compute. repeat constructor. by intros ?%not_elem_of_nil.
  - vm_compute. reflexivity.
  - vm_compute. left.
  - etrans; [exact Hg|]. f_equal. apply Hiff. vm_compute in Hu. injection Hu as <- <-.
    exists demo_execution. split_and!; [left|done|left|done].
Defined.

Lemma apply_preview_faithful_witness :
  exists t, apply_action decode_event decode_execution decode_finding demo_snapshot
      (mkAction "skip_target" [("target", PStr "b.sol:g"); ("reason", PStr " out of scope ")]) no_args = Ok t /\
    map row_state (pj_targets (tr_projection t)) = [rs_analysed; rs_skipped] /\
    ev_roadmap_revision (tr_event t) = 2%Z.
Proof.
  eexists. split; [vm_compute; reflexivity|]. split; [vm_compute; reflexivity|].
  destruct (apply_preview_faithful decode_event decode_execution decode_finding decode_dump_event decode_dump_execution
    demo_snapshot (mkAction "skip_target" [("target", PStr "b.sol:g"); ("reason", PStr " out of scope ")]) no_args
    _ ltac:(vm_compute; reflexivity)) as (es & xs & Hu & Hrev & _).
  rewrite Hrev. vm_compute in Hu. injection Hu as <- <-. reflexivity.
Defined.

(** Slither numbers its findings afresh for every file, so two files both have a
    SLITHER-001.  Here the run on a.sol reported its finding and the run on b.sol timed
    out: the projection keeps the finding of b.sol for the id and calls both
    ungrounded, while [is_grounded] answers for the finding of a.sol. *)
Definition duplicate_snapshot : MemorySnapshot :=
  let finding id loc := mkItem id 2 "finding" "tool_output" "t" None
    (PDict [("finding_id", PStr "SLITHER-001"); ("location", PStr loc); ("function_name", PStr "f")]) in
  mkSnapshot "s" 3 0
  [finding "r1" "a.sol:7"; finding "r2" "b.sol:9";
   mkItem "r3" 3 "dispatch_commit" "tool_output" "t" None
     (PDict [("payloads", PList [dump_event (mkEvent check 0 None (Some "a.sol:f") ran None 0 [] []);
                                 dump_execution demo_execution])])].

Lemma duplicate_ids_disagree :
  (exists p, project decode_event decode_execution decode_finding duplicate_snapshot = Ok p /\
     map pf_grounded (pj_findings p) = [false; false]) /\
  is_grounded decode_event decode_execution decode_finding duplicate_snapshot "SLITHER-001" None None = Ok true.
Proof. split; [eexists; split; vm_compute; reflexivity|vm_compute; reflexivity]. Qed.
