(* ===== verification/Actions.v ===== *)
(** * Actions, the tool registry and the capability pack

    audit_agent/actions.py, audit_agent/tool_registry.py, audit_agent/pack.py.  The
    path-containment guard and the hash of a description are the kernel's. *)

From S2P Require Import Prelude PyStr PyPath PyVal Finding Methodology Onchain.

(** ** Domain action ids *)

Module AuditActionType.
Inductive audit_action_type :=
  | build_graph | run_slither | run_mythril | analyze_transactions | decompile_bytecode
  | run_discovery | run_check | run_synthesis | skip_target
  | write_poc | run_tests | deploy_test_contract.

Definition audit_action_value (t : audit_action_type) : string :=
  match t with
  | build_graph => "build_graph"
  | run_slither => "run_slither"
  | run_mythril => "run_mythril"
  | analyze_transactions => "analyze_transactions"
  | decompile_bytecode => "decompile_bytecode"
  | run_discovery => "run_discovery"
  | run_check => "run_check"
  | run_synthesis => "run_synthesis"
  | skip_target => "skip_target"
  | write_poc => "write_poc"
  | run_tests => "run_tests"
  | deploy_test_contract => "deploy_test_contract"
  end.
End AuditActionType.
Abbreviation audit_action_type := AuditActionType.audit_action_type.

#[export] Instance audit_action_type_eq_dec : EqDecision audit_action_type.
Proof. solve_decision. Defined.

#[export] Instance audit_action_enum : PyEnum audit_action_type := {
  enum_members := [AuditActionType.build_graph; AuditActionType.run_slither; AuditActionType.run_mythril;
    AuditActionType.analyze_transactions; AuditActionType.decompile_bytecode; AuditActionType.run_discovery;
    AuditActionType.run_check; AuditActionType.run_synthesis; AuditActionType.skip_target;
    AuditActionType.write_poc; AuditActionType.run_tests; AuditActionType.deploy_test_contract];
  enum_value := AuditActionType.audit_action_value;
  enum_name := "AuditActionType";
}.

#[export] Instance audit_action_enum_laws : PyEnumLaws audit_action_type.
Proof. split; [intros []; cbn; set_solver|by intros [] []]. Qed.

(** The two classes of the kernel the pack uses *)
Inductive ActionClass := read_only_class | write_execute_class.

#[export] Instance ActionClass_eq_dec : EqDecision ActionClass.
Proof. solve_decision. Defined.

Definition class_str (c : ActionClass) : string :=
  match c with read_only_class => "read_only" | write_execute_class => "write_execute" end.

Definition ACTION_CLASS_MAP (t : audit_action_type) : ActionClass :=
  match t with
  | AuditActionType.build_graph => read_only_class
  | AuditActionType.run_slither => read_only_class
  | AuditActionType.run_mythril => read_only_class
  | AuditActionType.analyze_transactions => read_only_class
  | AuditActionType.decompile_bytecode => read_only_class
  | AuditActionType.run_discovery => read_only_class
  | AuditActionType.run_check => read_only_class
  | AuditActionType.run_synthesis => read_only_class
  | AuditActionType.skip_target => read_only_class
  | AuditActionType.write_poc => write_execute_class
  | AuditActionType.run_tests => write_execute_class
  | AuditActionType.deploy_test_contract => write_execute_class
  end.

Definition REVERSIBLE (t : audit_action_type) : bool :=
  match t with
  | AuditActionType.build_graph => true
  | AuditActionType.run_slither => true
  | AuditActionType.run_mythril => true
  | AuditActionType.analyze_transactions => true
  | AuditActionType.decompile_bytecode => true
  | AuditActionType.run_discovery => true
  | AuditActionType.run_check => true
  | AuditActionType.run_synthesis => true
  | AuditActionType.skip_target => true
  | AuditActionType.write_poc => false
  | AuditActionType.run_tests => false
  | AuditActionType.deploy_test_contract => false
  end.

(** [action.action_type == AuditActionType.t] *)
Definition is_action (a : Action) (t : audit_action_type) : bool := String.eqb (action_type a) (enum_value t).

Definition nonempty_str (v : pyval) : option string :=
  match v with PStr s => if truthy s then Some s else None | _ => None end.

Section validate_params.
(** [_check_filepath(value, root, require_str=True)]: a rejection reason or None *)
Context (check_filepath : pyval -> option path -> option string).

Definition check_target_file (target : string) (scope_root : path) : option string :=
  let file_rel := before_char ":" target in
  let p := if is_absolute (to_path file_rel) then file_rel else path_str (path_join scope_root (to_path file_rel)) in
  check_filepath (PStr p) (Some scope_root).

Definition validate_params (action : Action) (scope_root : path) : res (option string) :=
  if is_action action AuditActionType.run_slither then
    Ok (check_filepath (param action "target") (Some scope_root))
  else if is_action action AuditActionType.run_mythril then
    Ok (check_filepath (param action "target") (Some scope_root))
  else if is_action action AuditActionType.analyze_transactions then
    if negb (truthy_val (param action "address")) then
      Ok (Some "analyze_transactions requires 'address' param")
    else
      let blocks := default (PInt 0) (assoc "max_blocks" (params action)) in
      n ← py_int blocks;
      if (10000 <? n)%Z then
        Ok (Some ("analyze_transactions max_blocks limit is 10000, got " +:+ py_str blocks))
      else Ok None
  else if is_action action AuditActionType.run_check then
    match nonempty_str (param action "target") with
    | None => Ok (Some "run_check requires 'target' param")
    | Some target => Ok (check_target_file target scope_root)
    end
  else if is_action action AuditActionType.skip_target then
    match nonempty_str (param action "target") with
    | None => Ok (Some "skip_target requires 'target' param")
    | Some target =>
        let reason := param action "reason" in
        if negb (truthy_val reason) || negb (truthy (strip (py_str reason))) then
          Ok (Some "skip_target requires non-empty 'reason' param")
        else Ok (check_target_file target scope_root)
    end
  else if is_action action AuditActionType.write_poc then
    Ok (check_filepath (param action "finding_id") None)
  else if is_action action AuditActionType.deploy_test_contract then
    let network := default (PStr "") (assoc "network" (params action)) in
    if bool_decide (network ∈ [PStr "anvil"; PStr "localhost"]) then Ok None
    else Ok (Some ("deploy_test_contract only allowed on anvil/localhost, got " +:+ py_repr network))
  else Ok None.

(** What an accepted action guarantees, per id: the analyzers got a path the
    kernel's guard accepts under the scope; transactions got an address and a block
    limit of at most 10000; a check or a skip got a non-empty target whose file,
    made absolute under the scope, passes the guard, and a skip a reason that is not
    blank; a deploy names a local network; nothing but a malformed max_blocks raises. *)
Theorem validate_params_guards (action : Action) (scope_root : path) :
  (validate_params action scope_root = Ok None ->
   (action_type action ∈ ["run_slither"; "run_mythril"] -> check_filepath (param action "target") (Some scope_root) = None) /\
   (action_type action = "analyze_transactions" ->
      truthy_val (param action "address") = true /\
      exists n, py_int (default (PInt 0) (assoc "max_blocks" (params action))) = Ok n /\ (n <= 10000)%Z) /\
   (action_type action ∈ ["run_check"; "skip_target"] ->
      exists target, param action "target" = PStr target /\ target <> "" /\ check_target_file target scope_root = None) /\
   (action_type action = "skip_target" -> strip (py_str (param action "reason")) <> "") /\
   (action_type action = "deploy_test_contract" ->
      param action "network" = PStr "anvil" \/ param action "network" = PStr "localhost")) /\
  (forall e, validate_params action scope_root = Raise e ->
     action_type action = "analyze_transactions" /\
     py_int (default (PInt 0) (assoc "max_blocks" (params action))) = Raise e).
Proof.
  unfold validate_params, is_action. cbn [enum_value audit_action_enum AuditActionType.audit_action_value].
  destruct (String.eqb_spec (action_type action) "run_slither") as [->|H1]; [split; [|done]; intros [= Hc]; split_and!; intros; try done; set_solver|].
  destruct (String.eqb_spec (action_type action) "run_mythril") as [->|H2]; [split; [|done]; intros [= Hc]; split_and!; intros; try done; set_solver|].
  destruct (String.eqb_spec (action_type action) "analyze_transactions") as [->|H3].
  { destruct (truthy_val (param action "address")); cbn [negb]; [|split; [done|done]].
    destruct (py_int _) as [n|e'] eqn:Hn; cbn [mbind res_bind]; [|split; [done|intros e [= <-]; done]].
    destruct (Z.ltb_spec 10000 n); [split; done|]. split; [|done]. intros _. split_and!; try done; try set_solver; eauto. }
  destruct (String.eqb_spec (action_type action) "run_check") as [->|H4].
  { unfold nonempty_str. destruct (param action "target") as [| | | |t| |]; try (split; [done|done]).
    destruct t as [|c t]; cbn [truthy]; [split; done|]. split; [|done]. intros [= Hc]. split_and!; try done; try set_solver; eauto. }
  destruct (String.eqb_spec (action_type action) "skip_target") as [->|H5].
  { unfold nonempty_str. destruct (param action "target") as [| | | |t| |]; try (split; [done|done]).
    destruct t as [|c t]; cbn [truthy]; [split; done|].
    destruct (negb (truthy_val (param action "reason"))); cbn [orb]; [split; done|].
    destruct (strip (py_str (param action "reason"))) eqn:Hs; cbn [truthy negb]; [split; done|].
    split; [|done]. intros [= Hc]. split_and!; try done; try set_solver; eauto. }
  assert (action_type action ∈ ["run_slither"; "run_mythril"] -> False) as N1 by (intros ?; set_solver).
  assert (action_type action ∈ ["run_check"; "skip_target"] -> False) as N2 by (intros ?; set_solver).
  destruct (String.eqb_spec (action_type action) "write_poc") as [Hw|H6].
  { split; [|done]. intros _. split_and!; intros; try done; exfalso; rewrite Hw in *; tauto || done. }
  destruct (String.eqb_spec (action_type action) "deploy_test_contract") as [->|H7].
  { unfold param. destruct (assoc "network" (params action)) as [v|]; cbn [default]; case_bool_decide as Hb; (split; [|done]); try done;
      intros _; split_and!; intros; try done; set_solver. }
  split; [|done]. intros _. split_and!; intros; try done; exfalso; tauto.
Qed.
End validate_params.

(** ** The tool registry *)

Record ToolDefinition := mkTool {
  tool_name : string;
  tool_description : string;
  tool_class : string;
  tool_hash : string;
}.

Definition D_BUILD_GRAPH : string :=
  "Build a call graph and data-flow graph for the audit scope. " +:+
  "Returns a structured JSON graph. Used by Stage 1 for SIG construction.".
Definition D_RUN_SLITHER : string :=
  "Run Slither static analyser on a target file or directory inside a sandboxed Docker container. " +:+
  "Detectors must be selected from the SlitherDetector enum — no arbitrary detector strings. " +:+
  "Returns structured JSON findings.".
Definition D_RUN_MYTHRIL : string :=
  "Run Mythril symbolic execution on a target contract inside a sandboxed Docker container. " +:+
  "Returns structured JSON findings. May take up to 5 minutes per contract.".
Definition D_ANALYZE_TRANSACTIONS : string :=
  "Fetch and analyse on-chain transactions for a contract address via Alchemy archive node. " +:+
  "Limit: 10000 blocks per call. Returns structured summary of suspicious patterns.".
Definition D_DECOMPILE_BYTECODE : string :=
  "Decompile EVM bytecode for a given contract address using a local decompiler. " +:+
  "Used when source code is unavailable. Returns decompiled pseudo-Solidity.".
Definition D_WRITE_POC : string :=
  "Write a Proof-of-Concept exploit test in Solidity to tests/poc/. " +:+
  "Requires prior human out-of-band confirmation. Deploys only to local Anvil.".
Definition D_RUN_TESTS : string :=
  "Run Foundry test suite (forge test) for a specific test file inside a sandboxed container. " +:+
  "Requires prior human out-of-band confirmation.".
Definition D_DEPLOY_TEST_CONTRACT : string :=
  "Deploy a contract to local Anvil testnet only. " +:+
  "Cannot deploy to mainnet or any live network. Requires human out-of-band confirmation.".

Section registry.
Context (hash : string -> string).

Definition tool (name d cls : string) : ToolDefinition := mkTool name d cls (hash d).

Definition TOOL_REGISTRY : list (string * ToolDefinition) :=
  map (fun t => (tool_name t, t))
   [tool "build_graph" D_BUILD_GRAPH "read_only";
    tool "run_slither" D_RUN_SLITHER "read_only";
    tool "run_mythril" D_RUN_MYTHRIL "read_only";
    tool "analyze_transactions" D_ANALYZE_TRANSACTIONS "read_only";
    tool "decompile_bytecode" D_DECOMPILE_BYTECODE "read_only";
    tool "write_poc" D_WRITE_POC "write_execute";
    tool "run_tests" D_RUN_TESTS "write_execute";
    tool "deploy_test_contract" D_DEPLOY_TEST_CONTRACT "write_execute"].
End registry.

(** ** The pack (pack.py) *)

Record ActionSpec := mkSpec {
  spec_class : ActionClass;
  spec_reversible : bool;
  spec_validate : Action -> path -> res (option string);
}.

Definition AUDIT_ACTIONS (check_filepath : pyval -> option path -> option string) : list (string * ActionSpec) :=
  map (fun t => (enum_value t, mkSpec (ACTION_CLASS_MAP t) (REVERSIBLE t) (validate_params check_filepath))) enum_members.

Definition AUDIT_PRIVILEGED_STATUSES : list string := ["verified_safe"; "skip_analysis"; "audit_complete"].

(** The pack is coherent: it declares each action id once, an action is
    reversible exactly when it is read-only, every registered tool is a declared
    action of the same class with the hash of its own description, and no finding
    status is a privileged one, so a finding can never carry a status whose change
    needs out-of-band confirmation. *)
Theorem pack_coherent check_filepath (hash : string -> string) :
  NoDup (map fst (AUDIT_ACTIONS check_filepath)) /\
  (forall t : audit_action_type, exists spec, assoc (enum_value t) (AUDIT_ACTIONS check_filepath) = Some spec /\
     spec_class spec = ACTION_CLASS_MAP t /\
     (spec_reversible spec = true <-> spec_class spec = read_only_class)) /\
  Forall (fun kt => exists spec, assoc kt.1 (AUDIT_ACTIONS check_filepath) = Some spec /\
     tool_name kt.2 = kt.1 /\ tool_class kt.2 = class_str (spec_class spec) /\
     tool_hash kt.2 = hash (tool_description kt.2)) (TOOL_REGISTRY hash) /\
  (forall s : finding_status, enum_value s ∉ AUDIT_PRIVILEGED_STATUSES).
Proof.
  split_and!.
  - cbn. repeat (apply NoDup_cons; split; [set_solver|]). apply NoDup_nil_2.
  - intros []; eexists; (split; [reflexivity|]); done.
  - repeat (constructor; [eexists; split; [reflexivity|]; done|]). constructor.
  - intros []; cbn; set_solver.
Qed.
