(* ===== verification/Adapters.v ===== *)
(** * The methodology adapters (audit_agent/methodology/adapters.py)

    The ports between the kernel's dispatch and the reducer: discovery over the
    included files, the check of a target by the analyzers or the relay, synthesis
    and skips.  Module-level state (snapshot factory, relay directory) is a record;
    the relay store is threaded. *)

From S2P Require Import Prelude PyStr PyPath PyVal PySha Finding Session Stage1 Relay Stage2.
From S2P Require Import StaticAnalysis Cursor Methodology.

(** ** The kernel's dispatch types *)

Inductive DispatchStatus := ds_ran | ds_pending | ds_error.

#[export] Instance DispatchStatus_eq_dec : EqDecision DispatchStatus.
Proof. solve_decision. Defined.

Record DispatchResult := mkDispatch {
  dr_status : DispatchStatus;
  dr_body : string;
  dr_payloads : list pyval;
  dr_pending : option string;     (* the correlation id of an external response *)
}.

Record ScopePolicy := mkPolicy { pol_include : list string; pol_files : list path }.

Record PackContext := mkCtx {
  scope_root : path;
  operation_id : option string;
  wrap_data : string -> string -> string -> string;   (* content, tool, path *)
  ctx_sandbox : option Sandbox;
  scope_policy : option ScopePolicy;
}.

(** methodology/include.py *)
Definition AUDIT_INCLUDE : list string :=
  ["contracts/**"; "src/**"; "lib/**"; "foundry.toml"; "remappings.txt"; "hardhat.config.js"; "hardhat.config.ts"].

Definition SLITHER_VERSION : string := "slither-sandbox".
Definition MYTHRL_VERSION : string := "mythril-sandbox".

Definition empty_snapshot : MemorySnapshot := mkSnapshot "" 0 0 [].

(** The module globals *)
Record AdapterState := mkAdapter {
  snapshot_factory : option MemorySnapshot;   (* what the factory returns, when set *)
  relay_dir_set : bool;
}.

Definition current_snapshot (g : AdapterState) : MemorySnapshot := default empty_snapshot (snapshot_factory g).

Definition error_result (body : string) : DispatchResult := mkDispatch ds_error body [] None.

(** [_render_body] *)
Definition render_row (r : RoadmapRow) : string :=
  "  " +:+ row_target r +:+ " [" +:+ state_str (row_state r) +:+ "]" +:+
  (if truthy_opt (row_reason r) then " (" +:+ default "" (row_reason r) +:+ ")" else "").

Definition opt_field (label : string) (o : option string) : list string :=
  if truthy_opt o then [label +:+ default "" o] else [].

Definition render_body (t : MethodologyTransition) : string :=
  let event := tr_event t in
  let proj := tr_projection t in
  unlines (
    ["stage=" +:+ transition_str (ev_transition_type event) +:+ " outcome=" +:+ outcome_str (ev_outcome event);
     "as_of_sequence=" +:+ pretty (pj_as_of_sequence proj)]
    ++ opt_field "chunk_id=" (ev_chunk_id event)
    ++ opt_field "target=" (ev_target event)
    ++ opt_field "reason=" (ev_reason event)
    ++ (match ev_targets event with [] => [] | ts => "priority_targets:" :: map (fun t => "  " +:+ t) ts end)
    ++ opt_field "" (pj_empty_label proj)
    ++ (match pj_targets proj with [] => [] | rows => "roadmap:" :: map render_row rows end)).

Definition result_from_transition (t : MethodologyTransition) (ctx : PackContext) (pending : option string) : DispatchResult :=
  let body := wrap_data ctx
    (match pending with Some _ => "awaiting external_response" | None => render_body t end)
    (transition_str (ev_transition_type (tr_event t))) "" in
  match pending with
  | Some p => mkDispatch ds_pending body [] (Some p)
  | None => mkDispatch ds_ran body (dump_event (tr_event t) :: map dump_execution (tr_executions t)) None
  end.

Definition file_of (target : string) : string := before_char ":" target.

(** [_committed_chunk_ids] *)
Definition discover_chunk (body : pyval) : option string :=
  match body with
  | PDict d =>
      if bool_decide (assoc "kind" d = Some (PStr "stage_event"))
         && bool_decide (assoc "transition_type" d = Some (PStr "discover"))
         && truthy_val (default PNone (assoc "chunk_id" d))
      then Some (py_str (default PNone (assoc "chunk_id" d))) else None
  | _ => None
  end.

Definition item_bodies (item : SnapshotItem) : list pyval :=
  let payloads := if String.eqb (si_kind item) "dispatch_commit"
                  then dget (por (si_body item) (PDict [])) "payloads" else None in
  match payloads with Some (PList l) => l | _ => [si_body item] end.

Definition committed_chunk_ids (s : MemorySnapshot) : list string :=
  List.concat (map (fun i => omap discover_chunk (item_bodies i)) (sn_items s)).

(** The repr of the analyzers' dataclasses *)
Definition repr_slither (f : SlitherFinding) : string :=
  "SlitherFinding(check=" +:+ py_repr (sl_check f) +:+ ", impact=" +:+ py_repr (sl_impact f) +:+
  ", confidence=" +:+ py_repr (sl_confidence f) +:+ ", description=" +:+ repr_str (sl_description f) +:+
  ", function=" +:+ py_repr (sl_function f) +:+ ", line=" +:+ py_repr (sl_line f) +:+ ")".
Definition repr_mythril (f : MythrilFinding) : string :=
  "MythrilFinding(title=" +:+ py_repr (my_title f) +:+ ", swc_id=" +:+ repr_str (my_swc_id f) +:+
  ", severity=" +:+ py_repr (my_severity f) +:+ ", function=" +:+ py_repr (my_function f) +:+
  ", description=" +:+ repr_str (my_description f) +:+ ")".

Section adapters.
Context (fs : FileSystem) (path_is_included : string -> list string -> bool)
        (canonical_bytes : pyval -> string) (json_error : string -> string).
Context (validate_event : pyval -> res StageEvent) (validate_execution : pyval -> res AnalyzerExecution)
        (validate_finding : pyval -> res Finding).
Context (extract_findings : string -> res (list payload)) (relay_adapter_error : exn -> bool)
        (make_finding : payload -> res Finding) (sanitize : string -> Sanitized).
(** Whether an exception is a sandbox's timeout, or any of its errors *)
Context (sandbox_timeout sandbox_error : exn -> bool).
(** The kernel's bounded file read *)
Context (read_file : path -> path -> res string).
(** Whether the tool surface holds an executor for an id *)
Context (has_executor : string -> bool) (chat_tool_timeout_s : string).
Context {W : Type} `{Transport W}.

Abbreviation apply_service := (apply_action validate_event validate_execution validate_finding).

Definition include_of (ctx : PackContext) : list string :=
  match scope_policy ctx with
  | Some pol => match pol_include pol with [] => AUDIT_INCLUDE | l => l end
  | None => AUDIT_INCLUDE
  end.

(** [p.relative_to(root).as_posix()] *)
Definition relative_posix (root p : path) : res string :=
  match strip_parts root p with
  | Some rel => Ok (path_str rel)
  | None => Raise (Exn "ValueError" (repr_str (path_str p) +:+ " is not in the subpath of " +:+ repr_str (path_str root)))
  end.

Definition included_relpaths (ctx : PackContext) : res (list string) :=
  let root := scope_root ctx in
  match scope_policy ctx with
  | Some pol => map_res (relative_posix root) (List.filter (fs_is_file fs) (pol_files pol))
  | None =>
      rels ← map_res (relative_posix root) (List.filter (fs_is_file fs) (py_sort path_leb (fs_rglob fs root)));
      Ok (List.filter (fun rel => path_is_included rel AUDIT_INCLUDE) rels)
  end.

Definition outside_include (ctx : PackContext) (rel : string) : bool := negb (path_is_included rel (include_of ctx)).

Definition gap_args (rel : string) : ApplyArgs :=
  mkArgs None [] [] None None (Some "path is outside the bound include set") (Some rel).

Definition gap_result (s : MemorySnapshot) (ctx : PackContext) (rel : string) : res DispatchResult :=
  t ← apply_service s (mkAction "gap" [("target", PStr rel)]) (gap_args rel);
  Ok (result_from_transition t ctx None).

(** The digest of no input, the chunk of an empty listing *)
Definition EMPTY_DIGEST : string := "e3b0c44298fc1c149afbf4c8996fb92427ae41e4649b934ca495991b7852b855".

Definition next_chunk (relpaths committed : list string) : string * list string :=
  match first_uncommitted_chunk canonical_bytes relpaths committed 0 with
  | Some c => c
  | None => default (EMPTY_DIGEST, []) (head (partition_chunks canonical_bytes relpaths 0 CHUNK_SIZE))
  end.

Definition discover_chunk_of (s : MemorySnapshot) (action : Action) (ctx : PackContext) (chunk : string * list string)
    : res DispatchResult :=
  let '(chunk_id, group) := chunk in
  let root := scope_root ctx in
  let focus := List.filter (fs_exists fs) (map (fun p => path_join root (to_path p)) group) in
  match first (outside_include ctx) group with
  | Some rel => gap_result s ctx rel
  | None =>
      let report := match focus with
                    | [] => mkReport [] [] "No files in chunk."
                    | _ => run_stage1 fs root [] focus
                    end in
      t ← apply_service s action (mkArgs (Some report) [] [] (Some chunk_id) None None None);
      Ok (result_from_transition t ctx None)
  end.

Definition run_discovery (g : AdapterState) (action : Action) (ctx : PackContext) : res DispatchResult :=
  let s := current_snapshot g in
  relpaths ← included_relpaths ctx;
  let requested := param action "chunk_id" in
  if truthy_val requested then
    match first (fun c => bool_decide (PStr c.1 = requested)) (partition_chunks canonical_bytes relpaths 0 CHUNK_SIZE) with
    | None => Ok (error_result (wrap_data ctx ("unknown chunk_id " +:+ py_str requested) "run_discovery" ""))
    | Some c => discover_chunk_of s action ctx c
    end
  else discover_chunk_of s action ctx (next_chunk relpaths (committed_chunk_ids s)).

(** [_target_digest] *)
Definition nul : string := String "000" "".
Definition target_digest (p : path) (rel : string) : res string :=
  let rel_posix := posix rel in
  if fs_is_file fs p then
    data ← fs_read fs p;
    Ok (sha256_hex (rel_posix +:+ nul +:+ pretty (String.length data) +:+ nul +:+ data))
  else Ok (sha256_hex (rel_posix +:+ nul +:+ "0" +:+ nul)).

(** One analyzer of [_run_analyzers]: its outcome, text, ids and findings; an
    exception of another class escapes. *)
Record AnalyzerRun := mkRun { ar_outcome : AnalyzerOutcome; ar_body : string; ar_ids : list string; ar_findings : list Finding }.

Definition no_findings (body : string) : string := if truthy body then body else "(no findings)".

Definition guard_analyzer (err : string) (m : res AnalyzerRun) : res AnalyzerRun :=
  match m with
  | Ok r => Ok r
  | Raise e =>
      if sandbox_timeout e then Ok (mkRun a_timeout (exn_msg e) [] [])
      else if bool_decide (exn_class e ∈ [err; "KeyError"]) || sandbox_error e then Ok (mkRun a_did_not_run (exn_msg e) [] [])
      else Raise e
  end.

Definition slither_run (sb : Sandbox) (target root : path) (file_rel : string) : res AnalyzerRun :=
  guard_analyzer "SlitherError"
    (raw ← run_slither json_error fs sb target root SLITHER_IMAGE None chat_tool_timeout_s;
     converted ← slither_to_findings raw file_rel "SLITHER";
     Ok (mkRun a_ran (no_findings (unlines (map repr_slither raw))) (map finding_id converted) converted)).

Definition mythril_run (sb : Sandbox) (target root : path) : res AnalyzerRun :=
  guard_analyzer "MythrilError"
    (raw ← run_mythril json_error fs sb target root MYTHRIL_IMAGE (Some "0.8.20") None chat_tool_timeout_s;
     Ok (mkRun a_ran (no_findings (unlines (map repr_mythril raw))) [] [])).

(** The common body of the loop: a missing executor or sandbox is an execution that
    did not run. *)
Definition analyzer_step (ctx : PackContext) (analyzer_id version file_rel digest : string)
    (run : Sandbox -> res AnalyzerRun) : res (AnalyzerExecution * list Finding) :=
  let execution (o : AnalyzerOutcome) (body : string) (ids : list string) :=
    mkExecution analyzer_id version file_rel digest o body ids in
  if negb (has_executor analyzer_id) then Ok (execution a_did_not_run "executor missing" [], [])
  else match ctx_sandbox ctx with
  | None => Ok (execution a_did_not_run "sandbox has no run()" [], [])
  | Some sb => r ← run sb; Ok (execution (ar_outcome r) (utake 512 (ar_body r)) (ar_ids r), ar_findings r)
  end.

(** [worst]: a missing executor or sandbox always lowers it, another failure only
    from "ran". *)
Definition worst_of (ctx : PackContext) (analyzer_id : string) (worst : AnalyzerOutcome) (e : AnalyzerExecution) : AnalyzerOutcome :=
  if negb (has_executor analyzer_id) || is_none (ctx_sandbox ctx) then a_did_not_run
  else if negb (bool_decide (ex_outcome e = a_ran)) && bool_decide (worst = a_ran) then ex_outcome e else worst.

Definition stage_outcome (o : AnalyzerOutcome) : StageOutcome :=
  match o with a_ran => ran | a_did_not_run => did_not_run | a_timeout => timeout end.

Definition run_analyzers (ctx : PackContext) (file_rel : string)
    : res (list AnalyzerExecution * list Finding * AnalyzerOutcome) :=
  let root := scope_root ctx in
  let p := path_join root (to_path file_rel) in
  let target := if fs_exists fs p then p else to_path file_rel in
  digest ← target_digest (if fs_exists fs p then p else root) file_rel;
  s ← analyzer_step ctx "run_slither" SLITHER_VERSION file_rel digest (fun sb => slither_run sb target root file_rel);
  let w1 := worst_of ctx "run_slither" a_ran s.1 in
  m ← analyzer_step ctx "run_mythril" MYTHRL_VERSION file_rel digest (fun sb => mythril_run sb target root);
  Ok ([s.1; m.1], s.2 ++ m.2, worst_of ctx "run_mythril" w1 m.1).

(** [_maybe_relay]: the correlation id to wait for, when the answer is not there *)
Definition maybe_relay (ctx : PackContext) (op target : string) : ST W (option string) := fun w =>
  let context := match read_file (path_join (scope_root ctx) (to_path (file_of target))) (scope_root ctx) with
                 | Ok c => c | Raise _ => target end in
  let w' := (tr_request target context (Some op) w).2 in
  (w', ingested ← ingest_response extract_findings relay_adapter_error make_finding sanitize (tr_response w') op None;
       Ok (if needs_resend ingested then Some op else None)).

Definition check_with_analyzers (s : MemorySnapshot) (action : Action) (ctx : PackContext) (file_rel : string)
    : res DispatchResult :=
  r ← run_analyzers ctx file_rel;
  let '(executions, findings, outcome) := r in
  t ← apply_service s action (mkArgs None executions findings None (Some (stage_outcome outcome)) None None);
  Ok (result_from_transition t ctx None).

Definition run_check (g : AdapterState) (action : Action) (ctx : PackContext) : ST W DispatchResult :=
  let s := current_snapshot g in
  let target := str_or_empty (param action "target") in
  let file_rel := file_of target in
  if outside_include ctx file_rel then st_lift (gap_result s ctx file_rel)
  else match (if relay_dir_set g then operation_id ctx else None) with
  | Some op =>
      if truthy op then
        pending ← maybe_relay ctx op target;
        match pending with
        | Some p =>
            st_lift (t ← apply_service s action (mkArgs None [] [] None (Some ran) None None);
                     Ok (result_from_transition t ctx (Some p)))
        | None => st_lift (check_with_analyzers s action ctx file_rel)
        end
      else st_lift (check_with_analyzers s action ctx file_rel)
  | None => st_lift (check_with_analyzers s action ctx file_rel)
  end.

Definition run_synthesis (g : AdapterState) (action : Action) (ctx : PackContext) : res DispatchResult :=
  t ← apply_service (current_snapshot g) action no_args;
  Ok (result_from_transition t ctx None).

Definition skip_target (g : AdapterState) (action : Action) (ctx : PackContext) : res DispatchResult :=
  let reason := strip (str_or_empty (param action "reason")) in
  let target := strip (str_or_empty (param action "target")) in
  if negb (truthy target) || negb (truthy reason) then
    Ok (error_result (wrap_data ctx "skip_target requires non-empty target and reason" "skip_target" ""))
  else
    t ← apply_service (current_snapshot g) action no_args;
    Ok (result_from_transition t ctx None).

(** [_outcome_from_body] and [_extract_json] *)
Definition outcome_from_body (body : string) : string :=
  if contains "status=timeout" body then "timeout"
  else if contains "status=did_not_run" body || contains "status=unavailable" body then "did_not_run"
  else if contains "status=error" body then "did_not_run"
  else "ran".

(** [s.rfind(c)] *)
Definition rfind_char (c : ascii) (s : string) : option nat :=
  (fun k => String.length s - 1 - k) <$> sfind (String c "") (srev s).

Definition extract_json (body : string) : option string :=
  match sfind "{" body, rfind_char "}" body with
  | Some a, Some b => if (b <=? a)%nat then None else Some (slice a (S b) body)
  | _, _ => None
  end.

(** ** Properties *)

Lemma analyzer_step_id ctx id version file digest run e fs' :
  analyzer_step ctx id version file digest run = Ok (e, fs') ->
  ex_analyzer_id e = id /\ ex_target e = file /\ ex_target_digest e = digest /\
  (ex_outcome e = a_ran -> has_executor id = true /\ exists sb r, ctx_sandbox ctx = Some sb /\ run sb = Ok r /\
     ar_outcome r = a_ran /\ ex_finding_ids e = ar_ids r /\ fs' = ar_findings r) /\
  ((exists sb r, has_executor id = true /\ ctx_sandbox ctx = Some sb /\ run sb = Ok r /\
      ex_finding_ids e = ar_ids r /\ fs' = ar_findings r /\ ex_outcome e = ar_outcome r) \/
   ((has_executor id = false \/ ctx_sandbox ctx = None) /\ ex_outcome e = a_did_not_run /\ ex_finding_ids e = [] /\ fs' = [])).
Proof.
  unfold analyzer_step. destruct (has_executor id); cbn [negb].
  - destruct (ctx_sandbox ctx) as [sb|].
    + intros (r & Hr & [= <- <-])%res_bind_Ok. cbn. split_and!; try done; [intros Ho; eauto 10|]. left. eauto 10.
    + intros [= <- <-]. cbn. split_and!; try done. right. auto.
  - intros [= <- <-]. cbn. split_and!; try done. right. auto.
Qed.

Lemma guard_ids err m r :
  guard_analyzer err m = Ok r -> (exists r0, m = Ok r0 /\ r = r0) \/ (ar_outcome r <> a_ran /\ ar_ids r = [] /\ ar_findings r = []).
Proof.
  unfold guard_analyzer. destruct m as [r0|e]; [intros [= ->]; eauto|]. repeat case_match; intros [= <-]; right; done.
Qed.

Lemma run_analyzers_spec ctx file_rel exs fnds worst :
  run_analyzers ctx file_rel = Ok (exs, fnds, worst) ->
  exists s m, exs = [s; m] /\
    ex_analyzer_id s = "run_slither" /\ ex_analyzer_id m = "run_mythril" /\
    ex_target s = file_rel /\ ex_target m = file_rel /\ ex_target_digest s = ex_target_digest m /\
    ex_finding_ids s = map finding_id fnds /\ ex_finding_ids m = [] /\
    (ex_outcome s <> a_ran -> fnds = []) /\
    (worst = a_ran <-> ex_outcome s = a_ran /\ ex_outcome m = a_ran).
Proof.
  unfold run_analyzers. intros (digest & _ & Hrun)%res_bind_Ok. apply res_bind_Ok in Hrun as ([s fs1] & Hs & Hrun).
  apply res_bind_Ok in Hrun as ([m fs2] & Hm & [= <- <- <-]). cbn [fst snd].
  apply analyzer_step_id in Hs as (Hs1 & Hs2 & Hs3 & _ & Hs5). apply analyzer_step_id in Hm as (Hm1 & Hm2 & Hm3 & _ & Hm5).
  assert (ex_finding_ids s = map finding_id fs1 /\ (ex_outcome s <> a_ran -> fs1 = [])) as [Hsi Hsf].
  { destruct Hs5 as [(sb & r & _ & _ & Hr & -> & -> & ->)|(_ & _ & -> & ->)]; [|done].
    unfold slither_run in Hr. apply guard_ids in Hr as [(r0 & Hr0 & ->)|(? & -> & ->)]; [|done].
    apply res_bind_Ok in Hr0 as (raw & _ & Hr0). apply res_bind_Ok in Hr0 as (cv & _ & [= <-]). cbn. done. }
  assert (ex_finding_ids m = [] /\ fs2 = []) as [Hmi ->].
  { destruct Hm5 as [(sb & r & _ & _ & Hr & -> & -> & _)|(_ & _ & -> & ->)]; [|done].
    unfold mythril_run in Hr. apply guard_ids in Hr as [(r0 & Hr0 & ->)|(? & -> & ->)]; [|done].
    apply res_bind_Ok in Hr0 as (raw & _ & [= <-]). done. }
  exists s, m. rewrite app_nil_r. split_and!; try done; [congruence|].
  unfold worst_of.
  assert (forall id e, ((exists (sb : Sandbox) (r : AnalyzerRun), has_executor id = true /\ ctx_sandbox ctx = Some sb) \/
     ((has_executor id = false \/ ctx_sandbox ctx = None) /\ ex_outcome e = a_did_not_run)) ->
     negb (has_executor id) || is_none (ctx_sandbox ctx) = true -> ex_outcome e = a_did_not_run) as Hun.
  { intros id e [(sb & r & -> & ->)|[_ ?]]; done. }
  assert (negb (has_executor "run_slither") || is_none (ctx_sandbox ctx) = true -> ex_outcome s = a_did_not_run) as Hus.
  { apply Hun. destruct Hs5 as [(sb & r & ? & ? & _)|(? & ? & _)]; eauto 6. }
  assert (negb (has_executor "run_mythril") || is_none (ctx_sandbox ctx) = true -> ex_outcome m = a_did_not_run) as Hum.
  { apply Hun. destruct Hm5 as [(sb & r & ? & ? & _)|(? & ? & _)]; eauto 6. }
  destruct (negb (has_executor "run_mythril") || is_none (ctx_sandbox ctx)); [rewrite Hum by done; by split; [|intros []]|].
  destruct (negb (has_executor "run_slither") || is_none (ctx_sandbox ctx)); [rewrite Hus by done|];
    destruct (ex_outcome s), (ex_outcome m); cbn; split; try done; by intros [? ?].
Qed.

Lemma gap_result_Ok s ctx rel r :
  gap_result s ctx rel = Ok r ->
  exists e, dr_status r = ds_ran /\ dr_payloads r = [dump_event e] /\
    ev_transition_type e = gap /\ ev_target e = Some rel /\ ev_reason e = Some "path is outside the bound include set".
Proof.
  unfold gap_result. intros (t & Ht & [= <-])%res_bind_Ok. unfold apply_action in Ht.
  apply res_bind_Ok in Ht as (_ & _ & Ht). apply res_bind_Ok in Ht as (rev & _ & Ht).
  apply res_bind_Ok in Ht as ([e fs'] & He & Ht). apply res_bind_Ok in Ht as (p & _ & [= <-]).
  unfold action_event in He. cbn in He. apply res_bind_Ok in He as (e' & Hreq & [= <- <-]).
  pose proof (required_fields_Ok _ _ Hreq) as ->. exists (mkEvent gap rev None (Some rel) did_not_run
    (Some "path is outside the bound include set") (sn_as_of_sequence s) [] []).
  destruct rel as [|c rel]; [done|]. split_and!; done.
Qed.

Lemma apply_check_event s action a t :
  action_type action = "run_check" -> apply_service s action a = Ok t ->
  ev_transition_type (tr_event t) = check /\ ev_target (tr_event t) = Some (str_or_empty (param action "target")) /\
  ev_outcome (tr_event t) = default ran (aa_outcome a) /\ tr_executions t = aa_executions a.
Proof.
  intros Hat Ht. unfold apply_action in Ht.
  apply res_bind_Ok in Ht as (_ & _ & Ht). apply res_bind_Ok in Ht as (rev & _ & Ht).
  apply res_bind_Ok in Ht as ([e fs'] & He & Ht). apply res_bind_Ok in Ht as (p & _ & [= <-]).
  unfold action_event in He. rewrite Hat in He. cbn in He. apply res_bind_Ok in He as (e' & Hreq & [= <- <-]).
  by pose proof (required_fields_Ok _ _ Hreq) as ->.
Qed.

(** C24. A check ends in one of three ways and records exactly what happened: a
    target outside the include set leaves the relay untouched and commits a single
    gap event for its file; a check that waits for an external answer commits
    nothing; otherwise one check event for the target is committed with exactly the
    two analyzer executions on its file, under one digest, whose summary outcome is
    "ran" only if both ran and whose finding ids are those of Slither's findings. *)
Theorem run_check_outcomes (g : AdapterState) action ctx w w' r
    (Hat : action_type action = "run_check") (Hrun : run_check g action ctx w = (w', Ok r)) :
  let target := str_or_empty (param action "target") in
  let file_rel := file_of target in
  (outside_include ctx file_rel = true ->
     w' = w /\ dr_status r = ds_ran /\ exists e, dr_payloads r = [dump_event e] /\
       ev_transition_type e = gap /\ ev_target e = Some file_rel) /\
  (outside_include ctx file_rel = false ->
     (dr_status r = ds_pending /\ dr_payloads r = [] /\ relay_dir_set g = true /\
        exists op, operation_id ctx = Some op /\ dr_pending r = Some op /\
          exists ingested, ingest_response extract_findings relay_adapter_error make_finding sanitize (tr_response w') op None = Ok ingested /\
            needs_resend ingested = true) \/
     (dr_status r = ds_ran /\ exists e s m, dr_payloads r = [dump_event e; dump_execution s; dump_execution m] /\
        ev_transition_type e = check /\ ev_target e = Some target /\
        ex_analyzer_id s = "run_slither" /\ ex_analyzer_id m = "run_mythril" /\
        ex_target s = file_rel /\ ex_target m = file_rel /\ ex_target_digest s = ex_target_digest m /\
        (ev_outcome e = ran <-> ex_outcome s = a_ran /\ ex_outcome m = a_ran))).
Proof.
  intros target file_rel. unfold run_check in Hrun. fold target in Hrun. fold file_rel in Hrun.
  assert (forall w1, st_lift (check_with_analyzers (current_snapshot g) action ctx file_rel) w1 = (w', Ok r) ->
    dr_status r = ds_ran /\ exists e s m, dr_payloads r = [dump_event e; dump_execution s; dump_execution m] /\
        ev_transition_type e = check /\ ev_target e = Some target /\
        ex_analyzer_id s = "run_slither" /\ ex_analyzer_id m = "run_mythril" /\
        ex_target s = file_rel /\ ex_target m = file_rel /\ ex_target_digest s = ex_target_digest m /\
        (ev_outcome e = ran <-> ex_outcome s = a_ran /\ ex_outcome m = a_ran)) as Han.
  { unfold st_lift. intros w1 [= _ Hc]. unfold check_with_analyzers in Hc.
    apply res_bind_Ok in Hc as ([[exs fnds] worst] & Hra & Hc). apply res_bind_Ok in Hc as (t & Ht & [= <-]).
    apply run_analyzers_spec in Hra as (s & m & -> & H1 & H2 & H3 & H4 & H5 & _ & _ & _ & H6).
    apply apply_check_event in Ht as (E1 & E2 & E3 & E4); [|done]. split; [done|].
    exists (tr_event t), s, m. cbn in *. rewrite E4, E3, <- H6. split_and!; try done. by destruct worst. }
  destruct (outside_include ctx file_rel) eqn:Hout; (split; [|]); try done; intros _.
  - unfold st_lift in Hrun. injection Hrun as <- Hg. apply gap_result_Ok in Hg as (e & ? & ? & ? & ? & _). eauto 8.
  - destruct (relay_dir_set g) eqn:Hrd; [|right; by eapply Han].
    destruct (operation_id ctx) as [op|] eqn:Hop; [|right; by eapply Han].
    destruct (truthy op); [|right; by eapply Han]. unfold mbind at 1, st_bind at 1, maybe_relay in Hrun.
    set (c := match read_file _ _ with Ok c => c | Raise _ => target end) in *.
    set (w1 := (tr_request target c (Some op) w).2) in *.
    destruct (ingest_response _ _ _ _ _ _ _) as [ingested|] eqn:Hi; [|done]. cbn [mbind res_bind] in Hrun.
    destruct (needs_resend ingested) eqn:Hr; [|right; by eapply Han].
    left. unfold st_lift in Hrun. injection Hrun as <- Ht. apply res_bind_Ok in Ht as (t & _ & [= <-]). cbn.
    split_and!; try done. exists op. split_and!; try done. by exists ingested.
Qed.

Lemma next_chunk_truthy relpaths committed : truthy (next_chunk relpaths committed).1 = true.
Proof.
  assert (forall c, c ∈ partition_chunks canonical_bytes relpaths 0 CHUNK_SIZE -> truthy c.1 = true) as Hall.
  { intros c (group & -> & _)%list_elem_of_fmap. apply sha256_hex_truthy. }
  unfold next_chunk. destruct (first_uncommitted_chunk _ _ _ _) as [c|] eqn:Hf.
  - unfold first_uncommitted_chunk in Hf. apply first_Some in Hf as [Hf _]. by apply Hall.
  - destruct (partition_chunks _ _ _ _) as [|c cs]; [done|]. apply Hall. left.
Qed.

(** Discovery commits the chunk it offers: without an explicit chunk the result
    either marks the first listed path that is outside the include set as a gap or
    carries one discovery event for the first uncommitted chunk of the listing, and
    once the kernel has committed that result the chunk counts as committed, so the
    next discovery moves on. *)
Theorem run_discovery_commits (g : AdapterState) action ctx relpaths r
    (Hat : action_type action = "run_discovery") (Hreq : truthy_val (param action "chunk_id") = false)
    (Hrel : included_relpaths ctx = Ok relpaths) (Hrun : run_discovery g action ctx = Ok r) :
  let s := current_snapshot g in
  let c := next_chunk relpaths (committed_chunk_ids s) in
  dr_status r = ds_ran /\ exists e, dr_payloads r = [dump_event e] /\
  match first (outside_include ctx) c.2 with
  | Some rel => ev_transition_type e = gap /\ ev_target e = Some rel
  | None => ev_transition_type e = discover /\ ev_chunk_id e = Some c.1 /\
      forall item n mb, commits item e [] ->
        committed_chunk_ids (mkSnapshot (sn_session_id s) n mb (sn_items s ++ [item])) = committed_chunk_ids s ++ [c.1]
  end.
Proof.
  intros s c. unfold run_discovery in Hrun. rewrite Hrel in Hrun. cbn [mbind res_bind] in Hrun. rewrite Hreq in Hrun.
  fold s in Hrun. fold c in Hrun. unfold discover_chunk_of in Hrun. destruct c as [cid group] eqn:Hc. cbn [fst snd].
  destruct (first (outside_include ctx) group) as [rel|].
  { apply gap_result_Ok in Hrun as (e & ? & ? & ? & ? & _). eauto 6. }
  apply res_bind_Ok in Hrun as (t & Ht & [= <-]). unfold apply_action in Ht.
  apply res_bind_Ok in Ht as (_ & _ & Ht). apply res_bind_Ok in Ht as (rev & _ & Ht).
  apply res_bind_Ok in Ht as ([e fs'] & He & Ht). apply res_bind_Ok in Ht as (p & _ & [= <-]).
  unfold action_event in He. rewrite Hat in He. cbv zeta in He.
  change (String.eqb "run_discovery" "run_discovery") with true in He. cbv iota in He.
  cbn [aa_chunk_id aa_report aa_extra_findings dump_opt] in He. apply res_bind_Ok in He as (e' & Hreq' & [= <- <-]).
  pose proof (required_fields_Ok _ _ Hreq') as ->. cbn [tr_event tr_executions aa_executions] in *.
  assert (truthy cid = true) as Hcid.
  { change cid with (cid, group).1. rewrite <- Hc. apply next_chunk_truthy. }
  split; [done|]. eexists. split; [reflexivity|]. cbn [ev_transition_type ev_chunk_id].
  assert (py_str (por (por (PStr cid) (param action "chunk_id")) (PStr ZEROS)) = cid) as ->.
  { unfold por. cbn [truthy_val]. rewrite Hcid. cbn [truthy_val]. by rewrite Hcid. }
  split; [done|]. split; [done|]. intros item n mb [Hk Hb]. unfold committed_chunk_ids. cbn [sn_items].
  rewrite map_app, concat_app. f_equal. cbn [map List.concat]. rewrite app_nil_r. unfold item_bodies. rewrite Hk, Hb.
  cbn. by destruct cid.
Qed.
End adapters.

Definition demo_ctx : PackContext := mkCtx ["/"; "audit"] (Some "OP-1") (fun c _ _ => c) None None.
Definition demo_globals : AdapterState := mkAdapter (Some demo_snapshot) true.
Definition demo_fs : FileSystem := {|
  fs_resolve p := p; fs_resolve_error _ := None; fs_exists _ := false; fs_is_file _ := true; fs_is_dir _ := false;
  fs_read p := Raise (Exn "FileNotFoundError" (path_str p));
  fs_rglob root := [root ++ ["src"; "A.sol"]; root ++ ["src"; "B.sol"]]; fs_rglob_sol _ := []; |}.

Lemma run_check_outcomes_witness :
  exists r e, run_check demo_fs (fun _ _ => false) (fun s => s) decode_event decode_execution decode_finding
      (fun _ => Ok []) (fun _ => true) (fun _ => Raise (Exn "" "")) (fun s => mkSanitized s []) (fun _ => false) (fun _ => true)
      (fun _ _ => Ok "") (fun _ => true) "30.0"
      demo_globals (mkAction "run_check" [("target", PStr "test/A.t.sol:f")]) demo_ctx (mkDemo [] []) = (mkDemo [] [], Ok r) /\
    dr_payloads r = [dump_event e] /\ ev_target e = Some "test/A.t.sol".
Proof.
  eexists. destruct (run_check_outcomes demo_fs (fun _ _ => false) (fun s => s) decode_event decode_execution decode_finding
      (fun _ => Ok []) (fun _ => true) (fun _ => Raise (Exn "" "")) (fun s => mkSanitized s []) (fun _ => false) (fun _ => true)
      (fun _ _ => Ok "") (fun _ => true) "30.0"
      demo_globals (mkAction "run_check" [("target", PStr "test/A.t.sol:f")]) demo_ctx (mkDemo [] []) (mkDemo [] [])
      _ eq_refl ltac:(vm_compute; reflexivity)) as [Hgap _].
  destruct (Hgap eq_refl) as (_ & _ & e & He & _ & Ht). exists e. split; [vm_compute; reflexivity|]. split; [exact He|exact Ht].
Defined.

Lemma run_discovery_commits_witness :
  exists r e, run_discovery demo_fs (fun _ _ => true) (fun v => py_str v) decode_event decode_execution decode_finding
      demo_globals (mkAction "run_discovery" []) demo_ctx = Ok r /\
    dr_payloads r = [dump_event e] /\
    ev_chunk_id e = Some (next_chunk (fun v => py_str v) ["src/A.sol"; "src/B.sol"] (committed_chunk_ids demo_snapshot)).1.
Proof.
  eexists. destruct (run_discovery_commits demo_fs (fun _ _ => true) (fun v => py_str v) decode_event decode_execution decode_finding
      demo_globals (mkAction "run_discovery" []) demo_ctx ["src/A.sol"; "src/B.sol"] _ eq_refl eq_refl
      ltac:(vm_compute; reflexivity) ltac:(vm_compute; reflexivity)) as (_ & e & He & Hm).
  match type of Hm with context [first ?p ?l] =>
    assert (first p l = None) as Hn by (vm_compute; reflexivity); rewrite Hn in Hm end.
  destruct Hm as (_ & Hc & _). exists e. split; [vm_compute; reflexivity|]. split; [exact He|exact Hc].
Defined.
