(* ===== verification/Pipeline.v ===== *)
(** * The batch audit driver (audit_agent/pipeline.py)

    Start and resume an audit through the kernel's executor: discovery, a check per
    pending target, a pause at the first target that waits for an answer, synthesis,
    and the report.  The kernel's memory, executor and chat sessions are parameters
    over a world [W]; progress events are left out. *)

From S2P Require Import Prelude PyStr PyPath PyVal PyJson Finding Stage1 Report WriteExecute Methodology Adapters.

Record PipelineResult := mkPipeline {
  pr_status : string;
  pr_session_id : string;
  pr_pending : nat;
  pr_report_path : option string;
  pr_findings_count : nat;
}.

Record ChatSession := mkChat { cs_session_id : string; cs_project_id : string }.

Definition pointer_path (session_id : string) (runs_dir : path) : path := path_join runs_dir [session_id +:+ ".json"].

Definition pointer_doc (session_id project_id : string) (audit_root : path) (output : string) : pyval :=
  PDict [("session_id", PStr session_id); ("project_id", PStr project_id);
         ("audit_root", PStr (path_str audit_root)); ("output", PStr output)].

Definition save_pointer (session_id project_id : string) (audit_root : path) (output : string) (runs_dir : path)
    (files : Files) : Files :=
  <[pointer_path session_id runs_dir := dumps_line (pointer_doc session_id project_id audit_root output)]> files.

Definition load_pointer (json_error : string -> string) (session_id : string) (runs_dir : path) (files : Files) : res pyval :=
  match files !! pointer_path session_id runs_dir with
  | None => Raise (Exn "FileNotFoundError" ("No audit run: " +:+ session_id))
  | Some text =>
      match loads text with
      | Some v => Ok v
      | None => Raise (Exn "JSONDecodeError" (json_error text))
      end
  end.

(** [_context_provider] over the kernel's bounded read *)
Definition context_provider (read_file : path -> path -> res string) (audit_root : path) (target : string) : res string :=
  read_file (path_join audit_root (to_path (before_char ":" target))) audit_root.

(** The dictionary's fifth entry, [grounded], is one the report never looks up. *)
Definition finding_dict (f : ProjectedFinding) : FindingPayload :=
  mkPayload (Some (pf_finding_id f)) (Some (pf_severity f)) (Some (pf_location f)) None None None None
    (Some (pf_notes f)) [] [] [].

Definition report_stage1 (p : RoadmapProjection) : Stage1Report :=
  mkReport (map row_target (pj_targets p))
    (map row_target (List.filter (fun r => bool_decide (row_state r = rs_skipped)) (pj_targets p)))
    (default "" (pj_empty_label p)).

Definition pending_targets (p : RoadmapProjection) : list string :=
  map row_target (List.filter (fun r => bool_decide (row_state r = rs_pending)) (pj_targets p)).

Section pipeline.
Context (validate_event : pyval -> res StageEvent) (validate_execution : pyval -> res AnalyzerExecution)
        (validate_finding : pyval -> res Finding) (json_error : string -> string).
Context {W : Type}.
Context (execute : ChatSession -> Action -> W -> W * res DispatchResult)
        (snapshot : W -> ChatSession -> MemorySnapshot)
        (save_session : ChatSession -> W -> W)
        (load_session : string -> string -> W -> option ChatSession)
        (set_relay_dir : bool -> W -> W).
Context (now : utc_time).

Record state := mkState { ps_world : W; ps_files : Files }.
Abbreviation M := (ST state).

Definition world_op (f : W -> W) : M unit := st_modify (fun s => mkState (f (ps_world s)) (ps_files s)).
Definition files_op (f : Files -> Files) : M unit := st_modify (fun s => mkState (ps_world s) (f (ps_files s))).

Definition exec (session : ChatSession) (a : Action) : M DispatchResult := fun s =>
  let '(w, r) := execute session a (ps_world s) in (mkState w (ps_files s), r).

Definition projection_now (session : ChatSession) : M RoadmapProjection := fun s =>
  (s, project validate_event validate_execution validate_finding (snapshot (ps_world s) session)).

(** The loop over the pending targets: the target it paused at, if any *)
Fixpoint check_targets (session : ChatSession) (targets : list string) : M (option string) :=
  match targets with
  | [] => mret None
  | target :: targets' =>
      result ← exec session (mkAction "run_check" [("target", PStr target)]);
      if bool_decide (dr_status result = ds_pending) then mret (Some target)
      else check_targets session targets'
  end.

Definition continue_audit (session : ChatSession) (output : string) : M PipelineResult :=
  projection ← projection_now session;
  paused ← check_targets session (pending_targets projection);
  match paused with
  | Some _ =>
      _ ← world_op (save_session session);
      mret (mkPipeline "paused" (cs_session_id session) 1 None 0)
  | None =>
      _ ← exec session (mkAction "run_synthesis" []);
      projection ← projection_now session;
      let finding_dicts := map finding_dict (pj_findings projection) in
      let report_md := generate_report now (cs_project_id session) finding_dicts
                         (Some (report_stage1 projection)) None None in
      _ ← files_op (fun files => <[to_path output := report_md]> files);
      _ ← world_op (save_session session);
      mret (mkPipeline "done" (cs_session_id session) 0 (Some output) (length finding_dicts))
  end.

Definition start_audit (fs : FileSystem) (session : ChatSession) (bind_scope : ChatSession -> path -> W -> W)
    (audit_root runs_dir : path) (output stage2_provider : string) : M PipelineResult :=
  let audit_root := fs_resolve fs audit_root in
  _ ← world_op (bind_scope session audit_root);
  _ ← world_op (save_session session);
  _ ← files_op (save_pointer (cs_session_id session) (cs_project_id session) audit_root output runs_dir);
  _ ← world_op (set_relay_dir (String.eqb stage2_provider "relay"));
  _ ← exec session (mkAction "run_discovery" []);
  continue_audit session output.

Definition resume_audit (session_id : string) (runs_dir : path) : M PipelineResult := fun s =>
  (pointer ← st_lift (load_pointer json_error session_id runs_dir (ps_files s));
   project_id ← st_lift (getitem pointer "project_id");
   project_id ← st_lift (as_str project_id);
   match load_session session_id project_id (ps_world s) with
   | None => st_lift (Raise (Exn "FileNotFoundError" ("No audit session: " +:+ session_id)))
   | Some session =>
       root ← st_lift (getitem pointer "audit_root");
       root ← st_lift (as_str root);
       _ ← world_op (set_relay_dir true);
       output ← st_lift (getitem pointer "output");
       output ← st_lift (as_str output);
       continue_audit session output
   end) s.

(** ** Properties *)

(** The world after checking the targets in order, none of which pauses *)
Inductive checked (session : ChatSession) : list string -> W -> W -> Prop :=
| checked_nil w : checked session [] w w
| checked_cons t ts w w1 w2 r :
    execute session (mkAction "run_check" [("target", PStr t)]) w = (w1, Ok r) ->
    dr_status r <> ds_pending -> checked session ts w1 w2 -> checked session (t :: ts) w w2.

Lemma check_targets_ok session ts s s' o :
  check_targets session ts s = (s', Ok o) ->
  ps_files s' = ps_files s /\
  match o with
  | None => checked session ts (ps_world s) (ps_world s')
  | Some t => exists pre post w1 r, ts = pre ++ t :: post /\ checked session pre (ps_world s) w1 /\
      execute session (mkAction "run_check" [("target", PStr t)]) w1 = (ps_world s', Ok r) /\ dr_status r = ds_pending
  end.
Proof.
  revert s. induction ts as [|t ts IH]; intros s; cbn [check_targets].
  { intros [= <- <-]. split; [done|constructor]. }
  unfold mbind, st_bind, exec. destruct (execute session _ (ps_world s)) as [w1 [r|e]] eqn:He; [|done].
  destruct (bool_decide_reflect (dr_status r = ds_pending)) as [Hp|Hp].
  - intros [= <- <-]. split; [done|]. exists [], ts, (ps_world s), r. cbn. split_and!; try done. constructor.
  - intros H%IH. cbn [ps_files ps_world] in H. destruct H as [-> Ho]. split; [done|]. destruct o as [t'|].
    + destruct Ho as (pre & post & w2 & r' & -> & Hc & Hx & Hr'). exists (t :: pre), post, w2, r'.
      split_and!; try done. by econstructor.
    + by econstructor.
Qed.

(** C26. One continuation of an audit checks the pending targets of the roadmap in
    order and either pauses at the first that waits for an answer, writing no
    report, or checks them all, synthesizes and writes exactly one file, the report
    of the final projection, in which every projected finding appears. *)
Theorem continue_audit_outcomes session output s s' r
    (Hrun : continue_audit session output s = (s', Ok r)) :
  exists p, project validate_event validate_execution validate_finding (snapshot (ps_world s) session) = Ok p /\
  ((pr_status r = "paused" /\ pr_pending r = 1 /\ pr_report_path r = None /\ ps_files s' = ps_files s /\
    exists pre t post w1 w2 d, pending_targets p = pre ++ t :: post /\ checked session pre (ps_world s) w1 /\
      execute session (mkAction "run_check" [("target", PStr t)]) w1 = (w2, Ok d) /\ dr_status d = ds_pending /\
      ps_world s' = save_session session w2) \/
   (pr_status r = "done" /\ pr_pending r = 0 /\ pr_report_path r = Some output /\
    exists w1 w2 d p', checked session (pending_targets p) (ps_world s) w1 /\
      execute session (mkAction "run_synthesis" []) w1 = (w2, Ok d) /\
      project validate_event validate_execution validate_finding (snapshot w2 session) = Ok p' /\
      ps_world s' = save_session session w2 /\
      ps_files s' = <[to_path output := generate_report now (cs_project_id session) (map finding_dict (pj_findings p'))
                        (Some (report_stage1 p')) None None]> (ps_files s) /\
      pr_findings_count r = length (pj_findings p') /\
      main_findings (map finding_dict (pj_findings p')) ≡ₚ map finding_dict (pj_findings p'))).
Proof.
  unfold continue_audit in Hrun. unfold mbind at 1, st_bind at 1, projection_now at 1 in Hrun.
  destruct (project _ _ _ (snapshot (ps_world s) session)) as [p|] eqn:Hp; [|done]. exists p. split; [done|].
  unfold mbind at 1, st_bind at 1 in Hrun.
  destruct (check_targets session (pending_targets p) s) as [s1 [o|]] eqn:Hc; [|done].
  apply check_targets_ok in Hc as [Hf Ho]. destruct o as [t|].
  - left. destruct Ho as (pre & post & w1 & d & Heq & Hck & Hx & Hd).
    unfold mbind, st_bind, world_op, st_modify in Hrun. injection Hrun as <- <-. do 3 (split; [reflexivity|]). split; [exact Hf|].
    by exists pre, t, post, w1, (ps_world s1), d.
  - right. unfold mbind, st_bind, exec, projection_now, files_op, world_op, st_modify in Hrun.
    destruct (execute session (mkAction "run_synthesis" []) (ps_world s1)) as [w2 [d|]] eqn:He; [|done].
    cbn [ps_world] in Hrun.
    destruct (project _ _ _ (snapshot w2 session)) as [p'|] eqn:Hp'; [|done].
    injection Hrun as <- <-. do 3 (split; [reflexivity|]).
    exists (ps_world s1), w2, d, p'. do 4 (split; [done|]).
    split; [cbn [ps_files]; by rewrite Hf|]. split; [apply length_map|].
    unfold main_findings. rewrite py_sort_perm. unfold visible.
    assert (forall l, List.filter (fun f => negb (is_unverified f)) (List.filter (fun f => negb (is_hidden f)) (map finding_dict l)) = map finding_dict l) as Hall.
    { intros l. induction l as [|f l IH]; [done|]. cbn [map List.filter].
      change (is_hidden (finding_dict f)) with false. cbn [negb List.filter].
      change (is_unverified (finding_dict f)) with false. cbn [negb]. by rewrite IH. }
    by rewrite Hall.
Qed.

End pipeline.

(** C40. A resumed audit finds what the start left: the pointer of an ASCII run is read
    back as written, whatever other files are there, and an unknown session is
    reported as such. *)
Theorem pointer_roundtrip (json_error : string -> string) sid pid root output runs_dir files
    (Hs : is_ascii sid) (Hp : is_ascii pid) (Hr : is_ascii (path_str root)) (Ho : is_ascii output) :
  load_pointer json_error sid runs_dir (save_pointer sid pid root output runs_dir files) =
    Ok (pointer_doc sid pid root output) /\
  (files !! pointer_path sid runs_dir = None ->
     load_pointer json_error sid runs_dir files = Raise (Exn "FileNotFoundError" ("No audit run: " +:+ sid))).
Proof.
  unfold load_pointer, save_pointer. rewrite lookup_insert_eq. split; [|by intros ->].
  rewrite loads_dumps_line; [done|]. constructor; [repeat constructor; done|]. cbn.
  repeat (apply NoDup_cons; split; [set_solver|]). apply NoDup_nil_2.
Qed.

(** The coverage section of the pipeline's report lists every row of the roadmap as
    analyzed, the skipped ones included. *)
Lemma skipped_reported_as_analyzed (p : RoadmapProjection) r :
  r ∈ pj_targets p -> row_state r = rs_skipped ->
  row_target r ∈ priority_targets (report_stage1 p) /\ row_target r ∈ skipped_targets (report_stage1 p).
Proof.
  intros Hr Hs. cbn. split; apply list_elem_of_fmap; exists r; (split; [done|]); [done|].
  apply list_elem_of_In, filter_In. split; [by apply list_elem_of_In|by rewrite bool_decide_true].
Qed.

Lemma pointer_roundtrip_witness :
  load_pointer (fun s => s) "s-1" ["runs"] (save_pointer "s-1" "proj" ["/"; "audit"] "report.md" ["runs"] ∅) =
  Ok (pointer_doc "s-1" "proj" ["/"; "audit"] "report.md").
Proof.
  apply (pointer_roundtrip (fun s => s) "s-1" "proj" ["/"; "audit"] "report.md" ["runs"] ∅);
    repeat (constructor; [done|]); constructor.
Defined.

Definition demo_chat : ChatSession := mkChat "s-1" "proj".

Lemma continue_audit_outcomes_witness :
  exists s' r, continue_audit decode_event decode_execution decode_finding (W := nat)
      (fun _ _ w => (S w, Ok (mkDispatch ds_ran "" [] None))) (fun _ _ => demo_snapshot) (fun _ w => w)
      (mkUtc 2026 1 1 0 0 0) demo_chat "report.md" (mkState 0 ∅) = (s', Ok r) /\
    pr_status r = "done" /\ pr_findings_count r = 1 /\ ps_world s' = 2.
Proof.
  assert (exists s' r, continue_audit decode_event decode_execution decode_finding (W := nat)
      (fun _ _ w => (S w, Ok (mkDispatch ds_ran "" [] None))) (fun _ _ => demo_snapshot) (fun _ w => w)
      (mkUtc 2026 1 1 0 0 0) demo_chat "report.md" (mkState 0 ∅) = (s', Ok r)) as (s' & r & Hrun).
  { vm_compute. do 2 eexists. reflexivity. }
  exists s', r. split; [exact Hrun|].
  destruct (continue_audit_outcomes _ _ _ _ _ _ _ _ _ _ _ _ Hrun) as (p & Hp & [(_ & _ & _ & _ & Hx)|(Hs & _ & _ & w1 & w2 & d & p' & _)]).
  - destruct Hx as (pre & t & post & w1 & w2 & d & _ & _ & He & Hd & _). injection He as <- <-. discriminate Hd.
  - split; [exact Hs|]. vm_compute in Hrun. injection Hrun as <- <-. split; reflexivity.
Defined.
