(* ===== verification/Patch.v ===== *)
(** * Reconstructing an applyable patch (audit_agent/proof/patch_reconstruct.py)

    An illustrative diff (hunks anchored by a line of prose, without numbers) is
    turned into a unified diff against the real source, or refused.  The semantics of
    the result is a strict reading of the unified format, [apply_hunks]: it is what
    the emitted patch means, and it is not part of the code. *)

From S2P Require Import Prelude PyStr PyRe PyVal.

(** [^@@\s?(.*?)\s*@?@?\s*$] *)
Definition HUNK_MARKER : re :=
  RAll [RBol false; RStr "@@"; ROpt RSpace; RGroup 1 (RManyLazy RDot); RMany RSpace;
        ROpt (RChr "@"); ROpt (RChr "@"); RMany RSpace; REol false].

(** [^@@ -\d+(?:,\d+)? \+\d+(?:,\d+)? @@], multiline *)
Definition REAL_HUNK : re :=
  RAll [RBol true; RStr "@@ -"; RSome RDigit; ROpt (RSeq (RChr ",") (RSome RDigit)); RStr " +"; RSome RDigit;
        ROpt (RSeq (RChr ",") (RSome RDigit)); RStr " @@"].

(** [ReconstructionRefused(reason, detail)] *)
Definition refused (reason detail : string) : exn :=
  Exn "ReconstructionRefused" (if truthy detail then reason +:+ ": " +:+ detail else reason).

Inductive line_kind := context | removal | addition.

#[export] Instance line_kind_eq_dec : EqDecision line_kind.
Proof. solve_decision. Defined.

Record Hunk := mkHunk { anchor : string; body : list (line_kind * string) }.
Record FilePatch := mkFilePatch { fp_path : string; hunks : list Hunk }.

(** Drop a leading [a/] or [b/] from a diff header path *)
Definition strip_ab (path : string) : string :=
  if bool_decide (stake 2 path ∈ ["a/"; "b/"]) then sdrop 2 path else path.

(** [l[-1]] updated in place *)
Definition alter_last {A} (f : A -> A) (l : list A) : list A :=
  match last l with Some x => take (length l - 1) l ++ [f x] | None => [] end.

Definition add_hunk (h : Hunk) (fp : FilePatch) : FilePatch := mkFilePatch (fp_path fp) (hunks fp ++ [h]).
Definition add_line (k : line_kind * string) (h : Hunk) : Hunk := mkHunk (anchor h) (body h ++ [k]).
Definition add_line_to (k : line_kind * string) (fp : FilePatch) : FilePatch :=
  mkFilePatch (fp_path fp) (alter_last (add_line k) (hunks fp)).

(** The files parsed so far, the last one being [cur], and whether a hunk of it is
    open: [hunk] is then its last one. *)
Record pstate := mkP { p_files : list FilePatch; p_open : bool }.

(** A line inside an open hunk *)
Definition hunk_line (raw : string) : line_kind * string :=
  if starts_with "+" raw then (addition, sdrop 1 raw)
  else if starts_with "-" raw then (removal, sdrop 1 raw)
  else (context, if starts_with " " raw then sdrop 1 raw else raw).

Definition parse_line (st : pstate) (raw : string) : res pstate :=
  if starts_with "--- " raw then Ok st
  else if starts_with "+++ " raw then
    Ok (mkP (p_files st ++ [mkFilePatch (strip_ab (strip (sdrop 4 raw))) []]) false)
  else match re_match HUNK_MARKER raw, starts_with "@@" raw with
       | Some m, true =>
           match p_files st with
           | [] => Raise (refused "malformed" "hunk before any file header")
           | _ => Ok (mkP (alter_last (add_hunk (mkHunk (group_or_empty 1 raw m) [])) (p_files st)) true)
           end
       | _, _ =>
           if negb (p_open st) then Ok st
           else Ok (mkP (alter_last (add_line_to (hunk_line raw)) (p_files st)) true)
       end.

Fixpoint parse_lines (st : pstate) (lines : list string) : res pstate :=
  match lines with
  | [] => Ok st
  | raw :: lines' => st ← parse_line st raw; parse_lines st lines'
  end.

Definition parse_illustrative (block : string) : res (list FilePatch) :=
  st ← parse_lines (mkP [] false) (splitlines block);
  if existsb (fun f => match hunks f with [] => false | _ => true end) (p_files st) then Ok (p_files st)
  else Raise (refused "malformed" "no file section or no hunk found").

(** The indices of the lines equal to the anchor once both are stripped *)
Definition anchor_hits (source_lines : list string) (a : string) : list nat :=
  (List.filter (fun p : nat * string => String.eqb (strip p.2) (strip a)) (imap pair source_lines)).*1.

Definition locate_anchor (source_lines : list string) (a : string) : res nat :=
  match anchor_hits source_lines a with
  | [] => Raise (refused "anchor_not_found" a)
  | [i] => Ok i
  | hits => Raise (refused "anchor_ambiguous" (a +:+ " (" +:+ pretty (length hits) +:+ " matches)"))
  end.

Definition TRAILING_CONTEXT : nat := 3.

(** [out], [old_count], [new_count], [si] *)
Record rstate := mkR { r_out : list (line_kind * string); r_old : nat; r_new : nat; r_si : nat }.

Definition render_line (l : line_kind * string) : string :=
  match l.1 with context => " " | removal => "-" | addition => "+" end +:+ l.2.

Fixpoint body_loop (source_lines : list string) (b : list (line_kind * string)) (st : rstate) : res rstate :=
  match b with
  | [] => Ok st
  | (addition, text) :: b' =>
      body_loop source_lines b' (mkR (r_out st ++ [(addition, text)]) (r_old st) (S (r_new st)) (r_si st))
  | (kind, text) :: b' =>
      let line := source_lines !! r_si st in
      if bool_decide (line = Some text) then
        body_loop source_lines b'
          (mkR (r_out st ++ [(kind, text)]) (S (r_old st))
               (match kind with context => S (r_new st) | _ => r_new st end) (S (r_si st)))
      else Raise (refused "context_mismatch"
             ("expected " +:+ repr_str text +:+ " at source line " +:+ pretty (S (r_si st)) +:+ ", found "
              +:+ repr_str (default "<EOF>" line)))
  end.

Definition ends_in_change (b : list (line_kind * string)) : bool :=
  match last b with Some (k, _) => bool_decide (k <> context) | None => false end.

(** The context lines appended after a hunk that ends at a change *)
Definition trailing (source_lines : list string) (b : list (line_kind * string)) (si : nat) : list string :=
  if ends_in_change b then
    let limit := if bool_decide (last source_lines = Some "") then length source_lines - 1 else length source_lines in
    take (Nat.min (si + TRAILING_CONTEXT) limit - si) (drop si source_lines)
  else [].

Definition hunk_header (old_start old_count new_start new_count : Z) : string :=
  "@@ -" +:+ pretty old_start +:+ "," +:+ pretty old_count +:+ " +" +:+ pretty new_start +:+ "," +:+ pretty new_count +:+ " @@".

Definition reconstruct_hunk (source_lines : list string) (hunk : Hunk) (delta : Z) : res (string * Z) :=
  i ← locate_anchor source_lines (anchor hunk);
  st ← body_loop source_lines (body hunk) (mkR [(context, nth i source_lines "")] 1 1 (i + 1));
  let extra := trailing source_lines (body hunk) (r_si st) in
  let out := r_out st ++ map (pair context) extra in
  let old_count := (Z.of_nat (r_old st + length extra)) in
  let new_count := (Z.of_nat (r_new st + length extra)) in
  let old_start := (Z.of_nat i + 1)%Z in
  Ok (unlines (hunk_header old_start old_count (old_start + delta) new_count :: map render_line out), (new_count - old_count)%Z).

Fixpoint reconstruct_hunks (source_lines : list string) (hs : list Hunk) (delta : Z) : res (list string) :=
  match hs with
  | [] => Ok []
  | hunk :: hs' =>
      td ← reconstruct_hunk source_lines hunk delta;
      rest ← reconstruct_hunks source_lines hs' (delta + td.2)%Z;
      Ok (td.1 :: rest)
  end.

Fixpoint reconstruct_files (read_source : string -> option string) (files : list FilePatch) : res (list string) :=
  match files with
  | [] => Ok []
  | fp :: files' =>
      match read_source (fp_path fp) with
      | None => Raise (refused "file_not_found" (fp_path fp))
      | Some src =>
          hs ← reconstruct_hunks (split_char nl src) (hunks fp) 0;
          rest ← reconstruct_files read_source files';
          Ok ((("--- a/" +:+ fp_path fp) :: ("+++ b/" +:+ fp_path fp) :: hs) ++ rest)
      end
  end.

Definition reconstruct (block : string) (read_source : string -> option string) : res string :=
  if re_test REAL_HUNK block then Ok (if ends_with nls block then block else block +:+ nls)
  else
    files ← parse_illustrative block;
    parts ← reconstruct_files read_source files;
    Ok (unlines parts +:+ nls).

Definition marker_anchor (raw : string) : option string := group_or_empty 1 raw <$> re_match HUNK_MARKER raw.
Example marker_open : marker_anchor "@@ struct T {" = Some "struct T {".
Proof. vm_compute. reflexivity. Qed.
Example marker_closed : marker_anchor "@@ function f(uint a) external {  @@ " = Some "function f(uint a) external {".
Proof. vm_compute. reflexivity. Qed.
Example marker_empty : marker_anchor "@@@@" = Some "".
Proof. vm_compute. reflexivity. Qed.
Example real_hunk_found : re_test REAL_HUNK (unlines ["--- a/x"; "@@ -1,3 +1 @@"]) = true.
Proof. vm_compute. reflexivity. Qed.
Example real_hunk_prose : re_test REAL_HUNK (unlines ["--- a/x"; "@@ struct T {"]) = false.
Proof. vm_compute. reflexivity. Qed.

(** ** What a unified diff means *)

Definition old_side (b : list (line_kind * string)) : list string :=
  (List.filter (fun l => bool_decide (l.1 <> addition)) b).*2.
Definition new_side (b : list (line_kind * string)) : list string :=
  (List.filter (fun l => bool_decide (l.1 <> removal)) b).*2.

(** A numbered hunk and its text *)
Record RealHunk := mkReal { old_start : nat; new_start : Z; rh_lines : list (line_kind * string) }.

Definition render (h : RealHunk) : string :=
  unlines (hunk_header (Z.of_nat (old_start h)) (Z.of_nat (length (old_side (rh_lines h))))
             (new_start h) (Z.of_nat (length (new_side (rh_lines h)))) :: map render_line (rh_lines h)).

(** Strict application: the hunks ascend without overlap, each old side is the source
    verbatim at the line the hunk names, and each new start is the old one shifted by
    the net growth of the hunks before.  [pos] lines of the source are consumed. *)
Fixpoint apply_hunks (pos : nat) (delta : Z) (src : list string) (hs : list RealHunk) : option (list string) :=
  match hs with
  | [] => Some (drop pos src)
  | h :: hs' =>
      let old := old_side (rh_lines h) in
      let new := new_side (rh_lines h) in
      let i := old_start h - 1 in
      if bool_decide (pos <= i /\ (new_start h = Z.of_nat (old_start h) + delta)%Z /\ take (length old) (drop i src) = old)
      then rest ← apply_hunks (i + length old) (delta + Z.of_nat (length new) - Z.of_nat (length old)) src hs';
           Some (take (i - pos) (drop pos src) ++ new ++ rest)
      else None
  end.

(** ** What the illustrative hunks ask for *)

(** Each hunk replaces the lines after its anchor line [i] *)
Fixpoint intended (src : list string) (pos : nat) (l : list (nat * Hunk)) : list string :=
  match l with
  | [] => drop pos src
  | (i, h) :: l' =>
      take (i + 1 - pos) (drop pos src) ++ new_side (body h)
      ++ intended src (i + 1 + length (old_side (body h))) l'
  end.

Definition hunk_trailing (src : list string) (i : nat) (h : Hunk) : list string :=
  trailing src (body h) (i + 1 + length (old_side (body h))).

Definition real_of (src : list string) (delta : Z) (i : nat) (h : Hunk) : RealHunk :=
  mkReal (i + 1) (Z.of_nat (i + 1) + delta)
    ((context, nth i src "") :: body h ++ map (pair context) (hunk_trailing src i h)).

Definition growth (h : Hunk) : Z := Z.of_nat (length (new_side (body h))) - Z.of_nat (length (old_side (body h))).

Fixpoint reals (src : list string) (delta : Z) (l : list (nat * Hunk)) : list RealHunk :=
  match l with
  | [] => []
  | (i, h) :: l' => real_of src delta i h :: reals src (delta + growth h) l'
  end.

(** The hunks, with the context they will carry, ascend without overlap *)
Fixpoint ascending (src : list string) (pos : nat) (l : list (nat * Hunk)) : Prop :=
  match l with
  | [] => True
  | (i, h) :: l' =>
      pos <= i /\ ascending src (i + 1 + length (old_side (body h)) + length (hunk_trailing src i h)) l'
  end.

(** The hunk sits at line [i]: the only one its anchor names, followed by exactly the
    lines it keeps or removes *)
Definition sits (src : list string) (h : Hunk) (i : nat) : Prop :=
  (forall j, (exists ln, src !! j = Some ln /\ strip ln = strip (anchor h)) <-> j = i) /\
  old_side (body h) `prefix_of` drop (i + 1) src.

(** ** Lemmas *)

Lemma body_loop_Ok src b st st' :
  body_loop src b st = Ok st' <->
  old_side b `prefix_of` drop (r_si st) src /\
  st' = mkR (r_out st ++ b) (r_old st + length (old_side b)) (r_new st + length (new_side b)) (r_si st + length (old_side b)).
Proof.
  revert st. induction b as [|[k t] b IH]; intros st; cbn [body_loop].
  { cbn. rewrite app_nil_r, !Nat.add_0_r. split; [intros [= <-]; split; [apply prefix_nil|by destruct st]|].
    intros [_ ->]. by destruct st. }
  destruct k; [| |rewrite IH; change (old_side ((addition, t) :: b)) with (old_side b);
    change (new_side ((addition, t) :: b)) with (t :: new_side b); cbn [r_si r_out r_old r_new length];
    by rewrite <- app_assoc, (Nat.add_succ_r (r_new st))].
  all: destruct (bool_decide_reflect (src !! r_si st = Some t)) as [Hl|Hl]; cbv zeta.
  2, 4: split; [done|intros [[r Hr] _]; destruct Hl; change (old_side (_ :: b)) with (t :: old_side b) in Hr];
    by rewrite <- (Nat.add_0_r (r_si st)), <- lookup_drop, Hr.
  all: rewrite IH; change (old_side (_ :: b)) with (t :: old_side b); rewrite (drop_S src t (r_si st)) by done;
    cbn [r_si r_out r_old r_new length]; rewrite <- app_assoc, !Nat.add_succ_r.
  1: change (new_side (_ :: b)) with (t :: new_side b); cbn [length]; rewrite ?Nat.add_succ_r.
  2: change (new_side ((removal, t) :: b)) with (new_side b).
  all: split; [intros [? ->]; split; [by apply prefix_cons|done]|intros [?%prefix_cons_inv_2 ->]; split; [done|reflexivity]].
Qed.

Lemma anchor_hits_spec src a i :
  i ∈ anchor_hits src a <-> exists ln, src !! i = Some ln /\ strip ln = strip a.
Proof.
  unfold anchor_hits. rewrite list_elem_of_fmap. split.
  - intros ([j ln] & -> & Hin). apply list_elem_of_In, filter_In in Hin as [Hin Heq]. cbn in *.
    apply list_elem_of_In, elem_of_lookup_imap in Hin as (j' & ln' & [= -> ->] & Hl).
    exists ln'. split; [done|]. by apply String.eqb_eq.
  - intros (ln & Hl & Heq). exists (i, ln). split; [done|]. apply list_elem_of_In, filter_In. split.
    + apply list_elem_of_In, elem_of_lookup_imap. by exists i, ln.
    + by apply String.eqb_eq.
Qed.

Lemma NoDup_filter_fst {A B} (p : A * B -> bool) l : NoDup l.*1 -> NoDup (List.filter p l).*1.
Proof.
  induction l as [|[a b] l IH]; [done|]. intros [Hn Hnd]%NoDup_cons. cbn. case_match; [|by apply IH].
  apply NoDup_cons. split; [|by apply IH]. intros ([a' b'] & Heq & Hin)%list_elem_of_fmap. destruct Hn.
  cbn in Heq. apply list_elem_of_fmap. exists (a', b'). split; [exact Heq|].
  apply list_elem_of_In in Hin. apply filter_In in Hin as [Hin _]. by apply list_elem_of_In.
Qed.

Lemma anchor_hits_NoDup src a : NoDup (anchor_hits src a).
Proof.
  apply NoDup_filter_fst. assert ((imap pair src).*1 = seq 0 (length src)) as ->; [|apply NoDup_seq].
  rewrite fmap_imap. rewrite <- (list_fmap_id (seq 0 (length src))), <- imap_seq_0. by apply imap_ext.
Qed.

Lemma locate_anchor_Ok src a i : locate_anchor src a = Ok i <-> anchor_hits src a = [i].
Proof. unfold locate_anchor. destruct (anchor_hits src a) as [|j [|k l]]; split; by intros [=]; subst. Qed.

Lemma anchor_hits_unique src a i :
  anchor_hits src a = [i] <-> (forall j, (exists ln, src !! j = Some ln /\ strip ln = strip a) <-> j = i).
Proof.
  split.
  - intros Hh j. rewrite <- anchor_hits_spec, Hh. apply list_elem_of_singleton.
  - intros Hu. apply Permutation_singleton_r, NoDup_Permutation; [apply anchor_hits_NoDup|apply NoDup_singleton|].
    intros j. rewrite anchor_hits_spec, Hu. by rewrite list_elem_of_singleton.
Qed.

Lemma refused_class r d : exn_class (refused r d) = "ReconstructionRefused".
Proof. done. Qed.

Lemma old_side_app b b' : old_side (b ++ b') = old_side b ++ old_side b'.
Proof. unfold old_side. by rewrite List.filter_app, fmap_app. Qed.
Lemma new_side_app b b' : new_side (b ++ b') = new_side b ++ new_side b'.
Proof. unfold new_side. by rewrite List.filter_app, fmap_app. Qed.
Lemma sides_context l : old_side (map (pair context) l) = l /\ new_side (map (pair context) l) = l.
Proof.
  induction l as [|x l [IHo IHn]]; [done|].
  split; [change (x :: old_side (map (pair context) l) = x :: l)|change (x :: new_side (map (pair context) l) = x :: l)];
    by f_equal.
Qed.

Lemma old_side_real src delta i h :
  old_side (rh_lines (real_of src delta i h)) = nth i src "" :: old_side (body h) ++ hunk_trailing src i h.
Proof.
  cbn [real_of rh_lines]. change ((?x :: ?l)) with ([x] ++ l) at 1. rewrite !old_side_app.
  by rewrite (proj1 (sides_context _)).
Qed.
Lemma new_side_real src delta i h :
  new_side (rh_lines (real_of src delta i h)) = nth i src "" :: new_side (body h) ++ hunk_trailing src i h.
Proof.
  cbn [real_of rh_lines]. change ((?x :: ?l)) with ([x] ++ l) at 1. rewrite !new_side_app.
  by rewrite (proj2 (sides_context _)).
Qed.

Lemma reconstruct_hunk_Ok src h delta t d :
  reconstruct_hunk src h delta = Ok (t, d) <->
  exists i, sits src h i /\ t = render (real_of src delta i h) /\ d = growth h.
Proof.
  unfold reconstruct_hunk, sits. split.
  - intros (i & Hi & (st & Hst & Heq)%res_bind_Ok)%res_bind_Ok.
    rewrite locate_anchor_Ok, anchor_hits_unique in Hi. apply body_loop_Ok in Hst as [Hp ->].
    exists i. split; [done|]. cbv zeta in Heq. cbn [r_si r_out r_old r_new] in Heq.
    fold (hunk_trailing src i h) in Heq. injection Heq as <- <-. split; [|unfold growth; lia].
    unfold render. rewrite old_side_real, new_side_real. cbn [length]. rewrite !length_app.
    cbn [real_of old_start new_start rh_lines]. do 2 f_equal. f_equal; lia.
  - intros (i & [Hu Hp] & -> & ->). rewrite <- anchor_hits_unique, <- locate_anchor_Ok in Hu. rewrite Hu. cbn [mbind res_bind].
    match goal with |- context [body_loop src (body h) ?st] =>
      assert (body_loop src (body h) st = Ok _) as -> by (apply body_loop_Ok; split; [exact Hp|reflexivity]) end.
    cbn [mbind res_bind r_si r_out r_old r_new]. fold (hunk_trailing src i h). cbv zeta.
    do 2 f_equal; [|unfold growth; lia].
    unfold render. rewrite old_side_real, new_side_real. cbn [length]. rewrite !length_app.
    cbn [real_of old_start new_start rh_lines]. do 2 f_equal. f_equal; lia.
Qed.

(** ** Application *)

Lemma trailing_prefix src b si : trailing src b si `prefix_of` drop si src.
Proof.
  unfold trailing. case_match; [|apply prefix_nil]. cbv zeta. eexists. symmetry. apply take_drop.
Qed.

Lemma prefix_take {A} (l k : list A) : l `prefix_of` k -> take (length l) k = l.
Proof. intros [r ->]. apply take_app_length. Qed.

Lemma prefix_drop {A} (l k : list A) : l `prefix_of` k -> k = l ++ drop (length l) k.
Proof. intros Hp. rewrite <- (prefix_take _ _ Hp) at 1. by rewrite take_drop. Qed.

(** Context carried past a hunk's end changes nothing up to the next anchor *)
Lemma intended_skip src pos tr l :
  tr `prefix_of` drop pos src -> ascending src (pos + length tr) l ->
  intended src pos l = tr ++ intended src (pos + length tr) l.
Proof.
  intros Hp Ha. destruct l as [|[i h] l]; cbn [intended].
  { rewrite <- drop_drop. by apply prefix_drop. }
  destruct Ha as [Hle _]. rewrite (app_assoc tr). f_equal.
  rewrite (prefix_drop _ _ Hp) at 1. rewrite drop_drop, take_app_ge by lia. f_equal. f_equal. lia.
Qed.

Lemma sits_lookup src h i : sits src h i -> src !! i = Some (nth i src "").
Proof.
  intros [Hu _]. destruct (proj2 (Hu i) eq_refl) as (ln & Hl & _).
  rewrite Hl. f_equal. symmetry. by apply nth_lookup_Some.
Qed.

Lemma apply_intended src l pos delta :
  Forall (fun ih => sits src ih.2 ih.1) l -> ascending src pos l ->
  apply_hunks pos delta src (reals src delta l) = Some (intended src pos l).
Proof.
  revert pos delta. induction l as [|[i h] l IH]; intros pos delta Hs Ha; [done|].
  apply Forall_cons in Hs as [Hs Hl]. destruct Ha as [Hle Ha]. pose proof (sits_lookup _ _ _ Hs) as Hi.
  destruct Hs as [_ Hp]. cbn [fst snd] in *. set (n := nth i src "") in *.
  assert (drop i src = n :: drop (S i) src) as Hd by (by apply drop_S).
  assert (old_side (body h) ++ hunk_trailing src i h `prefix_of` drop (i + 1) src) as Hpt.
  { rewrite (prefix_drop _ _ Hp). apply prefix_app. rewrite drop_drop. apply trailing_prefix. }
  cbn [reals apply_hunks]. cbv zeta. rewrite old_side_real, new_side_real. fold n.
  rewrite bool_decide_true.
  2: { cbn [real_of old_start new_start]. split; [lia|]. split; [done|]. replace (i + 1 - 1) with i by lia.
       rewrite Hd, <- Nat.add_1_r. cbn [length]. cbn [take]. f_equal. by apply prefix_take. }
  cbn [real_of old_start length]. rewrite length_app. replace (i + 1 - 1) with i by lia.
  replace (delta + _ - _)%Z with (delta + growth h)%Z by (unfold growth; cbn [length]; rewrite !length_app; lia).
  rewrite IH; [|done|by replace (i + S _) with (i + 1 + length (old_side (body h)) + length (hunk_trailing src i h)) by lia].
  cbn [mbind option_bind intended]. f_equal.
  rewrite (intended_skip src (i + 1 + length (old_side (body h))) (hunk_trailing src i h)); [|apply trailing_prefix|done].
  replace (i + 1 - pos) with (S (i - pos)) by lia.
  rewrite (take_S_r _ _ n) by (rewrite lookup_drop; by replace (pos + (i - pos)) with i by lia).
  rewrite <- !app_assoc. cbn [app]. rewrite <- !app_assoc. do 4 f_equal. f_equal. lia.
Qed.

(** The file's lines with the place of each of its hunks *)
Definition placed (read_source : string -> option string) (fp : FilePatch) (pl : list string * list (nat * Hunk)) : Prop :=
  (exists src, read_source (fp_path fp) = Some src /\ pl.1 = split_char nl src) /\
  pl.2.*2 = hunks fp /\ Forall (fun ih => sits pl.1 ih.2 ih.1) pl.2.

Definition file_text (fp : FilePatch) (pl : list string * list (nat * Hunk)) : list string :=
  ("--- a/" +:+ fp_path fp) :: ("+++ b/" +:+ fp_path fp) :: map render (reals pl.1 0 pl.2).

Lemma reconstruct_hunks_Ok src hs delta texts :
  reconstruct_hunks src hs delta = Ok texts <->
  exists l, l.*2 = hs /\ Forall (fun ih => sits src ih.2 ih.1) l /\ texts = map render (reals src delta l).
Proof.
  revert delta texts. induction hs as [|h hs IH]; intros delta texts; cbn [reconstruct_hunks].
  { split; [intros [= <-]; by exists []|]. intros ([|? ?] & Hl & _ & ->); [done|discriminate Hl]. }
  split.
  - intros ([t d] & (i & Hs & -> & ->)%reconstruct_hunk_Ok & (rest & (l & <- & Hl & ->)%IH & [= <-])%res_bind_Ok)%res_bind_Ok.
    exists ((i, h) :: l). split; [done|]. split; [by constructor|done].
  - intros ([|[i h'] l] & Heq & Hl & ->); [discriminate Heq|]. injection Heq as -> Heq.
    apply Forall_cons in Hl as [Hs Hl]. cbn [fst snd] in Hs.
    rewrite (proj2 (reconstruct_hunk_Ok src h delta _ _)) by (by exists i). cbn [mbind res_bind fst snd].
    rewrite (proj2 (IH _ _)) by (by exists l). done.
Qed.

Lemma reconstruct_files_Ok read_source files parts :
  reconstruct_files read_source files = Ok parts <->
  exists plan, Forall2 (placed read_source) files plan /\ parts = List.concat (zip_with file_text files plan).
Proof.
  revert parts. induction files as [|fp files IH]; intros parts; cbn [reconstruct_files].
  { split; [intros [= <-]; exists []; by split; [constructor|]|]. by intros (plan & ->%Forall2_nil_inv_l & ->). }
  destruct (read_source (fp_path fp)) as [src|] eqn:Hr.
  2: { split; [done|]. intros (plan & Hp & _). apply Forall2_cons_inv_l in Hp as (pl & plan' & ((src & Hs & _) & _) & _).
       congruence. }
  split.
  - intros (hs & (l & Hl & Hf & ->)%reconstruct_hunks_Ok & (rest & (plan & Hp & ->)%IH & [= <-])%res_bind_Ok)%res_bind_Ok.
    exists ((split_char nl src, l) :: plan). split; [|done]. constructor; [|done]. split; [by exists src|done].
  - intros (plan & Hp & ->). apply Forall2_cons_inv_l in Hp as ([ls l] & plan' & ((src' & Hs & Hls) & Hl & Hf) & Hp & ->).
    cbn [fst snd] in *. rewrite Hr in Hs. injection Hs as <-. subst ls.
    rewrite (proj2 (reconstruct_hunks_Ok _ _ _ _)) by (by exists l). cbn [mbind res_bind].
    rewrite (proj2 (IH _)) by (by exists plan'). done.
Qed.

(** A computation that can only refuse *)
Definition only_refuses {A} (m : res A) : Prop := forall e, m = Raise e -> exn_class e = "ReconstructionRefused".

Lemma only_refuses_bind {A B} (m : res A) (f : A -> res B) :
  only_refuses m -> (forall a, only_refuses (f a)) -> only_refuses (a ← m; f a).
Proof. intros Hm Hf e. destruct m as [a|e']; cbn; [apply Hf|]. intros [= ->]. by apply Hm. Qed.

Lemma only_refuses_Ok {A} (a : A) : only_refuses (Ok a).
Proof. done. Qed.
Lemma only_refuses_refused {A} r d : only_refuses (Raise (A := A) (refused r d)).
Proof. by intros e [= <-]. Qed.
#[local] Hint Resolve only_refuses_bind only_refuses_Ok only_refuses_refused : core.

Lemma parse_illustrative_refuses block : only_refuses (parse_illustrative block).
Proof.
  apply only_refuses_bind; [|intros st; case_match; auto].
  generalize (mkP [] false). induction (splitlines block) as [|raw ls IH]; intros st; cbn; [auto|].
  apply only_refuses_bind; [|auto]. unfold parse_line. repeat case_match; auto.
Qed.

Lemma body_loop_refuses src b st : only_refuses (body_loop src b st).
Proof. revert st. induction b as [|[[] t] b IH]; intros st; cbn; [auto|case_match; auto..|auto]. Qed.

Lemma reconstruct_files_refuses read_source files : only_refuses (reconstruct_files read_source files).
Proof.
  induction files as [|fp files IH]; cbn; [auto|]. case_match; [|auto]. apply only_refuses_bind; [|auto].
  generalize 0%Z. generalize (split_char nl s). intros src. induction (hunks fp) as [|h hs IHh]; intros delta; cbn; [auto|].
  apply only_refuses_bind; [|auto]. unfold reconstruct_hunk. apply only_refuses_bind.
  - unfold locate_anchor. repeat case_match; auto.
  - intros i. apply only_refuses_bind; [apply body_loop_refuses|auto].
Qed.

(** Strict application accepts only hunks that ascend without overlap *)
Lemma apply_ascending src l pos delta out :
  Forall (fun ih => sits src ih.2 ih.1) l -> apply_hunks pos delta src (reals src delta l) = Some out -> ascending src pos l.
Proof.
  revert pos delta out. induction l as [|[i h] l IH]; intros pos delta out Hs; [done|]. apply Forall_cons in Hs as [_ Hl].
  cbn [reals apply_hunks ascending]. cbv zeta. rewrite old_side_real, new_side_real. cbn [real_of old_start new_start].
  case_bool_decide as Hb; [|done]. destruct Hb as (Hle & _ & _). intros H. split; [lia|].
  destruct (apply_hunks _ _ _ _) as [rest|] eqn:Hr in H; [|done]. revert Hr. cbn [length]. rewrite length_app.
  replace (i + 1 - 1 + S _) with (i + 1 + length (old_side (body h)) + length (hunk_trailing src i h)) by lia.
  replace (delta + _ - _)%Z with (delta + growth h)%Z by (unfold growth; cbn [length]; rewrite !length_app; lia).
  by apply IH.
Qed.

(** C19. The reconstruction of a block without numbered hunks is exact or refused.  It
    succeeds exactly when every file can be read and every hunk sits at the one line its
    anchor names with its context and removals verbatim below it, the text is then the
    numbered hunks at those lines, and otherwise the only exception is a refusal, never a
    partial patch.  And the numbers are right: applying the text strictly, at the very lines
    it names, replaces below each anchor exactly what the report's hunk asks when the hunks
    of a file, with the context they carry, ascend without overlap, and is impossible
    otherwise, which the reconstruction does not look at.  Two things pass unchecked: a
    block with a numbered hunk, as it is, and a line that begins like a file's first header,
    a removal of such a text included, which is dropped. *)
Theorem reconstruct_applies block read_source :
  (re_test REAL_HUNK block = true ->
     reconstruct block read_source = Ok (if ends_with nls block then block else block +:+ nls)) /\
  (re_test REAL_HUNK block = false ->
     (forall out, reconstruct block read_source = Ok out <->
        exists files plan, parse_illustrative block = Ok files /\ Forall2 (placed read_source) files plan /\
          out = unlines (List.concat (zip_with file_text files plan)) +:+ nls) /\
     only_refuses (reconstruct block read_source)) /\
  (forall fp pl, placed read_source fp pl ->
     (ascending pl.1 0 pl.2 -> apply_hunks 0 0 pl.1 (reals pl.1 0 pl.2) = Some (intended pl.1 0 pl.2)) /\
     (~ ascending pl.1 0 pl.2 -> apply_hunks 0 0 pl.1 (reals pl.1 0 pl.2) = None)) /\
  (forall st before after text,
     parse_lines st (before ++ ("--- " +:+ text) :: after) = parse_lines st (before ++ after)).
Proof.
  unfold reconstruct. split; [by intros ->|]. split; [|split].
  - intros ->. split.
    + intros out. split.
      * intros (files & Hf & (parts & (plan & Hp & ->)%reconstruct_files_Ok & [= <-])%res_bind_Ok)%res_bind_Ok.
        by exists files, plan.
      * intros (files & plan & -> & Hp & ->). cbn [mbind res_bind].
        by rewrite (proj2 (reconstruct_files_Ok _ _ _)) by (by exists plan).
    + apply only_refuses_bind; [apply parse_illustrative_refuses|intros files].
      apply only_refuses_bind; [apply reconstruct_files_refuses|auto].
  - intros fp pl (_ & _ & Hs). split; [by apply apply_intended|]. intros Hn.
    destruct (apply_hunks _ _ _ _) as [out|] eqn:Ha; [|done]. by apply apply_ascending in Ha.
  - intros st before after text. revert st. induction before as [|l before IH]; intros st; [done|].
    cbn [app parse_lines]. destruct (parse_line st l); [apply IH|done].
Qed.

(** ** On concrete blocks *)

Definition demo_source : string :=
  unlines ["contract C {"; "  uint a;"; "  function f() external {"; "    a = 1;"; "  }"; "-- x"; "  uint b;"; "}"; ""].
Definition demo_read (p : string) : option string := if String.eqb p "C.sol" then Some demo_source else None.

Example reconstruct_demo :
  reconstruct (unlines ["--- a/C.sol"; "+++ b/C.sol"; "@@ function f() external {"; "+    require(ok);"; "-    a = 1;"; "+    a = 2;"]) demo_read =
  Ok (unlines ["--- a/C.sol"; "+++ b/C.sol"; "@@ -3,5 +3,6 @@"; "   function f() external {"; "+    require(ok);"; "-    a = 1;";
               "+    a = 2;"; "   }"; " -- x"; "   uint b;"; ""]).
Proof. vm_compute. reflexivity. Qed.

Example reconstruct_ambiguous :
  reconstruct (unlines ["+++ b/C.sol"; "@@ }"; "+x"]) demo_read = Raise (refused "anchor_ambiguous" "} (2 matches)").
Proof. vm_compute. reflexivity. Qed.

(** A removed line whose text begins with two dashes and a blank is taken for a file
    header and dropped: the patch keeps the line the block removes. *)
Lemma removal_taken_for_header :
  (forall st t, parse_line st ("--- " +:+ t) = Ok st) /\
  reconstruct (unlines ["+++ b/C.sol"; "@@ a = 1;"; "+    a++;"; "   }"; "--- x"]) demo_read =
    reconstruct (unlines ["+++ b/C.sol"; "@@ a = 1;"; "+    a++;"; "   }"]) demo_read /\
  is_ok_res (reconstruct (unlines ["+++ b/C.sol"; "@@ a = 1;"; "+    a++;"; "   }"]) demo_read) = true.
Proof. split_and!; [done|by vm_compute..]. Qed.

(** The context appended to a hunk that ends at a change can swallow the next hunk's
    anchor: both hunks are emitted, and no strict application accepts them. *)
Lemma trailing_context_overlaps :
  let src := split_char nl demo_source in
  let hs := [(0, mkHunk "contract C {" [(addition, "  uint z;")]); (2, mkHunk "function f() external {" [(addition, "    ok();")])] in
  reconstruct_hunks src (hs.*2) 0 = Ok (map render (reals src 0 hs)) /\ apply_hunks 0 0 src (reals src 0 hs) = None.
Proof. cbv zeta. split; by vm_compute. Qed.
