(* ===== verification/Confirm.v ===== *)
(** * The operator's approval gate (frontend/backend/confirm.py)

    Approving a pending action from the UI takes a token that only fetching the
    action's notice issues, and that one decision consumes.  The kernel's records
    ([load_request], [resolve_confirmation]) and the random tokens are parameters. *)

From S2P Require Import Prelude PyStr PyVal PyJson.

Definition approval_error (msg : string) : exn := Exn "ApprovalError" msg.

Definition ascii_only (s : string) : bool :=
  forallb (fun c => (N_of_ascii c <? 128)%N) (String.list_ascii_of_string s).

(** [secrets.compare_digest] on two [str]: both have to be ASCII *)
Definition compare_digest (a b : string) : res bool :=
  if ascii_only a && ascii_only b then Ok (String.eqb a b)
  else Raise (Exn "TypeError" "comparing strings with non-ASCII characters is not supported").

(** An entry of the confirmations directory: the file's stem, and its text unless it
    cannot be read *)
Definition Listing : Type := list (string * option string).

Definition entry_leb (a b : string * option string) : bool := str_leb (a.1 +:+ ".json") (b.1 +:+ ".json").

(** One file of the queue: skipped, listed, or an error on a document that is no object *)
Definition pending_entry (entry : string * option string) : res (option pyval) :=
  match entry.2 ≫= loads with
  | None => Ok None
  | Some data =>
      status ← pget data "status" PNone;
      if negb (bool_decide (status = PStr "pending")) then Ok None
      else
        id ← pget data "confirmation_id" (PStr entry.1);
        action_type ← pget data "action_type" PNone;
        params ← pget data "params" (PDict []);
        created ← pget data "created_at" PNone;
        Ok (Some (PDict [("id", id); ("action_type", action_type); ("params", params);
                         ("created_at", created); ("state", PStr "pending")]))
  end.

Fixpoint list_entries (entries : Listing) : res (list pyval) :=
  match entries with
  | [] => Ok []
  | entry :: entries' =>
      item ← pending_entry entry;
      rest ← list_entries entries';
      Ok (match item with Some v => v :: rest | None => rest end)
  end.

(** [None] when the directory does not exist *)
Definition list_pending (dir : option Listing) : res (list pyval) :=
  match dir with None => Ok [] | Some entries => list_entries (py_sort entry_leb entries) end.

Record Notice := mkNotice {
  nt_id : string;
  nt_action_type : pyval;
  nt_params : pyval;
  nt_state : pyval;
  nt_token : string;
}.

Section confirm.
Context {W Status : Type}.
Context (load_request : string -> W -> res pyval)
        (resolve_confirmation : string -> bool -> W -> W * res Status)
        (token_urlsafe : nat -> string).

(** [_TOKENS], how many tokens were drawn, and the kernel's records *)
Record gate := mkGate { tokens : gmap string string; drawn : nat; world : W }.

Definition issue_token (confirmation_id : string) : ST gate string := fun s =>
  let token := token_urlsafe (drawn s) in
  (mkGate (<[confirmation_id := token]> (tokens s)) (S (drawn s)) (world s), Ok token).

Definition valid (confirmation_id : string) (token : option string) (s : gate) : res bool :=
  match tokens s !! confirmation_id, token with
  | Some expected, Some token => if truthy expected && truthy token then compare_digest expected token else Ok false
  | _, _ => Ok false
  end.

Definition decide (confirmation_id : string) (confirm_token : option string) (decision : string) : ST gate Status := fun s =>
  if negb (bool_decide (decision ∈ ["approve"; "reject"])) then
    (s, Raise (approval_error "decision must be 'approve' or 'reject'"))
  else
    match (if String.eqb decision "approve" then valid confirmation_id confirm_token s else Ok true) with
    | Raise e => (s, Raise e)
    | Ok false =>
        (s, Raise (approval_error ("approval requires a confirm_token issued by fetching this action's "
          +:+ "notice first — a bare click cannot approve (FR-009)")))
    | Ok true =>
        let '(w, r) := resolve_confirmation confirmation_id (String.eqb decision "approve") (world s) in
        match r with
        | Raise e => (mkGate (tokens s) (drawn s) w, Raise e)
        | Ok status => (mkGate (delete confirmation_id (tokens s)) (drawn s) w, Ok status)
        end
    end.

Definition load_notice (confirmation_id : string) : ST gate Notice := fun s =>
  (payload ← st_gets (fun s => load_request confirmation_id (world s));
   payload ← st_lift payload;
   token ← issue_token confirmation_id;
   action_type ← st_lift (pget payload "action_type" PNone);
   params ← st_lift (pget payload "params" (PDict []));
   state ← st_lift (pget payload "status" (PStr "pending"));
   mret (mkNotice confirmation_id action_type params state token)) s.

(** ** Histories *)

Inductive event :=
| Issued (id token : string)            (* a notice fetched, its token drawn *)
| Resolved (id : string) (token : option string) (approve : bool)  (* a decision carried out *)
| Quiet.                                (* a request that was refused or failed *)

(** What any sequence of requests does to the gate, between which the rest of the system
    writes the kernel's records; the history is newest first. *)
Inductive history : gate -> list event -> gate -> Prop :=
| h_start s : tokens s = ∅ -> history s [] s
| h_notice s0 h s s' id r :
    history s0 h s -> load_notice id s = (s', r) -> drawn s' <> drawn s ->
    history s0 (Issued id (token_urlsafe (drawn s)) :: h) s'
| h_no_notice s0 h s s' id r :
    history s0 h s -> load_notice id s = (s', r) -> drawn s' = drawn s -> history s0 (Quiet :: h) s'
| h_decided s0 h s s' id token decision status :
    history s0 h s -> decide id token decision s = (s', Ok status) ->
    history s0 (Resolved id token (String.eqb decision "approve") :: h) s'
| h_failed s0 h s s' id token decision e :
    history s0 h s -> decide id token decision s = (s', Raise e) -> history s0 (Quiet :: h) s'
| h_elsewhere s0 h s w : history s0 h s -> history s0 h (mkGate (tokens s) (drawn s) w).

(** The token a history leaves outstanding for an action *)
Fixpoint outstanding (h : list event) (id : string) : option string :=
  match h with
  | [] => None
  | Issued id' token :: h' => if String.eqb id' id then Some token else outstanding h' id
  | Resolved id' _ _ :: h' => if String.eqb id' id then None else outstanding h' id
  | Quiet :: h' => outstanding h' id
  end.

Definition is_issue (id : string) (e : event) : bool :=
  match e with Issued id' _ => String.eqb id' id | _ => false end.
Definition is_approval (id : string) (e : event) : bool :=
  match e with Resolved id' _ true => String.eqb id' id | _ => false end.
Definition count (p : event -> bool) (h : list event) : nat := length (List.filter p h).

(** ** Lemmas *)

Lemma compare_digest_true a b : compare_digest a b = Ok true -> a = b.
Proof. unfold compare_digest. case_match; [|done]. by intros [= ->%String.eqb_eq]. Qed.

Lemma decide_cases id token decision s s' r :
  decide id token decision s = (s', r) ->
  (s' = s /\ exists e, r = Raise e) \/
  ((decision = "reject" \/ decision = "approve" /\ exists t, token = Some t /\ t <> "" /\ tokens s !! id = Some t) /\
   exists w, resolve_confirmation id (String.eqb decision "approve") (world s) = (w, r) /\
     s' = mkGate (if is_ok_res r then delete id (tokens s) else tokens s) (drawn s) w).
Proof.
  unfold decide. destruct (bool_decide_reflect (decision ∈ ["approve"; "reject"])) as [Hd|Hd]; cbn [negb];
    [|intros [= <- <-]; left; eauto].
  assert (forall k : gate * res Status, (let '(w, r) := resolve_confirmation id (String.eqb decision "approve") (world s) in
    match r with Raise e => (mkGate (tokens s) (drawn s) w, Raise e) | Ok status => (mkGate (delete id (tokens s)) (drawn s) w, Ok status) end) = (s', r) ->
    exists w, resolve_confirmation id (String.eqb decision "approve") (world s) = (w, r) /\
     s' = mkGate (if is_ok_res r then delete id (tokens s) else tokens s) (drawn s) w) as Hres.
  { intros _. destruct (resolve_confirmation _ _ _) as [w [st|e]]; intros [= <- <-]; eauto. }
  destruct (String.eqb_spec decision "approve") as [->|Hna].
  - destruct (valid id token s) as [[]|e] eqn:Hv; [|intros [= <- <-]; left; eauto..].
    intros H%Hres; [|exact (s, r)]. right. split; [|done]. right. split; [done|].
    unfold valid in Hv. destruct (tokens s !! id) as [exp|]; [|done]. destruct token as [t|]; [|done].
    destruct exp as [|c exp]; [done|]. destruct t as [|c' t]; [done|]. cbn [truthy andb] in Hv.
    apply compare_digest_true in Hv as <-. by exists (String c exp).
  - intros H%Hres; [|exact (s, r)]. right. split; [|done]. left.
    apply elem_of_cons in Hd as [->|Hd%list_elem_of_singleton]; done.
Qed.

Lemma load_notice_cases id s s' r :
  load_notice id s = (s', r) ->
  (s' = s /\ exists e, r = Raise e) \/
  s' = mkGate (<[id := token_urlsafe (drawn s)]> (tokens s)) (S (drawn s)) (world s) /\
  forall n, r = Ok n -> nt_id n = id /\ nt_token n = token_urlsafe (drawn s).
Proof.
  unfold load_notice, mbind, st_bind, st_gets, st_lift, issue_token. destruct (load_request id (world s)) as [p|e];
    [|intros [= <- <-]; left; eauto]. cbn.
  destruct (pget p "action_type" PNone), (pget p "params" (PDict [])), (pget p "status" (PStr "pending")); intros [= <- <-]; right;
    (split; [done|]); intros n [= <-]; done.
Qed.

Lemma history_tokens s0 h s id : history s0 h s -> tokens s !! id = outstanding h id.
Proof.
  induction 1 as [s He|s0 h s s' id' r Hh IH Hl Hd|s0 h s s' id' r Hh IH Hl Hd|s0 h s s' id' tok dec st Hh IH Hl|s0 h s s' id' tok dec e Hh IH Hl|s0 h s w Hh IH];
    cbn [outstanding].
  - by rewrite He, lookup_empty.
  - apply load_notice_cases in Hl as [[-> _]|[-> _]]; [done|]. cbn [tokens].
    destruct (String.eqb_spec id' id) as [->|Hn]; [by rewrite lookup_insert_eq|by rewrite lookup_insert_ne].
  - apply load_notice_cases in Hl as [[-> _]|[-> _]]; [done|]. cbn in Hd. lia.
  - apply decide_cases in Hl as [[-> [e He]]|[_ (w & _ & ->)]]; [done|]. cbn [tokens is_ok_res].
    destruct (String.eqb_spec id' id) as [->|Hn]; [by rewrite lookup_delete_eq|by rewrite lookup_delete_ne].
  - by apply decide_cases in Hl as [[-> _]|[_ (w & _ & ->)]].
  - done.
Qed.

Lemma outstanding_issued h id t : outstanding h id = Some t -> Issued id t ∈ h.
Proof.
  induction h as [|[id' t'|id' t' a|] h IH]; cbn; [done|..].
  - destruct (String.eqb_spec id' id) as [->|]; [intros [= ->]; left|right; auto].
  - case_match; [done|right; auto].
  - right; auto.
Qed.

(** An outstanding token is one issue not yet used up *)
Lemma count_history s0 h s id : history s0 h s ->
  count (is_approval id) h + (match outstanding h id with Some _ => 1 | None => 0 end) <= count (is_issue id) h.
Proof.
  induction 1 as [s He|s0 h s s' id' r Hh IH Hl Hd|s0 h s s' id' r Hh IH Hl Hd|s0 h s s' id' tok dec st Hh IH Hl|s0 h s s' id' tok dec e Hh IH Hl|s0 h s w Hh IH];
    unfold count in *; cbn; try lia.
  - destruct (String.eqb id' id); cbn; [|lia]. destruct (outstanding h id); lia.
  - destruct (String.eqb_spec dec "approve") as [->|Hn]; cbn.
    + apply decide_cases in Hl as [[_ [e He]]|[Hd _]]; [done|].
      destruct Hd as [Hd|(_ & t & _ & _ & Ht)]; [done|]. rewrite (history_tokens _ _ _ _ Hh) in Ht.
      destruct (String.eqb_spec id' id) as [->|]; cbn; [|lia]. rewrite Ht in IH. lia.
    + destruct (String.eqb id' id); [|lia]. destruct (outstanding h id); lia.
Qed.

(** C18. No reflexive approval.  Whatever requests came before, the kernel's records
    change only through a reject or through an approve that carries the very token
    issued when the notice of that same action was last fetched and not used since;
    any other decision leaves the whole gate as it was and raises.  A decision that
    succeeds spends the token, so no action is approved more often than its notice
    was fetched; and browsing issues nothing. *)
Theorem approval_gate s0 h s id token decision s' r
    (Hh : history s0 h s) (Hd : decide id token decision s = (s', r)) :
  (world s' = world s /\ s' = s /\ (exists e, r = Raise e) \/
   (decision = "reject" \/
    decision = "approve" /\ exists t, token = Some t /\ t <> "" /\ outstanding h id = Some t /\ Issued id t ∈ h) /\
   resolve_confirmation id (String.eqb decision "approve") (world s) = (world s', r)) /\
  (forall status, r = Ok status -> tokens s' !! id = None) /\
  count (is_approval id) h <= count (is_issue id) h /\
  (forall id' s2 r2, load_notice id' s = (s2, r2) -> world s2 = world s).
Proof.
  pose proof (history_tokens _ _ _ id Hh) as Htok. pose proof (count_history _ _ _ id Hh) as Hcount.
  split_and!; [| | |].
  - apply decide_cases in Hd as [[-> He]|[Hg (w & Hr & ->)]]; [by left|right]. split; [|done].
    destruct Hg as [->|(-> & t & -> & Ht & Hl)]; [by left|right]. split; [done|]. exists t.
    rewrite Htok in Hl. split_and!; try done. by apply outstanding_issued.
  - intros status ->. apply decide_cases in Hd as [[_ [e He]]|[_ (w & _ & ->)]]; [done|]. cbn. apply lookup_delete_eq.
  - lia.
  - intros id' s2 r2 Hl. by apply load_notice_cases in Hl as [[-> _]|[-> _]].
Qed.
End confirm.

(** ** A notice, an approval and its replay *)

Definition demo_load (id : string) (w : list (string * bool)) : res pyval :=
  if String.eqb id "c-1" then Ok (PDict [("action_type", PStr "write_poc"); ("status", PStr "pending")])
  else Raise (Exn "FileNotFoundError" id).
Definition demo_resolve (id : string) (approve : bool) (w : list (string * bool)) : list (string * bool) * res bool :=
  ((id, approve) :: w, Ok approve).
Definition demo_token (n : nat) : string := "token-" +:+ pretty n.
Definition demo_gate : gate := mkGate (∅ : gmap string string) 0 ([] : list (string * bool)).
Definition demo_fetched : gate := (load_notice demo_load demo_token "c-1" demo_gate).1.
Definition demo_approved : gate := (decide demo_resolve "c-1" (Some "token-0") "approve" demo_fetched).1.

Lemma approval_gate_witness :
  world demo_approved = [("c-1", true)] /\
  exists s' r, decide demo_resolve "c-1" (Some "token-0") "approve" demo_approved = (s', r) /\
    world s' = [("c-1", true)] /\ exists e, r = Raise e.
Proof.
  split; [vm_compute; reflexivity|].
  destruct (decide demo_resolve "c-1" (Some "token-0") "approve" demo_approved) as [s' r] eqn:Hd.
  exists s', r. split; [reflexivity|].
  assert (history demo_load demo_resolve demo_token demo_gate
            [Resolved "c-1" (Some "token-0") true; Issued "c-1" "token-0"] demo_approved) as Hh.
  { refine (h_decided demo_load demo_resolve demo_token demo_gate _ demo_fetched _ "c-1" (Some "token-0") "approve" true _ _);
      [|vm_compute; reflexivity].
    refine (h_notice demo_load demo_resolve demo_token demo_gate _ demo_gate _ "c-1" (load_notice demo_load demo_token "c-1" demo_gate).2 _ _ _);
      [constructor; reflexivity|vm_compute; reflexivity|vm_compute; discriminate]. }
  destruct (approval_gate demo_load demo_resolve demo_token demo_gate _ _ "c-1" (Some "token-0") "approve" s' r Hh Hd)
    as ([(Hw & _ & He)|[[Hd'|(_ & t & _ & _ & Ho & _)] _]] & _).
  - split; [|exact He]. rewrite Hw. vm_compute. reflexivity.
  - discriminate Hd'.
  - discriminate Ho.
Defined.
