(* ===== verification/ModelSlots.v ===== *)
(** * The reasoning-backend slots (frontend/backend/model_config.py)

    The two slots the operator sets from the UI, the clients they give, the write-only
    key, the heartbeat and the warm-up report.  A client is the request to build it;
    its class, the kernel's configuration and the model lists are parameters. *)

From S2P Require Import Prelude PyStr PyVal.

Record ModelConfig := mkConfig {
  endpoint : string;
  model : option string;
  backend : string;
  paid_key : option string;
}.

(** The constructor call a client results from *)
Inductive client :=
| LocalClient (model host : string)
| LocalStage2 (host : string)
| GeminiClient (api_key model : string)
| OpenRouterClient (api_key model : string).

#[export] Instance client_eq_dec : EqDecision client.
Proof. solve_decision. Defined.

Definition str_opt (o : option string) : pyval := match o with Some s => PStr s | None => PNone end.

(** The serializable view *)
Definition public (c : ModelConfig) : pyval := PDict
  [("endpoint", PStr (endpoint c)); ("model", str_opt (model c)); ("backend", PStr (backend c));
   ("has_paid_key", PBool (negb (is_none (paid_key c))))].

(** [o or dflt] and [value or None] *)
Definition str_or (o : option string) (dflt : string) : string :=
  match o with Some s => if truthy s then s else dflt | None => dflt end.
Definition or_none (s : string) : option string := if truthy s then Some s else None.

Record Slots := mkSlots { CONFIG : ModelConfig; ADDITIONAL : ModelConfig }.

Record Heartbeat {T : Type} := mkBeat {
  hb_state : string;
  hb_endpoint : option string;
  hb_model : option string;
  hb_checked_at : option T;
  hb_fails : nat;
}.
Arguments Heartbeat : clear implicits.

Record WarmReport := mkWarm { wr_state : string; wr_reason : option string; wr_model : string }.

Section slots.
Context (DEFAULT_HOST : string) (SIMPLE_MODELS OPENROUTER_MODELS : list string)
        (gemini_api_key openrouter_api_key : string)
        (client_model : client -> string).

Definition default_config (b : string) : ModelConfig := mkConfig DEFAULT_HOST None b None.
Definition initial_slots : Slots := mkSlots (default_config "local") (default_config "off").

Definition local_client (c : ModelConfig) : client :=
  match model c with
  | Some m => if truthy m then LocalClient m (endpoint c) else LocalStage2 (endpoint c)
  | None => LocalStage2 (endpoint c)
  end.

Definition effective_gemini_key (c : ModelConfig) : string := str_or (paid_key c) gemini_api_key.
Definition effective_openrouter_key (c : ModelConfig) : string := str_or (paid_key c) openrouter_api_key.

Definition reasoning_client (c : ModelConfig) : client :=
  if String.eqb (backend c) "paid" then GeminiClient (effective_gemini_key c) (str_or (model c) (head_or_empty SIMPLE_MODELS))
  else if String.eqb (backend c) "openrouter" then
    OpenRouterClient (effective_openrouter_key c) (str_or (model c) (head_or_empty OPENROUTER_MODELS))
  else local_client c.

Definition additional_client (c : ModelConfig) : option client :=
  if String.eqb (backend c) "off" then None
  else if String.eqb (backend c) "paid" then
    if negb (truthy (effective_gemini_key c)) then None
    else Some (GeminiClient (effective_gemini_key c) (str_or (model c) (head_or_empty SIMPLE_MODELS)))
  else if String.eqb (backend c) "openrouter" then
    if negb (truthy (effective_openrouter_key c)) then None
    else Some (OpenRouterClient (effective_openrouter_key c) (str_or (model c) (head_or_empty OPENROUTER_MODELS)))
  else Some (local_client c).

(** The assignments of [_apply], in order: the slot is changed in place, so what an
    exception interrupts keeps the assignments made before it. *)
Definition set_endpoint (e : string) : ST ModelConfig unit := st_modify (fun c => mkConfig e (model c) (backend c) (paid_key c)).
Definition set_model (m : string) : ST ModelConfig unit := st_modify (fun c => mkConfig (endpoint c) (or_none m) (backend c) (paid_key c)).
Definition set_backend (allowed : list string) (b : string) : ST ModelConfig unit :=
  if negb (bool_decide (b ∈ allowed)) then
    st_lift (Raise (Exn "ValueError" ("backend must be one of (" +:+ join ", " (map repr_str allowed) +:+ ")")))
  else st_modify (fun c => mkConfig (endpoint c) (model c) b (paid_key c)).
Definition set_key (k : string) : ST ModelConfig unit := st_modify (fun c => mkConfig (endpoint c) (model c) (backend c) (or_none k)).

Definition given {S A} (o : option A) (f : A -> ST S unit) : ST S unit :=
  match o with Some a => f a | None => mret tt end.

Definition apply_config (allowed : list string) (endpoint model backend paid_key : option string) : ST ModelConfig pyval :=
  _ ← given endpoint set_endpoint;
  _ ← given model set_model;
  _ ← given backend (set_backend allowed);
  _ ← given paid_key set_key;
  st_gets public.

Definition MAIN_BACKENDS : list string := ["local"; "paid"; "openrouter"].
Definition ADDITIONAL_BACKENDS : list string := ["local"; "paid"; "openrouter"; "off"].

Definition set_config (endpoint model backend paid_key : option string) : ST Slots pyval := fun s =>
  let '(c, r) := apply_config MAIN_BACKENDS endpoint model backend paid_key (CONFIG s) in (mkSlots c (ADDITIONAL s), r).
Definition set_additional (endpoint model backend paid_key : option string) : ST Slots pyval := fun s =>
  let '(c, r) := apply_config ADDITIONAL_BACKENDS endpoint model backend paid_key (ADDITIONAL s) in (mkSlots (CONFIG s) c, r).

(** ** Liveness *)

Definition heartbeat_start {T} : Heartbeat T := mkBeat _ "unknown" None None None 0.

(** [available] may raise, which counts as down; the time is given. *)
Definition heartbeat_once {T} (available : client -> res bool) (now : T) (s : Slots) (b : Heartbeat T) : Heartbeat T :=
  let c := local_client (CONFIG s) in
  let ok := catch_all (available c) (fun _ => false) in
  if ok then mkBeat _ "up" (Some (endpoint (CONFIG s))) (Some (client_model c)) (Some now) 0
  else mkBeat _ "down" (Some (endpoint (CONFIG s))) (Some (client_model c)) (Some now) (S (hb_fails b)).

(** The elapsed time is left out. *)
Definition warm (loads ready : client -> bool) (s : Slots) : WarmReport :=
  let c := local_client (CONFIG s) in
  let loaded := loads c in
  let ready := if loaded then ready c else false in
  if ready then mkWarm "ready" None (client_model c)
  else if loaded then mkWarm "warming" (Some "loaded but not ready yet") (client_model c)
  else mkWarm "failed" (Some "could not reach/load the model (is Ollama up at the endpoint?)") (client_model c).

(** ** Properties *)

Inductive request :=
| SetMain (endpoint model backend paid_key : option string)
| SetAdditional (endpoint model backend paid_key : option string).

(** A request with what the API answers *)
Definition serve (q : request) (s : Slots) : Slots * res pyval :=
  match q with
  | SetMain e m b k => set_config e m b k s
  | SetAdditional e m b k => set_additional e m b k s
  end.

Definition after (qs : list request) : Slots := fold_left (fun s q => (serve q s).1) qs initial_slots.

(** The key of a slot rubbed out, when there is one *)
Definition masked (c : ModelConfig) : ModelConfig :=
  mkConfig (endpoint c) (model c) (backend c) ((fun _ => "k") <$> paid_key c).

Definition mask_request (q : request) : request :=
  let mask k := (fun s : string => if truthy s then "k" else "") <$> k in
  match q with
  | SetMain e m b k => SetMain e m b (mask k)
  | SetAdditional e m b k => SetAdditional e m b (mask k)
  end.

Lemma public_masked c : public (masked c) = public c.
Proof. destruct c as [e m b [k|]]; done. Qed.

Lemma apply_config_mask allowed e m b k c :
  let r := apply_config allowed e m b k c in
  let r' := apply_config allowed e m b ((fun s : string => if truthy s then "k" else "") <$> k) (masked c) in
  r'.1 = masked r.1 /\ r'.2 = r.2.
Proof.
  unfold apply_config, given, set_endpoint, set_model, set_backend, set_key, mbind, st_bind, mret, st_ret, st_modify, st_gets, st_lift.
  destruct c as [ce cm cb [ck|]], e, m, k as [[|? ?]|], b as [b|]; try (destruct (negb (bool_decide (b ∈ allowed)))); done.
Qed.

Lemma apply_config_spec allowed e m b k c :
  let r := apply_config allowed e m b k c in
  (backend r.1 = backend c \/ backend r.1 ∈ allowed) /\
  (forall v, r.2 = Ok v -> v = public r.1) /\
  (forall x, r.2 = Raise x -> exn_class x = "ValueError" /\ exists b', b = Some b' /\ b' ∉ allowed).
Proof.
  unfold apply_config, given, set_endpoint, set_model, set_backend, set_key, mbind, st_bind, mret, st_ret, st_modify, st_gets, st_lift.
  destruct b as [b|]; [destruct (bool_decide_reflect (b ∈ allowed)) as [Hb|Hb]|]; destruct e, m, k; cbn;
    split_and!; auto; try (by intros v [= <-]); try done; intros x [= <-]; eauto.
Qed.

Definition masked_slots (s : Slots) : Slots := mkSlots (masked (CONFIG s)) (masked (ADDITIONAL s)).

Lemma serve_masked q s :
  serve (mask_request q) (masked_slots s) = (masked_slots (serve q s).1, (serve q s).2).
Proof.
  destruct q as [e m b k|e m b k]; cbn [serve mask_request]; unfold set_config, set_additional; cbn [CONFIG ADDITIONAL masked_slots].
  - destruct (apply_config_mask MAIN_BACKENDS e m b k (CONFIG s)) as [H1 H2].
    destruct (apply_config MAIN_BACKENDS e m b k (CONFIG s)), (apply_config MAIN_BACKENDS e m b _ (masked (CONFIG s))).
    cbn [fst snd] in *. by subst.
  - destruct (apply_config_mask ADDITIONAL_BACKENDS e m b k (ADDITIONAL s)) as [H1 H2].
    destruct (apply_config ADDITIONAL_BACKENDS e m b k (ADDITIONAL s)), (apply_config ADDITIONAL_BACKENDS e m b _ (masked (ADDITIONAL s))).
    cbn [fst snd] in *. by subst.
Qed.

Lemma after_snoc qs q : after (qs ++ [q]) = (serve q (after qs)).1.
Proof. unfold after. by rewrite fold_left_app. Qed.

Lemma after_masked qs : after (map mask_request qs) = masked_slots (after qs).
Proof.
  induction qs as [|q qs IH] using rev_ind; [done|].
  rewrite map_app. cbn [map]. by rewrite !after_snoc, IH, serve_masked.
Qed.

Lemma after_backends qs :
  backend (CONFIG (after qs)) ∈ MAIN_BACKENDS /\ backend (ADDITIONAL (after qs)) ∈ ADDITIONAL_BACKENDS.
Proof.
  induction qs as [|q qs [IHm IHa]] using rev_ind; [unfold MAIN_BACKENDS, ADDITIONAL_BACKENDS; cbn; set_solver|].
  rewrite after_snoc. destruct q as [e m b k|e m b k]; cbn [serve]; unfold set_config, set_additional.
  - destruct (apply_config_spec MAIN_BACKENDS e m b k (CONFIG (after qs))) as ([Hb|Hb] & _);
      destruct (apply_config _ _ _ _ _ _); cbn [fst CONFIG ADDITIONAL] in *; by rewrite ?Hb.
  - destruct (apply_config_spec ADDITIONAL_BACKENDS e m b k (ADDITIONAL (after qs))) as ([Hb|Hb] & _);
      destruct (apply_config _ _ _ _ _ _); cbn [fst CONFIG ADDITIONAL] in *; by rewrite ?Hb.
Qed.

Lemma local_client_local c : exists m h, local_client c = LocalClient m h \/ local_client c = LocalStage2 h.
Proof. unfold local_client. exists (str_or (model c) ""), (endpoint c). unfold str_or. repeat case_match; auto. Qed.

Lemma truthy_false s : truthy s = false <-> s = "".
Proof. by destruct s. Qed.

(** The slots keep their promises whatever the operator sends.  The key is
    write-only: with any other key in place of each, the slots differ only in it, and
    every answer and public view is the same.  The backend is always one the slot
    allows, and a hosted client is built exactly when its backend was chosen, never as
    a fallback; the additional slot gives no client exactly when it is off or hosted
    without a key, so a hosted client there always has one. *)
Theorem slots_safe (qs : list request) q :
  let s := after qs in
  let s' := after (map mask_request qs) in
  s' = masked_slots s /\ public (CONFIG s') = public (CONFIG s) /\ public (ADDITIONAL s') = public (ADDITIONAL s) /\
  (serve (mask_request q) s').2 = (serve q s).2 /\
  backend (CONFIG s) ∈ MAIN_BACKENDS /\ backend (ADDITIONAL s) ∈ ADDITIONAL_BACKENDS /\
  ((exists k m, reasoning_client (CONFIG s) = GeminiClient k m) <-> backend (CONFIG s) = "paid") /\
  ((exists k m, reasoning_client (CONFIG s) = OpenRouterClient k m) <-> backend (CONFIG s) = "openrouter") /\
  (additional_client (ADDITIONAL s) = None <-> backend (ADDITIONAL s) = "off" \/
     backend (ADDITIONAL s) = "paid" /\ effective_gemini_key (ADDITIONAL s) = "" \/
     backend (ADDITIONAL s) = "openrouter" /\ effective_openrouter_key (ADDITIONAL s) = "") /\
  (forall k m, additional_client (ADDITIONAL s) = Some (GeminiClient k m) \/
               additional_client (ADDITIONAL s) = Some (OpenRouterClient k m) -> k <> "").
Proof.
  cbv zeta. rewrite after_masked. destruct (after_backends qs) as [Hm Ha].
  split; [done|]. do 2 (split; [apply public_masked|]). split; [by rewrite serve_masked|]. do 2 (split; [done|]).
  unfold reasoning_client, additional_client. set (c := CONFIG (after qs)). set (a := ADDITIONAL (after qs)).
  destruct (local_client_local c) as (lm & lh & Hl), (local_client_local a) as (am & ah & Hla).
  split_and!.
  - destruct (String.eqb_spec (backend c) "paid"); [split; eauto|]. split; [|done].
    destruct (String.eqb_spec (backend c) "openrouter"); intros (? & ? & ?); destruct Hl; congruence.
  - destruct (String.eqb_spec (backend c) "paid") as [->|]; [split; [by intros (? & ? & ?)|done]|].
    destruct (String.eqb_spec (backend c) "openrouter"); [split; eauto|].
    split; [intros (? & ? & ?); destruct Hl; congruence|done].
  - destruct (String.eqb_spec (backend a) "off") as [Ho|Ho]; [split; auto|].
    destruct (String.eqb_spec (backend a) "paid") as [Hp|Hp]; [|destruct (String.eqb_spec (backend a) "openrouter") as [Hr|Hr]].
    1, 2: rewrite <- !truthy_false; destruct (truthy _); cbn [negb]; (split; [try done; intros _; auto|]);
      intros [?|[[? ?]|[? ?]]]; congruence.
    split; [done|]. intros [?|[[? _]|[? _]]]; congruence.
  - intros k m Hc ->. revert Hc. destruct (String.eqb_spec (backend a) "off"); [by intros [[=]|[=]]|].
    destruct (String.eqb_spec (backend a) "paid"); [|destruct (String.eqb_spec (backend a) "openrouter")].
    1: destruct (truthy (effective_gemini_key a)) eqn:Hk; cbn [negb].
    3: destruct (truthy (effective_openrouter_key a)) eqn:Hk; cbn [negb].
    1-4: intros [Hc|Hc]; try done; injection Hc as Hc _; by rewrite Hc in Hk.
    intros [Hc|Hc]; destruct Hla; congruence.
Qed.
End slots.

(** A rejected backend leaves the endpoint and the model of the same request set. *)
Lemma rejected_request_applied :
  set_config (Some "http://tunnel") (Some "m") (Some "cloud") None (initial_slots "http://localhost") =
  (mkSlots (mkConfig "http://tunnel" (Some "m") "local" None) (default_config "http://localhost" "off"),
   Raise (Exn "ValueError" "backend must be one of ('local', 'paid', 'openrouter')")).
Proof. vm_compute. reflexivity. Qed.
