(* ===== verification/Causes.v ===== *)
(** * The scaffold-failure taxonomy (proof/scaffold_causes.py, scripts/scaffold_taxonomy.py)

    The closed cause sets with their natures, the classifier of build failures, and
    the offline report over attributed run logs.  A log event is a decoded JSON
    object; dictionary keys are compared structurally, which is Python's equality on
    the strings the logs hold; a share is the pair of its numerator and denominator.
    Reading the files and the command line are left out. *)

From S2P Require Import Prelude PyStr PyVal.

(** ** scaffold_causes.py *)

Definition SYNTHESIS_CAUSES : list string :=
  ["synthesized"; "no_output:model"; "no_output:crash"; "no_build:path"; "no_build:toolchain"; "no_build:code";
   "no_build:infra"; "repair_exhausted:resolvable"; "repair_exhausted:unresolvable"].

Definition FINDING_CAUSES : list string :=
  ["proved"; "base-insufficient"; "lookup_failed"; "model"; "not_triggered"; "not_attempted:budget"; "unclassified"].

Definition NATURE : list (string * string) :=
  [("no_output:crash", "harness-infra"); ("no_build:path", "harness-infra"); ("no_build:toolchain", "harness-infra");
   ("no_build:infra", "harness-infra"); ("repair_exhausted:resolvable", "harness-infra");
   ("no_output:model", "synth-model"); ("no_build:code", "synth-model"); ("repair_exhausted:unresolvable", "synth-model");
   ("base-insufficient", "harness-infra"); ("lookup_failed", "model"); ("model", "model")].

Definition OK_CAUSES : list string := ["synthesized"; "proved"].
Definition NOT_IN_DENOM : list string := ["not_attempted:budget"].

Definition cause_nature (cause : string) : option string := assoc cause NATURE.
Definition is_ok (cause : string) : bool := bool_decide (cause ∈ OK_CAUSES).
Definition in_denominator (cause : string) : bool := negb (bool_decide (cause ∈ NOT_IN_DENOM)).

Definition classify_build_failure (blob : string) : string :=
  let b := lower blob in
  if (contains "no compiler versions" b && contains "available" b) || contains "no solc version" b then "no_build:toolchain"
  else if contains "not found" b && (contains "searched:" b || contains "source" b) then "no_build:path"
  else "no_build:code".

(** ** scaffold_taxonomy.py *)

Definition LEGACY_SCAFFOLD : list string :=
  ["scaffold_synthesis_failed"; "scaffold_synthesized"; "scaffold_insufficient"; "scaffold_repair"; "scaffold_repair_exhausted"].
Definition is_legacy (event : pyval) : bool := bool_decide (event ∈ map PStr LEGACY_SCAFFOLD).
Definition NATURES : list string := ["harness-infra"; "synth-model"; "model"].

Definition fold_nature (finding_cause : string) (synth_causes : list string) : option string :=
  if is_ok finding_cause then None
  else match last (List.filter (fun c => negb (is_ok c)) synth_causes) with
       | Some c => cause_nature c
       | None => cause_nature finding_cause
       end.

(** A [Counter] and a [defaultdict] of them, in insertion order *)
Definition Counter : Type := list (string * nat).
Definition count_of (k : string) (c : Counter) : nat := default 0 (assoc k c).
Definition incr (k : string) (c : Counter) : Counter := assoc_set k (S (count_of k c)) c.
Definition incr_in (m : pyval) (k : string) (d : list (pyval * Counter)) : list (pyval * Counter) :=
  assoc_set m (incr k (default [] (assoc m d))) d.

Definition Key : Type := pyval * pyval.

Record tally := mkTally {
  unattributed : nat;
  synthesis_counts : Counter;
  finding_counts : Counter;
  by_model_synth : list (pyval * Counter);
  by_model_find : list (pyval * Counter);
  by_class_find : list (pyval * Counter);
  synth_by_finding : list (Key * list string);
  finding_terminal : list (Key * string);
}.

Definition tally0 : tally := mkTally 0 [] [] [] [] [] [] [].

Definition one_unattributed (t : tally) : tally :=
  mkTally (S (unattributed t)) (synthesis_counts t) (finding_counts t) (by_model_synth t) (by_model_find t)
    (by_class_find t) (synth_by_finding t) (finding_terminal t).

(** [cause in <frozenset of str>] hashes the value *)
Definition closed_cause (causes : list string) (cause : pyval) : res string :=
  c ← hashable cause;
  Ok (match c with PStr s => if bool_decide (s ∈ causes) then s else "unclassified" | _ => "unclassified" end).

Definition add_synthesis (model : pyval) (key : Key) (cause : string) (t : tally) : tally :=
  mkTally (unattributed t) (incr cause (synthesis_counts t)) (finding_counts t) (incr_in model cause (by_model_synth t))
    (by_model_find t) (by_class_find t)
    (assoc_set key (default [] (assoc key (synth_by_finding t)) ++ [cause]) (synth_by_finding t)) (finding_terminal t).

Definition add_finding (model cls : pyval) (key : Key) (cause : string) (t : tally) : tally :=
  mkTally (unattributed t) (synthesis_counts t) (incr cause (finding_counts t)) (by_model_synth t)
    (incr_in model cause (by_model_find t))
    (if truthy_val cls then incr_in cls cause (by_class_find t) else by_class_find t)
    (synth_by_finding t) (assoc_set key cause (finding_terminal t)).

Definition event_step (t : tally) (e : pyval) : res tally :=
  rid ← pget e "run_id" PNone;
  model ← pget e "model" PNone;
  terminal ← pget e "terminal" PNone;
  let unplaced := negb (truthy_val rid) || negb (truthy_val model) in
  if negb (truthy_val terminal) then
    ev ← pget e "event" PNone;
    ev ← hashable ev;
    Ok (if is_legacy ev && unplaced then one_unattributed t else t)
  else if unplaced then Ok (one_unattributed t)
  else
    level ← pget e "level" PNone;
    cause ← pget e "cause" PNone;
    fid ← pget e "finding_id" PNone;
    if bool_decide (level = PStr "synthesis_attempt") then
      cause ← closed_cause SYNTHESIS_CAUSES cause;
      _ ← hashable model; _ ← hashable rid; _ ← hashable fid;
      Ok (add_synthesis model (rid, fid) cause t)
    else if bool_decide (level = PStr "finding_attempt") then
      cause ← closed_cause FINDING_CAUSES cause;
      _ ← hashable model;
      cls ← pget e "finding_class" PNone;
      _ ← (if truthy_val cls then hashable cls else Ok cls);
      _ ← hashable rid; _ ← hashable fid;
      Ok (add_finding model cls (rid, fid) cause t)
    else Ok t.

Fixpoint run_events (t : tally) (events : list pyval) : res tally :=
  match events with [] => Ok t | e :: events' => t ← event_step t e; run_events t events' end.

Record Taxonomy := mkTaxonomy {
  tx_queued : nat;
  tx_attempted : nat;
  tx_truncated : bool;
  tx_synthesis_counts : Counter;
  tx_finding_counts : Counter;
  tx_by_model : list (pyval * (Counter * Counter));
  tx_by_class : list (pyval * Counter);
  tx_nature_share : option (list (string * (nat * nat)));
  tx_unattributed : nat;
}.

Definition nature_of (t : tally) (kc : Key * string) : option string :=
  if in_denominator kc.2 then fold_nature kc.2 (default [] (assoc kc.1 (synth_by_finding t))) else None.

Definition nature_counts (t : tally) : Counter :=
  fold_left (fun c kc => match nature_of t kc with Some n => if truthy n then incr n c else c | None => c end)
    (finding_terminal t) [].

(** The keys of one mapping and then the new ones of the other: a set's order is not
    specified *)
Definition union_keys (a b : list (pyval * Counter)) : list pyval :=
  a.*1 ++ List.filter (fun k => negb (bool_decide (k ∈ a.*1))) (b.*1).

Definition report (t : tally) (allow_truncated : bool) : Taxonomy :=
  let queued := length (finding_terminal t) in
  let attempted := length (List.filter (fun kc => in_denominator kc.2) (finding_terminal t)) in
  let truncated := attempted <? queued in
  mkTaxonomy queued attempted truncated (synthesis_counts t) (finding_counts t)
    (map (fun m => (m, (default [] (assoc m (by_model_synth t)), default [] (assoc m (by_model_find t)))))
       (union_keys (by_model_synth t) (by_model_find t)))
    (by_class_find t)
    (if truncated && negb allow_truncated then None
     else Some (map (fun n => (n, (count_of n (nature_counts t), if attempted =? 0 then 1 else attempted))) NATURES))
    (unattributed t).

Definition classify (events : list pyval) (allow_truncated : bool) : res Taxonomy :=
  t ← run_events tally0 events; Ok (report t allow_truncated).

Example classify_toolchain :
  classify_build_failure "Error: Found Solidity sources, but No compiler versions are available; not found" = "no_build:toolchain".
Proof. vm_compute. reflexivity. Qed.

(** ** What the report says of a log *)

Definition field (e : pyval) (k : string) : pyval := default PNone (dget e k).
Definition unplaced (e : pyval) : bool := negb (truthy_val (field e "run_id")) || negb (truthy_val (field e "model")).
Definition is_terminal (e : pyval) : bool := truthy_val (field e "terminal").
Definition key_of (e : pyval) : Key := (field e "run_id", field e "finding_id").
Definition closed (causes : list string) (c : pyval) : string :=
  match c with PStr s => if bool_decide (s ∈ causes) then s else "unclassified" | _ => "unclassified" end.

(** The attributed terminal events of a level, with the cause they count for *)
Definition attempt (level : string) (causes : list string) (e : pyval) : option (Key * string) :=
  if is_terminal e && negb (unplaced e) && bool_decide (field e "level" = PStr level)
  then Some (key_of e, closed causes (field e "cause")) else None.
Definition synthesis_of : pyval -> option (Key * string) := attempt "synthesis_attempt" SYNTHESIS_CAUSES.
Definition finding_of : pyval -> option (Key * string) := attempt "finding_attempt" FINDING_CAUSES.

Definition lacks_attribution (e : pyval) : bool :=
  unplaced e && (is_terminal e || is_legacy (field e "event")).

(** The causes recorded for a finding, in order, and its final verdict *)
Definition causes_at (f : pyval -> option (Key * string)) (k : Key) (events : list pyval) : list string :=
  omap (fun kc : Key * string => if decide (kc.1 = k) then Some kc.2 else None) (omap f events).
Definition verdict (events : list pyval) (k : Key) : string := default "" (last (causes_at finding_of k events)).
Definition nature (events : list pyval) (k : Key) : option string :=
  if in_denominator (verdict events k) then fold_nature (verdict events k) (causes_at synthesis_of k events) else None.

(** The events in no count: the attributed terminal events of no known level, and the
    events that are not terminal but for the legacy ones that lack attribution *)
Definition uncounted (e : pyval) : bool :=
  if is_terminal e then negb (unplaced e) && negb (bool_decide (field e "level" ∈ [PStr "synthesis_attempt"; PStr "finding_attempt"]))
  else negb (is_legacy (field e "event") && unplaced e).

(** The attempts under the model, or the class unless there is none *)
Definition under_model (f : pyval -> option (Key * string)) (e : pyval) : option (pyval * string) :=
  kc ← f e; Some (field e "model", kc.2).
Definition under_class (e : pyval) : option (pyval * string) :=
  if truthy_val (field e "finding_class") then kc ← finding_of e; Some (field e "finding_class", kc.2) else None.

(** The counter of a list: each value once, with the number of its occurrences *)
Definition occurrences (k : string) (l : list string) : nat := length (List.filter (String.eqb k) l).
Definition counts (l : list string) (c : Counter) : Prop :=
  NoDup c.*1 /\ forall k n, (k, n) ∈ c <-> n = occurrences k l /\ 0 < n.

(** The counters of a list by what its values are under *)
Definition at_key (m : pyval) (l : list (pyval * string)) : list string :=
  omap (fun mk : pyval * string => if decide (mk.1 = m) then Some mk.2 else None) l.
Definition counts_by (l : list (pyval * string)) (d : list (pyval * Counter)) : Prop :=
  NoDup d.*1 /\ (forall m, m ∈ d.*1 <-> m ∈ l.*1) /\ forall m, counts (at_key m l) (default [] (assoc m d)).

(** ** Lemmas *)

Lemma occurrences_snoc k l k' : occurrences k (l ++ [k']) = occurrences k l + (if decide (k = k') then 1 else 0).
Proof.
  unfold occurrences. rewrite List.filter_app, length_app. f_equal. cbn.
  destruct (decide (k = k')) as [->|Hn]; [by rewrite String.eqb_refl|]. by apply String.eqb_neq in Hn as ->.
Qed.

Lemma counts_count l c k : counts l c -> count_of k c = occurrences k l.
Proof.
  intros [Hnd Hc]. unfold count_of. destruct (assoc k c) as [n|] eqn:E; cbn.
  - apply assoc_Some_elem, Hc in E. tauto.
  - destruct (occurrences k l) as [|n] eqn:Ho; [done|]. assert ((k, S n) ∈ c) as Hin by (apply Hc; split; [done|lia]).
    apply assoc_NoDup_elem in Hin; [|done]. congruence.
Qed.

Lemma counts_incr l c k : counts l c -> counts (l ++ [k]) (incr k c).
Proof.
  intros Hlc. pose proof Hlc as [Hnd Hc]. split; [by apply NoDup_assoc_set|]. intros k' n.
  assert (NoDup (incr k c).*1) as Hnd' by by apply NoDup_assoc_set.
  rewrite occurrences_snoc. unfold incr in *. rewrite <- (counts_count _ _ k' Hlc).
  transitivity (assoc k' (assoc_set k (S (count_of k c)) c) = Some n).
  { split; [by apply assoc_NoDup_elem|apply assoc_Some_elem]. }
  destruct (decide (k' = k)) as [->|Hne]; [rewrite assoc_set_eq; split; [intros [= <-]|intros [-> _]; f_equal]; lia|].
  rewrite assoc_set_ne by congruence. rewrite Nat.add_0_r. unfold count_of. split.
  - intros E. rewrite E. split; [done|]. apply assoc_Some_elem, Hc in E. tauto.
  - intros [-> Hn]. destruct (assoc k' c); [done|]. cbn in Hn. lia.
Qed.

Lemma at_key_snoc m l mk : at_key m (l ++ [mk]) = at_key m l ++ (if decide (mk.1 = m) then [mk.2] else []).
Proof. unfold at_key. rewrite omap_app. f_equal. cbn. by destruct (decide _). Qed.

Lemma counts_by_incr l d m k : counts_by l d -> counts_by (l ++ [(m, k)]) (incr_in m k d).
Proof.
  intros (Hnd & Hk & Hc). unfold incr_in. split_and!; [by apply NoDup_assoc_set| |].
  - intros m'. rewrite fmap_app, elem_of_app, <- Hk, <- !assoc_keys. cbn [assoc fmap list_fmap fst].
    destruct (decide (m' = m)) as [->|Hne]; [rewrite assoc_set_eq; split; eauto|].
    rewrite assoc_set_ne by congruence. split; [auto|]. by intros [?|[??]].
  - intros m'. rewrite at_key_snoc. cbn [fst snd]. destruct (decide (m = m')) as [->|Hne].
    + rewrite assoc_set_eq. apply counts_incr, Hc.
    + rewrite assoc_set_ne by congruence. rewrite app_nil_r. apply Hc.
Qed.

Lemma counts_nil : counts [] [].
Proof. split; [apply NoDup_nil_2|]. intros k n. rewrite elem_of_nil. cbn. split; [done|lia]. Qed.
Lemma counts_by_nil : counts_by [] [].
Proof. split_and!; [apply NoDup_nil_2|done|]. intros m. apply counts_nil. Qed.

Lemma count_incr k k' c : count_of k' (incr k c) = count_of k' c + (if decide (k = k') then 1 else 0).
Proof.
  unfold incr, count_of. destruct (decide (k = k')) as [->|Hn]; [rewrite assoc_set_eq; cbn; lia|].
  rewrite assoc_set_ne by done. lia.
Qed.

Lemma pget_field e k r : pget e k PNone = Ok r -> r = field e k.
Proof. destruct e; try discriminate. by intros [= <-]. Qed.

Lemma hashable_Ok v w : hashable v = Ok w -> w = v.
Proof. by destruct v; intros [= <-]. Qed.

Lemma closed_cause_Ok causes c s : closed_cause causes c = Ok s -> s = closed causes c.
Proof. intros (c' & ->%hashable_Ok & [= <-])%res_bind_Ok. done. Qed.

(** The outcome of a step, by the kind of event *)
Lemma event_step_Ok t e t' :
  event_step t e = Ok t' ->
  (lacks_attribution e = true /\ synthesis_of e = None /\ finding_of e = None /\ t' = one_unattributed t) \/
  (lacks_attribution e = false /\ exists c, synthesis_of e = Some (key_of e, c) /\ finding_of e = None /\
     t' = add_synthesis (field e "model") (key_of e) c t) \/
  (lacks_attribution e = false /\ exists c, synthesis_of e = None /\ finding_of e = Some (key_of e, c) /\
     t' = add_finding (field e "model") (field e "finding_class") (key_of e) c t) \/
  (lacks_attribution e = false /\ synthesis_of e = None /\ finding_of e = None /\ t' = t).
Proof.
  unfold event_step. intros (rid & ->%pget_field & (m & ->%pget_field & (tm & ->%pget_field & He)%res_bind_Ok)%res_bind_Ok)%res_bind_Ok.
  cbv zeta in He. unfold lacks_attribution, synthesis_of, finding_of, attempt. fold (unplaced e) in He. fold (is_terminal e) in He.
  destruct (is_terminal e); cbn [negb andb orb] in *.
  2: { apply res_bind_Ok in He as (ev & ->%pget_field & (ev' & ->%hashable_Ok & [= <-])%res_bind_Ok).
       destruct (is_legacy (field e "event")), (unplaced e); [by left|by do 3 right..]. }
  destruct (unplaced e); cbn [negb andb]; [injection He as <-; by left|right].
  apply res_bind_Ok in He as (lv & ->%pget_field & (c & ->%pget_field & (f & ->%pget_field & He)%res_bind_Ok)%res_bind_Ok).
  destruct (bool_decide_reflect (field e "level" = PStr "synthesis_attempt")) as [Hl|Hl].
  - left. apply res_bind_Ok in He as (c' & ->%closed_cause_Ok & (? & _ & (? & _ & (? & _ & [= <-])%res_bind_Ok)%res_bind_Ok)%res_bind_Ok).
    split; [done|]. eexists. split; [done|]. rewrite Hl. by split.
  - right. destruct (bool_decide_reflect (field e "level" = PStr "finding_attempt")) as [Hl'|Hl'].
    + left. apply res_bind_Ok in He as (c' & ->%closed_cause_Ok & (? & _ & (cls & ->%pget_field & (? & _ & (? & _ & (? & _ & [= <-])%res_bind_Ok)%res_bind_Ok)%res_bind_Ok)%res_bind_Ok)%res_bind_Ok).
      split; [done|]. by eexists.
    + right. injection He as <-. done.
Qed.

(** What a tally holds of the events run so far *)
Record tallied (events : list pyval) (t : tally) : Prop := {
  ta_unattributed : unattributed t = length (List.filter lacks_attribution events);
  ta_synthesis : counts (omap synthesis_of events).*2 (synthesis_counts t);
  ta_finding : counts (omap finding_of events).*2 (finding_counts t);
  ta_model_synth : counts_by (omap (under_model synthesis_of) events) (by_model_synth t);
  ta_model_find : counts_by (omap (under_model finding_of) events) (by_model_find t);
  ta_class_find : counts_by (omap under_class events) (by_class_find t);
  ta_synth k : default [] (assoc k (synth_by_finding t)) = causes_at synthesis_of k events;
  ta_terminal k : assoc k (finding_terminal t) = last (causes_at finding_of k events);
  ta_keys : NoDup (finding_terminal t).*1;
}.

Lemma causes_at_snoc f k events e :
  causes_at f k (events ++ [e]) =
  causes_at f k events ++ match f e with Some kc => if decide (kc.1 = k) then [kc.2] else [] | None => [] end.
Proof. unfold causes_at. rewrite !omap_app. f_equal. cbn. destruct (f e) as [[k' c]|]; [|done]. cbn. by destruct (decide _). Qed.

Lemma omap_snoc {B} (f : pyval -> option B) events e :
  omap f (events ++ [e]) = omap f events ++ match f e with Some x => [x] | None => [] end.
Proof. rewrite omap_app. done. Qed.

Lemma count_snoc (p : pyval -> bool) events e :
  length (List.filter p (events ++ [e])) = length (List.filter p events) + (if p e then 1 else 0).
Proof. rewrite List.filter_app, length_app. f_equal. cbn. by destruct (p e). Qed.

Lemma tallied_step events t e t' : tallied events t -> event_step t e = Ok t' -> tallied (events ++ [e]) t'.
Proof.
  intros [H1 H2 H3 Hms Hmf Hcf H4 H5 H6] He. apply event_step_Ok in He.
  destruct He as [(Hu & Hs & Hf & ->)|[(Hu & c & Hs & Hf & ->)|[(Hu & c & Hs & Hf & ->)|(Hu & Hs & Hf & ->)]]];
    (split; [rewrite count_snoc, Hu; cbn [unattributed one_unattributed add_synthesis add_finding]; lia|..|intros k|intros k|]);
    rewrite ?omap_snoc, ?causes_at_snoc; unfold under_model, under_class; rewrite ?Hs, ?Hf, ?app_nil_r;
    cbn [add_synthesis add_finding one_unattributed synthesis_counts finding_counts by_model_synth by_model_find by_class_find
      synth_by_finding finding_terminal option_bind mbind fst snd];
    rewrite ?fmap_app; try match goal with |- context [truthy_val ?x] => destruct (truthy_val x) end; rewrite ?app_nil_r; try done;
    try by (apply counts_incr || apply counts_by_incr).
  - rewrite <- H4. destruct (decide (key_of e = k)) as [->|Hn]; [by rewrite assoc_set_eq|by rewrite assoc_set_ne, app_nil_r].
  - destruct (decide (key_of e = k)) as [->|Hn]; [by rewrite assoc_set_eq, last_snoc|by rewrite assoc_set_ne, app_nil_r].
  - by apply NoDup_assoc_set.
Qed.

Lemma tallied_run events0 events t t' :
  tallied events0 t -> run_events t events = Ok t' -> tallied (events0 ++ events) t'.
Proof.
  revert events0 t. induction events as [|e events IH]; intros events0 t Ht; cbn.
  { intros [= <-]. by rewrite app_nil_r. }
  intros (t1 & He & Hr)%res_bind_Ok. change (e :: events) with ([e] ++ events). rewrite app_assoc.
  eapply IH; [|done]. by eapply tallied_step.
Qed.

Lemma nature_counts_fold t l c n :
  n <> "" ->
  count_of n (fold_left (fun c kc => match nature_of t kc with Some n => if truthy n then incr n c else c | None => c end) l c) =
  count_of n c + length (List.filter (fun kc => bool_decide (nature_of t kc = Some n)) l).
Proof.
  intros Hn. revert c. induction l as [|kc l IH]; intros c; cbn [fold_left List.filter length]; [lia|]. rewrite IH.
  destruct (nature_of t kc) as [m|]; [|by rewrite bool_decide_false].
  destruct (bool_decide_reflect (Some m = Some n)) as [[= ->]|Hm]; cbn [length].
  - destruct n as [|a n]; [done|]. cbn [truthy]. rewrite count_incr, decide_True by done. lia.
  - destruct (truthy m); [|lia]. rewrite count_incr. destruct (decide (m = n)) as [->|]; [done|lia].
Qed.

Lemma filter_keys (p : Key * string -> bool) (q : Key -> bool) l :
  (forall kc, kc ∈ l -> p kc = q kc.1) -> length (List.filter p l) = length (List.filter q l.*1).
Proof.
  induction l as [|kc l IH]; intros Hpq; [done|]. cbn. rewrite (Hpq kc) by left.
  destruct (q kc.1); cbn; rewrite IH; try done; intros; apply Hpq; by right.
Qed.

Lemma terminal_verdict events t kc : tallied events t -> kc ∈ finding_terminal t -> kc.2 = verdict events kc.1.
Proof.
  intros Ht Hin. unfold verdict. rewrite <- (ta_terminal _ _ Ht). destruct kc as [k c].
  by rewrite (assoc_NoDup_elem k c) by (done || apply Ht).
Qed.

Lemma causes_at_nonempty f k events : causes_at f k events <> [] <-> exists c, (k, c) ∈ omap f events.
Proof.
  unfold causes_at. split.
  - intros Hn. destruct (omap _ (omap f events)) as [|c l] eqn:Ho; [done|].
    assert (c ∈ omap (fun kc : Key * string => if decide (kc.1 = k) then Some kc.2 else None) (omap f events)) as Hin by (rewrite Ho; left).
    apply list_elem_of_omap in Hin as ([k' c'] & Hin & Hd). cbn in Hd. destruct (decide (k' = k)) as [->|]; [|done]. eauto.
  - intros (c & Hin) Hn. assert (c ∈ []) as Hc; [|by apply elem_of_nil in Hc]. rewrite <- Hn.
    apply list_elem_of_omap. exists (k, c). split; [done|]. cbn. by rewrite decide_True.
Qed.

Lemma fold_nature_natures f cs n : fold_nature f cs = Some n -> n ∈ NATURES.
Proof.
  unfold fold_nature. destruct (is_ok f); [done|].
  assert (forall c, cause_nature c = Some n -> n ∈ NATURES) as Hn.
  { intros c Hc%assoc_Some_elem%(list_elem_of_fmap_2 snd). apply list_elem_of_In in Hc. apply list_elem_of_In. cbn in Hc |- *. clear -Hc. tauto. }
  case_match; apply Hn.
Qed.

Lemma truncated_iff events t : tallied events t ->
  length (List.filter (fun kc => in_denominator kc.2) (finding_terminal t)) < length (finding_terminal t) <->
  exists k, k ∈ (finding_terminal t).*1 /\ verdict events k = "not_attempted:budget".
Proof.
  intros Ht. assert (forall l : list (Key * string), length (List.filter (fun kc => in_denominator kc.2) l) < length l <->
    exists kc, kc ∈ l /\ kc.2 = "not_attempted:budget") as Hl.
  { induction l as [|kc l IH]; [split; [cbn; lia|by intros (? & ?%elem_of_nil & _)]|].
    cbn. pose proof (List.filter_length_le (fun kc : Key * string => in_denominator kc.2) l) as Hle.
    destruct (in_denominator kc.2) eqn:Hd; cbn.
    - rewrite <- Nat.succ_lt_mono, IH. split; intros (kc' & Hin & Hc); exists kc'; (split; [|done]); [by right|].
      apply elem_of_cons in Hin as [->|Hin]; [|done]. rewrite Hc in Hd. discriminate Hd.
    - split; [|lia]. intros _. exists kc. split; [left|]. unfold in_denominator in Hd.
      apply negb_false_iff, bool_decide_eq_true in Hd. by apply list_elem_of_singleton in Hd. }
  rewrite Hl. split.
  - intros (kc & Hin & Hc). exists kc.1. split; [by apply list_elem_of_fmap_2|]. by rewrite <- (terminal_verdict _ _ _ Ht Hin).
  - intros (k & Hin & Hv). apply list_elem_of_fmap in Hin as (kc & -> & Hin). exists kc. split; [done|].
    by rewrite (terminal_verdict _ _ _ Ht Hin).
Qed.

(** Each finding counts for one nature at most *)
Lemma natures_sum (g : Key -> option string) (d : Key -> bool) keys :
  (forall k n, g k = Some n -> d k = true) ->
  sum_list (map (fun n => length (List.filter (fun k => bool_decide (g k = Some n)) keys)) NATURES) <= length (List.filter d keys).
Proof.
  intros Hg. induction keys as [|k keys IH]; [cbn; lia|]. cbn [List.filter]. specialize (Hg k).
  unfold NATURES in *. cbn [map sum_list sum_list_with] in *. unfold id in *.
  destruct (g k) as [n|].
  2: { rewrite !bool_decide_false by done. destruct (d k); cbn [length]; lia. }
  rewrite (Hg n eq_refl). cbn [length].
  destruct (bool_decide_reflect (Some n = Some "harness-infra")), (bool_decide_reflect (Some n = Some "synth-model")),
    (bool_decide_reflect (Some n = Some "model")); cbn [length]; first [lia|congruence].
Qed.

Lemma map_keys {A B} (f : A -> B) l : (map (fun m => (m, f m)) l).*1 = l.
Proof. induction l as [|m l IH]; [done|]. csimpl. by rewrite IH. Qed.

(** The model's part of the report, from the tallies *)
Lemma union_keys_spec a b : NoDup a.*1 -> NoDup b.*1 ->
  NoDup (union_keys a b) /\ forall m, m ∈ union_keys a b <-> m ∈ a.*1 \/ m ∈ b.*1.
Proof.
  intros Ha Hb. unfold union_keys. assert (forall m, m ∈ List.filter (fun k => negb (bool_decide (k ∈ a.*1))) (b.*1) <-> (m ∉ a.*1) /\ m ∈ b.*1) as Hf.
  { intros m. rewrite list_elem_of_In, filter_In, <- list_elem_of_In, negb_true_iff, bool_decide_eq_false. tauto. }
  split.
  - apply NoDup_app. split; [done|]. split; [intros m Hm [? _]%Hf; done|]. apply NoDup_ListNoDup, List.NoDup_filter, NoDup_ListNoDup, Hb.
  - intros m. rewrite elem_of_app, Hf. destruct (decide (m ∈ a.*1)); tauto.
Qed.

(** An event is counted once or not at all *)
Lemma events_partition events :
  length events = length (List.filter lacks_attribution events) + length (omap synthesis_of events) +
    length (omap finding_of events) + length (List.filter uncounted events).
Proof.
  induction events as [|e events IH]; [done|]. cbn [List.filter omap list_omap length].
  assert (match lacks_attribution e, synthesis_of e, finding_of e, uncounted e with
    | true, None, None, false | false, Some _, None, false | false, None, Some _, false | false, None, None, true => True | _, _, _, _ => False end) as H.
  { unfold lacks_attribution, synthesis_of, finding_of, attempt, uncounted.
    destruct (is_terminal e), (unplaced e); cbn; try done; try by destruct (is_legacy _).
    repeat case_bool_decide; try done; rewrite ?elem_of_cons, ?elem_of_nil in *; first [congruence|tauto]. }
  destruct (lacks_attribution e), (synthesis_of e), (finding_of e), (uncounted e); try done; cbn [length]; lia.
Qed.

(** C38. The report is honest about its log.  Every event is one of these: without
    attribution, and counted as such; an attributed synthesis or finding attempt, and
    counted once; or of neither kind, an attributed terminal event of another level or an
    event that is not terminal, and in no count.  An attempt counts for its cause, or for
    [unclassified] outside the closed set: the totals, those under each model and those of
    the findings under each class are exactly the numbers of the attempts with that
    cause.  A finding is queued once, under its last verdict, and attempted unless that is
    a budget cut; a run cut by the budget is reported truncated and its shares withheld
    unless asked for; and the share of a nature counts exactly the attempted findings
    whose root author it is, no finding twice. *)
Theorem classify_accounts events allow tx (Hc : classify events allow = Ok tx) :
  length events = tx_unattributed tx + length (omap synthesis_of events) + length (omap finding_of events) + length (List.filter uncounted events) /\
  tx_unattributed tx = length (List.filter lacks_attribution events) /\
  counts (omap synthesis_of events).*2 (tx_synthesis_counts tx) /\
  counts (omap finding_of events).*2 (tx_finding_counts tx) /\
  NoDup (tx_by_model tx).*1 /\
  (forall m, m ∈ (tx_by_model tx).*1 <-> m ∈ (omap (under_model synthesis_of) events).*1 \/ m ∈ (omap (under_model finding_of) events).*1) /\
  (forall m s f, (m, (s, f)) ∈ tx_by_model tx ->
     counts (at_key m (omap (under_model synthesis_of) events)) s /\ counts (at_key m (omap (under_model finding_of) events)) f) /\
  counts_by (omap under_class events) (tx_by_class tx) /\
  exists keys, NoDup keys /\ (forall k, k ∈ keys <-> exists c, (k, c) ∈ omap finding_of events) /\
    tx_queued tx = length keys /\
    tx_attempted tx = length (List.filter (fun k => in_denominator (verdict events k)) keys) /\
    (tx_truncated tx = true <-> exists k, k ∈ keys /\ verdict events k = "not_attempted:budget") /\
    match tx_nature_share tx with
    | None => tx_truncated tx = true /\ allow = false
    | Some share =>
        (tx_truncated tx = false \/ allow = true) /\
        share = map (fun n => (n, (length (List.filter (fun k => bool_decide (nature events k = Some n)) keys), Nat.max 1 (tx_attempted tx)))) NATURES /\
        sum_list (map (fun s => s.2.1) share) <= tx_attempted tx
    end.
Proof.
  apply res_bind_Ok in Hc as (t & Hr & [= <-]).
  assert (tallied events t) as Ht.
  { apply (tallied_run [] events tally0); [|done]. split; try done; try apply counts_nil; try apply counts_by_nil. apply NoDup_nil_2. }
  pose proof Ht as [H1 H2 H3 Hms Hmf Hcf H4 H5 H6].
  unfold report. cbn [tx_unattributed tx_synthesis_counts tx_finding_counts tx_by_model tx_by_class tx_queued tx_attempted tx_truncated tx_nature_share].
  destruct (union_keys_spec (by_model_synth t) (by_model_find t)) as [Hnd Hkeys]; [apply Hms|apply Hmf|].
  split; [rewrite H1; apply events_partition|]. do 3 (split; [done|]).
  rewrite map_keys.
  split; [done|]. split; [intros m; rewrite Hkeys; destruct Hms as (_ & -> & _), Hmf as (_ & -> & _); tauto|].
  split; [intros m s f (? & [= <- <- <-] & _)%list_elem_of_In%in_map_iff|split; [done|]]; [split; [apply Hms|apply Hmf]|].
  exists (finding_terminal t).*1.
  assert (length (List.filter (fun kc => in_denominator kc.2) (finding_terminal t)) =
          length (List.filter (fun k => in_denominator (verdict events k)) (finding_terminal t).*1)) as Hatt.
  { apply filter_keys. intros kc Hin. by rewrite (terminal_verdict _ _ _ Ht Hin). }
  assert (forall n, n <> "" -> count_of n (nature_counts t) =
          length (List.filter (fun k => bool_decide (nature events k = Some n)) (finding_terminal t).*1)) as Hnat.
  { intros n Hn. unfold nature_counts. rewrite nature_counts_fold by done. apply filter_keys. intros kc Hin.
    unfold nature_of, nature. by rewrite (terminal_verdict _ _ _ Ht Hin), H4. }
  split_and!; [done| |by rewrite length_fmap|done|rewrite Nat.ltb_lt; by apply truncated_iff|].
  - intros k. rewrite <- assoc_keys, H5, last_is_Some. apply causes_at_nonempty.
  - assert (forall att, map (fun n => (n, (count_of n (nature_counts t), if att =? 0 then 1 else att))) NATURES =
      map (fun n => (n, (length (List.filter (fun k => bool_decide (nature events k = Some n)) (finding_terminal t).*1), Nat.max 1 att))) NATURES) as Hshare.
    { intros att. unfold NATURES. cbn [map]. rewrite !Hnat by done. by destruct att. }
    rewrite Hshare. destruct (_ <? _); cbn [andb negb]; [destruct allow; cbn [negb]; [|done]|].
    all: split; [auto|]; split; [done|]; rewrite Hatt, map_map; cbn [fst snd]; apply natures_sum.
    all: intros k n; unfold nature; by destruct (in_denominator _).
Qed.

(** A failed synthesis attempt charges the finding even when a later one succeeded and
    the base did arrive. *)
Lemma retry_charged_to_synthesis :
  fold_nature "model" ["no_output:model"; "synthesized"] = Some "synth-model" /\ cause_nature "model" = Some "model".
Proof. done. Qed.

(** ** The closed sets *)

(** Every cause of the closed sets has a nature but for the successes and the three
    that are charged to no one, and a build failure is always one of them. *)
Lemma cause_sets_closed :
  Forall (fun c => cause_nature c = None <-> is_ok c = true \/ c ∈ ["not_triggered"; "not_attempted:budget"; "unclassified"])
    (SYNTHESIS_CAUSES ++ FINDING_CAUSES) /\
  Forall (fun kn => kn.1 ∈ SYNTHESIS_CAUSES ++ FINDING_CAUSES /\ kn.2 ∈ NATURES) NATURE /\
  (forall blob, classify_build_failure blob ∈ SYNTHESIS_CAUSES /\ is_Some (cause_nature (classify_build_failure blob))).
Proof.
  split; [apply (bool_decide_unpack _); vm_compute; exact I|].
  split; [apply (bool_decide_unpack _); vm_compute; exact I|].
  intros blob. unfold classify_build_failure. cbv zeta. repeat case_match;
    (split; [apply (bool_decide_unpack _); vm_compute; exact I|by eexists]).
Qed.

Definition demo_log : list pyval :=
  let e l := PDict (("run_id", PStr "r") :: ("model", PStr "m") :: ("terminal", PBool true) :: map (fun kv => (kv.1, PStr kv.2)) l) in
  [e [("level", "synthesis_attempt"); ("cause", "no_build:path"); ("finding_id", "F-1")];
   e [("level", "finding_attempt"); ("cause", "model"); ("finding_id", "F-1")];
   e [("level", "finding_attempt"); ("cause", "proved"); ("finding_id", "F-2"); ("finding_class", "accounting")];
   PDict [("event", PStr "scaffold_repair")]].

Lemma classify_accounts_witness :
  exists tx, classify demo_log false = Ok tx /\ tx_unattributed tx = 1 /\ tx_queued tx = 2 /\
    tx_nature_share tx = Some [("harness-infra", (1, 2)); ("synth-model", (0, 2)); ("model", (0, 2))] /\
    exists keys : list Key, NoDup keys /\ tx_queued tx = length keys.
Proof.
  exists (report (match run_events tally0 demo_log with Ok t => t | Raise _ => tally0 end) false).
  do 4 (split; [vm_compute; reflexivity|]).
  destruct (classify_accounts demo_log false (report (match run_events tally0 demo_log with Ok t => t | Raise _ => tally0 end) false)
              ltac:(vm_compute; reflexivity)) as (_ & _ & _ & _ & _ & _ & _ & _ & keys & Hnd & _ & Hq & _).
  exists keys. split; [exact Hnd|exact Hq].
Defined.
