(* ===== verification/SolIndex.v ===== *)
(** * The Solidity symbol index (audit_agent/proof/solidity_index.py)

    The index built from the parse trees of a project, its rendering of declarations,
    its lookups and its inheritance queries.  A parse tree is a decoded dynamic value;
    the parser is a parameter.  Names are strings, as the grammar gives them. *)

From S2P Require Import Prelude PyStr PyPath PyVal PyRe Session Stage1 StaticAnalysis Worklist.

Record Symbol := mkSymbol {
  sy_name : string;
  sy_kind : string;
  sy_contract : string;
  sy_file : path;
  sy_definition : string;
  sy_modifiers : list string;
  sy_visibility : string;
}.

(** ** Rendering *)

(** [v.get(k)] *)
Definition get (v : pyval) (k : string) : res pyval := pget v k PNone.

(** [_type_str]; [fuel] bounds the nesting of the type *)
Fixpoint type_str (fuel : nat) (node : pyval) : res pyval :=
  match fuel with
  | 0 => Raise (Exn "RecursionError" "maximum recursion depth exceeded")
  | S fuel' =>
      match node with
      | PNone => Ok (PStr "?")
      | _ =>
          t ← get node "type";
          if bool_decide (t = PStr "ElementaryTypeName") then pget node "name" (PStr "?")
          else if bool_decide (t = PStr "UserDefinedTypeName") then pget node "namePath" (PStr "?")
          else if bool_decide (t = PStr "ArrayTypeName") then
            base ← get node "baseTypeName";
            base ← type_str fuel' base;
            length ← get node "length";
            Ok (PStr (py_str base +:+ "[" +:+ match length with PNone => "" | _ => py_str length end +:+ "]"))
          else if bool_decide (t = PStr "Mapping") then
            key ← get node "keyType";
            key ← type_str fuel' key;
            val ← get node "valueType";
            val ← type_str fuel' val;
            Ok (PStr ("mapping(" +:+ py_str key +:+ " => " +:+ py_str val +:+ ")"))
          else
            name ← get node "name";
            np ← get node "namePath";
            Ok (PStr (py_str (por name (por np (por t (PStr "?"))))))
      end
  end.

Section render.
Context (depth : nat).   (* the interpreter's recursion limit *)

(** [" ".join(parts)] on values that have to be strings *)
Definition join_vals (sep : string) (l : list pyval) : res string := ss ← map_res as_str l; Ok (join sep ss).

Definition param_str (p : pyval) : res string :=
  tn ← get p "typeName";
  ty ← type_str depth tn;
  loc ← get p "storageLocation";
  name ← get p "name";
  join_vals " " (ty :: (if truthy_val loc then [loc] else []) ++ (if truthy_val name then [name] else [])).

Definition params_str (param_list : pyval) : res string :=
  if negb (truthy_val param_list) then Ok ""
  else
    ps ← pget param_list "parameters" (PList []);
    ps ← piter ps;
    ss ← map_res param_str ps;
    Ok (join ", " ss).

(** One modifier invocation *)
Definition arg_str (a : pyval) : res string :=
  name ← get a "name";
  if truthy_val name then Ok (py_str name)
  else
    number ← get a "number";
    if truthy_val number then Ok (py_str number) else ty ← type_str depth a; Ok (py_str ty).

Definition modifier_str (m : pyval) : res pyval :=
  mname ← pget m "name" (PStr "?");
  margs ← get m "arguments";
  let margs := por margs (PList []) in
  if truthy_val margs then
    args ← piter margs;
    ss ← map_res arg_str args;
    Ok (PStr (py_str mname +:+ "(" +:+ join ", " ss +:+ ")"))
  else Ok mname.

Definition render_function (fn : pyval) : res (string * list string * string) :=
  name ← get fn "name";
  ctor ← get fn "isConstructor";
  let name := por name (PStr (if truthy_val ctor then "constructor" else "<fallback/receive>")) in
  ps ← get fn "parameters";
  params ← params_str ps;
  vis ← get fn "visibility";
  let visibility := por vis (PStr "") in
  mutability ← get fn "stateMutability";
  ms ← get fn "modifiers";
  ms ← piter (por ms (PList []));
  mods ← map_res modifier_str ms;
  rp ← get fn "returnParameters";
  ret ← params_str rp;
  tail ← join_vals " " ((if truthy_val visibility then [visibility] else [])
                        ++ (if truthy_val mutability then [mutability] else []) ++ mods);
  let sig := rstrip ("function " +:+ py_str name +:+ "(" +:+ params +:+ ") " +:+ tail) in
  let sig := if truthy ret then sig +:+ " returns (" +:+ ret +:+ ")" else sig in
  mods ← map_res as_str mods;
  visibility ← as_str visibility;
  Ok (sig +:+ ";", mods, visibility).

Definition struct_member (m : pyval) : res string :=
  tn ← get m "typeName";
  ty ← type_str depth tn;
  name ← pget m "name" (PStr "?");
  Ok ("    " +:+ py_str ty +:+ " " +:+ py_str name +:+ ";").

Definition render_struct (node : pyval) : res string :=
  name ← pget node "name" (PStr "?");
  ms ← pget node "members" (PList []);
  ms ← piter ms;
  lines ← map_res struct_member ms;
  Ok (unlines ((("struct " +:+ py_str name +:+ " {") :: lines) ++ ["}"])).

Definition render_enum (node : pyval) : res string :=
  ms ← pget node "members" (PList []);
  ms ← piter ms;
  values ← map_res (fun m => pget m "name" (PStr "?")) ms;
  name ← pget node "name" (PStr "?");
  values ← join_vals ", " values;
  Ok ("enum " +:+ py_str name +:+ " { " +:+ values +:+ " }").

Definition state_var_line (v : pyval) : res string :=
  vis ← get v "visibility";
  tn ← get v "typeName";
  ty ← type_str depth tn;
  name ← pget v "name" (PStr "?");
  s ← join_vals " " (ty :: (if truthy_val vis && negb (bool_decide (vis = PStr "default")) then [vis] else []) ++ [name]);
  Ok (s +:+ ";").

Definition render_state_var (node : pyval) : res string :=
  vs ← pget node "variables" (PList []);
  vs ← piter vs;
  parts ← map_res state_var_line vs;
  Ok (unlines parts).
End render.

(** ** The index *)

Record SymbolIndex := mkIndex {
  ix_symbols : list (string * list Symbol);
  ix_by_file : list (path * list Symbol);
  ix_bases : gmap string (list string);
  ix_svtypes : gmap string (gset string);
  ix_unparsed : list path;
}.

Definition empty_index : SymbolIndex := mkIndex [] [] ∅ ∅ [].

Section index.
Context (fs : FileSystem) (depth : nat).
Context (parse_file : path -> res pyval) (parse : string -> res pyval).

Abbreviation M := (ST SymbolIndex).

Definition add_symbol (sym : Symbol) : M unit := st_modify (fun ix =>
  let file := fs_resolve fs (sy_file sym) in
  mkIndex (assoc_set (sy_name sym) (default [] (assoc (sy_name sym) (ix_symbols ix)) ++ [sym]) (ix_symbols ix))
    (assoc_set file (default [] (assoc file (ix_by_file ix)) ++ [sym]) (ix_by_file ix))
    (ix_bases ix) (ix_svtypes ix) (ix_unparsed ix)).

Definition set_bases (c : string) (bases : list string) : M unit := st_modify (fun ix =>
  mkIndex (ix_symbols ix) (ix_by_file ix) (<[c := bases]> (ix_bases ix)) (ix_svtypes ix) (ix_unparsed ix)).

Definition add_svtype (c ty : string) : M unit := st_modify (fun ix =>
  mkIndex (ix_symbols ix) (ix_by_file ix) (ix_bases ix)
    (<[c := {[ty]} ∪ default ∅ (ix_svtypes ix !! c)]> (ix_svtypes ix)) (ix_unparsed ix)).

Definition add_unparsed (p : path) : M unit := st_modify (fun ix =>
  mkIndex (ix_symbols ix) (ix_by_file ix) (ix_bases ix) (ix_svtypes ix) (ix_unparsed ix ++ [p])).

(** [for x in l: f(x)] *)
Fixpoint for_each {A} (l : list A) (f : A -> M unit) : M unit :=
  match l with [] => mret tt | x :: l' => _ ← f x; for_each l' f end.

(** [try: m; except Exception: h]: what [m] changed before it raised stays *)
Definition attempt_or (m h : M unit) : M unit := fun ix =>
  match m ix with (ix', Ok tt) => (ix', Ok tt) | (ix', Raise _) => h ix' end.

Definition index_state_var (cname : string) (file : path) (text : string) (v : pyval) : M unit :=
  name ← st_lift (get v "name");
  if truthy_val name then
    name ← st_lift (as_str name);
    _ ← add_symbol (mkSymbol name "state_var" cname file text [] "");
    tn ← st_lift (get v "typeName");
    ty ← st_lift (type_str depth tn);
    ty ← st_lift (as_str ty);
    add_svtype cname ty
  else mret tt.

(** One declaration of a contract *)
Definition index_sub (cname : string) (file : path) (sub t : pyval) : M unit :=
  name ← st_lift (get sub "name");
  if bool_decide (t = PStr "FunctionDefinition") && truthy_val name then
    r ← st_lift (render_function depth sub);
    name ← st_lift (as_str name);
    add_symbol (mkSymbol name "function" cname file r.1.1 r.1.2 r.2)
  else if bool_decide (t = PStr "StructDefinition") then
    name ← st_lift (pget sub "name" (PStr "?"));
    text ← st_lift (render_struct depth sub);
    name ← st_lift (as_str name);
    add_symbol (mkSymbol name "struct" cname file text [] "")
  else if bool_decide (t = PStr "EnumDefinition") then
    name ← st_lift (pget sub "name" (PStr "?"));
    text ← st_lift (render_enum sub);
    name ← st_lift (as_str name);
    add_symbol (mkSymbol name "enum" cname file text [] "")
  else if bool_decide (t = PStr "ModifierDefinition") && truthy_val name then
    ps ← st_lift (get sub "parameters");
    params ← st_lift (params_str depth ps);
    name ← st_lift (as_str name);
    add_symbol (mkSymbol name "modifier" cname file ("modifier " +:+ name +:+ "(" +:+ params +:+ ")") [] "")
  else if bool_decide (t = PStr "StateVariableDeclaration") then
    text ← st_lift (render_state_var depth sub);
    vs ← st_lift (pget sub "variables" (PList []));
    vs ← st_lift (piter vs);
    for_each vs (index_state_var cname file text)
  else mret tt.

Definition base_path (b : pyval) : res pyval := bn ← pget b "baseName" (PDict []); get bn "namePath".

Definition index_contract (node : pyval) (file : path) : M unit :=
  cname ← st_lift (pget node "name" (PStr "?"));
  cname ← st_lift (as_str cname);
  kind ← st_lift (pget node "kind" (PStr "contract"));
  let kind_str := py_str kind in
  let known := bool_decide (kind ∈ [PStr "contract"; PStr "interface"; PStr "library"]) in
  _ ← add_symbol (mkSymbol cname (if known then kind_str else "contract") "" file (kind_str +:+ " " +:+ cname) [] "");
  bs ← st_lift (pget node "baseContracts" (PList []));
  bs ← st_lift (piter bs);
  paths ← st_lift (map_res base_path bs);
  bases ← st_lift (map_res as_str (List.filter truthy_val paths));
  _ ← (if bool_decide (bases = []) then mret tt else set_bases cname bases);
  subs ← st_lift (pget node "subNodes" (PList []));
  subs ← st_lift (piter subs);
  for_each subs (fun sub =>
    t ← st_lift (get sub "type");
    attempt_or (index_sub cname file sub t) (mret tt)).

Definition children (ast : pyval) : res (list pyval) := cs ← pget ast "children" (PList []); piter cs.

Definition index_file (p : path) : M unit :=
  ast ← st_lift (parse_file p);
  cs ← st_lift (children ast);
  for_each cs (fun child =>
    t ← st_lift (get child "type");
    if bool_decide (t = PStr "ContractDefinition") then index_contract child p else mret tt).

Definition build_from_source (source : string) : SymbolIndex * res unit :=
  match parse source with
  | Raise _ => (empty_index, Ok tt)
  | Ok ast =>
      (cs ← st_lift (children ast);
       for_each cs (fun child =>
         t ← st_lift (get child "type");
         if bool_decide (t = PStr "ContractDefinition") then attempt_or (index_contract child ["<source>"]) (mret tt)
         else mret tt)) empty_index
  end.

Definition SKIP_DIRS : list string := ["out"; "cache_forge"; "node_modules"; "lib"; "artifacts"].

Definition build_step (root : path) (p : path) : M unit :=
  match strip_parts root p with
  | None => st_lift (Raise (Exn "ValueError" (path_str p +:+ " is not in the subpath of " +:+ path_str root)))
  | Some rel =>
      if existsb (fun d => bool_decide (d ∈ rel)) SKIP_DIRS then mret tt
      else attempt_or (index_file p) (add_unparsed p)
  end.

Definition build (root : path) : SymbolIndex * res unit :=
  for_each (py_sort path_leb (fs_rglob_sol fs root)) (build_step root) empty_index.
End index.

(** ** Queries *)

Section queries.
Context (ix : SymbolIndex).

(** [while stack: c = stack.pop(); if c in seen: continue; seen.add(c); if hit(c):
    return True; stack.extend(bases.get(c, ()))]; [None] when out of iterations *)
Fixpoint search (hit : string -> bool) (fuel : nat) (stack : list string) (seen : gset string) : option bool :=
  match stack, fuel with
  | [], _ => Some false
  | _ :: _, 0 => None
  | c :: st, S fuel' =>
      if decide (c ∈ seen) then search hit fuel' st seen
      else if hit c then Some true
      else search hit fuel' (rev (succs (ix_bases ix) c) ++ st) ({[c]} ∪ seen)
  end.

Definition enough (stack : list string) : nat := budget (ix_bases ix) stack.

Definition svtypes_of (c : string) : gset string := default ∅ (ix_svtypes ix !! c).

Definition provides_state_var_type (contract type_name : string) : bool :=
  default false (search (fun c => bool_decide (type_name ∈ svtypes_of c)) (enough [contract]) [contract] ∅).

Definition is_subtype (sub_type ancestor_type : string) : bool :=
  if String.eqb sub_type ancestor_type then true
  else
    let stack := rev (succs (ix_bases ix) sub_type) in
    default false (search (fun b => String.eqb b ancestor_type) (enough stack) stack ∅).

Fixpoint collect (fuel : nat) (stack : list string) (seen out : gset string) : option (gset string) :=
  match stack, fuel with
  | [], _ => Some out
  | _ :: _, 0 => None
  | c :: st, S fuel' =>
      if decide (c ∈ seen) then collect fuel' st seen out
      else collect fuel' (rev (succs (ix_bases ix) c) ++ st) ({[c]} ∪ seen) (out ∪ svtypes_of c)
  end.

Definition state_var_types (contract : string) : gset string :=
  default ∅ (collect (enough [contract]) [contract] ∅ ∅).

Definition symbols_named (name : string) : list Symbol := default [] (assoc name (ix_symbols ix)).

(** [name.rsplit(".", 1)[-1]] *)
Definition lookup (name : string) : list Symbol :=
  match symbols_named name with
  | [] => if contains "." name then symbols_named (after_last_char "." name) else []
  | l => l
  end.

Definition is_type (m : Symbol) : bool := bool_decide (sy_kind m ∈ ["struct"; "enum"]).

(** The set of containers has one element: [next(iter(...))] *)
Definition nested_container (name : string) : option string :=
  let types := List.filter is_type (lookup name) in
  if bool_decide (types = []) then None
  else if existsb (fun m => negb (truthy (sy_contract m))) types then None
  else match remove_dups (map sy_contract types) with [c] => Some c | _ => None end.

Definition functions_in_file (fs : FileSystem) (p : path) : list Symbol :=
  List.filter (fun s => String.eqb (sy_kind s) "function") (default [] (assoc (fs_resolve fs p) (ix_by_file ix))).

Definition by_file_all : list Symbol := List.concat (ix_by_file ix).*2.
Definition top_level_symbols : list Symbol :=
  List.filter (fun s => bool_decide (sy_kind s ∈ ["contract"; "interface"; "library"])) by_file_all.
Definition contract_names : list string := map sy_name top_level_symbols.
End queries.

(** ** Expanding the referenced types *)

(** [re.search(rf"\b{re.escape(name)}\b", text)] *)
Definition mentioned (name text : string) : bool := re_test (RAll [RBound; RStr name; RBound]) text.

Definition typedefs (ix : SymbolIndex) : list (string * Symbol) :=
  omap (fun ns : string * list Symbol => (fun s => (ns.1, s)) <$> first is_type ns.2) (ix_symbols ix).

Definition add_nested (defs : list (string * Symbol)) (picked : list (string * Symbol)) (s : Symbol) : list (string * Symbol) :=
  fold_left (fun picked d => if negb (bool_decide (d.1 ∈ picked.*1)) && mentioned d.1 (sy_definition s) then picked ++ [d] else picked)
    defs picked.

Definition picked_types (callable_api : string) (ix : SymbolIndex) : list (string * Symbol) :=
  let defs := typedefs ix in
  let direct := List.filter (fun d => mentioned d.1 callable_api) defs in
  fold_left (fun picked d => if String.eqb (sy_kind d.2) "struct" then add_nested defs picked d.2 else picked) direct direct.

Definition type_block (s : Symbol) : string :=
  let block := "// " +:+ sy_contract s +:+ " (" +:+ sy_kind s +:+ ")" +:+ nls +:+ sy_definition s in
  if truthy (sy_contract s) then
    block +:+ nls +:+ "// NOTE: " +:+ sy_name s +:+ " is nested inside " +:+ sy_contract s +:+ " — do NOT write `import { "
    +:+ sy_name s +:+ " } from ...;`. Import " +:+ sy_contract s +:+ " and reference the type as " +:+ sy_contract s +:+ "." +:+ sy_name s +:+ "."
  else block.

Fixpoint take_blocks (budget total : nat) (picked : list (string * Symbol)) : list string :=
  match picked with
  | [] => []
  | d :: picked' =>
      let block := type_block d.2 in
      if budget <? total + ulen block then []
      else block :: take_blocks budget (total + ulen block + 2) picked'
  end.

Definition expand_referenced_types (callable_api : string) (index : option SymbolIndex) (budget : nat) : string :=
  match index with
  | None => ""
  | Some ix =>
      if negb (truthy callable_api) then ""
      else match picked_types callable_api ix with
           | [] => ""
           | picked => join (nls +:+ nls) (take_blocks budget 0 picked)
           end
  end.

(** ** Properties *)

(** Direct inheritance, as indexed *)
Definition inherits (ix : SymbolIndex) (c b : string) : Prop := b ∈ default [] (ix_bases ix !! c).

Lemma search_spec ix hit fuel stack seen F :
  walk (ix_bases ix) fuel stack seen = Some F ->
  exists b, search ix hit fuel stack seen = Some b /\ (b = true <-> exists x, x ∈ F /\ (x ∉ seen) /\ hit x = true).
Proof.
  revert stack seen. induction fuel as [|fuel IH]; intros [|c st] seen; cbn [walk search]; intros Hw; simplify_eq.
  - exists false. split; [done|]. split; [done|]. by intros (x & Hx & Hn & _).
  - exists false. split; [done|]. split; [done|]. by intros (x & Hx & Hn & _).
  - destruct (decide (c ∈ seen)) as [Hc|Hc]; [by apply IH|].
    destruct (hit c) eqn:Hh.
    + exists true. split; [done|]. split; [|done]. intros _. exists c. split_and!; [|done..].
      apply walk_grow in Hw as [Hs _]. apply Hs. set_solver.
    + destruct (IH _ _ Hw) as (b & -> & Hb). exists b. split; [done|]. rewrite Hb. split; intros (x & Hx & Hn & Hhx).
      * exists x. split_and!; [done|set_solver|done].
      * exists x. split_and!; [done| |done]. intros [->%elem_of_singleton|?]%elem_of_union; congruence.
Qed.

Lemma collect_spec ix fuel stack seen out F :
  walk (ix_bases ix) fuel stack seen = Some F ->
  exists r, collect ix fuel stack seen out = Some r /\
    forall t, t ∈ r <-> t ∈ out \/ exists x, x ∈ F /\ (x ∉ seen) /\ t ∈ svtypes_of ix x.
Proof.
  revert stack seen out. induction fuel as [|fuel IH]; intros [|c st] seen out; cbn [walk collect]; intros Hw; simplify_eq.
  - exists out. split; [done|]. intros t. split; [by left|]. by intros [?|(x & ? & ? & _)].
  - exists out. split; [done|]. intros t. split; [by left|]. by intros [?|(x & ? & ? & _)].
  - destruct (decide (c ∈ seen)) as [Hc|Hc]; [by apply IH|].
    destruct (IH _ _ (out ∪ svtypes_of ix c) Hw) as (r & -> & Hr). exists r. split; [done|]. intros t. rewrite Hr.
    assert (c ∈ F) as HcF by (apply walk_grow in Hw as [Hs _]; apply Hs; set_solver). split.
    + intros [[?|?]%elem_of_union|(x & Hx & Hn & Ht)]; [by left|right; by exists c|].
      right. exists x. split_and!; [done|set_solver|done].
    + intros [?|(x & Hx & Hn & Ht)]; [left; set_solver|]. destruct (decide (x = c)) as [->|Hxc]; [left; set_solver|].
      right. exists x. split_and!; [done|set_solver|done].
Qed.

Lemma search_reaches ix hit stack :
  default false (search ix hit (enough ix stack) stack ∅) = true <->
  exists s x, s ∈ stack /\ rtc (inherits ix) s x /\ hit x = true.
Proof.
  destruct (walk_spec (ix_bases ix) stack (enough ix stack)) as (F & HF & Hx); [done|].
  destruct (search_spec ix hit _ _ _ _ HF) as (b & -> & Hb). cbn. rewrite Hb. split.
  - intros (x & (s & Hs & Hr)%Hx & _ & Hh). by exists s, x.
  - intros (s & x & Hs & Hr & Hh). exists x. split_and!; [|set_solver|done]. apply Hx. by exists s.
Qed.

(** The inheritance queries answer for the whole chain, cycles included: a contract
    provides a state variable type exactly when it or an ancestor declares one, the
    types it has are exactly those it provides, and a type is a subtype of another
    exactly when it is it or inherits it through any number of steps; the subtype
    relation is reflexive and transitive, and what an ancestor provides a contract
    provides. *)
Theorem inheritance_queries (ix : SymbolIndex) (c t a : string) :
  (provides_state_var_type ix c t = true <-> exists x, rtc (inherits ix) c x /\ t ∈ svtypes_of ix x) /\
  (t ∈ state_var_types ix c <-> provides_state_var_type ix c t = true) /\
  (is_subtype ix c a = true <-> rtc (inherits ix) c a) /\
  is_subtype ix c c = true /\
  (forall b, is_subtype ix c b = true -> is_subtype ix b a = true -> is_subtype ix c a = true) /\
  (is_subtype ix c a = true -> provides_state_var_type ix a t = true -> provides_state_var_type ix c t = true).
Proof.
  assert (forall c t, provides_state_var_type ix c t = true <-> exists x, rtc (inherits ix) c x /\ t ∈ svtypes_of ix x) as Hprov.
  { intros c' t'. unfold provides_state_var_type. rewrite search_reaches. split.
    - intros (s & x & ->%list_elem_of_singleton & Hr & Ht%bool_decide_eq_true). by exists x.
    - intros (x & Hr & Ht). exists c', x. split_and!; [left|done|by apply bool_decide_eq_true]. }
  assert (forall c a, is_subtype ix c a = true <-> rtc (inherits ix) c a) as Hsub.
  { intros c' a'. unfold is_subtype. destruct (String.eqb_spec c' a') as [->|Hn]; [split; [by constructor|done]|].
    rewrite search_reaches. split.
    - intros (s & x & Hs & Hr & ->%String.eqb_eq). eapply rtc_l; [|done].
      by rewrite list_elem_of_In, <- in_rev, <- list_elem_of_In in Hs.
    - intros Hr. inversion Hr as [|? s ? Hs Hr']; [done|]. subst. exists s, a'. split_and!; [|done|apply String.eqb_refl].
      rewrite list_elem_of_In, <- in_rev, <- list_elem_of_In. done. }
  split_and!; [apply Hprov| |apply Hsub|apply Hsub; constructor| |].
  - rewrite Hprov. unfold state_var_types.
    destruct (walk_spec (ix_bases ix) [c] (enough ix [c])) as (F & HF & Hx); [done|].
    destruct (collect_spec ix _ _ _ ∅ _ HF) as (r & -> & Hr). cbn. rewrite Hr. split.
    + intros [?|(x & (s & ->%list_elem_of_singleton & Hs)%Hx & _ & Ht)]; [set_solver|by exists x].
    + intros (x & Hcx & Ht). right. exists x. split_and!; [|set_solver|done]. apply Hx. exists c. split; [left|done].
  - intros b. rewrite !Hsub. intros Hcb Hba. by etrans.
  - rewrite Hsub, !Hprov. intros Hca (x & Hax & Ht). exists x. split; [by etrans|done].
Qed.

(** A contract that inherits itself and one that inherits it *)
Example cyclic_index :
  let ix := mkIndex [] [] {["A" := ["B"]; "B" := ["A"]; "C" := ["B"; "Missing"]]} {["A" := {["IERC20"]}]} [] in
  provides_state_var_type ix "C" "IERC20" = true /\ is_subtype ix "C" "A" = true /\ is_subtype ix "A" "C" = false.
Proof. vm_compute. auto. Qed.

(** ** Building is total *)

Definition never_raises {S} (m : ST S unit) : Prop := forall s, (m s).2 = Ok tt.

Lemma for_each_never_raises {A} (l : list A) f : (forall x, x ∈ l -> never_raises (f x)) -> never_raises (for_each l f).
Proof.
  induction l as [|x l IH]; intros Hf s; [done|]. cbn [for_each]. unfold mbind, st_bind.
  pose proof (Hf x (list_elem_of_here _ _) s) as Hx. destruct (f x s) as [s' [[]|e]]; [|done].
  apply IH. intros y Hy. apply Hf. by right.
Qed.

(** A file that cannot be parsed, or whose tree is malformed, never stops the build: it
    is recorded as unparsed. *)
Lemma build_never_raises fs depth parse_file root :
  (forall p, p ∈ fs_rglob_sol fs root -> is_relative_to p root = true) ->
  (build fs depth parse_file root).2 = Ok tt.
Proof.
  intros Hrel. apply for_each_never_raises. intros p Hp s. rewrite elem_of_py_sort in Hp. specialize (Hrel p Hp).
  unfold is_relative_to in Hrel. unfold build_step. destruct (strip_parts root p) as [rel|]; [|done].
  destruct (existsb _ SKIP_DIRS); [done|]. unfold attempt_or. by destruct (index_file fs depth parse_file p s) as [s' [[]|e]].
Qed.

(** ** The strict boundary of nested types *)

Lemma nested_container_spec ix name c :
  nested_container ix name = Some c <->
  c <> "" /\ (exists m, m ∈ lookup ix name /\ is_type m = true) /\
  (forall m, m ∈ lookup ix name -> is_type m = true -> sy_contract m = c).
Proof.
  unfold nested_container. set (types := List.filter is_type (lookup ix name)). cbv zeta.
  assert (forall m, m ∈ types <-> m ∈ lookup ix name /\ is_type m = true) as Hin.
  { intros m. unfold types. by rewrite !list_elem_of_In, filter_In. }
  destruct (bool_decide_reflect (types = [])) as [He|He].
  { split; [done|]. intros (_ & (m & Hm) & _). apply Hin in Hm. rewrite He in Hm. by apply elem_of_nil in Hm. }
  destruct (existsb (fun m => negb (truthy (sy_contract m))) types) eqn:Hx.
  { split; [done|]. intros (Hc & _ & Hall). apply existsb_exists in Hx as (m & Hm & Ht). apply list_elem_of_In, Hin in Hm as [Hm Hty].
    rewrite (Hall m Hm Hty) in Ht. by destruct c. }
  assert (forall m, m ∈ types -> sy_contract m <> "") as Hne.
  { intros m Hm Heq. apply not_true_iff_false in Hx. apply Hx, existsb_exists. exists m. by rewrite Heq, <- list_elem_of_In. }
  assert (forall x, x ∈ remove_dups (map sy_contract types) <-> exists m, m ∈ types /\ sy_contract m = x) as Hdup.
  { intros x. rewrite elem_of_remove_dups. split; [intros (m & -> & Hm)%list_elem_of_fmap; eauto|].
    intros (m & Hm & <-). by apply list_elem_of_fmap_2. }
  pose proof (NoDup_remove_dups (map sy_contract types)) as Hnd.
  destruct (remove_dups (map sy_contract types)) as [|x [|y l]] eqn:Hr.
  - destruct types as [|m ts] eqn:Hts; [done|]. exfalso.
    apply (not_elem_of_nil (sy_contract m)), Hdup. exists m. split; [left|done].
  - split.
    + intros [= <-]. destruct (proj1 (Hdup x) (list_elem_of_here _ _)) as (m & Hm & Hx').
      split; [rewrite <- Hx'; by apply Hne|]. split; [exists m; by apply Hin|].
      intros m' Hm' Hty. apply list_elem_of_singleton, Hdup. exists m'. split; [by apply Hin|done].
    + intros (_ & (m & Hm) & Hall). f_equal. symmetry. apply list_elem_of_singleton, Hdup. exists m.
      split; [by apply Hin|]. by destruct Hm; apply Hall.
  - split; [done|]. intros (_ & _ & Hall). exfalso. apply NoDup_cons in Hnd as [Hnd _]. apply Hnd.
    assert (forall z, z ∈ x :: y :: l -> z = c) as Hz by (intros z (m & [Hm Hty]%Hin & <-)%Hdup; by apply Hall).
    rewrite (Hz x) by left. rewrite <- (Hz y) by (right; left). left.
Qed.

(** ** The budget of the expansion *)

Lemma take_blocks_budget budget total picked :
  list_sum (map (fun s => ulen s + 2) (take_blocks budget total picked)) + total <= budget + 2 \/ take_blocks budget total picked = [].
Proof.
  revert total. induction picked as [|d picked IH]; intros total; cbn [take_blocks]; [by right|].
  destruct (Nat.ltb_spec budget (total + ulen (type_block d.2))) as [Hl|Hl]; [by right|left].
  cbn [map]. change (list_sum (?a :: ?l)) with (a + list_sum l).
  destruct (IH (total + ulen (type_block d.2) + 2)) as [H| ->]; [lia|]. change (list_sum (map _ [])) with 0. lia.
Qed.

(** What is shown to the model stays within the budget, in characters. *)
Lemma expand_within_budget callable_api index budget : ulen (expand_referenced_types callable_api index budget) <= budget.
Proof.
  unfold expand_referenced_types. destruct index as [ix|]; [|cbn; lia]. destruct (negb (truthy callable_api)); [cbn; lia|].
  destruct (picked_types callable_api ix) as [|d picked] eqn:Hp; [cbn; lia|]. rewrite <- Hp. clear Hp.
  destruct (take_blocks_budget budget 0 (picked_types callable_api ix)) as [Hb| ->]; [|cbn; lia].
  destruct (take_blocks budget 0 (picked_types callable_api ix)) as [|b bs]; [cbn; lia|].
  pose proof (ulen_join (nls +:+ nls) b bs) as Hj. change (ulen (nls +:+ nls)) with 2 in Hj. lia.
Qed.
