(* ===== verification/Checkpoint.v ===== *)
(** * The compiled-attempt checkpoint (audit_agent/proof/compiled_checkpoint.py)

    The two slots kept while a PoC is repaired, what a refusal restores, and when.
    An attempt is what the runner that drives it (RunnerAttempt) hands over. *)

From S2P Require Import Prelude PyStr PyVal.

Record CheckpointSlot := mkSlot {
  cs_source : string;
  cs_attempt : nat;
  cs_compiled_real : bool;
  cs_outcome_summary : string;
}.

Record CheckpointState := mkCheckpoint {
  non_vacuous : option CheckpointSlot;
  any_compile : option CheckpointSlot;
}.

Definition is_compiled_real (compiled : bool) (defects : list string) : bool :=
  compiled && bool_decide (defects = []).

Definition restore_target (state : CheckpointState) : option CheckpointSlot :=
  match non_vacuous state with
  | Some s => Some s
  | None => match any_compile state with Some s => Some s | None => None end
  end.

Definition restore_kind (state : CheckpointState) : option string :=
  match non_vacuous state with
  | Some _ => Some "non_vacuous"
  | None => match any_compile state with Some _ => Some "any_compile" | None => None end
  end.

Definition refresh_slots (state : CheckpointState) (source : string) (attempt : nat) (compiled compiled_real : bool)
    (outcome_summary : string) : CheckpointState :=
  if negb compiled then state
  else
    let slot := mkSlot source attempt compiled_real outcome_summary in
    mkCheckpoint (if compiled_real then Some slot else non_vacuous state) (Some slot).

Definition should_refuse (compiled restore_target_present : bool) : bool := negb compiled && restore_target_present.

Definition should_emit_adopt_refusal (forge_compile_verdict_available compiled restore_target_present : bool) : bool :=
  if negb forge_compile_verdict_available then false else should_refuse compiled restore_target_present.

Definition should_end_restore (compiled restore_target_present : bool) : bool := negb compiled && restore_target_present.

Definition apply_refuse (working_body : string) (state : CheckpointState) : string :=
  match restore_target state with None => working_body | Some slot => cs_source slot end.

Definition build_adopt_refusal_fields (state : CheckpointState) (attempt : nat) (artifact_path : string) : res pyval :=
  match restore_target state, restore_kind state with
  | Some slot, Some kind =>
      Ok (PDict [("event", PStr "compile_adopt_rejected"); ("attempt", PInt (Z.of_nat attempt));
                 ("artifact_path", PStr artifact_path); ("restore_attempt", PInt (Z.of_nat (cs_attempt slot)));
                 ("restore_kind", PStr kind)])
  | _, _ => Raise (Exn "ValueError" "build_adopt_refusal_fields requires a restore-target")
  end.

(** ** A repair session *)

(** One attempt: its source, whether it compiled, the defects found, a summary *)
Record Attempt := mkAttempt { at_source : string; at_compiled : bool; at_defects : list string; at_summary : string }.

Definition at_real (a : Attempt) : bool := is_compiled_real (at_compiled a) (at_defects a).
Definition slot_of (na : nat * Attempt) : CheckpointSlot := mkSlot (at_source na.2) na.1 (at_real na.2) (at_summary na.2).
Definition refresh (state : CheckpointState) (na : nat * Attempt) : CheckpointState :=
  refresh_slots state (at_source na.2) na.1 (at_compiled na.2) (at_real na.2) (at_summary na.2).
Definition after_attempts (l : list (nat * Attempt)) : CheckpointState := fold_left refresh l (mkCheckpoint None None).

(** The last attempt of a kind *)
Definition last_such (p : Attempt -> bool) (l : list (nat * Attempt)) : option (nat * Attempt) :=
  last (List.filter (fun na => p na.2) l).

Lemma last_such_snoc p l na : last_such p (l ++ [na]) = if p na.2 then Some na else last_such p l.
Proof.
  unfold last_such. rewrite List.filter_app. cbn. destruct (p na.2); [apply last_snoc|by rewrite app_nil_r].
Qed.

(** The slots hold the last compiled and the last non-vacuous attempt. *)
Lemma slots_hold_last l :
  any_compile (after_attempts l) = slot_of <$> last_such at_compiled l /\
  non_vacuous (after_attempts l) = slot_of <$> last_such at_real l.
Proof.
  induction l as [|na l [IHa IHn]] using rev_ind; [done|]. unfold after_attempts in *. rewrite fold_left_app. cbn [fold_left].
  rewrite !last_such_snoc. unfold refresh, refresh_slots. destruct (at_compiled na.2) eqn:Hc; cbn [negb any_compile non_vacuous].
  - split; [done|]. destruct (at_real na.2) eqn:Hr; [|done]. cbn. unfold slot_of. by rewrite Hr.
  - assert (at_real na.2 = false) as -> by (unfold at_real, is_compiled_real; by rewrite Hc). done.
Qed.

(** A refusal never loses ground: it happens only once something compiled, restores the
    source of the last non-vacuous attempt when there is one and of the last that
    compiled otherwise, reports that attempt and kind, and never follows a missing
    verdict of the compiler. *)
Theorem refuse_restores_best l compiled body path verdict n :
  let state := after_attempts l in
  let present := match restore_target state with Some _ => true | None => false end in
  (present = true <-> exists na, na ∈ l /\ at_compiled na.2 = true) /\
  (should_refuse compiled present = true -> compiled = false /\ exists na, na ∈ l /\ at_compiled na.2 = true /\
     apply_refuse body state = at_source na.2 /\
     (restore_kind state = Some "non_vacuous" /\ at_real na.2 = true \/
      restore_kind state = Some "any_compile" /\ forall na', na' ∈ l -> at_real na'.2 = false) /\
     exists v, build_adopt_refusal_fields state n path = Ok v /\ dget v "restore_attempt" = Some (PInt (Z.of_nat na.1))) /\
  (should_emit_adopt_refusal verdict compiled present = true -> verdict = true /\ should_refuse compiled present = true) /\
  (present = false -> apply_refuse body state = body).
Proof.
  cbv zeta. destruct (slots_hold_last l) as [Ha Hn].
  assert (forall p na, last_such p l = Some na -> na ∈ l /\ p na.2 = true) as Hlast.
  { intros p na Hl. unfold last_such in Hl. apply last_Some_elem_of in Hl. apply list_elem_of_In, filter_In in Hl.
    by rewrite list_elem_of_In. }
  assert (forall p, last_such p l = None -> forall na, na ∈ l -> p na.2 = false) as Hnone.
  { intros p Hl na Hin. unfold last_such in Hl. apply last_None in Hl. apply not_true_iff_false. intros Hp.
    assert (na ∈ List.filter (fun na => p na.2) l) as Hf by (apply list_elem_of_In, filter_In; by rewrite <- list_elem_of_In).
    rewrite Hl in Hf. by apply elem_of_nil in Hf. }
  unfold apply_refuse, build_adopt_refusal_fields, should_emit_adopt_refusal, should_refuse, restore_target, restore_kind.
  rewrite Ha, Hn. destruct (last_such at_real l) as [na|] eqn:Hr; cbn [fmap option_fmap option_map].
  - destruct (Hlast _ _ Hr) as [Hin Hreal]. assert (at_compiled na.2 = true) as Hc by (by apply andb_true_iff in Hreal as [? _]).
    split_and!; [split; [eauto|done]| |destruct verdict; done|done].
    intros [Hcomp%negb_true_iff _]%andb_true_iff. split; [done|]. exists na. split_and!; try done; [by left|by eexists].
  - destruct (last_such at_compiled l) as [na|] eqn:Hc; cbn [fmap option_fmap option_map].
    + destruct (Hlast _ _ Hc) as [Hin Hcomp].
      split_and!; [split; [eauto|done]| |destruct verdict; done|done].
      intros [Hcp%negb_true_iff _]%andb_true_iff. split; [done|]. exists na. split_and!; try done; [right; eauto|by eexists].
    + split_and!; [split; [done|]|by rewrite andb_false_r|destruct verdict; done|done].
      intros (na & Hin & Ht). by rewrite (Hnone _ Hc na Hin) in Ht.
Qed.
