(* ===== verification/Grounding.v ===== *)
(** * Grounding blocks of the PoC prompts

    audit_agent/proof/anti_mock_grounding.py and observed_fork_grounding.py: the two
    blocks appended to an assembled prompt behind a gate, and the observation taken
    from a revert of the access control. *)

From S2P Require Import Prelude PyStr PyRe PyVal.

(** ** anti_mock_grounding.py *)

Definition ANTI_MOCK_INSTRUCTION : string :=
  "ANTI-MOCK GROUNDING (target's own mechanism): do NOT mock, re-declare, or reimplement the " +:+
  "target's own mechanism - the contract(s) and function(s) the finding is about - inside the " +:+
  "test file. A PoC that proves its claim against your own stand-in contract (even under a " +:+
  "different name, e.g. a hand-written reverting handler) proves nothing about the real " +:+
  "target and will be rejected. Deploy and drive the REAL target contract and make it exhibit " +:+
  "the described condition. Mocks are permitted ONLY for genuinely external, non-mechanism " +:+
  "dependencies (e.g. an unrelated token or price feed), never for the mechanism under test.".

Definition data_block (name body : string) : string :=
  nls +:+ nls +:+ "[DATA START " +:+ name +:+ "]" +:+ nls +:+ body +:+ nls +:+ "[DATA END]" +:+ nls.

Definition ANTI_MOCK_DATA_BLOCK : string := data_block "anti_mock_grounding" ANTI_MOCK_INSTRUCTION.

Definition append_anti_mock_grounding (prompt : string) (scaffold_carried : bool) : string :=
  if negb scaffold_carried then prompt
  else if contains "anti_mock_grounding" prompt then prompt
  else prompt +:+ ANTI_MOCK_DATA_BLOCK.

(** ** observed_fork_grounding.py *)

Definition STATE_HEAVY_CLASSES : list string := ["accounting_manipulation"; "state_heavy"; "accounting"].

Definition is_hex (c : ascii) : bool := is_digit c || ascii_in 65 70 c || ascii_in 97 102 c.
Definition RHex : re := RSet is_hex.

(** [AccessControlUnauthorizedAccount\(\s*(0x[0-9a-fA-F]{40})\s*,\s*(0x[0-9a-fA-F]{1,64})\s*\)] *)
Definition AC_UNAUTHORIZED_RE : re :=
  RAll [RStr "AccessControlUnauthorizedAccount("; RMany RSpace; RGroup 1 (RSeq (RStr "0x") (RTimes 40 RHex)); RMany RSpace;
        RChr ","; RMany RSpace; RGroup 2 (RSeq (RStr "0x") (RBetween 1 64 RHex)); RMany RSpace; RChr ")"].

Definition DISCIPLINE_INSTRUCTION : string :=
  "STATE-GROUNDING DISCIPLINE (accounting / state-heavy findings): the state-dependent values " +:+
  "the finding hinges on - a view such as coverage(), who holds a required role " +:+
  "(getRoleMember / hasRole), or a deposit/withdraw cap behind a getter - MUST be READ and " +:+
  "console.log'd at the TOP of your forge fork test, immediately after fork setup and BEFORE " +:+
  "the first call that can revert (the deposit / redeem / exploit step). Logging a value " +:+
  "AFTER the reverting call is useless: the test aborts before the log prints, so you never " +:+
  "see it. THEN calibrate the assert / prank target / amount against the logged value - do " +:+
  "not invent the expected number or role holder from the report narrative, and do not " +:+
  "re-assert a narrative literal that your own log contradicts.".

Definition DISCIPLINE_DATA_BLOCK : string := data_block "state_grounding_discipline" DISCIPLINE_INSTRUCTION.

(** [str(task.get("finding_class") or task.get("class") or "").strip().lower()] *)
Definition is_state_heavy (task : list (string * pyval)) : bool :=
  let v k := default PNone (assoc k task) in
  let raw := lower (strip (py_str (por (v "finding_class") (por (v "class") (PStr ""))))) in
  bool_decide (raw ∈ STATE_HEAVY_CLASSES).

Definition append_discipline_instruction (prompt : string) (task : list (string * pyval)) : string :=
  if negb (is_state_heavy task) then prompt
  else if contains "state_grounding_discipline" prompt then prompt
  else prompt +:+ DISCIPLINE_DATA_BLOCK.

Definition extract_access_control_operands (blob : string) : option (string * string) :=
  if negb (truthy blob) then None
  else match re_search AC_UNAUTHORIZED_RE blob with
       | None => None
       | Some m => Some (group_or_empty 1 blob m, group_or_empty 2 blob m)
       end.

Definition format_access_control_observation (account role : string) : string :=
  "[DATA START observed_access_control]" +:+ nls +:+
  "OBSERVED from revert (AccessControlUnauthorizedAccount) - not an instruction:" +:+ nls +:+
  "- PoC caller (account that lacked the role) = " +:+ account +:+ nls +:+
  "- call requires role = " +:+ role +:+ nls +:+
  "Assumed side: not recoverable from source automatically. On the next edit, either " +:+
  "prank as an address that holds this role (read getRoleMember / hasRole and " +:+
  "console.log holders first) or grant the role in setup if the finding allows." +:+
  nls +:+ "[DATA END]".

Definition access_control_observation_block (blob : string) : string :=
  match extract_access_control_operands blob with
  | None => ""
  | Some ops => format_access_control_observation ops.1 ops.2
  end.

(** ** Properties *)

(** A gated append: nothing outside its gate, one block inside it, and none the second
    time. *)
Lemma append_anti_mock_idempotent prompt carried :
  append_anti_mock_grounding prompt false = prompt /\
  append_anti_mock_grounding (append_anti_mock_grounding prompt carried) carried = append_anti_mock_grounding prompt carried /\
  (contains "anti_mock_grounding" prompt = false -> append_anti_mock_grounding prompt true = prompt +:+ ANTI_MOCK_DATA_BLOCK).
Proof.
  split; [done|]. split; [|by unfold append_anti_mock_grounding; cbn [negb]; intros ->].
  unfold append_anti_mock_grounding. destruct carried; cbn [negb]; [|done].
  destruct (contains "anti_mock_grounding" prompt) eqn:Hc; [by rewrite Hc|].
  assert (contains "anti_mock_grounding" (prompt +:+ ANTI_MOCK_DATA_BLOCK) = true) as ->; [|done].
  apply contains_spec. exists (prompt +:+ nls +:+ nls +:+ "[DATA START ").
  exists ("]" +:+ nls +:+ ANTI_MOCK_INSTRUCTION +:+ nls +:+ "[DATA END]" +:+ nls).
  unfold ANTI_MOCK_DATA_BLOCK, data_block. by rewrite !sapp_assoc.
Qed.

Lemma append_discipline_idempotent prompt task :
  (is_state_heavy task = false -> append_discipline_instruction prompt task = prompt) /\
  append_discipline_instruction (append_discipline_instruction prompt task) task = append_discipline_instruction prompt task.
Proof.
  unfold append_discipline_instruction. split; [by intros ->|]. destruct (is_state_heavy task); cbn [negb]; [|done].
  destruct (contains "state_grounding_discipline" prompt) eqn:Hc; [by rewrite Hc|].
  assert (contains "state_grounding_discipline" (prompt +:+ DISCIPLINE_DATA_BLOCK) = true) as ->; [|done].
  apply contains_spec. exists (prompt +:+ nls +:+ nls +:+ "[DATA START ").
  exists ("]" +:+ nls +:+ DISCIPLINE_INSTRUCTION +:+ nls +:+ "[DATA END]" +:+ nls).
  unfold DISCIPLINE_DATA_BLOCK, data_block. by rewrite !sapp_assoc.
Qed.

(** The block is empty exactly when the revert has no recognized shape. *)
Lemma observation_block_empty blob :
  access_control_observation_block blob = "" <-> re_test AC_UNAUTHORIZED_RE blob = false \/ blob = "".
Proof.
  unfold access_control_observation_block, extract_access_control_operands, re_test.
  destruct blob as [|c s]; [split; [by right|done]|]. cbn [truthy negb].
  destruct (re_search _ _); split; try done; [by intros [?|?]|by left].
Qed.

Example operands_found :
  extract_access_control_operands ("[FAIL: AccessControlUnauthorizedAccount(0x" +:+ String.concat "" (repeat "aB" 20) +:+ ", 0x00)] test()") =
  Some ("0x" +:+ String.concat "" (repeat "aB" 20), "0x00").
Proof. vm_compute. reflexivity. Qed.
