(* ===== verification/SolUtils.v ===== *)
(** * Solidity text helpers (audit_agent/proof/solidity_utils.py)

    Signatures of forge's output, the extraction of code from a model's reply, and
    the base contract of a scaffold.  What git prints for the tracked files is a
    parameter, with the exception its call may raise. *)

From S2P Require Import Prelude PyStr PyRe PyPath.

Definition POC_SUBDIR : string := "audit/poc".
Definition UTILS_SKIP_DIRS : list string := ["out"; "cache_forge"; "node_modules"; "lib"; "artifacts"].

(** [_tracked_sol]; a set as the list of its elements, [git] the standard output of ls-files *)
Definition tracked_sol (fs : FileSystem) (git : res string) (project : path) : list path :=
  match git with
  | Ok stdout =>
      remove_dups (map (fun line => fs_resolve fs (path_join project (to_path line)))
                       (List.filter (fun line => truthy (strip line)) (splitlines stdout)))
  | Raise _ => []
  end.

Fixpoint path_for_lines (lines : list string) (name : string) : string :=
  match lines with
  | [] => ""
  | line :: lines' =>
      if starts_with (name +:+ ": ") line then
        match split_once ": " line with Some (_, p) => p | None => "" end
      else path_for_lines lines' name
  end.
Definition path_for (file_map name : string) : string := path_for_lines (splitlines file_map) name.

Definition BLOCK_COMMENT : re := RAll [RStr "/*"; RManyLazy RDotAll; RStr "*/"].
Definition LINE_COMMENT : re := RSeq (RStr "//") (RMany RDot).
Definition strip_comments (sol : string) : string := re_sub LINE_COMMENT "" (re_sub BLOCK_COMMENT "" sol).

(** [Ran \d+ tests?] *)
Definition RAN_TEST_RE : re := RAll [RStr "Ran "; RSome RDigit; RStr " test"; ROpt (RChr "s")].
Definition compiled (stdout stderr : string) : bool := re_test RAN_TEST_RE (stdout +:+ nls +:+ stderr).

Definition ERROR_RE : re := RAll [RStr "Error ("; RSome RDigit; RStr "): "; RGroup 1 (RSome RDot)].
(** [\[FAIL:?\.?\s*([^\]]* )\]] *)
Definition FAIL_RE : re :=
  RAll [RStr "[FAIL"; ROpt (RChr ":"); ROpt (RChr "."); RMany RSpace; RGroup 1 (RMany (RNoneOf "]")); RChr "]"].

Definition error_signature (blob : string) : list string := py_sort str_leb (re_findall1 ERROR_RE blob).
Definition fail_signature (blob : string) : list string := py_sort str_leb (re_findall1 FAIL_RE blob).

Definition drop_fence (lines : list string) : list string :=
  match lines with line :: lines' => if starts_with "```" line then lines' else lines | [] => [] end.
Definition drop_last_fence (lines : list string) : list string :=
  match last lines with
  | Some line => if starts_with "```" line then take (length lines - 1) lines else lines
  | None => lines
  end.
Definition strip_fences (text : string) : string :=
  let text := strip text in
  if starts_with "```" text then unlines (drop_last_fence (drop_fence (splitlines text))) else text.

Definition SOLIDITY_TOKENS : list string :=
  ["// SPDX"; "pragma"; "import"; "contract"; "interface"; "library"; "abstract contract"].
Definition is_solidity_start (st : string) : bool := existsb (fun tok => starts_with tok st) SOLIDITY_TOKENS.

Fixpoint find_start (lines : list string) (i : nat) : option nat :=
  match lines with
  | [] => None
  | ln :: lines' => if is_solidity_start (strip ln) then Some i else find_start lines' (S i)
  end.

(** [depth], [seen_body], [end], [in_block_comment] *)
Record scan := mkScan { sc_depth : Z; sc_seen : bool; sc_end : nat; sc_comment : bool }.

Definition scan_braces (i : nat) (raw : string) (s : scan) : scan :=
  let depth := (sc_depth s + Z.of_nat (count_char "{" raw) - Z.of_nat (count_char "}" raw))%Z in
  mkScan (Z.max depth 0) (sc_seen s || contains "{" raw) i (sc_comment s).

(** The loop over the lines from [start]; [i] is the index of the head of [lines] *)
Fixpoint scan_lines (i : nat) (lines : list string) (s : scan) : scan :=
  match lines with
  | [] => s
  | raw :: lines' =>
      let st := strip raw in
      if sc_seen s && (sc_depth s =? 0)%Z then
        if negb (truthy st) then scan_lines (S i) lines' s
        else if starts_with "```" st then s
        else if starts_with "/*" st || sc_comment s then
          scan_lines (S i) lines' (mkScan (sc_depth s) (sc_seen s) i (negb (contains "*/" raw)))
        else if is_solidity_start st || starts_with "//" st then scan_lines (S i) lines' (scan_braces i raw s)
        else s
      else scan_lines (S i) lines' (scan_braces i raw s)
  end.

(** The second pass over a reply without a body *)
Fixpoint scan_headers (i : nat) (lines : list string) (e : nat) : nat :=
  match lines with
  | [] => e
  | raw :: lines' =>
      let st := strip raw in
      if negb (truthy st) then scan_headers (S i) lines' e
      else if starts_with "```" st then e
      else if is_solidity_start st || starts_with "//" st || ends_with ";" st then scan_headers (S i) lines' i
      else e
  end.

Definition solidity_span (lines : list string) : option (nat * nat) :=
  start ← find_start lines 0;
  let rest := drop start lines in
  let s := scan_lines start rest (mkScan 0 false start false) in
  Some (start, if sc_seen s then sc_end s else scan_headers start rest start).

Definition extract_solidity (text : string) : string :=
  let lines := splitlines (strip_fences text) in
  match solidity_span lines with
  | None => ""
  | Some (start, e) => strip (unlines (take (e + 1 - start) (drop start lines)))
  end.

(** [\b(?:abstract\s+)?contract\s+(\w+)\s*(?:is\b|\{)] and [\bcontract\s+\w+\s+is\s+([^{]+?)\s*\{] *)
Definition SCAFFOLD_CONTRACT_RE : re :=
  RAll [RBound; ROpt (RSeq (RStr "abstract") (RSome RSpace)); RStr "contract"; RSome RSpace; RGroup 1 (RSome RWord); RMany RSpace;
        RAlt (RSeq (RStr "is") RBound) (RChr "{")].
Definition SCAFFOLD_IS_RE : re :=
  RAll [RBound; RStr "contract"; RSome RSpace; RSome RWord; RSome RSpace; RStr "is"; RSome RSpace;
        RGroup 1 (RSomeLazy (RNoneOf "{")); RMany RSpace; RChr "{"].

Definition scaffold_base_name (text : string) : option string :=
  let text := strip_comments text in
  let decls := re_findall1 SCAFFOLD_CONTRACT_RE text in
  let used_as_base := List.concat (map (fun bases => map strip (split_char "," bases)) (re_findall1 SCAFFOLD_IS_RE text)) in
  match decls with
  | [] => None
  | _ =>
      let leaves := List.filter (fun n => negb (bool_decide (n ∈ used_as_base))) decls in
      match last leaves with Some n => Some n | None => last decls end
  end.

(** ** Properties *)

Lemma find_start_spec lines i k :
  find_start lines i = Some k <->
  exists ln, i <= k /\ lines !! (k - i) = Some ln /\ is_solidity_start (strip ln) = true /\
    forall j l, j < k - i -> lines !! j = Some l -> is_solidity_start (strip l) = false.
Proof.
  revert i. induction lines as [|l0 lines IH]; intros i; cbn [find_start].
  { split; [done|]. by intros (ln & _ & ? & _). }
  destruct (is_solidity_start (strip l0)) eqn:H0.
  - split.
    + intros [= <-]. exists l0. rewrite Nat.sub_diag. split_and!; try done. intros j l Hj. lia.
    + intros (ln & Hle & Hl & Hs & Hall). f_equal. destruct (decide (i = k)) as [|Hn]; [done|].
      assert (is_solidity_start (strip l0) = false) by (apply (Hall 0); [lia|done]). congruence.
  - rewrite IH. split.
    + intros (ln & Hle & Hl & Hs & Hall). exists ln. replace (k - i) with (S (k - S i)) by lia.
      split_and!; [lia|done..|]. intros [|j] l Hj Hlj; cbn in Hlj; [congruence|]. eapply Hall; [|done]. lia.
    + intros (ln & Hle & Hl & Hs & Hall). destruct (decide (i = k)) as [->|Hn].
      { rewrite Nat.sub_diag in Hl. cbn in Hl. congruence. }
      exists ln. replace (k - i) with (S (k - S i)) in Hl, Hall by lia.
      split_and!; [lia|done..|]. intros j l Hj Hlj. apply (Hall (S j)); [lia|done].
Qed.

Lemma scan_lines_bounds lo i lines s :
  lo <= i -> lo <= sc_end s < i + length lines -> lo <= sc_end (scan_lines i lines s) < i + length lines.
Proof.
  revert i s. induction lines as [|raw lines IH]; intros i s Hi Hs; [done|]. cbn [scan_lines length] in *.
  rewrite Nat.add_succ_r in *. cbv zeta.
  assert (forall s', lo <= sc_end s' < S i + length lines -> lo <= sc_end (scan_lines (S i) lines s') < S (i + length lines)) as Hstep.
  { intros s' Hs'. apply (IH (S i) s'); [lia|done]. }
  repeat case_match; try apply Hstep; cbn [sc_end scan_braces]; lia.
Qed.

Lemma scan_headers_bounds lo i lines e :
  lo <= i -> lo <= e < i + length lines -> lo <= scan_headers i lines e < i + length lines.
Proof.
  revert i e. induction lines as [|raw lines IH]; intros i e Hi He; [done|]. cbn [scan_headers length] in *.
  rewrite Nat.add_succ_r in *. cbv zeta.
  assert (forall e', lo <= e' < S i + length lines -> lo <= scan_headers (S i) lines e' < S (i + length lines)) as Hstep.
  { intros e' He'. apply (IH (S i) e'); [lia|done]. }
  repeat case_match; try apply Hstep; lia.
Qed.

(** What is extracted is a non-empty run of lines of the reply from the first one that
    starts like Solidity, and nothing is extracted exactly when no line does. *)
Lemma extract_solidity_span text :
  let lines := splitlines (strip_fences text) in
  match solidity_span lines with
  | None => extract_solidity text = "" /\ forall l, l ∈ lines -> is_solidity_start (strip l) = false
  | Some (start, e) =>
      start <= e < length lines /\
      extract_solidity text = strip (unlines (take (e + 1 - start) (drop start lines))) /\
      (exists ln, lines !! start = Some ln /\ is_solidity_start (strip ln) = true) /\
      forall j l, j < start -> lines !! j = Some l -> is_solidity_start (strip l) = false
  end.
Proof.
  cbv zeta. unfold extract_solidity. set (lines := splitlines (strip_fences text)). unfold solidity_span.
  destruct (find_start lines 0) as [start|] eqn:Hf; cbn [mbind option_bind].
  - apply find_start_spec in Hf as (ln & _ & Hl & Hs & Hall). rewrite Nat.sub_0_r in *.
    assert (start < length lines) as Hlt by (by eapply lookup_lt_Some).
    assert (start + length (drop start lines) = length lines) as Hlen by (rewrite length_drop; lia).
    split; [|split_and!; [done|by exists ln|done]].
    case_match; rewrite <- Hlen; [apply scan_lines_bounds|apply scan_headers_bounds]; cbn [sc_end]; lia.
  - split; [done|]. intros l (j & Hl)%list_elem_of_lookup. apply not_true_iff_false. intros Hs.
    assert (exists k, find_start lines 0 = Some k) as [k Hk]; [|congruence].
    clear Hf. revert Hl. generalize 0. revert j. induction lines as [|l0 ls IH]; intros j i Hl; [done|]. cbn [find_start].
    destruct (is_solidity_start (strip l0)) eqn:H0; [by eexists|]. destruct j as [|j]; cbn in Hl; [congruence|]. by eapply IH.
Qed.

Example extract_prose :
  extract_solidity (unlines ["Let me fix it."; "pragma solidity ^0.8;"; "contract T {"; "  function f() public {}"; "}"; "This {works}."]) =
  unlines ["pragma solidity ^0.8;"; "contract T {"; "  function f() public {}"; "}"].
Proof. vm_compute. reflexivity. Qed.

Example leaf_contract :
  scaffold_base_name (unlines ["contract Base { }"; "// contract Old {"; "abstract contract Leaf is Base, Test {"; "}"]) = Some "Leaf".
Proof. vm_compute. reflexivity. Qed.
