(* ===== verification/ExploitLoop.v ===== *)
(** * The agentic exploit loop (scripts/exploit_loop.py)

    Draft, run, observe, read again, draft again, under a budget.  The model client,
    the sandboxed run, the read-only tools, the sanitizer and the clock are
    parameters; the state of a call is the world they act on, the log, and history
    variables that record which replies were received, which requests were resolved
    and which drafts were run. *)

From stdpp Require Import gmap.
From S2P Require Import Prelude PyStr PyRe PyPath PyVal PyNum Relay SolIndex SolUtils Grounding.

(** ** Observations *)

Definition RUpperScore : re := RSet (fun c => is_upper c || Ascii.eqb c "_").
Definition anchored (body : re) : re := RAll [RBol true; RMany RSpace; body; RMany RSpace; REol true].

Definition READ_RE : re := anchored (RAll [RStr "READ:"; RMany RSpace; RGroup 1 (RSome (RSet (fun c => negb (is_space c))))]).
Definition GREP_RE : re := anchored (RAll [RStr "GREP:"; RMany RSpace; RGroup 1 (RSomeLazy RDot)]).
Definition LOOKUP_RE : re := anchored (RAll [RStr "LOOKUP:"; RMany RSpace; RGroup 1 (RSome (RSet (fun c => negb (is_space c))))]).
(** [^\s*([A-Z_]{2,}):\s] *)
Definition ANY_VERB_RE : re :=
  RAll [RBol true; RMany RSpace; RGroup 1 (RSeq (RTimes 2 RUpperScore) (RMany RUpperScore)); RChr ":"; RSpace].
Definition READ_ONLY_VERBS : list string := ["READ"; "GREP"; "LOOKUP"].

Definition LEFT_RE : re := anchored (RAll [RStr "Left:"; RMany RSpace; RGroup 1 (RSomeLazy RDot)]).
Definition RIGHT_RE : re := anchored (RAll [RStr "Right:"; RMany RSpace; RGroup 1 (RSomeLazy RDot)]).
(** [[-\w.]+] *)
Definition ROperand : re := RSome (RSet (fun c => is_word c || in_chars "-." c)).
Definition FAIL_NEQ_RE : re :=
  RAll [RStr "[FAIL:"; RManyLazy (RNoneOf "]"); RGroup 1 ROperand; RMany RSpace; RStr "!="; RMany RSpace;
        RGroup 2 ROperand; RMany (RNoneOf "]"); RChr "]"].
Definition ASSERT_MARKERS : list string := ["not satisfied"; "assertion failed"].
Definition REVERT_MARKERS : list string := ["EvmError"; "[Revert]"; "revert"].

Record FailureObservation := mkObs {
  ob_kind : string;
  ob_actual : string;
  ob_expected : string;
  ob_trajectory : list string;
  ob_access_control : option (string * string);
}.

Definition informative (o : FailureObservation) : bool :=
  truthy (ob_actual o) || truthy (ob_expected o) || negb (bool_decide (ob_trajectory o = []))
  || negb (is_none (ob_access_control o)).

Definition py_or (a b : string) : string := if truthy a then a else b.

Definition classify_kind (blob : string) : string :=
  if negb (bool_decide (error_signature blob = [])) then "compile"
  else if existsb (fun m => contains m blob) ASSERT_MARKERS || re_test FAIL_NEQ_RE blob then "assert_false"
  else if existsb (fun m => contains m blob) REVERT_MARKERS then "revert"
  else "unknown".

Definition GAS_RE : re := RAll [RChr "["; RSome RDigit; RChr "]"].
(** [[│├└─\s]+] *)
Definition GLYPHS_RE : re := RSome (RAny [RStr "│"; RStr "├"; RStr "└"; RStr "─"; RSpace]).

(** One line of the trace: [None] when it is no call frame *)
Definition call_frame (line : string) : option string :=
  let stripped := strip line in
  if truthy stripped && contains "::" stripped && (re_test GAS_RE stripped || contains "─" stripped)
  then Some (strip (re_sub GLYPHS_RE " " stripped)) else None.

(** The lines after the first "Traces:", the other lines holding it left out *)
Fixpoint trace_lines (in_traces : bool) (lines : list string) : list string :=
  match lines with
  | [] => []
  | line :: lines' =>
      if contains "Traces:" line then trace_lines true lines'
      else if in_traces then line :: trace_lines in_traces lines'
      else trace_lines in_traces lines'
  end.

Definition TRAJECTORY_HEAD : nat := 14.
Definition TRAJECTORY_TAIL : nat := 8.

Definition extract_trajectory (blob : string) : list string :=
  let calls := omap call_frame (trace_lines false (splitlines blob)) in
  if length calls <=? TRAJECTORY_HEAD + TRAJECTORY_TAIL then calls
  else take TRAJECTORY_HEAD calls ++ ["… (trace elided) …"] ++ drop (length calls - TRAJECTORY_TAIL) calls.

Definition actual_expected (blob : string) : string * string :=
  match re_search LEFT_RE blob, re_search RIGHT_RE blob with
  | Some l, Some r => (group_or_empty 1 blob l, group_or_empty 1 blob r)
  | _, _ =>
      match re_search FAIL_NEQ_RE blob with
      | Some m => (group_or_empty 1 blob m, group_or_empty 2 blob m)
      | None => ("", "")
      end
  end.

Definition run_blob (stdout stderr : string) : string := stdout +:+ nls +:+ stderr.

Definition build_observation (stdout stderr : string) : FailureObservation :=
  let blob := run_blob stdout stderr in
  let kind := classify_kind blob in
  let '(actual, expected) := actual_expected blob in
  mkObs kind actual expected
    (if bool_decide (kind ∈ ["assert_false"; "revert"]) then extract_trajectory blob else [])
    (extract_access_control_operands blob).

(** [|actual - expected|] when both are numbers: as integers, else as floats *)
Definition gap (o : FailureObservation) : res (option pyfloat) :=
  match py_int (ob_actual o), py_int (ob_expected o) with
  | Some a, Some e => f ← float_of_int (Z.abs (a - e)); Ok (Some f)
  | _, _ =>
      Ok (a ← py_float (ob_actual o); e ← py_float (ob_expected o); Some (float_abs (float_sub a e)))
  end.

(** ** Verdict of a run *)

Definition SUITE_OK_RE : re := RAll [RStr "Suite result:"; RMany RSpace; RStr "ok"].
Definition PASS_RE : re := RAll [RStr "[PASS"; RBound].
Definition FAILED_RE : re :=
  RAny [RStr "[FAIL"; RAll [RStr "Suite result:"; RMany RSpace; RStr "FAILED"]; RStr "FAILED."].

Definition passed (blob : string) : bool :=
  if re_test SUITE_OK_RE blob then true else re_test PASS_RE blob && negb (re_test FAILED_RE blob).

(** ** The read-only channel *)

Definition verb_marker (s : string) : bool := existsb (fun v => starts_with v s) ["READ:"; "GREP:"; "LOOKUP:"].

(** [re.sub(r"(?<!\n)(?=(?:READ|GREP|LOOKUP):)", "\n", raw)]: a newline at every position
    that starts a marker and does not follow a newline *)
Fixpoint split_verbs (prev : option ascii) (s : string) : string :=
  let rest := match s with "" => "" | String c s' => String c (split_verbs (Some c) s') end in
  if verb_marker s && negb (prev_is (Ascii.eqb nl) prev) then String nl rest else rest.

Definition requests_of (verb : string) (r : re) (raw : string) : list (string * string) :=
  map (fun arg => (verb, arg)) (re_findall1 r raw).

(** The line of a refused verb, for the log: [raw[m.start():].splitlines()[0]] and
    what follows its first colon *)
Definition refusal_arg (raw : string) (m : rmatched) : res string :=
  match splitlines (sdrop (mt_start m) raw) with
  | [] => Raise (Exn "IndexError" "list index out of range")
  | line :: _ =>
      match split_once ":" line with
      | Some (_, rest) => Ok (utake 120 (strip rest))
      | None => Raise (Exn "IndexError" "list index out of range")
      end
  end.

Fixpoint refusals_of (raw : string) (ms : list rmatched) : res (list (string * string)) :=
  match ms with
  | [] => Ok []
  | m :: ms' =>
      let verb := group_or_empty 1 raw m in
      if bool_decide (verb ∈ READ_ONLY_VERBS) then refusals_of raw ms'
      else arg ← refusal_arg raw m; rest ← refusals_of raw ms'; Ok ((verb, arg) :: rest)
  end.

Definition parse_requests (raw : string) : res (list (string * string) * list (string * string)) :=
  let raw := split_verbs None raw in
  let reads := requests_of "READ" READ_RE raw ++ requests_of "GREP" GREP_RE raw ++ requests_of "LOOKUP" LOOKUP_RE raw in
  refusals ← refusals_of raw (re_finditer ANY_VERB_RE raw);
  Ok (reads, refusals).

Definition render_match (m : Symbol) : string :=
  "// " +:+ sy_contract m +:+ " (" +:+ sy_kind m +:+ ")" +:+ nls +:+ sy_definition m.

Definition render_symbol_lookup (name : string) (matches : list Symbol) : string :=
  match matches with
  | [] => name +:+ ": NOT FOUND in the target project — do not use this name."
  | _ =>
      name +:+ " resolved to " +:+ pretty (length matches) +:+ " definition(s):" +:+ nls +:+ nls
      +:+ join (nls +:+ nls) (map render_match matches)
  end.

Fixpoint drop_leading_dots (parts : path) : path :=
  match parts with
  | p :: parts' => if bool_decide (p ∈ [".."; "."]) then drop_leading_dots parts' else parts
  | [] => []
  end.

Definition resolve_read_path (arg : string) (audit_root : path) : string :=
  let p := to_path arg in
  if is_absolute p then path_str p
  else match drop_leading_dots p with
       | [] => path_str audit_root
       | parts => path_str (path_join audit_root parts)
       end.

(** ** State of the loop *)

Record Iteration := mkIteration {
  it_sig : list string;
  it_spin : nat;
  it_distinct : nat;
  it_gap : option pyfloat;
  it_kind : string;
  it_informative : bool;
}.

Record LoopState := mkState {
  calls_used : nat;
  spin_count : nat;
  prev_sig : option (list string);
  distinct_sigs : gset (list string);
  assertion_gaps : list pyfloat;
  iterations : list Iteration;
  degenerate_retries : nat;
}.

Definition initial_state : LoopState := mkState 0 0 None ∅ [] [] 0.

Definition record (s : LoopState) (sig : list string) (o : FailureObservation) : res LoopState :=
  let distinct := {[sig]} ∪ distinct_sigs s in
  let spin := if negb (bool_decide (sig = [])) && bool_decide (Some sig = prev_sig s) then S (spin_count s) else 0 in
  g ← gap o;
  Ok (mkState (calls_used s) spin (Some sig) distinct
        (assertion_gaps s ++ option_list g)
        (iterations s ++ [mkIteration sig spin (size distinct) g (ob_kind o) (informative o)])
        (degenerate_retries s)).

Definition add_call (s : LoopState) : LoopState :=
  mkState (S (calls_used s)) (spin_count s) (prev_sig s) (distinct_sigs s) (assertion_gaps s) (iterations s)
    (degenerate_retries s).
Definition add_retry (s : LoopState) : LoopState :=
  mkState (calls_used s) (spin_count s) (prev_sig s) (distinct_sigs s) (assertion_gaps s) (iterations s)
    (S (degenerate_retries s)).

Inductive outcome := triggered | budget_exhausted | spin_stopped | no_code.
#[export] Instance outcome_eq_dec : EqDecision outcome.
Proof. solve_decision. Defined.

Record LoopResult := mkResult {
  lr_outcome : outcome;
  lr_code : string;
  lr_state : LoopState;
  lr_calls_used : nat;
}.

Inductive event :=
  | read_refused (verb arg reason : string)
  | loop_force_commit (used : nat)
  | loop_degenerate_retry (iteration retry total : nat)
  | loop_no_code (iteration total : nat)
  | loop_triggered (iteration : nat)
  | loop_iteration (iteration : nat) (kind : string) (inform : bool) (spin distinct : nat)
  | loop_spin_stop (iteration : nat).

(** A hit of the search tool *)
Record Hit := mkHit { h_file : string; h_line : Z; h_text : string }.

(** A draft that was run, with what the run printed *)
Record attempt := mkAttempt { at_code : string; at_stdout : string; at_stderr : string }.
Definition at_blob (a : attempt) : string := run_blob (at_stdout a) (at_stderr a).
Definition at_sig (a : attempt) : list string :=
  match fail_signature (at_blob a) with [] => error_signature (at_blob a) | sig => sig end.
Definition at_compiled (a : attempt) : bool := compiled (at_stdout a) (at_stderr a).

(** The world, the log, and the history: the prompts sent with their replies, the
    requests resolved, the drafts run. *)
Record Run (W : Type) := mkRun {
  r_world : W;
  r_log : list event;
  r_replies : list (string * string);
  r_reads : list (string * string);
  r_attempts : list attempt;
}.
Arguments mkRun {W} _ _ _ _ _.
Arguments r_world {W} _.
Arguments r_log {W} _.
Arguments r_replies {W} _.
Arguments r_reads {W} _.
Arguments r_attempts {W} _.

Definition DEFAULT_BUDGET_CALLS : nat := 8.
Definition DEFAULT_SPIN_K : nat := 3.
Definition DEFAULT_READ_MAX_HITS : nat := 40.
Definition DEFAULT_RETRY_CAP : nat := 2.
Definition READ_TEXT_CAP : nat := Z.to_nat 8000.

Definition READ_PROTOCOL_CONTINUE : string :=
  nls +:+ nls +:+ "Continue: return the FINAL Solidity source only (no more READ:/GREP:/LOOKUP: lines, no prose, no fences).".
Definition FORCE_COMMIT : string :=
  nls +:+ nls +:+ "STOP. You have used your reads. Return the FINAL Foundry Solidity source NOW as your entire reply — " +:+
  "starting with `// SPDX` or `pragma` — no READ:/GREP:/LOOKUP: lines, no prose, no explanation, no markdown fences.".
Definition BASE_INSTRUCTION : string :=
  nls +:+ "[DATA END]" +:+ nls +:+
  "The PoC above COMPILED and reached execution. Start from IT and make the SMALLEST change that fixes the failure below — " +:+
  "do NOT rewrite from scratch, do NOT drop working setup, do NOT reintroduce compile errors.".
Definition FIX_INSTRUCTION : string :=
  nls +:+ nls +:+ "Your previous attempt did NOT trigger the exploit assertion. The forge output above is the ACTUAL failure. " +:+
  "Fix it — READ:/GREP:/LOOKUP: the real target source and types as needed — then return the corrected FINAL Solidity only.".

(** ** Data framing *)

Section framing.
Context (sanitize : string -> Sanitized).

Definition wrap_data (tag body : string) : string :=
  let clean := sanitize body in
  "[DATA START " +:+ tag +:+ "]"
  +:+ (if bool_decide (san_flags clean = []) then "" else " (flags: " +:+ join ", " (san_flags clean) +:+ ")")
  +:+ nls +:+ normalized clean +:+ nls +:+ "[DATA END]".

Definition observation_lines (o : FailureObservation) : list string :=
  ["kind: " +:+ ob_kind o]
  ++ (if truthy (ob_actual o) || truthy (ob_expected o) then
        ["your exploit asserted " +:+ py_or (ob_expected o) "<expected>" +:+ " but the actual on-chain value was "
         +:+ py_or (ob_actual o) "<unknown>"] else [])
  ++ (match ob_access_control o with
      | Some (account, role) =>
          ["AccessControl revert: your caller " +:+ account +:+ " does NOT hold the required role " +:+ role
           +:+ ". Read getRoleMember/hasRole and prank as a current holder (or grant the "
           +:+ "role in setup if the finding allows) - do not call from an address that lacks it."]
      | None => []
      end)
  ++ (if bool_decide (ob_trajectory o = []) then []
      else "call trajectory that produced it:" :: map (fun t => "  " +:+ t) (ob_trajectory o))
  ++ (if informative o then [] else ["(no actual-vs-expected or trajectory could be extracted)"]).

Definition render (o : FailureObservation) : string := wrap_data "failure_observation" (unlines (observation_lines o)).
End framing.

(** ** The loop *)

Section loop.
Context {W : Type}.
Context (sanitize : string -> Sanitized).
Context (generate : string -> ST W string).
Context (run_poc : string -> ST W (string * string)).
Context (read_file : string -> path -> W -> res string).
Context (search_code : string -> path -> W -> res (list Hit)).
Context (is_tool_error : exn -> bool).
Context (monotonic : ST W Z).
Context (symbol_index : option SymbolIndex) (audit_root : path).
Context (draft_prompt : string) (budget_calls : nat) (budget_deadline : option Z) (spin_k read_budget retry_cap : nat).

Abbreviation M := (ST (Run W)).

Definition log (e : event) : M unit :=
  st_modify (fun r => mkRun (r_world r) (r_log r ++ [e]) (r_replies r) (r_reads r) (r_attempts r)).

Definition in_world {A} (m : ST W A) : M A := fun r =>
  let '(w, o) := m (r_world r) in (mkRun w (r_log r) (r_replies r) (r_reads r) (r_attempts r), o).

(** [client.generate(cur, options=options)], noting the reply *)
Definition ask (cur : string) : M string :=
  raw ← in_world (generate cur);
  _ ← st_modify (fun r => mkRun (r_world r) (r_log r) (r_replies r ++ [(cur, raw)]) (r_reads r) (r_attempts r));
  mret raw.

(** [run_poc(code)], noting the attempt *)
Definition try_poc (code : string) : M attempt :=
  out ← in_world (run_poc code);
  let a := mkAttempt code out.1 out.2 in
  _ ← st_modify (fun r => mkRun (r_world r) (r_log r) (r_replies r) (r_reads r) (r_attempts r ++ [a]));
  mret a.

Definition resolve_one (verb arg : string) (w : W) : res string :=
  if String.eqb verb "READ" then
    text ← read_file (resolve_read_path arg audit_root) audit_root w;
    Ok ("READ " +:+ arg +:+ ":" +:+ nls +:+ utake READ_TEXT_CAP text)
  else if String.eqb verb "GREP" then
    hits ← search_code arg audit_root w;
    let body := unlines (map (fun h => h_file h +:+ ":" +:+ pretty (h_line h) +:+ ": " +:+ h_text h)
                           (take DEFAULT_READ_MAX_HITS hits)) in
    Ok ("GREP " +:+ repr_str arg +:+ ":" +:+ nls +:+ py_or body "(no matches)")
  else
    Ok (render_symbol_lookup arg (match symbol_index with Some ix => lookup ix arg | None => [] end)).

Fixpoint resolve_blocks (batch : list (string * string)) : M (list string) :=
  match batch with
  | [] => mret []
  | (verb, arg) :: batch' =>
      _ ← st_modify (fun r => mkRun (r_world r) (r_log r) (r_replies r) (r_reads r ++ [(verb, arg)]) (r_attempts r));
      o ← st_gets (fun r => resolve_one verb arg (r_world r));
      block ← match o with
              | Ok block => mret block
              | Raise e =>
                  if is_tool_error e then
                    _ ← log (read_refused verb (utake 80 arg) (utake 300 (exn_msg e)));
                    mret (verb +:+ " " +:+ arg +:+ ": REFUSED (" +:+ exn_msg e +:+ "). Continue without it.")
                  else st_lift (Raise e)
              end;
      rest ← resolve_blocks batch';
      mret (block :: rest)
  end.

Definition resolve_reads (batch : list (string * string)) : M string :=
  blocks ← resolve_blocks batch;
  mret (wrap_data sanitize "read_response" (join (nls +:+ nls) blocks)).

Fixpoint log_refusals (refusals : list (string * string)) : M unit :=
  match refusals with
  | [] => mret tt
  | (verb, arg) :: rest => _ ← log (read_refused verb (utake 80 arg) "not a read-only verb"); log_refusals rest
  end.

(** The variables of the read round trip *)
Record GenVars := mkGen { g_used : nat; g_forced : bool; g_cur : string }.

Definition gen_turn (v : GenVars) : M (GenVars + string) :=
  raw ← ask (g_cur v);
  '(reads, refusals) ← st_lift (parse_requests raw);
  _ ← log_refusals refusals;
  if negb (bool_decide (reads = [])) && (g_used v <? read_budget) then
    let batch := take (read_budget - g_used v) reads in
    answer ← resolve_reads batch;
    mret (inl (mkGen (g_used v + length batch) (g_forced v) (g_cur v +:+ nls +:+ nls +:+ answer +:+ READ_PROTOCOL_CONTINUE)))
  else
    let code := extract_solidity raw in
    if truthy code || g_forced v then mret (inr code)
    else
      _ ← log (loop_force_commit (g_used v));
      mret (inl (mkGen (g_used v) true (g_cur v +:+ FORCE_COMMIT))).

(** The bound on the turns is never reached ([gen_turns]). *)
Definition generate_with_reads (prompt : string) : M string :=
  o ← iter_st gen_turn (read_budget + 2) (mkGen 0 false prompt);
  match o with Some code => mret code | None => st_lift (Raise (Exn "OutOfTurns" "")) end.

(** The re-rolls of a draft without code: [left] are still allowed *)
Fixpoint reroll (left : nat) (prompt : string) (retries : nat) (s : LoopState) (code : string) : M (LoopState * string) :=
  match left with
  | 0 => mret (s, code)
  | S left' =>
      if truthy (strip code) then mret (s, code)
      else
        let s := add_retry s in
        _ ← log (loop_degenerate_retry (calls_used s + 1) (S retries) (degenerate_retries s));
        code ← generate_with_reads prompt;
        reroll left' prompt (S retries) s code
  end.

(** The variables of the loop *)
Record LoopVars := mkVars { lv_state : LoopState; lv_prompt : string; lv_last_compiling : string }.

Definition base_block (base : string) : string :=
  if truthy base then nls +:+ nls +:+ "[DATA START last_compiling_poc]" +:+ nls +:+ base +:+ BASE_INSTRUCTION else "".

Definition redraft_prompt (last_compiling : string) (a : attempt) : string :=
  let feedback := wrap_data sanitize "forge_output"
    (strip (ulast (Z.to_nat 4000) (at_stdout a) +:+ nls +:+ ulast (Z.to_nat 2000) (at_stderr a))) in
  let base := if at_compiled a then at_code a else last_compiling in
  draft_prompt +:+ base_block base +:+ nls +:+ nls +:+ feedback +:+ nls +:+ nls
  +:+ render sanitize (build_observation (at_stdout a) (at_stderr a)) +:+ FIX_INSTRUCTION.

Definition past_deadline : M bool :=
  match budget_deadline with
  | None => mret false
  | Some d => now ← in_world monotonic; mret (d <=? now)%Z
  end.

Definition finish (o : outcome) (code : string) (s : LoopState) : LoopResult := mkResult o code s (calls_used s).

(** What follows a run that did not pass *)
Definition after_failure (v : LoopVars) (s : LoopState) (a : attempt) : M (LoopVars + LoopResult) :=
  let last_compiling := if at_compiled a then at_code a else lv_last_compiling v in
  let obs := build_observation (at_stdout a) (at_stderr a) in
  s ← st_lift (record s (at_sig a) obs);
  _ ← log (loop_iteration (calls_used s) (ob_kind obs) (informative obs) (spin_count s) (size (distinct_sigs s)));
  if budget_calls <=? calls_used s then mret (inr (finish budget_exhausted (at_code a) s))
  else
    late ← past_deadline;
    if (late : bool) then mret (inr (finish budget_exhausted (at_code a) s))
    else if spin_k <=? spin_count s then
      _ ← log (loop_spin_stop (calls_used s));
      mret (inr (finish spin_stopped (at_code a) s))
    else mret (inl (mkVars s (redraft_prompt last_compiling a) last_compiling)).

Definition loop_turn (v : LoopVars) : M (LoopVars + LoopResult) :=
  code ← generate_with_reads (lv_prompt v);
  '(s, code) ← reroll retry_cap (lv_prompt v) 0 (lv_state v) code;
  if negb (truthy (strip code)) then
    _ ← log (loop_no_code (calls_used s + 1) (degenerate_retries s));
    mret (inr (finish no_code code s))
  else
    a ← try_poc code;
    let s := add_call s in
    if passed (at_blob a) then
      _ ← log (loop_triggered (calls_used s));
      mret (inr (finish triggered code s))
    else after_failure v s a.

(** The bound on the turns is never reached ([loop_turns]). *)
Definition run : M LoopResult :=
  o ← iter_st loop_turn (Nat.max 1 budget_calls) (mkVars initial_state draft_prompt "");
  match o with Some r => mret r | None => st_lift (Raise (Exn "OutOfTurns" "")) end.
End loop.

(** ** Missing imports of the bases *)

Definition STD_BASES : list string := ["Test"; "DSTest"; "Script"; "CommonBase"; "StdAssertions"; "StdCheats"].
(** [contract\s+\w+\s+is\s+([^{]+?)\s*\{] *)
Definition INHERIT_RE : re :=
  RAll [RStr "contract"; RSome RSpace; RSome RWord; RSome RSpace; RStr "is"; RSome RSpace; RGroup 1 (RSomeLazy (RNoneOf "{"));
        RMany RSpace; RChr "{"].
Definition imports_base_re (base : string) : re :=
  RAll [RStr "import"; RMany (RSet (fun c => negb (Ascii.eqb c nl || Ascii.eqb c ";"))); RBound; RStr base; RBound].
Definition PRAGMA_LINE_RE : re := RAll [RStr "pragma"; RMany (RSet (fun c => negb (Ascii.eqb c nl))); RChr nl].

Definition import_line (base rel : string) : string :=
  "import { " +:+ base +:+ " } from " +:+ dquote +:+ rel +:+ dquote +:+ ";" +:+ nls.

(** [re.sub(pragma, r"\1" + line, code, count=1)] *)
Definition insert_after_pragma (line code : string) : string :=
  match re_search PRAGMA_LINE_RE code with
  | Some m => stake (mt_end m) code +:+ line +:+ sdrop (mt_end m) code
  | None => code
  end.

Section bases.
Context (cwd poc_dir : path) (ix : SymbolIndex).

Definition is_contract_like (m : Symbol) : bool := bool_decide (sy_kind m ∈ ["contract"; "interface"]).

(** One base: the code after it, and whether an import was added for it *)
Definition ensure_base (base code : string) : string * bool :=
  if negb (truthy base) || bool_decide (base ∈ STD_BASES) then (code, false)
  else if re_test (imports_base_re base) code then (code, false)
  else match List.filter is_contract_like (lookup ix base) with
       | [] => (code, false)
       | sym :: _ => (insert_after_pragma (import_line base (relpath cwd (sy_file sym) poc_dir)) code, true)
       end.

Fixpoint ensure_bases (bases : list string) (code : string) (changed : bool) : string * bool :=
  match bases with
  | [] => (code, changed)
  | base :: bases' =>
      let '(code, c) := ensure_base base code in ensure_bases bases' code (changed || c)
  end.

Definition inherited_bases (code : string) : option (list string) :=
  m ← last (re_finditer INHERIT_RE code);
  Some (map strip (split_char "," (group_or_empty 1 code m))).

End bases.

Definition ensure_base_imports (cwd poc_dir : path) (symbol_index : option SymbolIndex) (code : string) : string * bool :=
  match symbol_index, inherited_bases code with
  | Some ix, Some bases => ensure_bases cwd poc_dir ix bases code false
  | _, _ => (code, false)
  end.

(** ** Specification of the loop's state

    What the loop keeps is a function of the drafts it ran. *)

Definition at_obs (a : attempt) : FailureObservation := build_observation (at_stdout a) (at_stderr a).
Definition at_failed (a : attempt) : Prop := passed (at_blob a) = false.

(** How often the first signature of the list (the latest first) repeats at its head *)
Fixpoint repeats (sigs : list (list string)) : nat :=
  match sigs with
  | x :: ((y :: _) as sigs') => if negb (bool_decide (x = [])) && bool_decide (x = y) then S (repeats sigs') else 0
  | _ => 0
  end.

Definition last_compiling_of (h : list attempt) : string :=
  default "" (last (map at_code (List.filter at_compiled h))).

Record recorded (h : list attempt) (s : LoopState) : Prop := {
  rec_prev : prev_sig s = last (map at_sig h);
  rec_spin : spin_count s = repeats (reverse (map at_sig h));
  rec_distinct : distinct_sigs s = list_to_set (map at_sig h);
  rec_iterations : Forall2 (fun a it => it_sig it = at_sig a /\ it_kind it = ob_kind (at_obs a) /\
    it_informative it = informative (at_obs a) /\ gap (at_obs a) = Ok (it_gap it)) h (iterations s);
  rec_gaps : assertion_gaps s = omap it_gap (iterations s);
}.

(** ** Requests *)

Definition read_only (q : string * string) : Prop := q.1 ∈ READ_ONLY_VERBS.

Lemma parse_requests_read_only raw reads refusals :
  parse_requests raw = Ok (reads, refusals) -> Forall read_only reads.
Proof.
  unfold parse_requests. intros (rf & _ & [= <- <-])%res_bind_Ok. rewrite !Forall_app.
  split_and!; apply Forall_map, Forall_forall; intros x _; unfold read_only, READ_ONLY_VERBS; cbn; set_solver.
Qed.

Lemma refusals_not_read_only raw ms refusals :
  refusals_of raw ms = Ok refusals -> Forall (fun q => ~ read_only q) refusals.
Proof.
  revert refusals. induction ms as [|m ms IH]; intros refusals; cbn [refusals_of]; [by intros [= <-]|].
  case_bool_decide as Hv; [apply IH|]. intros (arg & _ & (rest & Hr & [= <-])%res_bind_Ok)%res_bind_Ok.
  constructor; [exact Hv|by apply IH].
Qed.

(** A verb line after a blank line, as in a reply that opens a paragraph with "NOTE: ",
    raises: the match starts at the blank line, which has no colon. *)
Lemma blank_line_before_verb_raises :
  parse_requests ("Analysis." +:+ nls +:+ nls +:+ "NOTE: the cap binds.") = Raise (Exn "IndexError" "list index out of range") /\
  parse_requests ("Analysis." +:+ nls +:+ "NOTE: the cap binds.") = Ok ([], [("NOTE", "the cap binds.")]).
Proof. vm_compute. done. Qed.

Example requests_split :
  parse_requests ("READ: a.solREAD: b/c.sol" +:+ nls +:+ "GREP: set cap  " +:+ nls +:+ "LOOKUP: Vault" +:+ nls +:+ "WRITE: x.sol") =
  Ok ([("READ", "a.sol"); ("READ", "b/c.sol"); ("GREP", "set cap"); ("LOOKUP", "Vault")], [("WRITE", "x.sol")]).
Proof. vm_compute. done. Qed.

Lemma drop_leading_dots_spec parts :
  (exists k, drop_leading_dots parts = drop k parts) /\
  forall p, head (drop_leading_dots parts) = Some p -> p ∉ [".."; "."].
Proof.
  induction parts as [|p parts [[k Hk] IH]]; cbn [drop_leading_dots]; [split; [by exists 0|done]|].
  case_bool_decide as Hp.
  - split; [by exists (S k)|done].
  - split; [by exists 0|]. by intros q [= <-].
Qed.

(** ** The state follows the drafts *)

Lemma recorded_initial : recorded [] initial_state.
Proof. by constructor. Qed.

Lemma repeats_last sigs x :
  repeats (reverse (sigs ++ [x])) =
  if negb (bool_decide (x = [])) && bool_decide (Some x = last sigs) then S (repeats (reverse sigs)) else 0.
Proof.
  rewrite reverse_app. destruct sigs as [|y sigs] using rev_ind.
  { cbn. by rewrite andb_false_r. }
  rewrite last_snoc, !reverse_app. cbn [reverse rev_append app].
  change (repeats (x :: y :: reverse sigs)) with
    (if negb (bool_decide (x = [])) && bool_decide (x = y) then S (repeats (y :: reverse sigs)) else 0).
  by rewrite (bool_decide_ext (Some x = Some y) (x = y)) by (split; congruence).
Qed.

(** [n] repeats are [n + 1] equal, non-empty signatures in a row. *)
Lemma repeats_spec sigs n :
  S n <= repeats sigs <-> exists x, x <> [] /\ take (S (S n)) sigs = repeat x (S (S n)).
Proof.
  revert n. induction sigs as [|x sigs IH]; intros n; [split; [cbn; lia|by intros (? & _ & ?)]|].
  destruct sigs as [|y sigs]; [split; [cbn; lia|by intros (? & _ & ?)]|].
  change (repeats (x :: y :: sigs)) with
    (if negb (bool_decide (x = [])) && bool_decide (x = y) then S (repeats (y :: sigs)) else 0).
  destruct (decide (x <> [] /\ x = y)) as [[Hx <-]|Hno].
  - rewrite (bool_decide_eq_false_2 _ Hx), bool_decide_eq_true_2 by done. cbn [negb andb].
    destruct n as [|n]; [split; [|lia]; intros _; by exists x|].
    transitivity (S n <= repeats (x :: sigs)); [lia|]. rewrite IH. split.
    + intros (z & Hz & Ht). exists z. split; [done|]. cbn in Ht |- *. congruence.
    + intros (z & Hz & Ht). exists z. split; [done|]. cbn in Ht |- *. congruence.
  - assert (negb (bool_decide (x = [])) && bool_decide (x = y) = false) as ->.
    { apply andb_false_iff. destruct (decide (x = [])) as [->|Hx]; [by left|right].
      apply bool_decide_eq_false_2. tauto. }
    split; [lia|]. intros (z & Hz & Ht). cbn in Ht. exfalso. apply Hno. split; congruence.
Qed.

Lemma record_recorded h a s s' :
  recorded h s -> record s (at_sig a) (at_obs a) = Ok s' ->
  recorded (h ++ [a]) s' /\ calls_used s' = calls_used s /\ degenerate_retries s' = degenerate_retries s.
Proof.
  intros [Hp Hs Hd Hi Hg] (g & Hgap & [= <-])%res_bind_Ok. cbn [calls_used degenerate_retries]. split; [|done].
  constructor; cbn [prev_sig spin_count distinct_sigs iterations assertion_gaps].
  - rewrite map_app. cbn [map]. by rewrite last_snoc.
  - rewrite map_app. cbn [map]. by rewrite repeats_last, <- Hp, Hs.
  - rewrite map_app, list_to_set_app_L. cbn [map list_to_set]. rewrite Hd. set_solver.
  - apply Forall2_app; [done|]. constructor; [|constructor]. done.
  - rewrite omap_app, Hg. cbn. by destruct g.
Qed.

Lemma last_compiling_snoc h a :
  last_compiling_of (h ++ [a]) = if at_compiled a then at_code a else last_compiling_of h.
Proof.
  unfold last_compiling_of. rewrite List.filter_app. cbn. destruct (at_compiled a).
  - rewrite map_app. cbn [map]. by rewrite last_snoc.
  - by rewrite app_nil_r.
Qed.

(** ** Turns of a draft *)

Section loop_proofs.
Context {W : Type}.
Context (sanitize : string -> Sanitized).
Context (generate : string -> ST W string).
Context (run_poc : string -> ST W (string * string)).
Context (read_file : string -> path -> W -> res string).
Context (search_code : string -> path -> W -> res (list Hit)).
Context (is_tool_error : exn -> bool).
Context (monotonic : ST W Z).
Context (symbol_index : option SymbolIndex) (audit_root : path).
Context (draft_prompt : string) (budget_calls : nat) (budget_deadline : option Z) (spin_k read_budget retry_cap : nat).

Abbreviation blocks := (resolve_blocks read_file search_code is_tool_error symbol_index audit_root).
Abbreviation turn := (gen_turn sanitize generate read_file search_code is_tool_error symbol_index audit_root read_budget).
Abbreviation drafting := (generate_with_reads sanitize generate read_file search_code is_tool_error symbol_index audit_root read_budget).
Abbreviation rerolling := (reroll sanitize generate read_file search_code is_tool_error symbol_index audit_root read_budget).
Abbreviation R := (Run W).

(** Resolving requests leaves the world alone, whatever they ask for. *)
Lemma resolve_blocks_spec batch (r r' : R) o :
  blocks batch r = (r', o) ->
  r_world r' = r_world r /\ r_replies r' = r_replies r /\ r_attempts r' = r_attempts r /\
  exists done rest, batch = done ++ rest /\ r_reads r' = r_reads r ++ done /\
    forall l, o = Ok l -> rest = [] /\ length l = length batch.
Proof.
  revert r o. induction batch as [|[verb arg] batch IH]; intros r o; cbn [resolve_blocks].
  { intros [= <- <-]. split_and!; [done..|]. exists [], []. split_and!; [done|by rewrite app_nil_r|].
    by intros l [= <-]. }
  intros [(s1 & [] & [= <-] & H)|(e & [=] & _)]%st_bind_inv.
  apply st_bind_inv in H as [(s2 & a & [= <- <-] & H)|(e & [=] & _)].
  apply st_bind_inv in H as [(s2 & block & Hb & H)|(e & Hb & ->)].
  - assert (r_world s2 = r_world r /\ r_replies s2 = r_replies r /\ r_attempts s2 = r_attempts r /\
            r_reads s2 = r_reads r ++ [(verb, arg)]) as (Hw & Hr & Ha & Hd).
    { revert Hb. destruct (resolve_one _ _ _ _ _ _ _) as [b|e]; [by intros [= <- <-]|].
      destruct (is_tool_error e); [by intros [= <- <-]|done]. }
    apply st_bind_inv in H as [(s3 & rest & Hrest & [= <- <-])|(e & Hrest & ->)];
      apply IH in Hrest as (Hw' & Hr' & Ha' & dn & rs & -> & Hd' & Hok);
      (split_and!; [congruence..|]); exists ((verb, arg) :: dn), rs;
      (split_and!; [done|by rewrite Hd', Hd, <- app_assoc|]).
    + intros l [= <-]. destruct (Hok _ eq_refl) as [-> Hlen]. cbn. by rewrite Hlen.
    + done.
  - revert Hb. destruct (resolve_one _ _ _ _ _ _ _) as [b|e']; [done|].
    destruct (is_tool_error e'); [done|]. intros [= <- <-]. cbn. split_and!; [done..|].
    exists [(verb, arg)], batch. done.
Qed.

Lemma log_refusals_spec refusals (r : R) :
  exists r', log_refusals refusals r = (r', Ok tt) /\ r_world r' = r_world r /\ r_replies r' = r_replies r /\
    r_attempts r' = r_attempts r /\ r_reads r' = r_reads r.
Proof.
  revert r. induction refusals as [|[verb arg] rest IH]; intros r; [by exists r|].
  cbn [log_refusals]. destruct (IH (log (read_refused verb (utake 80 arg) "not a read-only verb") r).1) as (r' & Hr & H).
  exists r'. split; [exact Hr|done].
Qed.

(** Turns left to a draft, besides the one being made *)
Definition gen_left (v : GenVars) : nat := (read_budget - g_used v) + (if g_forced v then 0 else 1).

Lemma ask_spec cur (r r' : R) o :
  ask generate cur r = (r', o) ->
  r_attempts r' = r_attempts r /\ r_reads r' = r_reads r /\
  match o with Ok raw => r_replies r' = r_replies r ++ [(cur, raw)] | Raise _ => r_replies r' = r_replies r end.
Proof.
  unfold ask. intros [(s1 & raw & H1 & H)|(e & H1 & ->)]%st_bind_inv; revert H1; unfold in_world;
    destruct (generate cur (r_world r)) as [w out]; intros [= <- ->]; [|done].
  by injection H as <- <-.
Qed.

Lemma gen_turn_spec v (r r' : R) o :
  turn v r = (r', o) ->
  r_attempts r' = r_attempts r /\
  ((exists e, o = Raise e /\ r_replies r' = r_replies r /\ r_reads r' = r_reads r) \/
   exists raw batch, r_replies r' = r_replies r ++ [(g_cur v, raw)] /\ r_reads r' = r_reads r ++ batch /\
     Forall read_only batch /\ length batch <= read_budget - g_used v /\
     match o with
     | Ok (inl v') => g_used v' = g_used v + length batch /\ (exists t, g_cur v' = g_cur v +:+ t) /\ gen_left v' < gen_left v
     | Ok (inr code) => code = extract_solidity raw /\ batch = []
     | Raise _ => True
     end).
Proof.
  unfold gen_turn. intros [(r1 & raw & Hask & H)|(e & Hask & ->)]%st_bind_inv;
    apply ask_spec in Hask as (Ha1 & Hd1 & Hr1); [|split; [done|]; left; by exists e].
  apply st_bind_inv in H as [(r2 & [reads refusals] & Hp & H)|(e & [= <- Hp] & ->)].
  2: { split; [done|]. right. exists raw, []. rewrite app_nil_r. split_and!; try done. cbn. lia. }
  injection Hp as <- Hp. destruct (log_refusals_spec refusals r1) as (r3 & Hlog & _ & Hr3 & Ha3 & Hd3).
  rewrite (st_bind_Ok _ _ _ _ _ Hlog) in H.
  destruct (negb (bool_decide (reads = [])) && (g_used v <? read_budget)) eqn:Hgo.
  - boolify. destruct Hgo as [Hne Hlt]. apply Nat.ltb_lt in Hlt. cbv zeta in H.
    apply parse_requests_read_only in Hp.
    set (batch := take (read_budget - g_used v) reads) in *.
    assert (length batch <= read_budget - g_used v) as Hlen by (unfold batch; rewrite length_take; lia).
    assert (0 < length batch) as Hpos by (unfold batch; rewrite length_take; destruct reads; [done|cbn; lia]).
    assert (Forall read_only batch) as Hro by by apply Forall_take.
    apply st_bind_inv in H as [(r4 & answer & Hres & [= <- <-])|(e & Hres & ->)].
    + unfold resolve_reads in Hres. apply st_bind_inv in Hres as [(r5 & bs & Hb & [= <- <-])|(e & _ & [=])].
      apply resolve_blocks_spec in Hb as (_ & Hr5 & Ha5 & dn & rs & Hbatch & Hd5 & Hok).
      destruct (Hok _ eq_refl) as [-> _]. rewrite app_nil_r in Hbatch.
      split; [congruence|]. right. exists raw, batch. split_and!; [congruence|congruence|done|done|done|by eexists|].
      unfold gen_left. cbn [g_used g_forced]. lia.
    + unfold resolve_reads in Hres. apply st_bind_inv in Hres as [(r5 & bs & _ & [=])|(e' & Hb & [= ->])].
      apply resolve_blocks_spec in Hb as (_ & Hr5 & Ha5 & dn & rs & Hbatch & Hd5 & _).
      split; [congruence|]. right. exists raw, dn. rewrite Hbatch in Hro, Hlen. rewrite length_app in Hlen.
      apply Forall_app in Hro as [? _]. split_and!; try done; [congruence|congruence|lia].
  - cbv zeta in H. destruct (truthy (extract_solidity raw) || g_forced v) eqn:Hd.
    + injection H as <- <-. split; [congruence|]. right. exists raw, []. rewrite app_nil_r.
      split_and!; [congruence|congruence|done|cbn; lia|done..].
    + injection H as <- <-. cbn. split; [congruence|]. right. exists raw, []. rewrite app_nil_r.
      split_and!; [congruence|congruence|done|cbn; lia|cbn; lia|by eexists|].
      apply orb_false_iff in Hd as [_ Hf]. unfold gen_left. cbn [g_used g_forced]. rewrite Hf. lia.
Qed.

(** The bound on the turns of a draft is never reached. *)
Lemma gen_turns prompt (r : R) : (iter_st turn (read_budget + 2) (mkGen 0 false prompt) r).2 <> Ok None.
Proof.
  apply (iter_st_total turn (fun _ _ => True) gen_left); [|done|unfold gen_left; cbn; lia].
  intros v s s' v' _ [_ [(e & [=] & _)|(raw & batch & _ & _ & _ & _ & _ & _ & H)]]%gen_turn_spec. done.
Qed.

(** From [r] to [r'] the drafts [h] were run, at most [n] replies to prompts that extend
    [prompt] received and at most [k] requests resolved, read-only ones. *)
Definition grown (prompt : string) (r r' : R) (h : list attempt) (n k : nat) : Prop :=
  r_attempts r' = r_attempts r ++ h /\
  exists replies reads, r_replies r' = r_replies r ++ replies /\ r_reads r' = r_reads r ++ reads /\
    Forall read_only reads /\ Forall (fun q => starts_with prompt q.1 = true) replies /\
    length replies <= n /\ length reads <= k.

Lemma grown_refl prompt (r : R) : grown prompt r r [] 0 0.
Proof. split; [by rewrite app_nil_r|]. exists [], []. rewrite !app_nil_r. split_and!; cbn; auto. Qed.

Lemma grown_trans prompt (r1 r2 r3 : R) h1 h2 n1 n2 k1 k2 :
  grown prompt r1 r2 h1 n1 k1 -> grown prompt r2 r3 h2 n2 k2 -> grown prompt r1 r3 (h1 ++ h2) (n1 + n2) (k1 + k2).
Proof.
  intros (Ha & rs & ds & Hr & Hd & H1 & H2 & H3 & H4) (Ha' & rs' & ds' & Hr' & Hd' & H1' & H2' & H3' & H4').
  split; [by rewrite Ha', Ha, app_assoc|]. exists (rs ++ rs'), (ds ++ ds'). rewrite Hr', Hr, Hd', Hd, <- !app_assoc, !length_app.
  split_and!; [done|done|by apply Forall_app|by apply Forall_app|lia|lia].
Qed.

Lemma grown_weaken prompt (r r' : R) h n k n' k' :
  grown prompt r r' h n k -> n <= n' -> k <= k' -> grown prompt r r' h n' k'.
Proof.
  intros (Ha & rs & ds & Hr & Hd & H1 & H2 & H3 & H4) Hn Hk. split; [done|]. exists rs, ds.
  split_and!; auto with lia.
Qed.

Lemma grown_prompt p q (r r' : R) h n k :
  grown q r r' h n k -> starts_with p q = true -> grown p r r' h n k.
Proof.
  intros (Ha & rs & ds & Hr & Hd & H1 & H2 & H3 & H4) Hp. split; [done|]. exists rs, ds.
  split_and!; try done. eapply Forall_impl; [exact H2|]. intros [x y]; cbn. rewrite !starts_with_spec in *.
  destruct Hp as [t ->]. intros [u ->]. exists (t +:+ u). by rewrite sapp_assoc.
Qed.

(** Invariant of the turns of a draft that started in [r0]. *)
Definition gen_inv (prompt : string) (r0 : R) (v : GenVars) (r : R) : Prop :=
  starts_with prompt (g_cur v) = true /\ g_used v <= read_budget /\
  exists n, n + gen_left v <= read_budget + 1 /\ grown prompt r0 r [] n (g_used v).

Lemma starts_with_more p s t : starts_with p s = true -> starts_with p (s +:+ t) = true.
Proof. rewrite !starts_with_spec. intros [u ->]. exists (u +:+ t). by rewrite sapp_assoc. Qed.

Lemma gen_turn_grown prompt v (r r' : R) o :
  starts_with prompt (g_cur v) = true -> turn v r = (r', o) ->
  grown prompt r r' [] 1 (match o with Ok (inl v') => g_used v' - g_used v | _ => read_budget - g_used v end).
Proof.
  intros Hp [Ha [(e & -> & Hr & Hd)|(raw & batch & Hr & Hd & Hro & Hlen & Ho)]]%gen_turn_spec; (split; [by rewrite app_nil_r|]).
  - exists [], []. rewrite !app_nil_r. split_and!; cbn; auto with lia.
  - exists [(g_cur v, raw)], batch. split_and!; try done; [by repeat constructor|].
    destruct o as [[v'|code]|e]; [|done..]. destruct Ho as (-> & _ & _). lia.
Qed.

Lemma drafting_spec prompt (r r' : R) o :
  drafting prompt r = (r', o) ->
  grown prompt r r' [] (read_budget + 2) read_budget /\
  forall code, o = Ok code -> exists q, last (r_replies r') = Some q /\ code = extract_solidity q.2.
Proof.
  unfold generate_with_reads. intros H.
  assert (gen_inv prompt r (mkGen 0 false prompt) r) as Hinv.
  { split; [apply starts_with_spec; exists ""; by rewrite sapp_nil_r|]. split; [cbn; lia|].
    exists 0. split; [unfold gen_left; cbn; lia|apply grown_refl]. }
  assert (forall v s s' v', gen_inv prompt r v s -> turn v s = (s', Ok (inl v')) -> gen_inv prompt r v' s') as Hpres.
  { intros v s s' v' (Hc & Hu & n & Hn & Hg) Ht. pose proof (gen_turn_grown _ _ _ _ _ Hc Ht) as Hg'.
    apply gen_turn_spec in Ht as [_ [(e & [=] & _)|(raw & batch & _ & _ & _ & Hlen & Hu' & [t Hc'] & Hl)]].
    split; [rewrite Hc'; by apply starts_with_more|]. split; [lia|]. exists (n + 1). split; [lia|].
    eapply grown_weaken; [exact (grown_trans _ _ _ _ _ _ _ _ _ _ Hg Hg')|lia|lia]. }
  destruct (iter_st turn (read_budget + 2) (mkGen 0 false prompt) r) as [r1 o1] eqn:Hit.
  pose proof (gen_turns prompt r) as Hne. rewrite Hit in Hne. cbn in Hne.
  pose proof (iter_st_invariant _ _ _ _ _ _ _ Hpres Hinv Hit) as Hres.
  assert (forall o', o' = match o1 with Ok (Some c) => Ok c | Ok None => Raise (Exn "OutOfTurns" "") | Raise e => Raise e end ->
    (r', o) = (r1, o')) as Hro.
  { intros o' ->. rewrite <- H. unfold mbind, st_bind. rewrite Hit. by destruct o1 as [[c|]|e]. }
  destruct o1 as [[code|]|e]; [|done|].
  - destruct Hres as (v1 & s1 & (Hc & Hu & n & Hn & Hg) & Ht).
    pose proof (gen_turn_grown _ _ _ _ _ Hc Ht) as Hg'. injection (Hro _ eq_refl) as -> ->.
    split; [eapply grown_weaken; [exact (grown_trans _ _ _ _ _ _ _ _ _ _ Hg Hg')|lia|lia]|].
    intros c [= <-]. apply gen_turn_spec in Ht as [_ [(e & [=] & _)|(raw & batch & Hr & _ & _ & _ & Hcode & _)]].
    exists (g_cur v1, raw). by rewrite Hr, last_snoc.
  - injection (Hro _ eq_refl) as -> ->. destruct Hres as (v1 & s1 & (Hc & Hu & n & Hn & Hg) & Ht).
    pose proof (gen_turn_grown _ _ _ _ _ Hc Ht) as Hg'.
    split; [eapply grown_weaken; [exact (grown_trans _ _ _ _ _ _ _ _ _ _ Hg Hg')|lia|lia]|done].
Qed.

(** ** Re-rolls *)

(** [s'] is [s] but for [j] more degenerate retries. *)
Definition retried (j : nat) (s s' : LoopState) : Prop :=
  s' = mkState (calls_used s) (spin_count s) (prev_sig s) (distinct_sigs s) (assertion_gaps s) (iterations s)
         (degenerate_retries s + j).

Lemma reroll_spec left prompt k s code (r r' : R) o :
  rerolling left prompt k s code r = (r', o) ->
  grown prompt r r' [] (left * (read_budget + 2)) (left * read_budget) /\
  forall s' code', o = Ok (s', code') ->
    exists j, j <= left /\ retried j s s' /\ (truthy (strip code') = false -> j = left).
Proof.
  revert k s code r. induction left as [|left IH]; intros k s code r; cbn [reroll].
  { intros [= <- <-]. split; [apply grown_refl|]. intros s' code' [= <- <-]. exists 0. split_and!; [lia| |done].
    unfold retried. rewrite Nat.add_0_r. by destruct s. }
  destruct (truthy (strip code)) eqn:Hc.
  { intros [= <- <-]. split; [eapply grown_weaken; [apply grown_refl|lia..]|].
    intros s' code' [= <- <-]. exists 0. split_and!; [lia| |congruence].
    unfold retried. rewrite Nat.add_0_r. by destruct s. }
  intros [(r1 & [] & Hl & H)|(e & [=] & _)]%st_bind_inv.
  assert (grown prompt r r1 [] 0 0) as Hg1 by (injection Hl as <-; exact (grown_refl prompt r)).
  apply st_bind_inv in H as [(r2 & c2 & Hd & H)|(e & Hd & ->)]; apply drafting_spec in Hd as [Hg2 _];
    pose proof (grown_trans _ _ _ _ _ _ _ _ _ _ Hg1 Hg2) as Hg12.
  - apply IH in H as [Hg3 Hok]. split.
    { eapply grown_weaken; [exact (grown_trans _ _ _ _ _ _ _ _ _ _ Hg12 Hg3)|lia|lia]. }
    intros s' code' Ho. destruct (Hok _ _ Ho) as (j & Hj & Hs & Hall). exists (S j). split_and!; [lia| |auto].
    unfold retried in *. rewrite Hs. cbn. f_equal. lia.
  - split; [|done]. eapply grown_weaken; [exact Hg12|lia|lia].
Qed.

(** ** Turns of the loop *)

Abbreviation looping := (loop_turn sanitize generate run_poc read_file search_code is_tool_error monotonic symbol_index audit_root
  draft_prompt budget_calls budget_deadline spin_k read_budget retry_cap).
Abbreviation failing := (after_failure sanitize monotonic draft_prompt budget_calls budget_deadline spin_k).
Abbreviation PER_TURN := (S retry_cap * (read_budget + 2)).
Abbreviation READS_PER_TURN := (S retry_cap * read_budget).

(** The prompt after the drafts [h]: the draft prompt, then the last draft that
    compiled and what the last run printed. *)
Definition prompt_after (h : list attempt) : string :=
  match last h with None => draft_prompt | Some a => redraft_prompt sanitize draft_prompt (last_compiling_of h) a end.

(** The variables of the loop after the failed drafts [h] *)
Record loop_vars (h : list attempt) (v : LoopVars) : Prop := {
  vars_recorded : recorded h (lv_state v);
  vars_calls : calls_used (lv_state v) = length h;
  vars_retries : degenerate_retries (lv_state v) <= retry_cap * length h;
  vars_compiling : lv_last_compiling v = last_compiling_of h;
  vars_prompt : lv_prompt v = prompt_after h;
  vars_failed : Forall at_failed h;
  vars_budget : h = [] \/ length h < budget_calls;
}.

(** What a result says of the drafts [h] of the call *)
Definition result_of (h : list attempt) (res : LoopResult) : Prop :=
  lr_calls_used res = length h /\ calls_used (lr_state res) = length h /\
  match lr_outcome res with
  | triggered => exists h' a, h = h' ++ [a] /\ Forall at_failed h' /\ passed (at_blob a) = true /\
      lr_code res = at_code a /\ recorded h' (lr_state res)
  | no_code => Forall at_failed h /\ truthy (strip (lr_code res)) = false /\ recorded h (lr_state res) /\
      retry_cap <= degenerate_retries (lr_state res)
  | budget_exhausted => Forall at_failed h /\ recorded h (lr_state res) /\ last (map at_code h) = Some (lr_code res) /\
      (budget_calls <= length h \/ is_Some budget_deadline)
  | spin_stopped => Forall at_failed h /\ recorded h (lr_state res) /\ last (map at_code h) = Some (lr_code res) /\
      spin_k <= repeats (reverse (map at_sig h))
  end.

Lemma prompt_after_extends h : starts_with draft_prompt (prompt_after h) = true.
Proof.
  unfold prompt_after. apply starts_with_spec. destruct (last h); [by eexists|exists ""; by rewrite sapp_nil_r].
Qed.

Lemma try_poc_spec code (r r' : R) o :
  try_poc run_poc code r = (r', o) ->
  match o with
  | Ok a => at_code a = code /\ grown draft_prompt r r' [a] 0 0
  | Raise _ => grown draft_prompt r r' [] 0 0
  end.
Proof.
  unfold try_poc. intros [(r1 & out & H1 & H)|(e & H1 & ->)]%st_bind_inv; revert H1; unfold in_world;
    destruct (run_poc code (r_world r)) as [w out']; intros [= <- ->].
  - injection H as <- <-. split; [done|]. split; [done|]. exists [], []. rewrite !app_nil_r.
    split_and!; cbn; auto.
  - exact (grown_refl draft_prompt r).
Qed.

Ltac open_result :=
  unfold result_of, finish; cbn [lr_outcome lr_calls_used lr_state lr_code]; split_and!; [done..|].

Lemma after_failure_spec h v s a (r r' : R) o :
  loop_vars h v -> at_failed a -> recorded h s -> calls_used s = S (length h) ->
  degenerate_retries s <= retry_cap * S (length h) ->
  failing v s a r = (r', o) ->
  grown draft_prompt r r' [] 0 0 /\
  match o with
  | Ok (inl v') => loop_vars (h ++ [a]) v'
  | Ok (inr res) => result_of (h ++ [a]) res
  | Raise _ => True
  end.
Proof.
  intros Hv Ha Hrec Hcalls Hret. unfold after_failure. fold (at_obs a). cbv zeta.
  intros [(r1 & s1 & Hs & H)|(e & [= <- Hs] & ->)]%st_bind_inv; [|split; [apply grown_refl|done]].
  injection Hs as <- Hs. apply (record_recorded h) in Hs as (Hrec' & Hc' & Hr'); [|done].
  assert (calls_used s1 = length (h ++ [a])) as Hcalls' by (rewrite length_app; cbn; lia).
  assert (Forall at_failed (h ++ [a])) as Hfail by (apply Forall_app; split; [apply Hv|by constructor]).
  assert (last (map at_code (h ++ [a])) = Some (at_code a)) as Hlast by (rewrite map_app; cbn [map]; by rewrite last_snoc).
  apply st_bind_inv in H as [(r2 & [] & [= <-] & H)|(e & [=] & _)].
  destruct (Nat.leb_spec budget_calls (calls_used s1)) as [Hb|Hb].
  { injection H as <- <-. split; [exact (grown_refl draft_prompt r)|]. open_result. left. by rewrite <- Hcalls'. }
  apply st_bind_inv in H as [(r2 & late & Hlate & H)|(e & Hlate & ->)].
  - assert (grown draft_prompt r r2 [] 0 0 /\ (late = true -> is_Some budget_deadline)) as [Hg Hd].
    { revert Hlate. unfold past_deadline. destruct budget_deadline as [d|].
      - intros [(r3 & now & Hn & [= <- <-])|(e & _ & [=])]%st_bind_inv. revert Hn. unfold in_world. cbn.
        destruct (monotonic (r_world r)) as [w o']. intros [= <- ->]. split; [exact (grown_refl draft_prompt r)|done].
      - intros [= <- <-]. split; [exact (grown_refl draft_prompt r)|done]. }
    destruct late.
    { injection H as <- <-. split; [done|]. open_result. right. by apply Hd. }
    destruct (Nat.leb_spec spin_k (spin_count s1)) as [Hk|Hk].
    { injection H as <- <-. split; [done|]. open_result. by rewrite <- (rec_spin _ _ Hrec'). }
    injection H as <- <-. split; [done|]. constructor; cbn; auto.
    + rewrite length_app. cbn. lia.
    + rewrite last_compiling_snoc. by rewrite <- (vars_compiling _ _ Hv).
    + unfold prompt_after. rewrite last_snoc, last_compiling_snoc. by rewrite <- (vars_compiling _ _ Hv).
    + right. by rewrite <- Hcalls'.
  - split; [|done]. revert Hlate. unfold past_deadline. destruct budget_deadline as [d|]; [|done].
    intros [(r3 & now & _ & [=])|(e' & Hn & _)]%st_bind_inv. revert Hn. unfold in_world. cbn.
    destruct (monotonic (r_world r)) as [w o']. intros [= <- ->]. exact (grown_refl draft_prompt r).
Qed.

Lemma loop_turn_spec h v (r r' : R) o :
  loop_vars h v -> looping v r = (r', o) ->
  exists new, length new <= 1 /\ grown draft_prompt r r' new PER_TURN READS_PER_TURN /\
  match o with
  | Ok (inl v') => loop_vars (h ++ new) v' /\ length new = 1
  | Ok (inr res) => result_of (h ++ new) res
  | Raise _ => True
  end.
Proof.
  intros Hv. unfold loop_turn.
  assert (starts_with draft_prompt (lv_prompt v) = true) as Hsw.
  { rewrite (vars_prompt _ _ Hv). apply prompt_after_extends. }
  intros [(r1 & code & Hd & H)|(e & Hd & ->)]%st_bind_inv;
    apply drafting_spec in Hd as [Hg1 _]; apply (grown_prompt draft_prompt) in Hg1; [|done| |done].
  2: { exists []. split_and!; [cbn; lia|eapply grown_weaken; [exact Hg1|nia|nia]|done]. }
  apply st_bind_inv in H as [(r2 & [s code'] & Hrr & H)|(e & Hrr & ->)];
    apply reroll_spec in Hrr as [Hg2 Hok]; apply (grown_prompt draft_prompt) in Hg2; [|done| |done];
    pose proof (grown_trans _ _ _ _ _ _ _ _ _ _ Hg1 Hg2) as Hg; cbn [app] in Hg;
    eapply (grown_weaken _ _ _ _ _ _ PER_TURN READS_PER_TURN) in Hg; [|nia|nia| |nia|nia].
  2: { exists []. split_and!; [cbn; lia|done..]. }
  destruct (Hok _ _ eq_refl) as (j & Hj & Hs & Hall).
  assert (recorded h s /\ calls_used s = length h /\ degenerate_retries s = degenerate_retries (lv_state v) + j) as (Hrec & Hc & Hr).
  { rewrite Hs. cbn. split_and!; [|apply Hv|done]. destruct (vars_recorded _ _ Hv). by constructor. }
  destruct (truthy (strip code')) eqn:Hcode; cbn [negb] in H.
  - apply st_bind_inv in H as [(r3 & a & Ht & H)|(e & Ht & ->)]; apply try_poc_spec in Ht.
    2: { exists []. split_and!; [cbn; lia| |done].
         eapply grown_weaken; [exact (grown_trans _ _ _ _ _ _ _ _ _ _ Hg Ht)|nia|nia]. }
    destruct Ht as [Hac Hg3]. pose proof (grown_trans _ _ _ _ _ _ _ _ _ _ Hg Hg3) as Hg'. cbn [app] in Hg'.
    destruct (passed (at_blob a)) eqn:Hp.
    + injection H as <- <-. exists [a]. split_and!; [done|eapply grown_weaken; [exact Hg'|nia|nia]|].
      unfold result_of, finish. cbn. rewrite length_app, Hc. cbn. split_and!; [lia|lia|].
      exists h, a. split_and!; [done|apply Hv|done|done|]. by destruct Hrec; constructor.
    + apply (after_failure_spec h) in H as [Hg4 Ho]; [|done|exact Hp| | |].
      * exists [a]. split_and!; [done| |].
        { eapply grown_weaken; [exact (grown_trans _ _ _ _ _ _ _ _ _ _ Hg' Hg4)|nia|nia]. }
        destruct o as [[v'|res]|e]; [|done..]. by split.
      * by destruct Hrec; constructor.
      * cbn. by rewrite Hc.
      * cbn. rewrite Hr. pose proof (vars_retries _ _ Hv). lia.
  - injection H as <- <-. exists []. rewrite app_nil_r. split_and!; [cbn; lia|exact Hg|].
    unfold result_of, finish. cbn. rewrite Hc. split_and!; [done|done|apply Hv|done|done|].
    rewrite Hr, (Hall eq_refl). lia.
Qed.

(** ** The loop *)

Abbreviation FUEL := (Nat.max 1 budget_calls).
Abbreviation initial_vars := (mkVars initial_state draft_prompt "").
Abbreviation running := (run sanitize generate run_poc read_file search_code is_tool_error monotonic symbol_index audit_root
  draft_prompt budget_calls budget_deadline spin_k read_budget retry_cap).

Definition loop_inv (r0 : R) (v : LoopVars) (r : R) : Prop :=
  exists h, loop_vars h v /\ grown draft_prompt r0 r h (length h * PER_TURN) (length h * READS_PER_TURN).

Lemma loop_inv_initial (r0 : R) : loop_inv r0 initial_vars r0.
Proof.
  exists []. split; [|apply grown_refl]. constructor; cbn; auto with lia. apply recorded_initial.
Qed.

Lemma loop_inv_turn (r0 : R) v (r r' : R) v' :
  loop_inv r0 v r -> looping v r = (r', Ok (inl v')) ->
  loop_inv r0 v' r' /\ budget_calls - S (calls_used (lv_state v')) < budget_calls - S (calls_used (lv_state v)).
Proof.
  intros (h & Hv & Hg) Ht. destruct (loop_turn_spec _ _ _ _ _ Hv Ht) as (new & Hn & Hg' & Hv' & Hlen). split.
  - exists (h ++ new). split; [done|]. rewrite length_app, Hlen.
    eapply grown_weaken; [exact (grown_trans _ _ _ _ _ _ _ _ _ _ Hg Hg')|nia|nia].
  - pose proof (vars_calls _ _ Hv) as Hc. pose proof (vars_calls _ _ Hv') as Hc'.
    rewrite length_app in Hc'. pose proof (vars_budget _ _ Hv') as [Hb|Hb].
    { destruct new; [done|by destruct h]. }
    rewrite length_app in Hb. lia.
Qed.

(** The bound on the turns is never reached. *)
Lemma loop_turns (r0 : R) : (iter_st looping FUEL initial_vars r0).2 <> Ok None.
Proof.
  apply (iter_st_total looping (loop_inv r0) (fun v => budget_calls - S (calls_used (lv_state v)))).
  - intros v s s' v'. apply loop_inv_turn.
  - apply loop_inv_initial.
  - cbn. lia.
Qed.

Lemma run_spec (r0 r1 : R) o :
  running r0 = (r1, o) ->
  exists h, length h <= FUEL /\ grown draft_prompt r0 r1 h (S (length h) * PER_TURN) (S (length h) * READS_PER_TURN) /\
  match o with Ok res => result_of h res | Raise _ => True end.
Proof.
  unfold run. destruct (iter_st looping FUEL initial_vars r0) as [r2 o2] eqn:Hit.
  pose proof (loop_turns r0) as Hne. rewrite Hit in Hne. cbn in Hne.
  pose proof (iter_st_invariant looping (loop_inv r0) _ _ _ _ _
    (fun v s s' v' Hv Ht => proj1 (loop_inv_turn r0 v s s' v' Hv Ht)) (loop_inv_initial r0) Hit) as Hres.
  assert (forall v1 s1 o', loop_inv r0 v1 s1 -> looping v1 s1 = (r2, o') ->
    exists h, length h <= FUEL /\ grown draft_prompt r0 r2 h (S (length h) * PER_TURN) (S (length h) * READS_PER_TURN) /\
      match o' with Ok (inr res) => result_of h res | _ => True end) as Hlast.
  { intros v1 s1 o' (h & Hv & Hg) Ht. destruct (loop_turn_spec _ _ _ _ _ Hv Ht) as (new & Hn & Hg' & Hr).
    exists (h ++ new). rewrite length_app. split_and!.
    - pose proof (vars_budget _ _ Hv) as [->|Hb]; cbn; lia.
    - eapply grown_weaken; [exact (grown_trans _ _ _ _ _ _ _ _ _ _ Hg Hg')|nia|nia].
    - by destruct o' as [[v'|res]|e]. }
  destruct o2 as [[res|]|e]; [|done|]; destruct Hres as (v1 & s1 & Hv & Ht);
    destruct (Hlast _ _ _ Hv Ht) as (h & H1 & H2 & H3).
  - rewrite (st_bind_Ok _ _ _ _ _ Hit). intros [= <- <-]. by exists h.
  - unfold mbind, st_bind. rewrite Hit. intros [= <- <-]. by exists h.
Qed.

(** C30. What a result of the loop says of the drafts it ran, at most the budget's (one
    for an empty budget): "triggered" is returned exactly at the first run that passes at
    suite level, with its draft; every other result comes after failed runs only, with
    the last draft run, or a blank one once every re-roll is spent; re-rolls are never
    counted as calls; the recorded signatures, repeats and gaps are those of the failed
    runs in order; a spin stop means that many equal, non-empty signatures in a row. *)
Theorem exploit_loop_result (r0 r1 : R) res :
  running r0 = (r1, Ok res) ->
  exists h, r_attempts r1 = r_attempts r0 ++ h /\ length h <= Nat.max 1 budget_calls /\ result_of h res /\
    (lr_outcome res = spin_stopped -> 0 < spin_k -> exists sig, sig <> [] /\
       take (S spin_k) (reverse (map at_sig h)) = repeat sig (S spin_k)).
Proof.
  intros Hrun. destruct (run_spec _ _ _ Hrun) as (h & Hlen & [Ha _] & Hres). exists h. split_and!; try done.
  intros Ho Hk. destruct Hres as (_ & _ & Hres). rewrite Ho in Hres. destruct Hres as (_ & _ & _ & Hspin).
  destruct spin_k as [|k]; [lia|]. by apply repeats_spec.
Qed.

(** C28. Whatever the model answers and the tools do, the loop ends: it never runs out of
    the turns it is given; it runs at most the budget's drafts, asks the model a bounded
    number of times with prompts that all extend the draft prompt, and resolves a
    bounded number of requests, every one of a read-only verb. *)
Theorem exploit_loop_bounded (r0 : R) :
  (iter_st looping (Nat.max 1 budget_calls) initial_vars r0).2 <> Ok None /\
  exists h replies reads,
    r_attempts (running r0).1 = r_attempts r0 ++ h /\ length h <= Nat.max 1 budget_calls /\
    r_replies (running r0).1 = r_replies r0 ++ replies /\
    length replies <= S (length h) * (S retry_cap * (read_budget + 2)) /\
    Forall (fun q => starts_with draft_prompt q.1 = true) replies /\
    r_reads (running r0).1 = r_reads r0 ++ reads /\
    length reads <= S (length h) * (S retry_cap * read_budget) /\
    Forall (fun q => q.1 ∈ READ_ONLY_VERBS) reads.
Proof.
  split; [apply loop_turns|]. destruct (running r0) as [r1 o] eqn:Hrun.
  destruct (run_spec _ _ _ Hrun) as (h & Hlen & (Ha & rs & ds & Hr & Hd & H1 & H2 & H3 & H4) & _).
  by exists h, rs, ds.
Qed.

(** A draft that compiles anchors the next prompt, and stays the anchor until another
    one compiles. *)
Lemma redraft_anchored h v (r r' : R) v' :
  loop_vars h v -> looping v r = (r', Ok (inl v')) ->
  exists a, r_attempts r' = r_attempts r ++ [a] /\ at_failed a /\ lv_prompt v' = prompt_after (h ++ [a]) /\
    lv_last_compiling v' = (if at_compiled a then at_code a else lv_last_compiling v).
Proof.
  intros Hv Ht. destruct (loop_turn_spec _ _ _ _ _ Hv Ht) as (new & _ & [Ha _] & Hv' & Hlen).
  destruct new as [|a [|]]; [done| |done]. exists a. split_and!.
  - done.
  - pose proof (vars_failed _ _ Hv') as Hf. apply Forall_app in Hf as [_ Hf]. by inversion Hf.
  - apply Hv'.
  - rewrite (vars_compiling _ _ Hv'), (vars_compiling _ _ Hv). apply last_compiling_snoc.
Qed.
End loop_proofs.

(** ** Observations and the verdict *)

(** A suite with a failing test is not a pass, whatever test of it passed. *)
Lemma passed_suite_level blob :
  passed blob = true -> re_test FAILED_RE blob = true -> re_test SUITE_OK_RE blob = true.
Proof. unfold passed. destruct (re_test SUITE_OK_RE blob); [done|]. intros [_ Hn]%andb_true_iff Hf. by rewrite Hf in Hn. Qed.

Lemma length_extract_trajectory blob : length (extract_trajectory blob) <= TRAJECTORY_HEAD + TRAJECTORY_TAIL + 1.
Proof.
  unfold extract_trajectory. cbv zeta. destruct (Nat.leb_spec (length (omap call_frame (trace_lines false (splitlines blob))))
    (TRAJECTORY_HEAD + TRAJECTORY_TAIL)); [lia|].
  rewrite !length_app, length_take, length_drop. cbn [length]. lia.
Qed.

(** A revert is only reported when no assertion is, and an assertion only when nothing
    failed to compile. *)
Lemma classify_kind_order blob :
  (classify_kind blob = "compile" <-> error_signature blob <> []) /\
  (classify_kind blob = "revert" -> existsb (fun m => contains m blob) ASSERT_MARKERS = false /\ re_test FAIL_NEQ_RE blob = false).
Proof.
  unfold classify_kind. case_bool_decide as He; cbn [negb].
  - split; [|destruct (_ || _) eqn:Ha; [done|by apply orb_false_iff in Ha]].
    split; [|done]. by repeat case_match.
  - split; [done|]. done.
Qed.

Definition sample_output : string :=
  "Ran 1 test" +:+ nls +:+ "[FAIL: assertion failed: 1999999999999999999 != 2000000000000000000] test_x()" +:+ nls
  +:+ "Traces:" +:+ nls +:+ "  ├─ [2212] Vault::deposit(1)" +:+ nls +:+ "  │   └─ ← [Revert] assertion failed".

Example sample_observation :
  build_observation sample_output "" =
  mkObs "assert_false" "1999999999999999999" "2000000000000000000" ["[2212] Vault::deposit(1)"] None /\
  gap (build_observation sample_output "") = Ok (py_float "1") /\ passed sample_output = false.
Proof. vm_compute. done. Qed.

(** An assertion on integers beyond the range of doubles escapes the handler. *)
Lemma gap_overflow_escapes :
  gap (mkObs "assert_false" (String.concat "" (repeat "9" 400)) "0" [] None) =
  Raise (Exn "OverflowError" "int too large to convert to float").
Proof. vm_compute. done. Qed.

(** ** A loop, run *)

Definition sample_draft (name : string) : string :=
  "pragma solidity ^0.8.0;" +:+ nls +:+ "contract " +:+ name +:+ " { }".

(** A client that answers from a script, and a sandbox in which only one draft passes *)
Definition scripted_generate (cur : string) : ST (list string) string := fun w =>
  match w with [] => ([], Raise (Exn "RuntimeError" "no reply")) | raw :: w' => (w', Ok raw) end.
Definition scripted_run (code : string) : ST (list string) (string * string) := fun w =>
  (w, Ok (if contains "Second" code then "Ran 1 test" +:+ nls +:+ "Suite result: ok" else sample_output, "")).

Abbreviation scripted :=
  (run (fun s => mkSanitized s []) scripted_generate scripted_run
    (fun arg _ _ => if contains "secret" arg then Raise (Exn "ReadOnlyToolError" "outside the root") else Ok "contract Vault {}")
    (fun _ _ _ => Ok []) (fun e => String.eqb (exn_class e) "ReadOnlyToolError") (fun w => (w, Ok 0%Z)) None ["/"; "work"]
    "Draft a PoC." 4 None 3 3 2).
Definition scripted_start : Run (list string) :=
  mkRun ["READ: ../src/Vault.sol" +:+ nls +:+ "READ: /secret"; sample_draft "First"; "I am not sure."; "Still thinking.";
         sample_draft "Second"] [] [] [] [].

Definition scripted_result : Run (list string) * LoopResult :=
  Eval vm_compute in
  match scripted scripted_start with
  | (r1, Ok res) => (r1, res)
  | (r1, Raise _) => (r1, mkResult no_code "" initial_state 0)
  end.

Lemma scripted_ends : scripted scripted_start = (scripted_result.1, Ok scripted_result.2).
Proof.
  exact (eq_refl (scripted_result.1, Ok (A := LoopResult) scripted_result.2) <:
         scripted scripted_start = (scripted_result.1, Ok (A := LoopResult) scripted_result.2)).
Qed.

Lemma scripted_outcome :
  lr_outcome scripted_result.2 = triggered /\ degenerate_retries (lr_state scripted_result.2) = 1 /\
  r_reads scripted_result.1 = [("READ", "../src/Vault.sol"); ("READ", "/secret")].
Proof. vm_compute. done. Qed.

Lemma exploit_loop_result_witness :
  exists h, r_attempts scripted_result.1 = r_attempts scripted_start ++ h /\ length h <= Nat.max 1 4 /\
    result_of 4 None 3 2 h scripted_result.2 /\
    (lr_outcome scripted_result.2 = spin_stopped -> 0 < 3 -> exists sig, sig <> [] /\
       take 4 (reverse (map at_sig h)) = repeat sig 4).
Proof.
  exact (exploit_loop_result _ _ _ _ _ _ _ _ _ "Draft a PoC." 4 None 3 3 2 scripted_start _ _ scripted_ends).
Defined.

(** ** Missing imports *)

Lemma insert_after_pragma_spec line code :
  insert_after_pragma line code = code \/
  exists a b, code = a +:+ b /\ insert_after_pragma line code = a +:+ line +:+ b.
Proof.
  unfold insert_after_pragma. destruct (re_search PRAGMA_LINE_RE code) as [m|]; [right|by left].
  exists (stake (mt_end m) code), (sdrop (mt_end m) code). split; [by rewrite stake_sdrop|done].
Qed.

(** An import is added only for a base that is not imported, not a standard one, and an
    indexed contract or interface; it names that symbol's file. *)
Lemma ensure_base_spec cwd poc_dir ix base code code' :
  ensure_base cwd poc_dir ix base code = (code', true) ->
  (base ∉ STD_BASES) /\ re_test (imports_base_re base) code = false /\
  exists sym, sym ∈ lookup ix base /\ sy_kind sym ∈ ["contract"; "interface"] /\
    code' = insert_after_pragma (import_line base (relpath cwd (sy_file sym) poc_dir)) code.
Proof.
  unfold ensure_base. destruct (negb (truthy base) || _) eqn:Hb; [done|].
  apply orb_false_iff in Hb as [_ Hstd%bool_decide_eq_false].
  destruct (re_test (imports_base_re base) code); [done|].
  destruct (List.filter is_contract_like (lookup ix base)) as [|sym syms] eqn:Hf; [done|].
  intros [= <-]. split_and!; [done|done|]. exists sym.
  assert (In sym (List.filter is_contract_like (lookup ix base))) as Hin by (rewrite Hf; by left).
  apply List.filter_In in Hin as [Hin Hk]. split_and!; [by apply list_elem_of_In|by apply bool_decide_eq_true in Hk|done].
Qed.

Definition base_index : SymbolIndex :=
  mkIndex [("Base", [mkSymbol "Base" "contract" "" ["/"; "work"; "src"; "Base.sol"] "" [] ""])] [] ∅ ∅ [].

(** With no pragma line the code is reported as changed although nothing was inserted. *)
Lemma changed_without_pragma :
  ensure_base_imports ["/"] ["/"; "work"; "audit"; "poc"] (Some base_index) "contract PoC is Test, Base {}" =
  ("contract PoC is Test, Base {}", true) /\
  ensure_base_imports ["/"] ["/"; "work"; "audit"; "poc"] (Some base_index)
    ("pragma solidity ^0.8.0;" +:+ nls +:+ "contract PoC is Test, Base {}") =
  ("pragma solidity ^0.8.0;" +:+ nls +:+ import_line "Base" "../../src/Base.sol" +:+ "contract PoC is Test, Base {}", true).
Proof. vm_compute. done. Qed.
