(* ===== verification/Fixers.v ===== *)
(** * Deterministic compile fixers (audit_agent/proof/solidity_fixers.py)

    The rewrites of a draft that repair mechanical compile errors, and the sequences in
    which the repair loops apply them.  The disk, the output of git and the working
    directory are parameters. *)

From S2P Require Import Prelude PyStr PyRe PyPath SolIndex SolUtils.

(** ** setUp *)

(** The index of the brace that closes the one at the head of the text; [None] is -1 *)
Fixpoint brace_block (depth : Z) (i : nat) (s : string) : option nat :=
  match s with
  | "" => None
  | String c s' =>
      if Ascii.eqb c "{" then brace_block (depth + 1)%Z (S i) s'
      else if Ascii.eqb c "}" then
        if (depth - 1 =? 0)%Z then Some i else brace_block (depth - 1)%Z (S i) s'
      else brace_block depth (S i) s'
  end.

Definition params_and_body : re := RAll [RMany RSpace; RChr "("; RMany (RNoneOf ")"); RChr ")"; RMany (RNoneOf "{"); RChr "{"].
(** [function\s+setUp\s*\([^)]*\)[^{]*\{] and the same for [test\w*] *)
Definition SETUP_RE : re := RAll [RStr "function"; RSome RSpace; RStr "setUp"; params_and_body].
Definition TEST_RE : re := RAll [RStr "function"; RSome RSpace; RStr "test"; RMany RWord; params_and_body].

Definition setup_statements (body : string) : string :=
  strip (unlines (List.filter (fun l => negb (contains "super.setUp" l)) (splitlines body))).

Definition inject (stmts code : string) : string :=
  match re_search TEST_RE code with
  | Some tm =>
      if truthy stmts then
        stake (mt_end tm) code +:+ nls +:+ "        " +:+ replace nls (nls +:+ "        ") stmts +:+ sdrop (mt_end tm) code
      else code
  | None => code
  end.

Definition fix_setup_override (code : string) : string * bool :=
  match re_search SETUP_RE code with
  | None => (code, false)
  | Some m =>
      match brace_block 0 (mt_end m - 1) (sdrop (mt_end m - 1) code) with
      | None => (code, false)
      | Some close =>
          let stmts := setup_statements (slice (mt_end m) close code) in
          let code2 := replace (nls +:+ nls +:+ nls) (nls +:+ nls) (stake (mt_start m) code +:+ sdrop (close + 1) code) in
          (inject stmts code2, true)
      end
  end.

(** ** Import paths *)

(** A quoted name that ends in .sol *)
Definition RQuote : re := RSet (fun c => Ascii.eqb c "034" || Ascii.eqb c "'").
Definition RNoQuote : re := RSet (fun c => negb (Ascii.eqb c "034" || Ascii.eqb c "'")).
Definition QUOTED_SOL_RE : re := RAll [RQuote; RGroup 1 (RSeq (RSome RNoQuote) (RStr ".sol")); RQuote].

Definition is_library (p : string) : bool := starts_with "@" p || starts_with "forge-std" p.

(** [s.replace(old, new, 1)] *)
Definition replace_first (old new s : string) : string :=
  match split_once old s with Some (a, b) => a +:+ new +:+ b | None => s end.

Section import_paths.
Context (fs : FileSystem) (git : res string) (cwd : path).
Context (rglob : string -> list path).
Context (project : path).

Definition rel_parts (p : path) : path := default [] (strip_parts project p).

Definition cand_leb (p q : path) : bool :=
  let n := length (rel_parts p) in
  let m := length (rel_parts q) in
  (n <? m) || (n =? m) && str_leb (path_str p) (path_str q).

(** The files of that name, the tracked ones if any is, shallowest first *)
Definition candidates (name : string) : list path :=
  let cands := List.filter (fun p => fs_is_file fs p && negb (existsb (fun d => bool_decide (d ∈ rel_parts p)) UTILS_SKIP_DIRS))
                 (rglob name) in
  let tracked := tracked_sol fs git project in
  let cands :=
    if bool_decide (tracked = []) then cands
    else match List.filter (fun p => bool_decide (fs_resolve fs p ∈ tracked)) cands with [] => cands | l => l end in
  py_sort cand_leb cands.

(** The path of [target] relative to the importing directory, in the form solc resolves
    from there *)
Definition relative_import (target poc_dir : path) : string :=
  let correct := replace "\" "/" (relpath cwd target poc_dir) in
  if starts_with "." correct then correct else "./" +:+ correct.

Definition import_rewrite (poc_dir : path) (line : string) : option (string * string) :=
  mo ← re_search QUOTED_SOL_RE line;
  let p := group_or_empty 1 line mo in
  if is_library p then None
  else target ← head (candidates (path_name (to_path p)));
       let correct := relative_import target poc_dir in
       if String.eqb correct p then None else Some (p, correct).

(** One line, and whether it was changed *)
Definition fix_import_line (poc_dir : path) (line : string) : string * bool :=
  let s := lstrip line in
  if starts_with "SPDX-License-Identifier" s then
    (replace_first "SPDX-License-Identifier" "// SPDX-License-Identifier" line, true)
  else if starts_with "import" s then
    match import_rewrite poc_dir line with
    | Some (p, correct) => (replace p correct line, true)
    | None => (line, false)
    end
  else (line, false).

(** [matched] and [applied] are set together. *)
Definition fix_import_paths (base_dir : option path) (code : string) : string * bool * bool :=
  let poc_dir := match base_dir with Some d => d | None => path_join project (to_path POC_SUBDIR) end in
  let fixed := map (fix_import_line poc_dir) (splitlines code) in
  let changed := existsb snd fixed in
  (unlines fixed.*1, changed, changed).
End import_paths.

(** ** Bare addresses *)

(** [conversion from address to contract (\w+) requested\.\s*-->\s*\S+?:(\d+):] *)
Definition ADDR_IFACE_LOC_RE : re :=
  RAll [RStr "conversion from address to contract "; RGroup 1 (RSome RWord); RStr " requested."; RMany RSpace; RStr "-->";
        RMany RSpace; RSomeLazy (RSet (fun c => negb (is_space c))); RChr ":"; RGroup 2 (RSome RDigit); RChr ":"].
(** [address\(([^()]* )\)] *)
Definition ADDRESS_ARG_RE : re :=
  RAll [RStr "address("; RGroup 1 (RMany (RNoneOf "()")); RChr ")"].

(** The first bare address wrapped: [re.sub(..., count=1)] *)
Definition wrap_address (typ line : string) : string :=
  match re_search ADDRESS_ARG_RE line with
  | Some m =>
      stake (mt_start m) line +:+ typ +:+ "(address(" +:+ group_or_empty 1 line m +:+ "))" +:+ sdrop (mt_end m) line
  | None => line
  end.

(** The flagged types with the indices of their lines *)
Definition address_hits (forge_output : string) : list (string * Z) :=
  map (fun m => (group_or_empty 1 forge_output m, (digits_val 0 (group_or_empty 2 forge_output m) - 1)%Z))
    (re_finditer ADDR_IFACE_LOC_RE forge_output).

Definition wrap_line (typ line : string) : option string :=
  if contains "address(" line && negb (contains (typ +:+ "(address(") line) then Some (wrap_address typ line) else None.

Fixpoint wrap_hits (hits : list (string * Z)) (lines : list string) (applied : bool) : list string * bool :=
  match hits with
  | [] => (lines, applied)
  | (typ, i) :: hits' =>
      if (i <? 0)%Z then wrap_hits hits' lines applied
      else match lines !! Z.to_nat i ≫= wrap_line typ with
           | Some line => wrap_hits hits' (<[Z.to_nat i := line]> lines) true
           | None => wrap_hits hits' lines applied
           end
  end.

Definition fix_address_interface (code forge_output : string) : string * bool * bool :=
  let hits := address_hits forge_output in
  let '(lines, applied) := wrap_hits hits (splitlines code) false in
  (unlines lines, negb (bool_decide (hits = [])), applied).

(** ** Undeclared identifiers *)

(** [import {names} from path;], the path in quotes, with any spacing *)
Definition NAMED_IMPORT_RE : re :=
  RAll [RStr "import"; RMany RSpace; RChr "{"; RGroup 1 (RMany (RNoneOf "}")); RChr "}"; RMany RSpace; RStr "from"; RMany RSpace;
        RQuote; RGroup 2 (RSome RNoQuote); RQuote; RMany RSpace; RChr ";"].

Definition RLine : re := RMany RDot.
(** The gutter of forge's snippet: the source line and the caret line below it *)
Definition UNDECLARED_BLOCK_RE : re :=
  RAll [RStr "Error ("; RAlt (RStr "7576") (RStr "7920"); RStr "):"; RLine; RChr nl; RLine; RChr nl; RLine; RChr nl;
        RMany RSpace; RSome RDigit; RMany RSpace; RChr "|"; RGroup 1 RLine; RChr nl; RMany RSpace; RChr "|";
        RGroup 2 (RAll [RLine; RSome (RChr "^"); RLine])].

(** The name before an alias *)
Definition import_base (raw : string) : string :=
  strip (match split_once " as " raw with Some (a, _) => a | None => raw end).
Definition named_bases (names : string) : list string := map import_base (split_char "," names).

Fixpoint scaffold_path_in (existing name : string) (ms : list rmatched) : option string :=
  match ms with
  | [] => None
  | m :: ms' =>
      if bool_decide (name ∈ named_bases (group_or_empty 1 existing m)) then Some (group_or_empty 2 existing m)
      else scaffold_path_in existing name ms'
  end.

Definition scaffold_named_import_path (existing name : string) : option string :=
  if negb (truthy existing) || negb (truthy name) then None
  else scaffold_path_in existing name (re_finditer NAMED_IMPORT_RE existing).

(** [re.fullmatch] of an identifier *)
Definition is_identifier (name : string) : bool :=
  match name with
  | String c s => (is_alpha c || Ascii.eqb c "_") && forallb is_word (String.list_ascii_of_string s)
  | "" => false
  end.

(** The identifier under the carets *)
Definition caret_name (src caret : string) : string :=
  match sfind "^" caret with
  | Some k =>
      let cs := ulen (stake k caret) in
      let ce := ulen caret - match sfind "^" (srev caret) with Some j => ulen (stake j (srev caret)) | None => 0 end in
      if (cs <? ce) && (ce <=? ulen src) then strip (utake (ce - cs) (udrop cs src)) else ""
  | None => ""
  end.

Definition undeclared_names (forge_output : string) : list string :=
  List.filter is_identifier
    (map (fun m => caret_name (group_or_empty 1 forge_output m) (group_or_empty 2 forge_output m))
       (re_finditer UNDECLARED_BLOCK_RE forge_output)).

Definition imported_names (code : string) : list string :=
  List.concat (map (fun m => named_bases (group_or_empty 1 code m)) (re_finditer NAMED_IMPORT_RE code)).

Definition is_top_level (m : Symbol) : bool :=
  bool_decide (sy_kind m ∈ ["contract"; "interface"; "library"]) && negb (truthy (sy_contract m)).

(** The path of the unique top-level symbol of that name relative to [base_dir] *)
Definition index_path (cwd : path) (symbol_index : option SymbolIndex) (base_dir : option path) (name : string) : option string :=
  match symbol_index, base_dir with
  | Some ix, Some dir =>
      match List.filter is_top_level (lookup ix name) with
      | [sym] => Some (relpath cwd (sy_file sym) dir)
      | _ => None
      end
  | _, _ => None
  end.

Definition import_stmt (names p : string) : string := "import { " +:+ names +:+ " } from " +:+ dquote +:+ p +:+ dquote +:+ ";".

(** The position after the last line that starts with one of the two words *)
Fixpoint insertion_point (lines : list string) (i at_ : nat) : nat :=
  match lines with
  | [] => at_
  | ln :: lines' =>
      let s := strip ln in
      insertion_point lines' (S i) (if starts_with "pragma" s || starts_with "import" s then S i else at_)
  end.

Definition insert_imports (additions lines : list string) : list string :=
  let k := insertion_point lines 0 0 in take k lines ++ additions ++ drop k lines.

Section undeclared.
Context (cwd : path) (file_map existing : string) (symbol_index : option SymbolIndex) (base_dir : option path).

(** The authorities in order; an empty path is none *)
Definition known_path (name : string) : option string :=
  let p :=
    match path_for file_map name with
    | "" => match scaffold_named_import_path existing name with
            | Some (String _ _ as p) => Some p
            | _ => index_path cwd symbol_index base_dir name
            end
    | p => Some p
    end in
  match p with Some "" => None | _ => p end.

Fixpoint additions_for (names imported : list string) : list (string * string) :=
  match names with
  | [] => []
  | name :: names' =>
      if bool_decide (name ∈ imported) then additions_for names' imported
      else match known_path name with
           | None => additions_for names' imported
           | Some p => (name, p) :: additions_for names' (name :: imported)
           end
  end.

Definition fix_undeclared_import (code forge_output : string) : string * bool * bool :=
  match undeclared_names forge_output with
  | [] => (code, false, false)
  | names =>
      match additions_for (unique names) (imported_names code) with
      | [] => (code, false, false)
      | additions => (unlines (insert_imports (map (fun a => import_stmt a.1 a.2) additions) (splitlines code)), true, true)
      end
  end.
End undeclared.

(** ** Nested types *)

Definition container_import_path (cwd : path) (container file_map orig_path : string)
    (symbol_index : option SymbolIndex) (base_dir : option path) : string :=
  match path_for file_map container with
  | "" => default orig_path (index_path cwd symbol_index base_dir container)
  | p => p
  end.

Definition nonempty_names (names : string) : list string := List.filter truthy (map strip (split_char "," names)).

(** [None if " as " in n else symbol_index.nested_container(n)], an empty container being none *)
Definition container_of (ix : SymbolIndex) (n : string) : option string :=
  if contains " as " n then None
  else match nested_container ix n with Some "" => None | o => o end.

(** [line[:len(line) - len(line.lstrip())]] *)
Definition indent_of (line : string) : string := stake (String.length line - String.length (lstrip line)) line.

(** One line: what replaces it and the nested names found, with container and path *)
Definition strip_nested (ix : SymbolIndex) (line : string) : list string * list (string * (string * string)) :=
  let stripped := strip line in
  match re_match NAMED_IMPORT_RE stripped with
  | None => ([line], [])
  | Some m =>
      let p := group_or_empty 2 stripped m in
      if is_library p then ([line], [])
      else
        let names := nonempty_names (group_or_empty 1 stripped m) in
        let keep := List.filter (fun n => is_none (container_of ix n)) names in
        let nested := omap (fun n => c ← container_of ix n; Some (n, (c, p))) names in
        if length keep =? length names then ([line], nested)
        else ((match keep with [] => [] | _ => [indent_of line +:+ import_stmt (join ", " keep) p] end), nested)
  end.

(** The dictionary [removed]: a name met again keeps its place and takes the later value *)
Definition collect_removed (found : list (string * (string * string))) : list (string * (string * string)) :=
  foldl (fun acc e => assoc_set e.1 e.2 acc) [] found.

Definition line_names (line : string) : list string :=
  match re_match NAMED_IMPORT_RE (strip line) with
  | Some m => map strip (split_char "," (group_or_empty 1 (strip line) m))
  | None => []
  end.

(** [(?<![.\w])name\b] *)
Definition bare_use_re (name : string) : re :=
  RAll [RNotBehind (fun c => Ascii.eqb c "." || is_word c); RStr name; RBound].

Definition qualify (code : string) (removed : list (string * (string * string))) : string :=
  foldl (fun code e => re_sub (bare_use_re e.1) (e.2.1 +:+ "." +:+ e.1) code) code removed.

Section nested.
Context (cwd : path) (ix : SymbolIndex) (file_map : string) (base_dir : option path).

Fixpoint container_additions (containers : list (string * string)) (imported : list string) : list string :=
  match containers with
  | [] => []
  | (c, orig) :: containers' =>
      if bool_decide (c ∈ imported) then container_additions containers' imported
      else import_stmt c (container_import_path cwd c file_map orig (Some ix) base_dir)
           :: container_additions containers' (c :: imported)
  end.

(** Once a nested name is found a line was rewritten, so [applied] holds whatever
    follows ([nested_found_changes_line]). *)
Definition fix_nested_in (code : string) : string * bool * bool :=
  let parts := map (strip_nested ix) (splitlines code) in
  let out := List.concat parts.*1 in
  let removed := collect_removed (List.concat parts.*2) in
  match removed with
  | [] => (code, false, false)
  | _ =>
      let containers := foldl (fun acc e => assoc_set e.2.1 e.2.2 acc) [] removed in
      let additions := container_additions containers (List.concat (map line_names out)) in
      let out := match additions with [] => out | _ => insert_imports additions out end in
      (qualify (unlines out) removed, true, true)
  end.
End nested.

Definition fix_nested_type_imports (cwd : path) (symbol_index : option SymbolIndex) (file_map : string)
    (base_dir : option path) (code : string) : string * bool * bool :=
  match symbol_index with
  | None => (code, false, false)
  | Some ix => fix_nested_in cwd ix file_map base_dir code
  end.

(** ** The scaffold's base *)

(** [(contract\s+\w+\s+is\s+)([^{]+?)(\s*\{)] *)
Definition CONTRACT_IS_RE : re :=
  RAll [RStr "contract"; RSome RSpace; RSome RWord; RSome RSpace; RStr "is"; RSome RSpace;
        RGroup 2 (RSomeLazy (RNoneOf "{")); RMany RSpace; RChr "{"].

(** [code[:m.start(2)] + leaf + code[m.end(2):]] *)
Definition replace_group2 (leaf code : string) (m : rmatched) : string :=
  match assoc 2 (mt_caps m) with
  | Some (a, b) => stake a code +:+ leaf +:+ sdrop b code
  | None => code
  end.

Definition fix_scaffold_base (code scaffold_text : string) : string * bool :=
  match scaffold_base_name scaffold_text with
  | None | Some "" => (code, false)
  | Some leaf =>
      match last (re_finditer CONTRACT_IS_RE code) with
      | None => (code, false)
      | Some m =>
          if bool_decide (leaf ∈ map strip (split_char "," (group_or_empty 2 code m))) then (code, false)
          else (replace_group2 leaf code m, true)
      end
  end.

(** ** Sequences *)

Record FixerResult := mkFixer { fx_name : string; fx_matched : bool; fx_applied : bool }.

Definition applied_names (results : list FixerResult) : list string := map fx_name (List.filter fx_applied results).

Section sequences.
Context (fs : FileSystem) (git : res string) (cwd : path) (rglob : string -> list path).

Definition seq_synth_prewrite (code : string) (project synth_dir : path) : string * list string :=
  let '(code, _, c_imp) := fix_import_paths fs git cwd rglob project (Some synth_dir) code in
  (code, if (c_imp : bool) then ["import_paths"] else []).

Definition seq_synth_repair (code forge_output : string) (project synth_dir : path) (symbol_index : option SymbolIndex)
    (file_map existing : string) : string * list FixerResult :=
  let '(code, m_imp, a_imp) := fix_import_paths fs git cwd rglob project (Some synth_dir) code in
  let '(code, m_nest, a_nest) := fix_nested_type_imports cwd symbol_index file_map (Some synth_dir) code in
  let '(code, m_und, a_und) := fix_undeclared_import cwd file_map existing symbol_index (Some synth_dir) code forge_output in
  let '(code, m_iface, a_iface) := fix_address_interface code forge_output in
  (code, [mkFixer "import_paths" m_imp a_imp; mkFixer "nested_imports" m_nest a_nest;
          mkFixer "undeclared_import" m_und a_und; mkFixer "address_interface" m_iface a_iface]).

Definition seq_draft_inplace (code forge_output file_map : string) : string * list string :=
  let '(code, _, c_und) := fix_undeclared_import cwd file_map "" None None code forge_output in
  let '(code, _, c_iface) := fix_address_interface code forge_output in
  (code, map fst (List.filter snd [("undeclared_import", c_und); ("address_interface", c_iface)])).

Definition seq_postmodel (code : string) (project : path) (symbol_index : option SymbolIndex) (file_map scaffold : string)
    (guard : bool) : string * list string :=
  let '(code, changed) := if guard then fix_setup_override code else (code, false) in
  let applied := if (changed : bool) then ["setup_override"] else [] in
  let '(code, _, ip_changed) := fix_import_paths fs git cwd rglob project None code in
  let applied := applied ++ (if (ip_changed : bool) then ["import_paths"] else []) in
  let '(code, _, nested_changed) := fix_nested_type_imports cwd symbol_index file_map None code in
  let applied := applied ++ (if (nested_changed : bool) then ["nested_imports"] else []) in
  let '(code, base_changed) := fix_scaffold_base code scaffold in
  (code, applied ++ (if (base_changed : bool) then ["scaffold_base"] else [])).
End sequences.

Definition POSTMODEL_EVENT : list (string * string) :=
  [("setup_override", "postfix_setup"); ("import_paths", "postfix_imports");
   ("nested_imports", "postfix_nested_import"); ("scaffold_base", "postfix_scaffold_base")].

(** ** Braces *)

(** The depth after a text that starts at depth 0 *)
Definition brace_depth (s : string) : Z := (Z.of_nat (count_char "{" s) - Z.of_nat (count_char "}" s))%Z.

Lemma brace_depth_cons c s :
  brace_depth (String c s) = ((if Ascii.eqb c "{" then 1 else if Ascii.eqb c "}" then -1 else 0) + brace_depth s)%Z.
Proof.
  unfold brace_depth. cbn [count_char]. rewrite (Ascii.eqb_sym c "{"), (Ascii.eqb_sym c "}").
  destruct (Ascii.eqb_spec "{" c) as [<-|Hne].
  - assert (Ascii.eqb "}" "{" = false) as -> by done. lia.
  - destruct (Ascii.eqb "}" c); lia.
Qed.

(** What comes out closes the braces: they balance after the brace at the index returned. *)
Lemma brace_block_spec depth i s k :
  brace_block depth i s = Some k ->
  exists j, k = i + j /\ String.get j s = Some "}"%char /\ (depth + brace_depth (stake (S j) s) = 0)%Z.
Proof.
  revert depth i. induction s as [|c s IH]; intros depth i; cbn [brace_block]; [done|].
  destruct (Ascii.eqb c "{") eqn:Hopen; [|destruct (Ascii.eqb c "}") eqn:Hclose].
  2: destruct (Z.eqb_spec (depth - 1) 0) as [Hd|Hd].
  2: { intros [= <-]. exists 0. apply Ascii.eqb_eq in Hclose as ->. split_and!; [lia|done|].
       change (stake 1 (String "}" s)) with (String "}" (stake 0 s)). rewrite brace_depth_cons.
       replace (stake 0 s) with "" by (by destruct s). change (brace_depth "") with 0%Z.
       assert (Ascii.eqb "}" "{" = false) as -> by done. assert (Ascii.eqb "}" "}" = true) as -> by done. lia. }
  all: intros (j & -> & Hg & Hd')%IH; exists (S j); (split_and!; [lia|done|]);
    change (stake (S (S j)) (String c s)) with (String c (stake (S j) s));
    rewrite brace_depth_cons, Hopen; try rewrite Hclose; lia.
Qed.

(** ** Import paths *)

Lemma cand_leb_total project p q : cand_leb project p q = true \/ cand_leb project q p = true.
Proof.
  unfold cand_leb. destruct (Nat.lt_trichotomy (length (rel_parts project p)) (length (rel_parts project q))) as [H|[H|H]].
  - left. by apply Nat.ltb_lt in H as ->.
  - rewrite H, Nat.eqb_refl, Nat.ltb_irrefl. cbn. apply str_leb_total.
  - right. by apply Nat.ltb_lt in H as ->.
Qed.

Lemma cand_leb_trans project p q r : cand_leb project p q = true -> cand_leb project q r = true -> cand_leb project p r = true.
Proof.
  unfold cand_leb. boolify. rewrite !Nat.ltb_lt, !Nat.eqb_eq. intros [H1|[H1 H1']] [H2|[H2 H2']]; try (left; lia).
  right. split; [lia|]. by eapply str_leb_trans.
Qed.

Section import_paths_proofs.
Context (fs : FileSystem) (git : res string) (cwd : path) (rglob : string -> list path) (project : path).

(** A file the search may offer: it exists and no part of its path is a skipped directory. *)
Definition usable (p : path) : Prop := fs_is_file fs p = true /\ forall d, d ∈ UTILS_SKIP_DIRS -> d ∉ rel_parts project p.
Definition is_tracked (p : path) : Prop := fs_resolve fs p ∈ tracked_sol fs git project.

Lemma usable_filter p l :
  p ∈ List.filter (fun p => fs_is_file fs p && negb (existsb (fun d => bool_decide (d ∈ rel_parts project p)) UTILS_SKIP_DIRS)) l <->
  p ∈ l /\ usable p.
Proof.
  rewrite !list_elem_of_In, List.filter_In. boolify. rewrite <- not_true_iff_false, existsb_exists. unfold usable.
  split.
  - intros (Hl & Hf & Hn). split_and!; [done|done|]. intros d Hd Hin. apply Hn. exists d.
    rewrite bool_decide_eq_true. by rewrite <- list_elem_of_In.
  - intros (Hl & Hf & Hn). split_and!; [done|done|]. intros (d & Hd & Hin%bool_decide_eq_true).
    apply (Hn d); [by apply list_elem_of_In|done].
Qed.

(** The candidate taken is a usable file of that name, tracked whenever a usable file of
    that name is, and the first of those in the order: shallowest, then by name. *)
Lemma candidates_head name target :
  head (candidates fs git rglob project name) = Some target ->
  target ∈ rglob name /\ usable target /\
  forall p, p ∈ rglob name -> usable p -> (is_tracked p -> is_tracked target) /\
    ((is_tracked p \/ ~ is_tracked target) -> cand_leb project target p = true).
Proof.
  unfold candidates. cbv zeta. set (cands := List.filter _ (rglob name)).
  assert (forall p, p ∈ cands <-> p ∈ rglob name /\ usable p) as Hc by (intros p; apply usable_filter).
  set (tr := List.filter (fun p => bool_decide (fs_resolve fs p ∈ tracked_sol fs git project)) cands).
  assert (forall p, p ∈ tr <-> p ∈ cands /\ is_tracked p) as Htr.
  { intros p. unfold tr. rewrite !list_elem_of_In, List.filter_In, bool_decide_eq_true. by rewrite <- list_elem_of_In. }
  set (chosen := if bool_decide (tracked_sol fs git project = []) then cands else match tr with [] => cands | l => l end).
  assert ((chosen = cands /\ forall p, p ∈ cands -> ~ is_tracked p) \/ chosen = tr) as Hch.
  { unfold chosen. case_bool_decide as He.
    - left. split; [done|]. intros p _. unfold is_tracked. rewrite He. apply not_elem_of_nil.
    - destruct tr as [|x tr'] eqn:Etr; [left|by right]. split; [done|]. intros p Hp Ht.
      assert (p ∈ []) as Hn by (apply Htr; by split). by apply not_elem_of_nil in Hn. }
  intros Hh. pose proof (py_sort_sorted (cand_leb project) (cand_leb_total project) (cand_leb_trans project) chosen) as Hs.
  replace (match tr with [] => cands | x :: l => x :: l end) with (match tr with [] => cands | l => l end) in Hh by (by destruct tr).
  change (head (py_sort (cand_leb project) chosen) = Some target) in Hh. destruct (py_sort (cand_leb project) chosen) as [|t l] eqn:Es; [done|]. injection Hh as ->.
  assert (forall p, p ∈ chosen -> cand_leb project target p = true) as Hmin.
  { intros p Hp. rewrite <- (elem_of_py_sort (cand_leb project)), Es in Hp. apply elem_of_cons in Hp as [->|Hp].
    - by destruct (cand_leb_total project target target).
    - inversion Hs as [|? ? _ Hall]; subst. rewrite Forall_forall in Hall. by apply Hall. }
  assert (target ∈ chosen) as Hin by (rewrite <- (elem_of_py_sort (cand_leb project)), Es; left).
  destruct Hch as [[Hch Hno]|Hch]; rewrite Hch in Hin, Hmin.
  - destruct (proj1 (Hc target) Hin) as [Hg Hu]. split_and!; [done..|]. intros p Hp Hup.
    assert (p ∈ cands) as Hpc by (apply Hc; by split). split; [by intros ?%(Hno p)|]. intros _. by apply Hmin.
  - apply Htr in Hin as [Hin Ht]. destruct (proj1 (Hc target) Hin) as [Hg Hu]. split_and!; [done..|].
    intros p Hp Hup. split; [done|]. intros [Hpt|?]; [|done]. apply Hmin, Htr. split; [|done]. apply Hc. by split.
Qed.

(** The file an import of that name is pointed at *)
Definition import_target (name : string) (target : path) : Prop :=
  target ∈ rglob name /\ usable target /\
  forall p, p ∈ rglob name -> usable p -> (is_tracked p -> is_tracked target) /\
    ((is_tracked p \/ ~ is_tracked target) -> cand_leb project target p = true).

(** What may become of a line *)
Definition import_line_outcome (poc_dir : path) (line line' : string) (changed : bool) : Prop :=
  (changed = false /\ line' = line) \/
  (changed = true /\ starts_with "SPDX-License-Identifier" (lstrip line) = true /\
   exists a b, line = a +:+ "SPDX-License-Identifier" +:+ b /\ line' = a +:+ "// SPDX-License-Identifier" +:+ b) \/
  (changed = true /\ starts_with "import" (lstrip line) = true /\
   exists p target, line' = replace p (relative_import cwd target poc_dir) line /\ is_library p = false /\
     relative_import cwd target poc_dir <> p /\ import_target (path_name (to_path p)) target).

Lemma fix_import_line_outcome poc_dir line :
  import_line_outcome poc_dir line (fix_import_line fs git cwd rglob project poc_dir line).1
    (fix_import_line fs git cwd rglob project poc_dir line).2.
Proof.
  unfold fix_import_line, import_line_outcome. cbv zeta.
  destruct (starts_with "SPDX-License-Identifier" (lstrip line)) eqn:Hs.
  - right; left. cbn [fst snd]. split_and!; [done|done|]. unfold replace_first.
    destruct (split_once _ line) as [[a b]|] eqn:Hso.
    + exists a, b. split; [|done]. by apply split_once_Some in Hso.
    + apply split_once_None in Hso. exfalso. destruct (lstrip_suffix line) as [u Hu].
      apply starts_with_spec in Hs as [v Hv]. apply not_true_iff_false in Hso. apply Hso, contains_spec.
      exists u, v. by rewrite Hu at 1; rewrite Hv.
  - destruct (starts_with "import" (lstrip line)); [|by left].
    destruct (import_rewrite _ _ _ _ _ _ _) as [[p correct]|] eqn:Hr; [|by left].
    right; right. cbn [fst snd]. split_and!; [done|done|]. revert Hr. unfold import_rewrite.
    destruct (re_search QUOTED_SOL_RE line) as [mo|]; [|done]. cbn. cbv zeta.
    destruct (is_library (group_or_empty 1 line mo)) eqn:Hl; [done|].
    destruct (head (candidates _ _ _ _ _)) as [target|] eqn:Hh; [|done]. cbn.
    destruct (String.eqb_spec (relative_import cwd target poc_dir) (group_or_empty 1 line mo)) as [|Hne]; [done|].
    intros [= <- <-]. exists (group_or_empty 1 line mo), target. split_and!; [done..|]. by apply candidates_head.
Qed.

(** The import fixer works line by line: each line stays as it is, or is a bare SPDX
    line that gets its comment marker, or is an import line in which a path that is no
    library path is replaced by the relative path of a file of the same name, a usable
    one that is tracked whenever one of them is and the shallowest of its kind; it reports
    a change exactly when one of the last two happened. *)
Theorem import_paths_scoped base_dir code :
  exists outs,
    fix_import_paths fs git cwd rglob project base_dir code = (unlines outs.*1, existsb snd outs, existsb snd outs) /\
    Forall2 (fun line o => import_line_outcome (default (path_join project ["audit"; "poc"]) base_dir) line o.1 o.2)
      (splitlines code) outs.
Proof.
  unfold fix_import_paths. cbv zeta. eexists. split; [reflexivity|].
  change (match base_dir with Some d => d | None => path_join project (to_path POC_SUBDIR) end)
    with (default (path_join project ["audit"; "poc"]) base_dir).
  apply Forall2_fmap_r, Forall_Forall2_diag, Forall_forall. intros line _. apply fix_import_line_outcome.
Qed.
End import_paths_proofs.

(** Nothing found leaves the lines as they are; the text may still lose its final newline. *)
Lemma import_paths_untouched fs git cwd rglob project base_dir code code' m :
  fix_import_paths fs git cwd rglob project base_dir code = (code', m, false) -> code' = unlines (splitlines code) /\ m = false.
Proof.
  unfold fix_import_paths. cbv zeta. set (poc_dir := match base_dir with Some d => d | None => _ end).
  intros [= <- <- H]. split; [|done]. f_equal. revert H. induction (splitlines code) as [|line lines IH]; [done|].
  cbn. destruct (fix_import_line _ _ _ _ _ _ line) as [line' c] eqn:E. cbn. intros [Hc Hl]%orb_false_iff. subst c.
  rewrite IH by done. f_equal.
  destruct (fix_import_line_outcome fs git cwd rglob project poc_dir line) as [[_ H]|[[H _]|[H _]]]; rewrite E in H; done.
Qed.

Lemma final_newline_dropped :
  fix_import_paths empty_fs (Ok "") ["/"] (fun _ => []) ["/"; "work"] None ("contract A {}" +:+ nls) = ("contract A {}", false, false).
Proof. vm_compute. done. Qed.

(** ** Bare addresses *)

Lemma wrap_line_Some typ line line' : wrap_line typ line = Some line' -> contains "address(" line = true /\ line' = wrap_address typ line.
Proof. unfold wrap_line. destruct (contains "address(" line); [|done]. cbn. case_match; naive_solver. Qed.

Lemma wrap_hits_spec hits lines applied lines' applied' :
  wrap_hits hits lines applied = (lines', applied') ->
  length lines' = length lines /\
  (forall k, lines' !! k <> lines !! k -> exists typ, (typ, Z.of_nat k) ∈ hits) /\
  (applied' = true -> applied = true \/ hits <> []).
Proof.
  revert lines applied. induction hits as [|[typ i] hits IH]; intros lines applied; cbn [wrap_hits].
  { intros [= <- <-]. split_and!; [done|done|by left]. }
  assert (forall lines0 a0, wrap_hits hits lines0 a0 = (lines', applied') -> length lines0 = length lines ->
    (forall k, lines0 !! k <> lines !! k -> (typ, Z.of_nat k) ∈ [(typ, i)]) ->
    length lines' = length lines /\ (forall k, lines' !! k <> lines !! k -> exists typ0, (typ0, Z.of_nat k) ∈ (typ, i) :: hits) /\
    (applied' = true -> applied = true \/ (typ, i) :: hits <> [])) as Hstep.
  { intros lines0 a0 (Hlen & Hch & _)%IH Hlen0 Hch0. split_and!; [congruence| |by right].
    intros k Hk. destruct (decide (lines' !! k = lines0 !! k)) as [He|He].
    - exists typ. apply elem_of_cons. left. rewrite He in Hk. by apply Hch0, list_elem_of_singleton in Hk.
    - destruct (Hch k He) as [t Ht]. exists t. by right. }
  destruct (Z.ltb_spec i 0) as [Hi|Hi]; [intros H; by apply (Hstep lines applied H)|].
  destruct (lines !! Z.to_nat i ≫= wrap_line typ) as [line|] eqn:Hw; [|intros H; by apply (Hstep lines applied H)].
  intros H. apply (Hstep _ _ H); [by rewrite length_insert|].
  intros k Hk. destruct (decide (Z.to_nat i = k)) as [<-|Hne]; [rewrite Z2Nat.id by lia; left|].
  by rewrite list_lookup_insert_ne in Hk.
Qed.

(** The address fixer touches only lines that the compiler flagged: the number of
    lines stays, a line that changed is at a flagged position, [matched] means that a line
    was flagged and [applied] implies it. *)
Theorem address_fix_line_scoped code forge_output :
  exists lines',
    (fix_address_interface code forge_output).1.1 = unlines lines' /\ length lines' = length (splitlines code) /\
    (forall k, lines' !! k <> splitlines code !! k -> exists typ, (typ, Z.of_nat k) ∈ address_hits forge_output) /\
    ((fix_address_interface code forge_output).1.2 = true <-> address_hits forge_output <> []) /\
    ((fix_address_interface code forge_output).2 = true -> (fix_address_interface code forge_output).1.2 = true).
Proof.
  unfold fix_address_interface. cbv zeta.
  destruct (wrap_hits (address_hits forge_output) (splitlines code) false) as [lines' a] eqn:Hw.
  pose proof (wrap_hits_spec _ _ _ _ _ Hw) as (Hlen & Hch & Ha). exists lines'. cbn [fst snd].
  rewrite negb_true_iff, bool_decide_eq_false. split_and!; [done..|].
  intros Hat. by destruct (Ha Hat).
Qed.

(** A nested call is no bare argument: the line is reported as changed and is not. *)
Lemma address_applied_without_change :
  fix_address_interface ("v.set(address(f(x)));")
    ("conversion from address to contract IVault requested." +:+ nls +:+ "  --> a.sol:1:5:") = ("v.set(address(f(x)));", true, true).
Proof. vm_compute. done. Qed.

(** ** Undeclared identifiers *)

Section undeclared_proofs.
Context (cwd : path) (file_map existing : string) (symbol_index : option SymbolIndex) (base_dir : option path).
Abbreviation known := (known_path cwd file_map existing symbol_index base_dir).
Abbreviation adding := (additions_for cwd file_map existing symbol_index base_dir).

(** A path an authority gives: the file map, an import of the parent scaffold, the index *)
Definition authorised (name p : string) : Prop :=
  p = path_for file_map name \/ scaffold_named_import_path existing name = Some p \/
  index_path cwd symbol_index base_dir name = Some p.

Lemma known_path_authorised name p : known name = Some p -> p <> "" /\ authorised name p.
Proof.
  unfold known_path, authorised. destruct (path_for file_map name) as [|c q] eqn:E1; [|by intros [= <-]; split; [|left]].
  destruct (scaffold_named_import_path existing name) as [[|c q]|] eqn:E2;
    [|by intros [= <-]; split; [|right; left]|];
    (destruct (index_path cwd symbol_index base_dir name) as [[|d u]|] eqn:E3; [done| |done];
     intros [= <-]; split; [done|by right; right]).
Qed.

Lemma additions_for_spec names imported :
  NoDup (adding names imported).*1 /\
  forall name p, (name, p) ∈ adding names imported <-> name ∈ names /\ (name ∉ imported) /\ known name = Some p.
Proof.
  revert imported. induction names as [|n names IH]; intros imported; cbn [additions_for].
  { split; [constructor|]. intros name p. rewrite !elem_of_nil. tauto. }
  case_bool_decide as Hn.
  { destruct (IH imported) as [Hd He]. split; [done|]. intros name p. rewrite He, elem_of_cons. naive_solver. }
  destruct (known n) as [q|] eqn:Hk.
  - destruct (IH (n :: imported)) as [Hd He]. split.
    + cbn. constructor; [|done]. intros ((n', p') & Hx & Hin)%list_elem_of_fmap. cbn in Hx. subst n'.
      apply He in Hin as (_ & Hin & _). apply Hin. by left.
    + intros name p. rewrite !elem_of_cons, He, not_elem_of_cons. split.
      * intros [[= -> ->]|(H1 & [H2 H3] & H4)]; auto.
      * intros ([->|H1] & H2 & H3); [left; congruence|]. destruct (decide (name = n)) as [->|]; [left; congruence|auto].
  - destruct (IH imported) as [Hd He]. split; [done|]. intros name p. rewrite He, elem_of_cons. split; [naive_solver|].
    intros ([->|?] & ? & ?); [congruence|auto].
Qed.

(** No import is invented: the fixer adds, after the last pragma or import line, one
    import for exactly the flagged identifiers that are not imported yet and that the
    file map, the parent scaffold or the index resolves, with the path they give, each
    once; it changes nothing else, and [matched] and [applied] both say whether it added
    one. *)
Theorem undeclared_import_known code forge_output :
  exists adds : list (string * string),
    fix_undeclared_import cwd file_map existing symbol_index base_dir code forge_output =
      (if bool_decide (adds = []) then code
       else unlines (insert_imports (map (fun a => import_stmt a.1 a.2) adds) (splitlines code)),
       negb (bool_decide (adds = [])), negb (bool_decide (adds = []))) /\
    NoDup adds.*1 /\
    (forall name, name ∈ adds.*1 <->
       name ∈ undeclared_names forge_output /\ (name ∉ imported_names code) /\ is_Some (known name)) /\
    (forall name p, (name, p) ∈ adds -> is_identifier name = true /\ p <> "" /\ authorised name p).
Proof.
  exists (adding (unique (undeclared_names forge_output)) (imported_names code)).
  destruct (additions_for_spec (unique (undeclared_names forge_output)) (imported_names code)) as [Hnd Hin].
  split; [|split; [done|split]].
  - unfold fix_undeclared_import. destruct (undeclared_names forge_output) as [|n names]; [done|].
    by destruct (adding (unique (n :: names)) (imported_names code)).
  - intros name. rewrite list_elem_of_fmap. split.
    + intros ((n & p) & -> & (H1 & H2 & H3)%Hin). rewrite elem_of_unique in H1. eauto.
    + intros (H1 & H2 & [p H3]). exists (name, p). split; [done|]. apply Hin. by rewrite elem_of_unique.
  - intros name p (H1 & _ & H3)%Hin. apply known_path_authorised in H3 as [? ?]. split; [|done].
    rewrite elem_of_unique in H1. unfold undeclared_names in H1. apply list_elem_of_In, List.filter_In in H1. tauto.
Qed.
End undeclared_proofs.

(** ** Nested types *)

(** A line in which a nested name is found is rewritten. *)
Lemma nested_found_changes_line ix line :
  (strip_nested ix line).2 <> [] ->
  exists m keep, re_match NAMED_IMPORT_RE (strip line) = Some m /\
    length keep < length (nonempty_names (group_or_empty 1 (strip line) m)) /\
    (strip_nested ix line).1 =
      match keep with [] => [] | _ => [indent_of line +:+ import_stmt (join ", " keep) (group_or_empty 2 (strip line) m)] end.
Proof.
  unfold strip_nested. cbv zeta. destruct (re_match NAMED_IMPORT_RE (strip line)) as [m|]; [|done].
  destruct (is_library _); [done|]. set (names := nonempty_names _). set (keep := List.filter _ names).
  assert (length keep <= length names /\
          (length keep = length names -> omap (fun n => c ← container_of ix n; Some (n, (c, group_or_empty 2 (strip line) m))) names = [])) as [Hle Heq].
  { unfold keep. clearbody names. clear. induction names as [|n names [IH1 IH2]]; [done|].
    cbn [List.filter omap list_omap]. destruct (container_of ix n) as [c|]; cbn [is_none length mbind option_bind];
      (split; [by eauto using le_S, le_n_S|intros H]); [exfalso; lia|apply IH2; by injection H]. }
  destruct (Nat.eqb_spec (length keep) (length names)) as [E|E]; cbn [fst snd]; intros Hne.
  - by rewrite Heq in Hne.
  - exists m, keep. fold names. split_and!; [done|lia|done].
Qed.

Lemma collect_removed_nil found : collect_removed found = [] <-> found = [].
Proof.
  split; [|by intros ->]. destruct found as [|e found] using rev_ind; [done|]. unfold collect_removed.
  rewrite foldl_app. cbn. intros H. exfalso.
  assert ((e.1, e.2) ∈ ([] : list (string * (string * string)))) as Hin by (rewrite <- H; apply elem_of_assoc_set_eq).
  by apply not_elem_of_nil in Hin.
Qed.

Lemma nested_imports_untouched cwd symbol_index file_map base_dir code code' m a :
  fix_nested_type_imports cwd symbol_index file_map base_dir code = (code', m, a) ->
  m = a /\ (a = false -> code' = code).
Proof.
  unfold fix_nested_type_imports, fix_nested_in. destruct symbol_index as [ix|]; [|by intros [= <- <- <-]].
  destruct (collect_removed _); intros [= <- <- <-]; done.
Qed.

(** ** The repair round *)

(** A synthesis repair round reports its four fixers in the order in which it applied
    them, and a fixer that applied was matched; the three import fixers apply whenever
    they match, so only the address fixer can match in vain. *)
Theorem synth_repair_rows fs git cwd rglob code forge_output project synth_dir symbol_index file_map existing :
  exists a_imp a_nest a_und m_iface a_iface,
    (seq_synth_repair fs git cwd rglob code forge_output project synth_dir symbol_index file_map existing).2 =
      [mkFixer "import_paths" a_imp a_imp; mkFixer "nested_imports" a_nest a_nest;
       mkFixer "undeclared_import" a_und a_und; mkFixer "address_interface" m_iface a_iface] /\
    (a_iface = true -> m_iface = true) /\ (m_iface = true <-> address_hits forge_output <> []) /\
    (a_imp = false -> a_nest = false -> a_und = false -> a_iface = false -> address_hits forge_output = [] ->
     (seq_synth_repair fs git cwd rglob code forge_output project synth_dir symbol_index file_map existing).1 =
       unlines (splitlines (unlines (splitlines code)))).
Proof.
  unfold seq_synth_repair.
  destruct (fix_import_paths fs git cwd rglob project (Some synth_dir) code) as [[c1 m1] a1] eqn:E1.
  destruct (fix_nested_type_imports cwd symbol_index file_map (Some synth_dir) c1) as [[c2 m2] a2] eqn:E2.
  destruct (fix_undeclared_import cwd file_map existing symbol_index (Some synth_dir) c2 forge_output) as [[c3 m3] a3] eqn:E3.
  destruct (fix_address_interface c3 forge_output) as [[c4 m4] a4] eqn:E4.
  assert (m1 = a1) as -> by (unfold fix_import_paths in E1; congruence).
  destruct (nested_imports_untouched _ _ _ _ _ _ _ _ E2) as [-> Hc2].
  assert (m3 = a3 /\ (a3 = false -> c3 = c2)) as [-> Hc3].
  { revert E3. unfold fix_undeclared_import. destruct (undeclared_names forge_output); [by intros [= <- <- <-]|].
    destruct (additions_for _ _ _ _ _ _ _); by intros [= <- <- <-]. }
  revert E4. unfold fix_address_interface. cbv zeta.
  destruct (wrap_hits (address_hits forge_output) (splitlines c3) false) as [lines' a'] eqn:Hw. intros [= <- <- <-].
  pose proof (wrap_hits_spec _ _ _ _ _ Hw) as (_ & _ & Ha).
  exists a1, a2, a3, (negb (bool_decide (address_hits forge_output = []))), a'. cbn [fst snd].
  rewrite negb_true_iff, bool_decide_eq_false. split_and!; [done| |done|].
  - intros Hat. by destruct (Ha Hat).
  - intros -> -> -> -> Hno. rewrite Hno in Hw. injection Hw as <-. rewrite Hc3, Hc2 by done.
    by destruct (import_paths_untouched _ _ _ _ _ _ _ _ _ E1) as [-> _].
Qed.

(** The events cover what the post-model sequence can report. *)
Lemma postmodel_events fs git cwd rglob code project symbol_index file_map scaffold guard name :
  name ∈ (seq_postmodel fs git cwd rglob code project symbol_index file_map scaffold guard).2 -> is_Some (assoc name POSTMODEL_EVENT).
Proof.
  unfold seq_postmodel. repeat case_match; simplify_eq; cbn [snd app]; rewrite ?elem_of_cons, ?elem_of_nil;
    naive_solver.
Qed.

(** A prewritten import, a nested type qualified, a scaffold's leaf inherited *)
Example nested_example :
  fix_nested_type_imports ["/"]
    (Some (mkIndex [("Kind", [mkSymbol "Kind" "enum" "Vault" ["/"; "w"; "Vault.sol"] "" [] ""])] [] ∅ ∅ [])) "" None
    ("import {Kind, IFoo} from '../Vault.sol';" +:+ nls +:+ "contract A { Kind k; Vault.Kind q; MyKind r; }") =
  ("import { IFoo } from " +:+ dquote +:+ "../Vault.sol" +:+ dquote +:+ ";" +:+ nls
   +:+ "import { Vault } from " +:+ dquote +:+ "../Vault.sol" +:+ dquote +:+ ";" +:+ nls
   +:+ "contract A { Vault.Kind k; Vault.Kind q; MyKind r; }", true, true).
Proof. vm_compute. done. Qed.

Example undeclared_example :
  fix_undeclared_import ["/"] ("IVault: ../src/IVault.sol" +:+ nls) "" None None
    ("pragma solidity 0.8;" +:+ nls +:+ "contract A { IVault v; Ghost g; }")
    ("Error (7576): Undeclared identifier." +:+ nls +:+ " --> a.sol:2:14" +:+ nls +:+ "  |" +:+ nls
     +:+ "2 | contract A { IVault v; Ghost g; }" +:+ nls +:+ "  |              ^^^^^^" +:+ nls +:+
     "Error (7920): Identifier not found." +:+ nls +:+ " --> a.sol:2:24" +:+ nls +:+ "  |" +:+ nls
     +:+ "2 | contract A { IVault v; Ghost g; }" +:+ nls +:+ "  |                        ^^^^^") =
  ("pragma solidity 0.8;" +:+ nls +:+ "import { IVault } from " +:+ dquote +:+ "../src/IVault.sol" +:+ dquote +:+ ";" +:+ nls
   +:+ "contract A { IVault v; Ghost g; }", true, true).
Proof. vm_compute. done. Qed.

Example setup_example :
  fix_setup_override ("contract A is B {" +:+ nls +:+ "function setUp() public override { super.setUp(); }" +:+ nls
    +:+ "function testX() public {" +:+ nls +:+ "}}") =
  ("contract A is B {" +:+ nls +:+ nls +:+ "function testX() public {" +:+ nls +:+ "}}", true).
Proof. vm_compute. done. Qed.
