(* ===== verification/Inventory.v ===== *)
(** * Scaffold API inventory (audit_agent/proof/scaffold_api_inventory.py)

    The symbols a drafted test inherits from its scaffold: parents are resolved edge by
    edge through same-file declarations and direct imports, collected breadth first,
    deduplicated, and rendered within a budget.  The Solidity parser and the disk are
    parameters; names in the parser's output are strings. *)

From S2P Require Import Prelude PyStr PyPath PyVal StaticAnalysis SolIndex.

Definition INVENTORY_BUDGET : nat := Z.to_nat 4000.
Definition HINT_EXCERPT_BUDGET : nat := Z.to_nat 1500.

Record InventoryStateVar := mkSV {
  sv_name : string;
  sv_type : string;
  sv_contract : string;
  sv_path : string;
  sv_distance : nat;
  sv_visibility : string;
}.

Record InventoryHelper := mkHelper {
  ih_name : string;
  ih_params : list string;
  ih_contract : string;
  ih_path : string;
  ih_distance : nat;
  ih_visibility : string;
  ih_section : string;
}.

Definition canonical_param_types (h : InventoryHelper) : string := join "," (ih_params h).

Record UnresolvedParent := mkUnresolved { up_name : string; up_contract : string; up_path : string; up_reason : string }.

(** The discarded declaration and the winning one *)
Record DiamondDrop := mkDrop { dd_name : string; dd_discarded : InventoryStateVar; dd_winning : InventoryStateVar }.

Record ScaffoldApiInventory := mkInventory {
  in_leaf_contract : string;
  in_leaf_path : path;
  in_state_vars : list InventoryStateVar;
  in_lifecycle : list InventoryHelper;
  in_callable : list InventoryHelper;
  in_unresolved : list UnresolvedParent;
  in_drops : list DiamondDrop;
  in_rendered : string;
  in_degraded : bool;
}.

Definition data_block (inv : ScaffoldApiInventory) : string :=
  "[DATA START scaffold_api]" +:+ nls +:+ in_rendered inv +:+ nls +:+ "[DATA END scaffold_api]".

Record EdgeResolution := mkEdge {
  er_parent : string;
  er_path : option path;
  er_via : option string;
  er_reason : option string;
  er_candidates : list path;
  er_contract : option string;
}.

(** ** Rendering *)

Definition entry_line_state (sv : InventoryStateVar) : string :=
  sv_type sv +:+ " " +:+ sv_name sv +:+ "  # " +:+ sv_contract sv +:+ " d=" +:+ pretty (sv_distance sv).
Definition entry_line_helper (h : InventoryHelper) : string :=
  ih_name h +:+ "(" +:+ canonical_param_types h +:+ ")  # " +:+ ih_contract h +:+ " d=" +:+ pretty (ih_distance h).

Fixpoint truncate_from (budget used : nat) (entries : list string) (out : list string) : list string :=
  match entries with
  | [] => out
  | e :: entries' =>
      let add := ulen e + (match out with [] => 0 | _ => 1 end) in
      if budget <? used + add then out else truncate_from budget (used + add) entries' (out ++ [e])
  end.
Definition truncate_entries (entries : list string) (budget : nat) : list string := truncate_from budget 0 entries [].

(** Tuples compare component by component. *)
Definition lex_leb (ltb : bool) (eqb : bool) (rest : bool) : bool := ltb || eqb && rest.
Definition state_leb (x y : InventoryStateVar) : bool :=
  lex_leb (sv_distance x <? sv_distance y) (sv_distance x =? sv_distance y)
    (lex_leb (str_ltb (sv_name x) (sv_name y)) (String.eqb (sv_name x) (sv_name y)) (str_leb (sv_contract x) (sv_contract y))).
Definition helper_leb (x y : InventoryHelper) : bool :=
  lex_leb (ih_distance x <? ih_distance y) (ih_distance x =? ih_distance y)
    (lex_leb (str_ltb (ih_name x) (ih_name y)) (String.eqb (ih_name x) (ih_name y))
       (lex_leb (str_ltb (canonical_param_types x) (canonical_param_types y))
          (String.eqb (canonical_param_types x) (canonical_param_types y)) (str_leb (ih_contract x) (ih_contract y)))).

Inductive section := st_state | st_life | st_call.
#[export] Instance section_eq_dec : EqDecision section.
Proof. solve_decision. Defined.

Definition state_lines (inv : ScaffoldApiInventory) (d : nat) : list string :=
  map entry_line_state (py_sort state_leb (List.filter (fun s => sv_distance s =? d) (in_state_vars inv))).
Definition helper_lines (hs : list InventoryHelper) (d : nat) : list string :=
  map entry_line_helper (py_sort helper_leb (List.filter (fun h => ih_distance h =? d) hs)).

(** The three buckets of a distance *)
Definition buckets_at (inv : ScaffoldApiInventory) (d : nat) : list (section * string) :=
  map (pair st_state) (state_lines inv d) ++ map (pair st_life) (helper_lines (in_lifecycle inv) d)
  ++ map (pair st_call) (helper_lines (in_callable inv) d).

Definition max_distance (inv : ScaffoldApiInventory) : nat :=
  foldl Nat.max (foldl Nat.max 0 (map sv_distance (in_state_vars inv)))
    (map ih_distance (in_lifecycle inv ++ in_callable inv)).

(** The lines in the order of priority *)
Definition prioritized (inv : ScaffoldApiInventory) : list (section * string) :=
  List.concat (map (buckets_at inv) (seq 0 (S (max_distance inv)))).

(** The lines until the first that does not fit; the loop over the buckets stops there *)
Fixpoint keep_lines (remain used : nat) (lines : list (section * string)) : list (section * string) :=
  match lines with
  | [] => []
  | (sec, line) :: lines' =>
      let add := ulen line + 1 in
      if remain <? used + add then [] else (sec, line) :: keep_lines remain (used + add) lines'
  end.

Definition lines_of (sec : section) (lines : list (section * string)) : list string :=
  map snd (List.filter (fun l => bool_decide (l.1 = sec)) lines).

Definition GUIDANCE : string :=
  "lifecycle_setup: use in the setup path (follow base example / super.setUp() when overriding); not a normal test-body call.".
Definition unresolved_line (u : UnresolvedParent) : string :=
  up_name u +:+ " from " +:+ up_contract u +:+ " reason=" +:+ up_reason u.
Definition inventory_header (inv : ScaffoldApiInventory) : string :=
  "leaf=" +:+ in_leaf_contract inv +:+ " file=" +:+ path_name (in_leaf_path inv).

Definition fixed_text (inv : ScaffoldApiInventory) : string :=
  inventory_header inv +:+ nls +:+ "## state_variables" +:+ nls +:+ "## lifecycle_setup" +:+ nls +:+ GUIDANCE +:+ nls
  +:+ "## callable_helpers" +:+ nls
  +:+ match in_unresolved inv with
      | [] => ""
      | us => "## unresolved_parents" +:+ nls +:+ String.concat "" (map (fun u => unresolved_line u +:+ nls) us)
      end.

Definition inventory_parts (inv : ScaffoldApiInventory) (kept : list (section * string)) : list string :=
  [inventory_header inv; "## state_variables"] ++ lines_of st_state kept ++ ["## lifecycle_setup"; GUIDANCE]
  ++ lines_of st_life kept ++ ["## callable_helpers"] ++ lines_of st_call kept
  ++ match in_unresolved inv with [] => [] | us => "## unresolved_parents" :: map unresolved_line us end.

Definition hard_cap (body : string) (budget : nat) : string :=
  if budget <? ulen body then
    let body := utake budget body in
    if contains nls body then unlines (removelast (splitlines body)) else body
  else body.

Definition kept_lines (inv : ScaffoldApiInventory) (budget : nat) : list (section * string) :=
  keep_lines (budget - ulen (fixed_text inv)) 0 (prioritized inv).

Definition render_inventory (inv : ScaffoldApiInventory) (budget : nat) : string :=
  hard_cap (unlines (inventory_parts inv (kept_lines inv budget))) budget.

Definition hint_excerpt (inv : ScaffoldApiInventory) : string := render_inventory inv HINT_EXCERPT_BUDGET.

(** ** Deduplication *)

(** One declaration per contract, the nearest; a dictionary keeps the place of a key *)
Definition by_declaring (group : list InventoryStateVar) : list (string * InventoryStateVar) :=
  foldl (fun acc sv =>
    match assoc (sv_contract sv) acc with
    | Some prev => if sv_distance sv <? sv_distance prev then assoc_set (sv_contract sv) sv acc else acc
    | None => assoc_set (sv_contract sv) sv acc
    end) [] group.

Definition winner_leb (x y : InventoryStateVar) : bool :=
  lex_leb (sv_distance x <? sv_distance y) (sv_distance x =? sv_distance y) (str_leb (sv_contract x) (sv_contract y)).

(** [min(decls, key=...)]: the first of the least *)
Fixpoint min_from (best : InventoryStateVar) (l : list InventoryStateVar) : InventoryStateVar :=
  match l with [] => best | x :: l' => min_from (if winner_leb best x then best else x) l' end.

(** The declarations kept of one name, and the collisions of their types *)
Definition resolve_name (name : string) (group : list InventoryStateVar) : list InventoryStateVar * list DiamondDrop :=
  let decls := (by_declaring group).*2 in
  let types := unique (map sv_type decls) in
  match decls with
  | d :: ds =>
      if (1 <? length types) && (1 <? length decls) then
        let winner := min_from d ds in
        ([winner],
         map (fun d => mkDrop name d winner) (List.filter (fun d => negb (String.eqb (sv_type d) (sv_type winner))) decls))
      else (decls, [])
  | [] => ([], [])
  end.

Definition dedup_state (state_vars : list InventoryStateVar) : list InventoryStateVar * list DiamondDrop :=
  let per_name := map (fun name => resolve_name name (List.filter (fun sv => String.eqb (sv_name sv) name) state_vars))
                    (unique (map sv_name state_vars)) in
  (List.concat per_name.*1, List.concat per_name.*2).

Definition helper_key (h : InventoryHelper) : string * string * string * string :=
  (ih_contract h, ih_section h, ih_name h, canonical_param_types h).

Fixpoint dedup_helpers_from (seen : list (string * string * string * string)) (items : list InventoryHelper) : list InventoryHelper :=
  match items with
  | [] => []
  | h :: items' =>
      if bool_decide (helper_key h ∈ seen) then dedup_helpers_from seen items'
      else h :: dedup_helpers_from (helper_key h :: seen) items'
  end.
Definition dedup_helpers (items : list InventoryHelper) : list InventoryHelper := dedup_helpers_from [] items.

(** ** Reading the syntax tree *)

Fixpoint filter_res {A} (p : A -> res bool) (l : list A) : res (list A) :=
  match l with
  | [] => Ok []
  | x :: l' => b ← p x; rest ← filter_res p l'; Ok (if (b : bool) then x :: rest else rest)
  end.

Definition has_type (t : string) (node : pyval) : res bool := v ← get node "type"; Ok (bool_decide (v = PStr t)).
Definition contracts_in_ast (ast : pyval) : res (list pyval) := cs ← children ast; filter_res (has_type "ContractDefinition") cs.
Definition imports_in_ast (ast : pyval) : res (list pyval) := cs ← children ast; filter_res (has_type "ImportDirective") cs.

(** A name, or "" for none *)
Definition name_or_empty (v : pyval) : res string := if truthy_val v then as_str v else Ok "".
Definition contract_name (c : pyval) : res string := v ← get c "name"; name_or_empty v.

(** [v.get(k) or []], iterated *)
Definition get_items (v : pyval) (k : string) : res (list pyval) := x ← get v k; piter (por x (PList [])).

Definition base_name (b : pyval) : res string :=
  bn ← get b "baseName"; v ← get (por bn (PDict [])) "namePath"; name_or_empty v.
Definition base_names (contract : pyval) : res (list string) :=
  bs ← get_items contract "baseContracts"; names ← map_res base_name bs; Ok (List.filter truthy names).

Definition pick_leaf_contract (ast : pyval) : res (option string) :=
  contracts ← contracts_in_ast ast;
  cnames ← map_res contract_name contracts;
  bases ← map_res base_names contracts;
  let names := List.filter truthy cnames in
  let used_as_base := List.filter (fun b => bool_decide (b ∈ names)) (List.concat bases) in
  let derived := List.filter (fun c => truthy c.1 && negb (bool_decide (c.1 ∈ used_as_base))) (zip cnames bases) in
  let with_bases := List.filter (fun c => negb (bool_decide (c.2 = []))) derived in
  Ok match derived, with_bases, cnames with
     | [c], _, _ => Some c.1
     | _, [c], _ => Some c.1
     | _, _, [n] => if truthy n then Some n else None
     | _, _, _ => None
     end.

Section inventory.
Context (fs : FileSystem) (depth : nat) (parse : string -> res pyval).
Context (file_map : option (list (path * string))) (remappings : list string).

(** [None] for a source the parser refuses, and for an empty tree *)
Definition parse_source (source : string) : option pyval :=
  match parse source with Ok ast => if truthy_val ast then Some ast else None | Raise _ => None end.

Definition mapped_text (p : path) (m : list (path * string)) : option string :=
  match first (fun kv => bool_decide (fs_resolve fs kv.1 = fs_resolve fs p) || bool_decide (kv.1 = p)) m with
  | Some kv => Some kv.2
  | None =>
      snd <$> first (fun kv => String.eqb (path_name kv.1) (path_name p) && contains (path_name p) (path_str kv.1)) m
  end.

Definition load_text (p : path) : option string :=
  match file_map ≫= mapped_text p with
  | Some text => Some text
  | None => res_to_option (fs_read fs p)
  end.

Definition contract_names_in_source (source : string) : res (list string) :=
  match parse_source source with
  | None => Ok []
  | Some ast => cs ← contracts_in_ast ast; names ← map_res contract_name cs; Ok (List.filter truthy names)
  end.

Fixpoint remap_with (remappings : list string) (import_path : string) : string :=
  match remappings with
  | [] => import_path
  | raw :: rest =>
      match split_once "=" raw with
      | None => remap_with rest import_path
      | Some (prefix, target) =>
          if starts_with prefix import_path then target +:+ sdrop (String.length prefix) import_path
          else remap_with rest import_path
      end
  end.
Definition apply_remappings (import_path : string) : string := remap_with remappings import_path.

Definition resolve_import_path (child_path : path) (import_path : string) : path :=
  let p := to_path (apply_remappings import_path) in
  if is_absolute p then fs_resolve fs p else fs_resolve fs (path_join (parent child_path) p).

(** The name to seek in the imported file: through the aliases, which map a remote name
    to a local one; [None] when the import does not bring the name in *)
Definition seek_name (parent_name : string) (aliases : list (string * pyval)) : option string :=
  match aliases with
  | [] => Some parent_name
  | _ =>
      match last (List.filter (fun a => bool_decide (a.2 = PStr parent_name)) aliases) with
      | Some a => Some a.1
      | None =>
          match assoc parent_name aliases with
          | Some v => if negb (truthy_val v) || bool_decide (v = PStr parent_name) then Some parent_name else None
          | None => None
          end
      end
  end.

Definition alias_items (v : pyval) : res (list (string * pyval)) :=
  match por v (PDict []) with
  | PDict d => Ok d
  | w => Raise (Exn "AttributeError" ("'" +:+ type_name w +:+ "' object has no attribute 'items'"))
  end.

Definition import_candidate (child_path : path) (parent_name : string) (imp : pyval) : res (option (path * string)) :=
  ipath ← get imp "path";
  if negb (truthy_val ipath) then Ok None
  else
    ipath ← as_str ipath;
    let target := resolve_import_path child_path ipath in
    match load_text target with
    | None => Ok None
    | Some text =>
        al ← get imp "symbolAliases";
        aliases ← alias_items al;
        match seek_name parent_name aliases with
        | None => Ok None
        | Some seek =>
            names ← contract_names_in_source text;
            Ok (if bool_decide (seek ∈ names) then Some (fs_resolve fs target, seek) else None)
        end
    end.

Fixpoint unique_paths (seen : list path) (cands : list (path * string)) : list (path * string) :=
  match cands with
  | [] => []
  | c :: cands' => if bool_decide (c.1 ∈ seen) then unique_paths seen cands' else c :: unique_paths (c.1 :: seen) cands'
  end.

Definition resolve_parent_edge (child_path : path) (child_source parent_name : string) : res EdgeResolution :=
  match parse_source child_source with
  | None => Ok (mkEdge parent_name None None (Some "unparseable") [] None)
  | Some ast =>
      contracts ← contracts_in_ast ast;
      names ← map_res contract_name contracts;
      match List.filter (String.eqb parent_name) names with
      | [_] => Ok (mkEdge parent_name (Some (fs_resolve fs child_path)) (Some "same_file") None [] (Some parent_name))
      | _ :: _ :: _ => Ok (mkEdge parent_name None None (Some "ambiguous") [fs_resolve fs child_path] None)
      | [] =>
          imps ← imports_in_ast ast;
          cands ← map_res (import_candidate child_path parent_name) imps;
          match unique_paths [] (omap id cands) with
          | [c] => Ok (mkEdge parent_name (Some c.1) (Some "import") None [] (Some c.2))
          | [] => Ok (mkEdge parent_name None None (Some "missing") [] None)
          | uniq => Ok (mkEdge parent_name None None (Some "ambiguous") uniq.*1 None)
          end
      end
  end.

(** ** Collecting *)

Definition param_type_list (fn : pyval) : res (list string) :=
  ps ← get fn "parameters";
  ps ← get_items (por ps (PDict [])) "parameters";
  map_res (fun p => tn ← get p "typeName"; ty ← type_str depth tn; as_str ty) ps.

Definition usable_visibility_var (vis : string) : bool :=
  negb (truthy vis) || String.eqb vis "default" || bool_decide (vis ∈ ["public"; "internal"]).
Definition usable_visibility_fn (vis : string) : bool := bool_decide (vis ∈ ["public"; "internal"]).

Definition is_lifecycle (name : string) : bool := starts_with "setUp" name.
Definition is_callable (name : string) : bool := existsb (fun p => starts_with p name) ["_deploy"; "_grant"; "_deposit"].

Definition collect_var (cname : string) (p : path) (distance : nat) (v : pyval) : res (list InventoryStateVar) :=
  name ← get v "name";
  if negb (truthy_val name) then Ok []
  else
    name ← as_str name;
    vis ← get v "visibility";
    vis ← as_str (por vis (PStr "default"));
    if String.eqb vis "private" || negb (usable_visibility_var vis) then Ok []
    else
      tn ← get v "typeName";
      ty ← type_str depth tn;
      Ok [mkSV name (py_str ty) cname (path_str p) distance vis].

Definition collected := (list InventoryStateVar * list InventoryHelper * list InventoryHelper)%type.
Definition collected_nil : collected := ([], [], []).
Definition collected_app (a b : collected) : collected := (a.1.1 ++ b.1.1, a.1.2 ++ b.1.2, a.2 ++ b.2).

Definition collect_fn (cname : string) (p : path) (distance : nat) (sub : pyval) : res collected :=
  name ← getitem sub "name";
  name ← as_str name;
  vis ← get sub "visibility";
  vis ← name_or_empty vis;
  if negb (usable_visibility_fn vis) then Ok collected_nil
  else
    params ← param_type_list sub;
    Ok (if is_lifecycle name then ([], [mkHelper name params cname (path_str p) distance vis "lifecycle"], [])
        else if is_callable name then ([], [], [mkHelper name params cname (path_str p) distance vis "callable"])
        else collected_nil).

Definition collect_sub (cname : string) (p : path) (distance : nat) (sub : pyval) : res collected :=
  t ← get sub "type";
  if bool_decide (t = PStr "StateVariableDeclaration") then
    vs ← get_items sub "variables";
    svs ← map_res (collect_var cname p distance) vs;
    Ok (List.concat svs, [], [])
  else if bool_decide (t = PStr "FunctionDefinition") then
    name ← get sub "name";
    if truthy_val name then collect_fn cname p distance sub else Ok collected_nil
  else Ok collected_nil.

Definition name_or_unknown (node : pyval) : res string := n ← contract_name node; Ok (if truthy n then n else "?").

Definition collect_from_contract (contract : pyval) (p : path) (distance : nat) : res collected :=
  cname ← name_or_unknown contract;
  subs ← get_items contract "subNodes";
  parts ← map_res (collect_sub cname p distance) subs;
  Ok (foldl collected_app collected_nil parts).

(** ** The breadth-first walk *)

(** A queued contract: its node, its file with the text, its distance *)
Record item := mkItem { qi_node : pyval; qi_path : path; qi_src : string; qi_dist : nat }.

Record Bfs := mkBfs {
  b_queue : list item;
  b_edges : list (string * string * nat);
  b_visited : list (string * string);
  b_found : collected;
  b_unresolved : list UnresolvedParent;
}.

(** The first contract of that name in the text; the error a parent is reported with *)
Definition find_contract (ast : pyval) (name : string) : res (option pyval) :=
  cs ← contracts_in_ast ast;
  named ← filter_res (fun c => n ← get c "name"; Ok (bool_decide (n = PStr name))) cs;
  Ok (head named).

Definition parent_item (it : item) (parent_name : string) : res (item + string) :=
  edge ← resolve_parent_edge (qi_path it) (qi_src it) parent_name;
  match er_path edge with
  | None => Ok (inr (default "missing" (er_reason edge)))
  | Some p =>
      match load_text p with
      | None => Ok (inr "missing")
      | Some ptext =>
          match parse_source ptext with
          | None => Ok (inr "unparseable")
          | Some past =>
              pnode ← find_contract past (default parent_name (er_contract edge));
              Ok match pnode with
                 | None => inr "missing"
                 | Some n => inl (mkItem n p ptext (S (qi_dist it)))
                 end
          end
      end
  end.

(** One parent of the contract at the head of the queue *)
Definition visit_parent (it : item) (cname : string) (b : Bfs) (parent_name : string) : res Bfs :=
  let ek := (parent_name, path_str (fs_resolve fs (qi_path it)), qi_dist it) in
  if bool_decide (ek ∈ b_edges b) then Ok b
  else
    let edges := ek :: b_edges b in
    r ← parent_item it parent_name;
    Ok match r with
       | inl it' => mkBfs (b_queue b ++ [it']) edges (b_visited b) (b_found b) (b_unresolved b)
       | inr reason =>
           mkBfs (b_queue b) edges (b_visited b) (b_found b)
             (b_unresolved b ++ [mkUnresolved parent_name cname (path_str (qi_path it)) reason])
       end.

Fixpoint visit_parents (it : item) (cname : string) (parents : list string) (b : Bfs) : res Bfs :=
  match parents with
  | [] => Ok b
  | p :: parents' => b ← visit_parent it cname b p; visit_parents it cname parents' b
  end.

Definition item_key (it : item) : res (string * string) :=
  n ← name_or_unknown (qi_node it); Ok (n, path_str (fs_resolve fs (qi_path it))).

(** One turn of the loop; it ends when the queue is empty *)
Definition bfs_turn (b : Bfs) : ST unit (Bfs + Bfs) :=
  match b_queue b with
  | [] => mret (inr b)
  | it :: queue =>
      st_lift (
        key ← item_key it;
        if bool_decide (key ∈ b_visited b) then
          Ok (inl (mkBfs queue (b_edges b) (b_visited b) (b_found b) (b_unresolved b)))
        else
          found ← collect_from_contract (qi_node it) (qi_path it) (qi_dist it);
          parents ← base_names (qi_node it);
          b' ← visit_parents it key.1 parents
                 (mkBfs queue (b_edges b) (key :: b_visited b) (collected_app (b_found b) found) (b_unresolved b));
          Ok (inl b'))
  end.

Definition bfs (fuel : nat) (leaf : item) : res (option Bfs) :=
  (iter_st bfs_turn fuel (mkBfs [leaf] [] [] collected_nil []) tt).2.

Definition inventory_of (cname : string) (leaf_path : path) (b : Bfs) : ScaffoldApiInventory :=
  let '(state, drops) := dedup_state (b_found b).1.1 in
  let inv := mkInventory cname leaf_path state (dedup_helpers (b_found b).1.2) (dedup_helpers (b_found b).2)
               (b_unresolved b) drops "" (negb (bool_decide (b_unresolved b = []) && bool_decide (drops = []))) in
  mkInventory (in_leaf_contract inv) (in_leaf_path inv) (in_state_vars inv) (in_lifecycle inv) (in_callable inv)
    (in_unresolved inv) (in_drops inv) (render_inventory inv INVENTORY_BUDGET) (in_degraded inv).

(** The contract the walk starts from *)
Definition leaf_item (leaf_path : path) (leaf_contract : option string) : res (option (string * item)) :=
  let leaf_path := fs_resolve fs leaf_path in
  match load_text leaf_path with
  | None => Ok None
  | Some source =>
      match parse_source source with
      | None => Ok None
      | Some ast =>
          chosen ← match leaf_contract with
                   | Some (String _ _ as c) => Ok (Some c)
                   | _ => pick_leaf_contract ast
                   end;
          match chosen return res (option (string * item)) with
          | None => Ok None
          | Some cname =>
              node ← find_contract ast cname;
              Ok (match node with Some n => Some (cname, mkItem n leaf_path source 0) | None => None end)
          end
      end
  end.

(** [Ok None] is the walk that has not finished within its fuel ([bfs_terminates]) *)
Definition build_inventory (fuel : nat) (leaf_path : path) (leaf_contract : option string)
    : res (option (option ScaffoldApiInventory)) :=
  leaf ← leaf_item leaf_path leaf_contract;
  match leaf return res (option (option ScaffoldApiInventory)) with
  | None => Ok (Some None)
  | Some (cname, it) =>
      b ← bfs fuel it;
      Ok (match b with Some b => Some (Some (inventory_of cname (qi_path it) b)) | None => None end)
  end.

Definition derive_or_omit (fuel : nat) (scaffold_paths : list path)
    : res (option (option ScaffoldApiInventory * option string)) :=
  match scaffold_paths with
  | [] => Ok (Some (None, None))
  | [p] =>
      o ← build_inventory fuel p None;
      Ok (match o with
          | None => None
          | Some None => Some (None, Some "leaf_unparseable")
          | Some inv => Some (inv, None)
          end)
  | _ => Ok (Some (None, Some "ambiguous_leaf"))
  end.
End inventory.

(** ** The budget of the rendering *)

Lemma hard_cap_within body budget : ulen (hard_cap body budget) <= budget.
Proof.
  unfold hard_cap. destruct (Nat.ltb_spec budget (ulen body)) as [H|H]; [|done]. cbv zeta.
  destruct (contains nls (utake budget body)); [|apply ulen_utake].
  etransitivity; [apply ulen_drop_last_line|apply ulen_utake].
Qed.

Definition widths (l : list string) : nat := list_sum (map (fun s => ulen s + 1) l).

Lemma widths_app a b : widths (a ++ b) = widths a + widths b.
Proof. unfold widths. by rewrite map_app, list_sum_app. Qed.

Lemma widths_cons s l : widths (s :: l) = ulen s + 1 + widths l.
Proof. done. Qed.

(** The lines kept are a prefix, they fit, and the next one does not. *)
Lemma keep_lines_spec remain used lines :
  used <= remain ->
  exists rest, lines = keep_lines remain used lines ++ rest /\
    used + widths (keep_lines remain used lines).*2 <= remain /\
    forall l, head rest = Some l -> remain < used + widths (keep_lines remain used lines).*2 + ulen l.2 + 1.
Proof.
  revert used. induction lines as [|[sec line] lines IH]; intros used Hu; cbn [keep_lines].
  { exists []. split_and!; [done|unfold widths; cbn; lia|done]. }
  destruct (Nat.ltb_spec remain (used + (ulen line + 1))) as [H|H].
  - exists ((sec, line) :: lines). split_and!; [done|unfold widths; cbn; lia|]. intros l [= <-]. unfold widths. cbn. lia.
  - destruct (IH (used + (ulen line + 1)) H) as (rest & Hl & Hf & Hn). exists rest. cbn [app fmap list_fmap fst snd].
    rewrite widths_cons. split_and!; [by rewrite <- Hl|lia|]. intros l Hl'. specialize (Hn l Hl'). lia.
Qed.

Lemma lines_of_cons sec sec' line kept :
  lines_of sec ((sec', line) :: kept) = if decide (sec' = sec) then line :: lines_of sec kept else lines_of sec kept.
Proof. unfold lines_of. cbn [List.filter fst]. destruct (decide (sec' = sec)); [rewrite bool_decide_eq_true_2 by done|rewrite bool_decide_eq_false_2 by done]; done. Qed.

Lemma widths_lines_of kept :
  widths (lines_of st_state kept) + widths (lines_of st_life kept) + widths (lines_of st_call kept) = widths kept.*2.
Proof.
  induction kept as [|[sec line] kept IH]; [done|]. cbn [fmap list_fmap fst snd]. rewrite widths_cons, <- IH, !lines_of_cons.
  destruct sec; repeat case_decide; try done; rewrite widths_cons; lia.
Qed.

Lemma ulen_fixed_text inv :
  ulen (fixed_text inv) = widths (inventory_parts inv []).
Proof.
  unfold fixed_text, inventory_parts, lines_of. cbn [List.filter map app]. rewrite !widths_cons, !ulen_app.
  change (ulen nls) with 1. destruct (in_unresolved inv) as [|u us]; [unfold widths; cbn -[ulen]; change (ulen "") with 0; lia|].
  rewrite widths_cons, !ulen_app, <- (map_map unresolved_line (fun s => s +:+ nls)).
  change ((unresolved_line u +:+ nls) :: map (fun s => s +:+ nls) (map unresolved_line us))
    with (map (fun s => s +:+ nls) (map unresolved_line (u :: us))).
  rewrite ulen_concat_nls. fold (widths (map unresolved_line (u :: us))).
  change (unresolved_line u :: map unresolved_line us) with (map unresolved_line (u :: us)). change (ulen nls) with 1. lia.
Qed.

Lemma widths_parts inv kept : widths (inventory_parts inv kept) = widths (inventory_parts inv []) + widths kept.*2.
Proof.
  unfold inventory_parts. rewrite !widths_app. change (lines_of st_state []) with (@nil string).
  change (lines_of st_life []) with (@nil string). change (lines_of st_call []) with (@nil string).
  rewrite <- widths_lines_of. change (widths []) with 0. lia.
Qed.

(** The rendered inventory is never longer than its budget, in characters.  When the
    fixed text fits, nothing is cut: the body has all headers, the guidance and every
    unresolved parent, and the entries shown are a prefix of the order of priority, by
    distance and then by section, up to the first entry that does not fit. *)
Theorem render_within_budget inv budget :
  ulen (render_inventory inv budget) <= budget /\
  (ulen (fixed_text inv) <= budget ->
   exists kept rest, render_inventory inv budget = unlines (inventory_parts inv kept) /\
     prioritized inv = kept ++ rest /\
     forall l, head rest = Some l -> budget < ulen (fixed_text inv) + widths kept.*2 + ulen l.2 + 1).
Proof.
  split; [apply hard_cap_within|]. intros Hfix. unfold render_inventory, kept_lines.
  destruct (keep_lines_spec (budget - ulen (fixed_text inv)) 0 (prioritized inv) ltac:(lia)) as (rest & Hp & Hf & Hn).
  set (kept := keep_lines _ 0 _) in *. exists kept, rest. split_and!; [|done|intros l Hl; specialize (Hn l Hl); lia].
  unfold hard_cap. assert (ulen (unlines (inventory_parts inv kept)) <= budget) as Hb.
  { pose proof (ulen_unlines_le (inventory_parts inv kept)) as Hu. fold (widths (inventory_parts inv kept)) in Hu.
    rewrite widths_parts, <- ulen_fixed_text in Hu. lia. }
  apply Nat.ltb_ge in Hb. by rewrite Hb.
Qed.

Lemma truncate_entries_within entries budget :
  exists k, truncate_entries entries budget = take k entries /\
    (ulen (unlines (truncate_entries entries budget)) <= budget).
Proof.
  unfold truncate_entries.
  assert (forall out used, ulen (unlines out) = used -> used <= budget ->
    exists k, truncate_from budget used entries out = out ++ take k entries /\
      ulen (unlines (truncate_from budget used entries out)) <= budget) as H.
  { induction entries as [|e entries IH]; intros out used Hu Hb; cbn [truncate_from].
    { exists 0. rewrite app_nil_r. split; [done|lia]. }
    destruct (Nat.ltb_spec budget (used + (ulen e + (match out with [] => 0 | _ => 1 end)))) as [Hl|Hl].
    { exists 0. rewrite take_0, app_nil_r. split; [done|lia]. }
    destruct (IH (out ++ [e]) (used + (ulen e + (match out with [] => 0 | _ => 1 end)))) as (k & Hk & Hw); [|lia|].
    - destruct out as [|x out]; [cbn in *; lia|].
      pose proof (ulen_unlines x out) as H1. pose proof (ulen_unlines x (out ++ [e])) as H2.
      fold (widths (x :: out)) in H1. fold (widths (x :: out ++ [e])) in H2. rewrite app_comm_cons, widths_app in H2.
      change (widths [e]) with (ulen e + 1 + 0) in H2. cbn [app] in *. lia.
    - exists (S k). rewrite Hk in Hw |- *. rewrite <- app_assoc in Hw |- *. done. }
  destruct (H [] 0) as (k & Hk & Hw); [done|lia|]. by exists k.
Qed.

(** ** Deduplication of the state variables *)

Lemma by_declaring_spec group :
  NoDup (by_declaring group).*1 /\
  (forall c sv, (c, sv) ∈ by_declaring group -> sv ∈ group /\ sv_contract sv = c) /\
  (forall sv, sv ∈ group -> exists sv', (sv_contract sv, sv') ∈ by_declaring group /\ sv_distance sv' <= sv_distance sv).
Proof.
  induction group as [|x group (Hnd & Hin & Hall)] using rev_ind.
  { split_and!; [constructor|intros c sv Hn; by apply not_elem_of_nil in Hn|intros sv Hn; by apply not_elem_of_nil in Hn]. }
  unfold by_declaring in *. rewrite foldl_app. cbn [foldl].
  set (acc := foldl _ [] group) in *.
  assert (forall c sv, (c, sv) ∈ assoc_set (sv_contract x) x acc -> sv ∈ group ++ [x] /\ sv_contract sv = c) as Hset.
  { intros c sv Hc. destruct (decide (c = sv_contract x)) as [->|Hne].
    - apply (assoc_NoDup_elem) in Hc; [|by apply NoDup_assoc_set]. rewrite assoc_set_eq in Hc. injection Hc as <-.
      split; [apply elem_of_app; right; by left|done].
    - apply (assoc_NoDup_elem) in Hc; [|by apply NoDup_assoc_set]. rewrite assoc_set_ne in Hc by done.
      apply assoc_Some_elem, Hin in Hc as [Hc ?]. split; [apply elem_of_app; by left|done]. }
  assert (forall c sv, (c, sv) ∈ acc -> sv ∈ group ++ [x] /\ sv_contract sv = c) as Hold.
  { intros c sv [? ?]%Hin. split; [apply elem_of_app; by left|done]. }
  assert (forall sv, sv ∈ group ++ [x] -> sv ∈ group \/ sv = x) as Hsplit.
  { intros sv [?|?%list_elem_of_singleton]%elem_of_app; auto. }
  destruct (assoc (sv_contract x) acc) as [prev|] eqn:Hp; [destruct (Nat.ltb_spec (sv_distance x) (sv_distance prev)) as [Hd|Hd]|].
  - split_and!; [by apply NoDup_assoc_set|done|]. intros sv [Hsv| ->]%Hsplit.
    + destruct (Hall sv Hsv) as (sv' & Hs & Hle). destruct (decide (sv_contract sv = sv_contract x)) as [E|E].
      * exists x. rewrite E. split; [apply elem_of_assoc_set_eq|]. rewrite E in Hs. apply assoc_NoDup_elem in Hs; [|done].
        rewrite Hp in Hs. injection Hs as <-. lia.
      * exists sv'. split; [by apply elem_of_assoc_set_ne|done].
    + exists x. split; [apply elem_of_assoc_set_eq|done].
  - split_and!; [done|done|]. intros sv [Hsv| ->]%Hsplit; [by apply Hall|]. exists prev.
    split; [by apply assoc_Some_elem|done].
  - split_and!; [by apply NoDup_assoc_set|done|]. intros sv [Hsv| ->]%Hsplit.
    + destruct (Hall sv Hsv) as (sv' & Hs & Hle). exists sv'. split; [|done]. apply elem_of_assoc_set_ne; [done|].
      intros E. rewrite E in Hs. apply assoc_NoDup_elem in Hs; [|done]. congruence.
    + exists x. split; [apply elem_of_assoc_set_eq|done].
Qed.

Lemma winner_leb_spec x y :
  winner_leb x y = true <->
  sv_distance x < sv_distance y \/ sv_distance x = sv_distance y /\ str_leb (sv_contract x) (sv_contract y) = true.
Proof. unfold winner_leb, lex_leb. boolify. by rewrite Nat.ltb_lt, Nat.eqb_eq. Qed.

Lemma winner_leb_total x y : winner_leb x y = true \/ winner_leb y x = true.
Proof.
  rewrite !winner_leb_spec. destruct (Nat.lt_trichotomy (sv_distance x) (sv_distance y)) as [?|[?|?]]; auto.
  destruct (str_leb_total (sv_contract x) (sv_contract y)); auto.
Qed.

Lemma winner_leb_trans x y z : winner_leb x y = true -> winner_leb y z = true -> winner_leb x z = true.
Proof.
  rewrite !winner_leb_spec. intros [?|[? ?]] [?|[? ?]]; try (left; lia). right. split; [lia|]. by eapply str_leb_trans.
Qed.

Lemma min_from_spec best l :
  min_from best l ∈ best :: l /\ forall x, x ∈ best :: l -> winner_leb (min_from best l) x = true.
Proof.
  revert best. induction l as [|y l IH]; intros best; cbn [min_from].
  { split; [left|]. intros x ->%list_elem_of_singleton. by destruct (winner_leb_total best best). }
  destruct (IH (if winner_leb best y then best else y)) as [Hin Hmin].
  assert (forall x, x ∈ best :: y :: l -> exists z, z ∈ (if winner_leb best y then best else y) :: l /\ winner_leb z x = true) as Hrep.
  { assert (forall z, winner_leb z z = true) as Hrefl by (intros z; by destruct (winner_leb_total z z)).
    intros x. rewrite !elem_of_cons. intros [->|[->|Hx]].
    - eexists; split; [left|]. destruct (winner_leb best y) eqn:E; [done|]. destruct (winner_leb_total best y); congruence.
    - eexists; split; [left|]. by destruct (winner_leb best y) eqn:E.
    - exists x. split; [by right|done]. }
  split.
  - apply elem_of_cons in Hin as [->|Hin]; [destruct (winner_leb best y); [left|right; left]|by right; right].
  - intros x (z & Hz & Hzx)%Hrep. eapply winner_leb_trans; [by apply Hmin|done].
Qed.

Lemma unique_single {A} `{EqDecision A} (l : list A) x y : length (unique l) <= 1 -> x ∈ l -> y ∈ l -> x = y.
Proof.
  rewrite <- !(elem_of_unique l). destruct (unique l) as [|a [|b u]]; cbn; [by intros _ ?%not_elem_of_nil| |lia].
  by intros _ ->%list_elem_of_singleton ->%list_elem_of_singleton.
Qed.

(** What is kept of the declarations of one name *)
Lemma resolve_name_spec name group :
  Forall (fun sv => sv_name sv = name) group ->
  let '(kept, drops) := resolve_name name group in
  (forall sv, sv ∈ kept -> sv ∈ group) /\
  (forall sv sv', sv ∈ kept -> sv' ∈ kept -> sv_type sv = sv_type sv' /\ (sv_contract sv = sv_contract sv' -> sv = sv')) /\
  (forall dr, dr ∈ drops -> dd_name dr = name /\ dd_winning dr ∈ kept /\ dd_discarded dr ∈ group /\
     sv_type (dd_discarded dr) <> sv_type (dd_winning dr) /\ winner_leb (dd_winning dr) (dd_discarded dr) = true) /\
  (forall sv, sv ∈ group -> exists d w, d ∈ group /\ sv_contract d = sv_contract sv /\ sv_distance d <= sv_distance sv /\
     w ∈ kept /\ (w = d \/ (sv_distance w <= sv_distance d /\ (sv_type w = sv_type d \/ mkDrop name d w ∈ drops)))).
Proof.
  intros Hname. unfold resolve_name. destruct (by_declaring_spec group) as (Hnd & Hin & Hall). cbv zeta.
  set (decls := (by_declaring group).*2).
  assert (forall sv, sv ∈ decls <-> (sv_contract sv, sv) ∈ by_declaring group) as Hd.
  { intros sv. unfold decls. rewrite list_elem_of_fmap. split.
    - intros ([c s] & -> & Hc). cbn. by destruct (Hin c s Hc) as [_ ->].
    - intros Hc. by exists (sv_contract sv, sv). }
  assert (forall sv, sv ∈ decls -> sv ∈ group) as Hg by (intros sv Hsv; by apply Hd, Hin in Hsv as [? _]).
  assert (forall sv sv', sv ∈ decls -> sv' ∈ decls -> sv_contract sv = sv_contract sv' -> sv = sv') as Hinj.
  { intros sv sv' H1%Hd H2%Hd E. rewrite E in H1. apply assoc_NoDup_elem in H1, H2; [|done..]. congruence. }
  assert (forall sv, sv ∈ group -> exists d, d ∈ decls /\ sv_contract d = sv_contract sv /\ sv_distance d <= sv_distance sv) as Hrep.
  { intros sv Hsv. destruct (Hall sv Hsv) as (d & Hds & Hle). exists d. destruct (Hin _ _ Hds) as [_ E]. rewrite Hd, E. auto. }
  clearbody decls. destruct decls as [|d ds] eqn:Ed.
  { split_and!; [intros sv Hn; by apply not_elem_of_nil in Hn|intros sv sv' Hn; by apply not_elem_of_nil in Hn
      |intros dr Hn; by apply not_elem_of_nil in Hn|].
    intros sv (x & Hn & _)%Hrep. by apply not_elem_of_nil in Hn. }
  rewrite <- Ed in *. destruct ((1 <? length (unique (map sv_type decls))) && (1 <? length decls)) eqn:Hcoll.
  - destruct (min_from_spec d ds) as [Hw Hmin]. rewrite <- Ed in Hw, Hmin. set (w := min_from d ds) in *. split_and!.
    + intros sv ->%list_elem_of_singleton. by apply Hg.
    + by intros sv sv' ->%list_elem_of_singleton ->%list_elem_of_singleton.
    + intros dr (x & -> & Hx)%list_elem_of_fmap. cbn. apply list_elem_of_In, List.filter_In in Hx as [Hx Ht].
      apply list_elem_of_In in Hx. split_and!; [done|by left|by apply Hg| |by apply Hmin].
      by apply negb_true_iff, String.eqb_neq in Ht.
    + intros sv (x & Hx & Hc & Hle)%Hrep. exists x, w. split_and!; [by apply Hg|done|done|by left|].
      right. split; [by destruct (proj1 (winner_leb_spec w x) (Hmin x Hx)) as [?|[? _]]; lia|].
      destruct (String.eqb_spec (sv_type w) (sv_type x)) as [E|E]; [by left|right].
      apply list_elem_of_fmap. exists x. split; [done|]. apply list_elem_of_In, List.filter_In. split; [by apply list_elem_of_In|].
      apply negb_true_iff, String.eqb_neq. congruence.
  - split_and!; [done| |intros dr Hn; by apply not_elem_of_nil in Hn|].
    + intros sv sv' H1 H2. split; [|by apply Hinj]. apply andb_false_iff in Hcoll as [Hc|Hc]; apply Nat.ltb_ge in Hc.
      * apply (unique_single (map sv_type decls)); [done|by apply list_elem_of_fmap; exists sv|by apply list_elem_of_fmap; exists sv'].
      * destruct decls as [|a [|b l]]; [done| |cbn in Hc; lia].
        by apply list_elem_of_singleton in H1 as ->; apply list_elem_of_singleton in H2 as ->.
    + intros sv (x & Hx & Hc & Hle)%Hrep. exists x, x. split_and!; [by apply Hg|done..|by left].
Qed.

(** Deduplication never leaves a name at two types: declarations kept under one name
    agree on the type, and are distinct contracts'; everything kept was collected;
    every collected declaration is represented by the nearest one of its contract, which
    is kept, or yields to a kept one at least as near that has its type or against which
    it is reported as dropped; a reported drop has another type than its winner, which is
    kept and precedes it by distance and contract. *)
Theorem dedup_state_types l :
  let '(kept, drops) := dedup_state l in
  (forall sv, sv ∈ kept -> sv ∈ l) /\
  (forall sv sv', sv ∈ kept -> sv' ∈ kept -> sv_name sv = sv_name sv' ->
     sv_type sv = sv_type sv' /\ (sv_contract sv = sv_contract sv' -> sv = sv')) /\
  (forall dr, dr ∈ drops -> dd_winning dr ∈ kept /\ dd_discarded dr ∈ l /\
     sv_type (dd_discarded dr) <> sv_type (dd_winning dr) /\ winner_leb (dd_winning dr) (dd_discarded dr) = true) /\
  (forall sv, sv ∈ l -> exists d w, d ∈ l /\ sv_name d = sv_name sv /\ sv_contract d = sv_contract sv /\
     sv_distance d <= sv_distance sv /\ w ∈ kept /\ sv_name w = sv_name sv /\
     (w = d \/ (sv_distance w <= sv_distance d /\ (sv_type w = sv_type d \/ mkDrop (sv_name sv) d w ∈ drops)))).
Proof.
  unfold dedup_state. cbv zeta. set (group := fun name => List.filter (fun sv => String.eqb (sv_name sv) name) l).
  set (names := unique (map sv_name l)).
  assert (forall name sv, sv ∈ group name <-> sv ∈ l /\ sv_name sv = name) as Hgr.
  { intros name sv. unfold group. rewrite list_elem_of_In, List.filter_In, String.eqb_eq. by rewrite list_elem_of_In. }
  assert (forall name, Forall (fun sv => sv_name sv = name) (group name)) as Hnm.
  { intros name. apply Forall_forall. by intros sv [_ ?]%Hgr. }
  pose proof (elem_of_concat_fmap fst (fun name => resolve_name name (group name)) names) as Hk.
  pose proof (elem_of_concat_fmap snd (fun name => resolve_name name (group name)) names) as Hdr.
  assert (forall name, let '(kept, drops) := resolve_name name (group name) in
    forall sv, sv ∈ kept -> sv ∈ l /\ sv_name sv = name) as Hkn.
  { intros name. pose proof (resolve_name_spec name (group name) (Hnm name)) as Hs.
    destruct (resolve_name name (group name)) as [kept drops]. destruct Hs as (Hs & _). by intros sv ?%Hs%Hgr. }
  split_and!.
  - intros sv (name & _ & Hs)%Hk. specialize (Hkn name). destruct (resolve_name name (group name)). by apply Hkn in Hs as [? _].
  - intros sv sv' (name & _ & H1)%Hk (name' & _ & H2)%Hk E. pose proof (Hkn name) as Hn1. pose proof (Hkn name') as Hn2.
    pose proof (resolve_name_spec name (group name) (Hnm name)) as Hs.
    assert (name' = name) as ->.
    { destruct (resolve_name name (group name)), (resolve_name name' (group name')).
      apply Hn1 in H1 as [_ <-]. apply Hn2 in H2 as [_ <-]. done. }
    destruct (resolve_name name (group name)) as [kept drops]. destruct Hs as (_ & Hs & _). by apply Hs.
  - intros dr (name & Hname & Hd)%Hdr. pose proof (resolve_name_spec name (group name) (Hnm name)) as Hs.
    assert (forall w, w ∈ (resolve_name name (group name)).1 ->
      w ∈ List.concat (map (fun name => resolve_name name (group name)) names).*1) as Hin by (intros w Hw; apply Hk; eauto).
    destruct (resolve_name name (group name)) as [kept drops]. destruct Hs as (_ & _ & Hs & _).
    destruct (Hs dr Hd) as (_ & H1 & [H2 _]%Hgr & H3 & H4). split_and!; [by apply Hin|done..].
  - intros sv Hsv. set (name := sv_name sv).
    assert (name ∈ names) as Hname by (apply elem_of_unique, list_elem_of_fmap; eauto).
    pose proof (resolve_name_spec name (group name) (Hnm name)) as Hs. pose proof (Hkn name) as Hn.
    assert (forall w, w ∈ (resolve_name name (group name)).1 ->
      w ∈ List.concat (map (fun name => resolve_name name (group name)) names).*1) as Hin by (intros w Hw; apply Hk; eauto).
    assert (forall w, w ∈ (resolve_name name (group name)).2 ->
      w ∈ List.concat (map (fun name => resolve_name name (group name)) names).*2) as Hind by (intros w Hw; apply Hdr; eauto).
    destruct (resolve_name name (group name)) as [kept drops]. destruct Hs as (_ & _ & _ & Hs).
    destruct (Hs sv) as (d & w & [Hd1 Hd2]%Hgr & Hd3 & Hd4 & Hw & Hor); [by apply Hgr|]. exists d, w.
    split_and!; try done; [by apply Hin|by apply Hn in Hw as [_ ?]|].
    destruct Hor as [->|[Hle [He|Hd]]]; [by left|right; split; [done|by left]|right; split; [done|right; by apply Hind]].
Qed.

(** ** The walk *)

Lemma filter_res_sub {A} (p : A -> res bool) l l' x : filter_res p l = Ok l' -> x ∈ l' -> x ∈ l.
Proof.
  revert l'. induction l as [|y l IH]; intros l'; cbn [filter_res]; [by intros [= <-]|].
  intros (b & _ & (rest & Hr & [= <-])%res_bind_Ok)%res_bind_Ok Hx. destruct b; [|right; by eapply IH].
  apply elem_of_cons in Hx as [->|Hx]; [by left|right; by eapply IH].
Qed.

Lemma find_contract_in ast name n : find_contract ast name = Ok (Some n) -> exists cs, contracts_in_ast ast = Ok cs /\ n ∈ cs.
Proof.
  unfold find_contract. intros (cs & Hcs & (named & Hn & [= Hh])%res_bind_Ok)%res_bind_Ok. exists cs. split; [done|].
  eapply filter_res_sub; [exact Hn|]. destruct named as [|x named]; [done|]. injection Hh as ->. left.
Qed.

Section walk.
Context (fs : FileSystem) (depth : nat) (parse : string -> res pyval).
Context (file_map : option (list (path * string))) (remappings : list string).

Abbreviation parent_of := (parent_item fs parse file_map remappings).
Abbreviation visiting := (visit_parents fs parse file_map remappings).
Abbreviation turning := (bfs_turn fs depth parse file_map remappings).
Abbreviation load := (load_text fs file_map).
Abbreviation key := (item_key fs).
Abbreviation collecting it := (collect_from_contract depth (qi_node it) (qi_path it) (qi_dist it)).

Lemma visit_parents_spec it cname parents b b' :
  visiting it cname parents b = Ok b' ->
  b_visited b' = b_visited b /\ b_found b' = b_found b /\
  exists new, b_queue b' = b_queue b ++ new /\
    Forall (fun it' => exists p, p ∈ parents /\ parent_of it p = Ok (inl it')) new.
Proof.
  revert b. induction parents as [|p parents IH]; intros b; cbn [visit_parents].
  { intros [= <-]. split_and!; [done|done|]. exists []. by rewrite app_nil_r. }
  intros (b1 & H1 & (Hv & Hf & new & Hq & Hn)%IH)%res_bind_Ok.
  assert (forall it', (exists q, q ∈ parents /\ parent_of it q = Ok (inl it')) ->
    exists q, q ∈ p :: parents /\ parent_of it q = Ok (inl it')) as Hmore.
  { intros it' (q & Hq' & Hp). exists q. split; [by right|done]. }
  revert H1. unfold visit_parent. cbv zeta. case_bool_decide as Hseen.
  { intros [= <-]. split_and!; [done|done|]. exists new. split; [done|]. eapply Forall_impl; [exact Hn|exact Hmore]. }
  intros (r & Hr & [= <-])%res_bind_Ok. destruct r as [it'|reason]; cbn [b_visited b_found b_queue] in *.
  - split_and!; [done|done|]. exists (it' :: new). rewrite Hq, <- app_assoc. split; [done|]. constructor.
    + exists p. split; [by left|done].
    + eapply Forall_impl; [exact Hn|exact Hmore].
  - split_and!; [done|done|]. exists new. split; [done|]. eapply Forall_impl; [exact Hn|exact Hmore].
Qed.

Lemma parent_item_spec it p it' :
  parent_of it p = Ok (inl it') ->
  qi_dist it' = S (qi_dist it) /\ load (qi_path it') = Some (qi_src it') /\
  exists e ast cs, resolve_parent_edge fs parse file_map remappings (qi_path it) (qi_src it) p = Ok e /\
    er_path e = Some (qi_path it') /\ parse_source parse (qi_src it') = Some ast /\ contracts_in_ast ast = Ok cs /\ qi_node it' ∈ cs.
Proof.
  unfold parent_item. intros (e & He & H)%res_bind_Ok. destruct (er_path e) as [q|] eqn:Eq; [|done].
  destruct (load q) as [ptext|] eqn:El; [|done]. destruct (parse_source parse ptext) as [past|] eqn:Ep; [|done].
  apply res_bind_Ok in H as (o & Hf & [= Ho]). destruct o as [n|]; [|done]. injection Ho as <-. cbn.
  apply find_contract_in in Hf as (cs & Hcs & Hn). split_and!; [done|done|]. by exists e, past, cs.
Qed.

(** What a turn does to a non-empty queue *)
Lemma bfs_turn_spec b b' it queue :
  b_queue b = it :: queue -> turning b tt = (tt, Ok (inl b')) ->
  exists k, key it = Ok k /\
  ((k ∈ b_visited b /\ b_queue b' = queue /\ b_visited b' = b_visited b /\ b_found b' = b_found b) \/
   ((k ∉ b_visited b) /\ b_visited b' = k :: b_visited b /\
    exists found parents new, collecting it = Ok found /\ base_names (qi_node it) = Ok parents /\
      b_found b' = collected_app (b_found b) found /\ b_queue b' = queue ++ new /\
      Forall (fun it' => exists p, p ∈ parents /\ parent_of it p = Ok (inl it')) new)).
Proof.
  unfold bfs_turn. intros -> [= H]. apply res_bind_Ok in H as (k & Hk & H). exists k. split; [done|].
  case_bool_decide as Hv; [injection H as <-; left; by split_and!|right]. split; [done|].
  apply res_bind_Ok in H as (found & Hf & H). apply res_bind_Ok in H as (parents & Hp & H).
  apply res_bind_Ok in H as (b1 & Hb & [= <-]). apply visit_parents_spec in Hb as (Hv1 & Hf1 & new & Hq & Hn).
  cbn in Hv1, Hf1, Hq. split; [done|]. by exists found, parents, new.
Qed.

Lemma bfs_turn_return b b' : turning b tt = (tt, Ok (inr b')) -> b_queue b = [] /\ b' = b.
Proof.
  unfold bfs_turn. destruct (b_queue b) as [|it queue]; [by intros [= <-]|]. intros [= H].
  apply res_bind_Ok in H as (k & _ & H). case_bool_decide; [done|].
  by apply res_bind_Ok in H as (? & _ & (? & _ & (? & _ & ?)%res_bind_Ok)%res_bind_Ok).
Qed.

(** *** Termination *)

Section finite.
(** The files of the parents that the contracts of a file name *)
Definition contract_parents (child : path) (src : string) (c : pyval) : list path :=
  match base_names c with
  | Ok names =>
      omap (fun name => match resolve_parent_edge fs parse file_map remappings child src name with
                        | Ok e => er_path e
                        | Raise _ => None
                        end) names
  | Raise _ => []
  end.
Definition file_parents (child : path) : list path :=
  match load child with
  | Some src =>
      match parse_source parse src with
      | Some ast =>
          match contracts_in_ast ast with
          | Ok cs => List.concat (map (contract_parents child src) cs)
          | Raise _ => []
          end
      | None => []
      end
  | None => []
  end.

(** A finite set of files that the resolution of their parents does not leave *)
Context (F : list path).
Context (F_closed : forall child p, child ∈ F -> p ∈ file_parents child -> p ∈ F).

Definition sourced (it : item) : Prop :=
  qi_path it ∈ F /\ load (qi_path it) = Some (qi_src it) /\
  exists ast cs, parse_source parse (qi_src it) = Some ast /\ contracts_in_ast ast = Ok cs /\ qi_node it ∈ cs.

(** The keys of the contracts declared in the files *)
Definition file_keys (p : path) : list (string * string) :=
  match load p ≫= parse_source parse with
  | Some ast =>
      match contracts_in_ast ast with
      | Ok cs => omap (fun c => match name_or_unknown c with Ok n => Some (n, path_str (fs_resolve fs p)) | Raise _ => None end) cs
      | Raise _ => []
      end
  | None => []
  end.
Definition all_keys : list (string * string) := List.concat (map file_keys F).

Lemma sourced_key it k : sourced it -> key it = Ok k -> k ∈ all_keys.
Proof.
  intros (Hp & Hl & ast & cs & Ha & Hc & Hn) Hk. unfold item_key in Hk. apply res_bind_Ok in Hk as (n & Hk & [= <-]).
  unfold all_keys. apply list_elem_of_In, in_concat. exists (file_keys (qi_path it)). split.
  - apply in_map. by apply list_elem_of_In.
  - apply list_elem_of_In. unfold file_keys. rewrite Hl. cbn. rewrite Ha, Hc. apply list_elem_of_omap.
    exists (qi_node it). split; [done|]. by rewrite Hk.
Qed.

Lemma sourced_parent it parents p it' :
  sourced it -> base_names (qi_node it) = Ok parents -> p ∈ parents -> parent_of it p = Ok (inl it') -> sourced it'.
Proof.
  intros (Hp & Hl & ast0 & cs0 & Ha0 & Hc0 & Hn0) Hb Hpp (_ & Hl' & e & ast & cs & He & Hpath & Ha & Hc & Hn)%parent_item_spec.
  split_and!; [|done|by exists ast, cs]. apply (F_closed (qi_path it)); [done|]. unfold file_parents. rewrite Hl, Ha0, Hc0.
  apply list_elem_of_In, in_concat. exists (contract_parents (qi_path it) (qi_src it) (qi_node it)).
  split; [by apply in_map, list_elem_of_In|]. apply list_elem_of_In. unfold contract_parents. rewrite Hb.
  apply list_elem_of_omap. exists p. split; [done|]. by rewrite He.
Qed.

Definition unvisited (b : Bfs) : nat := length (filter (fun k => k ∉ b_visited b) all_keys).

Lemma unvisited_less b b' k :
  k ∈ all_keys -> k ∉ b_visited b -> b_visited b' = k :: b_visited b -> unvisited b' < unvisited b.
Proof.
  intros Hk Hn Hv. unfold unvisited. rewrite Hv. revert Hk. generalize all_keys. intros keys Hk.
  assert (forall ks, length (filter (fun x => x ∉ k :: b_visited b) ks) <= length (filter (fun x => x ∉ b_visited b) ks)) as Hle.
  { intros ks. induction ks as [|x ks IH]; [done|]. rewrite !filter_cons. repeat case_decide; cbn; try lia. set_solver. }
  induction keys as [|x keys IH]; [by apply not_elem_of_nil in Hk|]. rewrite !filter_cons.
  apply elem_of_cons in Hk as [<-|Hk].
  - rewrite decide_False, decide_True by set_solver. specialize (Hle keys). cbn. lia.
  - specialize (IH Hk). repeat case_decide; cbn; try lia. set_solver.
Qed.

Lemma bfs_ends b : Forall sourced (b_queue b) -> exists n, (iter_st turning n b tt).2 <> Ok None.
Proof.
  remember (unvisited b) as m eqn:Hm. revert b Hm. induction (lt_wf m) as [m _ IHm]. intros b ->.
  remember (b_queue b) as queue eqn:Hq. revert b Hq IHm. induction queue as [|it queue IHq]; intros b Hq IHm Hs.
  { exists 1. cbn. unfold bfs_turn. by rewrite <- Hq. }
  assert (forall b', turning b tt = (tt, Ok (inl b')) -> exists n, (iter_st turning n b' tt).2 <> Ok None) as Hnext.
  { intros b' Ht. apply Forall_cons in Hs as [Hit Hs].
    destruct (bfs_turn_spec _ _ _ _ (eq_sym Hq) Ht) as (k & Hk & [(_ & Hq' & Hv' & _)|(Hnew & Hv' & found & parents & new & _ & Hb & _ & Hq' & Hnew')]).
    - apply IHq; [done| |done]. unfold unvisited in *. by rewrite Hv'.
    - eapply IHm; [eapply unvisited_less; [by eapply sourced_key|exact Hnew|exact Hv']|done|].
      rewrite Hq'. apply Forall_app. split; [done|]. eapply Forall_impl; [exact Hnew'|].
      intros it' (p & Hpp & Hp). by eapply sourced_parent. }
  destruct (turning b tt) as [[] [[b'|b']|e]] eqn:Ht.
  - destruct (Hnext b' eq_refl) as [n Hn]. exists (S n). cbn [iter_st]. unfold mbind, st_bind. by rewrite Ht.
  - exists 1. cbn [iter_st]. unfold mbind, st_bind. by rewrite Ht.
  - exists 1. cbn [iter_st]. unfold mbind, st_bind. by rewrite Ht.
Qed.
End finite.

(** *** What the walk collects *)

(** A contract the leaf inherits from, edge by edge *)
Inductive ancestor (leaf : item) : item -> Prop :=
  | ancestor_leaf : ancestor leaf leaf
  | ancestor_parent it parents p it' :
      ancestor leaf it -> base_names (qi_node it) = Ok parents -> p ∈ parents -> parent_of it p = Ok (inl it') ->
      ancestor leaf it'.

Lemma ancestor_distance leaf it : ancestor leaf it -> qi_dist leaf <= qi_dist it.
Proof. induction 1 as [|it parents p it' _ IH _ _ (Hd & _)%parent_item_spec]; lia. Qed.

Definition nearer (x y : item) : Prop := qi_dist x <= qi_dist y.

(** The contracts visited so far, in order *)
Record walked (leaf : item) (its : list item) (b : Bfs) : Prop := {
  wk_keys : exists ks, Forall2 (fun it k => key it = Ok k) its ks /\ b_visited b = reverse ks /\ NoDup ks;
  wk_found : exists cs, Forall2 (fun it c => collecting it = Ok c) its cs /\ b_found b = foldl collected_app collected_nil cs;
  wk_ancestors : Forall (ancestor leaf) (its ++ b_queue b);
  wk_sorted : StronglySorted nearer (its ++ b_queue b);
  wk_level : forall x y, x ∈ b_queue b -> y ∈ b_queue b -> qi_dist y <= S (qi_dist x);
  wk_first : head (its ++ b_queue b) = Some leaf;
}.

Lemma walked_turn leaf its b b' :
  walked leaf its b -> turning b tt = (tt, Ok (inl b')) ->
  exists its', walked leaf its' b' /\
    (its' = its /\ b_visited b' = b_visited b \/ exists it queue, b_queue b = it :: queue /\ its' = its ++ [it] /\ b_visited b' <> b_visited b).
Proof.
  intros [(ks & Hks & Hvis & Hnd) (cs & Hcs & Hfound) Hanc Hsort Hlev Hfirst] Ht.
  destruct (b_queue b) as [|it queue] eqn:Hq; [by unfold bfs_turn in Ht; rewrite Hq in Ht|].
  destruct (bfs_turn_spec _ _ _ _ Hq Ht) as (k & Hk & [(Hin & Hq' & Hv' & Hf')|(Hnew & Hv' & found & parents & new & Hc & Hp & Hf' & Hq' & Hnew')]).
  - exists its. split; [|by left]. apply Forall_app in Hanc as [Ha1 Ha2]. apply Forall_cons in Ha2 as [_ Ha2].
    assert (its <> []) as Hne.
    { intros ->. apply Forall2_nil_inv_l in Hks as ->. rewrite Hvis in Hin. by apply not_elem_of_nil in Hin. }
    constructor; rewrite ?Hq'.
    + exists ks. by rewrite Hv'.
    + exists cs. by rewrite Hf'.
    + by apply Forall_app.
    + apply StronglySorted_app in Hsort as (Hs1 & Hs2 & Hs3). apply StronglySorted_app. split_and!; [|done|by inversion Hs3].
      intros x y Hx Hy. apply Hs1; [done|by right].
    + intros x y Hx Hy. apply Hlev; by right.
    + by destruct its.
  - exists (its ++ [it]). split; [|right; exists it, queue; split_and!; [done..|rewrite Hv'; intros [=]%(f_equal length); cbn in *; lia]].
    apply Forall_app in Hanc as [Ha1 Ha2]. apply Forall_cons in Ha2 as [Hit Ha2].
    apply StronglySorted_app in Hsort as (Hs1 & Hs2 & Hs3). inversion Hs3 as [|? ? Hs4 Hs5]; subst.
    assert (forall it', it' ∈ new -> ancestor leaf it' /\ qi_dist it' = S (qi_dist it)) as Hn.
    { intros it' Hin. rewrite Forall_forall in Hnew'. destruct (Hnew' it' Hin) as (p & Hpp & Hpar).
      split; [by eapply ancestor_parent|]. by apply parent_item_spec in Hpar as [? _]. }
    rewrite Forall_forall in Hs5. constructor; rewrite ?Hq'.
    + exists (ks ++ [k]). split_and!; [apply Forall2_app; [done|by repeat constructor]| |].
      * by rewrite Hv', Hvis, reverse_app.
      * apply NoDup_app. split_and!; [done| |by apply NoDup_singleton]. intros x Hx ->%list_elem_of_singleton.
        apply Hnew. rewrite Hvis. by apply elem_of_reverse.
    + exists (cs ++ [found]). split; [apply Forall2_app; [done|by repeat constructor]|].
      by rewrite Hf', Hfound, foldl_app.
    + rewrite <- app_assoc. cbn [app]. apply Forall_app. split; [done|]. constructor; [done|].
      apply Forall_app. split; [done|]. apply Forall_forall. intros it' Hin. by apply Hn.
    + rewrite <- app_assoc. cbn [app]. apply StronglySorted_app. split_and!.
      * intros x y Hx Hy. apply elem_of_cons in Hy as [->|[Hy|Hy]%elem_of_app]; [apply Hs1; [done|by left]|apply Hs1; [done|by right]|].
        destruct (Hn y Hy) as [_ Hd]. specialize (Hs1 x it Hx ltac:(by left)). unfold nearer in *. lia.
      * done.
      * assert (forall y, y ∈ queue ++ new -> nearer it y) as Hall.
        { intros y [Hy|Hy]%elem_of_app; [by apply Hs5|]. destruct (Hn y Hy) as [_ Hd]. unfold nearer. lia. }
        constructor; [|by apply Forall_forall]. apply StronglySorted_app. split_and!; [|done|].
        -- intros x y Hx Hy. destruct (Hn y Hy) as [_ Hd]. unfold nearer. rewrite Hd. apply Hlev; [by left|by right].
        -- clear -Hn. induction new as [|z new IH]; constructor; [apply IH; intros; apply Hn; by right|].
           apply Forall_forall. intros y Hy. destruct (Hn z ltac:(by left)) as [_ Hz]. destruct (Hn y ltac:(by right)) as [_ Hy'].
           unfold nearer. lia.
    + intros x y [Hx|Hx]%elem_of_app [Hy|Hy]%elem_of_app.
      * apply Hlev; by right.
      * destruct (Hn y Hy) as [_ Hd]. specialize (Hs5 x Hx). unfold nearer in Hs5. lia.
      * destruct (Hn x Hx) as [_ Hd]. specialize (Hlev it y ltac:(by left) ltac:(by right)). lia.
      * destruct (Hn x Hx) as [_ Hd], (Hn y Hy) as [_ Hd']. lia.
    + rewrite <- app_assoc. cbn [app]. rewrite <- Hfirst. by destruct its.
Qed.

(** *** What the walk accounts for *)

(** A contract names a parent; the edge it is seen by: the parent's name, the contract's
    file and its distance *)
Definition inherits (it : item) (p : string) : Prop := exists parents, base_names (qi_node it) = Ok parents /\ p ∈ parents.
Definition edge_of (it : item) (p : string) : string * string * nat := (p, path_str (fs_resolve fs (qi_path it)), qi_dist it).

(** A parent that is not resolved, as it is recorded *)
Definition unresolved_of (it : item) (p reason : string) (u : UnresolvedParent) : Prop :=
  exists n, name_or_unknown (qi_node it) = Ok n /\ u = mkUnresolved p n (path_str (qi_path it)) reason.

(** An edge that was followed: its parent is queued or visited, or recorded *)
Definition followed (b : Bfs) (it : item) (p : string) : Prop :=
  match parent_of it p with
  | Ok (inl it') => it' ∈ b_queue b \/ exists k, key it' = Ok k /\ k ∈ b_visited b
  | Ok (inr reason) => exists u, unresolved_of it p reason u /\ u ∈ b_unresolved b
  | Raise _ => False
  end.

Definition edges_followed (its : list item) (b : Bfs) : Prop :=
  forall ek, ek ∈ b_edges b -> exists it p, it ∈ its /\ edge_of it p = ek /\ inherits it p /\ followed b it p.
Definition unresolved_sound (its : list item) (b : Bfs) : Prop :=
  forall u, u ∈ b_unresolved b -> exists it p reason, it ∈ its /\ inherits it p /\ parent_of it p = Ok (inr reason) /\ unresolved_of it p reason u.
Record followed_all (its : list item) (b : Bfs) : Prop := {
  fa_edges : edges_followed its b;
  fa_unresolved : unresolved_sound its b;
  fa_parents : forall it p, it ∈ its -> inherits it p -> edge_of it p ∈ b_edges b;
}.

Lemma followed_mono b b' it p :
  b_unresolved b ⊆ b_unresolved b' -> b_visited b ⊆ b_visited b' ->
  (forall it', it' ∈ b_queue b -> it' ∈ b_queue b' \/ exists k, key it' = Ok k /\ k ∈ b_visited b') ->
  followed b it p -> followed b' it p.
Proof.
  intros Hu Hv Hq. unfold followed. destruct (parent_of it p) as [[it'|reason]|]; [|intros (u & ? & ?); exists u; auto|done].
  intros [Hin|(k & ? & ?)]; [by apply Hq|right; exists k; auto].
Qed.

Lemma visit_parents_followed its it n parents b b' :
  it ∈ its -> name_or_unknown (qi_node it) = Ok n -> (forall p, p ∈ parents -> inherits it p) ->
  edges_followed its b -> unresolved_sound its b -> visiting it n parents b = Ok b' ->
  edges_followed its b' /\ unresolved_sound its b' /\ b_edges b ⊆ b_edges b' /\ (forall p, p ∈ parents -> edge_of it p ∈ b_edges b').
Proof.
  intros Hit Hn Hp. revert b. induction parents as [|p parents IH]; intros b He Hu; cbn [visit_parents].
  { intros [= <-]. split_and!; try done. by intros p ?%not_elem_of_nil. }
  intros (b1 & H1 & H2)%res_bind_Ok.
  assert (edges_followed its b1 /\ unresolved_sound its b1 /\ b_edges b ⊆ b_edges b1 /\ edge_of it p ∈ b_edges b1) as (He1 & Hu1 & Hsub & Hin).
  { clear H2 IH. revert H1. unfold visit_parent. cbv zeta. case_bool_decide as Hseen; [intros [= <-]; by split_and!|].
    intros (r & Hr & [= <-])%res_bind_Ok. assert (inherits it p) as Hinh by (apply Hp; left).
    destruct r as [it'|reason]; cbn [b_edges]; (split; [|split; [|split; [by apply list_subseteq_cons|left]]]).
    - intros ek [->|Hek]%elem_of_cons.
      + exists it, p. split_and!; [done..|]. unfold followed. rewrite Hr. left. cbn. apply elem_of_app. right. by left.
      + destruct (He ek Hek) as (it0 & p0 & ? & ? & ? & Hf). exists it0, p0. split_and!; [done..|]. eapply followed_mono; [..|exact Hf]; cbn; [done..|].
        intros ? ?. left. apply elem_of_app. by left.
    - exact Hu.
    - intros ek [->|Hek]%elem_of_cons.
      + exists it, p. split_and!; [done..|]. unfold followed. rewrite Hr. eexists. split; [by eexists|]. cbn. apply elem_of_app. right. by left.
      + destruct (He ek Hek) as (it0 & p0 & ? & ? & ? & Hf). exists it0, p0. split_and!; [done..|]. eapply followed_mono; [..|exact Hf]; cbn; [|done|by left].
        intros ? ?. apply elem_of_app. by left.
    - intros u [Hin| ->%list_elem_of_singleton]%elem_of_app; [by apply Hu|]. exists it, p, reason. split_and!; try done. by exists n. }
  destruct (IH (fun q Hq => Hp q ltac:(by right)) b1 He1 Hu1 H2) as (He2 & Hu2 & Hsub2 & Hall). split_and!; [done|done|by etrans|].
  intros q [->|Hq]%elem_of_cons; [by apply Hsub2|by apply Hall].
Qed.

Lemma followed_turn leaf its its' b b' :
  walked leaf its b -> followed_all its b -> turning b tt = (tt, Ok (inl b')) ->
  (its' = its /\ b_visited b' = b_visited b \/ exists it queue, b_queue b = it :: queue /\ its' = its ++ [it] /\ b_visited b' <> b_visited b) ->
  followed_all its' b'.
Proof.
  intros _ [He Hu Hp] Ht Hcase. unfold bfs_turn in Ht. destruct (b_queue b) as [|it queue] eqn:Hq; [done|]. injection Ht as Ht.
  apply res_bind_Ok in Ht as (k & Hk & Ht). case_bool_decide as Hv.
  { injection Ht as <-. cbn [b_visited] in Hcase. destruct Hcase as [[-> _]|(? & ? & _ & _ & ?)]; [|done]. constructor; [|exact Hu|exact Hp].
    intros ek Hek. destruct (He ek Hek) as (it0 & p0 & ? & ? & ? & Hf). exists it0, p0. split_and!; [done..|]. eapply followed_mono; [..|exact Hf]; [done|done|].
    rewrite Hq. intros it' [->|?]%elem_of_cons; [right; by exists k|by left]. }
  apply res_bind_Ok in Ht as (found & _ & Ht). apply res_bind_Ok in Ht as (parents & Hb & Ht). apply res_bind_Ok in Ht as (b1 & Hvis & [= <-]).
  pose proof Hvis as Hspec. apply visit_parents_spec in Hspec as (Hvis' & _). cbn in Hvis'.
  destruct Hcase as [[_ Heq]|(it1 & queue1 & [= <- <-] & -> & _)]; [exfalso; rewrite Heq in Hvis'; by apply (f_equal length) in Hvis'; cbn in Hvis'; lia|].
  unfold item_key in Hk. pose proof Hk as Hk'. apply res_bind_Ok in Hk as (n & Hn & [= <-]). cbn [fst] in Hvis.
  eapply (visit_parents_followed (its ++ [it])) in Hvis as (He' & Hu' & Hsub & Hall).
  - constructor; [done|done|]. cbn in Hsub. intros it0 p [Hin| ->%list_elem_of_singleton]%elem_of_app Hinh; [by apply Hsub, Hp|].
    destruct Hinh as (ps & Hps & Hpin). apply Hall. congruence.
  - apply elem_of_app. right. by left.
  - done.
  - intros p Hin. by exists parents.
  - intros ek Hek. destruct (He ek Hek) as (it0 & p0 & ? & ? & ? & Hf). exists it0, p0. split_and!; [apply elem_of_app; by left|done..|].
    eapply followed_mono; [..|exact Hf]; cbn; [done|by apply list_subseteq_cons|]. rewrite Hq.
    intros it' [->|?]%elem_of_cons; [right; eexists; split; [exact Hk'|by left]|by left].
  - intros u Hin. destruct (Hu u Hin) as (it0 & p & reason & ? & ?). exists it0, p, reason. split; [apply elem_of_app; by left|done].
Qed.

(** What a turn that raises was at *)
Definition fails (it : item) (e : exn) : Prop :=
  key it = Raise e \/ collecting it = Raise e \/ base_names (qi_node it) = Raise e \/ exists p, inherits it p /\ parent_of it p = Raise e.

Lemma visit_parents_raises it n parents b e :
  visiting it n parents b = Raise e -> exists p, p ∈ parents /\ parent_of it p = Raise e.
Proof.
  revert b. induction parents as [|p parents IH]; intros b; cbn [visit_parents]; [done|].
  destruct (visit_parent _ _ _ _ _ _ b p) as [b1|e'] eqn:H1; cbn.
  - intros (q & ? & ?)%IH. exists q. split; [by right|done].
  - intros [= ->]. exists p. split; [by left|]. revert H1. unfold visit_parent. cbv zeta. case_bool_decide; [done|].
    destruct (parent_of it p); cbn; [done|congruence].
Qed.

Lemma bfs_turn_raises b e : turning b tt = (tt, Raise e) -> exists it queue, b_queue b = it :: queue /\ fails it e.
Proof.
  unfold bfs_turn. destruct (b_queue b) as [|it queue]; [done|]. intros [= H]. exists it, queue. split; [done|]. unfold fails.
  destruct (key it) as [k|e'] eqn:Hk; cbn in H; [|left; congruence]. case_bool_decide; [done|].
  destruct (collecting it) as [found|e'] eqn:Hc; cbn in H; [|right; left; congruence].
  destruct (base_names (qi_node it)) as [parents|e'] eqn:Hb; cbn in H; [|do 2 right; left; congruence].
  destruct (visiting _ _ _ _) as [b1|e'] eqn:Hv; cbn in H; [done|]. injection H as ->.
  apply visit_parents_raises in Hv as (p & ? & ?). do 3 right. exists p. split; [by exists parents|done].
Qed.

Lemma bfs_walked fuel leaf o :
  bfs fs depth parse file_map remappings fuel leaf = o ->
  match o with
  | Ok (Some b) => b_queue b = [] /\ exists its, walked leaf its b /\ followed_all its b
  | Ok None => True
  | Raise e => exists it, ancestor leaf it /\ fails it e
  end.
Proof.
  unfold bfs. destruct (iter_st turning fuel (mkBfs [leaf] [] [] collected_nil []) tt) as [[] r] eqn:Hit. cbn. intros <-.
  assert (walked leaf [] (mkBfs [leaf] [] [] collected_nil [])) as Hinit.
  { constructor; cbn.
    - exists []. split_and!; [constructor|done|constructor].
    - exists []. split; [constructor|done].
    - repeat constructor.
    - repeat constructor.
    - intros x y ->%list_elem_of_singleton ->%list_elem_of_singleton. lia.
    - done. }
  assert (followed_all [] (mkBfs [leaf] [] [] collected_nil [])) as Hinit'.
  { constructor; [by intros ? ?%not_elem_of_nil|by intros ? ?%not_elem_of_nil|by intros ? ? ?%not_elem_of_nil]. }
  pose (I (b : Bfs) (_ : unit) := exists its, walked leaf its b /\ followed_all its b).
  assert (forall v s s' v', I v s -> turning v s = (s', Ok (inl v')) -> I v' s') as Hpres.
  { intros v [] [] v' (its & Hw & Hf) Ht. destruct (walked_turn _ _ _ _ Hw Ht) as (its' & Hw' & Hcase). exists its'. split; [done|].
    exact (followed_turn _ _ _ _ _ Hw Hf Ht Hcase). }
  pose proof (iter_st_invariant turning I _ _ _ _ _ Hpres (ex_intro _ _ (conj Hinit Hinit')) Hit) as Hend.
  destruct r as [[b|]|e]; [|done|].
  - destruct Hend as (b1 & [] & (its & Hw & Hf) & Ht). apply bfs_turn_return in Ht as [Hq ->]. split; [done|]. by exists its.
  - destruct Hend as (b1 & [] & (its & Hw & _) & Ht). apply bfs_turn_raises in Ht as (it & queue & Hq & Hfail). exists it. split; [|done].
    destruct Hw as [_ _ Hanc _ _ _]. rewrite Hq in Hanc. apply Forall_app in Hanc as [_ Hanc]. by apply Forall_cons in Hanc as [? _].
Qed.

(** ** The inventory *)

Abbreviation building := (build_inventory fs depth parse file_map remappings).
Abbreviation leafing := (leaf_item fs parse file_map).

Lemma leaf_item_sourced leaf_path leaf_contract cname it (F : list path) :
  fs_resolve fs leaf_path ∈ F -> leafing leaf_path leaf_contract = Ok (Some (cname, it)) -> sourced F it.
Proof.
  intros HF. unfold leaf_item. cbv zeta. destruct (load (fs_resolve fs leaf_path)) as [src|] eqn:Hl; [|done].
  destruct (parse_source parse src) as [ast|] eqn:Ha; [|done].
  intros (chosen & _ & H)%res_bind_Ok. destruct chosen as [c|]; [|done].
  apply res_bind_Ok in H as (o & Hf & [= Ho]). destruct o as [n|]; [|done]. injection Ho as <- <-.
  apply find_contract_in in Hf as (cs & Hcs & Hn). split_and!; [done|done|by exists ast, cs].
Qed.

(** More turns do not change a result *)
Lemma building_more n m leaf_path leaf_contract r :
  n <= m -> building n leaf_path leaf_contract = r -> r <> Ok None -> building m leaf_path leaf_contract = r.
Proof.
  intros Hm. unfold build_inventory. destruct (leafing leaf_path leaf_contract) as [[[cname it]|]|e]; cbn [mbind res_bind]; [|done..].
  unfold bfs. destruct (iter_st turning n (mkBfs [it] [] [] collected_nil []) tt) as [[] o] eqn:Hit. intros <- Hne.
  rewrite (iter_st_more turning _ _ _ _ _ _ Hit); [done| |done]. by intros ->.
Qed.

(** The walk over the parents ends: when the leaf's file belongs to a finite set of
    files that the resolution of parents does not leave, inheritance cycles included,
    there is a number of turns from which on the inventory is the same result or the
    same exception, and never out of turns. *)
Theorem inventory_terminates (F : list path) leaf_path leaf_contract :
  fs_resolve fs leaf_path ∈ F -> (forall child p, child ∈ F -> p ∈ file_parents child -> p ∈ F) ->
  exists n r, r <> Ok None /\ forall m, n <= m -> building m leaf_path leaf_contract = r.
Proof.
  intros HF Hclosed. unfold build_inventory. destruct (leafing leaf_path leaf_contract) as [[[cname it]|]|e] eqn:Hleaf.
  2: by exists 0, (Ok (Some None)). 2: by exists 0, (Raise e).
  destruct (bfs_ends F Hclosed (mkBfs [it] [] [] collected_nil [])) as [n Hn].
  { apply Forall_singleton. by eapply leaf_item_sourced. }
  destruct (iter_st turning n (mkBfs [it] [] [] collected_nil []) tt) as [[] o] eqn:Hit. cbn in Hn.
  exists n, (building n leaf_path leaf_contract). assert (building n leaf_path leaf_contract <> Ok None) as Hne.
  { unfold build_inventory. rewrite Hleaf. cbn [mbind res_bind]. unfold bfs. rewrite Hit. by destruct o as [[b|]|e]. }
  unfold build_inventory in *. rewrite Hleaf in *. cbn [mbind res_bind] in *. split; [done|]. intros m Hm.
  pose proof (building_more n m leaf_path leaf_contract) as Hmore. unfold build_inventory in Hmore. rewrite Hleaf in Hmore. by apply Hmore.
Qed.

(** What an inventory holds: contracts reached from the leaf by resolved parent edges,
    each visited once, nearest first, with every parent of each either visited or recorded
    as not resolved, under the edge's first contract; nothing else recorded; and the
    deduplicated entries that these contracts declare, in a body within the budget *)
Definition holds_ancestors (leaf : item) (inv : ScaffoldApiInventory) : Prop :=
  exists its keys parts,
    head its = Some leaf /\ Forall (ancestor leaf) its /\
    Forall2 (fun it k => key it = Ok k) its keys /\ NoDup keys /\ StronglySorted nearer its /\
    (forall it p, it ∈ its -> inherits it p ->
       exists first, first ∈ its /\ inherits first p /\ edge_of first p = edge_of it p /\
         match parent_of first p with
         | Ok (inl it') => exists k, key it' = Ok k /\ k ∈ keys
         | Ok (inr reason) => exists u, unresolved_of first p reason u /\ u ∈ in_unresolved inv
         | Raise _ => False
         end) /\
    (forall u, u ∈ in_unresolved inv ->
       exists it p reason, it ∈ its /\ inherits it p /\ parent_of it p = Ok (inr reason) /\ unresolved_of it p reason u) /\
    Forall2 (fun it c => collecting it = Ok c) its parts /\
    (let found := foldl collected_app collected_nil parts in
     (in_state_vars inv, in_drops inv) = dedup_state found.1.1 /\ in_lifecycle inv = dedup_helpers found.1.2 /\
     in_callable inv = dedup_helpers found.2) /\
    ulen (in_rendered inv) <= INVENTORY_BUDGET.

Lemma bfs_inventory fuel cname leaf b :
  bfs fs depth parse file_map remappings fuel leaf = Ok (Some b) -> holds_ancestors leaf (inventory_of cname (qi_path leaf) b).
Proof.
  intros Hbfs. apply bfs_walked in Hbfs as (Hq & its & [(ks & Hks & Hvis & Hnd) (cs & Hcs & Hfound) Hanc Hsort _ Hfirst] & [He Hu Hp]).
  rewrite Hq, app_nil_r in *. exists its, ks, cs. unfold inventory_of. rewrite <- Hfound.
  destruct (dedup_state (b_found b).1.1) as [state drops] eqn:Hd. cbn [in_leaf_contract in_state_vars in_drops in_lifecycle
    in_callable in_rendered in_degraded in_unresolved]. split_and!; try done; [|apply hard_cap_within].
  intros it p Hit Hinh. destruct (He _ (Hp it p Hit Hinh)) as (first & p' & Hf & Hedge & Hinh' & Hfol).
  assert (p' = p) as -> by (unfold edge_of in Hedge; congruence). exists first. split_and!; try done. unfold followed in Hfol.
  destruct (parent_of first p) as [[it'|reason]|]; try done. destruct Hfol as [Hin|(k & Hk & Hin)]; [by rewrite Hq in Hin; apply not_elem_of_nil in Hin|].
  exists k. split; [done|]. rewrite Hvis in Hin. by apply elem_of_reverse.
Qed.

Lemma inventory_of_leaf cname p b : in_leaf_contract (inventory_of cname p b) = cname.
Proof. unfold inventory_of. by destruct (dedup_state _). Qed.

(** C29. The inventory of a leaf holds what its ancestors declare.  When the leaf's file
    belongs to a finite set of files that the resolution of parents does not leave, then
    after enough turns there is always a result, the same for any more: no inventory when
    the leaf has none; an inventory made of the contracts that resolved parent edges reach,
    each visited once and nearest first, where every parent that a visited contract names is
    visited or recorded as not resolved, an edge being taken once for its name, file and
    distance; or an exception, which finding the leaf or reading one of these contracts raised. *)
Theorem inventory_of_ancestors (F : list path) leaf_path leaf_contract :
  fs_resolve fs leaf_path ∈ F -> (forall child p, child ∈ F -> p ∈ file_parents child -> p ∈ F) ->
  exists n r, (forall m, n <= m -> building m leaf_path leaf_contract = r) /\
    match r with
    | Ok None => False
    | Ok (Some None) => leafing leaf_path leaf_contract = Ok None
    | Ok (Some (Some inv)) =>
        exists leaf, leafing leaf_path leaf_contract = Ok (Some (in_leaf_contract inv, leaf)) /\ holds_ancestors leaf inv
    | Raise e =>
        leafing leaf_path leaf_contract = Raise e \/
        exists cname leaf it, leafing leaf_path leaf_contract = Ok (Some (cname, leaf)) /\ ancestor leaf it /\ fails it e
    end.
Proof.
  intros HF Hclosed. destruct (inventory_terminates F leaf_path leaf_contract HF Hclosed) as (n & r & Hr & Hm). exists n, r. split; [done|].
  specialize (Hm n ltac:(lia)). revert Hm Hr. unfold build_inventory. destruct (leafing leaf_path leaf_contract) as [[[cname leaf]|]|e]; cbn [mbind res_bind];
    [|by intros <- _|intros <- _; by left].
  pose proof (bfs_walked n leaf _ eq_refl) as Hw. pose proof (bfs_inventory n cname leaf) as Hi.
  destruct (bfs _ _ _ _ _ _ _) as [[b|]|e]; intros <- Hr.
  - exists leaf. split; [by rewrite inventory_of_leaf|by apply Hi].
  - done.
  - right. destruct Hw as (it & ? & ?). by exists cname, leaf, it.
Qed.
End walk.

(** ** An inventory, built *)

Definition ast_import (p : string) : pyval := PDict [("type", PStr "ImportDirective"); ("path", PStr p)].
Definition ast_var (name ty : string) : pyval :=
  PDict [("type", PStr "StateVariableDeclaration");
         ("variables", PList [PDict [("name", PStr name); ("visibility", PStr "internal");
            ("typeName", PDict [("type", PStr "ElementaryTypeName"); ("name", PStr ty)])]])].
Definition ast_fn (name : string) : pyval :=
  PDict [("type", PStr "FunctionDefinition"); ("name", PStr name); ("visibility", PStr "public")].
Definition ast_contract (name : string) (bases : list string) (subs : list pyval) : pyval :=
  PDict [("type", PStr "ContractDefinition"); ("name", PStr name);
         ("baseContracts", PList (map (fun b => PDict [("baseName", PDict [("namePath", PStr b)])]) bases));
         ("subNodes", PList subs)].
Definition ast_unit (nodes : list pyval) : pyval := PDict [("type", PStr "SourceUnit"); ("children", PList nodes)].

(** A leaf with two parents that declare one name at two types and share a parent of
    their own; one more parent is nowhere *)
Definition inventory_parse (s : string) : res pyval :=
  if String.eqb s "leaf" then
    Ok (ast_unit [ast_import "./Base.sol"; ast_contract "Leaf" ["Left"; "Right"; "Gone"] [ast_fn "setUp"; ast_fn "_deployAll"]])
  else if String.eqb s "base" then
    Ok (ast_unit [ast_contract "Left" ["Root"] [ast_var "cap" "uint256"]; ast_contract "Right" ["Root"] [ast_var "cap" "address"];
                  ast_contract "Root" [] [ast_var "owner" "address"]])
  else Raise (Exn "ParseError" "").

Definition inventory_fs : FileSystem := {|
  fs_resolve p := p; fs_resolve_error _ := None; fs_exists _ := true; fs_is_file _ := true; fs_is_dir _ := false;
  fs_read p := if bool_decide (p = ["/"; "w"; "Leaf.sol"]) then Ok "leaf"
               else if bool_decide (p = ["/"; "w"; "Base.sol"]) then Ok "base" else Raise (Exn "FileNotFoundError" "");
  fs_rglob _ := []; fs_rglob_sol _ := [] |}.

Abbreviation inventory_leaf := ["/"; "w"; "Leaf.sol"].
Abbreviation inventory_files := [["/"; "w"; "Leaf.sol"]; ["/"; "w"; "Base.sol"]].

Lemma inventory_terminates_witness :
  (fs_resolve inventory_fs inventory_leaf ∈ inventory_files) /\
  exists n r, r <> Ok None /\ forall m, n <= m -> build_inventory inventory_fs 9 inventory_parse None [] m inventory_leaf None = r.
Proof.
  split; [left|]. apply (inventory_terminates inventory_fs 9 inventory_parse None [] inventory_files); [left|].
  assert (Forall (fun child => Forall (fun p => p ∈ inventory_files) (file_parents inventory_fs inventory_parse None [] child)) inventory_files) as H.
  { apply (bool_decide_eq_true_1 _). vm_compute. reflexivity. }
  rewrite Forall_forall in H. intros child p Hc Hp. specialize (H child Hc). rewrite Forall_forall in H. by apply H.
Defined.

Definition inventory_built : option ScaffoldApiInventory :=
  match build_inventory inventory_fs 9 inventory_parse None [] 9 inventory_leaf None with Ok (Some o) => o | _ => None end.

Example inventory_contents :
  match inventory_built with
  | Some inv =>
      map entry_line_state (in_state_vars inv) = ["uint256 cap  # Left d=1"; "address owner  # Root d=2"] /\
      map (fun d => (sv_contract (dd_discarded d), sv_contract (dd_winning d))) (in_drops inv) = [("Right", "Left")] /\
      in_unresolved inv = [mkUnresolved "Gone" "Leaf" "/w/Leaf.sol" "missing"] /\
      in_rendered inv = unlines ["leaf=Leaf file=Leaf.sol"; "## state_variables"; "uint256 cap  # Left d=1";
        "address owner  # Root d=2"; "## lifecycle_setup"; GUIDANCE; "setUp()  # Leaf d=0"; "## callable_helpers";
        "_deployAll()  # Leaf d=0"; "## unresolved_parents"; "Gone from Leaf reason=missing"]
  | None => False
  end.
Proof. vm_compute. done. Qed.

Definition sample_inventory : ScaffoldApiInventory :=
  default (mkInventory "" [] [] [] [] [] [] "" false) inventory_built.

Lemma sample_inventory_built :
  build_inventory inventory_fs 9 inventory_parse None [] 9 inventory_leaf None = Ok (Some (Some sample_inventory)).
Proof. vm_compute. reflexivity. Qed.

Lemma inventory_files_closed child p :
  child ∈ inventory_files -> p ∈ file_parents inventory_fs inventory_parse None [] child -> p ∈ inventory_files.
Proof.
  assert (Forall (fun child => Forall (fun p => p ∈ inventory_files) (file_parents inventory_fs inventory_parse None [] child)) inventory_files) as H.
  { apply (bool_decide_eq_true_1 _). vm_compute. reflexivity. }
  rewrite Forall_forall in H. intros Hc Hp. specialize (H child Hc). rewrite Forall_forall in H. by apply H.
Qed.

Lemma sample_inventory_more n :
  9 <= n -> build_inventory inventory_fs 9 inventory_parse None [] n inventory_leaf None = Ok (Some (Some sample_inventory)).
Proof. intros Hn. by apply (building_more _ _ _ _ _ 9 n _ _ _ Hn sample_inventory_built). Qed.

Lemma inventory_of_ancestors_witness :
  fs_resolve inventory_fs inventory_leaf ∈ inventory_files /\
  exists n leaf, build_inventory inventory_fs 9 inventory_parse None [] n inventory_leaf None = Ok (Some (Some sample_inventory)) /\
    holds_ancestors inventory_fs 9 inventory_parse None [] leaf sample_inventory.
Proof.
  split; [left|].
  destruct (inventory_of_ancestors inventory_fs 9 inventory_parse None [] inventory_files inventory_leaf None ltac:(left) inventory_files_closed)
    as (n & r & Hm & Hr).
  assert (r = Ok (Some (Some sample_inventory))) as ->.
  { rewrite <- (Hm (n + 9) ltac:(lia)). apply sample_inventory_more. lia. }
  destruct Hr as (leaf & _ & Hh). exists n, leaf. split; [by apply Hm|exact Hh].
Defined.
