(* ===== verification/Eval.v ===== *)
(** * Evaluation (eval/dataset.py, eval/runner.py, eval/regression.py)

    The ground truth, the scoring of a case and of a run, and the release gate with
    its baseline.  The audit of a case (Pipeline.start_audit on a fresh workspace with
    the local client), the kernel's memory and pydantic's validation are parameters;
    the mirroring of scores to a service is left out.  Metrics are IEEE doubles. *)

From S2P Require Import Prelude PyStr PyPath PyVal PyNum PyJson Finding Relay Pipeline.

(** ** The dataset *)

Record EvalCriterion := mkCriterion {
  ec_bastet_tag : string;
  ec_function_name : string;
  ec_min_severity : string;
  ec_location_contains : string;
}.

Record EvalCase := mkCase {
  case_id : string;
  contract_dir : string;
  focus_files : list string;
  criteria : list EvalCriterion;
}.

Definition case_path (contracts_root : path) (c : EvalCase) : path := path_join contracts_root (to_path (contract_dir c)).

Definition EVAL_CASES : list EvalCase := [
  mkCase "DVD-truster" "truster" ["TrusterLenderPool.sol"; "DamnValuableToken.sol"]
    [mkCriterion "arbitrary-external-call" "flashLoan" "critical" "TrusterLenderPool.sol"];
  mkCase "DVD-side-entrance" "side-entrance" ["SideEntranceLenderPool.sol"]
    [mkCriterion "flash-loan-attack" "flashLoan" "critical" "SideEntranceLenderPool.sol"];
  mkCase "DVD-unstoppable" "unstoppable" ["UnstoppableVault.sol"; "UnstoppableMonitor.sol"]
    [mkCriterion "denial-of-service" "flashLoan" "high" "UnstoppableVault.sol"];
  mkCase "DVD-naive-receiver" "naive-receiver"
    ["NaiveReceiverPool.sol"; "FlashLoanReceiver.sol"; "Multicall.sol"; "BasicForwarder.sol"]
    [mkCriterion "missing-check" "onFlashLoan" "medium" "FlashLoanReceiver.sol";
     mkCriterion "missing-access-control" "withdraw" "high" "NaiveReceiverPool.sol"];
  mkCase "DVD-the-rewarder" "the-rewarder" ["TheRewarderDistributor.sol"]
    [mkCriterion "incorrect-state-update" "claimRewards" "high" "TheRewarderDistributor.sol"]].

(** ** Scoring a case *)

Record CaseResult := mkCaseResult {
  cr_case_id : string;
  loop_completed : bool;
  cr_tp : nat;
  cr_fn : nat;
  cr_fp : nat;
  matched_tags : list string;
  missed_tags : list string;
  skip_reason : string;
}.

Definition incomplete (c : EvalCase) (reason : string) : CaseResult :=
  mkCaseResult (case_id c) false 0 (length (criteria c)) 0 [] [] reason.

Definition tag_value (f : Finding) : option string := enum_value <$> f_bastet_tag f.

Definition finding_meets (c : EvalCriterion) (min_rank : nat) (f : Finding) : bool :=
  bool_decide (tag_value f = Some (ec_bastet_tag c))
  && (negb (truthy (ec_function_name c)) || contains (lower (ec_function_name c)) (lower (function_name f)))
  && (negb (truthy (ec_location_contains c)) || contains (ec_location_contains c) (location f))
  && (min_rank <=? severity_rank (f_severity f)).

(** [Severity(...)] of an unknown value raises. *)
Definition criterion_matched (c : EvalCriterion) (findings : list Finding) : res bool :=
  min ← (enum_call (ec_min_severity c) : res severity);
  Ok (existsb (finding_meets c (severity_rank min)) findings).

(** The loop over the criteria: the tags matched and those missed, in order *)
Fixpoint match_criteria (cs : list EvalCriterion) (findings : list Finding) : res (list string * list string) :=
  match cs with
  | [] => Ok ([], [])
  | c :: cs' =>
      b ← criterion_matched c findings;
      rest ← match_criteria cs' findings;
      Ok (if (b : bool) then (ec_bastet_tag c :: rest.1, rest.2) else (rest.1, ec_bastet_tag c :: rest.2))
  end.

Definition ungrounded (known_tags : list string) (f : Finding) : bool :=
  match tag_value f with
  | None => true
  | Some "" => true
  | Some t => negb (bool_decide (t ∈ known_tags))
  end.

Definition score_case (c : EvalCase) (findings : list Finding) : res CaseResult :=
  mm ← match_criteria (criteria c) findings;
  let known_tags := map ec_bastet_tag (criteria c) in
  Ok (mkCaseResult (case_id c) true (length mm.1) (length mm.2) (length (List.filter (ungrounded known_tags) findings))
        mm.1 mm.2 "").

Section runner.
Context {W : Type}.
Context (available : ST W bool) (model : string).
Context (start_audit : EvalCase -> ST W PipelineResult).
Context (load_for_principal : EvalCase -> ST W (list (option payload))).
Context (make_finding : payload -> res Finding).

(** Records that are no findings, or not valid ones, are skipped. *)
Definition reconstruct_findings (records : list (option payload)) : list Finding :=
  omap (fun r => p ← r; if bool_decide (p = []) then None
                        else res_to_option (make_finding (pop_key "notes_flags" (pop_key "notes" p)))) records.

(** [try: ... except Exception as e]: the state reached is kept *)
Definition attempt {A} (m : ST W A) : ST W (A + exn) := fun w =>
  match m w with (w', Ok a) => (w', Ok (inl a)) | (w', Raise e) => (w', Ok (inr e)) end.

Definition run_case (c : EvalCase) : ST W CaseResult :=
  up ← available;
  if negb up then mret (incomplete c ("local model " +:+ repr_str model +:+ " unavailable"))
  else
    r ← attempt (start_audit c);
    match r with
    | inr e => mret (incomplete c (exn_class e +:+ ": " +:+ exn_msg e))
    | inl result =>
        if negb (String.eqb (pr_status result) "done") then
          mret (incomplete c ("pipeline did not finish (status=" +:+ pr_status result +:+ ")"))
        else
          records ← load_for_principal c;
          st_lift (score_case c (reconstruct_findings records))
    end.

Fixpoint run_cases (cases : list EvalCase) : ST W (list CaseResult) :=
  match cases with
  | [] => mret []
  | c :: cases' => r ← run_case c; rest ← run_cases cases'; mret (r :: rest)
  end.
End runner.

(** ** Scoring a run *)

Record EvalReport := mkEvalReport {
  er_results : list CaseResult;
  er_recall : pyfloat;
  er_fpr : pyfloat;
  er_loop_completion_rate : pyfloat;
}.

Definition total (f : CaseResult -> nat) (rs : list CaseResult) : nat := list_sum (map f rs).

(** [a / b if b else 0.0] *)
Definition share (a b : nat) : pyfloat := match b with 0 => true_div 0 1 | _ => true_div a b end.

Definition eval_report (results : list CaseResult) : EvalReport :=
  let tp := total cr_tp results in
  let fn := total cr_fn results in
  let fp := total cr_fp results in
  mkEvalReport results (share tp (tp + fn)) (share fp (fp + tp))
    (share (length (List.filter loop_completed results)) (length results)).

(** What a case and a run post *)
Definition case_scores (r : CaseResult) : list (string * pyfloat) :=
  ("loop_completed", if loop_completed r then true_div 1 1 else true_div 0 1)
  :: (if cr_tp r + cr_fn r =? 0 then [] else [("recall", true_div (cr_tp r) (cr_tp r + cr_fn r))]).
Definition summary_scores (rep : EvalReport) : list (string * pyfloat) :=
  [("recall", er_recall rep); ("fpr", er_fpr rep); ("loop_completion_rate", er_loop_completion_rate rep)].

(** ** The gate *)

Inductive bound := at_least | at_most.

(** The doubles nearest to 0.80, 0.20, 0.05 and 0.95 *)
Definition THRESHOLDS : list (string * (bound * pyfloat)) :=
  [("recall", (at_least, true_div 80 100)); ("fpr", (at_most, true_div 20 100)); ("asr", (at_most, true_div 5 100));
   ("loop_completion_rate", (at_least, true_div 95 100))].

Abbreviation metrics := (list (string * pyfloat)).

Record RegressionResult := mkRegression {
  rr_passed : bool;
  rr_failures : list string;
  rr_metrics : metrics;
  baseline_metrics : option pyval;
  baseline_deltas : option metrics;
}.

Definition metrics_from_report (rep : EvalReport) (asr : option pyfloat) : metrics :=
  summary_scores rep ++ match asr with Some a => [("asr", a)] | None => [] end.

Definition threshold_failure (m : metrics) (t : string * (bound * pyfloat)) : option string :=
  let '(name, (kind, limit)) := t in
  value ← assoc name m;
  match kind with
  | at_least =>
      if float_ltb value limit then Some (name +:+ "=" +:+ float_percent value +:+ " below minimum " +:+ float_percent limit) else None
  | at_most =>
      if float_ltb limit value then Some (name +:+ "=" +:+ float_percent value +:+ " above maximum " +:+ float_percent limit) else None
  end.

Definition check_thresholds (m : metrics) : RegressionResult :=
  let failures := omap (threshold_failure m) THRESHOLDS in
  mkRegression (bool_decide (failures = [])) failures m None None.

Definition load_baseline (fs : FileSystem) (p : path) : option pyval :=
  if negb (fs_exists fs p) then None
  else match fs_read fs p with Ok text => loads text | Raise _ => None end.

(** [k in v] for a string key *)
Definition key_in (k : string) (v : pyval) : res bool :=
  match v with
  | PDict d => Ok (negb (is_none (assoc k d)))
  | PList l => Ok (bool_decide (PStr k ∈ l))
  | PStr s => Ok (contains k s)
  | _ => Raise (Exn "TypeError" ("argument of type '" +:+ type_name v +:+ "' is not iterable"))
  end.

(** [x - v] *)
Definition float_minus (x : pyfloat) (v : pyval) : res pyfloat :=
  match v with
  | PFloat l => Ok (float_sub x (default S754_nan (py_float l)))
  | PInt z => f ← float_of_int z; Ok (float_sub x f)
  | PBool b => Ok (float_sub x (float_round_Z (if b then 1 else 0)))
  | _ => Raise (Exn "TypeError" ("unsupported operand type(s) for -: 'float' and '" +:+ type_name v +:+ "'"))
  end.

Fixpoint deltas (m : metrics) (baseline : pyval) : res metrics :=
  match m with
  | [] => Ok []
  | (k, x) :: m' =>
      here ← key_in k baseline;
      if (here : bool) then
        v ← getitem baseline k; d ← float_minus x v; rest ← deltas m' baseline; Ok ((k, d) :: rest)
      else deltas m' baseline
  end.

Definition compare_to_baseline (fs : FileSystem) (rep : EvalReport) (asr : option pyfloat) (baseline_path : path)
    : res RegressionResult :=
  let m := metrics_from_report rep asr in
  let result := check_thresholds m in
  match load_baseline fs baseline_path with
  | Some baseline =>
      if truthy_val baseline then
        ds ← deltas m baseline;
        Ok (mkRegression (rr_passed result) (rr_failures result) (rr_metrics result) (Some baseline) (Some ds))
      else Ok result
  | None => Ok result
  end.

(** The text written as the new baseline; mirroring it is left out *)
Definition baseline_text (rep : EvalReport) (asr : option pyfloat) : string :=
  dumps (PDict (map (fun kv => (kv.1, PFloat (float_repr kv.2))) (metrics_from_report rep asr))).
Definition save_baseline (rep : EvalReport) (asr : option pyfloat) (baseline_path : path) (files : gmap path string)
    : gmap path string * metrics :=
  (<[baseline_path := baseline_text rep asr]> files, metrics_from_report rep asr).

(** ** What scoring means *)

(** A list in two parts, in order: the members with a property and those without *)
Inductive parted {A} (P : A -> Prop) : list A -> list A -> list A -> Prop :=
| parted_nil : parted P [] [] []
| parted_in x l yes no : P x -> parted P l yes no -> parted P (x :: l) (x :: yes) no
| parted_out x l yes no : ~ P x -> parted P l yes no -> parted P (x :: l) yes (x :: no).

Definition part_of (sub s : string) : Prop := exists a b, s = a +:+ sub +:+ b.

(** A finding hits a criterion: its tag, with the function's name up to the case and the
    location somewhere in its own, and at least as severe *)
Definition hits (k : EvalCriterion) (f : Finding) : Prop :=
  tag_value f = Some (ec_bastet_tag k) /\ part_of (lower (ec_function_name k)) (lower (function_name f)) /\
  part_of (ec_location_contains k) (location f) /\
  exists least : severity, enum_of (ec_min_severity k) = Some least /\ severity_rank least <= severity_rank (f_severity f).

(** A finding under no tag of the case's criteria *)
Definition foreign (c : EvalCase) (f : Finding) : Prop := forall k, k ∈ criteria c -> tag_value f <> Some (ec_bastet_tag k).

(** The result of a case whose audit found [findings] *)
Definition scored (c : EvalCase) (findings : list Finding) (r : CaseResult) : Prop :=
  exists hit missed wrong known,
    parted (fun k => exists f, f ∈ findings /\ hits k f) (criteria c) hit missed /\ parted (foreign c) findings wrong known /\
    r = mkCaseResult (case_id c) true (length hit) (length missed) (length wrong) (map ec_bastet_tag hit) (map ec_bastet_tag missed) "".

Lemma contains_part sub s : contains sub s = true <-> part_of sub s.
Proof. apply contains_spec. Qed.

(** The source skips an empty name or location, which is part of every text *)
Lemma contains_opt sub sub' s : (truthy sub' = false -> sub = "") -> negb (truthy sub') || contains sub s = true <-> part_of sub s.
Proof.
  intros He. rewrite orb_true_iff, negb_true_iff, contains_part. split; [|auto]. intros [Ht|?]; [|done]. rewrite (He Ht). by exists "", s.
Qed.

Lemma criterion_matched_hits k findings b :
  criterion_matched k findings = Ok b -> b = true <-> exists f, f ∈ findings /\ hits k f.
Proof.
  unfold criterion_matched, enum_call. destruct (enum_of (ec_min_severity k)) as [least|] eqn:Hl; [|done]. intros [= <-].
  rewrite existsb_exists. apply exist_proper. intros f. rewrite list_elem_of_In. apply and_iff_compat_l.
  unfold finding_meets, hits. rewrite !andb_true_iff, bool_decide_eq_true, Nat.leb_le.
  rewrite contains_opt by by destruct (ec_function_name k). rewrite contains_opt by by destruct (ec_location_contains k).
  split; [intros [[[? ?] ?] ?]; eauto 8|]. intros (? & ? & ? & least' & Hl' & ?). rewrite Hl in Hl'. injection Hl' as <-. tauto.
Qed.

Lemma ungrounded_foreign c f : ungrounded (map ec_bastet_tag (criteria c)) f = true <-> foreign c f.
Proof.
  unfold ungrounded, foreign. destruct (tag_value f) as [[|a t]|] eqn:Ht; [| |done].
  - exfalso. unfold tag_value in Ht. destruct (f_bastet_tag f) as [[]|]; discriminate Ht.
  - rewrite negb_true_iff, bool_decide_eq_false, list_elem_of_In, in_map_iff. split.
    + intros Hn k Hk [= Hk']. apply Hn. exists k. split; [done|]. by apply list_elem_of_In.
    + intros Hf (k & Hk & Hin%list_elem_of_In). by apply (Hf k Hin); f_equal.
Qed.

Lemma parted_filter {A} (P : A -> Prop) (p : A -> bool) l :
  (forall x, x ∈ l -> p x = true <-> P x) -> exists no, parted P l (List.filter p l) no.
Proof.
  induction l as [|x l IH]; intros Hp; [exists []; constructor|]. destruct IH as [no Hl]; [intros y Hy; apply Hp; by right|].
  specialize (Hp x ltac:(left)). cbn. destruct (p x); [exists no|exists (x :: no)]; constructor; try done; [by apply Hp|]. by intros ?%Hp.
Qed.

Lemma match_criteria_parts cs findings mm :
  match_criteria cs findings = Ok mm ->
  exists hit missed, parted (fun k => exists f, f ∈ findings /\ hits k f) cs hit missed /\ mm = (map ec_bastet_tag hit, map ec_bastet_tag missed).
Proof.
  revert mm. induction cs as [|k cs IH]; intros mm; cbn [match_criteria]; [intros [= <-]; exists [], []; by split; [constructor|]|].
  intros (b & Hb%criterion_matched_hits & (rest & Hr & [= <-])%res_bind_Ok)%res_bind_Ok. apply IH in Hr as (hit & missed & Hp & ->).
  destruct b; [exists (k :: hit), missed|exists hit, (k :: missed)]; (split; [constructor; [|done]|done]); [by apply Hb|].
  intros Hh%Hb. done.
Qed.

Lemma match_criteria_total cs findings :
  Forall (fun c => is_Some (enum_of (ec_min_severity c) : option severity)) cs -> is_ok_res (match_criteria cs findings) = true.
Proof.
  induction 1 as [|c cs [s Hs] _ IH]; [done|]. cbn [match_criteria].
  assert (criterion_matched c findings = Ok (existsb (finding_meets c (severity_rank s)) findings)) as ->.
  { unfold criterion_matched, enum_call. by rewrite Hs. }
  cbn. by destruct (match_criteria cs findings).
Qed.

Lemma score_case_scored c findings r : score_case c findings = Ok r -> scored c findings r.
Proof.
  unfold score_case. intros (mm & Hm & [= <-])%res_bind_Ok. apply match_criteria_parts in Hm as (hit & missed & Hp & ->).
  destruct (parted_filter (foreign c) (ungrounded (map ec_bastet_tag (criteria c))) findings) as [known Hf];
    [intros f _; apply ungrounded_foreign|].
  exists hit, missed, (List.filter (ungrounded (map ec_bastet_tag (criteria c))) findings), known. cbn [fst snd]. by rewrite !length_map.
Qed.

Lemma parted_length {A} (P : A -> Prop) l yes no : parted P l yes no -> length yes + length no = length l.
Proof. induction 1; cbn; lia. Qed.

(** ** The dataset *)

(** Case ids are distinct, every criterion's tag and severity are members of the
    enumerations, and its location names one of the files the case audits *)
Lemma dataset_well_formed :
  NoDup (map case_id EVAL_CASES) /\
  Forall (fun c => criteria c <> [] /\ Forall (fun k => is_Some (enum_of (ec_bastet_tag k) : option bastet_tag) /\
      is_Some (enum_of (ec_min_severity k) : option severity) /\ ec_location_contains k ∈ focus_files c) (criteria c)) EVAL_CASES.
Proof. split; apply (bool_decide_eq_true_1 _); vm_compute; reflexivity. Qed.

Lemma dataset_scores c findings : c ∈ EVAL_CASES -> is_ok_res (score_case c findings) = true.
Proof.
  intros Hc. destruct dataset_well_formed as [_ H]. rewrite Forall_forall in H. destruct (H c Hc) as [_ Hk]. unfold score_case.
  pose proof (match_criteria_total (criteria c) findings) as Ht. destruct (match_criteria (criteria c) findings); [done|].
  discriminate Ht. eapply Forall_impl; [exact Hk|]. by intros k (_ & ? & _).
Qed.

Section runner_proofs.
Context {W : Type}.
Context (available : ST W bool) (model : string).
Context (start_audit : EvalCase -> ST W PipelineResult).
Context (load_for_principal : EvalCase -> ST W (list (option payload))).
Context (make_finding : payload -> res Finding).
Abbreviation running := (run_case available model start_audit load_for_principal make_finding).
Abbreviation running_all := (run_cases available model start_audit load_for_principal make_finding).

(** A record with a finding that is valid without its notes, and the finding *)
Definition rebuilt (p : option payload) (f : Finding) : Prop :=
  exists d, p = Some d /\ d <> [] /\ make_finding (pop_key "notes_flags" (pop_key "notes" d)) = Ok f.

(** What happened to a case in the states it ran through: the model was down, the audit
    raised or did not finish, and then every criterion is missed and nothing held against
    it; or the audit finished and the findings of its records are scored *)
Definition evaluated (c : EvalCase) (w w' : W) (r : CaseResult) : Prop :=
  (exists reason, reason <> "" /\ r = mkCaseResult (case_id c) false 0 (length (criteria c)) 0 [] [] reason /\
     (available w = (w', Ok false) \/
      exists w1, available w = (w1, Ok true) /\
        ((exists e, start_audit c w1 = (w', Raise e)) \/
         exists result, start_audit c w1 = (w', Ok result) /\ pr_status result <> "done"))) \/
  exists w1 w2 result records findings,
    available w = (w1, Ok true) /\ start_audit c w1 = (w2, Ok result) /\ pr_status result = "done" /\
    load_for_principal c w2 = (w', Ok records) /\ (forall f, f ∈ findings <-> exists p, p ∈ records /\ rebuilt p f) /\
    length findings <= length records /\ scored c findings r.

(** The cases one after the other *)
Inductive evaluation : list EvalCase -> W -> W -> list CaseResult -> Prop :=
| evaluation_nil w : evaluation [] w w []
| evaluation_cons c cases w w1 w' r rs :
    evaluated c w w1 r -> evaluation cases w1 w' rs -> evaluation (c :: cases) w w' (r :: rs).

Lemma evaluation_head c cases w w' rs :
  evaluation (c :: cases) w w' rs -> exists r rs' w1, rs = r :: rs' /\ evaluated c w w1 r.
Proof. inversion 1; subst. eauto 8. Qed.

Lemma reconstruct_spec records f :
  f ∈ reconstruct_findings make_finding records <-> exists p, p ∈ records /\ rebuilt p f.
Proof.
  unfold reconstruct_findings. rewrite list_elem_of_omap. apply exist_proper. intros p. apply and_iff_compat_l. unfold rebuilt.
  destruct p as [d|]; cbn; [|split; [done|by intros (? & [=] & _)]].
  destruct (bool_decide_reflect (d = [])) as [->|Hd]; [split; [done|by intros (? & [= <-] & ? & _)]|].
  split; [|intros (? & [= <-] & _ & ->); done]. destruct (make_finding _) eqn:E; [|done]. intros [= <-]. eauto.
Qed.

Lemma run_case_evaluated c w w' r : running c w = (w', Ok r) -> evaluated c w w' r.
Proof.
  unfold run_case. intros [(w1 & up & Hup & H)|(e & _ & [=])]%st_bind_inv. destruct up; cbn [negb] in H.
  2: { injection H as -> <-. left. eexists. split_and!; [|reflexivity|by left]. done. }
  apply st_bind_inv in H as [(w2 & o & Ho & H)|(e & _ & [=])]. unfold attempt in Ho. destruct (start_audit c w1) as [w2' [result|e]] eqn:Hs;
    injection Ho as -> <-.
  - destruct (String.eqb_spec (pr_status result) "done") as [Hd|Hd]; cbn [negb] in H.
    + apply st_bind_inv in H as [(w3 & records & Hl & [= -> H])|(e & _ & [=])]. right.
      exists w1, w2, result, records, (reconstruct_findings make_finding records). split_and!; try done; [apply reconstruct_spec| |by apply score_case_scored].
      unfold reconstruct_findings. clear. induction records as [|p l IH]; [done|]. cbn. destruct (mbind _ p); cbn; lia.
    + injection H as -> <-. left. eexists. split_and!; [|reflexivity|right; exists w1; split; [done|]; right; by exists result]. done.
  - injection H as -> <-. left. eexists. split_and!; [|reflexivity|right; exists w1; split; [done|]; left; by exists e].
    destruct e as [[|? ?] ?]; done.
Qed.

Lemma run_cases_evaluation cases w w' rs : running_all cases w = (w', Ok rs) -> evaluation cases w w' rs.
Proof.
  revert w rs. induction cases as [|c cases IH]; intros w rs; cbn [run_cases]; [intros [= <- <-]; constructor|].
  intros [(w1 & r & Hr & H)|(e & _ & [=])]%st_bind_inv. apply st_bind_inv in H as [(w2 & rest & Hrest & [= -> <-])|(e & _ & [=])].
  econstructor; [by apply run_case_evaluated|by apply IH].
Qed.

Lemma evaluated_total c w w' r : evaluated c w w' r -> cr_tp r + cr_fn r = length (criteria c).
Proof.
  intros [(reason & _ & -> & _)|(? & ? & ? & ? & ? & _ & _ & _ & _ & _ & _ & hit & missed & ? & ? & Hp & _ & ->)]; [done|]. cbn. by eapply parted_length.
Qed.

(** An evaluation of the dataset fails only with the model's endpoint or the memory *)
Lemma run_cases_raises cases w w' e :
  Forall (.∈ EVAL_CASES) cases -> running_all cases w = (w', Raise e) ->
  exists w1 w2 c, available w1 = (w2, Raise e) \/ load_for_principal c w1 = (w2, Raise e).
Proof.
  intros Hin. revert w. induction Hin as [|c cases Hc _ IH]; intros w; cbn [run_cases]; [done|].
  intros [(w1 & r & _ & H)|(e' & H & [= <-])]%st_bind_inv.
  - apply st_bind_inv in H as [(? & ? & _ & [=])|(e' & H & [= <-])]. by eapply IH.
  - unfold run_case in H. apply st_bind_inv in H as [(w1 & up & _ & H)|(e'' & H & [= <-])]; [|by exists w, w', c; left].
    destruct up; [|done]. cbn [negb] in H. apply st_bind_inv in H as [(w2 & o & _ & H)|(e'' & H & _)].
    2: { unfold attempt in H. by destruct (start_audit c w1) as [? [?|?]]. }
    destruct o as [result|]; [|done]. destruct (String.eqb _ _); [|done]. cbn [negb] in H.
    apply st_bind_inv in H as [(w3 & records & _ & H)|(e'' & H & [= <-])]; [|by exists w2, w', c; right].
    unfold st_lift in H. pose proof (dataset_scores c (reconstruct_findings make_finding records) Hc) as Hs.
    destruct (score_case _ _); [done|discriminate Hs].
Qed.

(** C39. A run of the evaluation scores what the audits found.  There is one result per
    case, in order: of a case whose model was down or whose audit raised or did not finish,
    with a reason, every criterion missed and no finding held against it; of any other,
    the criteria that some finding of the audit's records hits, with its tag, function,
    location and severity, and those that none does, in order, and as false positives the
    findings under no tag of the case.  Every criterion so counts exactly once, the recall
    is the share of the hits among all criteria, and a run of the dataset's cases raises
    only what the model's endpoint or the memory raises. *)
Theorem eval_run_accounts cases w w' o :
  running_all cases w = (w', o) ->
  match o with
  | Ok rs =>
      evaluation cases w w' rs /\
      total cr_tp rs + total cr_fn rs = list_sum (map (fun c => length (criteria c)) cases) /\
      er_recall (eval_report rs) = share (total cr_tp rs) (list_sum (map (fun c => length (criteria c)) cases)) /\
      er_fpr (eval_report rs) = share (total cr_fp rs) (total cr_fp rs + total cr_tp rs) /\
      er_loop_completion_rate (eval_report rs) = share (length (List.filter loop_completed rs)) (length cases)
  | Raise e => Forall (.∈ EVAL_CASES) cases ->
      exists w1 w2 c, available w1 = (w2, Raise e) \/ load_for_principal c w1 = (w2, Raise e)
  end.
Proof.
  destruct o as [rs|e]; [|intros H Hin; by eapply run_cases_raises]. intros H%run_cases_evaluation. split; [done|].
  assert (total cr_tp rs + total cr_fn rs = list_sum (map (fun c => length (criteria c)) cases) /\ length rs = length cases) as [Ht Hl].
  { unfold total. induction H as [|c cases w w1 w' r rs Hr _ IH]; [done|]. apply evaluated_total in Hr. cbn [map length].
    change (list_sum (?a :: ?l)) with (a + list_sum l) in *. cbn [list_sum fold_right] in *. unfold list_sum in *. cbn. lia. }
  split; [done|]. unfold eval_report. cbn [er_recall er_fpr er_loop_completion_rate]. by rewrite Ht, Hl.
Qed.
End runner_proofs.

(** A model that finds the first case's bug and is down for the second *)
Definition sample_payload : payload := [("id", PStr "F1")].
Definition sample_finding : Finding :=
  mkFinding "F1" "TrusterLenderPool.sol:12" "flashLoan" (Some BastetTag.arbitrary_external_call) Severity.critical
    FindingStatus.open [] [] None None [].

Abbreviation sample_run :=
  (run_cases (fun w => (S w, Ok (w =? 0))) "m" (fun c w => (w, Ok (mkPipeline "done" "s" 0 None 1)))
    (fun c w => (w, Ok [Some sample_payload; None])) (fun _ => Ok sample_finding) (take 2 EVAL_CASES)).

Definition sample_results : list CaseResult :=
  [mkCaseResult "DVD-truster" true 1 0 0 ["arbitrary-external-call"] [] "";
   mkCaseResult "DVD-side-entrance" false 0 1 0 [] [] "local model 'm' unavailable"].

Lemma sample_run_ends : sample_run 0 = (2, Ok sample_results).
Proof. vm_compute. reflexivity. Qed.

Lemma eval_run_accounts_witness :
  map cr_tp sample_results = [1; 0] /\ er_recall (eval_report sample_results) = true_div 1 2 /\
  exists r rs w, sample_results = r :: rs /\
    evaluated (fun w => (S w, Ok (w =? 0))) (fun c w => (w, Ok (mkPipeline "done" "s" 0 None 1)))
      (fun c w => (w, Ok [Some sample_payload; None])) (fun _ => Ok sample_finding) (default (mkCase "" "" [] []) (head EVAL_CASES)) 0 w r.
Proof.
  destruct (eval_run_accounts _ _ _ _ _ (take 2 EVAL_CASES) 0 2 (Ok sample_results) sample_run_ends) as (H & _ & Hr & _).
  split; [reflexivity|]. split; [rewrite Hr; vm_compute; reflexivity|].
  apply evaluation_head in H as (r & rs & w & Hrs & He). by exists r, rs, w.
Defined.

(** A finding under a known tag that meets no criterion is neither a hit nor counted
    against the precision. *)
Lemma known_tag_is_never_false_positive :
  match EVAL_CASES with
  | c :: _ => score_case c [with_severity Severity.low sample_finding] =
      Ok (mkCaseResult "DVD-truster" true 0 1 0 [] ["arbitrary-external-call"] "")
  | [] => False
  end.
Proof. vm_compute. done. Qed.

(** ** The gate *)

Definition meets (m : metrics) (t : string * (bound * pyfloat)) : Prop :=
  forall value, assoc t.1 m = Some value ->
    match t.2.1 with at_least => float_ltb value t.2.2 = false | at_most => float_ltb t.2.2 value = false end.

Lemma threshold_failure_None m t : threshold_failure m t = None <-> meets m t.
Proof.
  unfold threshold_failure, meets. destruct t as [name [kind limit]]. cbn. destruct (assoc name m) as [v|]; cbn; [|naive_solver].
  destruct kind; (destruct (float_ltb _ _) eqn:E; split; [done|intros H; specialize (H v eq_refl); congruence|by intros _ ? [= <-]|done]).
Qed.

Lemma omap_nil_iff {A B} (f : A -> option B) l : omap f l = [] <-> Forall (fun x => f x = None) l.
Proof.
  induction l as [|x l IH]; [done|]. cbn. rewrite Forall_cons, <- IH. destruct (f x); naive_solver.
Qed.

(** The gate passes exactly when every metric that is present meets its threshold, as
    doubles (a missing metric never fails it); comparing with a baseline adds the
    differences of the metrics it has but never changes the verdict, and a missing,
    unreadable or empty baseline leaves the thresholds alone. *)
Theorem gate_decides fs rep asr baseline_path :
  let m := metrics_from_report rep asr in
  (rr_passed (check_thresholds m) = true <-> Forall (meets m) THRESHOLDS) /\
  (rr_passed (check_thresholds m) = true <-> rr_failures (check_thresholds m) = []) /\
  match compare_to_baseline fs rep asr baseline_path with
  | Ok r => rr_passed r = rr_passed (check_thresholds m) /\ rr_failures r = rr_failures (check_thresholds m) /\ rr_metrics r = m /\
      (forall b, baseline_metrics r = Some b -> load_baseline fs baseline_path = Some b)
  | Raise _ => exists b, load_baseline fs baseline_path = Some b /\ truthy_val b = true
  end.
Proof.
  cbv zeta. set (m := metrics_from_report rep asr). split_and!.
  - unfold check_thresholds. cbn [rr_passed]. rewrite bool_decide_eq_true, omap_nil_iff.
    apply Forall_iff. intros t. apply threshold_failure_None.
  - unfold check_thresholds. cbn [rr_passed rr_failures]. by rewrite bool_decide_eq_true.
  - unfold compare_to_baseline. cbv zeta. fold m. destruct (load_baseline fs baseline_path) as [b|] eqn:Hl; [|by split_and!].
    destruct (truthy_val b) eqn:Ht; [|by split_and!]. destruct (deltas m b) as [ds|e]; cbn; [|by exists b].
    split_and!; [done..|]. by intros b' [= <-].
Qed.

Example gate_example :
  rr_failures (check_thresholds (metrics_from_report (eval_report sample_results) (Some (true_div 1 10)))) =
    ["recall=50.00% below minimum 80.00%"; "asr=10.00% above maximum 5.00%"; "loop_completion_rate=50.00% below minimum 95.00%"] /\
  baseline_text (eval_report sample_results) None =
    unlines ["{"; bq "  `recall`: 0.5,"; bq "  `fpr`: 0.0,"; bq "  `loop_completion_rate`: 0.5"; "}"] /\
  deltas (summary_scores (eval_report sample_results)) (PDict [("recall", PFloat "0.75"); ("fpr", PInt 0)]) =
    Ok [("recall", S754_finite true 4503599627370496 (-54)); ("fpr", S754_zero false)].
Proof. vm_compute. done. Qed.
