(* ===== verification/Operator.v ===== *)
(** * Operator sessions (frontend/backend/clone.py, frontend/backend/sessions.py)

    Fetching a target into an isolated workspace without leaking the token, and the
    guards under which a chat session is scoped to a target.  The git process, the
    random names, the kernel's memory and the construction of the kernel's loop are
    parameters. *)

From S2P Require Import Prelude PyStr PyPath.

(** ** URLs *)

Definition ALLOWED_SCHEMES : list string := ["http"; "https"; "git"].

Definition is_scheme_char (c : ascii) : bool :=
  is_alnum c || Ascii.eqb c "+" || Ascii.eqb c "-" || Ascii.eqb c ".".

Fixpoint sfilter (p : ascii -> bool) (s : string) : string :=
  match s with "" => "" | String c s' => if p c then String c (sfilter p s') else sfilter p s' end.
Fixpoint sforall (p : ascii -> bool) (s : string) : bool :=
  match s with "" => true | String c s' => p c && sforall p s' end.
Fixpoint take_while (p : ascii -> bool) (s : string) : string :=
  match s with "" => "" | String c s' => if p c then String c (take_while p s') else "" end.

(** What [urlsplit] removes first: leading control characters and blanks, and every tab
    and line break *)
Definition clean_url (url : string) : string :=
  sfilter (fun c => negb (Ascii.eqb c "009" || Ascii.eqb c nl || Ascii.eqb c cr))
    (drop_while (fun c => ascii_in 0 32 c) url).

(** The scheme, in lower case, and what follows its colon *)
Definition split_scheme (url : string) : string * string :=
  match split_once ":" url with
  | Some (scheme, rest) =>
      if match scheme with String c _ => is_alpha c | "" => false end && sforall is_scheme_char scheme
      then (lower scheme, rest) else ("", url)
  | None => ("", url)
  end.

Definition netloc_of (rest : string) : string :=
  if starts_with "//" rest then
    take_while (fun c => negb (Ascii.eqb c "/" || Ascii.eqb c "?" || Ascii.eqb c "#")) (sdrop 2 rest)
  else "".

(** ** What cloning does *)

(** What is handed to the child: its arguments, and what is set in its environment besides
    the server's own *)
Record GitCall := mkGit { g_argv : list string; g_env : list (string * string) }.
Record GitResult := mkGitResult { returncode : Z; git_stderr : string }.

(** A file under the temporary directory, its mode *)
Record TempFile := mkTemp { tf_path : path; tf_body : string; tf_mode : Z }.

(** What a call leaves behind, in order *)
Inductive effect :=
  | made_dir (p : path)
  | wrote_temp (t : TempFile)
  | ran_git (c : GitCall)
  | removed_tree (p : path)
  | unlinked (p : path).

Record Host (W : Type) := mkHost { ho_world : W; ho_effects : list effect }.
Arguments mkHost {W} _ _.
Arguments ho_world {W} _.
Arguments ho_effects {W} _.

Section urls.
(** The checks of a bracketed host and of a host that is not ASCII *)
Context (netloc_ok : string -> res unit).

(** [urlsplit(url)]: the scheme and the network location *)
Definition urlsplit (url : string) : res (string * string) :=
  let '(scheme, rest) := split_scheme (clean_url url) in
  let netloc := netloc_of rest in
  if xorb (contains "[" netloc) (contains "]" netloc) then Raise (Exn "ValueError" "Invalid IPv6 URL")
  else _ ← netloc_ok netloc; Ok (scheme, netloc).

Definition clone_error (msg : string) : exn := Exn "CloneError" msg.

Definition validate_repo_url (url : string) : res string :=
  if negb (truthy url) || negb (truthy (strip url)) then Raise (clone_error "no repository URL provided")
  else
    parts ← urlsplit (strip url);
    if negb (bool_decide (parts.1 ∈ ALLOWED_SCHEMES)) || negb (truthy parts.2) then
      Raise (clone_error ("unsupported repository URL: " +:+ repr_str url +:+ " — use an http(s) or git URL with a host"))
    else Ok (strip url).

(** [url.replace(scheme://, scheme://x-access-token@, 1)] *)
Definition insert_user (scheme url : string) : string :=
  match split_once (scheme +:+ "://") url with
  | Some (a, b) => a +:+ scheme +:+ "://x-access-token@" +:+ b
  | None => url
  end.

Definition auth_url (url : string) : res string :=
  parts ← urlsplit url;
  Ok (if bool_decide (parts.1 ∈ ["http"; "https"]) && negb (contains "@" parts.2) then insert_user parts.1 url else url).

(** ** Cloning *)

Definition ASKPASS_BODY : string := "#!/bin/sh" +:+ nls +:+ bq "printf %s `$SR_GIT_TOKEN`" +:+ nls.

Section clone.
Context {W : Type}.
Context (uuid4 : ST W string) (mkstemp : ST W path).
Context (run_git : GitCall -> ST W GitResult) (is_oserror : exn -> bool).

Abbreviation M := (ST (Host W)).
Definition on_world {A} (m : ST W A) : M A := fun h =>
  let '(w, o) := m (ho_world h) in (mkHost w (ho_effects h), o).
Definition did (e : effect) : M unit := st_modify (fun h => mkHost (ho_world h) (ho_effects h ++ [e])).

Definition GIT_ARGV : list string :=
  ["git"; "-c"; "core.hooksPath=/dev/null"; "clone"; "--depth"; "1"; "--no-tags"; "--single-branch"].

(** The failure of a finished child *)
Definition clone_failure (token : string) (r : GitResult) : exn :=
  let err := strip (git_stderr r) in
  let low := lower err in
  if contains "authentication" low || contains "could not read" low || (returncode r =? 128)%Z then
    clone_error ("authentication required or repository not accessible"
                 +:+ (if truthy token then "" else " (set GITHUB_TOKEN for a private repo)"))
  else clone_error ("git clone failed: " +:+ ulast (Z.to_nat 300) err).

(** The helper that prints the token from the environment, when there is one; the
    variables of the child and the URL it is given *)
Definition prepare (url token : string) : M (option path * list (string * string) * string) :=
  if truthy token then
    askpass ← on_world mkstemp;
    _ ← did (wrote_temp (mkTemp askpass ASKPASS_BODY 448));
    clone_url ← st_lift (auth_url url);
    mret (Some askpass, [("GIT_TERMINAL_PROMPT", "0"); ("GIT_ASKPASS", path_str askpass); ("SR_GIT_TOKEN", token)], clone_url)
  else mret (None, [("GIT_TERMINAL_PROMPT", "0")], url).

(** [finally: if askpass: os.unlink(askpass)] *)
Definition cleanup (askpass : option path) : M unit :=
  match askpass with Some p => did (unlinked p) | None => mret tt end.

(** [subprocess.run]: only [OSError] is handled *)
Definition run_child (call : GitCall) (dest : path) (askpass : option path) : M GitResult := fun h =>
  let '(h, o) := (_ ← did (ran_git call); on_world (run_git call)) h in
  match o with
  | Ok r => (_ ← cleanup askpass; mret r) h
  | Raise e =>
      if is_oserror e then
        (_ ← did (removed_tree dest); _ ← cleanup askpass; st_lift (Raise (clone_error ("could not run git: " +:+ exn_msg e)))) h
      else (_ ← cleanup askpass; st_lift (Raise e)) h
  end.

Definition clone_repo (url : string) (dest_root : path) (token : string) : M path :=
  url ← st_lift (validate_repo_url url);
  _ ← did (made_dir dest_root);
  name ← on_world uuid4;
  let dest := path_join dest_root [name] in
  '(askpass, env, clone_url) ← prepare url token;
  r ← run_child (mkGit (GIT_ARGV ++ [clone_url; path_str dest]) env) dest askpass;
  if negb (returncode r =? 0)%Z then
    _ ← did (removed_tree dest);
    st_lift (Raise (clone_failure token r))
  else mret dest.
End clone.
End urls.

(** ** Sessions *)

Definition REPORT_BUDGET_CHARS : nat := Z.to_nat 12000.
Definition TRUNCATED : string := nls +:+ "…[report truncated]…".

Definition value_error (msg : string) : exn := Exn "ValueError" msg.

(** What the kernel's loop of a session is built from *)
Record Session := mkSession {
  se_session_id : string;
  se_project_id : string;
  se_audit_root : path;
  se_facts : option string;
}.

(** The server: the host, the chats the kernel's memory was given, the open sessions *)
Record Server (W : Type) := mkServer {
  sv_host : Host W;
  sv_saved : list (string * string);
  sv_sessions : list (string * Session);
}.
Arguments mkServer {W} _ _ _.
Arguments sv_host {W} _.
Arguments sv_saved {W} _.
Arguments sv_sessions {W} _.

Section sessions.
Context {W : Type}.
Context (netloc_ok : string -> res unit) (uuid4 : ST W string) (mkstemp : ST W path).
Context (run_git : GitCall -> ST W GitResult) (is_oserror : exn -> bool).
Context (disk : W -> FileSystem) (expanduser : path -> res path).
Context (agent_root workspaces_root : path) (git_token : string).
Context (new_session_id : ST W string) (provider_ready : ST W unit).

Abbreviation M := (ST (Server W)).
Definition on_host {A} (m : ST (Host W) A) : M A := fun s =>
  let '(h, o) := m (sv_host s) in (mkServer h (sv_saved s) (sv_sessions s), o).
Definition ask_disk {A} (f : FileSystem -> A) : M A := st_gets (fun s => f (disk (ho_world (sv_host s)))).

Definition inside_agent (p : path) : bool := bool_decide (p = agent_root) || in_parents agent_root p.

Definition budgeted (text : string) : string :=
  if REPORT_BUDGET_CHARS <? ulen text then utake REPORT_BUDGET_CHARS text +:+ TRUNCATED else text.

Definition read_report (audit_path : string) : M string :=
  p ← st_lift (expanduser (to_path audit_path));
  file ← ask_disk (fun fs => fs_is_file fs p);
  if negb (file : bool) then st_lift (Raise (value_error ("audit path is not an existing file: " +:+ audit_path)))
  else
    resolved ← ask_disk (fun fs => fs_resolve fs p);
    if inside_agent resolved then st_lift (Raise (value_error "audit file must be EXTERNAL, not inside the agent repo"))
    else
      text ← ask_disk (fun fs => fs_read fs resolved);
      text ← st_lift text;
      mret (budgeted text).

Definition given (o : option string) : bool := match o with Some s => truthy (strip s) | None => false end.

(** [except CloneError as e: raise ValueError(str(e))] *)
Definition as_value_error {A} (m : M A) : M A := fun s =>
  match m s with
  | (s', Raise e) => (s', Raise (if String.eqb (exn_class e) "CloneError" then value_error (exn_msg e) else e))
  | r => r
  end.

Definition fetch (repo_url : string) : M string :=
  url ← st_lift (validate_repo_url netloc_ok repo_url);
  workspace ← on_host (clone_repo netloc_ok uuid4 mkstemp run_git is_oserror url workspaces_root git_token);
  mret (path_str workspace).

Definition facts_of (report : string) : string := "AUDIT REPORT (reference only):" +:+ nls +:+ report.

Definition build_loop (sid pid : string) (audit_root : path) (report : option string) : M Session :=
  _ ← on_host (on_world provider_ready);
  mret (mkSession sid pid audit_root (facts_of <$> report)).

(** The directory that a target names *)
Definition scope (target : string) : M path :=
  p ← st_lift (expanduser (to_path target));
  dir ← ask_disk (fun fs => fs_is_dir fs p);
  if negb (dir : bool) then st_lift (Raise (value_error ("project path is not an existing directory: " +:+ target)))
  else
    audit_root ← ask_disk (fun fs => fs_resolve fs p);
    if inside_agent audit_root then
      st_lift (Raise (value_error "project path must be an EXTERNAL target, not the agent repo itself"))
    else mret audit_root.

(** The chat, its loop and the registered session, in this order *)
Definition open_session (project_id audit_path : option string) (audit_root : path) : M Session :=
  let pid := match project_id with Some (String _ _ as i) => i | _ => path_name audit_root end in
  sid ← on_host (on_world new_session_id);
  _ ← st_modify (fun s => mkServer (sv_host s) (sv_saved s ++ [(sid, pid)]) (sv_sessions s));
  report ← match audit_path with
           | Some (String _ _ as a) => r ← read_report a; mret (Some r)
           | _ => mret None
           end;
  loop ← build_loop sid pid audit_root report;
  _ ← st_modify (fun s => mkServer (sv_host s) (sv_saved s) (assoc_set sid loop (sv_sessions s)));
  mret loop.

Definition start (project_path project_id audit_path repo_url : option string) : M Session :=
  let has_url := given repo_url in
  if Bool.eqb (given project_path) has_url then
    st_lift (Raise (value_error "provide exactly one of a target path or a repository URL"))
  else
    target ← (if has_url then as_value_error (fetch (default "" repo_url)) else mret (default "" project_path));
    audit_root ← scope target;
    open_session project_id audit_path audit_root.

Definition get_session (sid : string) (s : Server W) : option Session := assoc sid (sv_sessions s).
End sessions.

(** ** The token stays silent *)

Section clone_proofs.
Context {W : Type}.
Context (netloc_ok : string -> res unit) (uuid4 : ST W string) (mkstemp : ST W path) (is_oserror : exn -> bool).

(** What is known when the child starts *)
Record prepared := mkPrepared { pre_argv : list string; pre_askpass : path; pre_dest : path }.

(** The child's call: its variables are the prompt's, the helper's and the token's *)
Definition call_with (p : prepared) (token : string) : GitCall :=
  mkGit (pre_argv p) [("GIT_TERMINAL_PROMPT", "0"); ("GIT_ASKPASS", path_str (pre_askpass p)); ("SR_GIT_TOKEN", token)].

(** What follows the child's answer *)
Definition after_child (p : prepared) (o : res GitResult) : list effect * res path :=
  match o with
  | Ok r =>
      if (returncode r =? 0)%Z then ([unlinked (pre_askpass p)], Ok (pre_dest p))
      else ([unlinked (pre_askpass p); removed_tree (pre_dest p)],
            let err := strip (git_stderr r) in
            Raise (clone_error (if contains "authentication" (lower err) || contains "could not read" (lower err) || (returncode r =? 128)%Z
                                then "authentication required or repository not accessible"
                                else "git clone failed: " +:+ ulast (Z.to_nat 300) err)))
  | Raise e =>
      if is_oserror e then ([removed_tree (pre_dest p); unlinked (pre_askpass p)], Raise (clone_error ("could not run git: " +:+ exn_msg e)))
      else ([unlinked (pre_askpass p)], Raise e)
  end.

Lemma clone_after p token (run_git : GitCall -> ST W GitResult) (h : Host W) :
  truthy token = true ->
  (r ← run_child run_git is_oserror (call_with p token) (pre_dest p) (Some (pre_askpass p));
   if negb (returncode r =? 0)%Z then _ ← did (removed_tree (pre_dest p)); st_lift (Raise (clone_failure token r)) else mret (pre_dest p)) h =
  let '(w, o) := run_git (call_with p token) (ho_world h) in
  (mkHost w (ho_effects h ++ [ran_git (call_with p token)] ++ (after_child p o).1), (after_child p o).2).
Proof.
  intros Ht. unfold run_child, did, on_world, cleanup, clone_failure, after_child, mbind, st_bind, st_modify, st_lift, mret, st_ret.
  cbn [ho_world ho_effects]. destruct (run_git (call_with p token) (ho_world h)) as [w [r|e]]; cbn [ho_world ho_effects fst snd].
  - rewrite Ht. cbn. destruct (returncode r =? 0)%Z; cbn; rewrite <- ?app_assoc; [done|]. cbn. do 2 f_equal. by destruct (_ || _ || _).
  - destruct (is_oserror e); cbn; by rewrite <- !app_assoc.
Qed.

(** What precedes the child, the same for every token *)
Definition before_child (url : string) (dest_root : path) : ST (Host W) prepared :=
  url ← st_lift (validate_repo_url netloc_ok url);
  _ ← did (made_dir dest_root);
  name ← on_world uuid4;
  askpass ← on_world mkstemp;
  _ ← did (wrote_temp (mkTemp askpass ASKPASS_BODY 448));
  clone_url ← st_lift (auth_url netloc_ok url);
  mret (mkPrepared (GIT_ARGV ++ [clone_url; path_str (path_join dest_root [name])]) askpass (path_join dest_root [name])).

Lemma st_bind_assoc {A B C} (m : ST (Host W) A) (f : A -> ST (Host W) B) (g : B -> ST (Host W) C) h :
  ((m ≫= f) ≫= g) h = (m ≫= fun a => f a ≫= g) h.
Proof. unfold mbind, st_bind. by destruct (m h) as [h' [a|e]]. Qed.

Lemma st_bind_ext {A B} (m : ST (Host W) A) (f g : A -> ST (Host W) B) h :
  (forall a h', f a h' = g a h') -> (m ≫= f) h = (m ≫= g) h.
Proof. intros Hfg. unfold mbind, st_bind. destruct (m h) as [h' [a|e]]; [apply Hfg|done]. Qed.

Lemma clone_before url dest_root token (run_git : GitCall -> ST W GitResult) h :
  truthy token = true ->
  clone_repo netloc_ok uuid4 mkstemp run_git is_oserror url dest_root token h =
  (p ← before_child url dest_root;
   r ← run_child run_git is_oserror (call_with p token) (pre_dest p) (Some (pre_askpass p));
   if negb (returncode r =? 0)%Z then _ ← did (removed_tree (pre_dest p)); st_lift (Raise (clone_failure token r)) else mret (pre_dest p)) h.
Proof.
  intros Ht. unfold clone_repo, before_child, prepare. rewrite Ht.
  do 3 (rewrite st_bind_assoc; apply st_bind_ext; intros). cbv zeta.
  do 3 (rewrite !st_bind_assoc; apply st_bind_ext; intros). done.
Qed.

(** C37. The token goes to the child's environment and nowhere else.  What precedes the
    child's start, its arguments with the URL and the destination, the helper's text and
    every effect and exception, is one and the same for every token, whichever child runs
    it; the child's call holds the token in the one variable; and what follows, the effects
    and the result or the message, is determined by the child's answer alone, so the token
    can show in a message only as far as the child itself wrote it to its error output. *)
Theorem clone_token_silent url dest_root (h : Host W) :
  exists (before : Host W * res prepared) (after : prepared -> res GitResult -> list effect * res path),
  forall (run_git : GitCall -> ST W GitResult) token, truthy token = true ->
    clone_repo netloc_ok uuid4 mkstemp run_git is_oserror url dest_root token h =
    match before with
    | (h', Raise e) => (h', Raise e)
    | (h', Ok p) =>
        let '(w, answer) := run_git (call_with p token) (ho_world h') in
        (mkHost w (ho_effects h' ++ [ran_git (call_with p token)] ++ (after p answer).1), (after p answer).2)
    end.
Proof.
  exists (before_child url dest_root h), after_child. intros run_git token Ht. rewrite clone_before by done.
  unfold mbind at 1, st_bind at 1. destruct (before_child url dest_root h) as [h' [p|e]]; [by apply clone_after|done].
Qed.
End clone_proofs.

(** Two private hosts: a child that succeeds, whatever its token *)
Definition names : ST nat string := fun n => (S n, Ok ("w" +:+ pretty n)).
Definition temps : ST nat path := p ← names; mret ["/"; "tmp"; p].
Definition git_ok (_ : GitCall) : ST nat GitResult := mret (mkGitResult 0 "").
Definition any_host (_ : string) : res unit := Ok tt.

Lemma clone_token_silent_witness :
  let cloned token := clone_repo any_host names temps git_ok (fun _ => false) "https://git.example/a.git" ["/"; "ws"] token (mkHost 0 []) in
  (cloned "hunter2").2 = Ok ["/"; "ws"; "w0"] /\ (cloned "other").2 = (cloned "hunter2").2.
Proof.
  cbv zeta. split; [vm_compute; reflexivity|].
  destruct (clone_token_silent any_host names temps (fun _ => false) "https://git.example/a.git" ["/"; "ws"] (mkHost 0 [])) as (before & after & H).
  rewrite (H git_ok "hunter2" eq_refl), (H git_ok "other" eq_refl). destruct before as [h' [p|e]]; reflexivity.
Defined.

(** The call that clone makes, as git sees it *)
Example clone_call :
  (clone_repo any_host names temps git_ok (fun _ => false) "https://git.example/a.git" ["/"; "ws"] "hunter2" (mkHost 0 [])).1
  = mkHost 2 [made_dir ["/"; "ws"]; wrote_temp (mkTemp ["/"; "tmp"; "w1"] ASKPASS_BODY 448);
      ran_git (mkGit ["git"; "-c"; "core.hooksPath=/dev/null"; "clone"; "--depth"; "1"; "--no-tags"; "--single-branch";
                      "https://x-access-token@git.example/a.git"; "/ws/w0"]
                     [("GIT_TERMINAL_PROMPT", "0"); ("GIT_ASKPASS", "/tmp/w1"); ("SR_GIT_TOKEN", "hunter2")]);
      unlinked ["/"; "tmp"; "w1"]].
Proof. vm_compute. reflexivity. Qed.

(** A scheme in capitals is accepted, and keeps its URL without a user: git asks the
    helper, which knows only the token, for the user's name too *)
Lemma upper_scheme_keeps_url :
  validate_repo_url any_host "HTTPS://git.example/a" = Ok "HTTPS://git.example/a" /\
  auth_url any_host "HTTPS://git.example/a" = Ok "HTTPS://git.example/a".
Proof. by vm_compute. Qed.

(** A local file or an ssh form is refused *)
Example local_refused :
  map (fun u => match validate_repo_url any_host u with Ok _ => true | Raise e => false end)
    ["file:///etc/passwd"; "/etc"; "git@host:a/b"; "ssh://host/a"; "https:///a"; ""; "https://host/a"]
  = [false; false; false; false; false; false; true].
Proof. by vm_compute. Qed.

(** ** What a session is scoped to *)

Section session_proofs.
Context {W : Type}.
Context (netloc_ok : string -> res unit) (uuid4 : ST W string) (mkstemp : ST W path).
Context (run_git : GitCall -> ST W GitResult) (is_oserror : exn -> bool).
Context (disk : W -> FileSystem) (expanduser : path -> res path).
Context (agent_root workspaces_root : path) (git_token : string).
Context (new_session_id : ST W string) (provider_ready : ST W unit).

Abbreviation M := (ST (Server W)).
Abbreviation start := (start netloc_ok uuid4 mkstemp run_git is_oserror disk expanduser agent_root workspaces_root git_token new_session_id provider_ready).
Abbreviation read_report := (read_report disk expanduser agent_root).
Abbreviation fetch := (fetch netloc_ok uuid4 mkstemp run_git is_oserror workspaces_root git_token).
Abbreviation build_loop := (build_loop provider_ready).
Abbreviation scope := (scope disk expanduser agent_root).
Abbreviation open_session := (open_session disk expanduser agent_root new_session_id provider_ready).

(** A step that neither opens a session nor saves a chat *)
Definition quiet {A} (m : M A) : Prop := forall s s' o, m s = (s', o) -> sv_sessions s' = sv_sessions s /\ sv_saved s' = sv_saved s.

Lemma quiet_bind {A B} (m : M A) (f : A -> M B) : quiet m -> (forall a, quiet (f a)) -> quiet (m ≫= f).
Proof.
  intros Hm Hf s s' o [(s1 & a & H1 & H2)|(e & H1 & ->)]%st_bind_inv; [|by eapply Hm].
  destruct (Hm _ _ _ H1) as [<- <-]. by eapply Hf.
Qed.

Lemma quiet_lift {A} (r : res A) : quiet (st_lift r).
Proof. by intros s s' o [= <- <-]. Qed.

Lemma quiet_ret {A} (a : A) : quiet (mret a).
Proof. by intros s s' o [= <- <-]. Qed.

Lemma quiet_disk {A} (f : FileSystem -> A) : quiet (ask_disk disk f).
Proof. by intros s s' o [= <- <-]. Qed.

Lemma quiet_host {A} (m : ST (Host W) A) : quiet (on_host m).
Proof. intros s s' o. unfold on_host. destruct (m (sv_host s)) as [h r]. by intros [= <- <-]. Qed.

Lemma quiet_as_value_error {A} (m : M A) : quiet m -> quiet (as_value_error m).
Proof.
  intros Hm s s' o. unfold as_value_error. destruct (m s) as [s1 r] eqn:E. destruct (Hm _ _ _ E).
  destruct r; by intros [= <- <-].
Qed.

#[local] Create HintDb quiet.
#[local] Hint Resolve quiet_lift quiet_ret quiet_disk quiet_host quiet_as_value_error : quiet.

(** Steps that are quiet one by one are quiet in sequence *)
Ltac quiet_steps := repeat first [solve [auto with quiet] | apply quiet_bind; [|intros ?] | case_match].

Lemma quiet_fetch url : quiet (fetch url).
Proof. unfold Operator.fetch. quiet_steps. Qed.

Lemma quiet_report a : quiet (read_report a).
Proof. unfold Operator.read_report. quiet_steps. Qed.

Lemma quiet_build sid pid root r : quiet (build_loop sid pid root r).
Proof. unfold Operator.build_loop. quiet_steps. Qed.
#[local] Hint Resolve quiet_fetch quiet_report quiet_build : quiet.

Lemma ulen_budgeted text : ulen (budgeted text) <= REPORT_BUDGET_CHARS + ulen TRUNCATED.
Proof.
  unfold budgeted. destruct (REPORT_BUDGET_CHARS <? ulen text) eqn:E; [rewrite ulen_app|].
  - pose proof (ulen_utake REPORT_BUDGET_CHARS text). lia.
  - apply Nat.ltb_ge in E. lia.
Qed.

Lemma report_budget a s s' r : read_report a s = (s', Ok r) -> ulen r <= REPORT_BUDGET_CHARS + ulen TRUNCATED.
Proof.
  unfold Operator.read_report. intros [(s1 & p & _ & H)|(e & _ & [=])]%st_bind_inv.
  apply st_bind_inv in H as [(s2 & f & _ & H)|(e & _ & [=])]. destruct f; [|done]. cbn [negb] in H.
  apply st_bind_inv in H as [(s3 & rp & _ & H)|(e & _ & [=])]. destruct (inside_agent agent_root rp); [done|].
  apply st_bind_inv in H as [(s4 & t & _ & H)|(e & _ & [=])]. apply st_bind_inv in H as [(s5 & t' & _ & H)|(e & _ & [=])].
  injection H as <- <-. apply ulen_budgeted.
Qed.

(** What is cloned is a fresh directory directly under the workspaces *)
Lemma fetch_workspace url s s' t :
  fetch url s = (s', Ok t) -> exists name, t = path_str (path_join workspaces_root [name]).
Proof.
  unfold Operator.fetch. intros [(s1 & u & _ & H)|(e & _ & [=])]%st_bind_inv.
  apply st_bind_inv in H as [(s2 & ws & H & [= <- <-])|(e & _ & [=])]. revert H. unfold on_host.
  destruct (clone_repo _ _ _ _ _ _ _ _ _) as [h [d|e]] eqn:E; [|done]. intros [= <- <-]. revert E. unfold clone_repo.
  intros [(h1 & u' & _ & E)|(e & _ & [=])]%st_bind_inv. apply st_bind_inv in E as [(h2 & [] & _ & E)|(e & _ & [=])].
  apply st_bind_inv in E as [(h3 & name & _ & E)|(e & _ & [=])]. exists name. cbv zeta in E.
  apply st_bind_inv in E as [(h4 & [[askpass env] cu] & _ & E)|(e & _ & [=])].
  apply st_bind_inv in E as [(h5 & r & _ & E)|(e & _ & [=])]. destruct (negb (returncode r =? 0)%Z).
  - apply st_bind_inv in E as [(h6 & ? & _ & [=])|(e & _ & [=])].
  - by injection E as <- <-.
Qed.

(** The target of a request: the given path, or the workspace of the given repository *)
Definition target_of (project_path repo_url : option string) (target : string) : Prop :=
  if given repo_url then given project_path = false /\ exists name, target = path_str (path_join workspaces_root [name])
  else given project_path = true /\ project_path = Some target.

(** A directory, resolved, that is neither the agent's repository nor below it *)
Definition external_dir (target : string) (audit_root : path) : Prop :=
  exists p w, expanduser (to_path target) = Ok p /\ fs_is_dir (disk w) p = true /\
    audit_root = fs_resolve (disk w) p /\ audit_root <> agent_root /\ in_parents agent_root audit_root = false.

Lemma not_inside p : inside_agent agent_root p = false -> p <> agent_root /\ in_parents agent_root p = false.
Proof. unfold inside_agent. intros [H1 H2]%orb_false_iff. by apply bool_decide_eq_false in H1. Qed.

Lemma scope_external target s s' r : scope target s = (s', Ok r) -> external_dir target r.
Proof.
  unfold Operator.scope. intros [(s1 & p & H1 & H)|(e & _ & [=])]%st_bind_inv. injection H1 as <- Hp.
  apply st_bind_inv in H as [(s2 & d & H2 & H)|(e & _ & [=])]. injection H2 as <- <-.
  destruct (fs_is_dir _ p) eqn:Hd; [|done]. cbn [negb] in H.
  apply st_bind_inv in H as [(s3 & rr & H3 & H)|(e & _ & [=])]. injection H3 as <- <-.
  destruct (inside_agent agent_root _) eqn:Hi; [done|]. injection H as _ <-.
  exists p, (ho_world (sv_host s)). by destruct (not_inside _ Hi).
Qed.

Lemma quiet_scope target : quiet (scope target).
Proof. unfold Operator.scope. quiet_steps. Qed.
#[local] Hint Resolve quiet_scope : quiet.

Definition opened (root : path) (audit_path : option string) (s s' : Server W) (se : Session) : Prop :=
  se_audit_root se = root /\
  sv_sessions s' = assoc_set (se_session_id se) se (sv_sessions s) /\
  sv_saved s' = sv_saved s ++ [(se_session_id se, se_project_id se)] /\
  match se_facts se with
  | None => audit_path = None \/ audit_path = Some ""
  | Some facts => exists report, facts = facts_of report /\ ulen report <= REPORT_BUDGET_CHARS + ulen TRUNCATED
  end.

Lemma build_loop_made sid pid root r s s' se :
  build_loop sid pid root r s = (s', Ok se) -> se = mkSession sid pid root (facts_of <$> r).
Proof. unfold Operator.build_loop. intros [(s1 & [] & _ & H)|(e & _ & [=])]%st_bind_inv. by injection H as _ <-. Qed.

(** The report, when there is one to read, within its budget *)
Definition report_read (audit_path report : option string) : Prop :=
  match report with
  | None => audit_path = None \/ audit_path = Some ""
  | Some r => ulen r <= REPORT_BUDGET_CHARS + ulen TRUNCATED
  end.

Lemma optional_report audit_path s s' o :
  (match audit_path with Some (String _ _ as a) => r ← read_report a; mret (Some r) | _ => mret None end) s = (s', o) ->
  (sv_sessions s' = sv_sessions s /\ sv_saved s' = sv_saved s) /\
  match o with Ok report => report_read audit_path report | Raise _ => True end.
Proof.
  destruct audit_path as [[|c a]|]; [intros [= <- <-]; cbn; auto| |intros [= <- <-]; cbn; auto].
  intros [(s1 & r & H1 & H)|(e & H1 & ->)]%st_bind_inv; split; try by eapply quiet_report.
  - injection H as <- _. by eapply quiet_report.
  - injection H as _ <-. by eapply report_budget.
  - done.
Qed.

Lemma open_session_opens project_id audit_path root s s' o :
  open_session project_id audit_path root s = (s', o) ->
  match o with Raise _ => sv_sessions s' = sv_sessions s | Ok se => opened root audit_path s s' se end.
Proof.
  unfold Operator.open_session. cbv zeta. intros [(s1 & sid & H1 & H)|(e & H1 & ->)]%st_bind_inv; [|by eapply quiet_host].
  destruct (quiet_host _ _ _ _ H1) as [Hse Hsa].
  apply st_bind_inv in H as [(s2 & [] & [= <-] & H)|(e & [=] & ->)].
  apply st_bind_inv in H as [(s3 & report & H3 & H)|(e & H3 & ->)]; destruct (optional_report _ _ _ _ H3) as [[Hse3 Hsa3] Hr];
    cbn in Hse3, Hsa3; [|congruence].
  apply st_bind_inv in H as [(s4 & loop & H4 & H)|(e & H4 & ->)]; destruct (quiet_build _ _ _ _ _ _ _ H4) as [Hse4 Hsa4]; [|congruence].
  apply build_loop_made in H4 as ->.
  apply st_bind_inv in H as [(s5 & [] & [= <-] & [= <- <-])|(e & [=] & ->)]. unfold opened. cbn.
  split_and!; [done|congruence|congruence|]. destruct report; cbn; eauto.
Qed.

Lemma start_opens project_path project_id audit_path repo_url s s' o :
  start project_path project_id audit_path repo_url s = (s', o) ->
  match o with
  | Raise _ => sv_sessions s' = sv_sessions s
  | Ok se => (exists target, target_of project_path repo_url target /\ external_dir target (se_audit_root se)) /\
      opened (se_audit_root se) audit_path s s' se
  end.
Proof.
  unfold Operator.start. cbv zeta. destruct (Bool.eqb (given project_path) (given repo_url)) eqn:Hg; [by intros [= <- <-]|].
  apply eqb_false_iff in Hg.
  intros [(s1 & target & H1 & H)|(e & H1 & ->)]%st_bind_inv.
  2:{ destruct (given repo_url); [eapply quiet_as_value_error; [|exact H1]; apply quiet_fetch|done]. }
  assert (sv_sessions s1 = sv_sessions s /\ sv_saved s1 = sv_saved s) as [Hse1 Hsa1].
  { destruct (given repo_url); [eapply quiet_as_value_error; [|exact H1]; apply quiet_fetch|by eapply quiet_ret]. }
  assert (target_of project_path repo_url target) as Ht.
  { unfold target_of. destruct (given repo_url), (given project_path) eqn:Hp; try done; split; try done.
    - revert H1. unfold as_value_error. destruct (fetch _ s) as [s2 [t|e]] eqn:E; [|done]. intros [= _ <-]. by eapply fetch_workspace.
    - injection H1 as _ <-. by destruct project_path. }
  apply st_bind_inv in H as [(s2 & root & H2 & H)|(e & H2 & ->)]; destruct (quiet_scope _ _ _ _ H2) as [Hse2 Hsa2]; [|congruence].
  apply open_session_opens in H. destruct o as [se|e]; [|congruence]. destruct H as (Hroot & Hs & Hsv & Hf).
  rewrite Hse2, Hse1 in Hs. rewrite Hsa2, Hsa1 in Hsv. rewrite Hroot.
  split; [|done]. exists target. split; [done|]. by eapply scope_external.
Qed.

(** C31. A session is only ever scoped to an existing external directory: [start] opens one
    session, for exactly one of a path and a repository, rooted at the resolution of an
    existing directory outside the agent's repository, with at most the report's budget
    of grounding; a request that raises opens none. *)
Theorem start_external project_path project_id audit_path repo_url s s' o :
  start project_path project_id audit_path repo_url s = (s', o) ->
  match o with
  | Raise _ => sv_sessions s' = sv_sessions s
  | Ok se =>
      (exists target, target_of project_path repo_url target /\ external_dir target (se_audit_root se)) /\
      get_session (se_session_id se) s' = Some se /\
      sv_sessions s' = assoc_set (se_session_id se) se (sv_sessions s) /\
      sv_saved s' = sv_saved s ++ [(se_session_id se, se_project_id se)] /\
      match se_facts se with
      | None => audit_path = None \/ audit_path = Some ""
      | Some facts => exists report, facts = facts_of report /\ ulen report <= REPORT_BUDGET_CHARS + ulen TRUNCATED
      end
  end.
Proof.
  intros H%start_opens. destruct o as [se|e]; [|done]. destruct H as [Ht (_ & Hs & Hsv & Hf)].
  split_and!; try done. unfold get_session. by rewrite Hs, assoc_set_eq.
Qed.
End session_proofs.

(** A host whose one directory is [/t] with a report beside it, and an agent in [/agent] *)
Definition demo_disk (_ : nat) : FileSystem := {|
  fs_resolve p := p;
  fs_resolve_error _ := None;
  fs_exists _ := true;
  fs_is_file p := bool_decide (p ∈ [["/"; "r.md"]; ["/"; "agent"; "r.md"]]);
  fs_is_dir p := bool_decide (p ∈ [["/"]; ["/"; "t"]; ["/"; "agent"; "src"]]);
  fs_read _ := Ok "the report";
  fs_rglob _ := [];
  fs_rglob_sol _ := [];
|}.
Definition demo_start (project_path audit_path : option string) : Server nat * res Session :=
  start any_host names temps git_ok (fun _ => false) demo_disk Ok ["/"; "agent"] ["/"; "ws"] "" names (mret tt)
    project_path None audit_path None (mkServer (mkHost 0 []) [] []).

Lemma start_external_witness :
  (exists target, target_of ["/"; "ws"] (Some "/t") None target /\ external_dir demo_disk Ok ["/"; "agent"] target ["/"; "t"]) /\
  get_session "w0" (demo_start (Some "/t") (Some "/r.md")).1 =
    Some (mkSession "w0" "t" ["/"; "t"] (Some ("AUDIT REPORT (reference only):" +:+ nls +:+ "the report"))).
Proof.
  destruct (start_external any_host names temps git_ok (fun _ => false) demo_disk Ok ["/"; "agent"] ["/"; "ws"] "" names (mret tt)
    (Some "/t") None (Some "/r.md") None (mkServer (mkHost 0 []) [] [])
    (demo_start (Some "/t") (Some "/r.md")).1
    (Ok (mkSession "w0" "t" ["/"; "t"] (Some ("AUDIT REPORT (reference only):" +:+ nls +:+ "the report")))))
    as (H1 & H2 & _); [vm_compute; reflexivity|]. by split.
Defined.

(** A target below the agent's repository is refused; one that contains it is not *)
Lemma ancestor_of_agent_accepted :
  (exists e, (demo_start (Some "/agent/src") None).2 = Raise e) /\
  (demo_start (Some "/") None).2 = Ok (mkSession "w0" "" ["/"] None) /\ in_parents ["/"] ["/"; "agent"] = true.
Proof. split_and!; [eexists|..]; vm_compute; reflexivity. Qed.

(** The chat is saved before the report is read: a refused report leaves it behind *)
Lemma failed_report_leaves_saved_chat :
  (demo_start (Some "/t") (Some "/agent/r.md")).2
    = Raise (value_error "audit file must be EXTERNAL, not inside the agent repo") /\
  sv_saved (demo_start (Some "/t") (Some "/agent/r.md")).1 = [("w0", "t")] /\
  sv_sessions (demo_start (Some "/t") (Some "/agent/r.md")).1 = [].
Proof. by vm_compute. Qed.
