(* ===== verification/Events.v ===== *)
(** * The event bus (frontend/backend/events.py)

    The bus as a state machine: subscriber sets are objects with an identity, since a
    fan-out that waits on the event loop holds the set it found when it was published,
    not the session's name.  The event loop runs the callbacks it was handed in order;
    when it runs them is free, so an execution is any sequence of [action]s. *)

From stdpp Require Import gmap sets.
From S2P Require Import Prelude PyStr.

(** [asyncio.Queue(maxsize=1000)] *)
Definition MAXSIZE : nat := Z.to_nat 1000.

(** The server's loop: not bound, bound and running, bound and closed *)
Inductive Loop := Unbound | Running | Closed.
#[export] Instance Loop_eq_dec : EqDecision Loop.
Proof. solve_decision. Defined.

Section bus.
Context {Ev : Type}.

(** [_SUBS] maps a session to the identity of its set; [b_pending] are the callbacks
    handed to the loop, each with the set it captured and its event *)
Record Bus := mkBus {
  b_subs : gmap string nat;
  b_sets : gmap nat (gset nat);
  b_queues : gmap nat (list Ev);
  b_loop : Loop;
  b_pending : list (nat * Ev);
  b_next_set : nat;
  b_next_queue : nat;
}.

Definition empty_bus : Bus := mkBus ∅ ∅ ∅ Unbound [] 0 0.

Definition bind_loop (s : Bus) : Bus :=
  mkBus (b_subs s) (b_sets s) (b_queues s) Running (b_pending s) (b_next_set s) (b_next_queue s).

(** [_SUBS[session_id]] of a [defaultdict(set)]: a missing session gets a new empty set *)
Definition subs_of (sid : string) (s : Bus) : Bus * nat :=
  match b_subs s !! sid with
  | Some r => (s, r)
  | None =>
      let r := b_next_set s in
      (mkBus (<[sid := r]> (b_subs s)) (<[r := ∅]> (b_sets s)) (b_queues s) (b_loop s) (b_pending s) (S r) (b_next_queue s), r)
  end.

Definition members (r : nat) (s : Bus) : gset nat := default ∅ (b_sets s !! r).
Definition set_members (r : nat) (x : gset nat) (s : Bus) : Bus :=
  mkBus (b_subs s) (<[r := x]> (b_sets s)) (b_queues s) (b_loop s) (b_pending s) (b_next_set s) (b_next_queue s).
Definition queue (q : nat) (s : Bus) : list Ev := default [] (b_queues s !! q).
Definition set_queues (m : gmap nat (list Ev)) (s : Bus) : Bus :=
  mkBus (b_subs s) (b_sets s) m (b_loop s) (b_pending s) (b_next_set s) (b_next_queue s).
Definition set_pending (l : list (nat * Ev)) (s : Bus) : Bus :=
  mkBus (b_subs s) (b_sets s) (b_queues s) (b_loop s) l (b_next_set s) (b_next_queue s).
Definition set_subs (m : gmap string nat) (s : Bus) : Bus :=
  mkBus m (b_sets s) (b_queues s) (b_loop s) (b_pending s) (b_next_set s) (b_next_queue s).

(** A new queue *)
Definition new_queue (s : Bus) : Bus * nat :=
  let q := b_next_queue s in
  (mkBus (b_subs s) (b_sets s) (<[q := []]> (b_queues s)) (b_loop s) (b_pending s) (b_next_set s) (S q), q).

Definition subscribe (sid : string) (s : Bus) : Bus * nat :=
  let '(s, q) := new_queue s in
  let '(s, r) := subs_of sid s in
  (set_members r ({[q]} ∪ members r s) s, q).

Definition unsubscribe (sid : string) (q : nat) (s : Bus) : Bus :=
  let '(s, r) := subs_of sid s in
  let s := set_members r (members r s ∖ {[q]}) s in
  if bool_decide (members r s = ∅) then set_subs (delete sid (b_subs s)) s else s.

(** Nothing happens without a registered set, for an empty one, without a loop and on a
    closed loop, whose [RuntimeError] is swallowed *)
Definition publish (sid : string) (ev : Ev) (s : Bus) : Bus :=
  match b_subs s !! sid with
  | None => s
  | Some r =>
      if bool_decide (members r s = ∅) || bool_decide (b_loop s = Unbound) then s
      else match b_loop s with
           | Running => set_pending (b_pending s ++ [(r, ev)]) s
           | _ => s
           end
  end.

(** [put_nowait] on a queue, [QueueFull] swallowed *)
Definition put_nowait (ev : Ev) (l : list Ev) : list Ev := if length l <? MAXSIZE then l ++ [ev] else l.

(** [for q in list(subs)] *)
Definition fan (ev : Ev) (qs : list nat) (m : gmap nat (list Ev)) : gmap nat (list Ev) :=
  foldl (fun m q => alter (put_nowait ev) q m) m qs.

(** The loop runs its next callback *)
Definition run_callback (s : Bus) : Bus :=
  match b_pending s, b_loop s with
  | (r, ev) :: rest, Running => set_queues (fan ev (elements (members r s)) (b_queues s)) (set_pending rest s)
  | _, _ => s
  end.

(** [await q.get()], when it returns *)
Definition get (q : nat) (s : Bus) : Bus * option Ev :=
  match queue q s with
  | ev :: rest => (set_queues (<[q := rest]> (b_queues s)) s, Some ev)
  | [] => (s, None)
  end.

(** The loop is closed: what waits on it never runs *)
Definition close_loop (s : Bus) : Bus :=
  match b_loop s with
  | Unbound => s
  | _ => mkBus (b_subs s) (b_sets s) (b_queues s) Closed [] (b_next_set s) (b_next_queue s)
  end.

(** ** Executions *)

Inductive action :=
  | ABind
  | ASubscribe (sid : string)
  | AUnsubscribe (sid : string) (q : nat)
  | APublish (sid : string) (ev : Ev)
  | ARun
  | AGet (q : nat)
  | AClose.

Definition act (a : action) (s : Bus) : Bus :=
  match a with
  | ABind => bind_loop s
  | ASubscribe sid => (subscribe sid s).1
  | AUnsubscribe sid q => unsubscribe sid q s
  | APublish sid ev => publish sid ev s
  | ARun => run_callback s
  | AGet q => (get q s).1
  | AClose => close_loop s
  end.

(** What an observer of the whole execution remembers: the session each queue was
    subscribed to and each set was made for, what each queue's reader took, and what was
    published to each session *)
Record History := mkHistory {
  h_queue : gmap nat string;
  h_set : gmap nat string;
  h_got : gmap nat (list Ev);
  h_published : gmap string (list Ev);
}.
Definition empty_history : History := mkHistory ∅ ∅ ∅ ∅.
Definition got (q : nat) (h : History) : list Ev := default [] (h_got h !! q).
Definition published (sid : string) (h : History) : list Ev := default [] (h_published h !! sid).

(** A set made by [subs_of] *)
Definition note_set (sid : string) (s : Bus) (m : gmap nat string) : gmap nat string :=
  match b_subs s !! sid with Some _ => m | None => <[b_next_set s := sid]> m end.

Definition note (a : action) (s : Bus) (h : History) : History :=
  match a with
  | ASubscribe sid =>
      mkHistory (<[b_next_queue s := sid]> (h_queue h)) (note_set sid s (h_set h)) (h_got h) (h_published h)
  | AUnsubscribe sid _ => mkHistory (h_queue h) (note_set sid s (h_set h)) (h_got h) (h_published h)
  | APublish sid ev => mkHistory (h_queue h) (h_set h) (h_got h) (<[sid := published sid h ++ [ev]]> (h_published h))
  | AGet q =>
      match (get q s).2 with
      | Some ev => mkHistory (h_queue h) (h_set h) (<[q := got q h ++ [ev]]> (h_got h)) (h_published h)
      | None => h
      end
  | _ => h
  end.

Inductive bus_reachable : Bus -> History -> Prop :=
  | reach_start : bus_reachable empty_bus empty_history
  | reach_step a s h : bus_reachable s h -> bus_reachable (act a s) (note a s h).
End bus.
Arguments Bus _ : clear implicits.
Arguments action _ : clear implicits.
Arguments History _ : clear implicits.

(** ** What every execution keeps *)

Section bus_proofs.
Context {Ev : Type}.
Implicit Types (s : Bus Ev) (h : History Ev) (ev : Ev).

(** The events on their way to a session, in order *)
Definition event_for (sets : gmap nat string) (sid : string) (c : nat * Ev) : option Ev :=
  if bool_decide (sets !! c.1 = Some sid) then Some c.2 else None.
Definition on_the_way s h sid : list Ev := omap (event_for (h_set h) sid) (b_pending s).

Record inv s h : Prop := {
  i_queue q sid : h_queue h !! q = Some sid -> q < b_next_queue s;
  i_known q l : b_queues s !! q = Some l -> is_Some (h_queue h !! q);
  i_set r sid : h_set h !! r = Some sid -> r < b_next_set s;
  i_subs sid r : b_subs s !! sid = Some r -> h_set h !! r = Some sid;
  i_members q r : q ∈ members r s -> exists sid, h_queue h !! q = Some sid /\ h_set h !! r = Some sid;
  i_pending c : (c : nat * Ev) ∈ b_pending s -> is_Some (h_set h !! c.1);
  i_length q : length (queue q s) <= MAXSIZE;
  i_strange q : h_queue h !! q = None -> got q h = [];
  i_way sid : sublist (on_the_way s h sid) (published sid h);
  i_order q sid : h_queue h !! q = Some sid -> sublist (got q h ++ queue q s ++ on_the_way s h sid) (published sid h);
}.

(** Every registered set has a member *)
Definition no_empty_set s : Prop := forall sid r, b_subs s !! sid = Some r -> members r s <> ∅.

Lemma members_set_members r r' x s : members r' (set_members r x s) = if decide (r = r') then x else members r' s.
Proof. unfold members, set_members. cbn. case_decide as E; [subst; by rewrite lookup_insert_eq|by rewrite lookup_insert_ne]. Qed.

Lemma inv_start : inv empty_bus empty_history.
Proof.
  split; intros *; try done.
  - intros Hc. by apply elem_of_nil in Hc.
  - apply Nat.le_0_l.
Qed.

Lemma inv_new_queue sid s h :
  inv s h -> inv (new_queue s).1 (mkHistory (<[b_next_queue s := sid]> (h_queue h)) (h_set h) (h_got h) (h_published h)).
Proof.
  intros I. assert (h_queue h !! b_next_queue s = None) as Hn.
  { destruct (h_queue h !! b_next_queue s) eqn:E; [|done]. apply (i_queue _ _ I) in E. lia. }
  assert (b_queues s !! b_next_queue s = None) as Hq.
  { destruct (b_queues s !! b_next_queue s) eqn:E; [|done]. apply (i_known _ _ I) in E as [? E]. congruence. }
  split; cbn.
  - intros q sid' [[-> _]|[_ H%(i_queue _ _ I)]]%lookup_insert_Some; lia.
  - intros q l [[<- _]|[Hne H]]%lookup_insert_Some; [by rewrite lookup_insert_eq|rewrite lookup_insert_ne by done]. by eapply i_known.
  - apply (i_set _ _ I).
  - apply (i_subs _ _ I).
  - intros q r H%(i_members _ _ I). destruct H as (sid' & H1 & H2). exists sid'. split; [|done].
    rewrite lookup_insert_ne; [done|]. intros <-. congruence.
  - apply (i_pending _ _ I).
  - intros q. pose proof (i_length _ _ I q) as H. revert H. unfold queue. cbn.
    destruct (decide (b_next_queue s = q)) as [<-|Hne]; [rewrite lookup_insert_eq; cbn; lia|by rewrite lookup_insert_ne].
  - intros q. destruct (decide (b_next_queue s = q)) as [<-|Hne]; [by rewrite lookup_insert_eq|].
    rewrite lookup_insert_ne by done. apply (i_strange _ _ I).
  - intros sid'. apply (i_way _ _ I).
  - intros q sid'. unfold queue, got. cbn. destruct (decide (b_next_queue s = q)) as [<-|Hne].
    + rewrite !lookup_insert_eq. intros [= <-]. cbn. fold (got (b_next_queue s) h).
      rewrite (i_strange _ _ I) by done. apply (i_way _ _ I).
    + rewrite !lookup_insert_ne by done. apply (i_order _ _ I).
Qed.

Lemma members_fresh s h r : inv s h -> b_next_set s <= r -> members r s = ∅.
Proof.
  intros I Hr. apply set_eq. intros q. split; [|set_solver]. intros H%(i_members _ _ I).
  destruct H as (sid & _ & H%(i_set _ _ I)). lia.
Qed.

Lemma members_subs_of sid s h r : inv s h -> members r (subs_of sid s).1 = members r s.
Proof.
  intros I. unfold subs_of. destruct (b_subs s !! sid); [done|]. unfold members. cbn.
  destruct (decide (b_next_set s = r)) as [<-|Hne]; [|by rewrite lookup_insert_ne].
  rewrite lookup_insert_eq. cbn. symmetry. by eapply members_fresh.
Qed.

Lemma inv_subs_of sid s h :
  inv s h -> inv (subs_of sid s).1 (mkHistory (h_queue h) (note_set sid s (h_set h)) (h_got h) (h_published h)).
Proof.
  intros I. assert (forall r, members r (subs_of sid s).1 = members r s) as Hmem by (intros; by eapply members_subs_of).
  revert Hmem. unfold subs_of, note_set. destruct (b_subs s !! sid) as [r0|] eqn:Hs; [intros _; by destruct h|]. cbn [fst]. intros Hmem.
  assert (h_set h !! b_next_set s = None) as Hn.
  { destruct (h_set h !! b_next_set s) eqn:E; [|done]. apply (i_set _ _ I) in E. lia. }
  assert (forall sid', on_the_way (mkBus (<[sid := b_next_set s]> (b_subs s)) (<[b_next_set s := ∅]> (b_sets s)) (b_queues s) (b_loop s)
      (b_pending s) (S (b_next_set s)) (b_next_queue s))
      (mkHistory (h_queue h) (<[b_next_set s := sid]> (h_set h)) (h_got h) (h_published h)) sid' = on_the_way s h sid') as Hway.
  { intros sid'. unfold on_the_way. cbn [b_pending h_set]. apply list_omap_ext, Forall_Forall2_diag, Forall_forall. intros c Hc.
    unfold event_for. rewrite lookup_insert_ne; [done|]. intros E. apply (i_pending _ _ I) in Hc as [? Hc]. congruence. }
  split; cbn [h_queue h_set b_next_queue b_next_set b_queues b_subs b_pending].
  - apply (i_queue _ _ I).
  - apply (i_known _ _ I).
  - intros r sid' [[-> _]|[_ H%(i_set _ _ I)]]%lookup_insert_Some; lia.
  - intros sid' r [[<- <-]|[Hne H]]%lookup_insert_Some; [by rewrite lookup_insert_eq|].
    apply (i_subs _ _ I) in H. rewrite lookup_insert_ne; [done|]. intros <-. congruence.
  - intros q r. rewrite Hmem. intros H%(i_members _ _ I). destruct H as (sid' & H1 & H2). exists sid'. split; [done|].
    rewrite lookup_insert_ne; [done|]. intros <-. congruence.
  - intros c Hc%(i_pending _ _ I). destruct (decide (b_next_set s = c.1)) as [<-|?]; [by rewrite lookup_insert_eq|by rewrite lookup_insert_ne].
  - apply (i_length _ _ I).
  - apply (i_strange _ _ I).
  - intros sid'. rewrite Hway. apply (i_way _ _ I).
  - intros q sid'. rewrite Hway. apply (i_order _ _ I).
Qed.
Lemma inv_set_members r x s h :
  inv s h -> (forall q, q ∈ x -> exists sid, h_queue h !! q = Some sid /\ h_set h !! r = Some sid) -> inv (set_members r x s) h.
Proof.
  intros I Hx. split; try apply I.
  intros q r'. rewrite members_set_members. case_decide as E; [subst; apply Hx|apply (i_members _ _ I)].
Qed.

Lemma inv_set_subs m s h : inv s h -> m ⊆ b_subs s -> inv (set_subs m s) h.
Proof. intros I Hm. split; try apply I. intros sid r H. apply (i_subs _ _ I). by eapply lookup_weaken. Qed.

Lemma subs_of_registered sid s : b_subs (subs_of sid s).1 !! sid = Some (subs_of sid s).2.
Proof. unfold subs_of. destruct (b_subs s !! sid) eqn:E; [done|]. cbn. by rewrite lookup_insert_eq. Qed.

Lemma inv_subscribe sid s h : inv s h -> inv (subscribe sid s).1 (note (ASubscribe sid) s h).
Proof.
  intros I%(inv_new_queue sid). apply (inv_subs_of sid) in I as I2. pose proof (subs_of_registered sid (new_queue s).1) as Hreg.
  unfold subscribe. change (new_queue s) with ((new_queue s).1, b_next_queue s). cbv iota beta zeta.
  destruct (subs_of sid (new_queue s).1) as [s2 r] eqn:E. cbn [fst snd] in *.
  apply inv_set_members; [exact I2|]. intros q [->%elem_of_singleton|Hq]%elem_of_union; [|by apply (i_members _ _ I2)].
  exists sid. split; [cbn; apply lookup_insert_eq|]. by apply (i_subs _ _ I2).
Qed.

Lemma inv_unsubscribe sid q s h : inv s h -> inv (unsubscribe sid q s) (note (AUnsubscribe sid q) s h).
Proof.
  intros I%(inv_subs_of sid). unfold unsubscribe. destruct (subs_of sid s) as [s2 r] eqn:E. cbn [fst snd] in *.
  assert (inv (set_members r (members r s2 ∖ {[q]}) s2) (note (AUnsubscribe sid q) s h)) as I2.
  { apply inv_set_members; [exact I|]. intros q' Hq. apply (i_members _ _ I). set_solver. }
  cbv zeta. case_bool_decide; [|exact I2]. apply inv_set_subs; [exact I2|]. apply delete_subseteq.
Qed.

Lemma inv_published sid ev s h :
  inv s h -> inv s (mkHistory (h_queue h) (h_set h) (h_got h) (<[sid := published sid h ++ [ev]]> (h_published h))).
Proof.
  intros I.
  assert (forall sid', sublist (published sid' h) (default [] (<[sid := published sid h ++ [ev]]> (h_published h) !! sid'))) as Hle.
  { intros sid'. destruct (decide (sid = sid')) as [<-|Hne]; [rewrite lookup_insert_eq; by apply sublist_inserts_r|by rewrite lookup_insert_ne]. }
  split; try apply I; unfold published; cbn [h_published].
  - intros sid'. etrans; [apply (i_way _ _ I)|apply Hle].
  - intros q sid' H%(i_order _ _ I). etrans; [exact H|apply Hle].
Qed.

Lemma inv_publish sid ev s h : inv s h -> inv (publish sid ev s) (note (APublish sid ev) s h).
Proof.
  intros I. unfold publish. destruct (b_subs s !! sid) as [r|] eqn:Hr; [|by apply inv_published].
  destruct (bool_decide _ || _); [by apply inv_published|]. destruct (b_loop s) eqn:Hl; try by apply inv_published.
  apply (i_subs _ _ I) in Hr.
  assert (forall sid', on_the_way (set_pending (b_pending s ++ [(r, ev)]) s) (note (APublish sid ev) s h) sid'
    = on_the_way s h sid' ++ (if decide (sid = sid') then [ev] else [])) as Hway.
  { intros sid'. unfold on_the_way. cbn [set_pending b_pending note h_set]. rewrite omap_app. f_equal. cbn. unfold event_for. cbn [fst snd].
    rewrite Hr. case_decide; [subst; by rewrite bool_decide_true|rewrite bool_decide_false; [done|congruence]]. }
  assert (forall sid', published sid' (note (APublish sid ev) s h) = published sid' h ++ (if decide (sid = sid') then [ev] else [])) as Hpub.
  { intros sid'. unfold published. cbn [note h_published]. case_decide; [subst; by rewrite lookup_insert_eq|].
    by rewrite lookup_insert_ne, app_nil_r. }
  split; try apply I.
  - intros c [Hc| ->%list_elem_of_singleton]%elem_of_app; [by apply (i_pending _ _ I)|]. cbn. eauto.
  - intros sid'. rewrite Hway, Hpub. apply sublist_app; [apply (i_way _ _ I)|done].
  - intros q sid' H. rewrite Hway, Hpub, !app_assoc. apply sublist_app; [|done]. rewrite <- app_assoc. by apply (i_order _ _ I).
Qed.

Lemma lookup_fan ev qs (m : gmap nat (list Ev)) q :
  NoDup qs -> fan ev qs m !! q = if decide (q ∈ qs) then put_nowait ev <$> m !! q else m !! q.
Proof.
  unfold fan. intros H. revert m. induction H as [|q' qs Hq H IH]; intros m; [by rewrite decide_False by (by intros ?%elem_of_nil)|].
  cbn [foldl]. rewrite IH. destruct (decide (q = q')) as [->|Hne].
  - rewrite decide_False by done. rewrite decide_True by left. by rewrite lookup_alter_eq.
  - rewrite lookup_alter_ne by done. by destruct (decide (q ∈ qs)), (decide (q ∈ q' :: qs)); set_solver.
Qed.

Lemma length_put_nowait ev (l : list Ev) : length l <= MAXSIZE -> length (put_nowait ev l) <= MAXSIZE.
Proof. unfold put_nowait. destruct (length l <? MAXSIZE) eqn:E; [apply Nat.ltb_lt in E; rewrite length_app; cbn [length]; lia|done]. Qed.

Lemma put_nowait_sublist ev (l : list Ev) : sublist (put_nowait ev l) (l ++ [ev]).
Proof. unfold put_nowait. destruct (_ <? _); [done|by apply sublist_inserts_r]. Qed.

Lemma run_callback_queue s r ev rest q :
  b_pending s = (r, ev) :: rest -> b_loop s = Running ->
  b_queues (run_callback s) !! q = if decide (q ∈ members r s) then put_nowait ev <$> b_queues s !! q else b_queues s !! q.
Proof.
  intros Hp Hl. unfold run_callback. rewrite Hp, Hl. cbn [set_queues b_queues]. rewrite lookup_fan by apply NoDup_elements.
  by destruct (decide (q ∈ elements _)), (decide (q ∈ members _ _)); set_solver.
Qed.

Lemma run_callback_members r s : members r (run_callback s) = members r s.
Proof. unfold run_callback. by destruct (b_pending s) as [|[? ?] ?], (b_loop s). Qed.

Lemma inv_run s h : inv s h -> inv (run_callback s) h.
Proof.
  intros I. destruct (b_pending s) as [|[r ev] rest] eqn:Hp; [unfold run_callback; by rewrite Hp|].
  destruct (b_loop s) eqn:Hl; try (unfold run_callback; rewrite Hp, Hl; done).
  pose proof (fun q => run_callback_queue s r ev rest q Hp Hl) as Hq.
  assert (forall sid, on_the_way s h sid = (if decide (h_set h !! r = Some sid) then [ev] else []) ++ on_the_way (run_callback s) h sid) as Hway.
  { intros sid. unfold on_the_way, run_callback. rewrite Hp, Hl. cbn [set_queues set_pending b_pending omap list_omap]. unfold event_for at 1. cbn [fst snd].
    by case_bool_decide; case_decide. }
  assert (forall q, b_queues (run_callback s) !! q = put_nowait ev <$> b_queues s !! q \/ b_queues (run_callback s) !! q = b_queues s !! q) as Hor
    by (intros q; rewrite Hq; destruct (decide _); auto).
  assert (forall f : Bus Ev -> nat, (forall m p s, f (set_queues m (set_pending p s)) = f s) -> f (run_callback s) = f s) as Hnext
    by (intros f Hf; unfold run_callback; by rewrite Hp, Hl, Hf).
  split; try apply I.
  - intros q sid H%(i_queue _ _ I). by rewrite (Hnext b_next_queue).
  - intros q l H. destruct (b_queues s !! q) as [l0|] eqn:E; [by apply (i_known _ _ I) in E|]. destruct (Hor q) as [E'|E']; rewrite E' in H; by rewrite E in H.
  - intros r' sid H%(i_set _ _ I). by rewrite (Hnext b_next_set).
  - intros sid r'. unfold run_callback. rewrite Hp, Hl. apply (i_subs _ _ I).
  - intros q r'. rewrite run_callback_members. apply (i_members _ _ I).
  - intros c. unfold run_callback. rewrite Hp, Hl. cbn. intros Hc. apply (i_pending _ _ I). rewrite Hp. by right.
  - intros q. pose proof (i_length _ _ I q) as H. unfold queue in *. destruct (Hor q) as [-> | ->]; [|done].
    destruct (b_queues s !! q); [by apply length_put_nowait|done].
  - intros sid. pose proof (i_way _ _ I sid) as H. rewrite Hway in H. etrans; [|exact H]. by apply sublist_inserts_l.
  - intros q sid Hs. etrans; [|apply (i_order _ _ I q sid Hs)]. rewrite Hway. apply sublist_app; [done|]. rewrite app_assoc.
    apply sublist_app; [|done]. unfold queue. rewrite Hq. case_decide as Hm.
    + apply (i_members _ _ I) in Hm as (sid' & H1 & H2). assert (sid' = sid) as -> by congruence. rewrite decide_True by done.
      destruct (b_queues s !! q) as [l|]; [apply put_nowait_sublist|apply sublist_nil_l].
    + by apply sublist_inserts_r.
Qed.

Lemma inv_get q s h : inv s h -> inv (get q s).1 (note (AGet q) s h).
Proof.
  intros I. unfold note, get. destruct (queue q s) as [|ev rest] eqn:Hq; [done|]. cbn [fst snd].
  assert (exists sid, h_queue h !! q = Some sid) as [sid Hs].
  { revert Hq. unfold queue. destruct (b_queues s !! q) eqn:E; [|done]. intros _. by apply (i_known _ _ I) in E. }
  assert (forall q', q <> q' -> queue q' (set_queues (<[q := rest]> (b_queues s)) s) = queue q' s) as Hne
    by (intros q' ?; unfold queue; cbn; by rewrite lookup_insert_ne).
  assert (queue q (set_queues (<[q := rest]> (b_queues s)) s) = rest) as Heq by (unfold queue; cbn; by rewrite lookup_insert_eq).
  assert (forall q', q <> q' -> got q' (mkHistory (h_queue h) (h_set h) (<[q := got q h ++ [ev]]> (h_got h)) (h_published h)) = got q' h) as Hgne
    by (intros q' ?; unfold got; cbn; by rewrite lookup_insert_ne).
  split; try apply I; cbn [h_queue set_queues b_queues].
  - intros q' l [[<- _]|[_ H]]%lookup_insert_Some; [by eexists|by eapply (i_known _ _ I)].
  - intros q'. pose proof (i_length _ _ I q') as H. destruct (decide (q = q')) as [<-|n]; [rewrite Heq; rewrite Hq in H; cbn in H; lia|by rewrite Hne].
  - intros q' H. destruct (decide (q = q')) as [<-|n]; [congruence|]. rewrite Hgne by done. by apply (i_strange _ _ I).
  - intros q' sid' H. pose proof (i_order _ _ I q' sid' H) as Ho. destruct (decide (q = q')) as [<-|n]; [|by rewrite Hne, Hgne by done].
    rewrite Heq. unfold got at 1. cbn. rewrite lookup_insert_eq. cbn. rewrite Hq in Ho. by rewrite <- app_assoc.
Qed.
Lemma inv_close s h : inv s h -> inv (close_loop s) h.
Proof.
  intros I. unfold close_loop. destruct (b_loop s); [done|..]; split; try apply I; cbn [b_pending];
    try (intros c Hc; by apply elem_of_nil in Hc); intros *; unfold on_the_way; cbn [b_pending omap list_omap]; try apply sublist_nil_l;
    intros H; rewrite app_nil_r; etrans; try apply (i_order _ _ I _ _ H); apply sublist_app; try done; by apply sublist_inserts_r.
Qed.

Lemma bus_reachable_inv s h : bus_reachable s h -> inv s h.
Proof.
  induction 1 as [|a s h _ I]; [apply inv_start|]. destruct a; cbn [act];
    [|by apply inv_subscribe|by apply inv_unsubscribe|by apply inv_publish|by apply inv_run|by apply inv_get|by apply inv_close].
  split; apply I.
Qed.

(** A step that keeps the registered sets and their members *)
Lemma no_empty_same s s' : b_subs s' = b_subs s -> b_sets s' = b_sets s -> no_empty_set s -> no_empty_set s'.
Proof. intros H1 H2 H sid r. unfold members. rewrite H1, H2. apply H. Qed.

Lemma no_empty_subscribe sid s h : inv s h -> no_empty_set s -> no_empty_set (subscribe sid s).1.
Proof.
  intros I%(inv_new_queue sid) Hne. pose proof (fun r => members_subs_of sid _ _ r I) as Hm. unfold subscribe.
  change (new_queue s) with ((new_queue s).1, b_next_queue s). cbv iota beta zeta.
  revert Hm. unfold subs_of. set (s1 := (new_queue s).1). destruct (b_subs s1 !! sid) as [r|] eqn:E; cbn [fst snd]; intros Hm sid' r'.
  - rewrite members_set_members. case_decide as Hd; [subst; set_solver|]. apply Hne.
  - rewrite members_set_members. case_decide as Hd; [subst; set_solver|]. cbn [set_members b_subs].
    intros [[_ <-]|[_ H]]%lookup_insert_Some; [done|]. rewrite Hm. apply (Hne _ _ H).
Qed.

Lemma no_empty_unsubscribe sid q s h : inv s h -> no_empty_set s -> no_empty_set (unsubscribe sid q s).
Proof.
  intros I Hne. pose proof (fun r => members_subs_of sid _ _ r I) as Hm. unfold unsubscribe.
  pose proof (inv_subs_of sid _ _ I) as I2. pose proof (subs_of_registered sid s) as Hreg.
  assert (forall sid', sid' <> sid -> b_subs (subs_of sid s).1 !! sid' = b_subs s !! sid') as Hother.
  { intros sid' Hn. unfold subs_of. destruct (b_subs s !! sid); [done|]. cbn. by rewrite lookup_insert_ne. }
  destruct (subs_of sid s) as [s1 r] eqn:E. cbn [fst snd] in *. cbv zeta.
  assert (forall sid' r', sid' <> sid -> b_subs s1 !! sid' = Some r' -> members r' (set_members r (members r s1 ∖ {[q]}) s1) <> ∅) as Hrest.
  { intros sid' r' Hn H. rewrite members_set_members. case_decide as Hd.
    - subst r'. apply (i_subs _ _ I2) in H. apply (i_subs _ _ I2) in Hreg. congruence.
    - rewrite Hm. apply (Hne sid'). by rewrite <- Hother. }
  case_bool_decide as Hempty; intros sid' r' H.
  - cbn in H. apply lookup_delete_Some in H as [Hn H]. by apply (Hrest sid' r').
  - destruct (decide (sid' = sid)) as [->|Hn]; [|by apply (Hrest sid' r')]. cbn in H. rewrite Hreg in H. by injection H as <-.
Qed.

Lemma reachable_no_empty s h : bus_reachable s h -> no_empty_set s.
Proof.
  induction 1 as [|a s h Hr IH]; [intros sid r; cbn; by rewrite lookup_empty|]. apply bus_reachable_inv in Hr as I.
  destruct a; cbn [act]; [exact IH|by eapply no_empty_subscribe|by eapply no_empty_unsubscribe|..].
  - unfold publish. destruct (b_subs s !! sid); [|exact IH]. destruct (_ || _); [exact IH|]. by destruct (b_loop s).
  - unfold run_callback. by destruct (b_pending s) as [|[? ?] ?], (b_loop s).
  - unfold get. by destruct (queue q s).
  - unfold close_loop. by destruct (b_loop s).
Qed.

(** A queue in the registered set of a session *)
Definition subscribed s (q : nat) (sid : string) : Prop := exists r, b_subs s !! sid = Some r /\ q ∈ members r s.

Lemma subscribed_same s s' q sid : b_subs s' = b_subs s -> b_sets s' = b_sets s -> subscribed s' q sid <-> subscribed s q sid.
Proof. intros H1 H2. unfold subscribed, members. by rewrite H1, H2. Qed.

(** Looking a session's set up registers nobody *)
Lemma subscribed_subs_of sid s h q sid' : inv s h -> subscribed (subs_of sid s).1 q sid' <-> subscribed s q sid'.
Proof.
  intros I. pose proof (fun r => members_subs_of sid s h r I) as Hm. unfold subscribed. setoid_rewrite Hm. clear Hm.
  unfold subs_of. destruct (b_subs s !! sid) as [r0|] eqn:E; [done|]. cbn [fst b_subs]. destruct (decide (sid = sid')) as [<-|Hn].
  - rewrite lookup_insert_eq, E. split; [|by intros (r & [=] & _)]. intros (r & [= <-] & Hq).
    by rewrite (members_fresh s h) in Hq by done.
  - by rewrite lookup_insert_ne.
Qed.

(** Two sessions have different sets, so a change of one's set is its own *)
Lemma subscribed_set_members sid r x s h q sid' :
  inv s h -> b_subs s !! sid = Some r ->
  subscribed (set_members r x s) q sid' <-> if decide (sid' = sid) then q ∈ x else subscribed s q sid'.
Proof.
  intros I Hr. unfold subscribed. setoid_rewrite members_set_members. cbn [set_members b_subs]. destruct (decide (sid' = sid)) as [->|Hn].
  - rewrite Hr. split; [intros (r' & [= <-] & Hq); by rewrite decide_True in Hq|]. intros Hq. exists r. by rewrite decide_True.
  - split; intros (r' & Hr' & Hq); exists r'; (split; [done|]); revert Hq; (rewrite decide_False; [done|]); intros <-;
      apply (i_subs _ _ I) in Hr; apply (i_subs _ _ I) in Hr'; congruence.
Qed.

Lemma subscribed_subscribe sid s h q sid' :
  inv s h -> subscribed (subscribe sid s).1 q sid' <-> subscribed s q sid' \/ q = b_next_queue s /\ sid' = sid.
Proof.
  intros I. apply (inv_new_queue sid) in I as I1. apply (inv_subs_of sid) in I1 as I2.
  pose proof (subs_of_registered sid (new_queue s).1) as Hreg.
  pose proof (fun q sid' => subscribed_subs_of sid _ _ q sid' I1) as Hsub.
  assert (forall q sid', subscribed (new_queue s).1 q sid' <-> subscribed s q sid') as Hnew by (intros; by apply subscribed_same).
  unfold subscribe. change (new_queue s) with ((new_queue s).1, b_next_queue s). cbv iota beta zeta.
  destruct (subs_of sid (new_queue s).1) as [s2 r] eqn:E. cbn [fst snd] in *.
  rewrite (subscribed_set_members sid r _ s2 _ q sid' I2 Hreg). case_decide as Hd; [subst sid'|rewrite Hsub, Hnew; tauto].
  rewrite elem_of_union, elem_of_singleton. rewrite <- Hnew, <- Hsub.
  assert (q ∈ members r s2 <-> subscribed s2 q sid) as ->; [|tauto].
  split; [by exists r|]. intros (r' & Hr' & Hq). congruence.
Qed.

Lemma subscribed_unsubscribe sid q s h q' sid' :
  inv s h -> subscribed (unsubscribe sid q s) q' sid' <-> subscribed s q' sid' /\ ~ (q' = q /\ sid' = sid).
Proof.
  intros I. apply (inv_subs_of sid) in I as I2. pose proof (subs_of_registered sid s) as Hreg.
  pose proof (fun q sid' => subscribed_subs_of sid _ _ q sid' I) as Hsub. unfold unsubscribe.
  destruct (subs_of sid s) as [s1 r] eqn:E. cbn [fst snd] in *. cbv zeta.
  assert (subscribed (set_members r (members r s1 ∖ {[q]}) s1) q' sid' <-> subscribed s q' sid' /\ ~ (q' = q /\ sid' = sid)) as Hset.
  { rewrite (subscribed_set_members sid r _ s1 _ q' sid' I2 Hreg), <- Hsub. case_decide as Hd; [subst sid'|tauto].
    rewrite elem_of_difference, elem_of_singleton.
    assert (q' ∈ members r s1 <-> subscribed s1 q' sid) as ->; [|tauto].
    split; [by exists r|]. intros (r' & Hr' & Hq). congruence. }
  case_bool_decide as Hempty; [|exact Hset]. rewrite <- Hset. unfold subscribed, members. cbn [set_subs set_members b_subs b_sets].
  destruct (decide (sid' = sid)) as [->|Hn]; [|by rewrite lookup_delete_ne]. rewrite lookup_delete_eq.
  split; [by intros (? & [=] & _)|]. rewrite Hreg. intros (r' & [= <-] & Hq).
  unfold members in Hempty. cbn in Hempty. rewrite Hempty in Hq. by apply elem_of_empty in Hq.
Qed.

(** C27. Whatever the order of subscriptions, departures, publications and callbacks, a
    queue's reader gets only events of the session it subscribed to, in the order they
    were published and none twice; no queue holds more than its 1000 events; two sessions
    never share a set of subscribers, and no empty set stays registered. *)
Theorem bus_isolated_in_order s h :
  bus_reachable s h ->
  (forall q sid, h_queue h !! q = Some sid -> sublist (got q h ++ queue q s) (published sid h)) /\
  (forall q, length (queue q s) <= MAXSIZE) /\
  (forall sid sid' r, b_subs s !! sid = Some r -> b_subs s !! sid' = Some r -> sid = sid') /\
  (forall sid r q, b_subs s !! sid = Some r -> q ∈ members r s -> h_queue h !! q = Some sid) /\
  (forall sid r, b_subs s !! sid = Some r -> members r s <> ∅).
Proof.
  intros Hr. apply bus_reachable_inv in Hr as I. split_and!.
  - intros q sid H. etrans; [|apply (i_order _ _ I q sid H)]. rewrite app_assoc. by apply sublist_inserts_r.
  - apply (i_length _ _ I).
  - intros sid sid' r H1%(i_subs _ _ I) H2%(i_subs _ _ I). congruence.
  - intros sid r q H1%(i_subs _ _ I) H2%(i_members _ _ I). destruct H2 as (sid' & H2 & H3). congruence.
  - by eapply reachable_no_empty.
Qed.

(** ** What is published arrives *)

(** The loop runs all that waits on it *)
Definition run_all s : Bus Ev := Nat.iter (length (b_pending s)) run_callback s.

(** What waits for one queue, in order *)
Definition waiting q s : list Ev := omap (fun c => if decide (q ∈ members c.1 s) then Some c.2 else None) (b_pending s).

Lemma iter_shift {A} (f : A -> A) n x : Nat.iter (S n) f x = Nat.iter n f (f x).
Proof. induction n as [|n IH]; [done|]. cbn [Nat.iter nat_rect] in *. by rewrite IH. Qed.

Lemma run_all_queue s q l :
  b_loop s = Running -> b_queues s !! q = Some l -> b_queues (run_all s) !! q = Some (foldl (fun l ev => put_nowait ev l) l (waiting q s)).
Proof.
  unfold run_all. remember (length (b_pending s)) as n eqn:Hn. revert s l Hn. induction n as [|n IH]; intros s l Hn Hl Hq.
  - unfold waiting. by destruct (b_pending s).
  - destruct (b_pending s) as [|[r ev] rest] eqn:Hp; [done|]. rewrite iter_shift.
    pose proof (run_callback_queue s r ev rest q Hp Hl) as Hq'. rewrite Hq in Hq'.
    assert (waiting q s = (if decide (q ∈ members r s) then [ev] else []) ++ waiting q (run_callback s)) as ->.
    { unfold waiting, run_callback. rewrite Hp, Hl. cbn [omap list_omap fst snd set_queues set_pending b_pending]. by destruct (decide _). }
    rewrite foldl_app. apply IH.
    + unfold run_callback. rewrite Hp, Hl. cbn in *. congruence.
    + unfold run_callback. by rewrite Hp, Hl.
    + rewrite Hq'. by destruct (decide _).
Qed.

Lemma put_all_fits evs (l : list Ev) :
  length l + length evs <= MAXSIZE -> foldl (fun l ev => put_nowait ev l) l evs = l ++ evs.
Proof.
  revert l. induction evs as [|ev evs IH]; intros l H; [by rewrite app_nil_r|]. cbn [foldl length] in *. unfold put_nowait at 2.
  destruct (Nat.ltb_spec (length l) MAXSIZE) as [Hlt|]; [|lia]. rewrite IH by (rewrite length_app; cbn [length]; lia). by rewrite <- app_assoc.
Qed.

(** Once the loop has run what waits on it, every subscriber that had room for it has
    the published event, last, after all that was already on its way. *)
Theorem published_event_arrives sid ev s h q r l :
  bus_reachable s h -> b_loop s = Running -> b_subs s !! sid = Some r -> q ∈ members r s -> b_queues s !! q = Some l ->
  length l + length (waiting q s) < MAXSIZE ->
  b_queues (run_all (publish sid ev s)) !! q = Some (l ++ waiting q s ++ [ev]).
Proof.
  intros Hr Hl Hs Hm Hq Hroom.
  assert (publish sid ev s = set_pending (b_pending s ++ [(r, ev)]) s) as Hpub.
  { unfold publish. rewrite Hs, Hl. rewrite bool_decide_false; [done|]. by eapply (reachable_no_empty _ _ Hr). }
  assert (waiting q (publish sid ev s) = waiting q s ++ [ev]) as Hw.
  { unfold waiting. rewrite Hpub. cbn [set_pending b_pending]. rewrite omap_app. cbn. by rewrite decide_True. }
  rewrite (run_all_queue _ q l), Hw; [|by rewrite Hpub|by rewrite Hpub]. f_equal. apply put_all_fits. rewrite length_app. cbn [length]. lia.
Qed.
End bus_proofs.

(** ** Concrete executions *)

Definition perform {Ev} (l : list (action Ev)) : Bus Ev * History Ev :=
  foldl (fun x a => (act a x.1, note a x.1 x.2)) (empty_bus, empty_history) l.

Lemma perform_reachable {Ev} (l : list (action Ev)) : bus_reachable (perform l).1 (perform l).2.
Proof.
  unfold perform. induction l as [|a l IH] using rev_ind; [apply reach_start|]. rewrite foldl_app. cbn. by apply reach_step.
Qed.

(** Two observers of one session and one of another *)
Definition demo_actions : list (action nat) :=
  [ABind; ASubscribe "a"; ASubscribe "b"; APublish "a" 1; ARun; ASubscribe "a"; APublish "b" 2; APublish "a" 3; ARun; ARun; AGet 0].

Abbreviation demo_bus := (perform demo_actions).1.
Abbreviation demo_history := (perform demo_actions).2.

Lemma bus_isolated_in_order_witness :
  (got 0 demo_history, queue 0 demo_bus, queue 1 demo_bus, queue 2 demo_bus, published "a" demo_history) = ([1], [3], [2], [3], [1; 3]) /\
  sublist (got 0 demo_history ++ queue 0 demo_bus) (published "a" demo_history).
Proof.
  split; [vm_compute; reflexivity|].
  destruct (bus_isolated_in_order demo_bus demo_history (perform_reachable demo_actions)) as (H & _).
  apply H. vm_compute. reflexivity.
Defined.

Lemma published_event_arrives_witness :
  b_queues (run_all (publish "a" 4 demo_bus)) !! 0 = Some ([3] ++ waiting 0 demo_bus ++ [4]).
Proof.
  apply (published_event_arrives "a" 4 demo_bus demo_history 0 0 [3]); [apply perform_reachable|vm_compute; reflexivity..| |vm_compute; reflexivity|].
  - apply (bool_decide_unpack _). vm_compute. exact I.
  - apply Nat.ltb_lt. vm_compute. reflexivity.
Defined.

(** A queue subscribed after an event was published still receives it when the loop had
    not yet handed it on: the callback holds the set, not its members *)
Example late_subscriber_gets_pending :
  queue 1 (perform [ABind; ASubscribe "a"; APublish "a" 1; ASubscribe "a"; ARun]).1 = [1].
Proof. vm_compute. reflexivity. Qed.

(** Once the last subscriber has left, the pending event reaches nobody, a newcomer included *)
Example orphaned_set_is_lost :
  queue 1 (perform [ABind; ASubscribe "a"; APublish "a" 1; AUnsubscribe "a" 0; ASubscribe "a"; ARun]).1 = [].
Proof. vm_compute. reflexivity. Qed.
