(* ===== verification/Reach.v ===== *)
(** * Reachability of a finding's preconditions (audit_agent/proof/scaffold_reachability.py)

    The detection of the three wiring patterns in the sources around a finding, the check
    of a compiled scaffold against them, the repair of a setter's receiver, and the part of
    the synthesis prompt that they add.  Reading a type's source is a parameter. *)

From S2P Require Import Prelude PyStr PyRe PyVal PyPath SolIndex SolUtils Fixers Inventory.

(** ** Data *)

Inductive pattern_id := config_manager_field | role_grant | parent_attach.
#[export] Instance pattern_id_eq_dec : EqDecision pattern_id.
Proof. solve_decision. Defined.
Definition pattern_value (p : pattern_id) : string :=
  match p with
  | config_manager_field => "config_manager_field"
  | role_grant => "role_grant"
  | parent_attach => "parent_attach"
  end.
Definition PATTERN_ORDER : list pattern_id := [config_manager_field; role_grant; parent_attach].

Record CallSite := mkSite { cs_contract : string; cs_method : string }.
#[export] Instance CallSite_eq_dec : EqDecision CallSite.
Proof. solve_decision. Defined.

Inductive resolution := resolved | no_candidate | ambiguous.
#[export] Instance resolution_eq_dec : EqDecision resolution.
Proof. solve_decision. Defined.

Record ParentResolution := mkParent {
  pr_status : resolution;
  pr_contract : option string;
  pr_source_path : option path;
  pr_source_text : option string;
  pr_declared_type_var : option string;
}.
Definition unresolved (st : resolution) : ParentResolution := mkParent st None None None None.

(** The evidence of a match, a dictionary of strings *)
Abbreviation evidence := (list (string * string)).
Definition ev_get (ev : evidence) (k : string) : string := default "" (assoc k ev).
(** [f"{ev.get(k)}"] *)
Definition ev_show (ev : evidence) (k : string) : string := default "None" (assoc k ev).

Record PatternMatch := mkMatch {
  pm_pattern : pattern_id;
  pm_evidence : evidence;
  pm_site : option CallSite;
}.

Record ReachabilityCheck := mkCheck {
  rc_pattern : pattern_id;
  rc_complete : bool;
  rc_missing : list string;
  rc_site : option CallSite;
}.

(** The task of a finding: its keys hold a string or [None] *)
Abbreviation task := (list (string * option string)).
(** [task.get(k) or ""] *)
Definition task_or_empty (t : task) (k : string) : string := default "" (default None (assoc k t)).
(** [str(task.get(k, ""))] *)
Definition task_str (t : task) (k : string) : string :=
  match assoc k t with None => "" | Some None => "None" | Some (Some s) => s end.

Definition normalize_contract_symbol (name : string) : string := removesuffix "_Impl" name.

(** ** Regular expressions *)

Definition ws : re := RMany RSpace.
Definition ws1 : re := RSome RSpace.
Definition word1 : re := RSome RWord.

(** ** The parent *)

(** [\b([A-Z][A-Za-z0-9]* )\b] *)
Definition LOC_CANDIDATE_RE : re := RAll [RBound; RGroup 1 (RSeq (RSet is_upper) (RMany (RSet is_alnum))); RBound].
(** A word between backticks *)
Definition DESC_BACKTICK_RE : re :=
  RAll [RChr "`"; RGroup 1 (RSeq (RSet (fun c => is_alpha c || Ascii.eqb c "_")) (RMany RWord)); RChr "`"].

Definition starts_upper (s : string) : bool := match s with String c _ => is_upper c | "" => false end.
Definition append_new (names : list string) (n : string) : list string :=
  if bool_decide (n ∈ names) then names else names ++ [n].

Definition candidate_parent_names (t : task) : list string :=
  let from_loc := foldl append_new [] (map (removesuffix ".sol") (re_findall1 LOC_CANDIDATE_RE (task_or_empty t "location"))) in
  foldl append_new from_loc (List.filter starts_upper (re_findall1 DESC_BACKTICK_RE (task_or_empty t "description"))).

(** The visible variables of a candidate type that is not missing, one per type *)
Fixpoint matching_vars (missing candidates seen : list string) (svs : list InventoryStateVar) : list InventoryStateVar :=
  match svs with
  | [] => []
  | sv :: svs' =>
      let t := sv_type sv in
      if String.eqb (sv_visibility sv) "private" || bool_decide (t ∈ missing) || negb (bool_decide (t ∈ candidates))
         || bool_decide (t ∈ seen)
      then matching_vars missing candidates seen svs'
      else sv :: matching_vars missing candidates (t :: seen) svs'
  end.

(** An empty task counts as no task *)
Definition resolve_parent (inventory : option ScaffoldApiInventory) (missing_types : list string) (project : path)
  (read_location_source_fn : path -> string -> res string) (t : task) : res ParentResolution :=
  match inventory with
  | None => Ok (unresolved no_candidate)
  | Some inv =>
      let candidates := candidate_parent_names t in
      if bool_decide (t = []) || bool_decide (candidates = []) then Ok (unresolved no_candidate)
      else match matching_vars missing_types candidates [] (in_state_vars inv) with
           | [] => Ok (unresolved no_candidate)
           | [sv] =>
               source_text ← read_location_source_fn project (sv_type sv);
               Ok (mkParent resolved (Some (sv_type sv)) (if truthy (sv_path sv) then Some (to_path (sv_path sv)) else None)
                     (Some source_text) (Some (sv_name sv)))
           | _ => Ok (unresolved ambiguous)
           end
  end.

(** ** Where a position is *)

Definition ADDR_FIELD_RE : re :=
  RAll [RBound; RStr "address"; ws1; ROpt (RAny [RStr "public"; RStr "internal"]); ws1; RGroup 1 word1; ws; RChr ";"].
Definition CONTRACT_RE : re :=
  RAll [RBound; ROpt (RSeq (RStr "abstract") ws1); RStr "contract"; ws1; RGroup 1 word1; RBound].
Definition params : re := RAll [ws; RChr "("; RMany (RNoneOf ")"); RChr ")"].
Definition FUNC_HDR_RE : re :=
  RAll [RStr "function"; ws1; RGroup 1 word1; params; RMany (RNoneOf "{;"); RChr "{"].
Definition GRANT_CALL_RE : re :=
  RAll [RGroup 1 word1; RStr ".grantRole("; RGroup 2 (RSome (RNoneOf ",")); RChr ","; ws; RGroup 3 (RSome (RNoneOf ")")); RChr ")"].

(** The name that the last match starting at or before [pos] gives *)
Fixpoint last_before (source : string) (pos : nat) (ms : list rmatched) (found : option string) : option string :=
  match ms with
  | [] => found
  | m :: ms' => if mt_start m <=? pos then last_before source pos ms' (re_group 1 source m) else found
  end.
Definition contract_declaring (source : string) (pos : nat) : option string :=
  last_before source pos (re_finditer CONTRACT_RE source) None.
Definition function_at (source : string) (pos : nat) : option string :=
  last_before source pos (re_finditer FUNC_HDR_RE source) None.

(** The text between the brace at [open_idx] and the one that closes it *)
Definition slice_brace_body (source : string) (open_idx : nat) : option string :=
  match sdrop open_idx source with
  | String "{" _ as rest => (fun i => slice (S open_idx) i source) <$> brace_block 0 open_idx rest
  | _ => None
  end.

(** ** The config-manager pattern *)

(** [function\s+(\w+)\s*\(([^)]* )\)([^{]* )\{] *)
Definition SETTER_HDR_RE : re := RAll [RStr "function"; ws1; RGroup 1 word1; params; RMany (RNoneOf "{"); RChr "{"].
Definition assigns_re (field : string) : re := RAll [RBound; RStr field; ws; RChr "="].

Definition is_setter (source field : string) (m : rmatched) : bool :=
  negb (String.eqb (group_or_empty 1 source m) "constructor") &&
  match slice_brace_body source (mt_end m - 1) with
  | Some body => re_test (assigns_re field) body
  | None => false
  end.

Definition find_setter_for_field (source field : string) : option string :=
  match List.filter (is_setter source field) (re_finditer SETTER_HDR_RE source) with
  | m :: _ => Some (group_or_empty 1 source m)
  | [] => None
  end.

Definition SENDER_ATOM : re := RAny [RStr "msg.sender"; RAll [RStr "_msgSender"; ws; RChr "("; ws; RChr ")"]].
Definition field_sender_require_re (field : string) : re :=
  RAll [RStr "require"; ws; RChr "("; ws;
        RAny [RAll [RStr field; ws; RStr "=="; ws; SENDER_ATOM]; RAll [SENDER_ATOM; ws; RStr "=="; ws; RStr field]];
        RAny [RSeq ws (RChr ","); RSeq ws (RChr ")")]].
Definition MODIFIER_RE : re :=
  RAll [RStr "modifier"; ws1; RGroup 1 word1; params; ws; RChr "{"; RGroup 2 (RManyLazy (RNoneOf "}")); RChr "}"].
Definition applies_modifier_re (m : string) : re :=
  RAll [RStr "function"; ws1; RGroup 1 word1; params; RMany (RNoneOf "{;"); RBound; RStr m; RBound; RMany (RNoneOf "{;"); RChr "{"].

(** Where the guard starts: a function that applies the modifier which requires the field
    to be the sender, else that modifier, else an inline requirement *)
Definition guard_references_field (source field : string) : option nat :=
  let req := field_sender_require_re field in
  match List.filter (fun mm => re_test req (group_or_empty 2 source mm)) (re_finditer MODIFIER_RE source) with
  | mm :: _ =>
      match re_search (applies_modifier_re (group_or_empty 1 source mm)) source with
      | Some fm => Some (mt_start fm)
      | None => Some (mt_start mm)
      end
  | [] => mt_start <$> re_search req source
  end.

Definition AUTH_RE : re :=
  RAny [RAll [RStr "require"; ws; RChr "("; ws;
              RAny [RAll [RGroup 1 word1; ws; RStr "=="; ws; RStr "msg.sender"]; RAll [RStr "msg.sender"; ws; RStr "=="; ws; RGroup 2 word1]];
              ws; RChr ")"];
        RAll [RBound; RStr "onlyOwner"; RBound]; RAll [RBound; RStr "onlyAdmin"; RBound]].
Definition CONTROL_RE : re :=
  RAll [RChr "."; RAny [RStr "transferOwnership"; RStr "setOwner"; RStr "grantRole"; RStr "startPrank"; RStr "prank"]; ws; RChr "("].
Definition owner_control_re (field : string) : re :=
  RAny [RAll [RChr "."; RStrI field; ws; RChr "="]; RAll [RBound; RStrI ("set" +:+ capitalize field); RBound]].

Definition first_truthy (a b : option string) : string :=
  match a with Some (String _ _ as s) => s | _ => match b with Some (String _ _ as s) => s | _ => "owner" end end.

Definition setter_authority_outside (corpus setter existing_base_source : string) : bool :=
  match re_search (RAll [RStr "function"; ws1; RStr setter; params; RGroup 1 (RMany (RNoneOf "{")); RChr "{"]) corpus with
  | None => false
  | Some m =>
      let window := utake 400 (sdrop (mt_start m) corpus) in
      match re_search AUTH_RE window with
      | None => false
      | Some auth =>
          let field := first_truthy (re_group 1 window auth) (re_group 2 window auth) in
          if re_test (RAll [RBound; RStr field; RBound]) existing_base_source && re_test CONTROL_RE existing_base_source then false
          else if contains "onlyOutside" window || contains "OUTSIDE_AUTHORITY" window then true
          else if re_test (RAll [RBound; RStr setter; ws; RChr "("]) existing_base_source then false
          else if re_test (owner_control_re field) existing_base_source then false
          else if contains "onlyOwner" window || contains "onlyOutside" window
               then negb (contains "transferOwnership" existing_base_source)
               else false
      end
  end.

(** [re.findall(r"\b([a-z]\w+)\b", loc)], the last one *)
Definition METHOD_RE : re := RAll [RBound; RGroup 1 (RSeq (RSet is_lower) word1); RBound].
Definition gated_from_task (t : task) : option string := last (re_findall1 METHOD_RE (task_or_empty t "location")).
Definition contract_from_task (t : task) : option string := head (candidate_parent_names t).

(** [a or b] for names *)
Definition or_name (a b : option string) : option string := match a with Some (String _ _) => a | _ => b end.

(** The candidate that one address field gives *)
Definition config_candidate (combined existing_base_source : string) (t : task) (field : string) : option PatternMatch :=
  match guard_references_field combined field, find_setter_for_field combined field with
  | Some guard, Some (String _ _ as setter) =>
      if setter_authority_outside combined setter existing_base_source then None
      else match or_name (function_at combined guard) (gated_from_task t),
                 or_name (contract_declaring combined guard) (contract_from_task t) with
           | Some (String _ _ as fn), Some (String _ _ as contract) =>
               Some (mkMatch config_manager_field
                       [("field", field); ("setter", setter); ("gated_contract", contract); ("gated_function", fn)]
                       (Some (mkSite (normalize_contract_symbol contract) fn)))
           | _, _ => None
           end
  | _, _ => None
  end.

(** [_rank], its three digits as one number *)
Definition config_rank (loc : string) (m : PatternMatch) : nat :=
  let digit (b : bool) := if b then 1 else 0 in
  let gated := ev_get (pm_evidence m) "gated_function" in
  4 * digit (truthy gated && contains gated loc)
  + 2 * digit (contains "config" (lower (ev_get (pm_evidence m) "field")))
  + digit (contains "config" (lower (ev_get (pm_evidence m) "setter"))).

(** [max(l, key=rank)]: the first of the largest *)
Definition max_by {A} (rank : A -> nat) (x : A) (l : list A) : A :=
  foldl (fun best y => if rank best <? rank y then y else best) x l.

Definition detect_config_manager (location_source missing_source existing_base_source : string) (t : task) : option PatternMatch :=
  let combined := location_source +:+ nls +:+ missing_source in
  match omap (config_candidate combined existing_base_source t) (re_findall1 ADDR_FIELD_RE combined) with
  | [] => None
  | c :: cs => Some (max_by (config_rank (task_or_empty t "location" +:+ " " +:+ task_or_empty t "description")) c cs)
  end.

(** ** The role pattern *)

Definition HAS_ROLE_RE : re :=
  RAll [RStr "require"; ws; RChr "("; ws; RStr "hasRole"; ws; RChr "("; ws; RGroup 1 (RSome (RNoneOf ",)"))].
Definition ONLY_ROLE_RE : re := RAll [RBound; RStr "onlyRole"; ws; RChr "("; ws; RGroup 1 (RSome (RNoneOf ")")); RChr ")"].
Definition REQUIRE_CONST_RE : re :=
  RAll [RStr "require"; ws; RChr "("; RMany (RNoneOf ")"); RBound;
        RGroup 1 (RSeq (RSet (fun c => is_upper c || Ascii.eqb c "_")) (RMany (RSet (fun c => is_upper c || is_digit c || Ascii.eqb c "_"))));
        RBound; RMany (RNoneOf ")"); RChr ")"].

(** The role that a pattern finds, stripped, and where; [role] and [guard_pos] are only
    replaced when the pattern matches *)
Definition seek_role (r : re) (source : string) (found : string * nat) : string * nat :=
  if truthy found.1 then found
  else match re_search r source with
       | Some m => (strip (group_or_empty 1 source m), mt_start m)
       | None => found
       end.

Definition detect_role_grant (location_source existing_base_source : string) (t : task) : option PatternMatch :=
  match re_search GRANT_CALL_RE existing_base_source with
  | None => None
  | Some grant =>
      let g i := group_or_empty i existing_base_source grant in
      let '(role, guard_pos) :=
        seek_role REQUIRE_CONST_RE location_source (seek_role ONLY_ROLE_RE location_source (seek_role HAS_ROLE_RE location_source ("", 0))) in
      if negb (truthy role) then None
      else match or_name (gated_from_task t) (function_at location_source guard_pos),
                 or_name (contract_declaring location_source guard_pos) (contract_from_task t) with
           | Some (String _ _ as fn), Some (String _ _ as contract) =>
               Some (mkMatch role_grant
                       [("manager_call_shape", g 0); ("role", role); ("grantee", strip (g 3)); ("manager", g 1);
                        ("gated_contract", contract); ("gated_function", fn)]
                       (Some (mkSite (normalize_contract_symbol contract) fn)))
           | _, _ => None
           end
  end.

(** ** The attachment pattern *)

Definition dependency_type (missing_source : string) : option string :=
  re_search CONTRACT_RE missing_source ≫= re_group 1 missing_source.

Definition PARENS_RE : re := RAll [RChr "("; RMany RDot; RChr ")"].
Definition base_of_part (part : string) : string :=
  last_or_empty (split_char " " (re_sub ws1 " " (strip (re_sub PARENS_RE "" part)))).

(** The dependency and the bases its declaration names; the order of insertion stands for
    that of the set, which only decides between alternatives of one length *)
Definition dependency_attach_types (missing_source dep : string) : list string :=
  match re_search (RAll [RBound; ROpt (RSeq (RStr "abstract") ws1); RStr "contract"; ws1; RStr dep; ws1; RStr "is"; ws1;
                         RGroup 1 (RSome (RNoneOf "{")); RChr "{"]) missing_source with
  | None => [dep]
  | Some m =>
      foldl append_new [dep] (List.filter starts_upper (map base_of_part (split_char "," (group_or_empty 1 missing_source m))))
  end.

Definition attach_setter_re (types : list string) : re :=
  RAll [RStr "function"; ws1; RGroup 1 word1; ws; RChr "("; ws;
        RAny (map RStr (py_sort (fun a b => ulen b <=? ulen a) types)); ws1; RGroup 2 word1; ws; RChr ")"; ws;
        RAny [RStr "external"; RStr "public"]; RBound].

Definition declares_contract_re (c : string) : re := RAll [RBound; RStr "contract"; ws1; RStr c; RBound].

Definition names_parent (t : task) (location_source contract : string) : bool :=
  contains contract (task_or_empty t "location") || contains contract (task_or_empty t "description")
  || contains ("contract " +:+ contract) location_source
  || bool_decide (contract_declaring location_source 0 = Some contract)
  || re_test (declares_contract_re contract) location_source.

Definition detect_parent_attach (location_source : string) (parent : ParentResolution) (missing_source : string) (t : task) : option PatternMatch :=
  match pr_status parent, pr_contract parent, pr_source_text parent with
  | resolved, Some (String _ _ as contract), Some (String _ _ as text) =>
      match dependency_type missing_source with
      | Some (String _ _ as dep) =>
          match re_search (attach_setter_re (dependency_attach_types missing_source dep)) text with
          | Some sm =>
              if names_parent t location_source contract then
                let setter := group_or_empty 1 text sm in
                Some (mkMatch parent_attach [("parent", contract); ("setter", setter); ("dependency_type", dep)]
                        (Some (mkSite (normalize_contract_symbol contract) setter)))
              else None
          | None => None
          end
      | _ => None
      end
  | _, _, _ => None
  end.

Definition strip_parent (parent : ParentResolution) : ParentResolution :=
  mkParent (pr_status parent) (pr_contract parent) (pr_source_path parent)
    (match pr_source_text parent with Some (String _ _ as s) => Some (strip_comments s) | _ => None end)
    (pr_declared_type_var parent).

Definition option_list {A} (o : option A) : list A := match o with Some x => [x] | None => [] end.

(** The found patterns, looked up in [PATTERN_ORDER] *)
Definition detect_patterns (t : task) (location_source : string) (parent : ParentResolution) (missing_source existing_base_source : string) : list PatternMatch :=
  let loc := strip_comments location_source in
  let miss := strip_comments missing_source in
  let base := strip_comments existing_base_source in
  let found :=
    option_list (detect_config_manager loc miss base t) ++ option_list (detect_role_grant loc base t)
    ++ option_list (detect_parent_attach loc (strip_parent parent) miss t) in
  omap (fun p => assoc p (map (fun m => (pm_pattern m, m)) found)) PATTERN_ORDER.

(** ** The check of a compiled base *)

Definition has_pattern (p : pattern_id) (m : PatternMatch) : bool := bool_decide (pm_pattern m = p).

(** [dep if isinstance(dep, str) and dep] *)
Definition named (ev : evidence) (k : string) : option string :=
  match assoc k ev with Some (String _ _ as s) => Some s | _ => None end.

Definition preferred_config_receiver_type (matches : list PatternMatch) (cfg : PatternMatch) : option string :=
  match omap (fun m => if has_pattern parent_attach m then named (pm_evidence m) "dependency_type" else None) matches with
  | dep :: _ => Some dep
  | [] => named (pm_evidence cfg) "gated_contract"
  end.

Definition default_var_name (type_name : string) : string :=
  match type_name with "" => "" | String c s => String (lower_char c) s end.

Definition visibility_opt : re :=
  ROpt (RSeq (RAny [RStr "private"; RStr "internal"; RStr "public"; RStr "transient"]) ws1).
Definition declared_re (type_name : string) : re := RAll [RBound; RStr type_name; ws1; visibility_opt; RGroup 1 word1].

Definition vars_of_type (source type_name : string) : list string :=
  match type_name with
  | "" => []
  | _ => re_findall1 (RSeq (declared_re type_name) RBound) source ++ [default_var_name type_name]
  end.
Definition find_state_var_of_type (source type_name : string) : option string :=
  match type_name with
  | "" => None
  | _ => re_search (RAll [declared_re type_name; ws; RChr ";"]) source ≫= re_group 1 source
  end.

(** A call of [f], on a receiver or not *)
Definition call_re (f : re) : re := RAll [ROpt (RSeq word1 (RChr ".")); f; ws; RChr "("].
Definition args_end : re := RSeq (RGroup 2 (RMany (RNoneOf ")"))) (RChr ")").
(** [address\s*\(\s*0\s*\)|0|address\s*\(\s*0x0+\s*\)] as a whole *)
Definition ZERO_RE : re :=
  RSeq (RAny [RAll [RStr "address"; ws; RChr "("; ws; RChr "0"; ws; RChr ")"]; RChr "0";
              RAll [RStr "address"; ws; RChr "("; ws; RStr "0x0"; RMany (RChr "0"); ws; RChr ")"]])
       (RNotAhead RDotAll).

Definition nonzero_args (source : string) (m : rmatched) : bool :=
  let args := strip (group_or_empty 2 source m) in
  truthy args && negb (re_fullstart ZERO_RE args).

Definition has_nonzero_setter_call (source setter : string) : bool :=
  existsb (nonzero_args source) (re_finditer (RSeq (call_re (RStr setter)) args_end) source).

Definition receiver_re (setter : string) : re := RAll [RBound; RGroup 1 word1; RChr "."; RStr setter; ws; RChr "("].

Definition setter_on_allowed_receiver (source setter : string) (allowed_vars : list string) : bool :=
  truthy setter && negb (bool_decide (allowed_vars = [])) &&
  existsb (fun m => bool_decide (group_or_empty 1 source m ∈ allowed_vars) && nonzero_args source m)
    (re_finditer (RSeq (receiver_re setter) args_end) source).

Definition call_before_use (source setter : string) (gated_fn : option string) : bool :=
  match re_search (call_re (RStr setter)) source with
  | None => false
  | Some sm =>
      match gated_fn with
      | Some (String _ _ as fn) =>
          match re_search (call_re (RStr fn)) source with
          | None => true
          | Some gm => mt_start sm <? mt_start gm
          end
      | _ => true
      end
  end.

Definition PROPOSE_RE : re := RSeq (RStrI "propose") (RMany RWord).
Definition EXECUTE_RE : re := RSeq (RStrI "execute") (RMany RWord).
Definition WARP_RE : re := RAll [RBound; RStr "vm.warp"; ws; RChr "("].
(** [propose\w*\s*\(] *)
Definition bare_call_re (f : re) : re := RAll [f; ws; RChr "("].

Definition two_step_complete (source setter : string) : bool :=
  let calls := re_finditer (call_re (RStr setter)) source in
  let propose := re_finditer (call_re PROPOSE_RE) source in
  let execute := re_finditer (call_re EXECUTE_RE) source in
  match propose, execute, re_search WARP_RE source with
  | p :: _, e :: _, Some warp => ((mt_start p <? mt_start warp) && (mt_start warp <? mt_start e)) || true
  | _, _, _ =>
      if (2 <=? length calls) && re_test WARP_RE source then true else has_nonzero_setter_call source setter
  end.

Definition two_step_base (stripped : string) : bool := contains "propose" (lower stripped) && contains "execute" (lower stripped).

Definition config_complete (matches : list PatternMatch) (stripped : string) (m : PatternMatch) : bool :=
  let setter := ev_get (pm_evidence m) "setter" in
  let allowed := match preferred_config_receiver_type matches m with Some t => vars_of_type stripped t | None => [] end in
  let on_allowed := setter_on_allowed_receiver stripped setter allowed in
  if two_step_base stripped then
    let complete :=
      (two_step_complete stripped setter && has_nonzero_setter_call stripped setter)
      || (re_test (bare_call_re PROPOSE_RE) stripped && re_test (bare_call_re EXECUTE_RE) stripped && re_test WARP_RE stripped) in
    if complete && negb (bool_decide (allowed = [])) then on_allowed else complete
  else
    (if bool_decide (allowed = []) then has_nonzero_setter_call stripped setter else on_allowed)
    && call_before_use stripped setter (assoc "gated_function" (pm_evidence m)).

Definition name_or (s dflt : string) : string := if truthy s then s else dflt.

Definition config_missing (matches : list PatternMatch) (stripped : string) (m : PatternMatch) : list string :=
  let setter := ev_get (pm_evidence m) "setter" in
  let rtype := default "" (preferred_config_receiver_type matches m) in
  let prefer := name_or (default "" (find_state_var_of_type stripped rtype)) (default_var_name rtype) in
  if truthy prefer && truthy setter then [prefer +:+ "." +:+ setter] else [name_or setter "setter"].

(** [(?:manager\.)?grantRole\s*\([^;]*role] *)
Definition grant_shape_re (manager role : string) : re :=
  RAll [ROpt (RSeq (RStr manager) (RChr ".")); RStr "grantRole"; ws; RChr "("; RMany (RNoneOf ";"); RStr role].

Definition is_complete (matches : list PatternMatch) (stripped : string) (m : PatternMatch) : bool :=
  let ev := pm_evidence m in
  match pm_pattern m with
  | config_manager_field => config_complete matches stripped m
  | role_grant => re_test (grant_shape_re (ev_get ev "manager") (ev_get ev "role")) stripped
  | parent_attach => re_test (call_re (RStr (ev_get ev "setter"))) stripped
  end.

Definition missing_of (matches : list PatternMatch) (stripped : string) (m : PatternMatch) : list string :=
  let ev := pm_evidence m in
  match pm_pattern m with
  | config_manager_field => config_missing matches stripped m
  | role_grant => ["grantRole(" +:+ ev_get ev "role" +:+ ")"]
  | parent_attach => [name_or (ev_get ev "setter") "attach"]
  end.

Definition check_one (matches : list PatternMatch) (stripped : string) (m : PatternMatch) : ReachabilityCheck :=
  let complete := is_complete matches stripped m in
  mkCheck (pm_pattern m) complete (if complete then [] else missing_of matches stripped m) (pm_site m).

Definition check_reachability (matches : list PatternMatch) (compiled_base_source : string) : list ReachabilityCheck :=
  map (check_one matches (strip_comments compiled_base_source)) matches.

Definition reachability_checks_to_json (checks : list ReachabilityCheck) : list pyval :=
  map (fun c => PDict [("pattern", PStr (pattern_value (rc_pattern c)));
                       ("status", PStr (if rc_complete c then "complete" else "incomplete"));
                       ("missing", PList (map PStr (rc_missing c)));
                       ("protected_call_site",
                         match rc_site c with
                         | Some s => PDict [("contract", PStr (cs_contract s)); ("method", PStr (cs_method s))]
                         | None => PNone
                         end)]) checks.

(** ** The repair of a receiver *)

(** The setter's calls, retargeted unless their receiver is allowed; whether one was *)
Definition retarget (code setter preferred : string) (allowed : list string) : string * bool :=
  let ms := re_finditer (receiver_re setter) code in
  let ok m := bool_decide (group_or_empty 1 code m ∈ allowed) in
  (re_sub_with (receiver_re setter) (fun m => if ok m then group_or_empty 0 code m else preferred +:+ "." +:+ setter +:+ "(") code,
   existsb (fun m => negb (ok m)) ms).

(** Whether a contract that declares the setter is an ancestor of the type *)
Definition owns (ix : SymbolIndex) (setter type_name : string) : bool :=
  existsb (fun s => String.eqb (sy_kind s) "function" && truthy (sy_contract s) && is_subtype ix type_name (sy_contract s))
    (lookup ix setter).

(** The receiver to prefer and those to allow, from the index *)
Definition indexed_target (ix : SymbolIndex) (code setter rtype : string) (missing_types : list string) : option (string * list string) :=
  let preferred_rtype := if owns ix setter rtype then find_state_var_of_type code rtype else None in
  let mt_targets := omap (fun mt => if owns ix setter mt then find_state_var_of_type code mt else None) missing_types in
  let allowed := option_list preferred_rtype ++ mt_targets in
  match preferred_rtype, unique mt_targets with
  | Some v, _ => Some (v, allowed)
  | None, [v] => Some (v, allowed)
  | None, _ => None
  end.

Definition legacy_target (code rtype : string) : string * list string :=
  let preferred := name_or (default "" (find_state_var_of_type code rtype)) (default_var_name rtype) in
  (preferred, preferred :: vars_of_type code rtype).

Definition fix_wiring_receivers (code : string) (matches : list PatternMatch) (missing_types : list string)
  (symbol_index : option SymbolIndex) : string * bool :=
  match List.filter (has_pattern config_manager_field) matches with
  | [] => (code, false)
  | cfg :: _ =>
      let setter := ev_get (pm_evidence cfg) "setter" in
      match preferred_config_receiver_type matches cfg with
      | None => (code, false)
      | Some rtype =>
          if negb (truthy setter) then (code, false)
          else match symbol_index with
               | Some ix =>
                   match indexed_target ix code setter rtype missing_types with
                   | Some (preferred, allowed) => retarget code setter preferred allowed
                   | None => (code, false)
                   end
               | None =>
                   let '(preferred, allowed) := legacy_target code rtype in
                   if truthy preferred then retarget code setter preferred allowed else (code, false)
               end
      end
  end.

(** ** What synthesis is told *)

Definition EXTRAS_BLOCK_CHAR_BUDGET : nat := Z.to_nat 3500.
Definition ANCHOR_KEYS : list string := ["setter"; "gated_function"; "field"; "role"; "dependency_type"; "parent"; "manager"].

Definition anchors_of (m : PatternMatch) : list string :=
  List.filter truthy
    (omap (fun k => assoc k (pm_evidence m)) ANCHOR_KEYS
     ++ match pm_site m with Some s => [cs_method s; cs_contract s] | None => [] end).
Definition anchors_from_matches (matches : list PatternMatch) : list string :=
  foldl append_new [] (List.concat (map anchors_of matches)).

(** Where an anchor is, in bytes: at its function's header, else at its first occurrence *)
Definition anchor_at (text a : string) : option nat :=
  if truthy a then
    match re_search (RAll [RStr "function"; ws1; RStr a; RBound]) text with
    | Some m => Some (mt_start m)
    | None => sfind a text
    end
  else None.

Definition CUT : string := "// ...".
Definition ELLIPSIS : string := "// ... [truncated for synth prompt budget]" +:+ nls.

(** The window's first and last character, for an anchor at character [idx] of [n] *)
Definition window (budget idx n : nat) : nat * nat :=
  let start_guess := idx - budget / 3 in
  let end_guess := start_guess + budget in
  let markers := (if 0 <? start_guess then 7 else 0) + (if end_guess <? n then 8 else 0) in
  let room := budget - markers in
  let fin := Nat.min n ((idx - room / 3) + room) in
  (fin - room, fin).

Definition excerpt_source_for_extras (source : string) (anchors : list string) (budget : nat) : string :=
  if ulen source <=? budget then source
  else match omap (anchor_at source) anchors with
       | [] => utake (budget - ulen ELLIPSIS) source +:+ ELLIPSIS
       | i :: _ =>
           let n := ulen source in
           let '(start, fin) := window budget (ulen (stake i source)) n in
           unlines ((if 0 <? start then [CUT] else []) ++ [utake (fin - start) (udrop start source)]
                    ++ (if fin <? n then [CUT] else [])) +:+ nls
       end.

Definition wiring_line (matches : list PatternMatch) (m : PatternMatch) : string :=
  let ev := pm_evidence m in
  let show k := ev_show ev k in
  match pm_pattern m with
  | config_manager_field =>
      let rtype := match preferred_config_receiver_type matches m with Some t => t | None => show "gated_contract" end in
      "- Wire config-manager field `" +:+ show "field" +:+ "` by calling "
      +:+ "`<var>." +:+ show "setter" +:+ "(...)` where `<var>` is the newly deployed "
      +:+ "`" +:+ rtype +:+ "` instance (the state/local variable you declare for that type). "
      +:+ "Do NOT call `" +:+ show "setter" +:+ "` on a different contract type. "
      +:+ "Do this before calling `" +:+ show "gated_function" +:+ "`."
  | role_grant =>
      "- Grant role `" +:+ show "role" +:+ "` using the existing base's "
      +:+ "`" +:+ show "manager_call_shape" +:+ "` shape for grantee `" +:+ show "grantee" +:+ "`."
  | parent_attach =>
      "- Attach dependency `" +:+ show "dependency_type" +:+ "` onto parent "
      +:+ "`" +:+ show "parent" +:+ "` via `" +:+ show "setter" +:+ "(...)` "
      +:+ "(call on the parent instance; use the base's owner/authority prank if "
      +:+ "the setter is access-gated)."
  end.

Definition synthesis_extras (matches : list PatternMatch) (location_source : string) (parent : ParentResolution) (t : task) : string :=
  match matches with
  | [] => ""
  | _ =>
      let anchors := anchors_from_matches matches in
      unlines (
        ["[DATA START finding_location]"; task_str t "location"; task_str t "description"; "[DATA END finding_location]"; "";
         "[DATA START location_source]"; excerpt_source_for_extras location_source anchors EXTRAS_BLOCK_CHAR_BUDGET;
         "[DATA END location_source]"; ""]
        ++ (if existsb (has_pattern parent_attach) matches then
              ["[DATA START parent_source]"; excerpt_source_for_extras (default "" (pr_source_text parent)) anchors EXTRAS_BLOCK_CHAR_BUDGET;
               "[DATA END parent_source]"; ""]
            else [])
        ++ ["The setup helper you write MUST ALSO satisfy the following, using ONLY real";
            "constructors/setters/roles shown in the DATA blocks above (never invent API):"]
        ++ map (wiring_line matches) matches)
  end.

(** ** What is detected is in the sources *)

(** A match of the config-manager pattern: an address field that a guard requires to be the
    sender, with a function of the corpus whose body assigns it, not one under an authority
    outside the base *)
Definition config_grounded (combined base : string) (t : task) (m : PatternMatch) : Prop :=
  exists field guard hdr fn contract,
    m = mkMatch config_manager_field
          [("field", field); ("setter", group_or_empty 1 combined hdr); ("gated_contract", contract); ("gated_function", fn)]
          (Some (mkSite (normalize_contract_symbol contract) fn)) /\
    field ∈ re_findall1 ADDR_FIELD_RE combined /\ guard_references_field combined field = Some guard /\
    hdr ∈ re_finditer SETTER_HDR_RE combined /\ is_setter combined field hdr = true /\
    setter_authority_outside combined (group_or_empty 1 combined hdr) base = false /\
    fn <> "" /\ (function_at combined guard = Some fn \/ gated_from_task t = Some fn) /\
    contract <> "" /\ (contract_declaring combined guard = Some contract \/ contract_from_task t = Some contract).

(** A match of the role pattern: a grant that the base shows, and a role that a guard of
    the location names *)
Definition role_grounded (loc base : string) (t : task) (m : PatternMatch) : Prop :=
  exists grant guard r pos fn contract,
    m = mkMatch role_grant
          [("manager_call_shape", group_or_empty 0 base grant); ("role", strip (group_or_empty 1 loc guard));
           ("grantee", strip (group_or_empty 3 base grant)); ("manager", group_or_empty 1 base grant);
           ("gated_contract", contract); ("gated_function", fn)]
          (Some (mkSite (normalize_contract_symbol contract) fn)) /\
    re_search GRANT_CALL_RE base = Some grant /\
    (r ∈ [HAS_ROLE_RE; ONLY_ROLE_RE; REQUIRE_CONST_RE] /\ re_search r loc = Some guard /\ pos = mt_start guard) /\
    strip (group_or_empty 1 loc guard) <> "" /\
    fn <> "" /\ (function_at loc pos = Some fn \/ gated_from_task t = Some fn) /\
    contract <> "" /\ (contract_declaring loc pos = Some contract \/ contract_from_task t = Some contract).

(** A match of the attachment pattern: a setter of the resolved parent that takes the
    missing dependency or a base of it *)
Definition attach_grounded (loc : string) (parent : ParentResolution) (miss : string) (t : task) (m : PatternMatch) : Prop :=
  exists contract text dep sm,
    m = mkMatch parent_attach [("parent", contract); ("setter", group_or_empty 1 text sm); ("dependency_type", dep)]
          (Some (mkSite (normalize_contract_symbol contract) (group_or_empty 1 text sm))) /\
    pr_status parent = resolved /\ pr_contract parent = Some contract /\ contract <> "" /\ pr_source_text parent = Some text /\
    dependency_type miss = Some dep /\ dep <> "" /\
    re_search (attach_setter_re (dependency_attach_types miss dep)) text = Some sm /\ names_parent t loc contract = true.

Lemma find_setter_Some source field setter :
  find_setter_for_field source field = Some setter ->
  exists hdr, setter = group_or_empty 1 source hdr /\ hdr ∈ re_finditer SETTER_HDR_RE source /\ is_setter source field hdr = true.
Proof.
  unfold find_setter_for_field. destruct (List.filter _ _) as [|m ms] eqn:E; [done|]. intros [= <-]. exists m.
  assert (In m (List.filter (is_setter source field) (re_finditer SETTER_HDR_RE source))) as Hin by (rewrite E; by left).
  apply List.filter_In in Hin as [H1 H2]. split_and!; [done|by apply list_elem_of_In|done].
Qed.

Lemma or_name_cases a b s : or_name a b = Some s -> a = Some s \/ b = Some s.
Proof. unfold or_name. destruct a as [[|]|]; auto. Qed.

Lemma config_candidate_grounded combined base t field m :
  field ∈ re_findall1 ADDR_FIELD_RE combined -> config_candidate combined base t field = Some m -> config_grounded combined base t m.
Proof.
  intros Hf. unfold config_candidate. destruct (guard_references_field combined field) as [guard|] eqn:Hg; [|done].
  destruct (find_setter_for_field combined field) as [setter|] eqn:Hs; [|done].
  apply find_setter_Some in Hs as (hdr & -> & Hh1 & Hh2). destruct (group_or_empty 1 combined hdr) as [|c s] eqn:Hn; [done|].
  destruct (setter_authority_outside _ _ _) eqn:Ha; [done|].
  destruct (or_name (function_at _ _) _) as [[|fc fn]|] eqn:Hfn; [done| |done].
  destruct (or_name (contract_declaring _ _) _) as [[|cc ct]|] eqn:Hct; [done| |done]. intros [= <-].
  apply or_name_cases in Hfn. apply or_name_cases in Hct. exists field, guard, hdr, (String fc fn), (String cc ct).
  rewrite Hn. split_and!; auto.
Qed.

Lemma max_by_spec {A} (rank : A -> nat) x l :
  max_by rank x l ∈ x :: l /\ forall y, y ∈ x :: l -> rank y <= rank (max_by rank x l).
Proof.
  unfold max_by. revert x. induction l as [|z l IH]; intros x; cbn [foldl].
  { split; [by left|]. intros y ->%list_elem_of_singleton. done. }
  destruct (Nat.ltb_spec (rank x) (rank z)) as [Hlt|Hge].
  - destruct (IH z) as [H1 H2]. split; [by right|]. intros y [->|Hy]%elem_of_cons; [|by apply H2].
    etrans; [|apply H2; by left]. lia.
  - destruct (IH x) as [H1 H2]. split; [apply elem_of_cons in H1 as [->|H1]; [by left|by right; right]|].
    intros y [->|[->|Hy]%elem_of_cons]%elem_of_cons; [apply H2; by left| |apply H2; by right].
    etrans; [exact Hge|]. apply H2. by left.
Qed.

Lemma detect_config_grounded loc miss base t m :
  detect_config_manager loc miss base t = Some m ->
  config_grounded (loc +:+ nls +:+ miss) base t m /\
  forall field m', field ∈ re_findall1 ADDR_FIELD_RE (loc +:+ nls +:+ miss) ->
    config_candidate (loc +:+ nls +:+ miss) base t field = Some m' ->
    config_rank (task_or_empty t "location" +:+ " " +:+ task_or_empty t "description") m'
    <= config_rank (task_or_empty t "location" +:+ " " +:+ task_or_empty t "description") m.
Proof.
  unfold detect_config_manager. set (combined := loc +:+ nls +:+ miss). set (key := task_or_empty t "location" +:+ _).
  destruct (omap _ _) as [|c cs] eqn:E; [done|]. intros [= <-]. destruct (max_by_spec (config_rank key) c cs) as [H1 H2].
  rewrite <- E in H1. split.
  - apply list_elem_of_omap in H1 as (field & Hf & Hc). by eapply config_candidate_grounded.
  - intros field m' Hf Hc. apply H2. rewrite <- E. apply list_elem_of_omap. by exists field.
Qed.

(** Where a role comes from *)
Definition role_from (loc : string) (found : string * nat) : Prop :=
  truthy found.1 = true ->
  exists r guard, r ∈ [HAS_ROLE_RE; ONLY_ROLE_RE; REQUIRE_CONST_RE] /\ re_search r loc = Some guard /\
    found = (strip (group_or_empty 1 loc guard), mt_start guard).

Lemma seek_role_from r loc found :
  r ∈ [HAS_ROLE_RE; ONLY_ROLE_RE; REQUIRE_CONST_RE] -> role_from loc found -> role_from loc (seek_role r loc found).
Proof.
  intros Hr Hf. unfold seek_role. destruct (truthy found.1) eqn:Ht; [done|]. destruct (re_search r loc) as [m|] eqn:Hm; [|done].
  intros _. by exists r, m.
Qed.

Lemma detect_role_grounded loc base t m : detect_role_grant loc base t = Some m -> role_grounded loc base t m.
Proof.
  unfold detect_role_grant. destruct (re_search GRANT_CALL_RE base) as [grant|] eqn:Hg; [|done].
  destruct (seek_role REQUIRE_CONST_RE _ _) as [role pos] eqn:Hr.
  assert (role_from loc (role, pos)) as Hfrom.
  { rewrite <- Hr. apply seek_role_from; [set_solver|]. apply seek_role_from; [set_solver|]. apply seek_role_from; [set_solver|]. done. }
  destruct (truthy role) eqn:Ht; [|done]. cbn [negb]. destruct (Hfrom Ht) as (r & guard & Hr' & Hs & [= -> ->]).
  destruct (or_name (gated_from_task t) _) as [[|fc fn]|] eqn:Hfn; [done| |done].
  destruct (or_name (contract_declaring _ _) _) as [[|cc ct]|] eqn:Hct; [done| |done]. intros [= <-].
  apply or_name_cases in Hfn. apply or_name_cases in Hct. exists grant, guard, r, (mt_start guard), (String fc fn), (String cc ct).
  split_and!; try done; [|tauto]. by intros H; rewrite H in Ht.
Qed.

Lemma detect_attach_grounded loc parent miss t m :
  detect_parent_attach loc parent miss t = Some m -> attach_grounded loc parent miss t m.
Proof.
  unfold detect_parent_attach. destruct (pr_status parent) eqn:Hs; try done. destruct (pr_contract parent) as [[|cc ct]|] eqn:Hc; try done.
  destruct (pr_source_text parent) as [[|tc tx]|] eqn:Ht; try done. destruct (dependency_type miss) as [[|dc dp]|] eqn:Hd; try done.
  destruct (re_search _ _) as [sm|] eqn:Hm; [|done]. destruct (names_parent _ _ _) eqn:Hn; [|done]. intros [= <-].
  eexists _, _, _, sm. split_and!; done.
Qed.

Lemma grounded_pattern_cfg combined base t m : config_grounded combined base t m -> pm_pattern m = config_manager_field.
Proof. by intros (? & ? & ? & ? & ? & -> & _). Qed.
Lemma grounded_pattern_role loc base t m : role_grounded loc base t m -> pm_pattern m = role_grant.
Proof. by intros (? & ? & ? & ? & ? & ? & -> & _). Qed.
Lemma grounded_pattern_attach loc parent miss t m : attach_grounded loc parent miss t m -> pm_pattern m = parent_attach.
Proof. by intros (? & ? & ? & ? & -> & _). Qed.

(** The three detections are looked up in the order in which they were made *)
Lemma detect_patterns_app t loc parent miss base :
  let loc' := strip_comments loc in let miss' := strip_comments miss in let base' := strip_comments base in
  detect_patterns t loc parent miss base =
    option_list (detect_config_manager loc' miss' base' t) ++ option_list (detect_role_grant loc' base' t)
    ++ option_list (detect_parent_attach loc' (strip_parent parent) miss' t).
Proof.
  cbv zeta. unfold detect_patterns. cbv zeta.
  destruct (detect_config_manager _ _ _ _) as [c|] eqn:Hc; [apply detect_config_grounded in Hc as [Hc%grounded_pattern_cfg _]|];
    (destruct (detect_role_grant _ _ _) as [r|] eqn:Hr; [apply detect_role_grounded, grounded_pattern_role in Hr|]);
    (destruct (detect_parent_attach _ _ _ _) as [a|] eqn:Ha; [apply detect_attach_grounded, grounded_pattern_attach in Ha|]);
    cbn [option_list app map]; rewrite ?Hc, ?Hr, ?Ha; reflexivity.
Qed.

(** C33. Nothing is detected that the sources do not show: the matches come in the order of
    the patterns, each pattern at most once; every match names a field, guard, setter,
    role, grant or attachment found in the stripped sources it was read from; and the
    config-manager match is one of highest rank among the fields that give one. *)
Theorem detected_grounded t loc parent miss base :
  let loc' := strip_comments loc in let miss' := strip_comments miss in let base' := strip_comments base in
  let ms := detect_patterns t loc parent miss base in
  sublist (map pm_pattern ms) PATTERN_ORDER /\
  Forall (fun m => match pm_pattern m with
                   | config_manager_field =>
                       config_grounded (loc' +:+ nls +:+ miss') base' t m /\
                       forall field m', field ∈ re_findall1 ADDR_FIELD_RE (loc' +:+ nls +:+ miss') ->
                         config_candidate (loc' +:+ nls +:+ miss') base' t field = Some m' ->
                         config_rank (task_or_empty t "location" +:+ " " +:+ task_or_empty t "description") m'
                         <= config_rank (task_or_empty t "location" +:+ " " +:+ task_or_empty t "description") m
                   | role_grant => role_grounded loc' base' t m
                   | parent_attach => attach_grounded loc' (strip_parent parent) miss' t m
                   end) ms.
Proof.
  cbv zeta. rewrite detect_patterns_app. rewrite !map_app, !Forall_app. split.
  - change PATTERN_ORDER with ([config_manager_field] ++ [role_grant] ++ [parent_attach]). apply sublist_app; [|apply sublist_app].
    + destruct (detect_config_manager _ _ _ _) as [c|] eqn:H; [|apply sublist_nil_l]. cbn.
      apply detect_config_grounded in H as [->%grounded_pattern_cfg _]. done.
    + destruct (detect_role_grant _ _ _) as [c|] eqn:H; [|apply sublist_nil_l]. cbn. by apply detect_role_grounded, grounded_pattern_role in H as ->.
    + destruct (detect_parent_attach _ _ _ _) as [c|] eqn:H; [|apply sublist_nil_l]. cbn. by apply detect_attach_grounded, grounded_pattern_attach in H as ->.
  - split_and!.
    + destruct (detect_config_manager _ _ _ _) as [c|] eqn:H; [|constructor]. apply Forall_singleton.
      apply detect_config_grounded in H. by rewrite (grounded_pattern_cfg _ _ _ _ (proj1 H)).
    + destruct (detect_role_grant _ _ _) as [c|] eqn:H; [|constructor]. apply Forall_singleton.
      apply detect_role_grounded in H. by rewrite (grounded_pattern_role _ _ _ _ H).
    + destruct (detect_parent_attach _ _ _ _) as [c|] eqn:H; [|constructor]. apply Forall_singleton.
      apply detect_attach_grounded in H. by rewrite (grounded_pattern_attach _ _ _ _ _ H).
Qed.

(** ** What a complete check means *)

Lemma named_nonempty ev k : named ev k <> Some "".
Proof. unfold named. by destruct (assoc k ev) as [[|]|]. Qed.

Lemma receiver_type_nonempty ms m : preferred_config_receiver_type ms m <> Some "".
Proof.
  unfold preferred_config_receiver_type. destruct (omap _ ms) as [|d ds] eqn:E; [apply named_nonempty|]. intros [= ->].
  assert (("" : string) ∈ "" :: ds) as Hin by left. rewrite <- E in Hin. apply list_elem_of_omap in Hin as (m' & _ & Hm').
  destruct (has_pattern _ _); [|done]. by eapply named_nonempty.
Qed.

Lemma vars_of_type_nonempty src ty : ty <> "" -> vars_of_type src ty <> [].
Proof. intros Hty. destruct ty; [done|]. unfold vars_of_type. by intros [_ ?]%app_nil. Qed.

Lemma existsb_elem {A} (f : A -> bool) l : existsb f l = true <-> exists x, x ∈ l /\ f x = true.
Proof. rewrite existsb_exists. split; intros (x & H1 & H2); exists x; (split; [by apply list_elem_of_In|done]). Qed.

(** The names a type's instance may have: those declared in the source and, whether it is
    declared or not, the type's own with a small first letter *)
Definition receiver_of (source ty v : string) : Prop :=
  v ∈ re_findall1 (RSeq (declared_re ty) RBound) source \/ v = default_var_name ty.

(** A call of the setter, or one on such a receiver, with an argument that is not zero *)
Definition sets (source setter : string) : Prop :=
  exists m, m ∈ re_finditer (RSeq (call_re (RStr setter)) args_end) source /\ nonzero_args source m = true.
Definition wired (source setter ty : string) : Prop :=
  setter <> "" /\
  exists m, m ∈ re_finditer (RSeq (receiver_re setter) args_end) source /\ receiver_of source ty (group_or_empty 1 source m) /\ nonzero_args source m = true.

(** The first call of the setter comes before the first one of the gated function, if any *)
Definition precedes_use (source setter : string) (gated_fn : option string) : Prop :=
  exists sm, re_search (call_re (RStr setter)) source = Some sm /\
    forall fn gm, gated_fn = Some fn -> fn <> "" -> re_search (call_re (RStr fn)) source = Some gm -> mt_start sm < mt_start gm.

(** The base calls a proposal, an execution and the delay, in whatever order *)
Definition two_steps (source : string) : Prop :=
  re_test (bare_call_re PROPOSE_RE) source = true /\ re_test (bare_call_re EXECUTE_RE) source = true /\ re_test WARP_RE source = true.

(** What makes a configured gate complete *)
Definition gate_wired (ms : list PatternMatch) (src : string) (m : PatternMatch) : Prop :=
  let setter := ev_get (pm_evidence m) "setter" in
  let in_order :=
    if two_step_base src then sets src setter \/ two_steps src else precedes_use src setter (assoc "gated_function" (pm_evidence m)) in
  match preferred_config_receiver_type ms m with
  | Some ty => wired src setter ty /\ in_order
  | None => in_order /\ (two_step_base src = false -> sets src setter)
  end.

Lemma elem_of_vars src ty v : ty <> "" -> v ∈ vars_of_type src ty <-> receiver_of src ty v.
Proof.
  intros Hty. unfold receiver_of. destruct ty as [|c ty]; [done|]. unfold vars_of_type. by rewrite elem_of_app, list_elem_of_singleton.
Qed.

Lemma has_nonzero_sets src setter : has_nonzero_setter_call src setter = true <-> sets src setter.
Proof. apply existsb_elem. Qed.

Lemma setter_on_allowed_wired src setter ty : ty <> "" -> setter_on_allowed_receiver src setter (vars_of_type src ty) = true <-> wired src setter ty.
Proof.
  intros Hty. unfold setter_on_allowed_receiver, wired. rewrite !andb_true_iff, negb_true_iff, bool_decide_eq_false, existsb_elem.
  assert (truthy setter = true <-> setter <> "") as -> by by destruct setter.
  split; [intros [[Hs _] (m & Hm & [Hv%bool_decide_eq_true Hn]%andb_prop)]|intros [Hs (m & Hm & Hv & Hn)]].
  - split; [done|]. exists m. split_and!; [done| |done]. by apply elem_of_vars.
  - split; [split; [done|by apply vars_of_type_nonempty]|]. exists m. split; [done|]. rewrite Hn, andb_true_r.
    by apply bool_decide_eq_true, elem_of_vars.
Qed.

Lemma call_before_use_precedes src setter gated : call_before_use src setter gated = true <-> precedes_use src setter gated.
Proof.
  unfold call_before_use, precedes_use. destruct (re_search (call_re (RStr setter)) src) as [sm|]; [|split; [done|by intros (? & [=] & _)]].
  destruct gated as [[|c fn]|]; [split; [intros _; exists sm; split; [done|]; by intros ? ? [= <-]|done]| |split; [intros _; by exists sm|done]].
  destruct (re_search _ _) as [gm|] eqn:Hg.
  - rewrite Nat.ltb_lt. split.
    + intros Hlt. exists sm. split; [done|]. intros fn' gm' [= <-] _ Hg'. congruence.
    + intros (sm' & [= <-] & H). by apply (H (String c fn) gm).
  - split; [|done]. intros _. exists sm. split; [done|]. intros fn' gm' [= <-] _ Hg'. congruence.
Qed.

(** The order of the two steps plays no part: a proposal with an execution and a delay is
    looked for again without it, and a call that sets something counts alone *)
Lemma two_step_any src setter :
  two_step_complete src setter && has_nonzero_setter_call src setter = has_nonzero_setter_call src setter.
Proof.
  destruct (has_nonzero_setter_call src setter) eqn:H; [|apply andb_false_r]. rewrite andb_true_r. unfold two_step_complete.
  destruct (re_finditer _ _), (re_finditer _ _), (re_search WARP_RE src); rewrite ?H, ?orb_true_r; try done; by destruct (_ && _).
Qed.

Lemma two_steps_test src :
  re_test (bare_call_re PROPOSE_RE) src && re_test (bare_call_re EXECUTE_RE) src && re_test WARP_RE src = true <-> two_steps src.
Proof. unfold two_steps. rewrite !andb_true_iff. tauto. Qed.

Lemma config_complete_wired ms src m : config_complete ms src m = true <-> gate_wired ms src m.
Proof.
  unfold config_complete, gate_wired. cbv zeta. rewrite two_step_any. set (setter := ev_get _ _). destruct (preferred_config_receiver_type ms m) as [ty|] eqn:Ht.
  - assert (ty <> "") as Hty by (intros ->; by eapply receiver_type_nonempty).
    rewrite bool_decide_false by by apply vars_of_type_nonempty. cbn [negb]. rewrite andb_true_r, <- setter_on_allowed_wired by done.
    destruct (two_step_base src).
    + rewrite <- has_nonzero_sets, <- two_steps_test, <- orb_true_iff. destruct (_ || _); (split; [by intros|by intros [? ?]]).
    + by rewrite andb_true_iff, call_before_use_precedes.
  - rewrite bool_decide_true by done. cbn [negb]. rewrite andb_false_r. destruct (two_step_base src).
    + rewrite orb_true_iff, has_nonzero_sets, two_steps_test. naive_solver.
    + rewrite andb_true_iff, call_before_use_precedes, has_nonzero_sets. naive_solver.
Qed.

Lemma default_var_nonempty ty : ty <> "" -> default_var_name ty <> "".
Proof. by destruct ty. Qed.

Lemma sapp_nonempty a b : b <> "" -> a +:+ b <> "".
Proof. by destruct a. Qed.

Lemma name_or_cases (o : option string) d :
  d <> "" -> truthy (name_or (default "" o) d) = true /\ (o = Some (name_or (default "" o) d) \/ name_or (default "" o) d = d).
Proof. unfold name_or. destruct o as [[|c v]|], d; auto. Qed.

(** An incomplete check names one call *)
Lemma missing_of_one ms src m :
  exists call, missing_of ms src m = [call] /\ call <> "" /\
    forall ty, pm_pattern m = config_manager_field -> preferred_config_receiver_type ms m = Some ty -> ev_get (pm_evidence m) "setter" <> "" ->
      exists v, call = v +:+ "." +:+ ev_get (pm_evidence m) "setter" /\ (find_state_var_of_type src ty = Some v \/ v = default_var_name ty).
Proof.
  unfold missing_of. destruct (pm_pattern m).
  - unfold config_missing. cbv zeta. destruct (preferred_config_receiver_type ms m) as [ty|] eqn:Hty; cbn [default id].
    + assert (default_var_name ty <> "") as Hd by (apply default_var_nonempty; intros ->; by eapply receiver_type_nonempty).
      destruct (name_or_cases (find_state_var_of_type src ty) (default_var_name ty) Hd) as [-> Hp]. cbn [andb].
      destruct (ev_get (pm_evidence m) "setter") as [|c setter]; cbn [truthy name_or]; eexists; (split; [done|]); (split; [done || by apply sapp_nonempty|]);
        intros ty' _ [= <-]; [done|]. intros _. by exists (name_or (default "" (find_state_var_of_type src ty)) (default_var_name ty)).
    + destruct (_ && _); eexists; (split; [done|]); (split; [|done]); [by apply sapp_nonempty|unfold name_or; by destruct (ev_get _ _)].
  - eexists. split_and!; [done|done|]. by intros ? [=].
  - eexists. split_and!; [done|unfold name_or; by destruct (ev_get _ _)|]. by intros ? [=].
Qed.


(** ** The repair of a receiver *)

(** What the repaired code has at a call of the setter *)
Definition repaired (code setter preferred : string) (allowed : list string) (m : rmatched) : string :=
  if bool_decide (group_or_empty 1 code m ∈ allowed) then group_or_empty 0 code m else preferred +:+ "." +:+ setter +:+ "(".

Lemma existsb_negb_false {A} (f : A -> bool) l : existsb (fun x => negb (f x)) l = false -> forall x, x ∈ l -> f x = true.
Proof.
  intros H x Hx. destruct (f x) eqn:E; [done|]. assert (existsb (fun x => negb (f x)) l = true); [|congruence].
  apply existsb_elem. exists x. by rewrite E.
Qed.

Lemma retarget_spec code setter preferred allowed :
  let r := retarget code setter preferred allowed in
  let ps := pieces code 0 (re_finditer (receiver_re setter) code) in
  code = render_pieces (group_or_empty 0 code) ps /\ r.1 = render_pieces (repaired code setter preferred allowed) ps /\
  (r.2 = true <-> exists m, m ∈ re_finditer (receiver_re setter) code /\ (group_or_empty 1 code m ∉ allowed)) /\
  (r.2 = false -> r.1 = code).
Proof.
  cbv zeta. unfold retarget. cbn [fst snd]. split_and!.
  - rewrite render_pieces_same by apply finditer_laid_out. symmetry. apply sdrop_0.
  - unfold re_sub_with. by rewrite sub_with_pieces.
  - rewrite existsb_elem. split; intros (m & Hm & H); exists m; (split; [done|]).
    + by apply negb_true_iff, bool_decide_eq_false in H.
    + by apply negb_true_iff, bool_decide_eq_false.
  - intros H. apply re_sub_same. intros m Hm. by rewrite (existsb_negb_false _ _ H m Hm).
Qed.

(** A variable that the code declares at a type which inherits the setter *)
Definition owner_var (ix : SymbolIndex) (code setter rtype : string) (missing_types : list string) (v : string) : Prop :=
  exists ty, find_state_var_of_type code ty = Some v /\ owns ix setter ty = true /\ (ty = rtype \/ ty ∈ missing_types).

Lemma indexed_target_owners ix code setter rtype mts v allowed :
  indexed_target ix code setter rtype mts = Some (v, allowed) ->
  v ∈ allowed /\ Forall (owner_var ix code setter rtype mts) allowed.
Proof.
  unfold indexed_target. set (pr := if owns ix setter rtype then _ else None). set (targets := omap _ mts).
  assert (Forall (owner_var ix code setter rtype mts) (option_list pr ++ targets)) as Hall.
  { apply Forall_app. split.
    - unfold pr. destruct (owns ix setter rtype) eqn:Ho; [|constructor]. destruct (find_state_var_of_type code rtype) eqn:Hf; [|constructor].
      apply Forall_singleton. exists rtype. auto.
    - apply Forall_forall. intros x (mt & Hmt & Hx)%list_elem_of_omap. destruct (owns ix setter mt) eqn:Ho; [|done]. exists mt. auto. }
  destruct pr as [p|]; [intros [= <- <-]; split; [by left|done]|].
  destruct (unique targets) as [|x [|]] eqn:Hu; try done. intros [= <- <-]. split; [|done]. cbn [option_list app].
  apply (elem_of_unique_from [] targets). change (x ∈ unique targets). rewrite Hu. by left.
Qed.

(** [code'] is [code] with calls of a detected setter retargeted *)
Definition retargeted (code code' : string) (matches : list PatternMatch) (missing_types : list string) (symbol_index : option SymbolIndex) : Prop :=
  exists cfg rtype preferred allowed,
    let setter := ev_get (pm_evidence cfg) "setter" in
    let ps := pieces code 0 (re_finditer (receiver_re setter) code) in
    cfg ∈ matches /\ pm_pattern cfg = config_manager_field /\ preferred_config_receiver_type matches cfg = Some rtype /\
    code = render_pieces (group_or_empty 0 code) ps /\ code' = render_pieces (repaired code setter preferred allowed) ps /\
    (exists m, m ∈ re_finditer (receiver_re setter) code /\ (group_or_empty 1 code m ∉ allowed)) /\ preferred ∈ allowed /\
    match symbol_index with
    | Some ix => Forall (owner_var ix code setter rtype missing_types) allowed
    | None => allowed = preferred :: vars_of_type code rtype
    end.

(** The repair of receivers only retargets: the code falls into the calls of the setter
    and the text between them, which stays; a call on an allowed receiver stays, any other
    becomes the same call on the preferred variable; a change is reported exactly when one
    was made, and with an index both the preferred variable and the allowed ones are
    declared in the code at types that inherit the setter from a contract that has it. *)
Theorem wiring_only_retargets code matches missing_types symbol_index :
  let r := fix_wiring_receivers code matches missing_types symbol_index in
  (r.2 = false -> r.1 = code) /\ (r.2 = true -> retargeted code r.1 matches missing_types symbol_index).
Proof.
  cbv zeta. unfold fix_wiring_receivers. destruct (List.filter _ matches) as [|cfg ?] eqn:Hf; [by split|].
  assert (cfg ∈ matches /\ pm_pattern cfg = config_manager_field) as [Hin Hp].
  { assert (In cfg (List.filter (has_pattern config_manager_field) matches)) as H by (rewrite Hf; by left).
    apply List.filter_In in H as [H1 H2]. apply list_elem_of_In in H1. by apply bool_decide_eq_true in H2. }
  destruct (preferred_config_receiver_type matches cfg) as [rtype|] eqn:Hr; [|by split].
  destruct (truthy _); [|by split]. cbn [negb]. set (setter := ev_get _ _).
  assert (forall preferred allowed, preferred ∈ allowed ->
    match symbol_index with
    | Some ix => Forall (owner_var ix code setter rtype missing_types) allowed
    | None => allowed = preferred :: vars_of_type code rtype
    end ->
    let r := retarget code setter preferred allowed in
    (r.2 = false -> r.1 = code) /\ (r.2 = true -> retargeted code r.1 matches missing_types symbol_index)) as Hmain.
  { intros preferred allowed Hpa Hall. destruct (retarget_spec code setter preferred allowed) as (H1 & H2 & H3 & H4).
    split; [done|]. intros Ht. exists cfg, rtype, preferred, allowed. cbv zeta. fold setter. split_and!; auto. by apply H3. }
  destruct symbol_index as [ix|].
  - destruct (indexed_target _ _ _ _ _) as [[v allowed]|] eqn:Hi; [|by split]. apply indexed_target_owners in Hi as [H1 H2]. by apply Hmain.
  - unfold legacy_target. destruct (truthy _); [|by split]. apply Hmain; [by left|done].
Qed.

(** ** Excerpts *)

Lemma window_spec budget idx n :
  15 <= budget -> budget < n -> idx <= n ->
  let '(start, fin) := window budget idx n in
  start <= idx <= fin /\ fin <= n /\
  (if 0 <? start then 7 else 0) + (fin - start) + (if fin <? n then 8 else 1) <= budget + 8.
Proof.
  intros Hb Hn Hi. unfold window. cbv zeta.
  assert (forall a, 3 * (a / 3) <= a < 3 * (a / 3) + 3) as Hdiv.
  { intros a. pose proof (Nat.div_mod_eq a 3). pose proof (Nat.mod_upper_bound a 3 ltac:(lia)). lia. }
  pose proof (Hdiv budget). destruct (Nat.ltb_spec 0 (idx - budget / 3)), (Nat.ltb_spec (idx - budget / 3 + budget) n);
    match goal with |- context [(budget - ?k) / 3] => pose proof (Hdiv (budget - k)) end;
    match goal with |- context [0 <? ?a] => destruct (Nat.ltb_spec 0 a) end;
    match goal with |- context [?a <? n] => destruct (Nat.ltb_spec a n) end; lia.
Qed.

Lemma ulen_stake_le n s : ulen (stake n s) <= ulen s.
Proof. rewrite <- (stake_sdrop n s) at 2. rewrite ulen_app. lia. Qed.

(** An excerpt keeps its budget, up to eight characters of markers: a text that fits is
    left as it is; any other becomes its beginning with a note or, when an anchor is found
    in it, a window of the text around the first such anchor between markers. *)
Theorem excerpt_within source anchors budget :
  ulen ELLIPSIS <= budget ->
  let e := excerpt_source_for_extras source anchors budget in
  ulen e <= budget + 8 /\
  (ulen source <= budget -> e = source) /\
  (budget < ulen source ->
   match omap (anchor_at source) anchors with
   | [] => e = utake (budget - ulen ELLIPSIS) source +:+ ELLIPSIS
   | i :: _ => exists start fin before after, e = before +:+ utake (fin - start) (udrop start source) +:+ after +:+ nls /\
       start <= ulen (stake i source) <= fin /\ fin <= ulen source /\
       before = (if 0 <? start then CUT +:+ nls else "") /\ after = (if fin <? ulen source then nls +:+ CUT else "")
   end).
Proof.
  intros Hb. cbv zeta. unfold excerpt_source_for_extras. destruct (Nat.leb_spec (ulen source) budget) as [Hfit|Hlong]; [split_and!; [lia|done|lia]|].
  destruct (omap (anchor_at source) anchors) as [|i others] eqn:Ha.
  { split_and!; [|lia|done]. rewrite ulen_app. pose proof (ulen_utake (budget - ulen ELLIPSIS) source). lia. }
  assert (15 <= budget) as H15. { etrans; [|exact Hb]. vm_compute. lia. }
  pose proof (window_spec budget (ulen (stake i source)) (ulen source) H15 Hlong (ulen_stake_le i source)) as Hw.
  destruct (window budget (ulen (stake i source)) (ulen source)) as [start fin]. destruct Hw as (Hs & Hf & Hlen).
  set (w := utake (fin - start) (udrop start source)). pose proof (ulen_utake (fin - start) (udrop start source)) as Hwl. fold w in Hwl.
  assert (unlines ((if 0 <? start then [CUT] else []) ++ [w] ++ (if fin <? ulen source then [CUT] else [])) +:+ nls
    = (if 0 <? start then CUT +:+ nls else "") +:+ w +:+ (if fin <? ulen source then nls +:+ CUT else "") +:+ nls) as ->.
  { unfold unlines. destruct (0 <? start), (fin <? ulen source); cbn [app join]; by rewrite ?sapp_assoc, ?sapp_nil_r. }
  split_and!; [|lia|].
  - assert (ulen CUT = 6 /\ ulen nls = 1 /\ ulen "" = 0) as (Hc & Hnl & He) by done.
    rewrite !ulen_app. destruct (0 <? start), (fin <? ulen source); rewrite ?ulen_app, ?Hc, ?Hnl, ?He; lia.
  - intros _. exists start, fin, (if 0 <? start then CUT +:+ nls else ""), (if fin <? ulen source then nls +:+ CUT else ""). auto.
Qed.

(** ** Concrete sources *)

Definition vault_source : string :=
  unlines ["contract Vault {"; "  address  config;"; "  modifier onlyConfig() { require(config == msg.sender); _; }";
           "  function setConfig(address c) external { if (true) { config = c; } }"; "  function act() external onlyConfig {"; "    x = 1; }"; "}"].
Definition vault_task : task := [("location", Some "Vault.act"); ("description", Some "call `Vault`")].
Definition vault_matches : list PatternMatch :=
  [mkMatch config_manager_field [("field", "config"); ("setter", "setConfig"); ("gated_contract", "Vault"); ("gated_function", "act")]
     (Some (mkSite "Vault" "act"))].
Definition base_with (receiver : string) : string :=
  unlines ["contract Base {"; "  Vault internal v;"; "  function setUp() public { v = new Vault(); " +:+ receiver +:+ ".setConfig(address(this)); v.act(); }"; "}"].

(** The gate of the vault is detected; a base that configures another contract is
    incomplete, the repair retargets the call, and the repaired base is complete *)
Example vault_wired :
  detect_patterns vault_task vault_source (unresolved no_candidate) "" "" = vault_matches /\
  map rc_missing (check_reachability vault_matches (base_with "other")) = [["v.setConfig"]] /\
  fix_wiring_receivers (base_with "other") vault_matches [] None = (base_with "v", true) /\
  map rc_complete (check_reachability vault_matches (base_with "v")) = [true].
Proof. vm_compute. done. Qed.

(** A call on the type's default name counts although that name is of another type *)
Lemma undeclared_receiver_complete :
  let base := unlines ["contract Base {"; "  Token vault;"; "  function setUp() public { vault.setConfig(address(this)); }"; "}"] in
  re_findall1 (RSeq (declared_re "Vault") RBound) base = [] /\ map rc_complete (check_reachability vault_matches base) = [true].
Proof. vm_compute. done. Qed.

(** With one blank before its name a field that has no visibility is not recognised: the
    pattern asks for blanks on both sides of the optional visibility *)
Lemma plain_field_missed :
  re_findall1 ADDR_FIELD_RE "address config;" = [] /\ re_findall1 ADDR_FIELD_RE "address  config;" = ["config"] /\
  detect_patterns vault_task (replace "address  config" "address config" vault_source) (unresolved no_candidate) "" "" = [].
Proof. vm_compute. done. Qed.

(** A comparison counts as an assignment, so the gated function can pass for the setter *)
Lemma comparison_taken_for_setter :
  find_setter_for_field "function act() external { require(config == msg.sender); } function setConfig(address c) external { config = c; }" "config"
  = Some "act".
Proof. vm_compute. done. Qed.

(** The order of the two steps and the delay is not looked at *)
Lemma two_step_order_ignored :
  let source := "vm.warp(1); m.executeConfig(a); m.proposeConfig(a);" in
  two_step_complete source "setConfig" = true.
Proof. vm_compute. done. Qed.

(** The markers that the window gets are those of its first guess: the excerpt can exceed
    its budget *)
Lemma excerpt_over_budget :
  let source := String.concat "" (repeat "x" 19) +:+ "setConfig" +:+ String.concat "" (repeat "y" 80) in
  ulen (excerpt_source_for_extras source ["setConfig"] 60) = 67.
Proof. vm_compute. done. Qed.

Lemma excerpt_within_witness :
  let source := String.concat "" (repeat "x" 19) +:+ "setConfig" +:+ String.concat "" (repeat "y" 80) in
  ulen (excerpt_source_for_extras source ["setConfig"] 60) <= 68.
Proof.
  cbv zeta. refine (proj1 (excerpt_within (String.concat "" (repeat "x" 19) +:+ "setConfig" +:+ String.concat "" (repeat "y" 80)) ["setConfig"] 60 _)).
  vm_compute. lia.
Defined.
