(* ===== verification/Repeat.v ===== *)
(** * Repeated reverts and dropped mechanisms (audit_agent/proof/scaffold_reachability.py)

    Where a failing run reverted, who called, the streak of equal reverts that raises the
    wiring hypothesis, its hint, and the baseline of exercised methods.  All of it is pure;
    the run's output and the draft are given. *)

From stdpp Require Import gmap.
From S2P Require Import Prelude PyStr PyRe SolUtils Reach.

(** ** The reverting frame *)

Definition REVERT_LEAF_RE : re :=
  RAll [RBol false; RGroup 1 (RManyLazy RDot); RAny [RStr "←"; RStr "<-"]; ws; RStr "[Revert]"; RAny [RSpace; REol false]].
Definition HEADER_RE : re :=
  RAll [RBol false; RGroup 1 (RSeq ws (ROpt (RMany (RAny [RStr "│"; RStr "├"; RStr "└"; RStr "─"; RChr "|"; RSpace]))));
        RChr "["; RGroup 2 (RSome RDigit); RChr "]"; ws1; RGroup 3 word1; RStr "::"; RGroup 4 word1; RChr "("].
(** [^[A-Za-z_]\w*\(.*\)$] *)
Definition CUSTOM_ERR_RE : re :=
  RAll [RBol false; RSet (fun c => is_alpha c || Ascii.eqb c "_"); RMany RWord; RChr "("; RMany RDot; RChr ")"; REol false].

(** The depth of a revert line, in characters *)
Definition revert_depth (line : string) : option nat :=
  (fun m => ulen (group_or_empty 1 line m)) <$> re_match REVERT_LEAF_RE line.

(** A call's header: its depth and the call *)
Definition header (line : string) : option (nat * CallSite) :=
  (fun m => (ulen (group_or_empty 1 line m),
             mkSite (normalize_contract_symbol (group_or_empty 3 line m)) (group_or_empty 4 line m))) <$> re_match HEADER_RE line.

(** A header at the depth of the revert or one above *)
Definition frame_at (d : nat) (line : string) : option CallSite :=
  match header line with
  | Some (h, site) => if bool_decide (S h = d) || bool_decide (h = d) then Some site else None
  | None => None
  end.

(** The first revert line: the lines before it, the last one first, and its depth *)
Fixpoint first_revert (before lines : list string) : option (list string * nat) :=
  match lines with
  | [] => None
  | line :: lines' => match revert_depth line with Some d => Some (before, d) | None => first_revert (line :: before) lines' end
  end.

Definition canonical_call_site (stdout : string) : option CallSite :=
  '(before, d) ← first_revert [] (splitlines stdout);
  head (omap (frame_at d) before).

Definition canonical_revert_selector (fail_entry : string) : string :=
  let text := strip fail_entry in
  if re_fullstart CUSTOM_ERR_RE text then before_char "(" text else text.

Definition extract_repeat_evidence (stdout stderr : string) : option CallSite * option string :=
  (canonical_call_site stdout, canonical_revert_selector <$> head (fail_signature (stdout +:+ nls +:+ stderr))).

(** ** The caller *)

Definition START_PRANK_RE : re := RAll [RStr "vm.startPrank"; ws; RChr "("; RGroup 1 (RSome (RNoneOf ")")); RChr ")"].
Definition STOP_PRANK_RE : re := RAll [RStr "vm.stopPrank"; ws; RChr "("; ws; RChr ")"].
Definition ONE_SHOT_PRANK_RE : re := RAll [RStr "vm."; ROneOf "Pp"; RStr "rank"; ws; RChr "("; RGroup 1 (RSome (RNoneOf ")")); RChr ")"].
Definition TYPE_DECL_START_RE : re :=
  RAll [RBol false;
        RAny [RSeq (RStr "uint") (RMany RDigit); RSeq (RStr "int") (RMany RDigit); RStr "address"; RStr "bool";
              RSeq (RStr "bytes") (RMany RDigit); RStr "string"; RStr "mapping"; RStr "fixed"; RStr "ufixed"]; RBound].

Definition split_statements (poc_source : string) : list string :=
  List.filter truthy (map strip (split_char ";" (strip_comments poc_source))).

Definition is_call_statement (stmt : string) : bool :=
  let s := strip stmt in
  if re_fullstart TYPE_DECL_START_RE s then false
  else re_test (RAll [RBound; RSet (fun c => is_alpha c || Ascii.eqb c "_"); RMany RWord; ws; RChr "("]) s.

(** What a statement does to the pranks, in the order in which the code asks *)
Inductive stmt_kind :=
  | start_prank (caller : string)
  | stop_prank
  | one_shot (caller : string)
  | target_call
  | other_call
  | no_call.

Definition prank_argument (r : re) (stmt : string) : option string :=
  (fun m => strip (group_or_empty 1 stmt m)) <$> re_search r stmt.

Definition kind_of (method stmt : string) : stmt_kind :=
  match prank_argument START_PRANK_RE stmt with
  | Some c => start_prank c
  | None =>
      if re_test STOP_PRANK_RE stmt then stop_prank
      else match (if contains "startPrank" stmt then None else prank_argument ONE_SHOT_PRANK_RE stmt) with
           | Some c => one_shot c
           | None =>
               if re_test (RAll [RChr "."; RStr method; ws; RChr "("]) stmt then target_call
               else if is_call_statement stmt then other_call else no_call
           end
  end.

(** The loop, with its two variables; an other call only matters when a one-shot prank is
    armed *)
Fixpoint seek_caller (persistent_caller one_shot_caller : option string) (kinds : list stmt_kind) : option string :=
  match kinds with
  | [] => None
  | start_prank c :: ks => seek_caller (Some c) one_shot_caller ks
  | stop_prank :: ks => seek_caller None one_shot_caller ks
  | one_shot c :: ks => seek_caller persistent_caller (Some c) ks
  | target_call :: _ => match one_shot_caller with Some c => Some c | None => persistent_caller end
  | other_call :: ks => seek_caller persistent_caller None ks
  | no_call :: ks => seek_caller persistent_caller one_shot_caller ks
  end.

Definition extract_caller_expr (poc_source : string) (call_site : CallSite) : option string :=
  seek_caller None None (map (kind_of (cs_method call_site)) (split_statements poc_source)).

(** ** The streak *)

Record RepeatState := mkRepeat {
  last_call_site : option CallSite;
  last_revert_selector : option string;
  last_caller_expr : option string;
  streak : nat;
  confirmed_caller_change : bool;
}.
Definition initial_repeat : RepeatState := mkRepeat None None None 0 false.

Definition same_caller_conservative (a b : option string) : bool :=
  match a, b with Some x, Some y => String.eqb x y | _, _ => false end.
Definition pair_confirmed_diff (a b : option string) : bool :=
  match a, b with Some x, Some y => negb (String.eqb x y) | _, _ => false end.

Definition update_repeat (state : RepeatState) (call_site : option CallSite) (revert_selector caller_expr : option string)
  (threshold : nat) : RepeatState * bool :=
  let new_state :=
    match call_site with
    | None => initial_repeat
    | Some _ =>
        if bool_decide (call_site = last_call_site state)
           && match revert_selector with Some _ => bool_decide (revert_selector = last_revert_selector state) | None => false end
        then
          if same_caller_conservative caller_expr (last_caller_expr state)
          then mkRepeat call_site revert_selector caller_expr 1 false
          else mkRepeat call_site revert_selector caller_expr (S (streak state))
                 (confirmed_caller_change state || pair_confirmed_diff caller_expr (last_caller_expr state))
        else mkRepeat call_site revert_selector caller_expr (match revert_selector with Some _ => 1 | None => 0 end) false
    end in
  (new_state, threshold <=? streak new_state).

Definition corroboration (call_site : option CallSite) (checks : list ReachabilityCheck) : option ReachabilityCheck :=
  match call_site with
  | None => None
  | Some _ => List.find (fun entry => negb (rc_complete entry) && bool_decide (rc_site entry = call_site)) checks
  end.

Definition or_unknown (o : option string) : string := match o with Some (String _ _ as s) => s | _ => "unknown" end.

Definition repeat_hint (state : RepeatState) (corroborating : option ReachabilityCheck) : string :=
  let site_s := match last_call_site state with Some s => cs_contract s +:+ "::" +:+ cs_method s | None => "unknown" end in
  let intro := "Repeated revert at " +:+ site_s +:+ " with selector `" +:+ or_unknown (last_revert_selector state) +:+ "` "
               +:+ "(streak=" +:+ pretty (streak state) +:+ ")." in
  match corroborating with
  | Some c =>
      let missing := match join ", " (rc_missing c) with "" => "(unspecified)" | s => s end in
      intro +:+ " Source-backed reachability check reports incomplete wiring: missing " +:+ missing +:+ "."
      +:+ (if confirmed_caller_change state
           then " The repetition recurs regardless of caller; check BOTH setup wiring AND caller/role preconditions. This is not a verdict that the gate is unreachable."
           else " Caller context could not be reliably determined across these attempts; check BOTH setup wiring AND caller/role preconditions. This is not a verdict that the gate is unreachable.")
  | None =>
      intro +:+ (if confirmed_caller_change state
           then " The repetition recurs regardless of caller; check BOTH setup wiring AND caller/role preconditions. This does NOT assert the gate is unreachable."
           else " Caller context could not be reliably determined across these attempts; check BOTH setup wiring AND caller/role preconditions. This does NOT assert the gate is unreachable.")
  end.

(** ** The mechanism baseline *)

(** [mech.get("called") or []] and [mech.get("checked") or []] *)
Record Mech := mkMech { mech_called : list string; mech_checked : list string }.

Definition sorted_names (x : gset string) : list string := py_sort str_leb (elements x).

Definition update_mechanism_baseline (baseline : gset string) (last_compiled_called : option (gset string)) (compiled : bool) (mech : Mech) :
  gset string * option (gset string) * string :=
  if negb compiled then (baseline, last_compiled_called, "")
  else
    let called : gset string := list_to_set (mech_called mech) in
    let dropped := baseline ∖ called in
    let reminder :=
      if negb (bool_decide (mech_checked mech = [])) && negb (bool_decide (last_compiled_called = None)) && negb (bool_decide (dropped = ∅))
      then "[DATA] Previously-exercised (in a compiled attempt) and now-dropped methods: " +:+ join ", " (sorted_names dropped)
           +:+ ". Reminder only - not a verdict that the current exploit path is wrong."
      else "" in
    (baseline ∪ called, Some called, reminder).

(** ** Where it reverted *)

Lemma first_revert_spec before lines before' d :
  first_revert before lines = Some (before', d) <->
  exists pre r post, lines = pre ++ r :: post /\ before' = rev pre ++ before /\ revert_depth r = Some d /\
    Forall (fun l => revert_depth l = None) pre.
Proof.
  revert before. induction lines as [|line lines IH]; intros before; cbn [first_revert].
  { split; [done|]. by intros ([|] & ? & ? & ? & _). }
  destruct (revert_depth line) as [d'|] eqn:Hd.
  - split.
    + intros [= <- <-]. by exists [], line, lines.
    + intros ([|l pre] & r & post & [= -> ->] & -> & Hr & Hpre); [cbn; congruence|]. apply Forall_cons in Hpre as [? _]. congruence.
  - rewrite IH. split.
    + intros (pre & r & post & -> & -> & Hr & Hpre). exists (line :: pre), r, post. cbn. rewrite <- app_assoc. split_and!; auto.
    + intros ([|l pre] & r & post & [= -> ->] & -> & Hr & Hpre); [congruence|]. apply Forall_cons in Hpre as [_ Hpre].
      exists pre, r, post. cbn. rewrite <- app_assoc. auto.
Qed.

Lemma head_omap_Some {A B} (f : A -> option B) l b :
  head (omap f l) = Some b <-> exists pre a post, l = pre ++ a :: post /\ f a = Some b /\ Forall (fun x => f x = None) pre.
Proof.
  induction l as [|a l IH]; cbn.
  { split; [done|]. by intros ([|] & ? & ? & ? & _). }
  destruct (f a) as [b'|] eqn:Hf; cbn.
  - split; [intros [= ->]; by exists [], a, l|]. intros ([|x pre] & y & post & [= -> ->] & Hy & Hpre); [congruence|].
    apply Forall_cons in Hpre as [? _]. congruence.
  - etrans; [exact IH|]. split.
    + intros (pre & y & post & -> & Hy & Hpre). exists (a :: pre), y, post. split_and!; [done..|by constructor].
    + intros ([|x pre] & y & post & [= -> ->] & Hy & Hpre); [congruence|]. apply Forall_cons in Hpre as [_ ?].
      by exists pre, y, post.
Qed.

(** The call site of a failing run is read off its trace: it is the call of the nearest
    header before the first revert line that stands at that line's depth or one above. *)
Theorem canonical_call_site_spec stdout site :
  canonical_call_site stdout = Some site <->
  exists pre h mid r post d,
    splitlines stdout = pre ++ h :: mid ++ r :: post /\
    revert_depth r = Some d /\ Forall (fun l => revert_depth l = None) (pre ++ h :: mid) /\
    frame_at d h = Some site /\ Forall (fun l => frame_at d l = None) mid.
Proof.
  unfold canonical_call_site. split.
  - destruct (first_revert [] (splitlines stdout)) as [[before d]|] eqn:E; [|done]. cbn. intros H.
    apply first_revert_spec in E as (lines & r & post & Hl & -> & Hr & Hno). rewrite app_nil_r in H.
    apply head_omap_Some in H as (mid & h & pre & Hrev & Hh & Hmid).
    assert (lines = rev pre ++ h :: rev mid) as ->.
    { rewrite <- (rev_involutive lines), Hrev, rev_app_distr. cbn. by rewrite <- app_assoc. }
    exists (rev pre), h, (rev mid), r, post, d. rewrite Hl, <- app_assoc. split_and!; try done.
    apply Forall_forall. intros l Hin%list_elem_of_In%in_rev%list_elem_of_In. by eapply Forall_forall in Hmid.
  - intros (pre & h & mid & r & post & d & Hl & Hr & Hno & Hh & Hmid).
    assert (first_revert [] (splitlines stdout) = Some (rev (pre ++ h :: mid) ++ [], d)) as ->.
    { apply first_revert_spec. exists (pre ++ h :: mid), r, post. rewrite Hl, <- app_assoc. auto. }
    cbn. rewrite app_nil_r. apply head_omap_Some. exists (rev mid), h, (rev pre). rewrite rev_app_distr. cbn. rewrite <- app_assoc.
    split_and!; [done..|]. apply Forall_forall. intros l Hin%list_elem_of_In%in_rev%list_elem_of_In. by eapply Forall_forall in Hmid.
Qed.

(** ** Who called *)

(** The one-shot prank that is armed after some statements: the last one, unless another
    call followed; and the persistent one: the last one started, unless stopped since *)
Definition disarms (k : stmt_kind) : Prop := match k with one_shot _ | other_call => True | _ => False end.
Definition ends (k : stmt_kind) : Prop := match k with start_prank _ | stop_prank => True | _ => False end.
Definition armed_once (kinds : list stmt_kind) (c : string) : Prop :=
  exists a b, kinds = a ++ one_shot c :: b /\ Forall (fun k => ~ disarms k) b.
Definition armed_until (kinds : list stmt_kind) (c : string) : Prop :=
  exists a b, kinds = a ++ start_prank c :: b /\ Forall (fun k => ~ ends k) b.

(** The variables of the loop after some statements *)
Definition prank_step (v : option string * option string) (k : stmt_kind) : option string * option string :=
  match k with
  | start_prank c => (Some c, v.2)
  | stop_prank => (None, v.2)
  | one_shot c => (v.1, Some c)
  | other_call => (v.1, None)
  | _ => v
  end.
Abbreviation pranks := (foldl prank_step (None, None)).

Lemma snoc_split {A} (P : A -> Prop) (x y : A) l :
  (exists a b, l ++ [x] = a ++ y :: b /\ Forall P b) <-> (x = y \/ (P x /\ exists a b, l = a ++ y :: b /\ Forall P b)).
Proof.
  split.
  - intros (a & b & Heq & Hb). destruct b as [|z b _] using rev_ind.
    + apply app_inj_tail in Heq as [_ ->]. by left.
    + right. rewrite app_comm_cons, app_assoc in Heq. apply app_inj_tail in Heq as [-> ->]. apply Forall_app in Hb as [Hb Hx].
      apply Forall_cons_1 in Hx as [Hx _]. split; [done|]. by exists a, b.
  - intros [->|(Hx & a & b & -> & Hb)]; [by exists l, []|]. exists a, (b ++ [x]). rewrite <- app_assoc. split; [done|].
    apply Forall_app. split; [done|by apply Forall_singleton].
Qed.

Lemma pranks_armed kinds :
  (forall c, (pranks kinds).2 = Some c <-> armed_once kinds c) /\ (forall c, (pranks kinds).1 = Some c <-> armed_until kinds c).
Proof.
  induction kinds as [|k kinds [IH1 IH2]] using rev_ind.
  { split; intros c; (split; [done|]); intros (a & b & Heq & _); by destruct a. }
  rewrite foldl_app. cbn [foldl]. unfold armed_once, armed_until in *.
  split; intros c; rewrite snoc_split; [rewrite <- IH1|rewrite <- IH2]; destruct k; cbn; naive_solver.
Qed.

Lemma seek_caller_target ks ks' p o :
  target_call ∉ ks ->
  seek_caller p o (ks ++ target_call :: ks') =
  (let v := foldl prank_step (p, o) ks in match v.2 with Some c => Some c | None => v.1 end).
Proof.
  revert p o. induction ks as [|k ks IH]; intros p o Hk; [done|]. apply not_elem_of_cons in Hk as [Hne Hk].
  destruct k; cbn; rewrite ?IH by done; done.
Qed.

Lemma seek_caller_no_target ks p o : target_call ∉ ks -> seek_caller p o ks = None.
Proof.
  revert p o. induction ks as [|k ks IH]; intros p o Hk; [done|]. apply not_elem_of_cons in Hk as [Hne Hk].
  destruct k; cbn; by rewrite ?IH by done.
Qed.

Lemma split_at_target ks : (target_call ∉ ks) \/ exists pre post, ks = pre ++ target_call :: post /\ (target_call ∉ pre).
Proof.
  induction ks as [|k ks [IH|(pre & post & -> & Hp)]]; [left; set_solver| |].
  - destruct k; try (left; set_solver). right. exists [], ks. split; [done|set_solver].
  - destruct k; try (right; eexists (_ :: pre), post; split; [done|set_solver]). right. exists [], (pre ++ target_call :: post). split; [done|set_solver].
Qed.

(** The caller of a draft's call to the reverting method is the one armed at its first
    such call: the last one-shot prank that no other call has used up, else the prank that
    was started last and not stopped; comments arm nothing, and without such a call or
    such a prank there is no caller. *)
Theorem caller_is_nearest_prank poc_source site c :
  let kinds := map (kind_of (cs_method site)) (split_statements poc_source) in
  extract_caller_expr poc_source site = Some c <->
  exists pre post, kinds = pre ++ target_call :: post /\ (target_call ∉ pre) /\
    (armed_once pre c \/ ((forall c', ~ armed_once pre c') /\ armed_until pre c)).
Proof.
  cbv zeta. unfold extract_caller_expr. set (kinds := map _ _). destruct (split_at_target kinds) as [Hno|(pre & post & Hk & Hpre)].
  - rewrite seek_caller_no_target by done. split; [done|]. intros (pre & post & -> & _). set_solver.
  - rewrite Hk, seek_caller_target by done. cbv zeta. destruct (pranks_armed pre) as [H1 H2]. split.
    + destruct (foldl prank_step (None, None) pre) as [p o] eqn:E. cbn in H1, H2 |- *. intros H. exists pre, post. split_and!; [done..|].
      destruct o as [c'|]; [left; apply H1; congruence|]. right. split; [|by apply H2]. intros c'. rewrite <- H1. done.
    + intros (pre' & post' & Heq & Hpre' & Hc).
      assert (pre' = pre) as ->.
      { clear -Heq Hpre Hpre'. revert pre' Heq Hpre'. induction pre as [|k pre IH]; intros [|k' pre'] Heq Hpre'; cbn in Heq; simplify_eq; try done; [set_solver..|].
        f_equal. apply IH; set_solver. }
      destruct (foldl prank_step (None, None) pre) as [p o]. cbn in H1, H2 |- *.
      destruct Hc as [->%H1|[Hn ->%H2]]; [done|]. destruct o as [c'|]; [|done]. exfalso. by apply (Hn c'), H1.
Qed.

(** ** What a streak counts *)

(** The evidence of a failing attempt *)
Record attempt := mkAttempt { at_site : option CallSite; at_selector : option string; at_caller : option string }.

Definition after (threshold : nat) (l : list attempt) : RepeatState :=
  foldl (fun s a => (update_repeat s (at_site a) (at_selector a) (at_caller a) threshold).1) initial_repeat l.

(** An attempt that has a call site and a selector *)
Definition counts (a : attempt) : Prop := is_Some (at_site a) /\ is_Some (at_selector a).
(** The same revert at the same place again, by a caller not known to be the same *)
Definition continues (p : attempt * attempt) : Prop :=
  at_site p.1 = at_site p.2 /\ at_selector p.1 = at_selector p.2 /\ same_caller_conservative (at_caller p.2) (at_caller p.1) = false.
Definition other_caller (p : attempt * attempt) : Prop := pair_confirmed_diff (at_caller p.2) (at_caller p.1) = true.
(** Each element with the next *)
Definition neighbours {A} (l : list A) : list (A * A) := zip l (tail l).

Lemma neighbours_snoc {A} (l : list A) (b a : A) : neighbours ((l ++ [b]) ++ [a]) = neighbours (l ++ [b]) ++ [(b, a)].
Proof.
  unfold neighbours. induction l as [|x [|y l] IH]; [done..|]. cbn in IH |- *. f_equal. exact IH.
Qed.

Definition remembers (s : RepeatState) (last_attempt : option attempt) : Prop :=
  match last_attempt with
  | Some a => match at_site a with
              | Some _ => last_call_site s = at_site a /\ last_revert_selector s = at_selector a /\ last_caller_expr s = at_caller a
              | None => last_call_site s = None
              end
  | None => last_call_site s = None
  end.

Lemma history_snoc threshold l a :
  after threshold (l ++ [a]) = (update_repeat (after threshold l) (at_site a) (at_selector a) (at_caller a) threshold).1.
Proof. unfold after. by rewrite foldl_app. Qed.

Lemma after_remembers threshold l : remembers (after threshold l) (last l).
Proof.
  induction l as [|a l _] using rev_ind; [done|]. rewrite history_snoc, last_snoc. unfold update_repeat, remembers. cbn [fst].
  destruct (at_site a); [|done]. destruct (_ && _); [destruct (same_caller_conservative _ _)|]; done.
Qed.

(** What [streak] and [confirmed_caller_change] say of a run of attempts *)
Definition streak_of (s : RepeatState) (older run : list attempt) : Prop :=
  streak s = length run /\ Forall counts run /\ Forall continues (neighbours run) /\
  (confirmed_caller_change s = true <-> Exists other_caller (neighbours run)) /\
  (run = [] -> forall a, last older = Some a -> ~ counts a) /\
  (forall a b, last older = Some a -> head run = Some b -> ~ continues (a, b)).

Lemma streak_of_one s l a :
  streak s = 1 -> confirmed_caller_change s = false -> counts a -> (forall b, last l = Some b -> ~ continues (b, a)) -> streak_of s l [a].
Proof.
  intros Hs Hc Ha Hl. unfold streak_of. rewrite Hs, Hc. split_and!; [done|by apply Forall_singleton|constructor| |done|].
  - split; [done|]. by intros ?%Exists_nil.
  - intros b ? Hb [= <-]. by apply Hl.
Qed.

(** C32. The streak is the length of the longest run of latest attempts that all reverted at
    the same place for the same reason, no two consecutive ones by a caller known to be the
    same; the change of caller is confirmed exactly when two consecutive ones have callers
    known to differ, and the hypothesis is raised exactly from the threshold on. *)
Theorem streak_is_run threshold l a :
  let r := update_repeat (after threshold l) (at_site a) (at_selector a) (at_caller a) threshold in
  (r.2 = true <-> threshold <= streak r.1) /\
  exists older run, l ++ [a] = older ++ run /\ streak_of r.1 older run.
Proof.
  cbv zeta. split; [unfold update_repeat; cbn [fst snd]; apply Nat.leb_le|]. rewrite <- history_snoc.
  revert a. induction l as [|b l IH] using rev_ind; intros a.
  { exists (if bool_decide (is_Some (at_site a) /\ is_Some (at_selector a)) then [] else [a]),
      (if bool_decide (is_Some (at_site a) /\ is_Some (at_selector a)) then [a] else []).
    case_bool_decide as Ha; (split; [done|]); unfold after; cbn; destruct (at_site a) eqn:Hs, (at_selector a) eqn:He; cbn;
      try (destruct Ha as [[? ?] [? ?]]; congruence); try (exfalso; apply Ha; by eauto);
      try (apply streak_of_one; [done|done|split; rewrite ?Hs, ?He; by eauto|done]);
      (split_and!; [done|constructor|constructor|split; [done|by intros ?%Exists_nil]| |done]);
      intros _ a' [= <-] [[? ?] [? ?]]; congruence. }
  destruct (IH b) as (older & run & Heq & Hst). clear IH.
  assert (forall s, streak s = 0 -> confirmed_caller_change s = false -> ~ counts a -> streak_of s ((l ++ [b]) ++ [a]) []) as Hzero.
  { intros s Hs Hc Ha. unfold streak_of. rewrite Hs, Hc. split_and!; [done|constructor|constructor|split; [done|by intros ?%Exists_nil]| |done].
    intros _ a'. rewrite last_snoc. by intros [= <-]. }
  rewrite history_snoc. pose proof (after_remembers threshold (l ++ [b])) as Hrem. rewrite last_snoc in Hrem. unfold remembers in Hrem.
  set (s := after threshold (l ++ [b])) in *. unfold update_repeat. cbn [fst].
  destruct (at_site a) as [sa|] eqn:Hsa.
  2:{ exists ((l ++ [b]) ++ [a]), []. rewrite app_nil_r. split; [done|]. apply Hzero; [done|done|]. intros [[? ?] _]. congruence. }
  destruct (at_selector a) as [ea|] eqn:Hea.
  2:{ rewrite andb_false_r. exists ((l ++ [b]) ++ [a]), []. rewrite app_nil_r. split; [done|]. apply Hzero; [done|done|]. intros [_ [? ?]]. congruence. }
  assert (counts a) as Ha by (split; [rewrite Hsa|rewrite Hea]; eauto).
  destruct (bool_decide (Some sa = last_call_site s) && bool_decide (Some ea = last_revert_selector s)) eqn:Hm.
  - apply andb_prop in Hm as [H1%bool_decide_eq_true H2%bool_decide_eq_true].
    destruct (at_site b) as [sb|] eqn:Hsb; [|congruence]. destruct Hrem as (Hr1 & Hr2 & Hr3). rewrite Hr3.
    destruct (same_caller_conservative (at_caller a) (at_caller b)) eqn:Hsame.
    + exists (l ++ [b]), [a]. split; [done|]. apply streak_of_one; [done|done|done|]. intros b'. rewrite last_snoc. intros [= <-] (_ & _ & H). cbn in H. congruence.
    + assert (counts b) as Hb by (split; [rewrite Hsb; eauto|rewrite <- Hr2, <- H2; eauto]).
      destruct Hst as (Hs1 & Hs2 & Hs3 & Hs4 & Hs5 & Hs6). destruct run as [|b' run _] using rev_ind.
      { exfalso. apply (Hs5 eq_refl b); [|done]. rewrite app_nil_r in Heq. by rewrite <- Heq, last_snoc. }
      assert (b' = b) as ->. { rewrite app_assoc in Heq. by apply app_inj_tail in Heq as [_ ?]. }
      exists older, ((run ++ [b]) ++ [a]). split; [by rewrite Heq, <- !app_assoc|]. unfold streak_of. cbn [streak confirmed_caller_change].
      rewrite neighbours_snoc. split_and!.
      * rewrite Hs1, !length_app. cbn [length]. lia.
      * apply Forall_app. split; [done|by apply Forall_singleton].
      * apply Forall_app. split; [done|]. apply Forall_singleton. repeat split; cbn; congruence.
      * rewrite Exists_app, Exists_cons, Exists_nil, orb_true_iff, Hs4. unfold other_caller. cbn [fst snd]. tauto.
      * intros H. destruct (app_cons_not_nil (run ++ [b]) [] a). done.
      * intros x y Hx Hy. apply (Hs6 x y Hx). by destruct run.
  - exists (l ++ [b]), [a]. split; [done|]. apply streak_of_one; [done|done|done|]. intros b'. rewrite last_snoc. intros [= <-] (Hc1 & Hc2 & _).
    cbn in Hc1, Hc2. rewrite Hc1, Hsa in Hrem. destruct Hrem as (Hr1 & Hr2 & _).
    rewrite !bool_decide_true in Hm; [done|congruence|congruence].
Qed.

(** ** What the baseline holds *)

(** The attempts of a run: whether each compiled, and what it exercised *)
Definition track (l : list (bool * Mech)) : gset string * option (gset string) :=
  foldl (fun v m => (update_mechanism_baseline v.1 v.2 m.1 m.2).1) (∅, None) l.

Definition called_of (m : Mech) : gset string := list_to_set (mech_called m).
Definition compiled_only (l : list (bool * Mech)) : list Mech := omap (fun m => if (m.1 : bool) then Some m.2 else None) l.

Lemma update_baseline_vars b lc compiled m :
  (update_mechanism_baseline b lc compiled m).1 = if compiled then (b ∪ called_of m, Some (called_of m)) else (b, lc).
Proof. unfold update_mechanism_baseline. by destruct compiled. Qed.

Lemma track_spec l : track l = (⋃ (map called_of (compiled_only l)), called_of <$> last (compiled_only l)).
Proof.
  induction l as [|[c m] l IH] using rev_ind; [done|]. unfold track in *. rewrite foldl_app, IH. cbn [foldl fst snd].
  rewrite update_baseline_vars. unfold compiled_only. rewrite omap_app. cbn. destruct c; cbn; [|by rewrite app_nil_r].
  rewrite map_app, union_list_app_L, last_snoc. cbn. by rewrite union_empty_r_L.
Qed.

(** The reminder is exactly about what compiled attempts exercised before and this one
    does not: it is given only for a compiled attempt with a checked mechanism after an
    earlier compiled one, and then exactly when a method some earlier compiled attempt
    called is called no longer; it lists those methods, sorted; an attempt that does not
    compile changes neither the baseline nor the last one. *)
Theorem reminder_is_regression l compiled m :
  let r := update_mechanism_baseline (track l).1 (track l).2 compiled m in
  let dropped : gset string := ⋃ (map called_of (compiled_only l)) ∖ called_of m in
  (compiled = false -> r = (track l, "")) /\
  (r.2 <> "" <-> compiled = true /\ mech_checked m <> [] /\ compiled_only l <> [] /\ dropped <> ∅) /\
  (r.2 <> "" -> r.2 = "[DATA] Previously-exercised (in a compiled attempt) and now-dropped methods: " +:+ join ", " (sorted_names dropped)
                      +:+ ". Reminder only - not a verdict that the current exploit path is wrong.").
Proof.
  cbv zeta. rewrite track_spec. cbn [fst snd]. unfold update_mechanism_baseline. fold (called_of m).
  destruct compiled; cbn [negb]; [|by split_and!; [|split; [done|intros [? _]]|]].
  assert ((called_of <$> last (compiled_only l) = None) <-> compiled_only l = []) as Hlast.
  { destruct (compiled_only l) as [|x xs _] using rev_ind; [done|]. rewrite last_snoc. split; [done|]. intros H. by destruct (app_cons_not_nil xs [] x). }
  destruct (decide (mech_checked m = [])) as [Hc|Hc]; [rewrite (bool_decide_true _ Hc); cbn; split_and!; [done|split; [done|naive_solver]|done]|].
  rewrite (bool_decide_false _ Hc). cbn [negb andb].
  destruct (decide (compiled_only l = [])) as [Hl|Hl].
  { rewrite bool_decide_true by (by apply Hlast). cbn. split_and!; [done|split; [done|naive_solver]|done]. }
  rewrite bool_decide_false by (by rewrite Hlast). cbn [negb andb].
  case_bool_decide as Hd; cbn [negb snd]; split_and!; [done|split; [done|naive_solver]|done|done| |done].
  split; [intros _; auto|intros _ [=]].
Qed.

(** ** Concrete runs *)

Definition sample_trace : string :=
  unlines ["[8772] ExploitTest::testExploit()"; "  [2453] Vault::probe() [staticcall]"; "  <- [Return] 1"; "  [549] Vault_Impl::act(1)";
           "  <- [Revert] Denied(5)"; "<- [Revert] Denied(5)"; "[FAIL: Denied(5)] testExploit()"].
Definition sample_poc : string :=
  "vm.startPrank(owner); vault.init(); // vm.prank(evil);" +:+ nls +:+ "vm.prank(alice); vault.act(1); vm.stopPrank();".

Example sample_evidence :
  extract_repeat_evidence sample_trace "" = (Some (mkSite "Vault" "act"), Some "Denied") /\
  extract_caller_expr sample_poc (mkSite "Vault" "act") = Some "alice" /\
  extract_caller_expr sample_poc (mkSite "Vault" "init") = Some "owner".
Proof. vm_compute. done. Qed.

(** In the tree that forge draws, a frame's result is indented by a whole level, four
    characters, more than its header: the reverting frame itself is never at the depths
    that count, and a call that it made and that returned is taken for it *)
Lemma tree_layout_misses_frame :
  canonical_call_site (unlines ["  [8772] ExploitTest::testExploit()"; "    ├─ [549] Vault::gate() [staticcall]";
    "    │   └─ ← [Revert] gate blocks the caller"; "    └─ ← [Revert] gate blocks the caller"]) = None /\
  canonical_call_site (unlines ["  [8772] ExploitTest::testExploit()"; "    ├─ [549] Vault::gate() [staticcall]"; "    │   ├─ [20] Registry::owner()";
    "    │   │   └─ ← [Return] 1"; "    │   └─ ← [Revert] gate blocks the caller"]) = Some (mkSite "Registry" "owner").
Proof. vm_compute. done. Qed.

(** A caller known to be the same starts the streak anew; an unknown one does not *)
Example sample_streak :
  let site := Some (mkSite "Vault" "act") in
  let a c := mkAttempt site (Some "Denied") c in
  map (fun l => streak (after 3 l)) [[a (Some "alice"); a (Some "bob"); a None]; [a (Some "alice"); a (Some "alice")]] = [3; 1] /\
  map (fun l => confirmed_caller_change (after 3 l)) [[a (Some "alice"); a (Some "bob"); a None]; [a None; a None]] = [true; false].
Proof. vm_compute. done. Qed.
