(* ===== verification/CodeGraph.v ===== *)
(** * The code-comprehension graph (scripts/codegraph.py)

    Loading a node-link graph, resolving names, and the structural queries on it, the
    shortest chain between two nodes among them.  Building the graph is an external tool's
    work and reading the file the disk's. *)

From S2P Require Import Prelude PyStr PyVal PyNum.

Definition CALL_RELATIONS : list string := ["calls"].
Definition IMPORT_RELATIONS : list string := ["imports"; "imports_from"].
Definition CHILD_RELATIONS : list string := ["contains"; "method"].

Definition format_error (msg : string) : exn := Exn "CodeGraphFormatError" msg.

(** "L5" is line 5 *)
Definition location_line (source_location : pyval) : option Z :=
  match source_location with PStr (String "L" s) => py_int s | _ => None end.

(** The file of a location is a string or null, kept as it was decoded *)
Record CodeNode := mkNode {
  cn_id : string;
  cn_label : string;
  cn_file : pyval;
  cn_line : option Z;
  cn_kind : string;
  cn_origin : pyval;
}.
Record CodeEdge := mkEdge {
  ce_source : string;
  ce_target : string;
  ce_relation : string;
  ce_confidence : string;
  ce_file : pyval;
  ce_line : option Z;
}.

Definition file_or (dflt : string) (v : pyval) : string := if truthy_val v then py_str v else dflt.
Definition where_ (n : CodeNode) : string :=
  let loc := file_or "?" (cn_file n) in
  match cn_line n with Some l => loc +:+ ":" +:+ pretty l | None => loc end.
Definition render_node (n : CodeNode) : string := cn_label n +:+ "  (" +:+ where_ n +:+ ")".

Definition node_kind (label : string) : string :=
  if ends_with ".py" label || contains "/" label then "module" else "symbol".

(** The dictionaries of a graph, in insertion order *)
Record CodeGraph := mkGraph {
  g_nodes : list (string * CodeNode);
  g_out : list (string * list CodeEdge);
  g_in : list (string * list CodeEdge);
}.

(** ** Loading *)

Definition field (rec : list (string * pyval)) (k : string) : pyval := default PNone (assoc k rec).
Definition str_field (rec : list (string * pyval)) (k dflt : string) : string :=
  match assoc k rec with Some v => py_str v | None => dflt end.

Definition load_node (source : string) (rec : pyval) : res CodeNode :=
  match rec with
  | PDict d =>
      match assoc "id" d with
      | Some v =>
          let nid := py_str v in
          let label := str_field d "label" nid in
          Ok (mkNode nid label (field d "source_file") (location_line (field d "source_location")) (node_kind label) (field d "_origin"))
      | None => Raise (format_error (source +:+ ": node without 'id': " +:+ py_repr rec))
      end
  | _ => Raise (format_error (source +:+ ": node without 'id': " +:+ py_repr rec))
  end.

Definition load_edge (source : string) (rec : pyval) : res CodeEdge :=
  let bad := Raise (format_error (source +:+ ": edge missing source/target/relation: " +:+ py_repr rec)) in
  match rec with
  | PDict d =>
      match assoc "source" d, assoc "target" d, assoc "relation" d with
      | Some s, Some t, Some r =>
          Ok (mkEdge (py_str s) (py_str t) (py_str r) (str_field d "confidence" "") (field d "source_file")
                (location_line (field d "source_location")))
      | _, _, _ => bad
      end
  | _ => bad
  end.

(** [d.setdefault(k, []).append(e)] *)
Definition append_edge (k : string) (e : CodeEdge) (d : list (string * list CodeEdge)) : list (string * list CodeEdge) :=
  assoc_set k (default [] (assoc k d) ++ [e]) d.

Definition edges_at (d : list (string * list CodeEdge)) (x : string) : list CodeEdge := default [] (assoc x d).

Fixpoint load_nodes (source : string) (recs : list pyval) (nodes : list (string * CodeNode)) : res (list (string * CodeNode)) :=
  match recs with
  | [] => Ok nodes
  | rec :: recs' => n ← load_node source rec; load_nodes source recs' (assoc_set (cn_id n) n nodes)
  end.

Fixpoint load_edges (source : string) (recs : list pyval) (out in_ : list (string * list CodeEdge)) :
  res (list (string * list CodeEdge) * list (string * list CodeEdge)) :=
  match recs with
  | [] => Ok (out, in_)
  | rec :: recs' =>
      e ← load_edge source rec;
      load_edges source recs' (append_edge (ce_source e) e out) (append_edge (ce_target e) e in_)
  end.

Definition from_dict (raw : pyval) (source : string) : res CodeGraph :=
  match raw with
  | PDict d =>
      match field d "nodes" with
      | PList node_list =>
          match field d "links" with
          | PList link_list =>
              nodes ← load_nodes source node_list [];
              '(out, in_) ← load_edges source link_list [] [];
              Ok (mkGraph nodes out in_)
          | _ => Raise (format_error (source +:+ ": missing/invalid 'links' list"))
          end
      | _ => Raise (format_error (source +:+ ": missing/invalid 'nodes' list"))
      end
  | _ => Raise (format_error (source +:+ ": top level must be an object"))
  end.

(** ** Queries *)

(** [prev], latest first; [seen] is [a] and the keys of [prev] *)
Abbreviation tree := (list (string * CodeEdge)).

Section graph.
Context (g : CodeGraph).

Definition node_at (x : string) : option CodeNode := assoc x (g_nodes g).
Definition out_edges (x : string) : list CodeEdge := edges_at (g_out g) x.
Definition in_edges (x : string) : list CodeEdge := edges_at (g_in g) x.

(** Tuples of strings and numbers, compared from the left *)
Inductive key_part := KStr (s : string) | KInt (z : Z).
Definition part_lt (a b : key_part) : bool :=
  match a, b with KStr s, KStr t => str_ltb s t | KInt x, KInt y => (x <? y)%Z | _, _ => false end.
Fixpoint key_leb (a b : list key_part) : bool :=
  match a, b with
  | x :: a', y :: b' => if part_lt x y then true else if part_lt y x then false else key_leb a' b'
  | [], _ => true
  | _, [] => false
  end.

Definition edge_sort_key (e : CodeEdge) : list key_part :=
  let other := match node_at (ce_target e) with Some n => Some n | None => node_at (ce_source e) end in
  let f := match other with Some n => file_or "" (cn_file n) | None => "" end in
  let ln := match other with Some n => default (-1)%Z (cn_line n) | None => (-1)%Z end in
  [KStr f; KInt ln; KStr (ce_target e); KStr (ce_source e); KStr (ce_relation e)].
Definition sorted_edges (l : list CodeEdge) : list CodeEdge := py_sort (fun a b => key_leb (edge_sort_key a) (edge_sort_key b)) l.

Definition norm (s : string) : string :=
  strip (rdrop_while (fun c => Ascii.eqb c "(" || Ascii.eqb c ")") (drop_while (fun c => Ascii.eqb c ".") (strip s))).

(** [n.line or -1]: a line 0 counts as none *)
Definition node_sort_key (n : CodeNode) : list key_part :=
  [KStr (file_or "" (cn_file n)); KInt (match cn_line n with Some 0%Z | None => (-1)%Z | Some l => l end); KStr (cn_id n)].

Definition find (name : string) : list CodeNode :=
  match node_at name with
  | Some n => [n]
  | None =>
      py_sort (fun a b => key_leb (node_sort_key a) (node_sort_key b))
        (List.filter (fun n => String.eqb (norm (cn_label n)) (norm name) || String.eqb (cn_id n) name) (g_nodes g).*2)
  end.

Definition with_relation (rels : list string) (l : list CodeEdge) : list CodeEdge :=
  List.filter (fun e => bool_decide (ce_relation e ∈ rels)) l.
Definition neighbors (x : string) : list CodeEdge := sorted_edges (out_edges x ++ in_edges x).
Definition callers (x : string) : list CodeEdge := sorted_edges (with_relation CALL_RELATIONS (in_edges x)).
Definition callees (x : string) : list CodeEdge := sorted_edges (with_relation CALL_RELATIONS (out_edges x)).
Definition dependencies (x : string) : list CodeEdge := sorted_edges (with_relation IMPORT_RELATIONS (out_edges x)).
Definition module_summary (x : string) : list CodeEdge * nat * nat :=
  (sorted_edges (with_relation CHILD_RELATIONS (out_edges x)), length (in_edges x), length (out_edges x)).

(** ** The shortest chain *)

(** [while node in prev] *)
Fixpoint unwind (fuel : nat) (prev : tree) (node : string) : list CodeEdge :=
  match fuel with
  | 0 => []
  | S fuel' => match assoc node prev with None => [] | Some e => e :: unwind fuel' prev (ce_source e) end
  end.
Definition chain_of (prev : tree) (b : string) : list CodeEdge := rev (unwind (S (length prev)) prev b).

Record Search := mkSearch { s_seen : list string; s_prev : tree; s_queue : list string }.

(** The edges of the node that was taken from the queue; [inr] is a return *)
Fixpoint scan (b : string) (edges : list CodeEdge) (s : Search) : Search + list CodeEdge :=
  match edges with
  | [] => inl s
  | e :: edges' =>
      let t := ce_target e in
      if bool_decide (t ∈ s_seen s) then scan b edges' s
      else
        let prev := (t, e) :: s_prev s in
        if String.eqb t b then inr (chain_of prev b)
        else scan b edges' (mkSearch (t :: s_seen s) prev (s_queue s ++ [t]))
  end.

Fixpoint bfs (fuel : nat) (b : string) (s : Search) : option (list CodeEdge) :=
  match s_queue s with
  | [] => Some []
  | cur :: rest =>
      match fuel with
      | 0 => None
      | S fuel' =>
          match scan b (out_edges cur) (mkSearch (s_seen s) (s_prev s) rest) with
          | inl s' => bfs fuel' b s'
          | inr chain => Some chain
          end
      end
  end.

(** Each node is queued once: the source, and the target of some edge *)
Definition enough : nat := S (length (List.concat (g_out g).*2)).

Definition path (a b : string) : option (list CodeEdge) :=
  if String.eqb a b then Some [] else bfs enough b (mkSearch [a] [] [a]).
End graph.

(** ** Loaded graphs *)

(** Edges are filed under their source and under their target *)
Definition well_formed (g : CodeGraph) : Prop :=
  (forall x e, e ∈ out_edges g x -> ce_source e = x) /\ (forall x e, e ∈ in_edges g x -> ce_target e = x) /\
  (forall e, e ∈ out_edges g (ce_source e) <-> e ∈ in_edges g (ce_target e)).

Lemma edges_at_append k e d x :
  edges_at (append_edge k e d) x = if decide (k = x) then edges_at d x ++ [e] else edges_at d x.
Proof.
  unfold edges_at, append_edge. case_decide as Hk; [subst; by rewrite assoc_set_eq|by rewrite assoc_set_ne].
Qed.

Definition filed (out in_ : list (string * list CodeEdge)) : Prop :=
  (forall x e, e ∈ edges_at out x -> ce_source e = x) /\ (forall x e, e ∈ edges_at in_ x -> ce_target e = x) /\
  (forall e, e ∈ edges_at out (ce_source e) <-> e ∈ edges_at in_ (ce_target e)).

Lemma filed_append e out in_ : filed out in_ -> filed (append_edge (ce_source e) e out) (append_edge (ce_target e) e in_).
Proof.
  intros (H1 & H2 & H3). split_and!.
  - intros x e'. rewrite edges_at_append. case_decide as Hx; [|apply H1]. intros [?%H1| ->%list_elem_of_singleton]%elem_of_app; auto.
  - intros x e'. rewrite edges_at_append. case_decide as Hx; [|apply H2]. intros [?%H2| ->%list_elem_of_singleton]%elem_of_app; auto.
  - intros e'. rewrite !edges_at_append.
    assert (forall (k x : string) l, e' ∈ (if decide (k = x) then l ++ [e] else l) <-> e' ∈ l \/ (k = x /\ e' = e)) as Hin.
    { intros k x l. case_decide; rewrite ?elem_of_app, ?list_elem_of_singleton; naive_solver. }
    rewrite !Hin, H3. naive_solver.
Qed.

Lemma load_edges_filed source recs out in_ out' in' :
  filed out in_ -> load_edges source recs out in_ = Ok (out', in') -> filed out' in'.
Proof.
  revert out in_. induction recs as [|rec recs IH]; intros out in_ H; cbn [load_edges]; [by intros [= <- <-]|].
  intros (e & _ & Hl)%res_bind_Ok. eapply IH; [|exact Hl]. by apply filed_append.
Qed.

Lemma from_dict_well_formed raw source g : from_dict raw source = Ok g -> well_formed g.
Proof.
  unfold from_dict. destruct raw; try done. destruct (field d "nodes"); try done. destruct (field d "links"); try done.
  intros (nodes & _ & ([out in_] & Hl & [= <-])%res_bind_Ok)%res_bind_Ok. eapply load_edges_filed; [|exact Hl].
  split_and!; try (intros x e He; by apply elem_of_nil in He). intros e. split; intros He; by apply elem_of_nil in He.
Qed.

(** ** Walks *)

Section path_proofs.
Context (g : CodeGraph).

Fixpoint walk (a : string) (es : list CodeEdge) (b : string) : Prop :=
  match es with
  | [] => a = b
  | e :: es' => e ∈ out_edges g a /\ walk (ce_target e) es' b
  end.

Lemma walk_snoc a es e b : walk a (es ++ [e]) b <-> exists x, walk a es x /\ e ∈ out_edges g x /\ ce_target e = b.
Proof.
  revert a. induction es as [|e' es IH]; intros a; cbn.
  - split; [intros [? ->]; eauto|]. intros (x & -> & ? & ->). auto.
  - rewrite IH. naive_solver.
Qed.

(** The chain that the tree holds for a node, read off from the latest entry *)
Fixpoint back (prev : tree) (x : string) : list CodeEdge :=
  match prev with
  | [] => []
  | (t, e) :: prev' => if String.eqb t x then back prev' (ce_source e) ++ [e] else back prev' x
  end.

(** Every entry is an edge of the graph from a node found before *)
Fixpoint tree_ok (a : string) (prev : tree) : Prop :=
  match prev with
  | [] => True
  | (t, e) :: prev' =>
      t = ce_target e /\ e ∈ out_edges g (ce_source e) /\ ce_source e ∈ a :: prev'.*1 /\ (t ∉ a :: prev'.*1) /\ tree_ok a prev'
  end.

Lemma back_walk a prev x : tree_ok a prev -> x ∈ a :: prev.*1 -> walk a (back prev x) x.
Proof.
  revert x. induction prev as [|[t e] prev IH]; intros x; cbn [tree_ok back fmap list_fmap fst].
  { intros _ ->%list_elem_of_singleton. done. }
  intros (-> & He & Hs & Ht & Hok) Hx. destruct (String.eqb_spec (ce_target e) x) as [<-|Hne].
  - apply walk_snoc. exists (ce_source e). split; [by apply IH|done].
  - apply IH; [done|]. set_solver.
Qed.

Lemma back_new t e prev x : x <> t -> back ((t, e) :: prev) x = back prev x.
Proof. intros Hx. cbn. destruct (String.eqb_spec t x); congruence. Qed.

Lemma back_entry t e prev : back ((t, e) :: prev) t = back prev (ce_source e) ++ [e].
Proof. cbn. by rewrite String.eqb_refl. Qed.

Lemma back_root a prev : tree_ok a prev -> back prev a = [].
Proof.
  induction prev as [|[t e] prev IH]; [done|]. intros (-> & He & Hs & Ht & Hok). rewrite back_new by set_solver. by apply IH.
Qed.

(** [unwind] follows the tree *)
Lemma unwind_new a t e prev n x :
  tree_ok a ((t, e) :: prev) -> x ∈ a :: prev.*1 -> unwind n ((t, e) :: prev) x = unwind n prev x.
Proof.
  intros (-> & He & Hs & Ht & Hok). revert x. induction n as [|n IH]; intros x Hx; [done|]. cbn [unwind assoc].
  rewrite decide_False by set_solver. destruct (assoc x prev) as [e'|] eqn:E; [|done]. f_equal. apply IH.
  clear -E Hok. induction prev as [|[t' e0] prev IH]; [done|]. destruct Hok as (-> & He0 & Hs0 & Ht0 & Hok). cbn [assoc] in E. case_decide.
  - injection E as ->. cbn. set_solver.
  - specialize (IH Hok E). cbn. set_solver.
Qed.

Lemma unwind_back a prev n x : tree_ok a prev -> x ∈ a :: prev.*1 -> length prev < n -> unwind n prev x = rev (back prev x).
Proof.
  revert n x. induction prev as [|[t e] prev IH]; intros n x Hok Hx Hn.
  { destruct n as [|n]; done. }
  destruct (decide (x = t)) as [->|Hne].
  - rewrite back_entry. destruct n as [|n]; [cbn in Hn; lia|]. cbn [unwind assoc]. rewrite decide_True by done.
    rewrite rev_app_distr. cbn [rev app]. f_equal. destruct Hok as (-> & He & Hs & Ht & Hok').
    rewrite (unwind_new a) by (cbn; auto). apply IH; [done|done|cbn in Hn; lia].
  - rewrite (unwind_new a) by (try done; set_solver). rewrite back_new by done. destruct Hok as (-> & He & Hs & Ht & Hok').
    apply IH; [done|set_solver|cbn in Hn; lia].
Qed.

Lemma chain_of_back a prev x : tree_ok a prev -> x ∈ a :: prev.*1 -> chain_of prev x = back prev x.
Proof. intros Hok Hx. unfold chain_of. rewrite (unwind_back a) by (try done; lia). apply rev_involutive. Qed.
End path_proofs.

(** ** Breadth first *)

Section bfs_proofs.
Context (g : CodeGraph) (wf : well_formed g) (a b : string).

Abbreviation found prev := (a :: prev.*1).
Definition depth (prev : tree) (x : string) : nat := length (back prev x).

(** What the search has found, and what is left in the queue: nodes in the order of their
    depth, at most one apart; every edge from a node that is done leads to a found one at
    most one deeper *)
Record bfs_inv (prev : tree) (seen todo : list string) : Prop := {
  b_tree : tree_ok g a prev;
  b_seen x : x ∈ seen <-> x ∈ found prev;
  b_todo x : x ∈ todo -> x ∈ found prev;
  b_target : b ∉ found prev;
  b_sorted : StronglySorted (fun x y => depth prev x <= depth prev y) todo;
  b_near x y : x ∈ found prev -> head todo = Some y -> depth prev x <= S (depth prev y);
  b_closed x e : x ∈ found prev -> (x ∉ todo) -> e ∈ out_edges g x ->
    ce_target e ∈ found prev /\ depth prev (ce_target e) <= S (depth prev x);
}.

(** A walk either stays among the nodes found, no deeper than it is long, or leaves from a
    node of the queue *)
Lemma walk_found prev seen todo es x :
  bfs_inv prev seen todo -> walk g a es x ->
  (x ∈ found prev /\ depth prev x <= length es) \/ exists y, y ∈ todo /\ depth prev y < length es.
Proof.
  intros I. revert x. induction es as [|e es IH] using rev_ind; intros x Hw.
  { cbn in Hw. subst x. left. split; [by left|]. unfold depth. by rewrite (back_root g a) by apply I. }
  apply walk_snoc in Hw as (y & Hw & He & <-). rewrite length_app. cbn [length].
  destruct (IH y Hw) as [[Hy Hd]|(z & Hz & Hd)]; [|right; exists z; split; [done|lia]].
  destruct (decide (y ∈ todo)) as [Ht|Ht]; [right; exists y; split; [done|lia]|].
  destruct (b_closed _ _ _ I y e Hy Ht He) as [H1 H2]. left. split; [done|lia].
Qed.

(** The node being expanded and the edges of it that are not looked at yet *)
Definition scan_inv (cur : string) (edges : list CodeEdge) (s : Search) : Prop :=
  bfs_inv (s_prev s) (s_seen s) (cur :: s_queue s) /\
  (forall e, e ∈ edges -> e ∈ out_edges g cur) /\
  (forall e, e ∈ out_edges g cur -> e ∈ edges \/
     (ce_target e ∈ found (s_prev s) /\ depth (s_prev s) (ce_target e) <= S (depth (s_prev s) cur))).

Lemma depth_new t e prev x : x <> t -> depth ((t, e) :: prev) x = depth prev x.
Proof. intros H. unfold depth. by rewrite back_new. Qed.

Lemma depth_entry t e prev : depth ((t, e) :: prev) t = S (depth prev (ce_source e)).
Proof. unfold depth. rewrite back_entry, length_app. cbn. lia. Qed.

Lemma scan_new cur e edges s :
  scan_inv cur (e :: edges) s -> (ce_target e ∉ s_seen s) -> ce_target e <> b ->
  scan_inv cur edges (mkSearch (ce_target e :: s_seen s) ((ce_target e, e) :: s_prev s) (s_queue s ++ [ce_target e])).
Proof.
  intros (I & Hin & Hdone) Hnew Hb. destruct s as [seen prev queue]. cbn [s_seen s_prev s_queue] in *.
  rewrite (b_seen _ _ _ I) in Hnew. assert (cur ∈ found prev) as Hcur by (apply (b_todo _ _ _ I); by left).
  assert (ce_source e = cur) as Hsrc by (apply wf, Hin; by left).
  assert (forall x, x ∈ found prev -> depth ((ce_target e, e) :: prev) x = depth prev x) as Hold.
  { intros x Hx. apply depth_new. intros ->. done. }
  assert (depth ((ce_target e, e) :: prev) (ce_target e) = S (depth prev cur)) as Hentry by (by rewrite depth_entry, Hsrc).
  assert (forall x, x ∈ found prev -> depth prev x <= S (depth prev cur)) as Hnear by (intros x Hx; by apply (b_near _ _ _ I)).
  split_and!.
  - split; cbn [s_seen s_prev s_queue fmap list_fmap fst].
    + cbn. split_and!; [done|rewrite Hsrc; apply Hin; by left|by rewrite Hsrc|done|apply I].
    + intros x. pose proof (b_seen _ _ _ I x). set_solver.
    + intros x Hx. pose proof (b_todo _ _ _ I x). set_solver.
    + pose proof (b_target _ _ _ I). set_solver.
    + change (cur :: queue ++ [ce_target e]) with ((cur :: queue) ++ [ce_target e]).
      pose proof (b_sorted _ _ _ I) as Hs. pose proof (b_todo _ _ _ I) as Ht. revert Hs Ht. generalize (cur :: queue) as l. intros l Hs Ht.
      induction Hs as [|x l Hs IH Hx]; [repeat constructor|]. cbn [app]. constructor; [apply IH; intros y Hy; apply Ht; by right|].
      rewrite Hold by (apply Ht; by left). apply Forall_app. split.
      * apply Forall_forall. intros y Hy. rewrite Hold by (apply Ht; by right). by eapply Forall_forall in Hx.
      * apply Forall_singleton. rewrite Hentry. apply Hnear, Ht. by left.
    + intros x y Hx [= <-]. rewrite (Hold cur) by done. destruct (decide (x = ce_target e)) as [->|Hne]; [by rewrite Hentry|].
      rewrite Hold; [apply Hnear|]; set_solver.
    + intros x e' Hx Hto He'. assert (x ∈ found prev) as Hx' by set_solver. destruct (b_closed _ _ _ I x e' Hx') as [H1 H2]; [set_solver|done|].
      split; [set_solver|]. by rewrite !Hold.
  - intros e' He'. apply Hin. by right.
  - cbn [s_prev]. intros e' He'. destruct (Hdone e' He') as [[->|H]%elem_of_cons|[H1 H2]]; [right|by left|right].
    + split; [cbn; set_solver|]. by rewrite Hentry, Hold.
    + split; [cbn; set_solver|]. by rewrite !Hold.
Qed.

(** The shortest walk, or the empty chain when there is none *)
Definition shortest (es : list CodeEdge) : Prop := walk g a es b /\ forall es', walk g a es' b -> length es <= length es'.

Lemma scan_spec cur edges s :
  scan_inv cur edges s ->
  match scan b edges s with
  | inl s' => scan_inv cur [] s' /\ length (s_queue s') + length (s_prev s) = length (s_queue s) + length (s_prev s')
  | inr es => shortest es
  end.
Proof.
  revert s. induction edges as [|e edges IH]; intros s H; cbn [scan]; [done|].
  destruct (decide (ce_target e ∈ s_seen s)) as [Hs|Hs].
  { rewrite bool_decide_true by done. apply IH. destruct H as (I & Hin & Hdone). split_and!; [done|intros e' ?; apply Hin; by right|].
    intros e' He'. destruct (Hdone e' He') as [[->|?]%elem_of_cons|?]; [right|by left|by right].
    apply (b_seen _ _ _ I) in Hs. split; [done|]. by apply (b_near _ _ _ I). }
  rewrite bool_decide_false by done. destruct (String.eqb_spec (ce_target e) b) as [Hb|Hb].
  - destruct H as (I & Hin & _). assert (ce_source e = cur) as Hsrc by (apply wf, Hin; by left).
    rewrite (b_seen _ _ _ I) in Hs. assert (cur ∈ found (s_prev s)) as Hcur by (apply (b_todo _ _ _ I); by left).
    rewrite (chain_of_back g a).
    2:{ cbn. rewrite Hsrc. split_and!; [done|apply Hin; by left|done|done|apply I]. }
    2:{ rewrite <- Hb. cbn. set_solver. }
    assert (back ((ce_target e, e) :: s_prev s) b = back (s_prev s) cur ++ [e]) as -> by (by rewrite <- Hb, back_entry, Hsrc). split.
    + apply walk_snoc. exists cur. split_and!; [by apply back_walk; [apply I|]|apply Hin; by left|done].
    + intros es' Hw. destruct (walk_found _ _ _ _ _ I Hw) as [[? _]|(y & Hy & Hd)]; [by rewrite <- Hb in *|].
      rewrite length_app. cbn [length]. fold (depth (s_prev s) cur). assert (depth (s_prev s) cur <= depth (s_prev s) y); [|lia].
      pose proof (b_sorted _ _ _ I) as Hsort. apply StronglySorted_inv in Hsort as [_ Hall]. apply elem_of_cons in Hy as [->|Hy]; [done|].
      by eapply Forall_forall in Hall.
  - specialize (IH _ (scan_new _ _ _ _ H Hs Hb)). destruct (scan _ _ _) as [s'|es]; [|done]. destruct IH as [IH1 IH2]. split; [done|].
    cbn [s_queue s_prev length] in IH2. rewrite length_app in IH2. cbn [length] in IH2. lia.
Qed.

Lemma scan_done cur s : scan_inv cur [] s -> bfs_inv (s_prev s) (s_seen s) (s_queue s).
Proof.
  intros (I & _ & Hdone). pose proof (b_sorted _ _ _ I) as Hsort. apply StronglySorted_inv in Hsort as [Hsort Hall].
  split; try apply I; try done.
  - intros x Hx. apply (b_todo _ _ _ I). by right.
  - intros x y Hx Hy. etrans; [by apply (b_near _ _ _ I)|]. destruct (s_queue s) as [|z q]; [done|]. injection Hy as ->.
    apply Forall_cons in Hall as [? _]. lia.
  - intros x e Hx Hto He. destruct (decide (x = cur)) as [->|Hne].
    + destruct (Hdone e He) as [H|H]; [by apply elem_of_nil in H|done].
    + apply (b_closed _ _ _ I); [done|set_solver|done].
Qed.

Lemma tree_bounded prev : tree_ok g a prev -> length prev <= length (List.concat (g_out g).*2).
Proof.
  intros Hok. rewrite <- (length_fmap snd prev). apply submseteq_length, NoDup_submseteq.
  - assert (NoDup prev.*1 /\ prev.*1 = map ce_target prev.*2) as [Hnd Hk].
    { induction prev as [|[t e] prev IH]; [by split; [constructor|]|]. destruct Hok as (-> & _ & _ & Ht & Hok). destruct (IH Hok) as [H1 H2].
      cbn. split; [constructor; [set_solver|done]|by rewrite H2]. }
    rewrite Hk in Hnd. by apply NoDup_fmap_1 in Hnd.
  - intros e He. induction prev as [|[t e'] prev IH]; [by apply elem_of_nil in He|]. destruct Hok as (_ & Hin & _ & _ & Hok).
    apply elem_of_cons in He as [->|He]; [|by apply IH]. revert Hin. unfold out_edges, edges_at.
    destruct (assoc (ce_source e') (g_out g)) as [l|] eqn:E; [|by intros ?%elem_of_nil]. cbn. intros Hin.
    apply list_elem_of_In, in_concat. exists l. split; [|by apply list_elem_of_In]. clear -E. revert E.
    induction (g_out g) as [|[k v] d IH]; [done|]. cbn. case_decide; [intros [= ->]; by left|]. right. by apply IH.
Qed.

Lemma bfs_spec fuel s :
  bfs_inv (s_prev s) (s_seen s) (s_queue s) -> fuel + S (length (s_prev s)) = enough g + length (s_queue s) ->
  exists es, bfs g fuel b s = Some es /\ (shortest es \/ (es = [] /\ forall es', ~ walk g a es' b)).
Proof.
  revert s. induction fuel as [|fuel IH]; intros s I Hf; cbn [bfs]; destruct (s_queue s) as [|cur rest] eqn:Hq.
  1,3: exists []; split; [done|]; right; split; [done|]; intros es' Hw;
    destruct (walk_found _ _ _ _ _ I Hw) as [[H _]|(y & Hy & _)]; [by apply (b_target _ _ _ I)|by apply elem_of_nil in Hy].
  - exfalso. pose proof (tree_bounded _ (b_tree _ _ _ I)). unfold enough in Hf. cbn [length] in Hf. lia.
  - pose proof (scan_spec cur (out_edges g cur) (mkSearch (s_seen s) (s_prev s) rest)) as Hs.
    assert (scan_inv cur (out_edges g cur) (mkSearch (s_seen s) (s_prev s) rest)) as Hsi by (split_and!; auto).
    specialize (Hs Hsi). destruct (scan _ _ _) as [s'|es]; [|by exists es; split; [|left]].
    destruct Hs as [Hd Hlen]. apply scan_done in Hd. apply IH; [done|]. cbn [s_queue s_prev length] in *. lia.
Qed.
End bfs_proofs.

(** C34. On a graph as it is loaded the chain between two nodes is found, always: it is a
    walk along edges of the graph from the first to the second, and no walk is shorter; it
    is empty exactly for a node and itself, or when there is no walk at all. *)
Theorem path_is_shortest raw source g a b :
  from_dict raw source = Ok g ->
  exists es, path g a b = Some es /\
    ((walk g a es b /\ forall es', walk g a es' b -> length es <= length es') \/ (es = [] /\ forall es', ~ walk g a es' b)).
Proof.
  intros wf%from_dict_well_formed. unfold path. destruct (String.eqb_spec a b) as [->|Hne].
  { exists []. split; [done|]. left. split; [done|]. intros es' _. cbn. lia. }
  apply (bfs_spec g wf a b).
  - cbn [s_prev s_seen s_queue]. split; cbn; try done; try set_solver; try (repeat constructor); intros x y ->%list_elem_of_singleton [= <-]; lia.
  - cbn. lia.
Qed.

(** ** A graph, queried *)

Definition edge_rec (s t r : string) : pyval := PDict [("source", PStr s); ("target", PStr t); ("relation", PStr r)].
Definition node_rec (i l : string) (line : string) : pyval :=
  PDict [("id", PStr i); ("label", PStr l); ("source_file", PStr "m.py"); ("source_location", PStr line)].
Definition demo_raw : pyval :=
  PDict [("nodes", PList [node_rec "m" "m.py" "L0"; node_rec "f" ".f()" "L3"; node_rec "g" "g()" "L9"; node_rec "h" "h()" "Lx"]);
         ("links", PList [edge_rec "m" "f" "contains"; edge_rec "f" "g" "calls"; edge_rec "g" "h" "calls"; edge_rec "h" "f" "calls"; edge_rec "f" "h" "calls"])].
Definition demo_graph : CodeGraph := Eval vm_compute in match from_dict demo_raw "d" with Ok g => g | Raise _ => mkGraph [] [] [] end.

Example demo_queries :
  map render_node (find demo_graph "f") = [".f()  (m.py:3)"] /\ map cn_id (find demo_graph "h()") = ["h"] /\
  map ce_source (callers demo_graph "f") = ["h"] /\ map ce_target (callees demo_graph "f") = ["h"; "g"] /\
  (map ce_target) <$> path demo_graph "m" "h" = Some ["f"; "h"] /\ path demo_graph "h" "m" = Some [].
Proof. vm_compute. done. Qed.

Lemma path_is_shortest_witness :
  exists es, path demo_graph "m" "h" = Some es /\
    ((walk demo_graph "m" es "h" /\ forall es', walk demo_graph "m" es' "h" -> length es <= length es') \/
     (es = [] /\ forall es', ~ walk demo_graph "m" es' "h")).
Proof. apply (path_is_shortest demo_raw "d"). vm_compute. reflexivity. Defined.

(** A name without parentheses or leading dot finds the symbol; a chain from a node to
    itself is empty, which the command line reports as no path *)
Example self_path : path demo_graph "f" "f" = Some [].
Proof. done. Qed.
