(* ===== verification/Bench.v ===== *)
(** * The discovery benchmark (scripts/bench.py)

    Matching a detector's candidates against human ground truth, which must never inflate,
    the scorecard, the loading of a case, and the detector that maps stage 1's red flags
    to tags.  The disk is a parameter. *)

From S2P Require Import Prelude PyStr PyPath PyVal PyNum PyJson Finding Stage1.

Record GroundTruth := mkTruth {
  gt_finding_id : string;
  gt_bastet_tag : bastet_tag;
  gt_location : string;
  gt_function_name : string;
  gt_severity : string;
}.
#[export] Instance GroundTruth_eq_dec : EqDecision GroundTruth.
Proof. solve_decision. Defined.

(** A candidate without a tag can never be credited *)
Record Candidate := mkCandidate {
  cd_finding_id : string;
  cd_bastet_tag : option bastet_tag;
  cd_location : string;
  cd_function_name : string;
  cd_severity : string;
}.
#[export] Instance Candidate_eq_dec : EqDecision Candidate.
Proof. solve_decision. Defined.

Inductive review_reason := tag_mismatch | location_mismatch.
#[export] Instance review_reason_eq_dec : EqDecision review_reason.
Proof. solve_decision. Defined.

Record MatchResult := mkMatchResult {
  mr_matched : list (Candidate * GroundTruth);
  mr_missed : list GroundTruth;
  mr_spurious : list Candidate;
  mr_needs_review : list (Candidate * (GroundTruth * review_reason));
}.

(** ** Matching *)

Definition normalize_location (location function_name : string) : string * string :=
  (lower (strip (path_name (to_path (strip location)))), lower (strip function_name)).

Definition same_loc (c : Candidate) (g : GroundTruth) : bool :=
  bool_decide (normalize_location (cd_location c) (cd_function_name c) = normalize_location (gt_location g) (gt_function_name g)).
Definition same_tag (c : Candidate) (g : GroundTruth) : bool := bool_decide (cd_bastet_tag c = Some (gt_bastet_tag g)).

(** The scan of the unclaimed truth: the first hit, else the first near miss *)
Fixpoint look (c : Candidate) (near : option (GroundTruth * review_reason)) (unclaimed : list GroundTruth) :
  GroundTruth + option (GroundTruth * review_reason) :=
  match unclaimed with
  | [] => inr near
  | gt :: rest =>
      if same_loc c gt && same_tag c gt then inl gt
      else
        let near :=
          match near with
          | Some n => Some n
          | None => if same_loc c gt then Some (gt, tag_mismatch) else if same_tag c gt then Some (gt, location_mismatch) else None
          end in
        look c near rest
  end.

(** [l.remove(x)] for a member *)
Fixpoint remove_one (x : GroundTruth) (l : list GroundTruth) : list GroundTruth :=
  match l with [] => [] | y :: l' => if bool_decide (y = x) then l' else y :: remove_one x l' end.

Definition match_one (acc : MatchResult * list GroundTruth) (c : Candidate) : MatchResult * list GroundTruth :=
  let '(res, unclaimed) := acc in
  match look c None unclaimed with
  | inl hit => (mkMatchResult (mr_matched res ++ [(c, hit)]) (mr_missed res) (mr_spurious res) (mr_needs_review res), remove_one hit unclaimed)
  | inr (Some near) => (mkMatchResult (mr_matched res) (mr_missed res) (mr_spurious res) (mr_needs_review res ++ [(c, near)]), unclaimed)
  | inr None => (mkMatchResult (mr_matched res) (mr_missed res) (mr_spurious res ++ [c]) (mr_needs_review res), unclaimed)
  end.

Definition sorted_by {A} (key : A -> string) (l : list A) : list A := py_sort (fun a b => str_leb (key a) (key b)) l.

Definition match_findings (produced : list Candidate) (truth : list GroundTruth) : MatchResult :=
  let '(res, unclaimed) := foldl match_one (mkMatchResult [] [] [] [], truth) (sorted_by cd_finding_id produced) in
  mkMatchResult (mr_matched res) (sorted_by gt_finding_id unclaimed) (mr_spurious res) (mr_needs_review res).

(** ** Scoring *)

Record Scorecard := mkScorecard {
  sc_case_id : string;
  sc_detector : string;
  sc_truth_n : nat;
  sc_produced_n : nat;
  sc_matched_n : nat;
  sc_recall : pyfloat;
  sc_precision : pyfloat;
  sc_per_tag_recall : list (string * option pyfloat);
  sc_missed_named : list GroundTruth;
  sc_needs_review_n : nat;
  sc_spurious_n : nat;
}.

(** [round(a / b, 4)] *)
Definition rate (a b : nat) : pyfloat := float_round 4 (true_div a b).
Definition rate_or_zero (a b : nat) : pyfloat := match b with 0 => S754_zero false | _ => rate a b end.

Definition has_tag (t : bastet_tag) (g : GroundTruth) : bool := bool_decide (gt_bastet_tag g = t).
Definition tags_of (truth : list GroundTruth) : list bastet_tag :=
  py_sort (fun a b => str_leb (enum_value a) (enum_value b)) (unique (map gt_bastet_tag truth)).
Definition tag_recall (truth : list GroundTruth) (m : MatchResult) (t : bastet_tag) : option pyfloat :=
  let denom := length (List.filter (has_tag t) truth) in
  let num := length (List.filter (has_tag t) (map snd (mr_matched m))) in
  match denom with 0 => None | _ => Some (rate num denom) end.

Definition score (case_id : string) (truth : list GroundTruth) (detector : string) (m : MatchResult) (produced_n : nat) : Scorecard :=
  let truth_n := length truth in
  let matched_n := length (mr_matched m) in
  mkScorecard case_id detector truth_n produced_n matched_n (rate_or_zero matched_n truth_n) (rate_or_zero matched_n produced_n)
    (map (fun t => (enum_value t, tag_recall truth m t)) (tags_of truth))
    (mr_missed m) (length (mr_needs_review m)) (length (mr_spurious m)).

Definition render (s : Scorecard) : string :=
  unlines (
    ["case=" +:+ sc_case_id s +:+ " detector=" +:+ sc_detector s;
     "  recall    " +:+ float_percent (sc_recall s) +:+ "  (" +:+ pretty (sc_matched_n s) +:+ "/" +:+ pretty (sc_truth_n s) +:+ ")";
     "  precision " +:+ float_percent (sc_precision s) +:+ "  (" +:+ pretty (sc_matched_n s) +:+ "/" +:+ pretty (sc_produced_n s) +:+ ")"
     +:+ "   needs_review=" +:+ pretty (sc_needs_review_n s) +:+ " spurious=" +:+ pretty (sc_spurious_n s);
     "  recall per class:"]
    ++ map (fun tv => "    " +:+ pad_right 34 tv.1 +:+ " " +:+ match tv.2 with None => "n/a" | Some v => float_percent v end) (sc_per_tag_recall s)
    ++ ["  MISSED (" +:+ pretty (length (sc_missed_named s)) +:+ "):"]
    ++ map (fun g => "    " +:+ pad_right 8 (gt_finding_id g) +:+ " " +:+ pad_right 28 (enum_value (gt_bastet_tag g)) +:+ " "
                     +:+ gt_location g +:+ ":" +:+ gt_function_name g) (sc_missed_named s)).

(** ** Loading a case *)

Record Case := mkCase {
  ca_case_id : string;
  ca_truth : list GroundTruth;
  ca_target_path : option path;
  ca_repo_url : string;
  ca_commit : string;
  ca_report_path : option path;
}.

Definition bench_error (msg : string) : exn := Exn "BenchError" msg.

Section load.
Context (fs : FileSystem) (expanduser : path -> res path) (agent_root : path) (decode_message : string -> string).

Definition external (p : path) (what : string) : res path :=
  p ← expanduser p;
  let r := fs_resolve fs p in
  if bool_decide (r = agent_root) || in_parents agent_root r
  then Raise (bench_error (what +:+ " must be EXTERNAL to the agent repo, got: " +:+ path_str r))
  else Ok r.

Definition tag (raw ctx : string) : res bastet_tag :=
  match enum_of raw with
  | Some t => Ok t
  | None => Raise (bench_error (ctx +:+ ": unknown bastet_tag " +:+ repr_str raw
                     +:+ " — not in the taxonomy. Fix the label; a silent skip would quietly shrink the recall denominator."))
  end.

Definition read_json (p : path) : res pyval :=
  text ← fs_read fs p;
  match loads text with Some v => Ok v | None => Raise (Exn "JSONDecodeError" (decode_message text)) end.

Definition load_truth (case_id : string) (rec : pyval) : res GroundTruth :=
  fid ← getitem rec "finding_id";
  raw ← getitem rec "bastet_tag";
  ctx ← pget rec "finding_id" PNone;
  t ← tag (py_str raw) (case_id +:+ "/" +:+ py_str ctx);
  location ← getitem rec "location";
  fn ← pget rec "function_name" (PStr "");
  sev ← pget rec "severity" (PStr "medium");
  Ok (mkTruth (py_str fid) t (py_str location) (py_str fn) (py_str sev)).

Definition require_file (case_dir p : path) : res unit :=
  if fs_is_file fs p then Ok tt else Raise (bench_error ("missing " +:+ path_name p +:+ " in " +:+ path_str case_dir)).

(** [Path(v)] *)
Definition as_path (v : pyval) : res path := s ← as_str v; Ok (to_path s).

Definition load_case (case_dir : path) : res Case :=
  case_dir ← external case_dir "case dir";
  let manifest_p := path_join case_dir ["case.json"] in
  let labels_p := path_join case_dir ["labels.json"] in
  _ ← require_file case_dir manifest_p;
  _ ← require_file case_dir labels_p;
  manifest ← read_json manifest_p;
  id ← pget manifest "case_id" PNone;
  let case_id := py_str (por id (PStr (path_name case_dir))) in
  target ← pget manifest "target_path" PNone;
  url ← pget manifest "repo_url" PNone;
  if Bool.eqb (truthy_val target) (truthy_val url) then Raise (bench_error (case_id +:+ ": provide exactly one of target_path / repo_url"))
  else
    labels ← read_json labels_p;
    recs ← piter labels;
    truth ← map_res (load_truth case_id) recs;
    target_path ← (if truthy_val target then p ← as_path target; r ← external p "target_path"; Ok (Some r) else Ok None);
    url ← pget manifest "repo_url" (PStr "");
    commit ← pget manifest "commit" (PStr "");
    report ← pget manifest "report_path" PNone;
    report_path ← (if truthy_val report then p ← as_path report; r ← expanduser p; Ok (Some r) else Ok None);
    Ok (mkCase case_id truth target_path (py_str url) (py_str commit) report_path).

(** The sub-directories of [cases], which listing the directory gives *)
Definition load_dataset (iterdir : path -> list path) (root : path) : res (list Case) :=
  root ← external root "bench root";
  let cases_dir := path_join root ["cases"] in
  if negb (fs_is_dir fs cases_dir) then Raise (bench_error ("no cases/ under " +:+ path_str root))
  else map_res load_case (List.filter (fs_is_dir fs) (py_sort path_leb (iterdir cases_dir))).
End load.

(** ** The heuristic detector *)

Definition FLAG_TAG (flag : string) : option bastet_tag :=
  if String.eqb flag "tx_origin_auth" then Some BastetTag.incorrect_access_control
  else if String.eqb flag "delegatecall" then Some BastetTag.delegatecall_injection
  else if String.eqb flag "timestamp_dependence" then Some BastetTag.timestamp_dependence
  else if String.eqb flag "external_call_before_state_write" then Some BastetTag.reentrancy
  else None.

Definition case_files (fs : FileSystem) (case_id : string) (target_path : option path) : res (list path) :=
  match target_path with
  | None => Raise (bench_error (case_id +:+ ": uses repo_url — clone it and set target_path (v1 needs local files)"))
  | Some p => Ok (List.filter (fs_is_file fs) (py_sort path_leb (fs_rglob_sol fs p)))
  end.

(** The tagged flags of a file's functions *)
Definition flagged (src : string) : list (string * bastet_tag) :=
  List.concat (map (fun f => map (fun t => (f.1.1, t)) (omap FLAG_TAG (score_function f.1.2).2)) (extract_functions src)).

Definition number_candidates (l : list (string * (string * bastet_tag))) : list Candidate :=
  imap (fun i x => mkCandidate ("H-" +:+ pad3 (S i)) (Some x.2.2) x.1 x.2.1 "informational") l.

Definition heuristic_detector (fs : FileSystem) (case_id : string) (target_path : option path) : res (list Candidate) :=
  files ← case_files fs case_id target_path;
  sources ← map_res (fun p => src ← fs_read fs p; Ok (map (fun f => (path_name p, f)) (flagged src))) files;
  Ok (number_candidates (List.concat sources)).

(** ** The measuring stick never inflates *)

(** What a candidate is credited for: a place and a tag *)
Abbreviation key := ((string * string) * bastet_tag)%type.
Definition candidate_key (c : Candidate) : option key :=
  (fun t => (normalize_location (cd_location c) (cd_function_name c), t)) <$> cd_bastet_tag c.
Definition truth_key (g : GroundTruth) : key := (normalize_location (gt_location g) (gt_function_name g), gt_bastet_tag g).
Definition credited (p : Candidate * GroundTruth) : Prop := candidate_key p.1 = Some (truth_key p.2).

Lemma credited_iff c g : same_loc c g && same_tag c g = true <-> credited (c, g).
Proof.
  unfold same_loc, same_tag, credited, candidate_key, truth_key. cbn [fst snd]. rewrite andb_true_iff, !bool_decide_eq_true.
  generalize (normalize_location (cd_location c) (cd_function_name c)) (normalize_location (gt_location g) (gt_function_name g)).
  intros l l'. destruct (cd_bastet_tag c) as [t|]; cbn; [|split; [by intros [_ ?]|done]].
  split; [by intros [-> [= ->]]|by intros [= -> ->]].
Qed.

(** A near miss shares the place or the tag, and not both *)
Definition near_ok (x : Candidate * (GroundTruth * review_reason)) : Prop :=
  match x.2.2 with
  | tag_mismatch => same_loc x.1 x.2.1 = true /\ same_tag x.1 x.2.1 = false
  | location_mismatch => same_loc x.1 x.2.1 = false /\ same_tag x.1 x.2.1 = true
  end.

Lemma look_spec c near l :
  (forall n, near = Some n -> near_ok (c, n)) ->
  match look c near l with
  | inl gt => gt ∈ l /\ credited (c, gt)
  | inr near' => (forall gt, gt ∈ l -> ~ credited (c, gt)) /\ (forall n, near' = Some n -> near_ok (c, n))
  end.
Proof.
  revert near. induction l as [|gt l IH]; intros near Hn; cbn [look]; [split; [by intros ? ?%elem_of_nil|done]|].
  destruct (same_loc c gt && same_tag c gt) eqn:Hc; [split; [by left|by apply credited_iff]|]. cbv zeta.
  match goal with |- context [look c ?x l] => set (near2 := x) end.
  assert (forall n, near2 = Some n -> near_ok (c, n)) as Hn2.
  { unfold near2. destruct near as [n0|]; [done|]. intros n. unfold near_ok. destruct (same_loc c gt) eqn:H1; [intros [= <-]; by cbn|].
    destruct (same_tag c gt) eqn:H2; [intros [= <-]; by cbn|done]. }
  specialize (IH near2 Hn2). destruct (look c near2 l) as [g|near'].
  - destruct IH as [H1 H2]. split; [by right|done].
  - destruct IH as [H1 H2]. split; [|done]. intros g [->|Hg]%elem_of_cons; [|by apply H1]. rewrite <- credited_iff. congruence.
Qed.

Lemma remove_one_perm x l : x ∈ l -> l ≡ₚ x :: remove_one x l.
Proof.
  induction l as [|y l IH]; [by intros ?%elem_of_nil|]. cbn. case_bool_decide as H; [by rewrite H|].
  intros [->|Hx]%elem_of_cons; [done|]. rewrite IH at 1 by done. apply Permutation_swap.
Qed.

Definition at_key (k : key) (c : Candidate) : Prop := candidate_key c = Some k.
Definition truth_at (k : key) (g : GroundTruth) : Prop := truth_key g = k.
#[export] Instance at_key_dec k c : Decision (at_key k c) := decide (candidate_key c = Some k).
#[export] Instance truth_at_dec k g : Decision (truth_at k g) := decide (truth_key g = k).

(** The state of the matching after some candidates *)
Record accounted (done_ : list Candidate) (truth : list GroundTruth) (st : MatchResult * list GroundTruth) : Prop := {
  a_credited : Forall credited (mr_matched st.1);
  a_candidates : (mr_matched st.1).*1 ++ (mr_needs_review st.1).*1 ++ mr_spurious st.1 ≡ₚ done_;
  a_truth : (mr_matched st.1).*2 ++ st.2 ≡ₚ truth;
  a_near : Forall near_ok (mr_needs_review st.1);
  a_count k : length (filter (truth_at k) (mr_matched st.1).*2)
    = Nat.min (length (filter (at_key k) done_)) (length (filter (truth_at k) truth));
}.

Lemma filter_len_app {A} (P : A -> Prop) `{forall x, Decision (P x)} l k : length (filter P (l ++ k)) = length (filter P l) + length (filter P k).
Proof. by rewrite filter_app, length_app. Qed.

Lemma filter_len_one {A} (P : A -> Prop) `{forall x, Decision (P x)} x : length (filter P [x]) = if decide (P x) then 1 else 0.
Proof. rewrite filter_cons, filter_nil. by destruct (decide (P x)). Qed.

Lemma filter_len_none {A} (P : A -> Prop) `{forall x, Decision (P x)} l : (forall x, x ∈ l -> ~ P x) -> length (filter P l) = 0.
Proof.
  induction l as [|x l IH]; intros Hn; [done|]. rewrite filter_cons. destruct (decide (P x)) as [Hx|_].
  - exfalso. apply (Hn x); [by left|done].
  - apply IH. intros y Hy. apply Hn. by right.
Qed.

Lemma filter_len_sub {A} (P : A -> Prop) `{forall x, Decision (P x)} l k : l ⊆+ k -> length (filter P l) <= length (filter P k).
Proof. intros [r ->]%submseteq_Permutation. rewrite filter_len_app. lia. Qed.

Lemma match_one_accounted done_ truth st c : accounted done_ truth st -> accounted (done_ ++ [c]) truth (match_one st c).
Proof.
  intros [H1 H2 H3 H4 H5]. destruct st as [res unclaimed]. cbn [fst snd] in *. unfold match_one.
  pose proof (look_spec c None unclaimed ltac:(done)) as Hl.
  assert (forall k, length (filter (truth_at k) truth) = length (filter (truth_at k) (mr_matched res).*2) + length (filter (truth_at k) unclaimed)) as Ht.
  { intros k. by rewrite <- H3, filter_len_app. }
  destruct (look c None unclaimed) as [hit|near].
  - destruct Hl as [Hin Hc]. pose proof (remove_one_perm _ _ Hin) as Hp. split; cbn [fst snd mr_matched mr_needs_review mr_spurious].
    + apply Forall_app. split; [done|by apply Forall_singleton].
    + rewrite fmap_app. cbn. rewrite <- H2. by rewrite <- !app_assoc, (Permutation_app_comm [c]), <- !app_assoc.
    + rewrite fmap_app. cbn. rewrite <- app_assoc. cbn. by rewrite <- Hp.
    + done.
    + intros k. rewrite fmap_app, !filter_len_app. cbn [fmap list_fmap snd]. rewrite !filter_len_one. specialize (Ht k). specialize (H5 k).
      rewrite Hp in Ht. rewrite (filter_len_app _ [hit] (remove_one hit unclaimed)), filter_len_one in Ht.
      assert (at_key k c <-> truth_at k hit) as Hk by (unfold at_key, truth_at, credited in *; cbn in Hc; naive_solver congruence).
      destruct (decide (truth_at k hit)), (decide (at_key k c)); try tauto; lia.
  - destruct Hl as [Hno Hnear].
    assert (forall k, length (filter (truth_at k) (mr_matched res).*2) =
      Nat.min (length (filter (at_key k) (done_ ++ [c]))) (length (filter (truth_at k) truth))) as Hcount.
    { intros k. rewrite filter_len_app, filter_len_one. destruct (decide (at_key k c)) as [Hk|Hk]; [|rewrite Nat.add_0_r; apply H5].
      assert (length (filter (truth_at k) unclaimed) = 0) as Hnil.
      { apply filter_len_none. intros g Hg Htk. apply (Hno g Hg). unfold credited, truth_at, at_key in *. cbn. congruence. }
      specialize (Ht k). specialize (H5 k). lia. }
    destruct near as [n|]; split; cbn [fst snd mr_matched mr_needs_review mr_spurious]; try done.
    + rewrite fmap_app. cbn. rewrite <- H2, <- !app_assoc. do 2 apply Permutation_app_head. apply Permutation_app_comm.
    + apply Forall_app. split; [done|]. apply Forall_singleton. by apply Hnear.
    + by rewrite <- H2, !app_assoc.
Qed.

(** C35. Matching never inflates and never wastes: every candidate ends up credited, to be
    reviewed or spurious, and every ground truth credited or missed, each once; a credit is
    for the same place and the same tag, a review for exactly one of the two; and for each
    place and tag as many are credited as both sides have, so that no other one-to-one
    crediting of these candidates has more. *)
Theorem matching_is_exact produced truth :
  let r := match_findings produced truth in
  (mr_matched r).*1 ++ (mr_needs_review r).*1 ++ mr_spurious r ≡ₚ produced /\
  (mr_matched r).*2 ++ mr_missed r ≡ₚ truth /\
  Forall credited (mr_matched r) /\ Forall near_ok (mr_needs_review r) /\
  (forall k, length (filter (truth_at k) (mr_matched r).*2) = Nat.min (length (filter (at_key k) produced)) (length (filter (truth_at k) truth))) /\
  (forall l, Forall credited l -> l.*1 ⊆+ produced -> l.*2 ⊆+ truth ->
     forall k, length (filter (truth_at k) l.*2) <= length (filter (truth_at k) (mr_matched r).*2)).
Proof.
  cbv zeta. unfold match_findings. set (sorted := sorted_by cd_finding_id produced).
  assert (sorted ≡ₚ produced) as Hp by apply py_sort_perm.
  assert (accounted sorted truth (foldl match_one (mkMatchResult [] [] [] [], truth) sorted)) as Hacc.
  { generalize sorted. intros l. induction l as [|c l IH] using rev_ind; [by split|]. rewrite foldl_app. by apply match_one_accounted. }
  destruct (foldl match_one _ sorted) as [res unclaimed]. destruct Hacc as [H1 H2 H3 H4 H5]. cbn [fst snd mr_matched mr_missed mr_spurious mr_needs_review] in *.
  assert (forall k, length (filter (truth_at k) (mr_matched res).*2) = Nat.min (length (filter (at_key k) produced)) (length (filter (truth_at k) truth))) as Hk.
  { intros k. by rewrite H5, Hp. }
  split_and!; [by rewrite H2|unfold sorted_by; by rewrite py_sort_perm|done|done|done|].
  intros l Hl Hc Hg k. rewrite Hk. apply Nat.min_glb.
  - transitivity (length (filter (at_key k) l.*1)).
    + clear -Hl. induction Hl as [|[c g] l Hcg _ IH]; [done|]. rewrite !fmap_cons, !filter_cons. cbn [fst snd].
      assert (at_key k c <-> truth_at k g) as Hcgk by (unfold at_key, truth_at, credited in *; cbn in Hcg; naive_solver congruence).
      destruct (decide (truth_at k g)), (decide (at_key k c)); try tauto; cbn [length]; lia.
    + by apply filter_len_sub.
  - by apply filter_len_sub.
Qed.

(** Two labels at one place with one tag: the second candidate finds the first one taken *)
Example demo_match :
  let c i t l f := mkCandidate i t l f "medium" in
  let g i t l f := mkTruth i t l f "high" in
  let r := match_findings [c "c2" (Some BastetTag.reentrancy) "src/Vault.sol" "withdraw"; c "c1" (Some BastetTag.reentrancy) "Vault.sol" "Withdraw ";
                           c "c3" None "Vault.sol" "withdraw"; c "c4" (Some BastetTag.mev) "A.sol" "f"]
                          [g "g1" BastetTag.reentrancy "contracts/Vault.sol" "withdraw"; g "g2" BastetTag.logic_error "Vault.sol" "withdraw"] in
  map (fun p => (cd_finding_id p.1, gt_finding_id p.2)) (mr_matched r) = [("c1", "g1")] /\
  map (fun p => (cd_finding_id p.1, (gt_finding_id p.2.1, p.2.2))) (mr_needs_review r) = [("c2", ("g2", tag_mismatch)); ("c3", ("g2", tag_mismatch))] /\
  map cd_finding_id (mr_spurious r) = ["c4"] /\ map gt_finding_id (mr_missed r) = ["g2"].
Proof. vm_compute. done. Qed.

(** ** A case, loaded *)

(** What loading promises: a case outside the agent's repository, with exactly one kind of
    target, and a truth for each label, its tag a member of the taxonomy *)
Lemma load_case_external fs expanduser agent_root msg dir c :
  load_case fs expanduser agent_root msg dir = Ok c ->
  (exists d, external fs expanduser agent_root dir "case dir" = Ok d /\ d <> agent_root /\ in_parents agent_root d = false) /\
  (forall p, ca_target_path c = Some p -> p <> agent_root /\ in_parents agent_root p = false).
Proof.
  assert (forall p w r, external fs expanduser agent_root p w = Ok r -> r <> agent_root /\ in_parents agent_root r = false) as Hext.
  { intros p w r. unfold external. intros (p' & _ & H)%res_bind_Ok. cbv zeta in H. destruct (_ || _) eqn:E; [done|]. injection H as <-.
    apply orb_false_iff in E as [E1 E2]. by apply bool_decide_eq_false in E1. }
  unfold load_case. intros (d & Hd & H)%res_bind_Ok. split; [exists d; split; [done|by eapply Hext]|]. cbv zeta in H.
  apply res_bind_Ok in H as (_ & _ & H). apply res_bind_Ok in H as (_ & _ & H). apply res_bind_Ok in H as (mf & _ & H).
  apply res_bind_Ok in H as (i & _ & H). apply res_bind_Ok in H as (target & _ & H). apply res_bind_Ok in H as (url & _ & H).
  destruct (Bool.eqb _ _); [done|]. apply res_bind_Ok in H as (lb & _ & H). apply res_bind_Ok in H as (recs & _ & H).
  apply res_bind_Ok in H as (truth & _ & H). apply res_bind_Ok in H as (tp & Htp & H). apply res_bind_Ok in H as (u2 & _ & H).
  apply res_bind_Ok in H as (cm & _ & H). apply res_bind_Ok in H as (rp & _ & H). apply res_bind_Ok in H as (rp' & _ & [= <-]).
  cbn [ca_target_path]. intros p ->. destruct (truthy_val target); [|done].
  apply res_bind_Ok in Htp as (tpath & _ & Htp). apply res_bind_Ok in Htp as (r & Hr & [= ->]). by eapply Hext.
Qed.
