(* ===== verification/ProofBench.v ===== *)
(** * The proof benchmark (scripts/proof_bench.py)

    The credible interval of a success rate, by bisection on the incomplete beta
    function, the attrition funnel, the report of a case set, the comparison of two
    reports, and the runs of one case through the harness.  The functions of the C
    library that [math] wraps, the disk and the harness are parameters. *)

From S2P Require Import Prelude PyStr PyPath PyVal PyNum PyFloat PyJson.

Definition pb_error (msg : string) : exn := Exn "ProofBenchError" msg.

Record Case := mkCase {
  case_id : string;
  target_path : path;
  report_path : path;
  finding_id : string;
  fix_path : path;
  title : string;
  location : string;
  description : string;
  finding_class : string;
}.

Record RunConfig := mkConfig {
  case_set_id : string;
  provider : string;
  model : string;
  scaffold : string;
  example : string;
  settings : list (string * bool);
  cfg_n : nat;
  harness_version : string;
}.

Record CaseOutcome := mkOutcome {
  o_case_id : string;
  run_idx : nat;
  stage : string;
  outcome : string;
  verify_reason : string;
}.
#[export] Instance CaseOutcome_eq_dec : EqDecision CaseOutcome.
Proof. solve_decision. Defined.

Record Interval := mkInterval {
  lo : pyfloat;
  hi : pyfloat;
  mass : pyfloat;
  successes : Z;
  trials : Z;
}.
Definition width (iv : Interval) : pyfloat := float_sub (hi iv) (lo iv).

Record Funnel := mkFunnel {
  survivors : list (string * nat);
  casualties : list (string * list string);
  off_ladder : list (string * list string);
}.

Record Report := mkReport {
  interval : Interval;
  funnel : Funnel;
  config : RunConfig;
  by_class : list (string * Interval);
}.

Definition STAGES : list string := ["extracted"; "draft"; "compiled"; "real_pass"; "verified"].
Definition NOT_EXTRACTED : string := "not_extracted".
Definition ERROR : string := "error".
Definition HARNESS_TIMEOUT_MARGIN_S : pyfloat := float_lit "300.0".

Definition round4 (x : pyfloat) : pyval := PFloat (float_repr (float_round 4 x)).
Definition Interval_to_dict (iv : Interval) : pyval :=
  PDict [("lo", round4 (lo iv)); ("hi", round4 (hi iv)); ("width", round4 (width iv)); ("mass", PFloat (float_repr (mass iv)));
         ("successes", PInt (successes iv)); ("trials", PInt (trials iv))].
Definition Funnel_to_dict (f : Funnel) : pyval :=
  let names (l : list (string * list string)) := PDict (map (fun kv => (kv.1, PList (map PStr kv.2))) l) in
  PDict [("survivors", PDict (map (fun kv => (kv.1, PInt (Z.of_nat kv.2))) (survivors f)));
         ("casualties", names (casualties f)); ("off_ladder", names (off_ladder f))].
Definition RunConfig_to_dict (c : RunConfig) : pyval :=
  PDict [("case_set_id", PStr (case_set_id c)); ("provider", PStr (provider c)); ("model", PStr (model c)); ("scaffold", PStr (scaffold c));
         ("example", PStr (example c)); ("settings", PDict (map (fun kv => (kv.1, PBool kv.2)) (settings c))); ("n", PInt (Z.of_nat (cfg_n c)));
         ("harness_version", PStr (harness_version c))].
Definition Report_to_dict (r : Report) : pyval :=
  PDict ([("interval", Interval_to_dict (interval r)); ("funnel", Funnel_to_dict (funnel r)); ("config", RunConfig_to_dict (config r))]
         ++ match by_class r with [] => [] | bc => [("by_class", PDict (map (fun kv => (kv.1, Interval_to_dict kv.2)) bc))] end).

(** ** Loading the cases *)

Section load.
Context (fs : FileSystem) (expanduser : path -> res path) (agent_root : path) (decode_message : string -> string).

Definition external (p : path) (what : string) : res path :=
  p ← expanduser p;
  let r := fs_resolve fs p in
  if bool_decide (r = agent_root) || in_parents agent_root r
  then Raise (pb_error (what +:+ " must be EXTERNAL to the agent repo, got: " +:+ path_str r))
  else Ok r.

Definition as_path (v : pyval) : res path := s ← as_str v; Ok (to_path s).

Definition REQUIRED : list string := ["target_path"; "report_path"; "finding_id"; "title"; "location"; "description"].

(** The loop over the required keys *)
Definition require_key (case_id : string) (m : pyval) (key : string) : res unit :=
  v ← pget m key (PStr "");
  if truthy (strip (py_str v)) then Ok tt
  else Raise (pb_error (case_id +:+ ": missing " +:+ key +:+ " - a proof-eval case must carry its curated finding "
         +:+ "(title/location/description) so it can be pinned; no fallback to model extraction")).

Definition load_case (case_dir : path) : res Case :=
  case_dir ← external case_dir "case dir";
  let manifest_p := path_join case_dir ["case.json"] in
  if negb (fs_is_file fs manifest_p) then Raise (pb_error ("missing case.json in " +:+ path_str case_dir)) else
  text ← fs_read fs manifest_p;
  m ← match loads text with Some v => Ok v | None => Raise (Exn "JSONDecodeError" (decode_message text)) end;
  id ← pget m "case_id" PNone;
  let case_id := py_str (por id (PStr (path_name case_dir))) in
  fix_raw ← pget m "fix_path" PNone;
  if negb (truthy_val fix_raw) then
    Raise (pb_error (case_id +:+ ": no fix_path - every proof-eval case needs an operator fix "
      +:+ "(verified is unreachable without one; a lead is promoted or discarded, not a case)")) else
  fix_path ← as_path fix_raw;
  fix_path ← external fix_path (case_id +:+ " fix_path");
  if negb (fs_is_file fs fix_path) then Raise (pb_error (case_id +:+ ": fix_path does not exist: " +:+ path_str fix_path)) else
  _ ← map_res (require_key case_id m) REQUIRED;
  target ← getitem m "target_path";
  target ← as_path target;
  target ← external target (case_id +:+ " target_path");
  report ← getitem m "report_path";
  report ← as_path report;
  report ← expanduser report;
  fid ← getitem m "finding_id";
  ti ← getitem m "title";
  loc ← getitem m "location";
  desc ← getitem m "description";
  cls ← pget m "finding_class" PNone;
  cls' ← pget m "class" PNone;
  Ok (mkCase case_id target report (py_str fid) fix_path (py_str ti) (py_str loc) (py_str desc) (py_str (por (por cls cls') (PStr "")))).

(** [iterdir] lists a directory *)
Definition load_dataset (iterdir : path -> list path) (root : path) : res (list Case) :=
  root ← external root "proof-bench root";
  let cases_dir := path_join root ["cases"] in
  if negb (fs_is_dir fs cases_dir) then Raise (pb_error ("no cases/ under " +:+ path_str root))
  else map_res load_case (List.filter (fs_is_dir fs) (py_sort path_leb (iterdir cases_dir))).
End load.

(** ** The Beta credible interval *)

Definition BETACF_ITMAX : nat := 300.
Definition BETACF_EPS : pyfloat := float_lit "3e-14".
Definition PPF_TOL : pyfloat := float_lit "1e-12".
Definition PPF_ITMAX : nat := 200.

Definition f0 : pyfloat := S754_zero false.
Definition f1 : pyfloat := float_lit "1.0".
Definition f2 : pyfloat := float_lit "2.0".
Definition half : pyfloat := float_lit "0.5".
Definition tiny : pyfloat := float_lit "1e-30".
Definition off_zero (d : pyfloat) : pyfloat := if float_ltb (float_abs d) tiny then tiny else d.

(** The variables of the continued fraction *)
Record cf := mkCf { cf_c : pyfloat; cf_d : pyfloat; cf_h : pyfloat }.

(** One half of a turn: the coefficient [aa] applied to [c] and [d], and their product *)
Definition lentz (aa : pyfloat) (v : cf) : res (cf * pyfloat) :=
  let d := off_zero (f1 + aa * cf_d v)%pyfloat in
  q ← float_div aa (cf_c v);
  let c := off_zero (f1 + q)%pyfloat in
  d ← float_div f1 d;
  let de := (d * c)%pyfloat in
  Ok (mkCf c d (cf_h v * de)%pyfloat, de).

Definition betacf_turn (a b x qab qap qam : pyfloat) (mm : nat) (v : cf) : res (cf * bool) :=
  let m := float_round_Z (Z.of_nat mm) in
  let m2 := float_round_Z (Z.of_nat (2 * mm)) in
  aa ← float_div (m * (b - m) * x)%pyfloat ((qam + m2) * (a + m2))%pyfloat;
  vd ← lentz aa v;
  aa ← float_div (float_opp (a + m) * (qab + m) * x)%pyfloat ((a + m2) * (qap + m2))%pyfloat;
  vd ← lentz aa vd.1;
  Ok (vd.1, float_ltb (float_abs (vd.2 - f1)%pyfloat) BETACF_EPS).

(** The [for] loop from [mm], [n] turns at most *)
Fixpoint betacf_loop (turn : nat -> cf -> res (cf * bool)) (n mm : nat) (v : cf) : res pyfloat :=
  match n with
  | 0 => Ok (cf_h v)
  | S n' => vs ← turn mm v; if vs.2 : bool then Ok (cf_h vs.1) else betacf_loop turn n' (S mm) vs.1
  end.

Definition betacf (a b x : pyfloat) : res pyfloat :=
  let qab := (a + b)%pyfloat in
  let qap := (a + f1)%pyfloat in
  let qam := (a - f1)%pyfloat in
  q ← float_div (qab * x)%pyfloat qap;
  d ← float_div f1 (off_zero (f1 - q)%pyfloat);
  betacf_loop (betacf_turn a b x qab qap qam) BETACF_ITMAX 1 (mkCf f1 d d).

Section libm.
(** [math.lgamma], [math.log] and [math.exp] *)
Context (lgamma log exp : pyfloat -> res pyfloat).

Definition betai (a b x : pyfloat) : res pyfloat :=
  if float_leb x f0 then Ok f0
  else if float_leb f1 x then Ok f1
  else
    gab ← lgamma (a + b)%pyfloat;
    ga ← lgamma a;
    gb ← lgamma b;
    lx ← log x;
    lx' ← log (f1 - x)%pyfloat;
    bt ← exp (gab - ga - gb + a * lx + b * lx')%pyfloat;
    q ← float_div (a + f1)%pyfloat (a + b + f2)%pyfloat;
    if float_ltb x q then
      h ← betacf a b x;
      float_div (bt * h)%pyfloat a
    else
      h ← betacf b a (f1 - x)%pyfloat;
      q ← float_div (bt * h)%pyfloat b;
      Ok (f1 - q)%pyfloat.

(** The bisection for the quantile of [cdf] from the bracket [lo], [hi] *)
Fixpoint ppf_loop (cdf : pyfloat -> res pyfloat) (p : pyfloat) (n : nat) (lo hi : pyfloat) : res (pyfloat * pyfloat) :=
  match n with
  | 0 => Ok (lo, hi)
  | S n' =>
      let mid := (half * (lo + hi))%pyfloat in
      v ← cdf mid;
      let lo := if float_ltb v p then mid else lo in
      let hi := if float_ltb v p then hi else mid in
      if float_ltb (hi - lo)%pyfloat PPF_TOL then Ok (lo, hi) else ppf_loop cdf p n' lo hi
  end.

Definition beta_ppf (p a b : pyfloat) : res pyfloat :=
  b ← ppf_loop (betai a b) p PPF_ITMAX f0 f1;
  Ok (half * (b.1 + b.2))%pyfloat.

Definition MASS : pyfloat := float_lit "0.95".

Definition credible_interval (successes trials : Z) (mass : pyfloat) : res Interval :=
  if (trials <? 0)%Z || (successes <? 0)%Z || (trials <? successes)%Z
  then Raise (pb_error ("bad (successes, trials) = (" +:+ pretty successes +:+ ", " +:+ pretty trials +:+ ")"))
  else
    s ← float_of_int successes;
    let a := (s + half)%pyfloat in
    f ← float_of_int (trials - successes);
    let b := (f + half)%pyfloat in
    tail ← float_div (f1 - mass)%pyfloat f2;
    lo ← (if (trials =? 0)%Z then Ok f0 else beta_ppf tail a b);
    hi ← (if (trials =? 0)%Z then Ok f1 else beta_ppf (f1 - tail)%pyfloat a b);
    Ok (mkInterval lo hi mass successes trials).
End libm.

(** ** Comparing *)

Definition dominates (a b : Interval) : bool := float_ltb (hi b) (lo a).
Definition resolve (a b : Interval) : string :=
  if dominates a b || dominates b a then "resolved" else "unresolved@N".

Definition same_settings (a b : list (string * bool)) : bool :=
  bool_decide (list_to_map a =@{gmap string bool} list_to_map b).

Definition config_diffs (a b : RunConfig) : list string :=
  let diff (name : string) (same : bool) := if same then [] else [name] in
  py_sort str_leb
    (diff "case_set_id" (bool_decide (case_set_id a = case_set_id b)) ++ diff "provider" (bool_decide (provider a = provider b))
     ++ diff "model" (bool_decide (model a = model b)) ++ diff "scaffold" (bool_decide (scaffold a = scaffold b))
     ++ diff "example" (bool_decide (example a = example b)) ++ diff "settings" (same_settings (settings a) (settings b))
     ++ diff "n" (bool_decide (cfg_n a = cfg_n b))).

Inductive comparison :=
  | config_mismatch (fields : list string)
  | comparable (verdict : string) (a b : Interval).

Definition compare (a b : Report) : comparison :=
  match config_diffs (config a) (config b) with
  | (_ :: _) as diffs => config_mismatch diffs
  | [] =>
      let ia := interval a in
      let ib := interval b in
      comparable (if float_ltb (hi ia) (lo ib) then "b_better" else if float_ltb (hi ib) (lo ia) then "a_better" else "not_distinguishable") ia ib
  end.

Definition compare_to_dict (c : comparison) : pyval :=
  match c with
  | config_mismatch diffs =>
      PDict [("comparable", PBool false); ("reason", PStr "config_mismatch"); ("differing_fields", PList (map PStr diffs));
             ("note", PStr "pin everything but the harness version; this delta is not trustworthy")]
  | comparable v a b => PDict [("comparable", PBool true); ("verdict", PStr v); ("a", Interval_to_dict a); ("b", Interval_to_dict b)]
  end.

(** ** From the events of a run to the stage it reached *)

Definition event_is (name : string) (e : pyval) : bool := bool_decide (dget e "event" = Some (PStr name)).
Definition by_name (events : list pyval) (name : string) : list pyval := List.filter (event_is name) events.
Definition flag (k : string) (e : pyval) : bool := truthy_val (default PNone (dget e k)).
Definition any_event (events : list pyval) (name : string) : bool := negb (bool_decide (by_name events name = [])).

(** [fid in {str(i).lower() for i in e.get("ids", [])}] *)
Definition lists_id (fid : string) (e : pyval) : res bool :=
  ids ← pget e "ids" (PList []);
  l ← piter ids;
  Ok (bool_decide (fid ∈ map (fun i => lower (py_str i)) l)).

(** [any(...)] stops at the first hit *)
Fixpoint any_res {A} (f : A -> res bool) (l : list A) : res bool :=
  match l with [] => Ok false | x :: l' => b ← f x; if b : bool then Ok true else any_res f l' end.

Definition reached (events : list pyval) : string :=
  let tested := by_name events "tested" in
  if existsb (fun e => bool_decide (dget e "outcome" = Some (PStr "passed_verified"))) (by_name events "task_done") then "verified"
  else if existsb (flag "real_pass") tested then "real_pass"
  else if existsb (flag "compiled") tested then "compiled"
  else if any_event events "written" then "draft"
  else "extracted".

Definition stage_of (events : list pyval) (finding_id : string) : res string :=
  let fid := lower finding_id in
  if any_event events "run_error" || any_event events "sandbox_unavailable" || any_event events "timeout" then Ok ERROR
  else
    got ← any_res (lists_id fid) (by_name events "extracted");
    if negb got || any_event events "only_ids_not_found" then Ok NOT_EXTRACTED else Ok (reached events).

Definition parse_events (stdout : string) : list pyval :=
  omap (fun line => let line := strip line in if starts_with "{" line then loads line else None) (splitlines stdout).

(** ** The funnel *)

Definition stage_index (s : string) : option nat := fst <$> list_find (fun x => x = s) STAGES.

(** [d[k].append(x)] *)
Definition append_to {A} (k : string) (x : A) (d : list (string * list A)) : list (string * list A) :=
  match assoc k d with Some l => assoc_set k (l ++ [x]) d | None => d end.
Definition bump (reached : nat) (survivors : list (string * nat)) : list (string * nat) :=
  imap (fun i kv => if i <=? reached then (kv.1, S kv.2) else kv) survivors.

Definition count_outcome (f : Funnel) (o : CaseOutcome) : res Funnel :=
  if bool_decide (stage o ∈ (off_ladder f).*1) then
    Ok (mkFunnel (survivors f) (append_to "extracted" (o_case_id o) (casualties f)) (append_to (stage o) (o_case_id o) (off_ladder f)))
  else
    match stage_index (stage o) with
    | None => Raise (Exn "KeyError" (repr_str (stage o)))
    | Some r =>
        let casualties := match STAGES !! S r with Some next => append_to next (o_case_id o) (casualties f) | None => casualties f end in
        Ok (mkFunnel (bump r (survivors f)) casualties (off_ladder f))
    end.

Definition empty_funnel : Funnel :=
  mkFunnel (map (fun s => (s, 0)) STAGES) (map (fun s => (s, [])) STAGES) [(NOT_EXTRACTED, []); (ERROR, [])].

Definition build_funnel (outcomes : list CaseOutcome) : res Funnel := fold_res count_outcome empty_funnel outcomes.

(** ** The report *)

Definition is_verified (o : CaseOutcome) : bool := String.eqb (outcome o) "passed_verified".
Definition count_verified (l : list CaseOutcome) : nat := length (List.filter is_verified l).

Definition class_name (class_of : list (string * string)) (o : CaseOutcome) : string := strip (default "" (assoc (o_case_id o) class_of)).
Definition add_bucket (class_of : list (string * string)) : list (string * list CaseOutcome) -> CaseOutcome -> list (string * list CaseOutcome) :=
  group_step (fun o => truthy (class_name class_of o)) (class_name class_of).

Section report.
Context (lgamma log exp : pyfloat -> res pyfloat).

Definition class_interval (b : string * list CaseOutcome) : res (string * Interval) :=
  iv ← credible_interval lgamma log exp (Z.of_nat (count_verified b.2)) (Z.of_nat (length b.2)) MASS;
  Ok (b.1, iv).

Definition build_by_class (outcomes : list CaseOutcome) (class_of : list (string * string)) : res (list (string * Interval)) :=
  map_res class_interval (py_sort (fun x y => str_leb x.1 y.1) (foldl (add_bucket class_of) [] outcomes)).

Definition score (outcomes : list CaseOutcome) (config : RunConfig) (class_of : option (list (string * string))) : res Report :=
  interval ← credible_interval lgamma log exp (Z.of_nat (count_verified outcomes)) (Z.of_nat (length outcomes)) MASS;
  funnel ← build_funnel outcomes;
  by_class ← match class_of with Some ((_ :: _) as l) => build_by_class outcomes l | _ => Ok [] end;
  Ok (mkReport interval funnel config by_class).
End report.

(** ** Running one case

    The scratch file and the runs of the harness.  [harness] is the child process:
    its output under the files of the moment, [None] when it is killed at the timeout. *)

Record World := mkWorld {
  w_files : gmap string string;
  w_runs : list (list string);
}.

Section run.
Context (harness : gmap string string -> list string -> pyfloat -> nat -> res (option string)).
Context (mkstemp : gmap string string -> string -> string) (python runner : string).

Definition pinned_task (c : Case) : string :=
  dumps_line (PList [PDict [("id", PStr (finding_id c)); ("title", PStr (title c)); ("location", PStr (location c)); ("description", PStr (description c))]]).

Definition case_argv (c : Case) (config : RunConfig) (task_path : string) (image : option string) (fork : bool) (max_minutes : pyfloat) : list string :=
  [python; runner; "--project"; path_str (target_path c); "--report"; path_str (report_path c); "--tasks-from"; task_path;
   "--fix-patch"; finding_id c +:+ "=" +:+ path_str (fix_path c); "--provider"; provider config; "--model"; model config]
  ++ (if truthy (scaffold config) then ["--test-scaffold"; scaffold config] else [])
  ++ (if truthy (example config) then ["--example-poc"; example config] else [])
  ++ match image with Some i => if truthy i then ["--image"; i] else [] | None => [] end
  ++ (if fork then ["--fork"] else [])
  ++ ["--max-minutes"; float_repr max_minutes].

Definition run_harness (argv : list string) (timeout : pyfloat) : ST World (option string) := fun w =>
  (mkWorld (w_files w) (w_runs w ++ [argv]), harness (w_files w) argv timeout (length (w_runs w))).

Definition outcome_of (c : Case) (run_idx : nat) (stdout : string) : res CaseOutcome :=
  let events := parse_events stdout in
  stage ← stage_of events (finding_id c);
  let done := default (PDict []) (first (event_is "task_done") (rev events)) in
  outcome ← pget done "outcome" (PStr "");
  reason ← pget done "verify_reason" (PStr "");
  Ok (mkOutcome (case_id c) run_idx stage (py_str outcome) (py_str reason)).

Definition one_run (c : Case) (argv : list string) (timeout : pyfloat) (run_idx : nat) : ST World CaseOutcome :=
  stdout ← run_harness argv timeout;
  match stdout with
  | None => mret (mkOutcome (case_id c) run_idx ERROR "harness_timeout" "")
  | Some text => st_lift (outcome_of c run_idx text)
  end.

Definition write_file (p text : string) : ST World unit := st_modify (fun w => mkWorld (<[p := text]> (w_files w)) (w_runs w)).
Definition unlink (p : string) : ST World unit := st_modify (fun w => mkWorld (delete p (w_files w)) (w_runs w)).

Definition run_case (c : Case) (config : RunConfig) (image : option string) (fork : bool) (max_minutes : pyfloat) : ST World (list CaseOutcome) :=
  task_path ← st_gets (fun w => mkstemp (w_files w) ("proofcase-" +:+ case_id c +:+ "-"));
  _ ← write_file task_path (pinned_task c);
  let argv := case_argv c config task_path image fork max_minutes in
  let timeout := (max_minutes * float_lit "60" + HARNESS_TIMEOUT_MARGIN_S)%pyfloat in
  finally (map_st (one_run c argv timeout) (seq 0 (cfg_n config))) (unlink task_path).

Definition class_table (cases : list Case) : list (string * string) :=
  foldl (fun d c => if truthy (finding_class c) then assoc_set (case_id c) (finding_class c) d else d) [] cases.

(** The [run] command after the dataset is loaded *)
Definition run_command (lgamma log exp : pyfloat -> res pyfloat) (cases : list Case) (config : RunConfig) (image : option string) (fork : bool) :
  ST World Report :=
  all ← map_st (fun c => run_case c config image fork (float_lit "30.0")) cases;
  st_lift (score lgamma log exp (List.concat all) config (Some (class_table cases))).
End run.

(** ** The text of a report *)

Definition DEV_CAVEAT : string :=
  "DEV SET - the harness/prompts were tuned on this case set. This measures REGRESSION/PROGRESS "
  +:+ "WITHIN the set, NOT absolute capability on smart contracts in general. A held-out set (not yet "
  +:+ "available) is required for a capability claim. Do not read a dev number as a capability number.".

Definition render (r : Report) : res string :=
  let iv := interval r in
  let fn := funnel r in
  let cfg := config r in
  percent ← int_of_float (mass iv * float_lit "100")%pyfloat;
  stages ← map_res (fun s =>
      n ← match assoc s (survivors fn) with Some n => Ok n | None => Raise (Exn "KeyError" (repr_str s)) end;
      let tail := match default [] (assoc s (casualties fn)) with [] => "" | dead => "   ↳ died here: " +:+ join ", " dead end in
      Ok ("  " +:+ pad_right 10 s +:+ " " +:+ pretty n +:+ tail)) STAGES;
  Ok (unlines (
    ["proof-eval - case set '" +:+ case_set_id cfg +:+ "'  model=" +:+ model cfg +:+ "  N=" +:+ pretty (cfg_n cfg) +:+ "  harness=" +:+ harness_version cfg;
     "";
     "VERIFIED fraction: " +:+ pretty (successes iv) +:+ "/" +:+ pretty (trials iv) +:+ " case-runs  → " +:+ pretty percent +:+ "% credible interval ["
       +:+ float_fixed 3 (lo iv) +:+ ", " +:+ float_fixed 3 (hi iv) +:+ "]  (width " +:+ float_fixed 3 (width iv) +:+ ")";
     "  N=" +:+ pretty (cfg_n cfg) +:+ ": " +:+ (if float_leb (float_lit "0.33") (width iv) then "wide - not yet decisive" else "reasonably tight");
     "";
     "ATTRITION FUNNEL (survivors reaching each stage):"]
    ++ stages
    ++ omap (fun b => match b.2 with [] => None | ids => Some ("  [" +:+ b.1 +:+ "] " +:+ join ", " ids) end) (off_ladder fn)
    ++ [""; DEV_CAVEAT])).

(** ** The bisection is exact

    Every midpoint is a dyadic number, so the float operations of the bisection are
    exact and it ends in its fortieth turn, whatever the distribution function computes. *)

Section bisection.
Context (cdf : pyfloat -> res pyfloat).

(** The cell of width [2 ^ -(d + r)] the decisions lead to from [k / 2 ^ d] *)
Fixpoint grid (p : pyfloat) (r : nat) (k d : Z) : res Z :=
  match r with
  | 0 => Ok k
  | S r' => v ← cdf (dy (2 * k + 1) (d + 1)); grid p r' (if float_ltb v p then 2 * k + 1 else 2 * k)%Z (d + 1)
  end.

Lemma tol_reached (d : Z) : (1 <= d <= 40)%Z -> float_ltb (dy 1 d) PPF_TOL = (40 <=? d)%Z.
Proof.
  intros Hd. assert (Forall (fun n => float_ltb (dy 1 (Z.of_nat n)) PPF_TOL = (40 <=? Z.of_nat n)%Z) (seq 1 40)) as H.
  { apply (bool_decide_eq_true_1 _). vm_compute. done. }
  rewrite Forall_forall in H. rewrite <- (Z2Nat.id d) by lia. apply H, elem_of_seq. lia.
Qed.

Lemma fits_pow k d : (0 <= k <= 2 ^ d)%Z -> (0 <= d <= 42)%Z -> fits k.
Proof.
  intros Hk Hd. split; [lia|]. assert (2 ^ d <= 2 ^ 42)%Z by (apply Z.pow_le_mono_r; lia).
  assert (2 ^ 42 < 2 ^ 53)%Z by done. lia.
Qed.

Lemma midpoint k d : (0 <= k < 2 ^ d)%Z -> (0 <= d <= 40)%Z -> (half * (dy k d + dy (k + 1) d))%pyfloat = dy (2 * k + 1) (d + 1).
Proof.
  intros Hk Hd. assert (2 ^ (d + 1) = 2 * 2 ^ d)%Z as Hp by (rewrite Z.pow_add_r by lia; lia).
  rewrite dy_add; [|eapply (fits_pow _ (d + 1)); lia..|lia]. unfold half. rewrite dy_half; [|eapply (fits_pow _ (d + 1)); lia|lia].
  f_equal. lia.
Qed.

Lemma dy_double k d : (0 <= k <= 2 ^ d)%Z -> (0 <= d <= 41)%Z -> dy k d = dy (2 * k) (d + 1).
Proof.
  intros Hk Hd. assert (2 ^ (d + 1) = 2 * 2 ^ d)%Z as Hp by (rewrite Z.pow_add_r by lia; lia).
  rewrite <- (dy_scale k d 1); [f_equal; lia|eapply (fits_pow _ (d + 1)); lia|lia..].
Qed.

Lemma ppf_turn p n k d : (0 <= k < 2 ^ d)%Z -> (0 <= d <= 39)%Z ->
  ppf_loop cdf p (S n) (dy k d) (dy (k + 1) d) =
    (v ← cdf (dy (2 * k + 1) (d + 1));
     let k' := (if float_ltb v p then 2 * k + 1 else 2 * k)%Z in
     if (40 <=? d + 1)%Z then Ok (dy k' (d + 1), dy (k' + 1) (d + 1)) else ppf_loop cdf p n (dy k' (d + 1)) (dy (k' + 1) (d + 1))).
Proof.
  intros Hk Hd. assert (2 ^ (d + 1) = 2 * 2 ^ d)%Z as Hp by (rewrite Z.pow_add_r by lia; lia).
  assert (fits (2 * k) /\ fits (2 * k + 1) /\ fits (2 * k + 2)) as (Hf0 & Hf1 & Hf2) by (split_and!; eapply (fits_pow _ (d + 1)); lia).
  cbn [ppf_loop]. rewrite midpoint, (dy_double k), (dy_double (k + 1)) by lia.
  replace (2 * (k + 1))%Z with (2 * k + 2)%Z by lia.
  destruct (cdf (dy (2 * k + 1) (d + 1))) as [v|e]; [|done]. cbn [mbind res_bind]. cbv zeta.
  destruct (float_ltb v p); rewrite dy_sub by (done || lia).
  - replace (2 * k + 2 - (2 * k + 1))%Z with 1%Z by lia. rewrite tol_reached by lia. by replace (2 * k + 1 + 1)%Z with (2 * k + 2)%Z by lia.
  - replace (2 * k + 1 - 2 * k)%Z with 1%Z by lia. by rewrite tol_reached by lia.
Qed.

Lemma ppf_exact p n r k d : (0 <= k < 2 ^ d)%Z -> (0 <= d)%Z -> (d + Z.of_nat (S r) = 40)%Z -> S r <= n ->
  ppf_loop cdf p n (dy k d) (dy (k + 1) d) = (kf ← grid p (S r) k d; Ok (dy kf 40, dy (kf + 1) 40)).
Proof.
  revert n k d. induction r as [|r IH]; intros n k d Hk Hd Hr Hn; (destruct n as [|n]; [lia|]);
    assert (2 ^ (d + 1) = 2 * 2 ^ d)%Z as Hp by (rewrite Z.pow_add_r by lia; lia).
  - rewrite ppf_turn by lia. cbn [grid]. assert (d + 1 = 40)%Z as -> by lia. by destruct (cdf _).
  - rewrite ppf_turn by lia. rewrite (proj2 (Z.leb_gt 40 (d + 1))) by lia. remember (S r) as r' eqn:Hr'. cbn [grid].
    destruct (cdf (dy (2 * k + 1) (d + 1))) as [v|e]; [|done]. subst r'. cbn [mbind res_bind]. cbv zeta.
    apply IH; [destruct (float_ltb v p); lia|lia..].
Qed.

Lemma grid_range p r k d kf : grid p r k d = Ok kf -> (2 ^ Z.of_nat r * k <= kf < 2 ^ Z.of_nat r * (k + 1))%Z.
Proof.
  revert k d. induction r as [|r IH]; intros k d; cbn [grid].
  { intros [= ->]. cbn. lia. }
  intros (v & _ & Hg)%res_bind_Ok. apply IH in Hg.
  assert (2 ^ Z.of_nat (S r) = 2 * 2 ^ Z.of_nat r)%Z as Hp by (rewrite Nat2Z.inj_succ, Z.pow_succ_r; lia).
  assert (0 < 2 ^ Z.of_nat r)%Z by (apply Z.pow_pos_nonneg; lia). rewrite Hp. destruct (float_ltb v p); nia.
Qed.

(** A smaller probability leads to the same cell or to one before it *)
Lemma grid_mono p p' r k d kf kf' : float_leb p p' = true -> grid p r k d = Ok kf -> grid p' r k d = Ok kf' -> (kf <= kf')%Z.
Proof.
  intros Hp. revert k d. induction r as [|r IH]; intros k d; cbn [grid].
  { intros [= ->] [= ->]. done. }
  intros (v & Hv & Hg)%res_bind_Ok (v' & Hv' & Hg')%res_bind_Ok. assert (v' = v) as -> by congruence.
  destruct (float_ltb v p) eqn:Hlt.
  - rewrite (float_lt_le_trans v p p') in Hg' by done. by eapply IH.
  - destruct (float_ltb v p'); [|by eapply IH]. apply grid_range in Hg, Hg'. lia.
Qed.

Lemma grid_raises p r k d e : grid p r k d = Raise e -> exists x, cdf x = Raise e.
Proof.
  revert k d. induction r as [|r IH]; intros k d; cbn [grid]; [done|].
  intros [Hv|(v & _ & Hg)]%bind_raises; [by eexists|by eapply IH].
Qed.

(** What the comparisons on the way say of the cell *)
Definition below (p : pyfloat) (x : pyfloat) : Prop := exists v, cdf x = Ok v /\ float_ltb v p = true.
Definition not_below (p : pyfloat) (x : pyfloat) : Prop := exists v, cdf x = Ok v /\ float_ltb v p = false.

Lemma grid_brackets p r k d kf : (0 <= k < 2 ^ d)%Z -> (0 <= d)%Z -> (d + Z.of_nat r = 40)%Z -> grid p r k d = Ok kf ->
  (dy kf 40 = dy k d \/ below p (dy kf 40)) /\ (dy (kf + 1) 40 = dy (k + 1) d \/ not_below p (dy (kf + 1) 40)).
Proof.
  revert k d. induction r as [|r IH]; intros k d Hk Hd Hr; cbn [grid].
  { intros [= ->]. assert (d = 40)%Z as -> by lia. by split; left. }
  assert (2 ^ (d + 1) = 2 * 2 ^ d)%Z as Hp by (rewrite Z.pow_add_r by lia; lia).
  intros (v & Hv & Hg)%res_bind_Ok. rewrite (dy_double k), (dy_double (k + 1)) by lia.
  replace (2 * (k + 1))%Z with (2 * k + 2)%Z by lia.
  destruct (float_ltb v p) eqn:Hlt; apply IH in Hg as [Hlo Hhi]; try lia.
  - split; [|by replace (2 * k + 1 + 1)%Z with (2 * k + 2)%Z in Hhi by lia]. right. destruct Hlo as [->|?]; [by exists v|done].
  - split; [done|]. right. destruct Hhi as [->|?]; [by exists v|done].
Qed.
End bisection.

Section intervals.
Context (lgamma log exp : pyfloat -> res pyfloat).

Lemma unit_bounds : f0 = dy 0 41 /\ f1 = dy (2 ^ 41) 41.
Proof. by vm_compute. Qed.

Lemma ppf_cell p a b x : beta_ppf lgamma log exp p a b = Ok x ->
  exists k, grid (betai lgamma log exp a b) p 40 0 0 = Ok k /\ (0 <= k < 2 ^ 40)%Z /\ x = dy (2 * k + 1) 41.
Proof.
  unfold beta_ppf. change f0 with (dy 0 0). change f1 with (dy (0 + 1) 0).
  rewrite (ppf_exact _ p PPF_ITMAX 39) by (done || (unfold PPF_ITMAX; lia)).
  intros (lh & (k & Hg & Hlh)%res_bind_Ok & Hx)%res_bind_Ok. exists k.
  assert (lh = (dy k 40, dy (k + 1) 40)) as -> by congruence.
  change (Ok (half * (dy k 40 + dy (k + 1) 40))%pyfloat = Ok x) in Hx.
  assert (x = (half * (dy k 40 + dy (k + 1) 40))%pyfloat) as -> by congruence.
  pose proof (grid_range _ _ _ _ _ _ Hg) as Hr. change (2 ^ Z.of_nat 40)%Z with (2 ^ 40)%Z in Hr.
  split_and!; [done|lia..|]. rewrite midpoint by lia. done.
Qed.

(** C15. The quantile found by bisection, whatever [lgamma], [log] and [exp] compute: an odd
    multiple of 2 ^ -41 strictly between 0 and 1, in the middle of a cell of width 2 ^ -40
    at whose ends the distribution function was compared with the probability: below it at
    the left end unless that is 0, not below it at the right end unless that is 1. *)
Theorem ppf_brackets_quantile p a b x : beta_ppf lgamma log exp p a b = Ok x ->
  exists k, (0 <= k < 2 ^ 40)%Z /\ x = dy (2 * k + 1) 41 /\
    (k = 0%Z \/ below (betai lgamma log exp a b) p (dy k 40)) /\
    (k + 1 = 2 ^ 40 \/ not_below (betai lgamma log exp a b) p (dy (k + 1) 40))%Z.
Proof.
  intros (k & Hg & Hk & ->)%ppf_cell. exists k. split_and!; [lia..|done| |];
    apply grid_brackets in Hg as [Hlo Hhi]; try lia.
  - destruct Hlo as [Hlo|Hlo]; [left|by right]. destruct (decide (k = 0%Z)) as [|Hne]; [done|].
    assert (float_ltb (dy 0 40) (dy k 40) = true) as Hlt by (rewrite dy_ltb by (try apply (fits_pow _ 40); lia); lia).
    rewrite Hlo in Hlt. by vm_compute in Hlt.
  - destruct Hhi as [Hhi|Hhi]; [left|by right]. destruct (decide (k + 1 = 2 ^ 40)%Z) as [|Hne]; [done|].
    assert (float_ltb (dy (k + 1) 40) (dy (2 ^ 40) 40) = true) as Hlt by (rewrite dy_ltb by (try apply (fits_pow _ 40); lia); lia).
    rewrite Hhi in Hlt. by vm_compute in Hlt.
Qed.

(** An interval inside [0, 1] with its ends in order *)
Definition well_formed (iv : Interval) : Prop :=
  float_leb f0 (lo iv) = true /\ float_leb (lo iv) (hi iv) = true /\ float_leb (hi iv) f1 = true.

(** The two tails of a level are in order *)
Definition level_ok (m : pyfloat) : bool :=
  match float_div (f1 - m)%pyfloat f2 with Ok tail => float_leb tail (f1 - tail)%pyfloat | Raise _ => false end.

Lemma cells_ordered k k' : (0 <= k < 2 ^ 40)%Z -> (0 <= k' < 2 ^ 40)%Z -> (k <= k')%Z ->
  float_leb f0 (dy (2 * k + 1) 41) = true /\ float_leb (dy (2 * k + 1) 41) (dy (2 * k' + 1) 41) = true /\ float_leb (dy (2 * k' + 1) 41) f1 = true.
Proof.
  intros Hk Hk' Hle. destruct unit_bounds as [-> ->].
  split_and!; rewrite dy_leb by (try apply (fits_pow _ 41); lia); lia.
Qed.

Lemma credible_interval_ok s t m iv : credible_interval lgamma log exp s t m = Ok iv -> level_ok m = true ->
  well_formed iv /\ successes iv = s /\ trials iv = t /\ mass iv = m /\ (0 <= s <= t)%Z /\ (t = 0%Z -> lo iv = f0 /\ hi iv = f1).
Proof.
  unfold credible_interval, level_ok. destruct (_ || _) eqn:Hbad; [done|].
  rewrite !orb_false_iff, !Z.ltb_ge in Hbad. intros (fs & _ & (ff & _ & (tail & -> & (l & Hl & (h & Hh & [= <-])%res_bind_Ok)%res_bind_Ok)%res_bind_Ok)%res_bind_Ok)%res_bind_Ok Htail.
  unfold well_formed. cbn [lo hi successes trials mass]. destruct (Z.eqb_spec t 0) as [->|Ht].
  - injection Hl as <-. injection Hh as <-. split_and!; try done; lia.
  - apply ppf_cell in Hl as (k & Hg & Hk & ->), Hh as (k' & Hg' & Hk' & ->).
    assert (k <= k')%Z as Hle by (by eapply grid_mono). destruct (cells_ordered k k') as (? & ? & ?); [done..|].
    split_and!; try done; lia.
Qed.
End intervals.

(** The Jeffreys interval, whatever [lgamma], [log] and [exp] compute: a bad count is
    refused, and an interval that is returned at a level whose tails are in order lies in
    [0, 1] with its ends in order and is all of it without trials; at the level the scores
    use, the tails are in order. *)
Theorem credible_interval_well_formed lgamma log exp s t m :
  level_ok MASS = true /\
  (~ (0 <= s <= t)%Z -> exists msg, credible_interval lgamma log exp s t m = Raise (pb_error msg)) /\
  (forall iv, credible_interval lgamma log exp s t m = Ok iv -> level_ok m = true ->
    well_formed iv /\ successes iv = s /\ trials iv = t /\ mass iv = m /\ (t = 0%Z -> lo iv = f0 /\ hi iv = f1)).
Proof.
  split_and!; [by vm_compute| |intros iv Hiv Hm; apply credible_interval_ok in Hiv as (? & ? & ? & ? & _ & ?); tauto].
  intros Hbad. unfold credible_interval. destruct (_ || _) eqn:Hb; [by eexists|].
  rewrite !orb_false_iff, !Z.ltb_ge in Hb. lia.
Qed.

(** [lgamma] of half integers and of integers, [log] and [exp] as no library computes them:
    with nothing but zeros the intervals are still intervals. *)
Definition libm_zero (x : pyfloat) : res pyfloat := Ok f0.

Lemma ppf_brackets_quantile_witness : exists x, beta_ppf libm_zero libm_zero libm_zero (float_lit "0.25") (float_lit "1.5") (float_lit "2.5") = Ok x /\
  exists k, (0 <= k < 2 ^ 40)%Z /\ x = dy (2 * k + 1) 41 /\
    (k = 0%Z \/ below (betai libm_zero libm_zero libm_zero (float_lit "1.5") (float_lit "2.5")) (float_lit "0.25") (dy k 40)) /\
    (k + 1 = 2 ^ 40 \/ not_below (betai libm_zero libm_zero libm_zero (float_lit "1.5") (float_lit "2.5")) (float_lit "0.25") (dy (k + 1) 40))%Z.
Proof.
  destruct (beta_ppf libm_zero libm_zero libm_zero (float_lit "0.25") (float_lit "1.5") (float_lit "2.5")) as [x|e] eqn:E;
    [|exfalso; revert E; by vm_compute].
  exists x. split; [reflexivity|]. by apply ppf_brackets_quantile.
Defined.

Lemma credible_interval_well_formed_witness : exists iv,
  credible_interval libm_zero libm_zero libm_zero 2 3 MASS = Ok iv /\ well_formed iv.
Proof.
  destruct (credible_interval libm_zero libm_zero libm_zero 2 3 MASS) as [iv|e] eqn:E; [|exfalso; revert E; by vm_compute].
  exists iv. split; [reflexivity|].
  destruct (credible_interval_well_formed libm_zero libm_zero libm_zero 2 3 MASS) as (Hm & _ & H). apply H; [exact E|exact Hm].
Defined.

(** ** Dominance *)

Lemma dominates_irrefl a : well_formed a -> dominates a a = false.
Proof.
  intros (_ & Hle & _). unfold dominates. destruct (float_ltb (hi a) (lo a)) eqn:Hlt; [|done].
  pose proof (float_le_lt_trans _ _ _ Hle Hlt) as H. by rewrite float_lt_irrefl in H.
Qed.

Lemma dominates_trans a b c : well_formed b -> dominates a b = true -> dominates b c = true -> dominates a c = true.
Proof.
  intros (_ & Hle & _) Hab Hbc. unfold dominates in *. eapply float_lt_trans; [exact Hbc|].
  by eapply float_le_lt_trans.
Qed.

Lemma dominates_asym a b : well_formed a -> well_formed b -> dominates a b = true -> dominates b a = false.
Proof.
  intros Ha Hb Hab. destruct (dominates b a) eqn:Hba; [|done].
  pose proof (dominates_trans _ _ _ Hb Hab Hba) as H. by rewrite dominates_irrefl in H.
Qed.

Lemma resolve_sym a b : resolve a b = resolve b a.
Proof. unfold resolve. by rewrite orb_comm. Qed.

(** Two configurations that agree but for the version of the harness *)
Definition same_conditions (a b : RunConfig) : Prop :=
  case_set_id a = case_set_id b /\ provider a = provider b /\ model a = model b /\ scaffold a = scaffold b /\ example a = example b /\
  list_to_map (settings a) =@{gmap string bool} list_to_map (settings b) /\ cfg_n a = cfg_n b.

Lemma config_diffs_nil a b : config_diffs a b = [] <-> same_conditions a b.
Proof.
  unfold config_diffs, same_conditions, same_settings. rewrite <- (Permutation_nil_r (py_sort _ _)), py_sort_perm.
  rewrite Permutation_nil_r.
  repeat case_bool_decide; cbn; (split; [try done|]); tauto.
Qed.

(** Two reports are compared exactly when everything but the version of the harness
    agrees, and then the verdict is the dominance of their intervals; intervals that are
    well formed never give a winner both ways, and the mirrored comparison gives the
    mirrored verdict. *)
Theorem compare_honest a b : well_formed (interval a) -> well_formed (interval b) ->
  (same_conditions (config a) (config b) ->
    compare a b = comparable (if dominates (interval b) (interval a) then "b_better"
                              else if dominates (interval a) (interval b) then "a_better" else "not_distinguishable") (interval a) (interval b)) /\
  (~ same_conditions (config a) (config b) -> exists f fs, compare a b = config_mismatch (f :: fs)) /\
  (forall v v' ia ib, compare a b = comparable v ia ib -> compare b a = comparable v' ib ia ->
    (v = "b_better" <-> v' = "a_better") /\ (v = "a_better" <-> v' = "b_better")).
Proof.
  intros Ha Hb. unfold compare. split_and!.
  - intros ->%config_diffs_nil. done.
  - intros Hne. destruct (config_diffs (config a) (config b)) as [|f fs] eqn:Hd; [by apply config_diffs_nil in Hd|by exists f, fs].
  - intros v v' ia ib. destruct (config_diffs _ _); [|done]. intros [= <- <- <-]. destruct (config_diffs _ _); [|done]. intros [= <-].
    change (float_ltb (hi ?x) (lo ?y)) with (dominates y x).
    destruct (dominates (interval a) (interval b)) eqn:Hab, (dominates (interval b) (interval a)) eqn:Hba; try done.
    by rewrite (dominates_asym _ _ Ha Hb Hab) in Hba.
Qed.

(** ** The funnel in closed form *)

Definition LADDER_OR_OFF : list string := STAGES ++ [NOT_EXTRACTED; ERROR].

Lemma stage_of_known events fid s : stage_of events fid = Ok s -> s ∈ LADDER_OR_OFF.
Proof.
  unfold stage_of. destruct (_ || _); [intros [= <-]; set_solver|].
  intros (got & _ & H)%res_bind_Ok. destruct (_ || _); injection H as <-; [set_solver|].
  unfold reached. repeat case_match; set_solver.
Qed.

(** A run reaches a stage, and the stage it died at *)
Definition reaches (s : string) (o : CaseOutcome) : bool :=
  match stage_index (stage o), stage_index s with Some r, Some i => i <=? r | _, _ => false end.
Definition died_at (o : CaseOutcome) : option string :=
  if bool_decide (stage o ∈ [NOT_EXTRACTED; ERROR]) then Some "extracted" else r ← stage_index (stage o); STAGES !! S r.

Definition ids_where (p : CaseOutcome -> bool) (l : list CaseOutcome) : list string := map o_case_id (List.filter p l).
Definition survivors_at (l : list CaseOutcome) (s : string) : nat := length (List.filter (reaches s) l).
Definition casualties_at (l : list CaseOutcome) (s : string) : list string := ids_where (fun o => bool_decide (died_at o = Some s)) l.
Definition off_at (l : list CaseOutcome) (b : string) : list string := ids_where (fun o => String.eqb (stage o) b) l.

Definition funnel_of (l : list CaseOutcome) : Funnel :=
  mkFunnel (map (fun s => (s, survivors_at l s)) STAGES) (map (fun s => (s, casualties_at l s)) STAGES)
    (map (fun b => (b, off_at l b)) [NOT_EXTRACTED; ERROR]).

Lemma count_outcome_step l o : stage o ∈ LADDER_OR_OFF -> count_outcome (funnel_of l) o = Ok (funnel_of (l ++ [o])).
Proof.
  intros Ho. destruct o as [id i st out why]. cbn [stage] in Ho.
  unfold count_outcome, funnel_of, survivors_at, casualties_at, off_at, ids_where. cbn [map STAGES].
  rewrite !filter_snoc. repeat rewrite length_app. repeat rewrite map_app.
  repeat (apply elem_of_cons in Ho as [->|Ho]); [..|by apply not_elem_of_nil in Ho];
    cbn; rewrite ?app_nil_r, ?Nat.add_0_r, ?Nat.add_1_r; done.
Qed.

Lemma build_funnel_closed l : Forall (fun o => stage o ∈ LADDER_OR_OFF) l -> build_funnel l = Ok (funnel_of l).
Proof.
  intros Hl. unfold build_funnel. change empty_funnel with (funnel_of []). change l with ([] ++ l) at 2. revert Hl.
  generalize (@nil CaseOutcome). induction l as [|o l IH]; intros acc Hl; cbn [fold_res]; [by rewrite app_nil_r|].
  apply Forall_cons in Hl as [Ho Hl]. rewrite count_outcome_step by done. cbn [mbind res_bind].
  rewrite IH by done. by rewrite <- app_assoc.
Qed.

(** ** The buckets of the classes *)

Definition in_class (class_of : list (string * string)) (cls : string) (o : CaseOutcome) : bool := truthy (class_name class_of o) && bool_decide (class_name class_of o = cls).

(** The trials end in one place each: proved, or dead at one stage *)
Definition proved (o : CaseOutcome) : bool := reaches "verified" o.

Lemma accounted_once o : stage o ∈ LADDER_OR_OFF ->
  (if proved o then 1 else 0) + list_sum (map (fun s => if bool_decide (died_at o = Some s) then 1 else 0) STAGES) = 1.
Proof.
  destruct o as [id i st out why]. cbn [stage]. intros Ho.
  repeat (apply elem_of_cons in Ho as [->|Ho]); [by vm_compute..|by apply not_elem_of_nil in Ho].
Qed.

Lemma stage_index_at i s : STAGES !! i = Some s -> stage_index s = Some i.
Proof. destruct i as [|[|[|[|[|i]]]]]; [by intros [= <-]..|done]. Qed.

Lemma reaches_antitone o i j s s' : STAGES !! i = Some s -> STAGES !! j = Some s' -> i <= j -> reaches s' o = true -> reaches s o = true.
Proof.
  intros Hi Hj Hij. unfold reaches. destruct (stage_index (stage o)) as [r|]; [|done].
  rewrite (stage_index_at i s), (stage_index_at j s') by done.
  rewrite !Nat.leb_le. lia.
Qed.

Lemma build_by_class_ok lgamma log exp outs class_of bc : build_by_class lgamma log exp outs class_of = Ok bc ->
  StronglySorted (fun x y => str_leb x.1 y.1 = true) bc /\ NoDup bc.*1 /\
  (forall cls iv, (cls, iv) ∈ bc -> let os := List.filter (in_class class_of cls) outs in
     truthy cls = true /\ os <> [] /\ credible_interval lgamma log exp (Z.of_nat (count_verified os)) (Z.of_nat (length os)) MASS = Ok iv /\
     successes iv = Z.of_nat (count_verified os) /\ trials iv = Z.of_nat (length os) /\ well_formed iv) /\
  (forall o, o ∈ outs -> truthy (class_name class_of o) = true -> class_name class_of o ∈ bc.*1).
Proof.
  unfold build_by_class. intros Hbc%map_res_Ok.
  pose proof (group_spec (fun o => truthy (class_name class_of o)) (class_name class_of) outs) as (Hnd & Hb & Hall). fold (add_bucket class_of) in Hnd, Hb, Hall. set (b := foldl _ [] outs) in *.
  assert (bc.*1 = (py_sort (fun x y => str_leb x.1 y.1) b).*1) as Hkeys.
  { clear -Hbc. induction Hbc as [|[k os] [k' iv] l l' Hx _ IH]; [done|]. csimpl. unfold class_interval in Hx.
    apply res_bind_Ok in Hx as (? & _ & [= -> _]). by rewrite IH. }
  split_and!.
  - assert (StronglySorted (fun x y => str_leb x.1 y.1 = true) (py_sort (fun x y => str_leb x.1 y.1) b)) as Hs'.
    { apply py_sort_sorted; [intros x y; apply str_leb_total|intros x y z; apply str_leb_trans]. }
    clear -Hs' Hkeys. revert bc Hkeys. induction Hs' as [|[k os] l Hl IH Hk]; intros [|[k' iv] bc]; csimpl; try done; [constructor|].
    intros [= -> Hkeys]. constructor; [by apply IH|]. apply Forall_forall. intros [k2 iv2] Hin. cbn [fst].
    assert (k2 ∈ l.*1) as ([k3 os3] & -> & Hin')%list_elem_of_fmap by (rewrite <- Hkeys; apply list_elem_of_fmap; by exists (k2, iv2)).
    rewrite Forall_forall in Hk. by apply Hk in Hin'.
  - rewrite Hkeys. by rewrite py_sort_perm.
  - intros cls iv' Hin. apply list_elem_of_lookup in Hin as [i Hi].
    destruct (Forall2_lookup_r _ _ _ _ _ Hbc Hi) as ([k os] & Hk & Hiv'). unfold class_interval in Hiv'.
    apply res_bind_Ok in Hiv' as (iv'' & Hiv' & [= -> ->]). cbn [fst snd] in Hiv'. pose proof Hiv' as Hcred.
    apply credible_interval_ok in Hiv' as (? & ? & ? & _); [|by vm_compute].
    apply list_elem_of_lookup_2 in Hk. rewrite elem_of_py_sort in Hk. apply Hb in Hk as (-> & Hne). split_and!; [|done..].
    destruct (List.filter _ outs) as [|o os] eqn:E; [done|]. assert (o ∈ List.filter (in_class class_of cls) outs) as Ho by (unfold in_class; rewrite E; left).
    apply list_elem_of_In, filter_In in Ho as [_ Ho]. unfold in_class in Ho. apply andb_true_iff in Ho as [Ho Hk%bool_decide_eq_true]. by rewrite <- Hk.
  - intros o Ho Ht. rewrite Hkeys, py_sort_perm. by apply Hall.
Qed.

(** C16. A report accounts for the runs it was computed from, whatever [lgamma], [log] and
    [exp] compute: the interval is the credible interval of exactly the runs whose outcome
    is passed_verified among all runs; the funnel's survivors are the runs that reached
    each stage, never more at a later stage, and every run is either a survivor of the last
    stage or named among the casualties of exactly one stage; the classes of the breakdown
    are distinct, in order, and exactly those of the labelled runs, and each has the
    interval of exactly its own runs; a run without a label is in no class. *)
Theorem score_accounts lgamma log exp outs cfg class_of r :
  Forall (fun o => stage o ∈ LADDER_OR_OFF) outs -> score lgamma log exp outs cfg class_of = Ok r ->
  credible_interval lgamma log exp (Z.of_nat (count_verified outs)) (Z.of_nat (length outs)) MASS = Ok (interval r) /\
  successes (interval r) = Z.of_nat (count_verified outs) /\ trials (interval r) = Z.of_nat (length outs) /\ well_formed (interval r) /\
  funnel r = funnel_of outs /\ config r = cfg /\
  (forall i j s s', STAGES !! i = Some s -> STAGES !! j = Some s' -> i <= j -> survivors_at outs s' <= survivors_at outs s) /\
  survivors_at outs "verified" + list_sum (map (fun s => length (casualties_at outs s)) STAGES) = length outs /\
  StronglySorted (fun x y => str_leb x.1 y.1 = true) (by_class r) /\ NoDup (by_class r).*1 /\
  (forall cls, cls ∈ (by_class r).*1 <-> truthy cls = true /\ exists o, o ∈ outs /\ class_name (default [] class_of) o = cls) /\
  (forall cls iv, (cls, iv) ∈ by_class r -> let os := List.filter (in_class (default [] class_of) cls) outs in
     credible_interval lgamma log exp (Z.of_nat (count_verified os)) (Z.of_nat (length os)) MASS = Ok iv /\
     successes iv = Z.of_nat (count_verified os) /\ trials iv = Z.of_nat (length os) /\ well_formed iv).
Proof.
  intros Houts. unfold score. intros (iv & Hiv & (f & Hf & (bc & Hbc & [= <-])%res_bind_Ok)%res_bind_Ok)%res_bind_Ok.
  pose proof Hiv as Hcred. apply credible_interval_ok in Hiv as (Hwf & Hs & Ht & _); [|by vm_compute].
  rewrite build_funnel_closed in Hf by done. injection Hf as <-. cbn [interval funnel config by_class].
  assert (StronglySorted (fun x y => str_leb x.1 y.1 = true) bc /\ NoDup bc.*1 /\
    (forall cls iv, (cls, iv) ∈ bc -> let os := List.filter (in_class (default [] class_of) cls) outs in
      truthy cls = true /\ os <> [] /\ credible_interval lgamma log exp (Z.of_nat (count_verified os)) (Z.of_nat (length os)) MASS = Ok iv /\
      successes iv = Z.of_nat (count_verified os) /\ trials iv = Z.of_nat (length os) /\ well_formed iv) /\
    (forall o, o ∈ outs -> truthy (class_name (default [] class_of) o) = true -> class_name (default [] class_of) o ∈ bc.*1)) as (Hsort & Hnd & Hcls & Hall).
  { destruct class_of as [[|c cs]|]; [|by apply build_by_class_ok in Hbc|];
      (injection Hbc as <-; split_and!; [apply SSorted_nil|apply NoDup_nil_2|by intros ? ? ?%not_elem_of_nil|by intros o _ ?]). }
  split_and!; try done.
  - intros i j s s' Hi Hj Hij. unfold survivors_at. clear -Hi Hj Hij. induction outs as [|o l IH]; cbn; [lia|].
    pose proof (reaches_antitone o i j s s' Hi Hj Hij). destruct (reaches s' o); [rewrite (H eq_refl); cbn; lia|].
    destruct (reaches s o); cbn; lia.
  - clear -Houts. unfold survivors_at, casualties_at, ids_where. induction Houts as [|o l Ho _ IH]; [done|].
    apply accounted_once in Ho. unfold proved in Ho. cbn [List.filter STAGES map list_sum fold_right length] in Ho, IH |- *.
    destruct (reaches "verified" o); repeat case_bool_decide; cbn [map length] in *; lia.
  - intros cls. split.
    + intros ([k iv'] & -> & Hin)%list_elem_of_fmap. apply Hcls in Hin as (Htr & Hne & _). cbn [fst]. split; [done|].
      destruct (List.filter _ outs) as [|o os] eqn:E; [done|]. assert (o ∈ List.filter (in_class (default [] class_of) k) outs) as Ho by (rewrite E; left).
      apply list_elem_of_In, filter_In in Ho as [Ho%list_elem_of_In Hin]. unfold in_class in Hin. apply andb_true_iff in Hin as [_ Hk%bool_decide_eq_true]. by exists o.
    + intros (Htr & o & Ho & <-). by apply Hall.
  - intros cls iv' Hin. apply Hcls in Hin as (_ & _ & ?). done.
Qed.

(** ** The runs of a case *)

Section runs.
Context (harness : gmap string string -> list string -> pyfloat -> nat -> res (option string)).

(** What the run number [i] of a list of equal runs gives, from the answer of the harness *)
Definition run_result (c : Case) (i : nat) (answer : res (option string)) : res CaseOutcome :=
  text ← answer;
  match text with None => Ok (mkOutcome (case_id c) i ERROR "harness_timeout" "") | Some text => outcome_of c i text end.

Lemma one_run_spec c argv timeout i w :
  one_run harness c argv timeout i w =
    (mkWorld (w_files w) (w_runs w ++ [argv]), run_result c i (harness (w_files w) argv timeout (length (w_runs w)))).
Proof.
  unfold one_run, run_harness, run_result, mbind, st_bind, res_bind. by destruct (harness _ _ _ _) as [[text|]|e].
Qed.

Lemma runs_spec c argv timeout n k w :
  let '(w', r) := map_st (one_run harness c argv timeout) (seq k n) w in
  exists m, m <= n /\ w' = mkWorld (w_files w) (w_runs w ++ repeat argv m) /\
    match r with
    | Ok outs => m = n /\ length outs = n /\
        forall j o, outs !! j = Some o -> run_result c (k + j) (harness (w_files w) argv timeout (length (w_runs w) + j)) = Ok o
    | Raise _ => True
    end.
Proof.
  revert k w. induction n as [|n IH]; intros k w; cbn [seq map_st].
  { exists 0. split_and!; [lia|by destruct w; cbn; rewrite app_nil_r|done..]. }
  unfold mbind at 1, st_bind at 1. rewrite one_run_spec.
  destruct (run_result c k _) as [o|e] eqn:Ho; [|exists 1; split_and!; [lia|done..]].
  specialize (IH (S k) (mkWorld (w_files w) (w_runs w ++ [argv]))). unfold mbind, st_bind.
  destruct (map_st _ (seq (S k) n) _) as [w' [outs|e]]; destruct IH as (m & Hm & -> & Hr); exists (S m); cbn [w_files w_runs mret st_ret].
  - destruct Hr as (-> & Hlen & Hr). split_and!; [lia|by rewrite <- app_assoc|done|by cbn; rewrite Hlen|].
    intros [|j] o'; cbn [lookup list_lookup].
    + intros [= <-]. by rewrite !Nat.add_0_r.
    + intros Hj. apply Hr in Hj. cbn [w_files w_runs] in Hj. rewrite length_app in Hj. cbn [length] in Hj.
      replace (k + S j) with (S k + j) by lia. by replace (length (w_runs w) + S j) with (length (w_runs w) + 1 + j) by lia.
  - split_and!; [lia|by rewrite <- app_assoc|done].
Qed.
End runs.

Lemma outcome_of_known c i text o : outcome_of c i text = Ok o -> o_case_id o = case_id c /\ run_idx o = i /\ stage o ∈ LADDER_OR_OFF.
Proof.
  unfold outcome_of. intros (s & Hs%stage_of_known & (out & _ & (why & _ & [= <-])%res_bind_Ok)%res_bind_Ok)%res_bind_Ok. done.
Qed.

(** The finding a case pins *)
Definition pinned_finding (c : Case) : pyval :=
  PList [PDict [("id", PStr (finding_id c)); ("title", PStr (title c)); ("location", PStr (location c)); ("description", PStr (description c))]].

(** The runs of a case are pinned and leave nothing behind, whatever the harness does:
    every run is started with the same arguments under a scratch file that holds exactly
    the case's finding, the scratch file is gone at the end even when a run raises, and a
    call that returns has made its N runs, each with one outcome on the ladder or off it
    that is read from what that run printed; a killed run is an error of the infrastructure. *)
Theorem run_case_pinned harness mkstemp python runner c cfg image fork minutes w :
  let task := mkstemp (w_files w) ("proofcase-" +:+ case_id c +:+ "-") in
  let argv := case_argv python runner c cfg task image fork minutes in
  let pinned := <[task := pinned_task c]> (w_files w) in
  let timeout := (minutes * float_lit "60" + HARNESS_TIMEOUT_MARGIN_S)%pyfloat in
  let '(w', r) := run_case harness mkstemp python runner c cfg image fork minutes w in
  (plain (pinned_finding c) -> loads (pinned_task c) = Some (pinned_finding c)) /\
  w_files w' = delete task (w_files w) /\
  (exists m, m <= cfg_n cfg /\ w_runs w' = w_runs w ++ repeat argv m) /\
  (forall outs, r = Ok outs -> w_runs w' = w_runs w ++ repeat argv (cfg_n cfg) /\ length outs = cfg_n cfg /\
     forall j o, outs !! j = Some o ->
       run_result c j (harness pinned argv timeout (length (w_runs w) + j)) = Ok o /\
       o_case_id o = case_id c /\ run_idx o = j /\ stage o ∈ LADDER_OR_OFF).
Proof.
  cbv zeta. unfold run_case, mbind, st_bind, st_gets, write_file, st_modify, finally, unlink.
  set (task := mkstemp _ _). set (argv := case_argv _ _ _ _ _ _ _ _).
  pose proof (runs_spec harness c argv (minutes * float_lit "60" + HARNESS_TIMEOUT_MARGIN_S)%pyfloat (cfg_n cfg) 0
    (mkWorld (<[task := pinned_task c]> (w_files w)) (w_runs w))) as H.
  destruct (map_st _ _ _) as [w' r]. destruct H as (m & Hm & -> & Hr). cbn [w_files w_runs] in Hr |- *.
  split_and!.
  - intros Hp. by apply loads_dumps_line.
  - apply delete_insert_eq.
  - by exists m.
  - intros outs ->. destruct Hr as (-> & Hlen & Hr). split_and!; [done..|]. intros j o Hj. apply Hr in Hj. split; [done|].
    unfold run_result in Hj. apply res_bind_Ok in Hj as ([text|] & _ & Hj); [by apply outcome_of_known in Hj|].
    injection Hj as <-. split_and!; [done..|]. cbn [stage]. set_solver.
Qed.

(** A run whose harness meets an error during an in-place recompile and goes on to a
    verified proof: its outcome counts for the interval and its stage is an error, so the
    funnel's last survivors and the interval's successes differ. *)
Definition drifting_run : string := unlines (map bq
  ["{`event`: `extracted`, `ids`: [`H-01`]}"; "{`event`: `run_error`, `attempt`: 1}";
   "{`event`: `tested`, `compiled`: true, `real_pass`: true}"; "{`event`: `task_done`, `outcome`: `passed_verified`}"]).
Definition demo_case : Case := mkCase "c1" ["/"; "t"] ["/"; "r"] "H-01" ["/"; "f"] "t" "l" "d" "rounding".

Lemma verified_run_is_error_stage :
  outcome_of demo_case 0 drifting_run = Ok (mkOutcome "c1" 0 ERROR "passed_verified" "") /\
  survivors_at [mkOutcome "c1" 0 ERROR "passed_verified" ""] "verified" = 0 /\ count_verified [mkOutcome "c1" 0 ERROR "passed_verified" ""] = 1.
Proof. by vm_compute. Qed.

Definition demo_config (v : string) : RunConfig := mkConfig "set" "gemini" "m" "" "" [("fork", true)] 2 v.
Definition demo_outcomes : list CaseOutcome :=
  [mkOutcome "c1" 0 "verified" "passed_verified" ""; mkOutcome "c1" 1 "compiled" "exhausted" ""; mkOutcome "c2" 0 ERROR "harness_timeout" ""].

Lemma score_accounts_witness : exists r,
  score libm_zero libm_zero libm_zero demo_outcomes (demo_config "v1") (Some [("c1", "rounding")]) = Ok r /\
  successes (interval r) = 1%Z /\ trials (interval r) = 3%Z /\ funnel r = funnel_of demo_outcomes.
Proof.
  destruct (score libm_zero libm_zero libm_zero demo_outcomes (demo_config "v1") (Some [("c1", "rounding")])) as [r|e] eqn:E;
    [|exfalso; revert E; by vm_compute].
  exists r. split; [reflexivity|].
  destruct (score_accounts libm_zero libm_zero libm_zero demo_outcomes (demo_config "v1") (Some [("c1", "rounding")]) r) as (_ & Hs & Ht & _ & Hf & _);
    [|exact E|].
  - unfold demo_outcomes, LADDER_OR_OFF. repeat constructor; set_solver.
  - split_and!; [exact Hs|exact Ht|exact Hf].
Defined.

Definition demo_report (v : string) (l h : pyfloat) : Report :=
  mkReport (mkInterval l h MASS 1 2) (funnel_of []) (demo_config v) [].

Lemma compare_honest_witness :
  compare (demo_report "v1" (float_lit "0.1") (float_lit "0.3")) (demo_report "v2" (float_lit "0.4") (float_lit "0.9")) =
    comparable "b_better" (mkInterval (float_lit "0.1") (float_lit "0.3") MASS 1 2) (mkInterval (float_lit "0.4") (float_lit "0.9") MASS 1 2).
Proof.
  destruct (compare_honest (demo_report "v1" (float_lit "0.1") (float_lit "0.3")) (demo_report "v2" (float_lit "0.4") (float_lit "0.9"))) as (H & _ & _);
    [vm_compute; tauto|vm_compute; tauto|].
  etrans; [apply H; unfold same_conditions; tauto|]. vm_compute. reflexivity.
Defined.

Example rendered :
  render (demo_report "v1" (float_lit "0.1") (float_lit "0.35")) = Ok (unlines
    ["proof-eval - case set 'set'  model=m  N=2  harness=v1"; ""; "VERIFIED fraction: 1/2 case-runs  → 95% credible interval [0.100, 0.350]  (width 0.250)";
     "  N=2: reasonably tight"; ""; "ATTRITION FUNNEL (survivors reaching each stage):"; "  extracted  0"; "  draft      0"; "  compiled   0"; "  real_pass  0";
     "  verified   0"; ""; DEV_CAVEAT]).
Proof. by vm_compute. Qed.
