(* ===== verification/Screen.v ===== *)
(** * The capability screen (scripts/capability_screen.py)

    The pre-registration records, the three-stage cascade over candidates and classes, the
    signals read from the runs of the queue runner, the pairwise resolutions, the
    non-dominated set and the map.  The attempts, the disk and the subprocess are
    parameters; the history of a cascade is its attempts with their answers and its log. *)

From S2P Require Import Prelude PyStr PyPath PyVal PyNum PyFloat PyJson PySha ProofBench.

Definition TRANSIENT_RETRY_CAP : nat := 3.
Definition SMOKE_RETRY : Z := 1.
Definition SCREEN_TRANSIENT_RETRY : nat := 1.

Definition screen_error (msg : string) : exn := Exn "CapabilityScreenError" msg.

Record Candidate := mkCandidate {
  cand_id : string;
  cost_class : string;
  callable_via_harness : bool;
}.

Definition ORDER (cost_class : string) : nat :=
  if String.eqb cost_class "cheap" then 0 else if String.eqb cost_class "mid" then 1 else if String.eqb cost_class "expensive" then 2 else 99.

(** Tuples are compared part by part *)
Definition order_leb (a b : Candidate) : bool :=
  let x := ORDER (cost_class a) in
  let y := ORDER (cost_class b) in
  (x <? y) || (x =? y) && str_leb (cand_id a) (cand_id b).

Record BatteryCase := mkBatteryCase {
  bc_case_id : string;
  bc_class : string;
  has_fix_diff : bool;
}.

Record AttemptResult := mkAttempt {
  produced : bool;
  triggered : bool;
  verified : bool;
  tokens : Z;
  seconds : pyfloat;
  transient : bool;
  infra_cause : string;
}.

Record CascadeStageResult := mkCell {
  c_candidate : string;
  c_class : string;
  c_smoke : string;
  c_screen : string;
  c_triggered : bool;
  c_verified_k : nat;
  c_n : Z;
  c_transient_failures : nat;
  c_interval : option Interval;
  c_single_item : bool;
}.

Definition cell_to_dict (r : CascadeStageResult) : pyval :=
  PDict ([("candidate", PStr (c_candidate r)); ("finding_class", PStr (c_class r)); ("smoke", PStr (c_smoke r)); ("screen", PStr (c_screen r));
          ("triggered", PBool (c_triggered r)); ("verified_k", PInt (Z.of_nat (c_verified_k r))); ("n", PInt (c_n r));
          ("transient_failures", PInt (Z.of_nat (c_transient_failures r))); ("single_item", PBool (c_single_item r))]
         ++ match c_interval r with Some iv => [("interval", Interval_to_dict iv)] | None => [] end).

Record CostLatencyRecord := mkCost {
  cl_candidate : string;
  cl_class : string;
  cl_tokens : Z;
  cl_seconds : pyfloat;
  cl_passes : nat;
  usd_per_case : pyfloat;
  usd_per_pass : option pyfloat;
}.

Definition rounded (n : Z) (x : pyfloat) : pyval := PFloat (float_repr (float_round n x)).
Definition opt_rounded (n : Z) (x : option pyfloat) : pyval := match x with Some x => rounded n x | None => PNone end.

Definition cost_to_dict (c : CostLatencyRecord) : pyval :=
  PDict [("candidate", PStr (cl_candidate c)); ("finding_class", PStr (cl_class c)); ("tokens", PInt (cl_tokens c));
         ("seconds", rounded 3 (cl_seconds c)); ("passes", PInt (Z.of_nat (cl_passes c)));
         ("usd_per_case", rounded 6 (usd_per_case c)); ("usd_per_pass", opt_rounded 6 (usd_per_pass c))].

Record PairResolution := mkPair {
  p_class : string;
  p_a : string;
  p_b : string;
  p_status : string;
  p_dominant : option string;
  p_single_item : bool;
}.

Definition pair_to_dict (p : PairResolution) : pyval :=
  PDict [("finding_class", PStr (p_class p)); ("a", PStr (p_a p)); ("b", PStr (p_b p)); ("status", PStr (p_status p));
         ("dominant", match p_dominant p with Some d => PStr d | None => PNone end); ("single_item", PBool (p_single_item p))].

(** ** Pre-registration *)

Definition FROZEN_FIELDS : list string :=
  ["candidates"; "class_enum"; "per_stage_thresholds"; "N_by_class"; "cases_per_class"; "credible_level"; "dominance_rule";
   "pinned_bench_id"; "price_table"].

Definition frozen (record : pyval) : res pyval :=
  l ← map_res (fun k => v ← pget record k PNone; Ok (k, v)) FROZEN_FIELDS; Ok (PDict l).
Definition canonical_json (v : pyval) : string := dumps_at compact 0 (sort_keys v).

Definition content_hash (record : pyval) : res string :=
  f ← frozen record; Ok (sha256_hex (canonical_json f)).

Definition candidate_dict (c : Candidate) : pyval :=
  PDict [("id", PStr (cand_id c)); ("cost_class", PStr (cost_class c)); ("callable_via_harness", PBool (callable_via_harness c))].

Definition make_prereg (candidates : list Candidate) (class_enum : list string) (n_by_class : list (string * Z)) (cases_per_class : Z)
  (credible_level : pyfloat) (pinned_bench_id : string) (price_table : pyval) (per_stage_thresholds : pyval) (ts : string) : res pyval :=
  let record :=
    [("ts", PStr ts); ("candidates", PList (map candidate_dict candidates)); ("class_enum", PList (map PStr class_enum));
     ("per_stage_thresholds", por per_stage_thresholds (PDict [("smoke_retry", PInt SMOKE_RETRY); ("trigger_bar", PStr "triggered")]));
     ("N_by_class", PDict (map (fun kv => (kv.1, PInt kv.2)) n_by_class)); ("cases_per_class", PInt cases_per_class);
     ("credible_level", PFloat (float_repr credible_level)); ("dominance_rule", PStr "interval non-overlap at credible_level");
     ("pinned_bench_id", PStr pinned_bench_id); ("price_table", price_table)] in
  h ← content_hash (PDict record); Ok (PDict (assoc_set "content_hash" (PStr h) record)).

Section records.
Context (fs : FileSystem) (expanduser : path -> res path) (agent_root : path) (decode_message : string -> string).

Definition external (p : path) : res path :=
  p ← expanduser p;
  let r := fs_resolve fs p in
  if bool_decide (r = agent_root) || in_parents agent_root r
  then Raise (screen_error ("pre-registration path must be EXTERNAL to the agent repo (under <target>/audit/), got: " +:+ path_str r))
  else Ok r.

(** The text appended to the file *)
Definition prereg_line (record : pyval) : res string :=
  h ← content_hash record;
  record ← setitem record "content_hash" (PStr h);
  Ok (dumps_line (sort_keys record) +:+ nls).

(** The files the records are kept in *)
Definition write_prereg (p : path) (record : pyval) : ST (gmap path string) path :=
  p ← st_lift (external p);
  line ← st_lift (prereg_line record);
  _ ← st_modify (fun files => <[p := default "" (files !! p) +:+ line]> files);
  mret p.

Definition hash_mismatch (p : path) (i : nat) (rec : pyval) (want : string) : exn :=
  screen_error (path_str p +:+ " entry " +:+ pretty i +:+ ": content_hash mismatch (frozen fields were mutated after write) - stored="
    +:+ py_repr (default PNone (dget rec "content_hash")) +:+ " recomputed=" +:+ repr_str want).

(** One line of the file; a blank one is skipped *)
Definition load_line (p : path) (i : nat) (line : string) : res (option pyval) :=
  let line := strip line in
  if negb (truthy line) then Ok None
  else
    rec ← match loads line with Some v => Ok v | None => Raise (Exn "JSONDecodeError" (decode_message line)) end;
    want ← content_hash rec;
    stored ← pget rec "content_hash" PNone;
    if bool_decide (stored = PStr want) then Ok (Some rec) else Raise (hash_mismatch p i rec want).

Fixpoint load_lines (p : path) (i : nat) (lines : list string) : res (list pyval) :=
  match lines with
  | [] => Ok []
  | line :: rest => o ← load_line p i line; recs ← load_lines p (S i) rest; Ok (match o with Some r => r :: recs | None => recs end)
  end.

Definition load_prereg (p : path) : ST (gmap path string) (list pyval) :=
  p ← st_lift (external p);
  text ← st_gets (fun files => files !! p);
  match text with
  | None => st_lift (Raise (screen_error ("no pre-registration record at " +:+ path_str p)))
  | Some text => st_lift (load_lines p 0 (splitlines text))
  end.
End records.

Definition active_record (records : list pyval) (bench_id : string) : res pyval :=
  matches ← map_res (fun r => v ← pget r "pinned_bench_id" PNone; Ok (if bool_decide (v = PStr bench_id) then [r] else [])) records;
  match last (List.concat matches) with
  | Some r => Ok r
  | None => Raise (screen_error ("no active pre-registration entry for bench " +:+ repr_str bench_id))
  end.

Definition enforce_subject (record : pyval) (candidate_id : string) : res unit :=
  l ← pget record "candidates" (PList []);
  l ← piter l;
  ids ← map_res (fun c => v ← getitem c "id"; hashable v) l;
  if bool_decide (PStr candidate_id ∈ ids) then Ok tt
  else Raise (screen_error ("candidate " +:+ repr_str candidate_id +:+ " is not in the active pre-registration record - "
         +:+ "score only registered subjects (add it as a NEW prereg entry to screen it)")).

Definition enforce_class (record : pyval) (finding_class : string) : res unit :=
  l ← pget record "class_enum" (PList []);
  enum ← piter l;
  enum ← map_res hashable enum;
  if bool_decide (PStr finding_class ∈ enum) then Ok tt
  else Raise (screen_error ("finding_class " +:+ repr_str finding_class +:+ " is outside the closed pre-registered enum "
         +:+ py_repr (default PNone (dget record "class_enum")) +:+ " - labels cannot drift between runs (FR-010/019)")).

(** ** The cascade *)

(** What happens in a cascade: attempts with their answers, and the entries of its log *)
Inductive event :=
  | Attempt (candidate case stage : string) (answer : AttemptResult)
  | Logged (entry : pyval).

Definition log (name : string) (fields : list (string * string)) : ST (list event) unit :=
  st_modify (fun h => h ++ [Logged (PDict (("event", PStr name) :: map (fun kv => (kv.1, PStr kv.2)) fields))]).

Definition set_smoke (s : string) (c : CascadeStageResult) : CascadeStageResult :=
  mkCell (c_candidate c) (c_class c) s (c_screen c) (c_triggered c) (c_verified_k c) (c_n c) (c_transient_failures c) (c_interval c) (c_single_item c).
Definition set_screen (triggered : bool) (screen : string) (c : CascadeStageResult) : CascadeStageResult :=
  mkCell (c_candidate c) (c_class c) (c_smoke c) screen triggered (c_verified_k c) (c_n c) (c_transient_failures c) (c_interval c) (c_single_item c).
Definition add_transient (c : CascadeStageResult) : CascadeStageResult :=
  mkCell (c_candidate c) (c_class c) (c_smoke c) (c_screen c) (c_triggered c) (c_verified_k c) (c_n c) (S (c_transient_failures c)) (c_interval c) (c_single_item c).
Definition set_bayes (k : nat) (n : Z) (iv : Interval) (c : CascadeStageResult) : CascadeStageResult :=
  mkCell (c_candidate c) (c_class c) (c_smoke c) (c_screen c) (c_triggered c) k n (c_transient_failures c) (Some iv) (c_single_item c).

Definition accrue (cl : CostLatencyRecord) (r : AttemptResult) : CostLatencyRecord :=
  if transient r then cl
  else mkCost (cl_candidate cl) (cl_class cl) (cl_tokens cl + tokens r) (cl_seconds cl + seconds r)%pyfloat (cl_passes cl) (usd_per_case cl) (usd_per_pass cl).
Definition set_passes (k : nat) (cl : CostLatencyRecord) : CostLatencyRecord :=
  mkCost (cl_candidate cl) (cl_class cl) (cl_tokens cl) (cl_seconds cl) k (usd_per_case cl) (usd_per_pass cl).

(** [price_table.get(candidate, 0.0)] as a float, the dollars of a thousand tokens *)
Definition finalize_cost (cl : CostLatencyRecord) (price_table : pyval) : res CostLatencyRecord :=
  price ← pget price_table (cl_candidate cl) (PFloat "0.0");
  price ← float_val price;
  toks ← float_of_int (cl_tokens cl);
  k ← float_div toks (float_lit "1000.0");
  let per_case := (k * price)%pyfloat in
  per_pass ← (if cl_passes cl =? 0 then Ok None else n ← float_of_int (Z.of_nat (cl_passes cl)); q ← float_div per_case n; Ok (Some q));
  Ok (mkCost (cl_candidate cl) (cl_class cl) (cl_tokens cl) (cl_seconds cl) (cl_passes cl) per_case per_pass).

Section cascade.
Context (attempt_fn : list event -> string -> string -> string -> res AttemptResult).
Context (lgamma ln exp : pyfloat -> res pyfloat).

Definition attempt (candidate case stage : string) : ST (list event) AttemptResult := fun h =>
  match attempt_fn h candidate case stage with
  | Ok r => (h ++ [Attempt candidate case stage r], Ok r)
  | Raise e => (h, Raise e)
  end.

(** Retries while the answer is transient; every transient answer is counted *)
Fixpoint retry (n : nat) (stage : string) (candidate case : string) (r : AttemptResult) (cell : CascadeStageResult) :
  ST (list event) (AttemptResult * CascadeStageResult) :=
  if transient r then
    match n with
    | 0 => mret (r, add_transient cell)
    | S n' => r' ← attempt candidate case stage; retry n' stage candidate case r' (add_transient cell)
    end
  else mret (r, cell).

Definition bayes_attempt (candidate case : string) (cell : CascadeStageResult) : ST (list event) (AttemptResult * CascadeStageResult) :=
  r ← attempt candidate case "bayes"; retry TRANSIENT_RETRY_CAP "bayes" candidate case r cell.
Definition screen_attempt (candidate case : string) (cell : CascadeStageResult) : ST (list event) (AttemptResult * CascadeStageResult) :=
  r ← attempt candidate case "screen"; retry SCREEN_TRANSIENT_RETRY "screen" candidate case r cell.

(** The smoke stage: one attempt and one more when nothing was produced *)
Definition smoke_stage (candidate case : string) (cl : CostLatencyRecord) : ST (list event) (AttemptResult * CostLatencyRecord) :=
  r ← attempt candidate case "smoke";
  let cl := accrue cl r in
  if produced r then mret (r, cl)
  else r' ← attempt candidate case "smoke"; mret (r', accrue cl r').

(** The variables of the trigger screen's loop *)
Record screening := mkScreening {
  s_triggered : bool;
  s_unavailable : bool;
  s_cell : CascadeStageResult;
  s_cost : CostLatencyRecord;
}.

Fixpoint screen_cases (candidate : string) (cases : list BatteryCase) (s : screening) : ST (list event) screening :=
  match cases with
  | [] => mret s
  | bc :: rest =>
      rc ← screen_attempt candidate (bc_case_id bc) (s_cell s);
      let '(r, cell) := rc in
      if transient r then screen_cases candidate rest (mkScreening (s_triggered s) true cell (s_cost s))
      else
        let cl := accrue (s_cost s) r in
        if triggered r then mret (mkScreening true (s_unavailable s) cell cl)
        else screen_cases candidate rest (mkScreening (s_triggered s) (s_unavailable s) cell cl)
  end.

Definition tags (candidate cls : string) : list (string * string) := [("candidate", candidate); ("class", cls)].

(** Phase A for one candidate: its cell and cost, and whether it survives *)
Definition phase_a (cls : string) (cases : list BatteryCase) (cell : CascadeStageResult) (cl : CostLatencyRecord) :
  ST (list event) (bool * (CascadeStageResult * CostLatencyRecord)) :=
  let candidate := c_candidate cell in
  rc ← smoke_stage candidate (default "" (bc_case_id <$> head cases)) cl;
  let '(smoke, cl) := rc in
  if negb (produced smoke) then
    if truthy (infra_cause smoke) then
      _ ← log "smoke_infra" (tags candidate cls ++ [("cause", infra_cause smoke)]); mret (false, (set_smoke "infra" cell, cl))
    else _ ← log "smoke_plumbing_fail" (tags candidate cls); mret (false, (set_smoke "plumbing_fail" cell, cl))
  else
    s ← screen_cases candidate cases (mkScreening false false cell cl);
    if s_triggered s then mret (true, (set_screen true (c_screen cell) (s_cell s), s_cost s))
    else if s_unavailable s then _ ← log "screen_unavailable" (tags candidate cls); mret (false, (set_screen false "unavailable" (s_cell s), s_cost s))
    else _ ← log "not_triggered" (tags candidate cls); mret (false, (set_screen false (c_screen cell) (s_cell s), s_cost s)).

(** The dictionaries of cells and costs by candidate, and the survivors *)
Record phase := mkPhase {
  ph_pending : list (string * (CascadeStageResult * CostLatencyRecord));
  ph_survivors : list Candidate;
}.

Definition fresh_cell (cls : string) (n : Z) (single : bool) (c : Candidate) : CascadeStageResult :=
  mkCell (cand_id c) cls "pass" "pass" false 0 n 0 None single.
Definition fresh_cost (cls : string) (c : Candidate) : CostLatencyRecord := mkCost (cand_id c) cls 0 f0 0 f0 None.

Fixpoint screen_all (cls : string) (cases : list BatteryCase) (n : Z) (single : bool) (active : list Candidate) (ph : phase) : ST (list event) phase :=
  match active with
  | [] => mret ph
  | c :: rest =>
      o ← phase_a cls cases (fresh_cell cls n single c) (fresh_cost cls c);
      screen_all cls cases n single rest
        (mkPhase (assoc_set (cand_id c) o.2 (ph_pending ph)) (if o.1 : bool then ph_survivors ph ++ [c] else ph_survivors ph))
  end.

(** The variables of the trials of one survivor *)
Record trying := mkTrying { t_k : nat; t_trials : nat; t_cell : CascadeStageResult; t_cost : CostLatencyRecord }.

Definition one_trial (candidate case : string) (t : trying) : ST (list event) trying :=
  rc ← bayes_attempt candidate case (t_cell t);
  let '(r, cell) := rc in
  if transient r then mret (mkTrying (t_k t) (t_trials t) cell (t_cost t))
  else mret (mkTrying (if verified r then S (t_k t) else t_k t) (S (t_trials t)) cell (accrue (t_cost t) r)).

(** [n] trials of each case *)
Definition trials_of (cases : list BatteryCase) (n : Z) : list string := List.concat (map (fun bc => repeat (bc_case_id bc) (Z.to_nat n)) cases).

Definition phase_b (record : pyval) (cases : list BatteryCase) (n : Z) (c : Candidate) (pending : list (string * (CascadeStageResult * CostLatencyRecord))) :
  ST (list event) (list (string * (CascadeStageResult * CostLatencyRecord))) :=
  match assoc (cand_id c) pending with
  | None => st_lift (Raise (Exn "KeyError" (repr_str (cand_id c))))
  | Some (cell, cl) =>
      t ← fold_st (one_trial (cand_id c)) (trials_of cases n) (mkTrying 0 0 cell cl);
      level ← st_lift (v ← pget record "credible_level" (PFloat "0.95"); float_val v);
      iv ← st_lift (credible_interval lgamma ln exp (Z.of_nat (t_k t)) (Z.of_nat (t_trials t)) level);
      mret (assoc_set (cand_id c) (set_bayes (t_k t) (Z.of_nat (t_trials t)) iv (t_cell t), set_passes (t_k t) (t_cost t)) pending)
  end.

(** The last loop of a class: each candidate's cell and finished cost *)
Definition finish (price_table : pyval) (pending : list (string * (CascadeStageResult * CostLatencyRecord))) (c : Candidate) :
  res (CascadeStageResult * CostLatencyRecord) :=
  match assoc (cand_id c) pending with
  | None => Raise (Exn "KeyError" (repr_str (cand_id c)))
  | Some (cell, cl) => cl ← finalize_cost cl price_table; Ok (cell, cl)
  end.

Definition cascade_class (record : pyval) (single : bool) (price_table : pyval) (active : list Candidate) (cls : string) (cases : list BatteryCase) :
  ST (list event) (list (CascadeStageResult * CostLatencyRecord)) :=
  n ← st_lift (t ← pget record "N_by_class" (PDict []); v ← pget t cls (PInt 0); int_val v);
  ph ← screen_all cls cases n single active (mkPhase [] []);
  _ ← (match ph_survivors ph with [] => log "zero_survivors" [("class", cls)] | _ => mret tt end);
  pending ← fold_st (phase_b record cases n) (py_sort order_leb (ph_survivors ph)) (ph_pending ph);
  st_lift (map_res (finish price_table pending) active).

(** Grouping the battery by class; unlabelled cases are left out *)
Definition labelled (bc : BatteryCase) : bool := truthy (strip (bc_class bc)).
Definition add_case (record : pyval) (d : list (string * list BatteryCase)) (bc : BatteryCase) : res (list (string * list BatteryCase)) :=
  _ ← (if labelled bc then enforce_class record (bc_class bc) else Ok tt); Ok (group_step labelled bc_class d bc).

Definition active_candidates (candidates : list Candidate) : list Candidate :=
  py_sort order_leb (List.filter callable_via_harness candidates).

Definition run_cascade (record : pyval) (battery : list BatteryCase) (candidates : list Candidate) (price_table : option pyval) :
  ST (list event) (list CascadeStageResult * list CostLatencyRecord) :=
  price_table ← st_lift (match price_table with
                         | Some t => if truthy_val t then Ok t else pget record "price_table" (PDict [])
                         | None => pget record "price_table" (PDict [])
                         end);
  cases_per_class ← st_lift (v ← pget record "cases_per_class" (PInt 1); int_val v);
  by_class ← st_lift (fold_res (add_case record) [] battery);
  _ ← st_lift (map_res (fun c => enforce_subject record (cand_id c)) candidates);
  cells ← map_st (fun kv => cascade_class record (cases_per_class =? 1)%Z price_table (active_candidates candidates) kv.1 kv.2)
    (py_sort (fun x y => str_leb x.1 y.1) by_class);
  mret (map fst (List.concat cells), map snd (List.concat cells)).
End cascade.

(** ** The signals of a run of the queue runner *)

Definition TRIGGERED_OUTCOMES : list string := ["passed_verified"; "unverified_pass"; "passed_unchecked"].
Definition VERIFIED_OUTCOME : string := "passed_verified".
Definition TRANSIENT_OUTCOMES : list string := ["sandbox_unavailable"; "run_error"; "draft_failed"].
Definition OOM_EXIT_CODE : Z := 137.
Definition OOM_MARKERS : list string := ["signal: 9"; "sigkill"; "oomkilled"; "out of memory"; "std::bad_alloc"; "cannot allocate memory"].

Definition looks_like_oom (exit_code : pyval) (tails : list string) : res bool :=
  hit ← (if is_number exit_code then z ← int_val exit_code; Ok (z =? OOM_EXIT_CODE)%Z else Ok false);
  if hit : bool then Ok true
  else let blob := lower (join " " (List.filter truthy tails)) in Ok (existsb (fun m => contains m blob) OOM_MARKERS).

Record signals := mkSignals {
  sg_outcome : string;
  sg_saw_tested : bool;
  sg_elapsed_s : pyfloat;
  sg_tokens : Z;
  sg_has_task_done : bool;
  sg_infra_cause : string;
  sg_run_id : string;
}.
Definition no_signals : signals := mkSignals "" false f0 0 false "" "".

Definition TOKEN_KEYS : list string := ["total_tokens"; "tokens"; "completion_tokens"; "prompt_tokens"].

(** The token counts of one event *)
Definition add_tokens (ev : pyval) (t : Z) : res Z :=
  fold_res (fun t k => v ← pget ev k PNone; if is_number v then z ← int_val v; Ok (t + z)%Z else Ok t) t TOKEN_KEYS.

Definition set_tokens (s : signals) (t : Z) : signals :=
  mkSignals (sg_outcome s) (sg_saw_tested s) (sg_elapsed_s s) t (sg_has_task_done s) (sg_infra_cause s) (sg_run_id s).
Definition set_run_id (s : signals) (r : string) : signals :=
  mkSignals (sg_outcome s) (sg_saw_tested s) (sg_elapsed_s s) (sg_tokens s) (sg_has_task_done s) (sg_infra_cause s) r.
Definition set_tested (s : signals) (infra : string) : signals :=
  mkSignals (sg_outcome s) true (sg_elapsed_s s) (sg_tokens s) (sg_has_task_done s) infra (sg_run_id s).
Definition set_done (s : signals) (outcome : string) (elapsed : pyfloat) : signals :=
  mkSignals outcome (sg_saw_tested s) elapsed (sg_tokens s) true (sg_infra_cause s) (sg_run_id s).
Definition set_infra (s : signals) (cause : string) : signals :=
  mkSignals (sg_outcome s) (sg_saw_tested s) (sg_elapsed_s s) (sg_tokens s) (sg_has_task_done s) cause (sg_run_id s).

(** What the finding's own event adds: a tested or a finished attempt *)
Definition own_event (s : signals) (ev : pyval) : res signals :=
  etype ← pget ev "event" PNone;
  if bool_decide (etype = PStr "tested") then
    oom ← (if truthy (sg_infra_cause s) then Ok false
           else
             code ← pget ev "exit_code" PNone;
             err ← pget ev "stderr_tail" (PStr "");
             out ← pget ev "stdout_tail" (PStr "");
             looks_like_oom code [py_str err; py_str out]);
    Ok (set_tested s (if oom : bool then "oom" else sg_infra_cause s))
  else if bool_decide (etype = PStr "task_done") then
    outcome ← pget ev "outcome" (PStr "");
    elapsed ← pget ev "elapsed_s" (PFloat "0.0");
    e ← float_val (por elapsed (PFloat "0.0"));
    Ok (set_done s (py_str outcome) e)
  else Ok s.

Definition fold_event (fid : string) (s : signals) (ev : pyval) : res signals :=
  s ← (if truthy (sg_run_id s) then Ok s else r ← pget ev "run_id" (PStr ""); Ok (set_run_id s (py_str (por r (PStr "")))));
  owner ← pget ev "finding_id" (PStr "");
  s ← (if String.eqb (lower (strip (py_str owner))) fid then own_event s ev else Ok s);
  t ← add_tokens ev (sg_tokens s);
  Ok (set_tokens s t).

Definition parse_runner_events (stdout finding_id : string) : res signals :=
  fold_res (fold_event (lower (strip finding_id))) no_signals (parse_events stdout).

Definition transient_result (s : signals) (infra : string) : AttemptResult := mkAttempt false false false (sg_tokens s) (sg_elapsed_s s) true infra.

Definition signals_to_result (s : signals) : AttemptResult :=
  if truthy (sg_infra_cause s) then transient_result s (sg_infra_cause s)
  else if negb (sg_has_task_done s) then transient_result s ""
  else if bool_decide (sg_outcome s ∈ TRANSIENT_OUTCOMES) then transient_result s ""
  else
    let triggered := bool_decide (sg_outcome s ∈ TRIGGERED_OUTCOMES) in
    mkAttempt
      (sg_saw_tested s || triggered
       || bool_decide (sg_outcome s ∈ ["compiled"; "vacuous_pass"; "reverted_exhausted"; "compile_only_defective"; "exhausted"]))
      triggered (String.eqb (sg_outcome s) VERIFIED_OUTCOME) (sg_tokens s) (sg_elapsed_s s) false "".

(** ** One live attempt *)

(** The retained logs, the run log and the processes started *)
Record LiveWorld := mkLive {
  lw_files : gmap path string;
  lw_runlog : list pyval;
  lw_started : list (list string);
}.

(** How a child ends: an exit code and its output, or the timeout with what it had printed *)
Inductive child :=
  | Exited (returncode : Z) (stdout stderr : string)
  | TimedOut (stdout stderr : string).

Record live_config := mkLiveConfig {
  l_project : path;
  l_report : path;
  l_tasks_from : path;
  l_image : string;
  l_python : string;
  l_smoke_calls : Z;
  l_smoke_min : pyfloat;
  l_loop_calls : Z;
  l_loop_min : pyfloat;
}.

Section live.
Context (subprocess : LiveWorld -> list string -> child) (cfg : live_config).

Definition nostart_id (model case stage stderr : string) : string :=
  "nostart-" +:+ stake 12 (sha256_hex (model +:+ "|" +:+ case +:+ "|" +:+ stage +:+ "|" +:+ ulast 500 stderr)).

Definition case_log_body (stdout stderr run_id model case stage : string) : string :=
  let body := if negb (truthy stdout) || ends_with nls stdout then stdout else stdout +:+ nls in
  if truthy run_id then body
  else body +:+ dumps_line (PDict [("event", PStr "screen_capture"); ("model", PStr model); ("case", PStr case); ("stage", PStr stage);
                                   ("no_run_id", PBool true); ("stderr_tail", PStr (strip (ulast 1000 stderr)))]) +:+ nls.

Definition persist_case_log (runs_dir : path) (stdout stderr run_id model case stage : string) : ST LiveWorld unit :=
  let rid := if truthy run_id then run_id else nostart_id model case stage stderr in
  let p := path_join runs_dir (to_path (rid +:+ ".jsonl")) in
  st_modify (fun w => mkLive (<[p := case_log_body stdout stderr run_id model case stage]> (lw_files w)) (lw_runlog w) (lw_started w)).

Definition runlog (entry : pyval) : ST LiveWorld unit := st_modify (fun w => mkLive (lw_files w) (lw_runlog w ++ [entry]) (lw_started w)).

Definition runs_dir : path := path_join (l_project cfg) ["audit"; "poc"; "_runs"].

Definition attempt_argv (model case stage : string) : list string :=
  [l_python cfg; "-m"; "scripts.poc_queue_runner"; "--project"; path_str (l_project cfg); "--report"; path_str (l_report cfg);
   "--tasks-from"; path_str (l_tasks_from cfg); "--only"; case; "--provider"; "openrouter"; "--model"; model; "--agentic-loop"]
  ++ (if truthy (l_image cfg) then ["--image"; l_image cfg] else [])
  ++ (if String.eqb stage "smoke"
      then ["--attempts"; "1"; "--loop-budget-calls"; pretty (l_smoke_calls cfg); "--loop-budget-min"; float_repr (l_smoke_min cfg)]
      else ["--fork"; "--loop-budget-calls"; pretty (l_loop_calls cfg); "--loop-budget-min"; float_repr (l_loop_min cfg)]).

Definition start (argv : list string) : ST LiveWorld child := fun w =>
  (mkLive (lw_files w) (lw_runlog w) (lw_started w ++ [argv]), Ok (subprocess w argv)).

(** The entry logged for an attempt that was not killed *)
Definition attempt_entry (model case stage : string) (s : signals) (r : AttemptResult) (code : Z) (stderr : string) : pyval :=
  let tail := strip (ulast 500 stderr) in
  PDict ([("event", PStr "attempt"); ("model", PStr model); ("case", PStr case); ("stage", PStr stage); ("outcome", PStr (sg_outcome s));
          ("produced", PBool (produced r)); ("triggered", PBool (triggered r)); ("verified", PBool (verified r)); ("transient", PBool (transient r));
          ("seconds", PFloat (float_repr (seconds r))); ("tokens", PInt (tokens r)); ("returncode", PInt code); ("run_id", PStr (sg_run_id s))]
         ++ (if truthy (infra_cause r) then [("infra_cause", PStr (infra_cause r))] else [])
         ++ (if negb (sg_has_task_done s) && truthy tail then [("stderr_tail", PStr tail)] else [])).

Definition live_attempt (model case stage : string) : ST LiveWorld AttemptResult :=
  c ← start (attempt_argv model case stage);
  match c with
  | TimedOut stdout stderr =>
      s ← st_lift (parse_runner_events stdout case);
      _ ← persist_case_log runs_dir stdout stderr (sg_run_id s) model case stage;
      _ ← runlog (PDict [("event", PStr "attempt_timeout"); ("model", PStr model); ("case", PStr case); ("stage", PStr stage); ("run_id", PStr (sg_run_id s))]);
      mret (signals_to_result (mkSignals (sg_outcome s) (sg_saw_tested s) (sg_elapsed_s s) (sg_tokens s) false (sg_infra_cause s) (sg_run_id s)))
  | Exited code stdout stderr =>
      s ← st_lift (parse_runner_events stdout case);
      _ ← persist_case_log runs_dir stdout stderr (sg_run_id s) model case stage;
      let s := if negb (truthy (sg_infra_cause s)) && ((code =? OOM_EXIT_CODE)%Z || (code <? 0)%Z) then set_infra s "killed" else s in
      let r := signals_to_result s in
      _ ← runlog (attempt_entry model case stage s r code stderr);
      mret r
  end.
End live.

(** ** Pairs, the non-dominated set and the map *)

Definition has_interval (r : CascadeStageResult) : bool := negb (is_none (c_interval r)).

Definition group_cells (cells : list CascadeStageResult) : list (string * list CascadeStageResult) :=
  foldl (group_step has_interval c_class) [] cells.

(** The pairs of an element with the later ones, in order *)
Fixpoint all_pairs {A} (l : list A) : list (A * A) :=
  match l with [] => [] | x :: l' => map (fun y => (x, y)) l' ++ all_pairs l' end.

Definition pair_of (cls : string) (ab : CascadeStageResult * CascadeStageResult) : PairResolution :=
  let '(a, b) := ab in
  match c_interval a, c_interval b with
  | Some ia, Some ib =>
      let status := resolve ia ib in
      mkPair cls (c_candidate a) (c_candidate b) status
        (if String.eqb status "resolved" then Some (if dominates ia ib then c_candidate a else c_candidate b) else None)
        (c_single_item a || c_single_item b)
  | _, _ => mkPair cls (c_candidate a) (c_candidate b) "unresolved@N" None (c_single_item a || c_single_item b)
  end.

Definition is_resolved (p : PairResolution) : bool := String.eqb (p_status p) "resolved".

Definition class_pairs (cls : string) (cells : list CascadeStageResult) : list PairResolution :=
  map (pair_of cls) (all_pairs (py_sort (fun x y => str_leb (c_candidate x) (c_candidate y)) cells)).

Definition build_pairs (cells : list CascadeStageResult) : list PairResolution * list string :=
  let groups := py_sort (fun x y => str_leb x.1 y.1) (group_cells cells) in
  (List.concat (map (fun g => class_pairs g.1 g.2) groups),
   omap (fun g => if (2 <=? length g.2) && negb (existsb is_resolved (class_pairs g.1 g.2)) then Some g.1 else None) groups).

Inductive relation := rel_a | rel_b | incomparable.

Definition same_pair (p : PairResolution) (a b : string) : bool :=
  bool_decide (p_a p = a /\ p_b p = b) || bool_decide (p_a p = b /\ p_b p = a).

Definition cap_relation (cls a b : string) (pairs : list PairResolution) : relation :=
  match first (fun p => String.eqb (p_class p) cls && is_resolved p && same_pair p a b) pairs with
  | Some p => if bool_decide (p_dominant p = Some a) then rel_a else rel_b
  | None => incomparable
  end.

Definition cost_table (costs : list CostLatencyRecord) : list ((string * string) * CostLatencyRecord) :=
  foldl (fun d c => assoc_set (cl_candidate c, cl_class c) c d) [] costs.

(** The test of the inner loop: [b], another cell than [a], dominates it *)
Definition dominated_by (cost_by : list ((string * string) * CostLatencyRecord)) (pairs : list PairResolution) (a b : CascadeStageResult) : bool :=
  String.eqb (c_class b) (c_class a)
  && match assoc (c_candidate a, c_class a) cost_by, assoc (c_candidate b, c_class b) cost_by with
     | Some ca, Some cb =>
         match cap_relation (c_class a) (c_candidate a) (c_candidate b) pairs with
         | rel_b => float_leb (usd_per_case cb) (usd_per_case ca) && float_leb (cl_seconds cb) (cl_seconds ca)
         | _ => false
         end
     | _, _ => false
     end.

Definition pareto_nondominated (cells : list CascadeStageResult) (cost_by : list ((string * string) * CostLatencyRecord)) (pairs : list PairResolution) :
  list (string * string) :=
  let cells := imap pair (List.filter has_interval cells) in
  map (fun ia => (c_candidate ia.2, c_class ia.2))
    (List.filter (fun ia => negb (existsb (fun jb => negb (jb.1 =? ia.1) && dominated_by cost_by pairs ia.2 jb.2) cells)) cells).

Definition map_cell (cost_by : list ((string * string) * CostLatencyRecord)) (r : CascadeStageResult) : pyval :=
  PDict ([("triggered", if String.eqb (c_screen r) "unavailable" then PNone else PBool (c_triggered r)); ("smoke", PStr (c_smoke r));
          ("screen", PStr (c_screen r)); ("single_item", PBool (c_single_item r))]
         ++ match c_interval r with
            | Some iv => [("interval", Interval_to_dict iv); ("verified_k", PInt (Z.of_nat (c_verified_k r))); ("n", PInt (c_n r))]
            | None => []
            end
         ++ match assoc (c_candidate r, c_class r) cost_by with
            | Some cl => [("usd_per_case", rounded 6 (usd_per_case cl)); ("usd_per_pass", opt_rounded 6 (usd_per_pass cl)); ("seconds", rounded 3 (cl_seconds cl))]
            | None => []
            end).

Definition build_map (cells : list CascadeStageResult) (costs : list CostLatencyRecord) (record : pyval) (headline : option Interval) (ceiling : option pyval) : res pyval :=
  level ← pget record "credible_level" (PFloat "0.95");
  level ← float_val level;
  per_class ← pget record "cases_per_class" (PInt 1);
  per_class ← int_val per_class;
  let cost_by := cost_table costs in
  let '(pairs, underpowered) := build_pairs cells in
  let by_class := foldl (fun d r => assoc_set (c_class r) (assoc_set (c_candidate r) (map_cell cost_by r) (default [] (assoc (c_class r) d))) d) [] cells in
  Ok (PDict ([("axis_label", PStr (if (per_class =? 1)%Z then "representative-finding capability" else "class capability"));
              ("credible_level", PFloat (float_repr level)); ("by_class", PDict (map (fun kv => (kv.1, PDict kv.2)) by_class));
              ("pairs", PList (map pair_to_dict pairs)); ("underpowered", PList (map PStr underpowered));
              ("pareto_nondominated", PList (map (fun c => PDict [("candidate", PStr c.1); ("finding_class", PStr c.2)]) (pareto_nondominated cells cost_by pairs)))]
             ++ match headline with Some iv => [("headline", Interval_to_dict iv)] | None => [] end
             ++ match ceiling with Some c => [("ceiling", c)] | None => [] end)).

(** ** The capability relation is the dominance of intervals *)

Lemma all_pairs_elem {A} (l : list A) x y : (x, y) ∈ all_pairs l -> x ∈ l /\ y ∈ l.
Proof.
  induction l as [|z l IH]; cbn; [by intros ?%not_elem_of_nil|].
  intros [(y' & [= -> ->] & Hy)%list_elem_of_fmap|[? ?]%IH]%elem_of_app; split; try (by left); by right.
Qed.

Lemma all_pairs_total {A} (l : list A) x y : x ∈ l -> y ∈ l -> x <> y -> (x, y) ∈ all_pairs l \/ (y, x) ∈ all_pairs l.
Proof.
  induction l as [|z l IH]; [by intros ?%not_elem_of_nil|]. cbn. rewrite !elem_of_app. intros Hx Hy Hne.
  apply elem_of_cons in Hx as [->|Hx], Hy as [->|Hy]; try done.
  - left. left. apply list_elem_of_fmap. by exists y.
  - right. left. apply list_elem_of_fmap. by exists x.
  - destruct (IH Hx Hy Hne); [left|right]; by right.
Qed.

Lemma all_pairs_ne {A} (l : list A) x y : NoDup l -> (x, y) ∈ all_pairs l -> x <> y.
Proof.
  induction 1 as [|z l Hz _ IH]; cbn; [by intros ?%not_elem_of_nil|].
  intros [(y' & [= -> ->] & Hy)%list_elem_of_fmap|?]%elem_of_app; [|by apply IH]. by intros ->.
Qed.

Definition key (r : CascadeStageResult) : string * string := (c_candidate r, c_class r).

(** The cells of a map: distinct candidates per class, well-formed intervals *)
Definition cells_ok (cells : list CascadeStageResult) : Prop :=
  NoDup (map key cells) /\ Forall (fun r => forall iv, c_interval r = Some iv -> well_formed iv) cells.

(** The interval of one cell is entirely above the other's *)
Definition above (a b : CascadeStageResult) : bool :=
  match c_interval a, c_interval b with Some ia, Some ib => dominates ia ib | _, _ => false end.

Lemma key_inj cells a b : NoDup (map key cells) -> a ∈ cells -> b ∈ cells -> key a = key b -> a = b.
Proof.
  intros Hnd (i & Hi)%list_elem_of_lookup (j & Hj)%list_elem_of_lookup Hk.
  assert (i = j) as ->; [|congruence]. eapply NoDup_lookup; [exact Hnd| |].
  - change (map key cells) with (key <$> cells). rewrite list_lookup_fmap, Hi. done.
  - change (map key cells) with (key <$> cells). rewrite list_lookup_fmap, Hj. cbn. by rewrite Hk.
Qed.

Lemma above_asym cells a b : cells_ok cells -> a ∈ cells -> b ∈ cells -> above a b = true -> above b a = false.
Proof.
  intros [_ Hwf] Ha Hb. rewrite Forall_forall in Hwf. unfold above.
  destruct (c_interval a) eqn:Ea, (c_interval b) eqn:Eb; try done. apply dominates_asym; [by apply (Hwf a)|by apply (Hwf b)].
Qed.

Lemma above_trans cells a b c : cells_ok cells -> b ∈ cells -> above a b = true -> above b c = true -> above a c = true.
Proof.
  intros [_ Hwf] Hb. rewrite Forall_forall in Hwf. unfold above.
  destruct (c_interval a) eqn:Ea, (c_interval b) eqn:Eb, (c_interval c) eqn:Ec; try done. apply dominates_trans. by apply (Hwf b).
Qed.

Lemma above_irrefl cells a : cells_ok cells -> a ∈ cells -> above a a = false.
Proof.
  intros Hok Ha. destruct (above a a) eqn:E; [|done]. by rewrite (above_asym cells a a) in E.
Qed.

(** The entries of the table: one for each pair of surviving cells of a class *)
Lemma elem_of_build_pairs cells p : p ∈ (build_pairs cells).1 <->
  exists cls a b, (a, b) ∈ all_pairs (py_sort (fun x y => str_leb (c_candidate x) (c_candidate y))
      (List.filter (fun r => has_interval r && bool_decide (c_class r = cls)) cells)) /\ p = pair_of cls (a, b).
Proof.
  unfold build_pairs. cbn [fst]. pose proof (group_spec has_interval c_class cells) as (Hnd & Hb & Hall). fold (group_cells cells) in Hnd, Hb, Hall.
  split.
  - intros Hp. rewrite list_elem_of_In, in_concat in Hp. destruct Hp as (l & Hl & Hp). apply list_elem_of_In in Hl, Hp.
    apply list_elem_of_fmap in Hl as ([cls os] & -> & Hg). rewrite elem_of_py_sort in Hg. apply Hb in Hg as [-> _].
    apply list_elem_of_fmap in Hp as ([a b] & -> & Hab). by exists cls, a, b.
  - intros (cls & a & b & Hab & ->). pose proof (all_pairs_elem _ _ _ Hab) as [Ha _]. rewrite elem_of_py_sort, list_elem_of_In, filter_In in Ha.
    destruct Ha as [Ha [Hi Hc%bool_decide_eq_true]%andb_true_iff]. apply list_elem_of_In in Ha. subst cls.
    pose proof (Hall a Ha Hi) as ([k xs] & Hk & Hg)%list_elem_of_fmap. cbn [fst] in Hk. subst k. pose proof (Hb _ _ Hg) as [-> _].
    rewrite list_elem_of_In, in_concat. exists (class_pairs (c_class a) (List.filter (fun r => has_interval r && bool_decide (c_class r = c_class a)) cells)).
    split; apply list_elem_of_In; [|by apply (list_elem_of_fmap_2 (pair_of (c_class a)))].
    apply (list_elem_of_fmap_2 (fun g => class_pairs g.1 g.2) _ (_, _)). rewrite elem_of_py_sort. exact Hg.
Qed.

Lemma elem_of_survivors cells cls r :
  r ∈ List.filter (fun r => has_interval r && bool_decide (c_class r = cls)) cells <-> r ∈ cells /\ has_interval r = true /\ c_class r = cls.
Proof. rewrite !list_elem_of_In, filter_In, andb_true_iff, bool_decide_eq_true. done. Qed.

Lemma pair_of_interval cls a b : has_interval a = true -> has_interval b = true ->
  is_resolved (pair_of cls (a, b)) = above a b || above b a /\
  (is_resolved (pair_of cls (a, b)) = true -> p_dominant (pair_of cls (a, b)) = Some (if above a b then c_candidate a else c_candidate b)) /\
  p_class (pair_of cls (a, b)) = cls /\ p_a (pair_of cls (a, b)) = c_candidate a /\ p_b (pair_of cls (a, b)) = c_candidate b.
Proof.
  unfold has_interval, pair_of, above, is_resolved, resolve. destruct (c_interval a) as [ia|], (c_interval b) as [ib|]; try done. intros _ _.
  cbn [p_status p_dominant p_class p_a p_b]. destruct (dominates ia ib), (dominates ib ia); cbn; done.
Qed.

Lemma cap_relation_spec cells a b : cells_ok cells -> a ∈ cells -> b ∈ cells -> has_interval a = true -> has_interval b = true ->
  c_class a = c_class b -> a <> b ->
  cap_relation (c_class a) (c_candidate a) (c_candidate b) (build_pairs cells).1 =
    if above a b then rel_a else if above b a then rel_b else incomparable.
Proof.
  intros Hok Ha Hb Hia Hib Hcls Hne. pose proof Hok as [Hnd _].
  assert (c_candidate a <> c_candidate b) as Hcne.
  { intros Heq. apply Hne. eapply key_inj; [exact Hnd|done..|]. unfold key. congruence. }
  unfold cap_relation. destruct (first _ _) as [p|] eqn:Hf.
  - apply first_Some in Hf as [Hp Htest]. rewrite !andb_true_iff, String.eqb_eq in Htest. destruct Htest as [[Hpc Hres] Hsame].
    apply elem_of_build_pairs in Hp as (cls & x & y & Hxy & ->). pose proof (all_pairs_elem _ _ _ Hxy) as [Hx Hy].
    rewrite elem_of_py_sort, elem_of_survivors in Hx, Hy. destruct Hx as (Hx & Hix & Hcx), Hy as (Hy & Hiy & Hcy).
    destruct (pair_of_interval cls x y Hix Hiy) as (Hr & Hd & Hc & Hpa & Hpb). rewrite Hc in Hpc. subst cls.
    rewrite Hr in Hres. unfold same_pair in Hsame. rewrite Hpa, Hpb, orb_true_iff, !bool_decide_eq_true in Hsame. rewrite Hd by (by rewrite Hr).
    destruct Hsame as [[Hxa Hyb]|[Hxb Hya]].
    + assert (x = a) as -> by (eapply key_inj; [exact Hnd|done..|unfold key; congruence]).
      assert (y = b) as -> by (eapply key_inj; [exact Hnd|done..|unfold key; congruence]).
      destruct (above a b) eqn:Hab; [by rewrite bool_decide_true|]. rewrite bool_decide_false by congruence. cbn in Hres. by rewrite Hres.
    + assert (x = b) as -> by (eapply key_inj; [exact Hnd|done..|unfold key; congruence]).
      assert (y = a) as -> by (eapply key_inj; [exact Hnd|done..|unfold key; congruence]).
      destruct (above b a) eqn:Hba.
      * rewrite bool_decide_false by congruence. by rewrite (above_asym cells b a Hok Hb Ha Hba).
      * rewrite bool_decide_true by done. cbn in Hres. by rewrite Hres.
  - rewrite first_None in Hf.
    assert (forall x y, (x = a /\ y = b \/ x = b /\ y = a) -> (x, y) ∈ all_pairs (py_sort (fun x y => str_leb (c_candidate x) (c_candidate y))
        (List.filter (fun r => has_interval r && bool_decide (c_class r = c_class a)) cells)) -> above x y || above y x = false) as Hno.
    { intros x y Hor Hxy. assert (has_interval x = true /\ has_interval y = true) as [Hix Hiy] by (by destruct Hor as [[-> ->]|[-> ->]]).
      destruct (pair_of_interval (c_class a) x y Hix Hiy) as (Hr & _ & Hc & Hpa & Hpb). rewrite <- Hr.
      specialize (Hf (pair_of (c_class a) (x, y))). rewrite Hc, String.eqb_refl in Hf. unfold same_pair in Hf. rewrite Hpa, Hpb in Hf.
      apply andb_false_iff in Hf as [Hf|Hf]; [done| |apply elem_of_build_pairs; by eexists _, _, _].
      exfalso. rewrite orb_false_iff, !bool_decide_eq_false in Hf. destruct Hor as [[-> ->]|[-> ->]]; tauto. }
    destruct (all_pairs_total (py_sort (fun x y => str_leb (c_candidate x) (c_candidate y))
        (List.filter (fun r => has_interval r && bool_decide (c_class r = c_class a)) cells)) a b) as [Hab|Hab];
      [by rewrite elem_of_py_sort, elem_of_survivors|by rewrite elem_of_py_sort, elem_of_survivors|done| |].
    + apply Hno, orb_false_iff in Hab as [-> ->]; [done|by left].
    + apply Hno, orb_false_iff in Hab as [-> ->]; [done|by right].
Qed.

(** [b] is a better choice than [a] in their class: its interval is entirely above and it
    costs no more, in dollars a case and in seconds *)
Definition beats (cost_by : list ((string * string) * CostLatencyRecord)) (b a : CascadeStageResult) : bool :=
  bool_decide (c_class b = c_class a) && above b a
  && match assoc (key b) cost_by, assoc (key a) cost_by with
     | Some cb, Some ca => float_leb (usd_per_case cb) (usd_per_case ca) && float_leb (cl_seconds cb) (cl_seconds ca)
     | _, _ => false
     end.

Lemma beats_trans cells cost_by a b c : cells_ok cells -> b ∈ cells -> beats cost_by a b = true -> beats cost_by b c = true -> beats cost_by a c = true.
Proof.
  intros Hok Hb. unfold beats. rewrite !andb_true_iff, !bool_decide_eq_true.
  destruct (assoc (key a) cost_by), (assoc (key b) cost_by), (assoc (key c) cost_by); try (intros [_ ?]; done); try (intros _ [_ ?]; done).
  rewrite !andb_true_iff. intros [[-> Hab] [Hu Hs]] [[-> Hbc] [Hu' Hs']]. split_and!; [done|by apply (above_trans cells a b c)|by eapply float_le_trans..].
Qed.

Lemma beats_irrefl cells cost_by a : cells_ok cells -> a ∈ cells -> beats cost_by a a = false.
Proof. intros Hok Ha. unfold beats. by rewrite (above_irrefl cells a Hok Ha), andb_false_r. Qed.

Lemma dominated_by_beats cells cost_by a b : cells_ok cells -> a ∈ cells -> b ∈ cells -> has_interval a = true -> has_interval b = true -> a <> b ->
  dominated_by cost_by (build_pairs cells).1 a b = beats cost_by b a.
Proof.
  intros Hok Ha Hb Hia Hib Hne. unfold dominated_by, beats. destruct (String.eqb_spec (c_class b) (c_class a)) as [Hc|Hc].
  - rewrite bool_decide_true by done. cbn [andb]. rewrite (cap_relation_spec cells a b Hok Ha Hb Hia Hib) by done. fold (key a) (key b).
    destruct (assoc (key a) cost_by), (assoc (key b) cost_by); try (by rewrite andb_false_r).
    destruct (above a b) eqn:Hab; [by rewrite (above_asym cells a b Hok Ha Hb Hab)|]. by destruct (above b a).
  - by rewrite bool_decide_false.
Qed.

(** A cell is on the front exactly when no cell beats it *)
Lemma elem_of_pareto cells cost_by a : cells_ok cells -> a ∈ cells -> has_interval a = true ->
  key a ∈ pareto_nondominated cells cost_by (build_pairs cells).1 <-> forall b, b ∈ cells -> has_interval b = true -> beats cost_by b a = false.
Proof.
  intros Hok Ha Hia. pose proof Hok as [Hnd _]. unfold pareto_nondominated. set (ks := List.filter has_interval cells).
  assert (forall x, x ∈ ks <-> x ∈ cells /\ has_interval x = true) as Hks by (intros x; unfold ks; by rewrite !list_elem_of_In, filter_In).
  split.
  - intros ([i x] & Hk & Hx)%list_elem_of_fmap b Hb Hib. rewrite list_elem_of_In, filter_In, <- list_elem_of_In in Hx. destruct Hx as [Hx Hno].
    apply elem_of_lookup_imap in Hx as (j & y & [= -> ->] & Hj). cbn [fst snd] in *.
    destruct (Hks y) as [Hy _]. destruct (Hy (list_elem_of_lookup_2 _ _ _ Hj)) as [Hyc Hiy].
    assert (y = a) as -> by (by eapply key_inj). pose proof (proj2 (Hks b) (conj Hb Hib)) as (jb & Hjb)%list_elem_of_lookup.
    destruct (beats cost_by b a) eqn:Hbt; [|done]. assert (a <> b) as Hne by (intros ->; by rewrite (beats_irrefl cells) in Hbt).
    assert (jb <> j) as Hji by congruence.
    apply negb_true_iff, Bool.not_true_iff_false in Hno. destruct Hno. apply existsb_exists. exists (jb, b).
    split; [by apply list_elem_of_In, elem_of_lookup_imap; eauto|]. cbn [fst snd].
    rewrite (dominated_by_beats cells) by done. by rewrite Hbt, (proj2 (Nat.eqb_neq _ _) Hji).
  - intros Hno. pose proof (proj2 (Hks a) (conj Ha Hia)) as (i & Hi)%list_elem_of_lookup.
    apply list_elem_of_fmap. exists (i, a). split; [done|]. rewrite list_elem_of_In, filter_In, <- list_elem_of_In.
    split; [apply elem_of_lookup_imap; eauto|]. apply negb_true_iff, Bool.not_true_iff_false. rewrite existsb_exists.
    intros ([j b] & Hb & [Hji Hd]%andb_true_iff). apply list_elem_of_In, elem_of_lookup_imap in Hb as (j' & b' & [= -> ->] & Hj). cbn [fst snd] in *.
    destruct (Hks b') as [Hbk _]. destruct (Hbk (list_elem_of_lookup_2 _ _ _ Hj)) as [Hbc Hib].
    apply negb_true_iff, Nat.eqb_neq in Hji. assert (a <> b') as Hne.
    { intros <-. apply Hji. eapply (NoDup_lookup ks); [|exact Hj|exact Hi]. unfold ks. apply NoDup_ListNoDup, List.NoDup_filter, NoDup_ListNoDup.
      by eapply NoDup_fmap_1. }
    rewrite (dominated_by_beats cells), (Hno b') in Hd; done.
Qed.

(** C8. The front of the published map. Over cells with distinct candidates in a class and
    well-formed intervals, a cell with an interval is on the front exactly when no other
    cell of its class has its whole interval above and costs at most as much in dollars
    and in seconds; and a cell off the front is beaten by a cell on it. *)
Theorem pareto_front cells costs a (Hok : cells_ok cells) (Ha : a ∈ cells) (Hi : has_interval a = true) :
  let cost_by := cost_table costs in
  let front := pareto_nondominated cells cost_by (build_pairs cells).1 in
  (key a ∈ front <-> forall b, b ∈ cells -> has_interval b = true -> beats cost_by b a = false) /\
  (key a ∈ front \/ exists b, b ∈ cells /\ key b ∈ front /\ beats cost_by b a = true).
Proof.
  intros cost_by front. unfold front. split; [by apply elem_of_pareto|].
  assert (forall x y, beats cost_by x y = true -> has_interval x = true) as Hbi.
  { intros x y. unfold beats, above, has_interval. by destruct (c_interval x); rewrite ?andb_false_r. }
  destruct (maximal_above (beats cost_by) cells) with (x := a) as (m & Hm & Hma & Hmax); [|by intros; eapply beats_trans|done|].
  - intros x Hx. by apply (beats_irrefl cells).
  - assert (has_interval m = true) as Him by (destruct Hma as [->|]; [done|by eapply Hbi]).
    assert (key m ∈ pareto_nondominated cells cost_by (build_pairs cells).1) as Hmf by (apply elem_of_pareto; [done..|]; intros b Hb _; by apply Hmax).
    destruct Hma as [->|Hma]; [by left|]. right. by exists m.
Qed.

(** Four candidates of a class: the last is beaten, and by a cell of the front *)
Definition demo_cell (candidate : string) (lo hi : pyfloat) : CascadeStageResult :=
  mkCell candidate "reentrancy" "pass" "pass" true 1 1 0 (Some (mkInterval lo hi (float_lit "0.95") 1 1)) false.
Definition demo_cost (candidate : string) (usd secs : string) : CostLatencyRecord :=
  mkCost candidate "reentrancy" 1000 (float_lit secs) 1 (float_lit usd) None.
Definition demo_cells : list CascadeStageResult :=
  [demo_cell "a" (float_lit "0.8") (float_lit "0.9"); demo_cell "b" (float_lit "0.4") (float_lit "0.6");
   demo_cell "c" (float_lit "0.3") (float_lit "0.5"); demo_cell "d" (float_lit "0.1") (float_lit "0.2")].
Definition demo_costs : list CostLatencyRecord :=
  [demo_cost "a" "2.0" "10.0"; demo_cost "b" "1.0" "8.0"; demo_cost "c" "3.0" "9.0"; demo_cost "d" "3.0" "11.0"].

Lemma pareto_front_witness :
  pareto_nondominated demo_cells (cost_table demo_costs) (build_pairs demo_cells).1 = [("a", "reentrancy"); ("b", "reentrancy"); ("c", "reentrancy")] /\
  exists b, b ∈ demo_cells /\ key b ∈ pareto_nondominated demo_cells (cost_table demo_costs) (build_pairs demo_cells).1 /\
    beats (cost_table demo_costs) b (demo_cell "d" (float_lit "0.1") (float_lit "0.2")) = true.
Proof.
  split; [vm_compute; reflexivity|].
  destruct (pareto_front demo_cells demo_costs (demo_cell "d" (float_lit "0.1") (float_lit "0.2"))) as [_ [Hf|Hb]]; [| | | |exact Hb].
  - split; [apply (bool_decide_unpack _); vm_compute; exact I|].
    repeat (apply Forall_cons; split; [intros iv [= <-]; vm_compute; split_and!; reflexivity|]). by apply Forall_nil.
  - right. right. right. by left.
  - reflexivity.
  - exfalso. revert Hf. apply (bool_decide_unpack (~ _)). vm_compute. exact I.
Defined.

(** ** The books of a cascade *)

(** [m] only appends to the history, and what it appends with what it returns satisfies [Q] *)
Definition emits {A} (m : ST (list event) A) (Q : list event -> A -> Prop) : Prop :=
  forall h h' x, m h = (h', Ok x) -> exists l, h' = h ++ l /\ Q l x.

Lemma emits_ret {A} (x : A) (Q : list event -> A -> Prop) : Q [] x -> emits (mret x) Q.
Proof. intros HQ h h' y [= <- <-]. exists []. by rewrite app_nil_r. Qed.

Lemma emits_bind {A B} (m : ST (list event) A) (f : A -> ST (list event) B) Q R :
  emits m Q -> (forall l x, Q l x -> emits (f x) (fun l' y => R (l ++ l') y)) -> emits (x ← m; f x) R.
Proof.
  intros Hm Hf h h' y Hr. apply st_bind_inv in Hr as [(h1 & x & Hx & Hr)|(e & _ & Hr)]; [|done].
  destruct (Hm _ _ _ Hx) as (l & -> & HQ). destruct (Hf _ _ HQ _ _ _ Hr) as (l' & -> & HR). exists (l ++ l'). by rewrite app_assoc.
Qed.

Lemma emits_weaken {A} (m : ST (list event) A) (Q R : list event -> A -> Prop) : emits m Q -> (forall l x, Q l x -> R l x) -> emits m R.
Proof. intros Hm HQR h h' x Hx. destruct (Hm _ _ _ Hx) as (l & -> & HQ). eauto. Qed.

Lemma emits_lift {A} (r : res A) : emits (st_lift r) (fun l x => l = [] /\ r = Ok x).
Proof. intros h h' x [= <- ->]. exists []. by rewrite app_nil_r. Qed.

Lemma emits_log name fields : emits (log name fields) (fun l _ => exists e, l = [Logged e]).
Proof. intros h h' x [= <- <-]. eexists. split; [reflexivity|]. by eexists. Qed.

(** The attempts of a candidate in a history, with their stages *)
Definition answers (candidate : string) (h : list event) : list (string * AttemptResult) :=
  omap (fun e => match e with Attempt c _ stage r => if String.eqb c candidate then Some (stage, r) else None | Logged _ => None end) h.

(** Only attempts of [candidate] in [stages], and log entries *)
Definition only (candidate : string) (stages : list string) (h : list event) : Prop :=
  Forall (fun e => match e with Attempt c _ stage _ => c = candidate /\ stage ∈ stages | Logged _ => True end) h.

Definition count (p : string * AttemptResult -> bool) (es : list (string * AttemptResult)) : nat := length (List.filter p es).
Definition tokens_of (es : list (string * AttemptResult)) : Z := foldr (fun e t => if transient e.2 then t else (tokens e.2 + t)%Z) 0%Z es.
(** The seconds of the answers that are not transient, added to [x] one by one *)
Definition seconds_of (x : pyfloat) (es : list (string * AttemptResult)) : pyfloat :=
  foldl (fun x e => if transient e.2 then x else (x + seconds e.2)%pyfloat) x es.

(** The tests of the books: an answer at a stage that counts; one that was verified; one
    that triggered; one lost to the environment after the smoke stage *)
Definition at_stage (stage : string) (e : string * AttemptResult) : bool := String.eqb e.1 stage.
Definition counted (stage : string) (e : string * AttemptResult) : bool := at_stage stage e && negb (transient e.2).
Definition passed (e : string * AttemptResult) : bool := counted "bayes" e && verified e.2.
Definition hit (e : string * AttemptResult) : bool := counted "screen" e && triggered e.2.
Definition lost (e : string * AttemptResult) : bool := negb (at_stage "smoke" e) && transient e.2.

(** The answers of a stage *)
Definition answers_at (stage : string) (es : list (string * AttemptResult)) : list AttemptResult := map snd (List.filter (at_stage stage) es).

(** What the smoke stage is published as: the last answer produced something, or was
    stopped by the environment, or neither *)
Definition smoke_flag (es : list (string * AttemptResult)) : string :=
  match last (answers_at "smoke" es) with
  | Some r => if produced r then "pass" else if truthy (infra_cause r) then "infra" else "plumbing_fail"
  | None => "pass"
  end.

(** A screening was given up: an attempt and its retry were both transient *)
Fixpoint gave_up (rs : list AttemptResult) : bool :=
  match rs with
  | [] => false
  | r :: rs' => if transient r then match rs' with r' :: rs'' => transient r' || gave_up rs'' | [] => false end else gave_up rs'
  end.

(** What the screen is published as: unavailable when it neither triggered nor was run for
    every case *)
Definition screen_flag (es : list (string * AttemptResult)) : string :=
  if negb (existsb hit es) && gave_up (answers_at "screen" es) then "unavailable" else "pass".

Lemma answers_at_app stage es es' : answers_at stage (es ++ es') = answers_at stage es ++ answers_at stage es'.
Proof. unfold answers_at. by rewrite List.filter_app, map_app. Qed.
Lemma answers_at_all stage es : (forall e, e ∈ es -> e.1 = stage) -> answers_at stage es = map snd es.
Proof.
  unfold answers_at. induction es as [|e es IH]; intros He; [done|]. cbn [List.filter]. unfold at_stage at 1. rewrite (He e) by by left.
  rewrite String.eqb_refl. cbn [map]. f_equal. apply IH. intros; apply He; by right.
Qed.
Lemma answers_at_none stage es : (forall e, e ∈ es -> e.1 <> stage) -> answers_at stage es = [].
Proof.
  intros He. unfold answers_at. rewrite filter_all_false; [done|]. intros e Hin. unfold at_stage. apply String.eqb_neq. by apply He.
Qed.
Lemma seconds_of_app x es es' : seconds_of x (es ++ es') = seconds_of (seconds_of x es) es'.
Proof. apply foldl_app. Qed.
Lemma seconds_of_transient x stage ts : Forall (fun t => transient t = true) ts -> seconds_of x (map (pair stage) ts) = x.
Proof. unfold seconds_of. induction 1 as [|t ts Ht _ IH]; [done|]. cbn [map foldl snd]. by rewrite Ht. Qed.

Lemma answers_app candidate h h' : answers candidate (h ++ h') = answers candidate h ++ answers candidate h'.
Proof. apply omap_app. Qed.

Lemma count_app p es es' : count p (es ++ es') = count p es + count p es'.
Proof. unfold count. by rewrite List.filter_app, length_app. Qed.

Lemma tokens_of_app es es' : tokens_of (es ++ es') = (tokens_of es + tokens_of es')%Z.
Proof. induction es as [|e es IH]; [done|]. cbn [tokens_of foldr app] in *. fold (tokens_of (es ++ es')) (tokens_of es). rewrite IH. destruct (transient e.2); lia. Qed.

Lemma count_none p es : (forall e, e ∈ es -> p e = false) -> count p es = 0.
Proof. intros H. unfold count. by rewrite filter_all_false. Qed.

Lemma existsb_none {A} (p : A -> bool) l : (forall x, x ∈ l -> p x = false) -> existsb p l = false.
Proof. intros H. apply Bool.not_true_iff_false. rewrite existsb_exists. intros (x & Hx%list_elem_of_In & Hp). by rewrite H in Hp. Qed.

Lemma answers_other candidate candidate' stages h : only candidate stages h -> candidate <> candidate' -> answers candidate' h = [].
Proof.
  intros Ho Hne. induction Ho as [|[c case stage r|entry] h He _ IH]; [done| |exact IH]. destruct He as [-> _].
  unfold answers. cbn. destruct (String.eqb_spec candidate candidate'); [done|exact IH].
Qed.

Lemma answers_stage candidate stages h e : only candidate stages h -> e ∈ answers candidate h -> e.1 ∈ stages.
Proof.
  unfold only. rewrite Forall_forall. intros Ho ([c case stage r|entry] & Hin & He)%list_elem_of_omap; [|done].
  destruct (String.eqb c candidate); [|done]. injection He as <-. by apply Ho in Hin as [_ ?].
Qed.

(** Attempts of one candidate, on one case, at one stage *)
Definition run_of (candidate case stage : string) (rs : list AttemptResult) : list event := map (Attempt candidate case stage) rs.

Lemma answers_run candidate case stage rs : answers candidate (run_of candidate case stage rs) = map (pair stage) rs.
Proof. induction rs as [|r rs IH]; [done|]. unfold answers in *. cbn. rewrite String.eqb_refl. cbn. f_equal. exact IH. Qed.

Lemma only_run candidate case stage rs stages : stage ∈ stages -> only candidate stages (run_of candidate case stage rs).
Proof. intros Hs. unfold only, run_of. apply Forall_map, Forall_forall. intros r _. done. Qed.

Lemma only_app candidate stages h h' : only candidate stages h -> only candidate stages h' -> only candidate stages (h ++ h').
Proof. intros. by apply Forall_app. Qed.

Definition bump (n : nat) (c : CascadeStageResult) : CascadeStageResult :=
  mkCell (c_candidate c) (c_class c) (c_smoke c) (c_screen c) (c_triggered c) (c_verified_k c) (c_n c) (n + c_transient_failures c) (c_interval c) (c_single_item c).

(** The cost after the counted answers of [es] *)
Definition charged (es : list (string * AttemptResult)) (cl cl' : CostLatencyRecord) : Prop :=
  cl_candidate cl' = cl_candidate cl /\ cl_class cl' = cl_class cl /\ cl_passes cl' = cl_passes cl /\ cl_tokens cl' = (cl_tokens cl + tokens_of es)%Z /\
  cl_seconds cl' = seconds_of (cl_seconds cl) es.

Lemma charged_nil cl : charged [] cl cl.
Proof. unfold charged. cbn. split_and!; [done..|lia|done]. Qed.

Lemma charged_app es es' cl cl1 cl2 : charged es cl cl1 -> charged es' cl1 cl2 -> charged (es ++ es') cl cl2.
Proof. unfold charged. rewrite tokens_of_app, seconds_of_app. intros (-> & -> & -> & Ht & <-) (-> & -> & -> & -> & ->). split_and!; [done..|lia|done]. Qed.

Lemma charged_accrue stage r cl : charged [(stage, r)] cl (accrue cl r).
Proof. unfold charged, accrue, tokens_of, seconds_of. cbn [foldr foldl snd]. destruct (transient r); cbn [cl_candidate cl_class cl_passes cl_tokens cl_seconds seconds_of foldl snd]; split_and!; done || lia. Qed.

Section books.
Context (attempt_fn : list event -> string -> string -> string -> res AttemptResult).
Context (lgamma ln exp : pyfloat -> res pyfloat).
Abbreviation attempt := (attempt attempt_fn).
Abbreviation retry := (retry attempt_fn).

Lemma emits_attempt candidate case stage : emits (attempt candidate case stage) (fun l r => l = run_of candidate case stage [r]).
Proof. intros h h' x. unfold Screen.attempt. destruct (attempt_fn h candidate case stage) as [r|e]; [|done]. intros [= <- <-]. by eexists. Qed.

(** A stage with retries: every answer but the last was transient *)
Lemma emits_retry n stage candidate case r cell : emits (retry n stage candidate case r cell) (fun l x =>
  exists rs, l = run_of candidate case stage rs /\ length rs <= n /\ x.2 = bump (length (List.filter transient (r :: rs))) cell /\
    exists ts, r :: rs = ts ++ [x.1] /\ Forall (fun t => transient t = true) ts /\ (transient x.1 = true -> length ts = n)).
Proof.
  revert r cell. induction n as [|n IH]; intros r cell; cbn [Screen.retry List.filter]; destruct (transient r) eqn:Ht.
  - apply emits_ret. exists []. cbn [length List.filter]. split_and!; [done|lia|done|by exists []].
  - apply emits_ret. exists []. cbn [length List.filter fst]. split_and!; [done|lia|by destruct cell|exists []; split_and!; [done|done|congruence]].
  - eapply emits_bind; [apply emits_attempt|]. intros l r' ->. eapply emits_weaken; [apply IH|].
    intros l [x cell'] (rs & -> & Hn & Hc & ts & Hrs & Hts & Hlast). cbn [fst snd] in *. exists (r' :: rs). split_and!; [done|cbn; lia| |].
    + rewrite Hc. change (add_transient cell) with (bump 1 cell). unfold bump. cbn. f_equal. lia.
    + exists (r :: ts). rewrite Hrs. split_and!; [done|by constructor|]. intros Hx. cbn [length]. by rewrite Hlast.
  - apply emits_ret. exists []. cbn [length List.filter fst]. split_and!; [done|lia|by destruct cell|exists []; split_and!; [done|done|congruence]].
Qed.

(** The answers of a stage with retries, as the books see them: [r] is what counts *)
Definition staged (candidate stage : string) (limit : nat) (l : list event) (r : AttemptResult) : Prop :=
  only candidate [stage] l /\ length (answers candidate l) <= limit /\
  (forall p, (forall t, transient t = true -> p (stage, t) = false) -> count p (answers candidate l) = if p (stage, r) then 1 else 0) /\
  (forall p, (forall t, transient t = true -> p (stage, t) = false) -> existsb p (answers candidate l) = p (stage, r)) /\
  tokens_of (answers candidate l) = tokens_of [(stage, r)] /\
  exists ts, answers candidate l = map (pair stage) (ts ++ [r]) /\ Forall (fun t => transient t = true) ts /\ (transient r = true -> S (length ts) = limit).

Lemma staged_run candidate case stage limit rs r ts : rs = ts ++ [r] -> Forall (fun t => transient t = true) ts -> length rs <= limit ->
  (transient r = true -> S (length ts) = limit) ->
  staged candidate stage limit (run_of candidate case stage rs) r.
Proof.
  intros -> Hts Hl Hlast. unfold staged. rewrite answers_run, length_map, map_app. cbn [map].
  assert (forall p, (forall t, transient t = true -> p (stage, t) = false) -> forall e, e ∈ map (pair stage) ts -> p e = false) as Hno.
  { intros p Hp e (t & -> & Ht)%list_elem_of_fmap. rewrite Forall_forall in Hts. by apply Hp, Hts. }
  split_and!; [apply only_run; by left|done| | | |exists ts; rewrite map_app; by split_and!].
  - intros p Hp. rewrite count_app, (count_none p (map _ _)) by by apply Hno. unfold count. cbn [List.filter]. by destruct (p (stage, r)).
  - intros p Hp. rewrite existsb_app, (existsb_none p (map _ _)) by by apply Hno. cbn. by rewrite orb_false_r.
  - rewrite tokens_of_app. enough (tokens_of (map (pair stage) ts) = 0%Z) as -> by done.
    clear Hl Hno Hlast. induction Hts as [|t ts Ht _ IH]; [done|]. cbn. rewrite Ht. exact IH.
Qed.

Definition retried (n : nat) (stage candidate case : string) (cell : CascadeStageResult) : ST (list event) (AttemptResult * CascadeStageResult) :=
  r ← attempt candidate case stage; retry n stage candidate case r cell.

Lemma emits_retried n stage candidate case cell : stage <> "smoke" -> emits (retried n stage candidate case cell) (fun l x =>
  staged candidate stage (S n) l x.1 /\ x.2 = bump (count lost (answers candidate l)) cell).
Proof.
  intros Hs. eapply emits_bind; [apply emits_attempt|]. intros l r ->. eapply emits_weaken; [apply emits_retry|].
  intros l [x cell'] (rs & -> & Hn & Hc & ts & Hrs & Hts & Hlast). cbn [fst snd] in *.
  change (run_of candidate case stage [r] ++ run_of candidate case stage rs) with (run_of candidate case stage (r :: rs)). split.
  - eapply staged_run; [exact Hrs|done|cbn; lia|]. intros Hx. by rewrite Hlast.
  - rewrite answers_run, Hc. f_equal. unfold count. generalize (r :: rs). intros l. induction l as [|t l IH]; [done|]. cbn [map List.filter].
    unfold lost at 1, at_stage. cbn [fst snd]. rewrite (proj2 (String.eqb_neq _ _) Hs). cbn [negb andb].
    destruct (transient t); cbn [length]; by rewrite IH.
Qed.

(** The smoke stage: one or two attempts, paid for *)
Lemma emits_smoke candidate case cl : emits (smoke_stage attempt_fn candidate case cl) (fun l x =>
  only candidate ["smoke"] l /\ length (answers candidate l) <= 2 /\ charged (answers candidate l) cl x.2 /\ last (answers_at "smoke" (answers candidate l)) = Some x.1).
Proof.
  unfold smoke_stage. eapply emits_bind; [apply emits_attempt|]. intros l r ->. destruct (produced r).
  - apply emits_ret. rewrite app_nil_r, answers_run. split_and!; [apply only_run; by left|cbn; lia|apply charged_accrue|done].
  - eapply emits_bind; [apply emits_attempt|]. intros l r' ->. apply emits_ret. rewrite app_nil_r, answers_app, !answers_run.
    split_and!; [apply only_app; apply only_run; by left|cbn; lia| |done].
    eapply charged_app; apply charged_accrue.
Qed.

(** The trigger screen: what it decides, counts and pays *)
Definition screened (es : list (string * AttemptResult)) (s s' : screening) : Prop :=
  s_triggered s' = s_triggered s || existsb hit es /\ s_cell s' = bump (count lost es) (s_cell s) /\ charged es (s_cost s) (s_cost s').

Lemma screened_app es es' s s1 s2 : screened es s s1 -> screened es' s1 s2 -> screened (es ++ es') s s2.
Proof.
  unfold screened. intros (-> & Hc & Hp) (-> & -> & Hp'). rewrite existsb_app, orb_assoc, Hc, count_app. split_and!; [done| |by eapply charged_app].
  unfold bump. cbn. f_equal. lia.
Qed.

Lemma charged_staged candidate stage limit l r cl : staged candidate stage limit l r -> charged (answers candidate l) cl (accrue cl r).
Proof.
  intros (_ & _ & _ & _ & Ht & ts & Hes & Hts & _). destruct (charged_accrue stage r cl) as (? & ? & ? & Htk & Hsec). unfold charged. rewrite Ht, Htk, Hsec.
  split_and!; try done. rewrite Hes, map_app, seconds_of_app, (seconds_of_transient _ _ ts) by done. done.
Qed.

(** One screening, seen by [gave_up] *)
Lemma gave_up_staged candidate stage l r rest : staged candidate stage 2 l r -> gave_up (map snd (answers candidate l) ++ rest) = transient r || gave_up rest.
Proof.
  intros (_ & Hlen & _ & _ & _ & ts & Hes & Hts & Hlast). rewrite Hes, length_map, length_app in Hlen. rewrite Hes, map_map, map_id. cbn [length] in Hlen.
  destruct ts as [|t [|t' ts]]; cbn [length] in *; [|by apply Forall_cons in Hts as [Ht _]; cbn; rewrite Ht|lia].
  cbn [app gave_up]. destruct (transient r); [by specialize (Hlast eq_refl)|done].
Qed.

Lemma emits_screen candidate cases s : emits (screen_cases attempt_fn candidate cases s) (fun l s' =>
  only candidate ["screen"] l /\ length (answers candidate l) <= 2 * length cases /\ screened (answers candidate l) s s' /\
  s_unavailable s' = s_unavailable s || gave_up (map snd (answers candidate l))).
Proof.
  revert s. induction cases as [|bc rest IH]; intros s; cbn [screen_cases].
  - apply emits_ret. unfold screened. cbn. split_and!; [by constructor|lia|by rewrite orb_false_r|by destruct s as [? ? []]|apply charged_nil|by rewrite orb_false_r].
  - eapply emits_bind; [apply (emits_retried SCREEN_TRANSIENT_RETRY "screen"); done|]. intros l [r cell] [Hst Hc]. cbn [fst snd] in *. subst cell.
    assert (hit ("screen", r) = negb (transient r) && triggered r) as Hhit by done. pose proof (charged_staged _ _ _ _ _ (s_cost s) Hst) as Hch.
    pose proof (fun rest => gave_up_staged _ _ _ _ rest Hst) as Hgave. destruct Hst as (Ho & Hlen & _ & Hex & _). unfold SCREEN_TRANSIENT_RETRY in Hlen.
    assert (existsb hit (answers candidate l) = negb (transient r) && triggered r) as Hh.
    { rewrite <- Hhit. apply Hex. intros t Ht. unfold hit, counted. cbn. by rewrite Ht. }
    assert (forall s1, screened (answers candidate l) s s1 -> s_unavailable s1 = s_unavailable s || transient r -> emits (screen_cases attempt_fn candidate rest s1) (fun l' s' =>
      only candidate ["screen"] (l ++ l') /\ length (answers candidate (l ++ l')) <= 2 * length (bc :: rest) /\ screened (answers candidate (l ++ l')) s s' /\
      s_unavailable s' = s_unavailable s || gave_up (map snd (answers candidate (l ++ l'))))) as Hrest.
    { intros s1 Hs1 Hu1. eapply emits_weaken; [apply IH|]. intros l' s' (Ho' & Hl' & Hs' & Hu'). rewrite answers_app, length_app, map_app, Hgave.
      split_and!; [by apply only_app|cbn [length]; lia|by eapply screened_app|]. by rewrite Hu', Hu1, orb_assoc. }
    destruct (transient r) eqn:Ht; [|destruct (triggered r) eqn:Htr]; cbn [negb andb] in Hh.
    + apply Hrest; [|by rewrite orb_true_r]. unfold screened. cbn [s_triggered s_cell s_cost]. rewrite Hh, orb_false_r. split_and!; [done..|]. unfold accrue in Hch. by rewrite Ht in Hch.
    + apply emits_ret. rewrite app_nil_r. unfold screened. cbn [s_triggered s_unavailable s_cell s_cost length]. rewrite Hh, orb_true_r.
      pose proof (Hgave []) as Hg. rewrite app_nil_r in Hg. rewrite Hg. cbn [orb gave_up]. rewrite orb_false_r. split_and!; done || lia.
    + apply Hrest; [|cbn; by rewrite orb_false_r]. unfold screened. cbn [s_triggered s_cell s_cost]. by rewrite Hh, orb_false_r.
Qed.

(** Phase A of one candidate *)
Definition phase_a_books (limit : nat) (es : list (string * AttemptResult)) (cell cell' : CascadeStageResult) (cl cl' : CostLatencyRecord) : Prop :=
  length es <= 2 + 2 * limit /\ charged es cl cl' /\ c_triggered cell' = existsb hit es /\ c_transient_failures cell' = count lost es /\
  c_candidate cell' = c_candidate cell /\ c_class cell' = c_class cell /\ c_n cell' = c_n cell /\ c_verified_k cell' = c_verified_k cell /\
  c_interval cell' = c_interval cell /\ c_smoke cell' = smoke_flag es /\ c_screen cell' = screen_flag es /\ c_single_item cell' = c_single_item cell.

Lemma no_losses candidate l : only candidate ["smoke"] l -> count lost (answers candidate l) = 0 /\ existsb hit (answers candidate l) = false.
Proof.
  intros Ho. split; [apply count_none|apply existsb_none]; intros e He; pose proof (answers_stage _ _ _ _ Ho He) as Hs%list_elem_of_singleton.
  - unfold lost, at_stage. by rewrite Hs.
  - unfold hit, counted, at_stage. by rewrite Hs.
Qed.

Lemma emits_phase_a cls cases cell cl : c_triggered cell = false -> c_transient_failures cell = 0 -> c_smoke cell = "pass" -> c_screen cell = "pass" ->
  emits (phase_a attempt_fn cls cases cell cl) (fun l x =>
    only (c_candidate cell) ["smoke"; "screen"] l /\ phase_a_books (length cases) (answers (c_candidate cell) l) cell x.2.1 cl x.2.2 /\ x.1 = c_triggered x.2.1).
Proof.
  intros Htr Htf Hsm Hsc0. unfold phase_a. eapply emits_bind; [apply emits_smoke|]. intros l [smoke cl1] (Ho & Hl & Hch & Hlast). cbn [fst snd] in *.
  destruct (no_losses _ _ Ho) as [Hlost Hhit].
  assert (answers_at "screen" (answers (c_candidate cell) l) = []) as Hnos.
  { apply answers_at_none. intros e He. pose proof (answers_stage _ _ _ _ Ho He) as ->%list_elem_of_singleton. done. }
  assert (only (c_candidate cell) ["smoke"; "screen"] l) as Ho'.
  { eapply Forall_impl; [exact Ho|]. intros [c case st r|e]; [|done]. intros [-> ->%list_elem_of_singleton]. split; [done|by left]. }
  assert (forall e, answers (c_candidate cell) (l ++ [Logged e]) = answers (c_candidate cell) l) as Hlog by (intros e; rewrite answers_app; cbn; by rewrite app_nil_r).
  assert (forall (st : string) name fields, smoke_flag (answers (c_candidate cell) l) = st -> emits (_ ← log name fields; mret (false, (set_smoke st cell, cl1))) (fun l' x =>
    only (c_candidate cell) ["smoke"; "screen"] (l ++ l') /\ phase_a_books (length cases) (answers (c_candidate cell) (l ++ l')) cell x.2.1 cl x.2.2 /\
    x.1 = c_triggered x.2.1)) as Hfail.
  { intros st name fields Hflag. eapply emits_bind; [apply emits_log|]. intros l' [] [e ->]. apply emits_ret. rewrite app_nil_r, Hlog.
    split_and!; [apply only_app; [done|by repeat constructor]| |by rewrite <- Htr]. unfold phase_a_books, screen_flag. cbn. rewrite Hlost, Hhit, Hnos. split_and!; done || lia. }
  assert (forall st, (if produced smoke then "pass" else if truthy (infra_cause smoke) then "infra" else "plumbing_fail") = st ->
    smoke_flag (answers (c_candidate cell) l) = st) as Hflag by (intros st <-; unfold smoke_flag; by rewrite Hlast).
  destruct (produced smoke); cbn [negb]; [|destruct (truthy (infra_cause smoke)); by apply Hfail, Hflag].
  eapply emits_bind; [apply emits_screen|]. intros l' s (Hs1 & Hs2 & Hs3 & Hun). unfold screened in Hs3. cbn [s_triggered s_cell s_cost s_unavailable orb] in Hs3, Hun.
  destruct Hs3 as (Hst & Hsc & Hsp).
  assert (only (c_candidate cell) ["smoke"; "screen"] (l ++ l')) as Ho2.
  { apply only_app; [done|]. eapply Forall_impl; [exact Hs1|]. intros [c case st r|e]; [|done]. intros [-> ->%list_elem_of_singleton]. split; [done|by right; left]. }
  assert (answers_at "smoke" (answers (c_candidate cell) l') = [] /\ answers_at "screen" (answers (c_candidate cell) l') = map snd (answers (c_candidate cell) l')) as [Hsm' Hsc'].
  { split; [apply answers_at_none|apply answers_at_all]; intros e He; by pose proof (answers_stage _ _ _ _ Hs1 He) as ->%list_elem_of_singleton. }
  assert (forall l'' scr, answers (c_candidate cell) l'' = [] -> scr = (if negb (s_triggered s) && s_unavailable s then "unavailable" else "pass") ->
    phase_a_books (length cases) (answers (c_candidate cell) (l ++ l' ++ l'')) cell (set_screen (s_triggered s) scr (s_cell s)) cl (s_cost s)) as Hbooks.
  { intros l'' scr Hl'' ->. unfold phase_a_books, smoke_flag, screen_flag.
    rewrite !answers_app, Hl'', app_nil_r, length_app, existsb_app, count_app, !answers_at_app, Hlost, Hhit, Hst, Hsc, Hsm', Hsc', Hnos, app_nil_r, Hun.
    cbn. split_and!; try done; try lia; [by eapply charged_app|]. rewrite Hsm. symmetry. by apply Hflag. }
  destruct (s_triggered s) eqn:Est; [|destruct (s_unavailable s)].
  - apply emits_ret. rewrite Hsc0. split_and!; [by rewrite app_nil_r|by apply Hbooks|done].
  - eapply emits_bind; [apply emits_log|]. intros l'' [] [e ->]. apply emits_ret. rewrite app_nil_r.
    split_and!; [rewrite app_assoc; apply only_app; [done|by repeat constructor]|by apply Hbooks|done].
  - eapply emits_bind; [apply emits_log|]. intros l'' [] [e ->]. apply emits_ret. rewrite app_nil_r, Hsc0.
    split_and!; [rewrite app_assoc; apply only_app; [done|by repeat constructor]|by apply Hbooks|done].
Qed.

(** Attempts of candidates among [ids], at [stages], and log entries *)
Definition among (ids stages : list string) (h : list event) : Prop :=
  Forall (fun e => match e with Attempt c _ stage _ => c ∈ ids /\ stage ∈ stages | Logged _ => True end) h.

Lemma only_among candidate ids stages h : only candidate stages h -> candidate ∈ ids -> among ids stages h.
Proof. intros Ho Hin. eapply Forall_impl; [exact Ho|]. intros [c case st r|e]; [|done]. by intros [-> ?]. Qed.

Lemma among_more ids ids' stages h : among ids stages h -> ids ⊆ ids' -> among ids' stages h.
Proof. intros Ha Hs. eapply Forall_impl; [exact Ha|]. intros [c case st r|e]; [|done]. intros [? ?]. split; [by apply Hs|done]. Qed.

Lemma answers_among candidate ids stages h : among ids stages h -> candidate ∉ ids -> answers candidate h = [].
Proof.
  intros Ha Hne. induction Ha as [|[c case st r|e] h He _ IH]; [done| |exact IH]. destruct He as [Hc _].
  unfold answers. cbn. destruct (String.eqb_spec c candidate) as [->|_]; [done|exact IH].
Qed.

Lemma among_stage candidate ids stages h e : among ids stages h -> e ∈ answers candidate h -> e.1 ∈ stages.
Proof.
  unfold among. rewrite Forall_forall. intros Ho ([c case stage r|entry] & Hin & He)%list_elem_of_omap; [|done].
  destruct (String.eqb c candidate); [|done]. injection He as <-. by apply Ho in Hin as [_ ?].
Qed.

(** Phase A over the candidates: each has its books, and those it triggered for survive *)
Lemma emits_screen_all cls cases n single active ph : NoDup (map cand_id active) -> emits (screen_all attempt_fn cls cases n single active ph) (fun l ph' =>
  among (map cand_id active) ["smoke"; "screen"] l /\
  (forall c, c ∈ active -> exists cell cl, assoc (cand_id c) (ph_pending ph') = Some (cell, cl) /\
     phase_a_books (length cases) (answers (cand_id c) l) (fresh_cell cls n single c) cell (fresh_cost cls c) cl) /\
  (forall k, k ∉ map cand_id active -> assoc k (ph_pending ph') = assoc k (ph_pending ph)) /\
  ph_survivors ph' = ph_survivors ph ++ List.filter (fun c => existsb hit (answers (cand_id c) l)) active).
Proof.
  revert ph. induction active as [|c rest IH]; intros ph Hnd; cbn [screen_all].
  { apply emits_ret. cbn. rewrite app_nil_r. split_and!; [by constructor|by intros c ?%not_elem_of_nil|done|done]. }
  cbn [map] in Hnd. apply NoDup_cons in Hnd as [Hc Hnd].
  eapply emits_bind; [by apply (emits_phase_a cls cases (fresh_cell cls n single c) (fresh_cost cls c))|]. intros l [b [cell cl]] (Ho & Hbk & Hb).
  cbn [fst snd] in Hb, Hbk. change (c_candidate (fresh_cell cls n single c)) with (cand_id c) in Ho, Hbk.
  eapply emits_weaken; [by apply IH|]. intros l' ph' (Ha & Hall & Hold & Hsv). cbn [ph_pending ph_survivors fst snd] in Hold, Hsv.
  assert (answers (cand_id c) l' = []) as Hl' by (by eapply answers_among).
  assert (forall k, k ∈ map cand_id rest -> answers k l = []) as Hl by (intros k Hk; eapply answers_other; [exact Ho|by intros <-]).
  split_and!.
  - apply Forall_app. split; [eapply only_among; [exact Ho|by left]|eapply among_more; [exact Ha|]]. intros k Hk. by right.
  - intros c' [->|Hc']%elem_of_cons.
    + exists cell, cl. rewrite answers_app, Hl', app_nil_r. split; [|done]. rewrite Hold by done. apply assoc_set_eq.
    + destruct (Hall c' Hc') as (cell' & cl' & Hp & Hbk'). exists cell', cl'. split; [done|]. rewrite answers_app, Hl; [done|].
      by apply list_elem_of_fmap_2.
  - intros k [Hk Hk']%not_elem_of_cons. rewrite Hold by done. by apply assoc_set_ne.
  - rewrite Hsv. cbn [List.filter map]. rewrite answers_app, Hl', app_nil_r.
    replace (existsb hit (answers (cand_id c) l)) with b by (by destruct Hbk as (_ & _ & <- & _)).
    replace (List.filter (fun c0 => existsb hit (answers (cand_id c0) (l ++ l'))) rest) with (List.filter (fun c0 => existsb hit (answers (cand_id c0) l')) rest);
      [by destruct b; rewrite <- ?app_assoc|].
    apply List.filter_ext_in. intros c' Hc'%list_elem_of_In. rewrite answers_app, Hl; [done|]. by apply list_elem_of_fmap_2.
Qed.

(** The trials of a survivor *)
Definition tried (es : list (string * AttemptResult)) (t t' : trying) : Prop :=
  t_k t' = t_k t + count passed es /\ t_trials t' = t_trials t + count (counted "bayes") es /\
  t_cell t' = bump (count lost es) (t_cell t) /\ charged es (t_cost t) (t_cost t').

Lemma emits_trial candidate case t : emits (one_trial attempt_fn candidate case t) (fun l t' =>
  only candidate ["bayes"] l /\ length (answers candidate l) <= 4 /\ tried (answers candidate l) t t').
Proof.
  eapply emits_bind; [apply (emits_retried TRANSIENT_RETRY_CAP "bayes"); done|]. intros l [r cell] [Hst Hc]. cbn [fst snd] in *. subst cell.
  pose proof (charged_staged _ _ _ _ _ (t_cost t) Hst) as Hch. destruct Hst as (Ho & Hlen & Hct & _ & _). unfold TRANSIENT_RETRY_CAP in Hlen.
  assert (count passed (answers candidate l) = if negb (transient r) && verified r then 1 else 0) as Hp.
  { rewrite Hct; [done|]. intros u Hu. unfold passed, counted. cbn. by rewrite Hu. }
  assert (count (counted "bayes") (answers candidate l) = if negb (transient r) then 1 else 0) as Hn.
  { rewrite Hct; [done|]. intros u Hu. unfold counted. cbn. by rewrite Hu. }
  unfold tried. destruct (transient r) eqn:Ht; apply emits_ret; rewrite app_nil_r, Hp, Hn; cbn [t_k t_trials t_cell t_cost negb andb].
  - split_and!; [done|done|lia|lia|done|]. unfold accrue in Hch. by rewrite Ht in Hch.
  - split_and!; [done|done|destruct (verified r); lia|lia|done..].
Qed.

Lemma emits_trials candidate cases t : emits (fold_st (one_trial attempt_fn candidate) cases t) (fun l t' =>
  only candidate ["bayes"] l /\ length (answers candidate l) <= 4 * length cases /\ tried (answers candidate l) t t').
Proof.
  revert t. induction cases as [|case rest IH]; intros t; cbn [fold_st].
  - apply emits_ret. unfold tried. cbn. split_and!; [by constructor|lia|lia|lia|by destruct t as [? ? [] ?]|apply charged_nil].
  - eapply emits_bind; [apply emits_trial|]. intros l t1 (Ho & Hl & H1). eapply emits_weaken; [apply IH|].
    intros l' t2 (Ho' & Hl' & H2). rewrite answers_app, length_app. split_and!; [by apply only_app|cbn [length]; lia|].
    destruct H1 as (Hk & Hn & Hc & Hch), H2 as (Hk2 & Hn2 & Hc2 & Hch2). unfold tried. rewrite !count_app, Hk2, Hn2, Hk, Hn, Hc2, Hc.
    split_and!; [lia|lia| |by eapply charged_app]. unfold bump. cbn. f_equal. lia.
Qed.

(** Phase B of one survivor: the cell and the cost before and after *)
Definition phase_b_books (level : pyfloat) (limit : nat) (es : list (string * AttemptResult)) (before after : CascadeStageResult * CostLatencyRecord) : Prop :=
  length es <= 4 * limit /\ c_candidate after.1 = c_candidate before.1 /\ c_class after.1 = c_class before.1 /\ c_triggered after.1 = c_triggered before.1 /\
  c_transient_failures after.1 = c_transient_failures before.1 + count lost es /\
  c_verified_k after.1 = count passed es /\ c_n after.1 = Z.of_nat (count (counted "bayes") es) /\
  (exists iv, c_interval after.1 = Some iv /\
     credible_interval lgamma ln exp (Z.of_nat (count passed es)) (Z.of_nat (count (counted "bayes") es)) level = Ok iv) /\
  cl_candidate after.2 = cl_candidate before.2 /\ cl_class after.2 = cl_class before.2 /\
  cl_tokens after.2 = (cl_tokens before.2 + tokens_of es)%Z /\ cl_passes after.2 = count passed es /\
  cl_seconds after.2 = seconds_of (cl_seconds before.2) es /\ c_smoke after.1 = c_smoke before.1 /\ c_screen after.1 = c_screen before.1 /\
  c_single_item after.1 = c_single_item before.1.

Lemma emits_phase_b record cases n level c pending : (v ← pget record "credible_level" (PFloat "0.95"); float_val v) = Ok level ->
  emits (phase_b attempt_fn lgamma ln exp record cases n c pending) (fun l pending' =>
    only (cand_id c) ["bayes"] l /\ exists before after, assoc (cand_id c) pending = Some before /\ pending' = assoc_set (cand_id c) after pending /\
      phase_b_books level (length (trials_of cases n)) (answers (cand_id c) l) before after).
Proof.
  intros Hlevel. unfold phase_b. destruct (assoc (cand_id c) pending) as [[cell cl]|] eqn:Hp; [|by intros h h' x [= ]].
  eapply emits_bind; [apply emits_trials|]. intros l t (Ho & Hl & Ht). unfold tried in Ht. cbn [t_k t_trials t_cell t_cost] in Ht.
  destruct Ht as (Hk & Hn & Hc & Hch). rewrite Hlevel.
  eapply emits_bind; [apply emits_lift|]. intros l1 x [-> [= <-]].
  eapply emits_bind; [apply emits_lift|]. intros l2 iv [-> Hiv]. apply emits_ret. rewrite !app_nil_r.
  split; [done|]. eexists _, _. split_and!; [reflexivity|reflexivity|]. unfold phase_b_books. rewrite Hc. cbn. destruct Hch as (Hci & Hcc & _ & Hct & Hsec).
  rewrite Hk, Hn in *. cbn [Nat.add] in *. split_and!; try done; [lia|eauto].
Qed.

Lemma emits_phase_bs record cases n level cs pending : (v ← pget record "credible_level" (PFloat "0.95"); float_val v) = Ok level ->
  NoDup (map cand_id cs) -> emits (fold_st (phase_b attempt_fn lgamma ln exp record cases n) cs pending) (fun l pending' =>
    among (map cand_id cs) ["bayes"] l /\
    (forall c, c ∈ cs -> exists before after, assoc (cand_id c) pending = Some before /\ assoc (cand_id c) pending' = Some after /\
      phase_b_books level (length (trials_of cases n)) (answers (cand_id c) l) before after) /\
    (forall k, k ∉ map cand_id cs -> assoc k pending' = assoc k pending)).
Proof.
  intros Hlevel. revert pending. induction cs as [|c rest IH]; intros pending Hnd; cbn [fold_st].
  { apply emits_ret. split_and!; [by constructor|by intros c ?%not_elem_of_nil|done]. }
  cbn [map] in Hnd. apply NoDup_cons in Hnd as [Hc Hnd]. eapply emits_bind; [by apply emits_phase_b|].
  intros l pending1 (Ho & before & after & Hp & -> & Hbk). eapply emits_weaken; [by apply IH|]. intros l' pending2 (Ha & Hall & Hold).
  assert (answers (cand_id c) l' = []) as Hl' by (by eapply answers_among).
  assert (forall k, k ∈ map cand_id rest -> answers k l = []) as Hl by (intros k Hk; eapply answers_other; [exact Ho|by intros <-]).
  split_and!.
  - apply Forall_app. split; [eapply only_among; [exact Ho|by left]|eapply among_more; [exact Ha|]]. intros k Hk. by right.
  - intros c' [->|Hc']%elem_of_cons.
    + exists before, after. rewrite answers_app, Hl', app_nil_r, Hold by done. split_and!; [done|apply assoc_set_eq|done].
    + destruct (Hall c' Hc') as (b & a & Hb & Ha' & Hbk'). assert (cand_id c' ∈ map cand_id rest) as Hin by by apply list_elem_of_fmap_2.
      exists b, a. rewrite assoc_set_ne in Hb by (by intros Heq; rewrite Heq in Hc). rewrite answers_app, Hl by done. done.
  - intros k [Hk Hk']%not_elem_of_cons. rewrite Hold by done. by apply assoc_set_ne.
Qed.

Lemma NoDup_map_filter {A B} (f : A -> B) (p : A -> bool) l : NoDup (map f l) -> NoDup (map f (List.filter p l)).
Proof.
  induction l as [|x l IH]; [done|]. cbn [map List.filter]. intros [Hx Hnd]%NoDup_cons. destruct (p x); [|by apply IH].
  cbn [map]. apply NoDup_cons. split; [|by apply IH]. intros (y & Hy & Hin)%list_elem_of_fmap. apply Hx. rewrite Hy.
  apply list_elem_of_fmap_2. rewrite list_elem_of_In, filter_In, <- list_elem_of_In in Hin. tauto.
Qed.

(** The books of a candidate in a class: [es] are its attempts, [limit] the cases and
    [trials] the trials of the class *)
Definition settled (level : pyfloat) (n : Z) (single : bool) (limit trials : nat) (es : list (string * AttemptResult)) (cell : CascadeStageResult) (cl : CostLatencyRecord) : Prop :=
  c_triggered cell = existsb hit es /\ c_transient_failures cell = count lost es /\
  c_verified_k cell = count passed es /\ cl_passes cl = count passed es /\ cl_tokens cl = tokens_of es /\ cl_seconds cl = seconds_of f0 es /\
  c_smoke cell = smoke_flag es /\ c_screen cell = screen_flag es /\ c_single_item cell = single /\
  (if c_triggered cell
   then c_n cell = Z.of_nat (count (counted "bayes") es) /\
     (exists iv, c_interval cell = Some iv /\
        credible_interval lgamma ln exp (Z.of_nat (c_verified_k cell)) (c_n cell) level = Ok iv) /\
     length es <= 2 + 2 * limit + 4 * trials
   else c_n cell = n /\ c_interval cell = None /\ (forall e, e ∈ es -> e.1 <> "bayes") /\ length es <= 2 + 2 * limit).

(** The dollars of a cost: its tokens at the candidate's price of a thousand, nothing when
    it has none, and that divided by its passes when there are any *)
Definition priced (price_table : pyval) (cl : CostLatencyRecord) : Prop :=
  exists v price toks thousands, pget price_table (cl_candidate cl) (PFloat "0.0") = Ok v /\ float_val v = Ok price /\
    float_of_int (cl_tokens cl) = Ok toks /\ float_div toks (float_lit "1000.0") = Ok thousands /\ usd_per_case cl = (thousands * price)%pyfloat /\
    if cl_passes cl =? 0 then usd_per_pass cl = None
    else exists passes per_pass, float_of_int (Z.of_nat (cl_passes cl)) = Ok passes /\ float_div (thousands * price)%pyfloat passes = Ok per_pass /\
      usd_per_pass cl = Some per_pass.

Lemma finalize_keeps cl price cl' : finalize_cost cl price = Ok cl' ->
  cl_candidate cl' = cl_candidate cl /\ cl_class cl' = cl_class cl /\ cl_tokens cl' = cl_tokens cl /\ cl_passes cl' = cl_passes cl /\
  cl_seconds cl' = cl_seconds cl /\ priced price cl'.
Proof.
  unfold finalize_cost. intros (p & Hp & (p' & Hp' & (t & Ht & (k & Hk & (pp & Hpp & [= <-])%res_bind_Ok)%res_bind_Ok)%res_bind_Ok)%res_bind_Ok)%res_bind_Ok.
  split_and!; try done. exists p, p', t, k. cbn [cl_candidate cl_tokens cl_passes usd_per_case usd_per_pass]. split_and!; try done.
  destruct (cl_passes cl =? 0); [by injection Hpp as <-|]. apply res_bind_Ok in Hpp as (n & Hn & (q & Hq & [= <-])%res_bind_Ok). by exists n, q.
Qed.

Lemma no_bayes candidate ids l : among ids ["smoke"; "screen"] l ->
  count passed (answers candidate l) = 0 /\ count (counted "bayes") (answers candidate l) = 0 /\ forall e, e ∈ answers candidate l -> e.1 <> "bayes".
Proof.
  intros Ha. assert (forall e, e ∈ answers candidate l -> e.1 = "smoke" \/ e.1 = "screen") as Hs.
  { intros e He. pose proof (among_stage _ _ _ _ _ Ha He) as H. rewrite !elem_of_cons in H. destruct H as [?|[?|?%not_elem_of_nil]]; tauto. }
  split_and!; [apply count_none|apply count_none|]; intros e He; destruct (Hs e He) as [H|H]; unfold passed, counted, at_stage; rewrite H; done.
Qed.

Lemma no_hits candidate ids l : among ids ["bayes"] l -> existsb hit (answers candidate l) = false.
Proof.
  intros Ha. apply existsb_none. intros e He. pose proof (among_stage _ _ _ _ _ Ha He) as H%list_elem_of_singleton.
  unfold hit, counted, at_stage. by rewrite H.
Qed.

Lemma settle_triggered level limit trials ids c cls n single l l' cell cell' cl cl' cl'' :
  among ids ["smoke"; "screen"] l -> among ids ["bayes"] l' -> existsb hit (answers (cand_id c) l) = true ->
  phase_a_books limit (answers (cand_id c) l) (fresh_cell cls n single c) cell (fresh_cost cls c) cl ->
  phase_b_books level trials (answers (cand_id c) l') (cell, cl) (cell', cl') ->
  cl_tokens cl'' = cl_tokens cl' -> cl_passes cl'' = cl_passes cl' -> cl_seconds cl'' = cl_seconds cl' ->
  settled level n single limit trials (answers (cand_id c) (l ++ l')) cell' cl''.
Proof.
  intros Ha Hb Hh (Hl & (_ & _ & _ & Hct & Hse) & Htr & Htf & _ & _ & _ & _ & _ & Hsm & Hsc & Hsi)
    (Hl' & _ & _ & Htr' & Htf' & Hk & Hn & (iv & Hiv & Hcr) & _ & _ & Hct' & Hps & Hse' & Hsm' & Hsc' & Hsi') Htk Hpk Hsk.
  assert (forall stage, stage <> "bayes" -> answers_at stage (answers (cand_id c) l') = []) as Hnot.
  { intros stage Hne. apply answers_at_none. intros e He. by pose proof (among_stage _ _ _ _ _ Hb He) as ->%list_elem_of_singleton. }
  destruct (no_bayes (cand_id c) _ _ Ha) as (Hp0 & Hn0 & _). pose proof (no_hits (cand_id c) _ _ Hb) as Hh'. cbn [fst snd] in *.
  assert (smoke_flag (answers (cand_id c) (l ++ l')) = smoke_flag (answers (cand_id c) l)) as Hsf.
  { unfold smoke_flag. by rewrite answers_app, answers_at_app, Hnot, app_nil_r. }
  assert (screen_flag (answers (cand_id c) (l ++ l')) = screen_flag (answers (cand_id c) l)) as Hcf.
  { unfold screen_flag. by rewrite answers_app, answers_at_app, existsb_app, Hh', orb_false_r, Hnot, app_nil_r. }
  unfold settled. rewrite Hsf, Hcf. rewrite answers_app, existsb_app, !count_app, tokens_of_app, seconds_of_app, length_app, Hp0, Hn0, Hh', Hk, Hn, Htr', Htr, Hh. cbn [orb Nat.add].
  cbn [cl_tokens cl_seconds c_single_item fresh_cost fresh_cell] in Hct, Hse, Hsi. split_and!; [done|lia|done|congruence|lia|by rewrite Hsk, Hse', Hse|congruence..|done|eauto|lia].
Qed.

Lemma settle_untriggered level limit trials ids c cls n single l l' cell cl cl'' :
  among ids ["smoke"; "screen"] l -> answers (cand_id c) l' = [] -> existsb hit (answers (cand_id c) l) = false ->
  phase_a_books limit (answers (cand_id c) l) (fresh_cell cls n single c) cell (fresh_cost cls c) cl ->
  cl_tokens cl'' = cl_tokens cl -> cl_passes cl'' = cl_passes cl -> cl_seconds cl'' = cl_seconds cl ->
  settled level n single limit trials (answers (cand_id c) (l ++ l')) cell cl''.
Proof.
  intros Ha Hb Hh (Hl & (_ & _ & Hps & Hct & Hse) & Htr & Htf & _ & _ & Hn & Hk & Hiv & Hsm & Hsc & Hsi) Htk Hpk Hsk.
  destruct (no_bayes (cand_id c) _ _ Ha) as (Hp0 & Hn0 & Hnb). cbn [cl_tokens cl_seconds cl_passes fresh_cost c_n c_verified_k c_interval c_single_item fresh_cell] in *.
  unfold settled. rewrite answers_app, Hb, app_nil_r, Hp0, Htr, Hh. split_and!; [done|done|done|lia|lia|by rewrite Hsk, Hse|done|done|done|done|done|done|lia].
Qed.

(** C7. What the cascade publishes for a class is what happened, for candidates of
    different ids.  The history grows by the attempts of phase A and then those of phase B;
    phase A makes no trial, phase B makes nothing but trials, and only of the candidates
    that a counted screen attempt triggered for.  Of each cell, the smoke flag is that of
    the candidate's last smoke attempt, the screen is unavailable exactly when it did not
    trigger and a case and its retry were both lost, and the trigger, the counts and the
    interval are those of the candidate's counted attempts, the transient ones counted
    apart; of each cost, the tokens, the seconds and the passes are those of the counted
    attempts and the dollars are the tokens at the candidate's price, per case and per
    pass.  A candidate that did not trigger spends no trial and has no interval; and the
    attempts of a candidate are bounded by the cases and the trials. *)
Theorem cascade_class_accounts record single price active cls cases h h' results n level
  (Hids : NoDup (map cand_id active)) (Hn : (t ← pget record "N_by_class" (PDict []); v ← pget t cls (PInt 0); int_val v) = Ok n)
  (Hlevel : (v ← pget record "credible_level" (PFloat "0.95"); float_val v) = Ok level)
  (Hrun : cascade_class attempt_fn lgamma ln exp record single price active cls cases h = (h', Ok results)) :
  exists phase1 phase2 survivors, h' = h ++ phase1 ++ phase2 /\
    survivors = List.filter (fun c => existsb hit (answers (cand_id c) phase1)) active /\
    among (map cand_id active) ["smoke"; "screen"] phase1 /\ among (map cand_id survivors) ["bayes"] phase2 /\
    Forall2 (fun c r => c_candidate r.1 = cand_id c /\ c_class r.1 = cls /\ cl_candidate r.2 = cand_id c /\ cl_class r.2 = cls /\
      settled level n single (length cases) (length (trials_of cases n)) (answers (cand_id c) (phase1 ++ phase2)) r.1 r.2 /\ priced price r.2) active results.
Proof.
  unfold cascade_class in Hrun. rewrite Hn in Hrun. rewrite (st_bind_Ok _ _ h h n) in Hrun by done.
  apply st_bind_inv in Hrun as [(h1 & ph & Hph & Hrun)|(e & _ & Hr)]; [|done].
  destruct (emits_screen_all cls cases n single active (mkPhase [] []) Hids _ _ _ Hph) as (l & -> & Ha & Hall & _ & Hsv). cbn [ph_survivors app] in Hsv.
  apply st_bind_inv in Hrun as [(h2 & [] & Hlog & Hrun)|(e & _ & Hr)]; [|done].
  assert (exists z, h2 = (h ++ l) ++ z /\ among [] [] z) as (z & -> & Hz).
  { destruct (ph_survivors ph); injection Hlog as <-; [|by exists []; rewrite app_nil_r; split; [|constructor]].
    eexists. split; [reflexivity|]. by repeat constructor. }
  apply st_bind_inv in Hrun as [(h3 & pending & Hpb & Hrun)|(e & _ & Hr)]; [|done].
  set (sv := py_sort order_leb (ph_survivors ph)) in Hpb. set (survivors := List.filter (fun c => existsb hit (answers (cand_id c) l)) active) in Hsv.
  assert (forall c, c ∈ sv <-> c ∈ survivors) as Hsvs by (intros c; unfold sv; by rewrite elem_of_py_sort, Hsv).
  assert (forall k, k ∈ map cand_id sv -> k ∈ map cand_id survivors) as Hids2.
  { intros k (c & -> & Hc%Hsvs)%list_elem_of_fmap. by apply list_elem_of_fmap_2. }
  assert (NoDup (map cand_id sv)) as Hnd.
  { unfold sv. assert (map cand_id (py_sort order_leb (ph_survivors ph)) ≡ₚ map cand_id (ph_survivors ph)) as -> by by apply Permutation_map, py_sort_perm.
    rewrite Hsv. by apply NoDup_map_filter. }
  destruct (emits_phase_bs record cases n level sv (ph_pending ph) Hlevel Hnd _ _ _ Hpb) as (l' & -> & Hb & Hsvb & Hold).
  injection Hrun as <- Hfin. exists l, (z ++ l'), survivors. rewrite <- !app_assoc. split; [done|]. split; [done|]. split; [exact Ha|].
  assert (among (map cand_id survivors) ["bayes"] (z ++ l')) as Hb'.
  { apply Forall_app. split; [|eapply among_more; [exact Hb|exact Hids2]]. eapply Forall_impl; [exact Hz|]. intros [? ? ? ?|?]; [|done]. by intros [?%not_elem_of_nil _]. }
  split; [exact Hb'|]. apply map_res_Ok in Hfin. 
  assert (forall c, answers c z = []) as Hz' by (intros c; eapply answers_among; [exact Hz|by intros ?%not_elem_of_nil]).
  apply Forall2_same_length_lookup in Hfin as [Hlen Hfin]. apply Forall2_same_length_lookup. split; [done|]. intros i c [cell cl] Hc Hr.
  specialize (Hfin _ _ _ Hc Hr). apply list_elem_of_lookup_2 in Hc. destruct (Hall c Hc) as (cell1 & cl1 & Hp & Hbk). unfold finish in Hfin. cbn [fst snd].
  destruct (existsb hit (answers (cand_id c) l)) eqn:Hh.
  - assert (c ∈ survivors) as Hcs by (unfold survivors; by rewrite list_elem_of_In, filter_In, <- list_elem_of_In).
    destruct (Hsvb c (proj2 (Hsvs c) Hcs)) as (before & [cell2 cl2] & Hbef & Haft & Hbk2). rewrite Hp in Hbef. injection Hbef as <-. rewrite Haft in Hfin.
    apply res_bind_Ok in Hfin as (cl3 & Hfin & [= <- <-]). destruct (finalize_keeps _ _ _ Hfin) as (Hf1 & Hf2 & Hf3 & Hf4 & Hf5 & Hf6).
    pose proof Hbk as (_ & (Hb1 & Hb2 & _) & _ & _ & Hb3 & Hb4 & _). pose proof Hbk2 as (_ & Hc1 & Hc2 & _ & _ & _ & _ & _ & Hc3 & Hc4 & _). cbn [fst snd c_candidate c_class cl_candidate cl_class fresh_cell fresh_cost] in *.
    split_and!; [congruence..| |exact Hf6]. eapply settle_triggered; [exact Ha| |exact Hh|exact Hbk| |exact Hf3|exact Hf4|exact Hf5].
    + apply among_more with (ids' := map cand_id active) in Hb'; [exact Hb'|]. intros k (c' & -> & Hc')%list_elem_of_fmap.
      apply list_elem_of_fmap_2. unfold survivors in Hc'. rewrite list_elem_of_In, filter_In, <- list_elem_of_In in Hc'. tauto.
    + by rewrite answers_app, Hz'.
  - assert (cand_id c ∉ map cand_id survivors) as Hns.
    { intros (c' & Heq & Hc')%list_elem_of_fmap. unfold survivors in Hc'. rewrite list_elem_of_In, filter_In, <- Heq in Hc'. destruct Hc'. congruence. }
    rewrite Hold, Hp in Hfin by (intros Hin; by apply Hns, Hids2). apply res_bind_Ok in Hfin as (cl3 & Hfin & [= <- <-]).
    destruct (finalize_keeps _ _ _ Hfin) as (Hf1 & Hf2 & Hf3 & Hf4 & Hf5 & Hf6). pose proof Hbk as (_ & (Hb1 & Hb2 & _) & _ & _ & Hb3 & Hb4 & _). cbn [fst snd c_candidate c_class cl_candidate cl_class fresh_cell fresh_cost] in *.
    split_and!; [congruence..| |exact Hf6]. eapply settle_untriggered; [exact Ha| |exact Hh|exact Hbk|exact Hf3|exact Hf4|exact Hf5]. by eapply answers_among.
Qed.
End books.

(** Two candidates, one case, two trials: "fast" triggers and passes once after a
    transient answer, "slow" never triggers *)
Definition demo_attempt (h : list event) (candidate case stage : string) : res AttemptResult :=
  let r tr ver tra := mkAttempt true tr ver 100 (float_lit "1.5") tra "" in
  Ok (if String.eqb candidate "slow" then r false false false
      else if String.eqb stage "bayes" then (if length h =? 5 then r false false true else if length h =? 6 then r true true false else r true false false)
      else r true false false).
Definition demo_record : pyval := PDict [("N_by_class", PDict [("reentrancy", PInt 2)]); ("credible_level", PFloat "0.95")].
Definition demo_active : list Candidate := [mkCandidate "fast" "cheap" true; mkCandidate "slow" "mid" true].
Definition demo_cases : list BatteryCase := [mkBatteryCase "F-1" "reentrancy" true].

Definition demo_out : list event * res (list (CascadeStageResult * CostLatencyRecord)) := Eval vm_compute in
  cascade_class demo_attempt libm_zero libm_zero libm_zero demo_record true (PDict [("fast", PFloat "0.5")]) demo_active "reentrancy" demo_cases [].

Lemma demo_run_out : cascade_class demo_attempt libm_zero libm_zero libm_zero demo_record true (PDict [("fast", PFloat "0.5")]) demo_active "reentrancy" demo_cases [] = demo_out.
Proof. vm_compute. reflexivity. Qed.

Lemma cascade_class_accounts_witness : exists h' fast slow,
  cascade_class demo_attempt libm_zero libm_zero libm_zero demo_record true (PDict [("fast", PFloat "0.5")]) demo_active "reentrancy" demo_cases [] = (h', Ok [fast; slow]) /\ (c_triggered fast.1, c_verified_k fast.1, c_n fast.1, c_transient_failures fast.1, cl_tokens fast.2) = (true, 1, 2%Z, 1, 400%Z) /\
  c_triggered slow.1 = false /\ cl_tokens slow.2 = 200%Z /\ c_interval slow.1 = None.
Proof.
  pose proof demo_run_out as E. unfold demo_out in E.
  eexists _, _, _. split; [exact E|]. split; [reflexivity|]. split; [reflexivity|]. split; [reflexivity|].
  assert (NoDup (map cand_id demo_active)) as Hids by (apply (bool_decide_unpack _); vm_compute; exact I).
  assert ((v ← pget demo_record "credible_level" (PFloat "0.95"); float_val v) = Ok (float_lit "0.95")) as Hlevel by (vm_compute; reflexivity).
  assert ((t ← pget demo_record "N_by_class" (PDict []); v ← pget t "reentrancy" (PInt 0); int_val v) = Ok 2%Z) as Hn by (vm_compute; reflexivity).
  destruct (cascade_class_accounts demo_attempt libm_zero libm_zero libm_zero demo_record true _ demo_active "reentrancy" demo_cases [] _ _ 2 (float_lit "0.95") Hids Hn Hlevel E) as (p1 & p2 & sv & _ & _ & _ & _ & Hall).
  apply Forall2_cons in Hall as [_ Hall]. apply Forall2_cons in Hall as [(_ & _ & _ & _ & Hst & _) _].
  destruct Hst as (_ & _ & _ & _ & _ & _ & _ & _ & _ & Hif). by destruct Hif as (_ & Hi & _).
Defined.

(** ** What a run is read as *)

(** An event of the finding's own tested attempt that shows the kill by the kernel *)
Definition shows_oom (fid : string) (ev : pyval) : Prop :=
  (exists owner, pget ev "finding_id" (PStr "") = Ok owner /\ lower (strip (py_str owner)) = fid) /\ pget ev "event" PNone = Ok (PStr "tested") /\
  exists code err out, pget ev "exit_code" PNone = Ok code /\ pget ev "stderr_tail" (PStr "") = Ok err /\ pget ev "stdout_tail" (PStr "") = Ok out /\
    looks_like_oom code [py_str err; py_str out] = Ok true.

Lemma own_event_infra s ev s' : own_event s ev = Ok s' -> sg_infra_cause s' = sg_infra_cause s \/ sg_infra_cause s = "" /\ sg_infra_cause s' = "oom".
Proof.
  unfold own_event. intros (etype & _ & H)%res_bind_Ok. case_bool_decide.
  - apply res_bind_Ok in H as (oom & Ho & [= <-]). destruct (truthy (sg_infra_cause s)) eqn:Ht; [injection Ho as <-; by left|].
    destruct oom; [right|by left]. unfold truthy in Ht. by destruct (sg_infra_cause s).
  - case_bool_decide; [|injection H as <-; by left].
    apply res_bind_Ok in H as (o & _ & (el & _ & (e & _ & [= <-])%res_bind_Ok)%res_bind_Ok). by left.
Qed.

Lemma fold_event_infra fid s ev s' : fold_event fid s ev = Ok s' -> sg_infra_cause s = "" \/ sg_infra_cause s = "oom" ->
  (sg_infra_cause s = "oom" -> sg_infra_cause s' = "oom") /\ (sg_infra_cause s' = "" \/ sg_infra_cause s' = "oom") /\
  (shows_oom fid ev -> sg_infra_cause s' = "oom").
Proof.
  unfold fold_event. intros (s1 & H1 & (owner & Howner & (s2 & H2 & (t & _ & [= <-])%res_bind_Ok)%res_bind_Ok)%res_bind_Ok)%res_bind_Ok Hs.
  cbn [set_tokens sg_infra_cause].
  assert (sg_infra_cause s1 = sg_infra_cause s) as Hi1.
  { destruct (truthy (sg_run_id s)); [by injection H1 as <-|]. by apply res_bind_Ok in H1 as (r & _ & [= <-]). }
  rewrite <- Hi1 in *. clear H1 Hi1. destruct (String.eqb_spec (lower (strip (py_str owner))) fid) as [Hown|Hown].
  - split_and!.
    + intros Ho. destruct (own_event_infra _ _ _ H2) as [->|[He _]]; [done|]. congruence.
    + destruct (own_event_infra _ _ _ H2) as [->|[_ ->]]; [done|by right].
    + intros (_ & Hev & code & err & out & Hc & He & Ho & Hoom). unfold own_event in H2. rewrite Hev in H2. cbn [mbind res_bind] in H2.
      rewrite bool_decide_true in H2 by done. destruct Hs as [Hs|Hs]; rewrite Hs in H2.
      * change (truthy "") with false in H2. cbn iota in H2. rewrite Hc, He, Ho in H2. cbn [mbind res_bind] in H2. rewrite Hoom in H2. by injection H2 as <-.
      * change (truthy "oom") with true in H2. injection H2 as <-. reflexivity.
  - injection H2 as <-. split_and!; [done..|]. intros ((o & Ho & Hf) & _). rewrite Howner in Ho. injection Ho as <-. done.
Qed.

Lemma fold_events_infra fid l : forall s s', fold_res (fold_event fid) s l = Ok s' -> sg_infra_cause s = "" \/ sg_infra_cause s = "oom" ->
  (sg_infra_cause s = "oom" -> sg_infra_cause s' = "oom") /\ (forall ev, ev ∈ l -> shows_oom fid ev -> sg_infra_cause s' = "oom").
Proof.
  induction l as [|ev l IH]; intros s s' H Hs; cbn [fold_res] in H; [injection H as <-; split; [done|by intros ? ?%not_elem_of_nil]|].
  apply res_bind_Ok in H as (s1 & H1 & H). destruct (fold_event_infra _ _ _ _ H1 Hs) as (Hkeep & Hs1 & Hoom). destruct (IH _ _ H Hs1) as [Hkeep' Hoom'].
  split; [intros Ho; by apply Hkeep', Hkeep|]. intros ev' [->|Hev]%elem_of_cons Hsh; [by apply Hkeep', Hoom|by eapply Hoom'].
Qed.

(** C9. A run never counts for more than it shows.  A verified answer triggered and a
    triggered one produced; a transient answer is none of them; and an answer is counted
    only when the finding's task finished with an outcome of the model's own and no
    kill by the kernel shows in any of its tested attempts, whatever outcome was logged. *)
Theorem run_signals_sound stdout fid s (Hs : parse_runner_events stdout fid = Ok s) :
  let r := signals_to_result s in
  (verified r = true -> triggered r = true) /\ (triggered r = true -> produced r = true) /\
  (transient r = true -> produced r = false /\ triggered r = false /\ verified r = false) /\
  (transient r = false -> sg_has_task_done s = true /\ sg_outcome s ∉ TRANSIENT_OUTCOMES) /\
  (forall ev, ev ∈ parse_events stdout -> shows_oom (lower (strip fid)) ev -> transient r = true /\ infra_cause r = "oom").
Proof.
  destruct (fold_events_infra _ _ _ _ Hs (or_introl eq_refl)) as [_ Hoom]. cbv zeta. unfold signals_to_result. split_and!.
  - repeat case_match; cbn; try done. intros ->%String.eqb_eq. reflexivity.
  - repeat case_match; cbn; try done. intros ->. by rewrite orb_true_r.
  - repeat case_match; cbn; done.
  - repeat case_match; cbn; try done. intros _. split; [by apply negb_false_iff|by eapply bool_decide_eq_false_1].
  - intros ev Hev Hsh. rewrite (Hoom ev Hev Hsh). done.
Qed.

(** A run that logged a verified pass after a kill *)
Definition killed_run : string :=
  dumps_line (PDict [("event", PStr "tested"); ("finding_id", PStr "F-1"); ("exit_code", PInt 137)]) +:+ nls
  +:+ dumps_line (PDict [("event", PStr "task_done"); ("finding_id", PStr "F-1"); ("outcome", PStr "passed_verified")]) +:+ nls.

Lemma run_signals_sound_witness : exists s, parse_runner_events killed_run " F-1" = Ok s /\ sg_outcome s = VERIFIED_OUTCOME /\
  transient (signals_to_result s) = true /\ triggered (signals_to_result s) = false.
Proof.
  destruct (parse_runner_events killed_run " F-1") as [s|e] eqn:E; [|exfalso; revert E; vm_compute; done].
  exists s. split; [reflexivity|]. split; [revert E; vm_compute; by intros [= <-]|].
  destruct (run_signals_sound _ _ _ E) as (_ & _ & Htr & _ & Hoom).
  assert (transient (signals_to_result s) = true) as Ht; [|split; [exact Ht|by apply Htr]].
  apply (Hoom (PDict [("event", PStr "tested"); ("finding_id", PStr "F-1"); ("exit_code", PInt 137)])).
  - apply (bool_decide_unpack _). vm_compute. exact I.
  - split; [|split; [reflexivity|]].
    + exists (PStr "F-1"). split; reflexivity.
    + exists (PInt 137), (PStr ""), (PStr ""). split_and!; reflexivity.
Defined.

(** ** The pre-registration file only grows, and reads back *)

Lemma sha256_hex_ascii s : is_ascii (sha256_hex s).
Proof.
  unfold is_ascii, sha256_hex. cbv zeta. rewrite String.list_ascii_of_string_of_list_ascii. apply Forall_concat, Forall_map, Forall_forall. intros w _.
  unfold hex_word. apply Forall_map, Forall_forall. intros k _. unfold hex_digit.
  assert (N.to_nat (N.shiftr w (4 * N.of_nat k) mod 16) < 16) as Hn by (pose proof (N.mod_lt (N.shiftr w (4 * N.of_nat k)) 16); lia).
  revert Hn. generalize (N.to_nat (N.shiftr w (4 * N.of_nat k) mod 16)). intros n Hn. do 16 (destruct n as [|n]; [reflexivity|]). lia.
Qed.

Lemma assoc_sorted k d : NoDup d.*1 -> dget (sort_keys (PDict d)) k = sort_keys <$> assoc k d.
Proof.
  intros Hnd. cbn [sort_keys dget]. assert ((map (fun kv => (kv.1, sort_keys kv.2)) d).*1 = d.*1) as Hk by (by rewrite <- list_fmap_compose).
  destruct (assoc k d) as [v|] eqn:Hv.
  - apply assoc_NoDup_elem.
    + rewrite py_sort_perm, Hk. done.
    + rewrite elem_of_py_sort. apply assoc_Some_elem in Hv. by apply (list_elem_of_fmap_2 (fun kv => (kv.1, sort_keys kv.2)) d (k, v)).
  - apply assoc_None. rewrite py_sort_perm, Hk. by apply assoc_None.
Qed.

Lemma frozen_dict d : frozen (PDict d) = Ok (PDict (map (fun k => (k, default PNone (assoc k d))) FROZEN_FIELDS)).
Proof. reflexivity. Qed.

(** The hash of the frozen fields survives the storing of the hash and the sorting *)
Lemma content_hash_stored d h : NoDup d.*1 -> content_hash (sort_keys (PDict (assoc_set "content_hash" h d))) = content_hash (PDict d).
Proof.
  intros Hnd. unfold content_hash. cbn [sort_keys]. rewrite !frozen_dict. cbn [mbind res_bind]. do 2 f_equal. unfold canonical_json. f_equal.
  cbn [sort_keys]. f_equal. f_equal. rewrite !map_map. apply map_ext_in. intros k Hk. cbn [fst snd]. f_equal.
  assert (k <> "content_hash") as Hne by (intros ->; cbn in Hk; repeat destruct Hk as [Hk|Hk]; try discriminate Hk; done).
  pose proof (assoc_sorted k (assoc_set "content_hash" h d) (NoDup_assoc_set _ _ _ Hnd)) as Ha. cbn [sort_keys dget] in Ha. rewrite Ha.
  rewrite assoc_set_ne by done. destruct (assoc k d) as [v|]; [apply sort_keys_idem|done].
Qed.

Section prereg.
Context (fs : FileSystem) (expanduser : path -> res path) (agent_root : path) (decode_message : string -> string).

Lemma load_lines_snoc p i lines recs line rec : load_lines decode_message p i lines = Ok recs ->
  (forall i, load_line decode_message p i line = Ok (Some rec)) -> load_lines decode_message p i (lines ++ [line]) = Ok (recs ++ [rec]).
Proof.
  intros Hl Hline. revert i recs Hl. induction lines as [|x lines IH]; intros i recs Hl; cbn [load_lines app] in *.
  - injection Hl as <-. by rewrite Hline.
  - apply res_bind_Ok in Hl as (o & Ho & (rs & Hrs & [= <-])%res_bind_Ok). rewrite Ho. cbn [mbind res_bind]. rewrite (IH _ _ Hrs). by destruct o.
Qed.

(** A pre-registration is appended, never rewritten, and reads back frozen.  When the
    file loads as [recs], writing a record leaves every other file and every earlier entry
    as they are and the file loads as [recs] and one more entry: the record's own fields
    in sorted order, with the hash of its frozen fields as a stored field, which is the
    hash the loader recomputes. *)
Theorem prereg_appends p q d h recs files
  (Hp : external fs expanduser agent_root p = Ok q) (Hd : plain (PDict d)) (Hh : content_hash (PDict d) = Ok h)
  (Hold : match files !! q with
          | None => recs = []
          | Some text => (text = "" \/ ends_with nls text = true) /\ load_lines decode_message q 0 (splitlines text) = Ok recs
          end) :
  exists files' entry, write_prereg fs expanduser agent_root p (PDict d) files = (files', Ok q) /\
    load_prereg fs expanduser agent_root decode_message p files' = (files', Ok (recs ++ [entry])) /\
    content_hash entry = Ok h /\ dget entry "content_hash" = Some (PStr h) /\
    (forall k, k <> "content_hash" -> dget entry k = sort_keys <$> assoc k d) /\
    (forall r, r <> q -> files' !! r = files !! r) /\ exists text line, files' !! q = Some (default "" (files !! q) +:+ line) /\ files' !! q = Some (text +:+ nls).
Proof.
  inversion Hd as [| | | | | |d' Hplain Hnd Heq]. subst d'. set (d1 := assoc_set "content_hash" (PStr h) d). set (entry := sort_keys (PDict d1)).
  assert (plain (PDict d1)) as Hd1.
  { constructor; [|by apply NoDup_assoc_set]. apply Forall_assoc_set; [|done]. split; [by repeat constructor|].
    unfold content_hash in Hh. apply res_bind_Ok in Hh as (f & _ & [= <-]). constructor. apply sha256_hex_ascii. }
  assert (plain entry) as Hentry by (by apply plain_sort_keys).
  assert (content_hash entry = Ok h) as Hhash by (unfold entry, d1; by rewrite content_hash_stored).
  assert (forall k, dget entry k = sort_keys <$> assoc k d1) as Hget by (intros k; apply assoc_sorted; by apply NoDup_assoc_set).
  assert (dget entry "content_hash" = Some (PStr h)) as Hst by (rewrite Hget; unfold d1; by rewrite assoc_set_eq).
  assert (forall i, load_line decode_message q i (dumps_line entry) = Ok (Some entry)) as Hline.
  { intros i. unfold load_line. assert (strip (dumps_line entry) = dumps_line entry) as -> by (unfold entry; cbn [sort_keys]; apply strip_dumps_dict).
    assert (truthy (dumps_line entry) = true) as Ht.
    { pose proof (loads_dumps_line _ Hentry) as Hl. destruct (dumps_line entry); [|done]. by vm_compute in Hl. }
    rewrite Ht. cbn [negb]. rewrite loads_dumps_line by done. cbn [mbind res_bind]. rewrite Hhash. cbn [mbind res_bind].
    assert (pget entry "content_hash" PNone = Ok (PStr h)) as -> by (unfold entry in *; cbn [sort_keys dget pget] in *; by rewrite Hst).
    cbn [mbind res_bind]. by rewrite bool_decide_true. }
  eexists _, entry. split; [|split; [|split_and!]].
  - unfold write_prereg, st_lift, st_modify, mbind, st_bind. rewrite Hp. unfold prereg_line. rewrite Hh. cbn [mbind res_bind setitem]. reflexivity.
  - unfold load_prereg, st_lift, st_gets, mbind, st_bind. rewrite Hp. cbv iota beta. rewrite lookup_insert_eq. cbv iota. f_equal.
    destruct (files !! q) as [text|]; cbn [default].
    + destruct Hold as [Hnl Hload]. rewrite splitlines_dumps by done. by apply load_lines_snoc.
    + subst recs. rewrite splitlines_dumps by (done || by left). by apply (load_lines_snoc q 0 [] []).
  - exact Hhash.
  - exact Hst.
  - intros k Hk. rewrite Hget. unfold d1. by rewrite assoc_set_ne.
  - intros r Hr. by rewrite lookup_insert_ne.
  - rewrite lookup_insert_eq. eexists _, _. split; [reflexivity|]. f_equal. symmetry. apply sapp_assoc.
Qed.
End prereg.

(** A second record appended to a file that holds one *)
Definition plain_fs : FileSystem := {|
  fs_resolve := fun p => p; fs_resolve_error := fun _ => None; fs_exists := fun _ => true; fs_is_file := fun _ => true; fs_is_dir := fun _ => false;
  fs_read := fun _ => Ok ""; fs_rglob := fun _ => []; fs_rglob_sol := fun _ => [] |}.
Definition demo_prereg (bench : string) : list (string * pyval) := [("ts", PStr "t"); ("pinned_bench_id", PStr bench); ("class_enum", PList [PStr "reentrancy"])].
Definition demo_path : path := ["/"; "t"; "r.jsonl"].
Definition demo_text : string := Eval vm_compute in match prereg_line (PDict (demo_prereg "b1")) with Ok l => l | Raise _ => "" end.
Definition demo_entry : list pyval := Eval vm_compute in match load_lines (fun _ => "") demo_path 0 (splitlines demo_text) with Ok l => l | Raise _ => [] end.
Definition demo_hash : string := Eval vm_compute in match content_hash (PDict (demo_prereg "b2")) with Ok h => h | Raise _ => "" end.

Lemma prereg_appends_witness : exists files' e1 e2,
  write_prereg plain_fs Ok ["/"; "agent"] demo_path (PDict (demo_prereg "b2")) {[demo_path := demo_text]} = (files', Ok demo_path) /\
  load_prereg plain_fs Ok ["/"; "agent"] (fun _ => "") demo_path files' = (files', Ok [e1; e2]) /\ dget e2 "pinned_bench_id" = Some (PStr "b2").
Proof.
  assert (load_lines (fun _ => "") demo_path 0 (splitlines demo_text) = Ok demo_entry) as Hload by (vm_compute; reflexivity).
  assert (content_hash (PDict (demo_prereg "b2")) = Ok demo_hash) as Hh by (vm_compute; reflexivity).
  assert (ends_with nls demo_text = true) as Hnl by (vm_compute; reflexivity).
  assert (plain (PDict (demo_prereg "b2"))) as Hd.
  { constructor; [repeat (apply Forall_cons; split; [split; [by repeat constructor|repeat constructor]|]); by apply Forall_nil|].
    apply (bool_decide_unpack _). vm_compute. exact I. }
  destruct (prereg_appends plain_fs Ok ["/"; "agent"] (fun _ => "") demo_path demo_path (demo_prereg "b2") demo_hash demo_entry {[demo_path := demo_text]}
    eq_refl Hd Hh) as (files' & e2 & Hw & Hl & _ & _ & Hf & _).
  - rewrite lookup_singleton_eq. split; [by right|exact Hload].
  - unfold demo_entry in Hl. exists files'. eexists. exists e2. split; [exact Hw|]. split; [exact Hl|]. rewrite Hf by discriminate. reflexivity.
Defined.
