(* ===== verification/RunnerBase.v ===== *)
(** * The PoC queue runner: events, causes and clients (scripts/poc_queue_runner.py)

    The attribution of log events, the fields that close a unit of work, the causes of
    outcomes, the insufficiency ladder, retries of model calls, the choice of client and
    protocol, and prompts.  A run's state is its log and the rest of the world; the model,
    git, the clock and the tracer are parameters. *)

From S2P Require Import Prelude PyStr PyPath PyVal PyNum PyFloat PyJson PyFormat SolIndex Causes.

Definition MODEL_ERRORS : list string := ["ModelUnavailableError"; "GeminiUnavailable"; "OpenRouterUnavailable"].
Definition is_model_error (e : exn) : bool := bool_decide (exn_class e ∈ MODEL_ERRORS).
Definition MODEL : string := "qwen2.5-coder:7b".
Definition HOSTED_TIMEOUT_S : pyfloat := float_lit "600.0".
Definition RUN_TIMEOUT_S : pyfloat := float_lit "600.0".
Definition GEN_RETRY_ATTEMPTS : nat := 2.
Definition NUM_CTX : Z := 32768.
Definition EXTRACT_PREDICT : Z := 6000.
Definition POC_PREDICT : Z := 16000.

(** ** Events *)

(** The keys and values of a dictionary display, a later pair replacing an earlier one *)
Definition merge (base entry : list (string * pyval)) : list (string * pyval) := foldl (fun d kv => assoc_set kv.1 kv.2 d) base entry.

Definition stamp (now : pyfloat) (run_id model code_version : string) (entry : list (string * pyval)) : list (string * pyval) :=
  let base := [("ts", PFloat (float_repr (float_round 3 now)))]
    ++ (if truthy run_id then [("run_id", PStr run_id)] else [])
    ++ (if truthy model then [("model", PStr model)] else [])
    ++ (if truthy code_version then [("code_version", PStr code_version)] else []) in
  merge base entry.

Definition code_version (git : list string -> res string) : string :=
  catch_all (sha ← git ["rev-parse"; "--short"; "HEAD"];
             if negb (truthy (strip sha)) then Ok "unknown"
             else dirty ← git ["status"; "--porcelain"]; Ok (strip sha +:+ (if truthy (strip dirty) then "-dirty" else "")))
    (fun _ => "unknown").

Definition terminal_fields (level cause : string) (attempt_seq : option Z) (stderr_signature : string) : list (string * pyval) :=
  [("terminal", PBool true); ("level", PStr level); ("cause", PStr cause)]
  ++ match attempt_seq with Some n => [("attempt_seq", PInt n)] | None => [] end
  ++ (if is_ok cause then [("ok", PBool true)]
      else match cause_nature cause with Some nature => [("nature", PStr nature)] | None => [] end)
  ++ (if truthy stderr_signature then [("stderr_signature", PStr stderr_signature)] else []).

Definition OUTCOME_TO_CAUSE : list (string * string) :=
  [("passed_verified", "proved"); ("compiled", "not_triggered"); ("unverified_pass", "not_triggered"); ("passed_unchecked", "not_triggered");
   ("reverted_exhausted", "not_triggered"); ("vacuous_pass", "model"); ("compile_only_defective", "model"); ("exhausted", "model");
   ("draft_failed", "model"); ("fix_failed", "model"); ("base-insufficient", "base-insufficient"); ("lookup_failed", "lookup_failed");
   ("sandbox_unavailable", "unclassified"); ("run_error", "unclassified")].

Definition finding_cause (outcome : string) : string := default "unclassified" (assoc outcome OUTCOME_TO_CAUSE).

(** ** The state of a run *)

(** The log is a list of entries, and the lines appended for them to the files of the log
    follow from it (below) *)
Record Run (W : Type) := mkRun {
  r_log : list (list (string * pyval));
  r_world : W;
}.
Arguments mkRun {W} _ _.
Arguments r_log {W} _.
Arguments r_world {W} _.

(** The two files of the log: the run's own, and one for all runs that mirrors it *)
Definition run_log_file (poc_dir : path) (run_id : string) : path := path_join (poc_dir ++ ["_runs"]) (to_path (run_id +:+ ".jsonl")).
Definition log_file (poc_dir : path) : path := poc_dir ++ ["_runner_progress.jsonl"].

(** The line appended to both for an entry logged at a time *)
Definition log_line (now : pyfloat) (run_id model code_version : string) (entry : list (string * pyval)) : string :=
  dumps_line (PDict (stamp now run_id model code_version entry)) +:+ nls.

Section run.
Context {W : Type}.

(** Logging an entry appends its line to both files; appending does not fail *)
Definition log (entry : list (string * pyval)) : ST (Run W) unit := st_modify (fun r => mkRun (r_log r ++ [entry]) (r_world r)).

(** The text a run has appended to each of the two files, [clock i] being the time at which
    the [i]-th entry was logged *)
Definition log_text (clock : nat -> pyfloat) (run_id model code_version : string) (r : Run W) : string :=
  foldl (fun text ie => text +:+ log_line (clock ie.1) run_id model code_version ie.2) "" (imap pair (r_log r)).

(** What changes the world and not the log *)
Definition outside {A} (m : ST W A) : ST (Run W) A := fun r => let '(w, x) := m (r_world r) in (mkRun (r_log r) w, x).

(** ** The ladder of a base that is not enough *)

Definition ladder_event (fid name : string) (matches : list Symbol) : list (string * pyval) :=
  [("event", PStr "lookup"); ("finding_id", PStr fid); ("attempt", PInt 0); ("symbol", PStr name);
   ("resolved", PBool (0 <? length matches)); ("match_count", PInt (Z.of_nat (length matches))); ("stage", PStr "insufficiency_ladder")].

Definition insufficiency_ladder_outcome (symbol_index : option SymbolIndex) (lookup_budget : Z) (missing_types : list string) (fid : string) :
  ST (Run W) string :=
  match symbol_index with
  | None => mret "base-insufficient"
  | Some ix =>
      if (lookup_budget <=? 0)%Z then mret "base-insufficient"
      else
        _ ← map_st (fun name => log (ladder_event fid name (lookup ix name))) missing_types;
        mret "lookup_failed"
  end.

Definition skip_event (fid : string) : list (string * pyval) :=
  merge [("event", PStr "not_attempted"); ("finding_id", PStr fid)] (terminal_fields "finding_attempt" "not_attempted:budget" None "").

Definition emit_budget_skips (remaining : list string) : ST (Run W) unit := _ ← map_st (fun fid => log (skip_event fid)) remaining; mret tt.

(** ** Retries *)

Definition retry_event (fid stage : string) (attempt : nat) (e : exn) : list (string * pyval) :=
  [("event", PStr "model_retry"); ("finding_id", PStr fid); ("stage", PStr stage); ("attempt", PInt (Z.of_nat attempt));
   ("error", PStr (utake 150 (exn_msg e)))].

(** The attempts from [attempt] on, of which [left] remain; [None] when there is none *)
Fixpoint retry_from {A} (fn : ST (Run W) A) (stage fid : string) (attempt left : nat) : ST (Run W) (option A) :=
  match left with
  | 0 => mret None
  | S left' => fun r =>
      match fn r with
      | (r', Ok a) => (r', Ok (Some a))
      | (r', Raise e) =>
          if is_model_error e && negb (left' =? 0)
          then (_ ← log (retry_event fid stage attempt e); retry_from fn stage fid (S attempt) left') r'
          else (r', Raise e)
      end
  end.

Definition call_with_retry {A} (fn : ST (Run W) A) (stage fid : string) (attempts : option nat) : ST (Run W) (option A) :=
  retry_from fn stage fid 1 (default GEN_RETRY_ATTEMPTS attempts).
End run.

(** ** Clients and protocols *)

Inductive GenClient :=
  | OpenRouter (api_key model : string) (timeout_s : pyfloat)
  | Gemini (api_key model : string)
  | Local (model host : string) (timeout_s : pyfloat).

Definition build_generation_client (environ : string -> option string) (openrouter_default gemini_default : string)
  (provider model host : string) (timeout : pyfloat) : GenClient :=
  if String.eqb provider "openrouter" then
    OpenRouter (default "" (environ "OPENROUTER_API_KEY")) (if truthy model then model else openrouter_default)
      (if float_ltb HOSTED_TIMEOUT_S timeout then HOSTED_TIMEOUT_S else timeout)
  else if String.eqb provider "gemini" then Gemini (default "" (environ "GEMINI_API_KEY")) (if truthy model then model else gemini_default)
  else Local (if truthy model then model else MODEL) host timeout.

Definition resolve_lookup_protocol (provider requested : string) : res string :=
  if String.eqb provider "local" then Ok requested
  else if String.eqb requested "tool" then
    Raise (Exn "ProviderStartupError" ("provider '" +:+ provider +:+ "' has no tool-calling - use --lookup-protocol marker"))
  else Ok "marker".

Definition api_key_of (c : GenClient) : string :=
  match c with OpenRouter key _ _ => key | Gemini key _ => key | Local _ _ _ => "" end.

(** [ready] is asked only of a client that has a key *)
Definition hosted_ready_error (provider : string) (client : GenClient) (ready : GenClient -> bool) : option string :=
  if negb (truthy (api_key_of client)) then
    let env := if String.eqb provider "openrouter" then "OPENROUTER_API_KEY" else "GEMINI_API_KEY" in
    Some ("no " +:+ env +:+ " configured for provider '" +:+ provider +:+ "'")
  else if negb (ready client) then Some "Gemini selected but google-genai is not installed - pip install '.[gemini]'"
  else None.

Inductive startup (A : Type) :=
  | Started (a : A)
  | Exit (code : Z) (message : string).
Arguments Started {A} _.
Arguments Exit {A} _ _.

Definition model_of (c : GenClient) : string := match c with OpenRouter _ m _ => m | Gemini _ m => m | Local m _ _ => m end.

(** The mode and whether it was detected or forced *)
Definition select_protocol (requested : string) (client : GenClient) (supports_tools : GenClient -> bool) : startup (string * string) :=
  if String.eqb requested "marker" then Started ("marker", "forced")
  else
    let capable := supports_tools client in
    if String.eqb requested "tool" then
      if negb capable then
        Exit 2 ("--lookup-protocol tool requires " +:+ model_of client
                +:+ " to report tool-calling support (checked via /api/tags capabilities); this model does not.")
      else Started ("tool", "forced")
    else Started (if capable then ("tool", "detected") else ("marker", "detected")).

(** ** Prompts *)

(** The text of a prompt and its provenance: its name and the version used *)
Definition resolve_prompt (get_prompt_versioned : string -> string -> string * pyval) (prompt_name fallback : string) (args : list (string * string)) :
  res (string * (string * pyval)) :=
  let '(template, version) := get_prompt_versioned prompt_name fallback in
  let format t := match args with [] => Ok t | _ => py_format t args end in
  match format template with
  | Ok text => Ok (text, (prompt_name, version))
  | Raise e =>
      if bool_decide (exn_class e ∈ ["KeyError"; "IndexError"]) then text ← format fallback; Ok (text, (prompt_name, PNone)) else Raise e
  end.

Definition ident (finding_id : string) : string := smap (fun c => if is_alnum c then c else "_"%char) finding_id.

(** ** Lemmas *)

(** Logging appends one line to the files of the log and changes nothing else of them *)
Lemma log_appends {W} clock run_id model cv entry (r : Run W) :
  log_text clock run_id model cv (log entry r).1 = log_text clock run_id model cv r +:+ log_line (clock (length (r_log r))) run_id model cv entry.
Proof. unfold log_text. cbn [log st_modify fst r_log]. rewrite imap_app, foldl_app. cbn [imap foldl fst snd]. unfold compose. by rewrite Nat.add_0_r. Qed.

Lemma assoc_merge k base entry : NoDup entry.*1 -> assoc k (merge base entry) = match assoc k entry with Some v => Some v | None => assoc k base end.
Proof.
  unfold merge. revert base. induction entry as [|[k' v] entry IH]; intros base Hnd; [done|]. cbn [foldl fst snd].
  apply NoDup_cons in Hnd as [Hk Hnd]. cbn [fst] in Hk. rewrite IH by done. cbn [assoc]. destruct (decide (k = k')) as [->|Hne].
  - rewrite (proj2 (assoc_None k' entry)) by done. apply assoc_set_eq.
  - destruct (assoc k entry); [done|]. by rewrite assoc_set_ne.
Qed.

Lemma terminal_fields_keys level cause seq sig : NoDup (terminal_fields level cause seq sig).*1.
Proof.
  unfold terminal_fields. destruct seq, (is_ok cause), (cause_nature cause), (truthy sig); cbn [app fmap list_fmap fst];
    apply (bool_decide_unpack _); vm_compute; exact I.
Qed.

(** The fields that close a unit of work *)
Record closes (level cause : string) (fields : list (string * pyval)) : Prop := {
  closes_terminal : assoc "terminal" fields = Some (PBool true);
  closes_level : assoc "level" fields = Some (PStr level);
  closes_cause : assoc "cause" fields = Some (PStr cause);
}.

Lemma terminal_fields_close level cause seq sig : closes level cause (terminal_fields level cause seq sig).
Proof. by split. Qed.

Lemma merge_closes level cause base seq sig : closes level cause (merge base (terminal_fields level cause seq sig)).
Proof. split; rewrite assoc_merge by apply terminal_fields_keys; reflexivity. Qed.

Lemma assoc_app {K V} `{EqDecision K} (k : K) (l l' : list (K * V)) : assoc k (l ++ l') = match assoc k l with Some v => Some v | None => assoc k l' end.
Proof. induction l as [|[k' v] l IH]; [done|]. cbn [app assoc]. by destruct (decide (k = k')). Qed.

Lemma closes_app level cause e more : closes level cause e -> closes level cause (e ++ more).
Proof. intros [Ht Hl Hc]. by split; rewrite assoc_app, ?Ht, ?Hl, ?Hc. Qed.

Lemma merge_field base level cause seq sig k : k ∉ ["terminal"; "level"; "cause"; "attempt_seq"; "ok"; "nature"; "stderr_signature"] ->
  assoc k (merge base (terminal_fields level cause seq sig)) = assoc k base.
Proof.
  intros Hk. rewrite assoc_merge by apply terminal_fields_keys. assert (assoc k (terminal_fields level cause seq sig) = None) as ->; [|done].
  apply assoc_None. intros Hin. apply Hk. unfold terminal_fields in Hin.
  destruct seq, (is_ok cause), (cause_nature cause), (truthy sig); cbn [app fmap list_fmap fst] in Hin; set_solver.
Qed.

Lemma finding_cause_closed outcome : finding_cause outcome ∈ FINDING_CAUSES.
Proof.
  unfold finding_cause. destruct (assoc outcome OUTCOME_TO_CAUSE) as [c|] eqn:Hc; cbn [default]; [|apply (bool_decide_unpack _); vm_compute; exact I].
  apply assoc_Some_elem in Hc.
  assert (Forall (fun oc : string * string => oc.2 ∈ FINDING_CAUSES) OUTCOME_TO_CAUSE) as Hall by (apply (bool_decide_unpack _); vm_compute; exact I).
  rewrite Forall_forall in Hall. exact (Hall _ Hc).
Qed.

(** A closing event of an attributed run is placed by the taxonomy under its own cause *)
Lemma stamped_closing_placed now run_id model cv entry cause fid : truthy run_id = true -> truthy model = true ->
  NoDup entry.*1 -> assoc "run_id" entry = None -> assoc "model" entry = None -> assoc "finding_id" entry = Some (PStr fid) ->
  closes "finding_attempt" cause entry -> cause ∈ FINDING_CAUSES ->
  finding_of (PDict (stamp now run_id model cv entry)) = Some ((PStr run_id, PStr fid), cause).
Proof.
  intros Hr Hm Hnd Hnr Hnm Hf [Ht Hl Hc] Hin. unfold finding_of, attempt, is_terminal, unplaced, key_of, field, dget, stamp.
  rewrite !assoc_merge, Hnr, Hnm, Ht, Hl, Hc, Hf, Hr, Hm by done.
  assert (assoc "run_id" ([("ts", PFloat (float_repr (float_round 3 now)))] ++ [("run_id", PStr run_id)] ++ [("model", PStr model)] ++
    (if truthy cv then [("code_version", PStr cv)] else [])) = Some (PStr run_id)) as -> by done.
  assert (assoc "model" ([("ts", PFloat (float_repr (float_round 3 now)))] ++ [("run_id", PStr run_id)] ++ [("model", PStr model)] ++
    (if truthy cv then [("code_version", PStr cv)] else [])) = Some (PStr model)) as -> by done.
  cbn [default id]. change (truthy_val (PStr run_id)) with (truthy run_id). change (truthy_val (PStr model)) with (truthy model).
  rewrite Hr, Hm. cbn [negb orb andb truthy_val]. rewrite bool_decide_true by done. cbn [closed]. by rewrite bool_decide_true.
Qed.

(** *** What is logged *)

Abbreviation entry := (list (string * pyval)).

(** However it ends, [m] logs only entries that satisfy [P] *)
Definition only {W A} (P : entry -> Prop) (m : ST (Run W) A) : Prop :=
  forall r r' x, m r = (r', x) -> exists l, r_log r' = r_log r ++ l /\ Forall P l.

(** When it returns, the last thing [m] logs is related by [T] to what it returns, and the
    rest satisfies [P] *)
Definition last_entry {W A} (P : entry -> Prop) (T : A -> entry -> Prop) (m : ST (Run W) A) : Prop :=
  forall r r' a, m r = (r', Ok a) -> exists l e, r_log r' = r_log r ++ l ++ [e] /\ Forall P l /\ T a e.

Lemma only_silent {W A} P (m : ST (Run W) A) : (forall r, r_log (m r).1 = r_log r) -> only P m.
Proof. intros Hm r r' x Hr. exists []. rewrite app_nil_r. split; [|done]. by rewrite <- (Hm r), Hr. Qed.

Lemma only_log {W} (P : entry -> Prop) e : P e -> only P (log (W := W) e).
Proof. intros He r r' x [= <- <-]. exists [e]. split; [done|by constructor]. Qed.

Lemma only_ret {W A} P (a : A) : only (W := W) P (mret a).
Proof. by apply only_silent. Qed.
Lemma only_lift {W A} P (m : res A) : only (W := W) P (st_lift m).
Proof. by apply only_silent. Qed.
Lemma only_gets {W A} P (f : Run W -> A) : only P (st_gets f).
Proof. by apply only_silent. Qed.
Lemma only_outside {W A} P (m : ST W A) : only P (outside m).
Proof. apply only_silent. intros r. unfold outside. by destruct (m (r_world r)). Qed.

Lemma only_bind {W A B} P (m : ST (Run W) A) (f : A -> ST (Run W) B) : only P m -> (forall a, only P (f a)) -> only P (a ← m; f a).
Proof.
  intros Hm Hf r r' x Hr. apply st_bind_inv in Hr as [(r1 & a & Hr1 & Hr2)|(e & Hr1 & ->)]; [|by eapply Hm].
  destruct (Hm _ _ _ Hr1) as (l & Hl & HP), (Hf _ _ _ _ Hr2) as (l' & Hl' & HP'). exists (l ++ l'). rewrite Hl', Hl, app_assoc.
  split; [done|by apply Forall_app].
Qed.

Lemma only_map {W A B} P (f : A -> ST (Run W) B) l : (forall a, a ∈ l -> only P (f a)) -> only P (map_st f l).
Proof.
  induction l as [|a l IH]; intros Hf; cbn [map_st]; [apply only_ret|]. apply only_bind; [apply Hf; by left|]. intros b.
  apply only_bind; [apply IH; intros; apply Hf; by right|]. intros bs. apply only_ret.
Qed.

Lemma only_finally {W A} P (m : ST (Run W) A) f : only P m -> only P f -> only P (finally m f).
Proof.
  intros Hm Hf r r' x Hr. unfold finally in Hr. destruct (m r) as [r1 y] eqn:E1, (f r1) as [r2 z] eqn:E2. injection Hr as <- <-.
  destruct (Hm _ _ _ E1) as (l & Hl & HP), (Hf _ _ _ E2) as (l' & Hl' & HP'). exists (l ++ l'). rewrite Hl', Hl, app_assoc.
  split; [done|by apply Forall_app].
Qed.

Lemma only_weaken {W A} (P Q : entry -> Prop) (m : ST (Run W) A) : (forall e, P e -> Q e) -> only P m -> only Q m.
Proof. intros HPQ Hm r r' x Hr. destruct (Hm _ _ _ Hr) as (l & Hl & HP). exists l. split; [done|by eapply Forall_impl]. Qed.

Lemma only_retry {W A} (P : entry -> Prop) (fn : ST (Run W) A) stage fid n : only P fn -> (forall i e, P (retry_event fid stage i e)) ->
  only P (call_with_retry fn stage fid n).
Proof.
  intros Hfn HP. unfold call_with_retry. generalize 1 (default GEN_RETRY_ATTEMPTS n). intros i left. revert i. induction left as [|left IH]; intros i; [apply only_ret|].
  intros r r' x Hr. cbn [retry_from] in Hr. destruct (fn r) as [r1 [a|e]] eqn:E; pose proof (Hfn _ _ _ E) as (l & Hl & Hall).
  - injection Hr as <- <-. by exists l.
  - destruct (is_model_error e && negb (left =? 0)); [|injection Hr as <- <-; by exists l]. unfold mbind, st_bind, log, st_modify in Hr.
    apply IH in Hr as (l' & Hl' & Hall'). cbn [r_log] in Hl'. exists (l ++ [retry_event fid stage i e] ++ l'). rewrite Hl', Hl, <- !app_assoc.
    split; [done|]. apply Forall_app. split; [done|]. constructor; [apply HP|done].
Qed.

Lemma last_log {W A} P (T : A -> entry -> Prop) e (a : A) : T a e -> last_entry P T (_ ← log (W := W) e; mret a).
Proof. intros HT r r' x [= <- <-]. exists [], e. done. Qed.

Lemma last_bind {W A B} P T (m : ST (Run W) A) (f : A -> ST (Run W) B) : only P m -> (forall a, last_entry P T (f a)) ->
  last_entry P T (a ← m; f a).
Proof.
  intros Hm Hf r r' x Hr. apply st_bind_inv in Hr as [(r1 & a & Hr1 & Hr2)|(e & _ & ?)]; [|done].
  destruct (Hm _ _ _ Hr1) as (l & Hl & HP), (Hf _ _ _ _ Hr2) as (l' & e & Hl' & HP' & HT). exists (l ++ l'), e. rewrite Hl', Hl, <- !app_assoc.
  split_and!; [done|by apply Forall_app|done].
Qed.

(** What follows the last entry logs nothing *)
Lemma last_silent {W A B} P T U (m : ST (Run W) A) (f : A -> ST (Run W) B) : last_entry P T m ->
  (forall a r r' b, f a r = (r', Ok b) -> r_log r' = r_log r /\ forall e, T a e -> U b e) -> last_entry P U (a ← m; f a).
Proof.
  intros Hm Hf r r' x Hr. apply st_bind_inv in Hr as [(r1 & a & Hr1 & Hr2)|(e & _ & ?)]; [|done].
  destruct (Hm _ _ _ Hr1) as (l & e & Hl & HP & HT), (Hf _ _ _ _ Hr2) as [Hlog HU]. exists l, e. rewrite Hlog. auto.
Qed.

(** *** Retries *)

(** Calls from [w] that failed with model errors [errs], up to the world [w'] *)
Inductive fails {W A} (fn : ST W A) : W -> list exn -> W -> Prop :=
| fails_nil w : fails fn w [] w
| fails_cons w w1 w' e errs : fn w = (w1, Raise e) -> is_model_error e = true -> fails fn w1 errs w' -> fails fn w (e :: errs) w'.

(** A model call is tried at least once and at most [n] times; each failed try but the
    last is a model error and is logged, in order; the result is that of the last try,
    and a model error only when no try was left *)
Lemma call_with_retry_outcomes {W A} (fn : ST W A) stage fid n r r' out : 0 < n ->
  call_with_retry (outside fn) stage fid (Some n) r = (r', out) ->
  exists errs w x, fails fn (r_world r) errs w /\ length errs < n /\ fn w = (r_world r', x) /\
    r_log r' = r_log r ++ imap (fun i e => retry_event fid stage (S i) e) errs /\
    match x with
    | Ok a => out = Ok (Some a)
    | Raise e => out = Raise e /\ (is_model_error e = true -> S (length errs) = n)
    end.
Proof.
  intros Hn. unfold call_with_retry. cbn [default].
  enough (forall left attempt r, 0 < left -> retry_from (outside fn) stage fid attempt left r = (r', out) ->
    exists errs w x, fails fn (r_world r) errs w /\ length errs < left /\ fn w = (r_world r', x) /\
      r_log r' = r_log r ++ imap (fun i e => retry_event fid stage (attempt + i) e) errs /\
      match x with Ok a => out = Ok (Some a) | Raise e => out = Raise e /\ (is_model_error e = true -> S (length errs) = left) end) as H.
  { intros Hr. destruct (H n 1 r Hn Hr) as (errs & w & x & ? & ? & ? & ? & ?). by exists errs, w, x. }
  clear Hn. induction left as [|left IH]; intros attempt r0 Hl Hr; [lia|]. cbn [retry_from] in Hr. unfold outside at 1 in Hr.
  destruct (fn (r_world r0)) as [w1 [a|e]] eqn:Hf.
  - injection Hr as <- <-. exists [], (r_world r0), (Ok a). cbn. rewrite app_nil_r. split_and!; [constructor|lia|done|done|done].
  - destruct (is_model_error e) eqn:He; [destruct (Nat.eqb_spec left 0) as [->|Hne]|]; cbn [andb negb] in Hr.
    + injection Hr as <- <-. exists [], (r_world r0), (Raise e). cbn. rewrite app_nil_r. split_and!; [constructor|lia|done..].
    + unfold mbind, st_bind, log, st_modify in Hr. cbn [r_log r_world] in Hr.
      apply IH in Hr as (errs & w & x & Hfs & Hlen & Hfw & Hlog & Hx); [|lia]. cbn [r_log r_world] in *.
      exists (e :: errs), w, x. cbn [length imap]. split_and!; [by econstructor|lia|done| |].
      * rewrite Hlog, <- app_assoc, Nat.add_0_r. cbn [app]. do 2 f_equal. apply imap_ext. intros i y _. unfold compose. f_equal. lia.
      * destruct x as [a|e0]; [done|]. destruct Hx as [? Hx]. split; [done|]. intros Hm. specialize (Hx Hm). lia.
    + injection Hr as <- <-. exists [], (r_world r0), (Raise e). cbn. rewrite app_nil_r. split_and!; [constructor|lia|done|done|done|congruence].
Qed.

(** A step at a time through what logs only some entries *)
Ltac only_step :=
  first [ apply only_bind; [|intros ?] | apply only_log | apply only_ret | apply only_lift | apply only_gets | apply only_outside
        | apply only_map; intros ? ? | apply only_finally | apply only_retry; [|intros ? ?] ].
