(* ===== verification/RunnerFix.v ===== *)
(** * The PoC queue runner: tasks and their fixes (scripts/poc_queue_runner.py)

    Task lists from the model or a file, the report's own fix of a finding, the operator's
    patches, and the check of a passing PoC against the fixed source on a throwaway copy.
    The world is the history of what was done outside; the disk, the subprocesses and the
    sandbox answer as functions of that history. *)

From S2P Require Import Prelude PyStr PyRe PyPath PyVal PyNum PyFloat PyJson StaticAnalysis WriteExecute SolUtils Patch RunnerBase.

(** ** The report's fix of a finding *)

(** [^\[\d+\]\s*\*\*\d+\.\s*(.+?)\*\*\s*$], multiline *)
Definition FINDING_HEADING_RE : re :=
  RAll [RBol true; RStr "["; RSome RDigit; RStr "]"; RMany RSpace; RStr "**"; RSome RDigit; RStr "."; RMany RSpace;
        RGroup 1 (RSomeLazy RDot); RStr "**"; RMany RSpace; REol true].
Definition DIFF_BLOCK_RE : re := RAll [RStr ("```diff" +:+ nls); RGroup 1 (RManyLazy RDotAll); RStr "```"].
Definition WORD_RE : re := RSeq (RSet (fun c => is_alpha c || Ascii.eqb c "_")) (RSome RWord).

Definition title_tokens (text : string) : gset string :=
  list_to_set (map lower (List.filter (fun w => 4 <=? ulen w) (re_findall0 WORD_RE text))).

(** In how many headings each token occurs *)
Definition document_frequency (htoks : list (gset string)) : gmap string nat :=
  foldl (fun df hs => set_fold (fun t df => <[t := S (default 0 (df !! t))]> df) df hs) ∅ htoks.

Record best := mkBest { best_i : option nat; best_score : pyfloat; best_shared : gset string }.

Section extract_fix.
(** [sum] of floats, whose rounding and, over a set, whose order vary with the interpreter *)
Context (fsum : list pyfloat -> pyfloat).

Definition weight (df : gmap string nat) (t : string) : res pyfloat :=
  n ← float_of_int (Z.of_nat (default 0 (df !! t))); float_div (float_lit "1.0") n.
Definition score (df : gmap string nat) (shared : gset string) : res pyfloat := l ← map_res (weight df) (elements shared); Ok (fsum l).

Definition best_step (df : gmap string nat) (want : gset string) (b : best) (ih : nat * gset string) : res best :=
  let shared := want ∩ ih.2 in
  if bool_decide (shared = ∅) then Ok b
  else s ← score df shared; Ok (if float_ltb (best_score b) s then mkBest (Some ih.1) s shared else b).

Definition best_match (df : gmap string nat) (want : gset string) (htoks : list (gset string)) : res best :=
  fold_res (best_step df want) (mkBest None (float_lit "0.0") ∅) (imap pair htoks).

Definition anchor_token (df : gmap string nat) (t : string) : bool := (default 0 (df !! t) <=? 2) && (7 <=? ulen t).

Definition anchored (df : gmap string nat) (shared : gset string) : bool := existsb (anchor_token df) (elements shared).

(** [len(best_shared) >= 0.6 * len(want)] *)
Definition dominant (shared want : gset string) : res bool :=
  n ← float_of_int (Z.of_nat (size want)); m ← float_of_int (Z.of_nat (size shared));
  Ok (float_leb (float_lit "0.6" * n)%pyfloat m).

(** The text between a heading and the next *)
Definition section_of (report : string) (headings : list rmatched) (i : nat) (h : rmatched) : string :=
  slice (mt_end h) (match headings !! S i with Some h' => mt_start h' | None => String.length report end) report.

Definition extract_fix_for_finding (report title : string) : res (option string) :=
  let headings := re_finditer FINDING_HEADING_RE report in
  let want := title_tokens title in
  if bool_decide (headings = []) || bool_decide (want = ∅) then Ok None
  else
    let htoks := map (fun h => title_tokens (group_or_empty 1 report h)) headings in
    let df := document_frequency htoks in
    b ← best_match df want htoks;
    dom ← dominant (best_shared b) want;
    match best_i b with
    | None => Ok None
    | Some i =>
        if (size (best_shared b) <? 2) || negb (anchored df (best_shared b) && dom) then Ok None
        else match headings !! i with
             | None => Ok None
             | Some h => let sec := section_of report headings i h in Ok (re_search DIFF_BLOCK_RE sec ≫= re_group 1 sec)
             end
    end.

(** ** Task lists *)

(** [f"T-{i+1:02d}"] *)
Definition default_id (i : nat) : string := "T-" +:+ pad_to 2 (S i).

Definition opt_str (o : option string) : pyval := match o with Some s => PStr s | None => PNone end.

(** One item of a raw list; an item that is not a dictionary or has no title is dropped *)
Definition attach_fix (report : string) (operator_patches : list (string * string)) (it : nat * pyval) : res (option (list (string * pyval))) :=
  match it.2 with
  | PDict t =>
      let get k dflt := default dflt (assoc k t) in
      if negb (truthy_val (get "title" PNone)) then Ok None
      else
        let id := py_str (por (get "id" PNone) (PStr (default_id it.1))) in
        let title := py_str (get "title" (PStr "")) in
        fix_ ← extract_fix_for_finding report title;
        Ok (Some [("id", PStr id); ("title", PStr title); ("location", PStr (py_str (get "location" (PStr ""))));
                  ("description", PStr (py_str (get "description" (PStr ""))));
                  ("finding_class", PStr (py_str (por (get "class" PNone) (por (get "finding_class" PNone) (PStr "")))));
                  ("fix", opt_str fix_); ("fix_patch", opt_str (assoc id operator_patches))])
  | _ => Ok None
  end.

Definition attach_fixes (raw : pyval) (report : string) (operator_patches : list (string * string)) : res (list (list (string * pyval))) :=
  items ← piter raw;
  l ← map_res (attach_fix report operator_patches) (imap pair items);
  Ok (omap (M := list) (fun x => x) l).

(** The tasks of a decoded reply or file *)
Definition tasks_of (data : pyval) : pyval := match data with PDict d => default (PList []) (assoc "tasks" d) | _ => data end.

Definition load_pinned_tasks (fs : FileSystem) (decode_message : string -> string) (tasks_path report_path : path) (operator_patches : list (string * string)) :
  res (list (list (string * pyval))) :=
  report ← fs_read fs report_path;
  text ← fs_read fs tasks_path;
  raw ← match loads text with Some v => Ok v | None => Raise (Exn "JSONDecodeError" (decode_message text)) end;
  attach_fixes (tasks_of raw) report operator_patches.

Section extract.
Context {W : Type} (generate : string -> ST W (option string)) (get_prompt_versioned : string -> string -> string * pyval).
Context (EXTRACT_PROMPT : string) (error_msg : string -> string).

(** The reply without fences; an empty one is a transport failure, and so retried *)
Definition extract_reply (prompt : string) : ST W string :=
  raw ← generate prompt;
  let raw := strip (strip_fences (default "" raw)) in
  if truthy raw then mret raw else st_lift (Raise (Exn "OpenRouterUnavailable" "task extraction returned an empty reply (no JSON content)")).

Definition extract_tasks (fs : FileSystem) (report_path : path) (operator_patches : list (string * string)) : ST (Run W) (list (list (string * pyval))) :=
  report ← st_lift (fs_read fs report_path);
  p ← st_lift (resolve_prompt get_prompt_versioned "poc-extract" EXTRACT_PROMPT [("report", report)]);
  raw ← call_with_retry (outside (extract_reply p.1)) "extract" "-" None;
  let raw := default "" raw in
  data ← st_lift (match loads raw with
                  | Some v => Ok v
                  | None => Raise (Exn "JSONDecodeError" ("task-extraction reply was not valid JSON (len=" +:+ pretty (ulen raw) +:+ "): " +:+ error_msg raw))
                  end);
  st_lift (attach_fixes (tasks_of data) report operator_patches).
End extract.
End extract_fix.

(** ** The operator's patches *)

(** [spec.split("=", 1)] of the specs in order; a later one for the same id wins *)
Fixpoint parse_fix_patches_from (fs : FileSystem) (expanduser : path -> res path) (agent_root : path) (out : list (string * string)) (specs : list string) :
  res (startup (list (string * string))) :=
  match specs with
  | [] => Ok (Started out)
  | spec :: rest =>
      match split_once "=" spec with
      | None => Ok (Exit 2 ("--fix-patch expects ID=PATH, got: " +:+ repr_str spec))
      | Some (fid, raw) =>
          p ← expanduser (to_path raw);
          let p := fs_resolve fs p in
          if bool_decide (p = agent_root) || in_parents agent_root p then
            Ok (Exit 2 ("--fix-patch PATH must be OUTSIDE the agent repo (target material): " +:+ path_str p))
          else if negb (fs_is_file fs p) then Ok (Exit 2 ("--fix-patch PATH not found: " +:+ path_str p))
          else text ← fs_read fs p; parse_fix_patches_from fs expanduser agent_root (assoc_set (strip fid) text out) rest
      end
  end.

Definition parse_fix_patches (fs : FileSystem) (expanduser : path -> res path) (agent_root : path) (specs : list string) :
  res (startup (list (string * string))) := parse_fix_patches_from fs expanduser agent_root [] specs.

(** ** Verification by mutation *)

(** What is done outside: a temporary directory made, a tree copied, a program run in a
    directory on an input, a file removed, a command run in the sandbox, a tree removed;
    a file written, a directory made, a file renamed, the model asked for a text or for a
    message of a conversation, a generation traced, a lesson captured, the time asked for *)
Inductive act :=
  | MkTemp (p : path)
  | CopyTree (src dst : path) (ignore : list string)
  | Execute (argv : list string) (cwd : path) (input : string)
  | Unlink (p : path)
  | Sandboxed (req : SandboxRequest)
  | RmTree (p : path)
  | WriteFile (p : path) (text : string)
  | MakeDir (p : path)
  | Rename (src dst : path)
  | Generate (prompt : string)
  | Chat (messages : list pyval) (tools : bool)
  | Traced (name output : string)
  | Captured (trigger : list string)
  | Clock.

Abbreviation history := (list act).

Record Outside := mkOutside {
  o_mkdtemp : history -> res path;
  o_copytree : history -> path -> path -> res unit;
  o_execute : history -> list string -> path -> string -> res Z;
  o_unlink : history -> path -> res unit;
  o_sandbox : history -> Sandbox;
  o_disk : history -> FileSystem;
  o_rglob : history -> path -> string -> list path;
  o_write : history -> path -> string -> res unit;
  o_mkdir : history -> path -> res unit;
  o_rename : history -> path -> path -> res unit;
  o_generate : history -> string -> res string;
  o_chat : history -> list pyval -> bool -> res pyval;
  o_trace : history -> string -> string -> res unit;
  o_clock : history -> pyfloat;
  o_monotonic : history -> Z;
}.

Section mutation.
Context (o : Outside).

Definition act_with {A} (a : act) (answer : history -> res A) : ST (Run history) A :=
  fun r => (mkRun (r_log r) (r_world r ++ [a]), answer (r_world r)).
Definition asking {A} (f : history -> A) : ST (Run history) A := st_gets (fun r => f (r_world r)).

Definition reason_of (e : exn) : string := before_char ":" (exn_msg e).

(** The patch of a finding, or why there is none; a file that is there can be read *)
Definition resolve_fix (project : path) (fix_patch fix_ : option string) (fid : string) : ST (Run history) (string + string) :=
  match opt_truthy fix_patch with
  | Some patch => mret (inl patch)
  | None =>
      match opt_truthy fix_ with
      | None => mret (inr "no_fix")
      | Some block =>
          fs ← asking (o_disk o);
          let read rel := let p := path_join project (to_path rel) in if fs_is_file fs p then res_to_option (fs_read fs p) else None in
          match reconstruct block read with
          | Ok diff => mret (inl diff)
          | Raise e =>
              if String.eqb (exn_class e) "ReconstructionRefused" then
                _ ← log [("event", PStr "reconstruction_refused"); ("finding_id", PStr fid); ("reason", PStr (reason_of e))];
                mret (inr "reconstruction_refused")
              else st_lift (Raise e)
          end
      end
  end.

Definition GIT_APPLY : list string := ["git"; "apply"; "--unsafe-paths"; "-p1"; "-"].
Definition PATCH : list string := ["patch"; "-p1"; "--forward"; "--silent"].

(** The exit code of a program, or none when running it raised *)
Definition execute (argv : list string) (cwd : path) (input : string) : ST (Run history) (option Z) := fun r =>
  let '(r', x) := act_with (Execute argv cwd input) (fun h => o_execute o h argv cwd input) r in (r', Ok (res_to_option x)).

Definition git_apply (copy_dir : path) (diff : string) : ST (Run history) bool :=
  let diff := if ends_with nls diff then diff else diff +:+ nls in
  c ← execute GIT_APPLY copy_dir diff;
  if bool_decide (c = Some 0%Z) then mret true
  else c ← execute PATCH copy_dir diff; mret (bool_decide (c = Some 0%Z)).

Definition MUTVERIFY_DEP_DIRS : list string := ["node_modules"].
Definition dep_mounts (fs : FileSystem) (project : path) : list Mount :=
  omap (fun name => let src := project ++ [name] in if fs_is_dir fs src then Some (mkMount src ("/work/" +:+ name) true) else None) MUTVERIFY_DEP_DIRS.

(** Every test of the copy but the one checked is removed *)
Definition isolate_poc_compile_scope (copy : path) (poc_rel_path : string) : ST (Run history) unit :=
  let poc_dir := path_join copy (to_path POC_SUBDIR) in
  fs ← asking (o_disk o);
  if negb (fs_is_dir fs poc_dir) then mret tt
  else
    let target := fs_resolve fs (path_join copy (to_path poc_rel_path)) in
    tests ← asking (fun h => o_rglob o h poc_dir "*.t.sol");
    _ ← map_st (fun t => if bool_decide (fs_resolve fs t = target) then mret tt else act_with (Unlink t) (fun h => o_unlink o h t)) tests;
    mret tt.

Definition unavailable (fid reason : string) (more : list (string * pyval)) : ST (Run history) (string * string) :=
  _ ← log ([("event", PStr "mutation_verify_unavailable"); ("finding_id", PStr fid); ("reason", PStr reason)] ++ more);
  mret ("unavailable", reason).

Definition verify_timeout (fork_rpc : option string) : string :=
  float_repr (match opt_truthy fork_rpc with Some _ => RUN_TIMEOUT_S * float_lit "2.0" | None => RUN_TIMEOUT_S end)%pyfloat.

(** The tests of the copy, or the exception they raised *)
Definition run_copy (project copy : path) (poc_rel_path : string) (fork_rpc image : option string) : ST (Run history) (res TestResult) :=
  fs ← asking (o_disk o);
  let img := default FOUNDRY_IMAGE (opt_truthy image) in
  let mounts := dep_mounts fs project in
  let req := test_request copy (Some poc_rel_path) img (verify_timeout fork_rpc) (Some POC_SUBDIR) fork_rpc mounts false in
  act_with (Sandboxed req)
    (fun h => Ok (run_tests copy (o_sandbox o h) (Some poc_rel_path) img (verify_timeout fork_rpc) (Some POC_SUBDIR) fork_rpc mounts false)).

(** The check on the copy, inside [try] *)
Definition verify_on_copy (project copy : path) (fid fix_ poc_rel_path : string) (fork_rpc image : option string) : ST (Run history) (string * string) :=
  _ ← act_with (CopyTree project copy [".git"; "node_modules"]) (fun h => o_copytree o h project copy);
  applied ← git_apply copy fix_;
  if negb applied then unavailable fid "patch_failed" []
  else
    _ ← isolate_poc_compile_scope copy poc_rel_path;
    t ← run_copy project copy poc_rel_path fork_rpc image;
    match t with
    | Raise e => unavailable fid "infra" [("error", PStr (utake 200 (exn_msg e)))]
    | Ok test =>
        if negb (compiled (stdout test) (stderr test)) then unavailable fid "patched_no_build" []
        else if passed test then _ ← log [("event", PStr "mutation_unverified"); ("finding_id", PStr fid)]; mret ("unverified_pass", "")
        else _ ← log [("event", PStr "mutation_verified"); ("finding_id", PStr fid)]; mret ("verified", "")
    end.

(** The copy is removed whatever happens on it *)
Definition with_copy (project : path) (fid fix_ poc_rel_path : string) (fork_rpc image : option string) : ST (Run history) (string * string) := fun r =>
  match o_mkdtemp o (r_world r) with
  | Raise e => (r, Raise e)
  | Ok copy_root =>
      finally (_ ← act_with (MkTemp copy_root) (fun _ => Ok tt);
               verify_on_copy project (copy_root ++ [path_name project]) fid fix_ poc_rel_path fork_rpc image)
        (act_with (RmTree copy_root) (fun _ => Ok tt)) r
  end.

Definition mutation_verify (project : path) (fid : string) (fix_patch fix_ : option string) (poc_rel_path : string) (fork_rpc image : option string) :
  ST (Run history) (string * string) :=
  f ← resolve_fix project fix_patch fix_ fid;
  match f with
  | inr why => unavailable fid why []
  | inl fix_ => with_copy project fid fix_ poc_rel_path fork_rpc image
  end.
End mutation.

(** ** The report's fix belongs to the finding *)

Lemma df_step (hs : gset string) (df : gmap string nat) t : default 0 (set_fold (fun t df => <[t := S (default 0 (df !! t))]> df) df hs !! t) = default 0 (df !! t) + (if bool_decide (t ∈ hs) then 1 else 0).
Proof.
  unfold set_fold. cbn. assert (bool_decide (t ∈ hs) = bool_decide (t ∈ elements hs)) as -> by (apply bool_decide_ext; by rewrite elem_of_elements).
  pose proof (NoDup_elements hs) as Hnd. revert Hnd. generalize (elements hs). intros l. induction l as [|x l IH]; intros Hnd; [cbn; rewrite bool_decide_false by set_solver; lia|].
  apply NoDup_cons in Hnd as [Hx Hnd]. cbn [foldr]. destruct (decide (t = x)) as [->|Hne].
  - rewrite lookup_insert_eq. cbn. rewrite IH by done. rewrite bool_decide_false by done. rewrite bool_decide_true by by left. lia.
  - rewrite lookup_insert_ne, IH by done. f_equal. assert (t ∈ l <-> t ∈ x :: l) as H by (rewrite elem_of_cons; naive_solver).
    by rewrite (bool_decide_ext _ _ H).
Qed.

(** The frequency of a token is the number of headings it occurs in *)
Lemma document_frequency_count htoks t : default 0 (document_frequency htoks !! t) = length (filter (fun hs : gset string => t ∈ hs) htoks).
Proof.
  unfold document_frequency. enough (forall df, default 0 (foldl (fun df hs => set_fold (fun t df => <[t := S (default 0 (df !! t))]> df) df hs) df htoks !! t)
    = default 0 (df !! t) + length (filter (fun hs : gset string => t ∈ hs) htoks)) as H by (rewrite H; by rewrite lookup_empty).
  induction htoks as [|hs htoks IH]; intros df; [cbn; lia|]. cbn [foldl]. rewrite IH, df_step. rewrite filter_cons.
  case_bool_decide; [rewrite decide_True by done|rewrite decide_False by done]; cbn [length]; lia.
Qed.

Section fix_spec.
Context (fsum : list pyfloat -> pyfloat).

(** What the search for the best heading has found after some of them *)
Definition best_so_far (df : gmap string nat) (want : gset string) (seen : list (nat * gset string)) (b : best) : Prop :=
  match best_i b with
  | None => best_shared b = ∅
  | Some i => exists hs, (i, hs) ∈ seen /\ best_shared b = want ∩ hs /\ score fsum df (want ∩ hs) = Ok (best_score b)
  end /\
  forall j hs s, (j, hs) ∈ seen -> want ∩ hs <> ∅ -> score fsum df (want ∩ hs) = Ok s -> float_ltb (best_score b) s = false.

Lemma best_match_spec df want htoks b : best_match fsum df want htoks = Ok b -> best_so_far df want (imap pair htoks) b.
Proof.
  unfold best_match. enough (forall l seen b0 b, best_so_far df want seen b0 -> fold_res (best_step fsum df want) b0 l = Ok b -> best_so_far df want (seen ++ l) b) as H.
  { apply (H _ []). split; [done|]. intros ? ? ? []%not_elem_of_nil. }
  intros l. induction l as [|[i hs] l IH]; intros seen b0 b1 Hb Hf; cbn [fold_res] in Hf; [injection Hf as <-; by rewrite app_nil_r|].
  apply res_bind_Ok in Hf as (b' & Hs & Hf). replace (seen ++ (i, hs) :: l) with ((seen ++ [(i, hs)]) ++ l) by (by rewrite <- app_assoc).
  eapply IH; [|exact Hf]. unfold best_step in Hs. cbn [fst snd] in Hs. destruct Hb as [Hbi Hmax].
  assert (forall b2, best_i b2 = best_i b0 -> best_shared b2 = best_shared b0 -> best_score b2 = best_score b0 ->
    (want ∩ hs = ∅ \/ exists s, score fsum df (want ∩ hs) = Ok s /\ float_ltb (best_score b0) s = false) -> best_so_far df want (seen ++ [(i, hs)]) b2) as Hkeep.
  { intros b2 Hi Hsh Hsc Hor. split.
    - rewrite Hi, Hsh, Hsc. destruct (best_i b0) as [j|]; [|done]. destruct Hbi as (h & Hin & ? & ?). exists h. rewrite elem_of_app. auto.
    - intros j h s [Hin|Hin%list_elem_of_singleton]%elem_of_app Hne Hscore; [rewrite Hsc; by eapply Hmax|]. injection Hin as -> ->.
      destruct Hor as [?|(s' & Hs' & Hlt)]; [done|]. rewrite Hsc. congruence. }
  case_bool_decide as Hempty; [injection Hs as <-; apply Hkeep; auto|].
  apply res_bind_Ok in Hs as (s & Hscore & [= <-]). destruct (float_ltb (best_score b0) s) eqn:Hlt; [|apply Hkeep; eauto].
  split; cbn [best_i best_score best_shared].
  - exists hs. rewrite elem_of_app. split_and!; [right; by left|done|done].
  - intros j h s' [Hin|Hin%list_elem_of_singleton]%elem_of_app Hne Hs'.
    + destruct (float_ltb s s') eqn:Hss; [|done]. pose proof (float_lt_trans _ _ _ Hlt Hss) as Hlt'. by rewrite (Hmax _ _ _ Hin Hne Hs') in Hlt'.
    + injection Hin as -> ->. assert (s' = s) as -> by congruence. apply float_lt_irrefl.
Qed.

(** C11. A finding is checked against its own fix.  The diff taken from a report is
    verbatim the body of a diff block of the section of one heading, and that heading
    shares at least two of the title's tokens, three fifths of them all, and one of seven
    or more characters that at most two headings have; and no heading scores higher. *)
Theorem extracted_fix_confident report title diff (H : extract_fix_for_finding fsum report title = Ok (Some diff)) :
  let headings := re_finditer FINDING_HEADING_RE report in
  let want := title_tokens title in
  let htoks := map (fun h => title_tokens (group_or_empty 1 report h)) headings in
  exists i h hs best, headings !! i = Some h /\ htoks !! i = Some hs /\
    (exists a b, section_of report headings i h = a +:+ ("```diff" +:+ nls) +:+ diff +:+ "```" +:+ b) /\
    2 <= size (want ∩ hs) /\ dominant (want ∩ hs) want = Ok true /\
    (exists t, t ∈ want ∩ hs /\ 7 <= ulen t /\ length (filter (fun hs' : gset string => t ∈ hs') htoks) <= 2) /\
    score fsum (document_frequency htoks) (want ∩ hs) = Ok best /\
    forall j hs' s, htoks !! j = Some hs' -> want ∩ hs' <> ∅ -> score fsum (document_frequency htoks) (want ∩ hs') = Ok s -> float_ltb best s = false.
Proof.
  cbv zeta. unfold extract_fix_for_finding in H. destruct (bool_decide _ || bool_decide _); [done|].
  set (headings := re_finditer FINDING_HEADING_RE report) in *. set (want := title_tokens title) in *.
  set (htoks := map (fun h => title_tokens (group_or_empty 1 report h)) headings) in *.
  apply res_bind_Ok in H as (b & Hb & (dom & Hdom & H)%res_bind_Ok). apply best_match_spec in Hb as [Hbi Hmax].
  destruct (best_i b) as [i|]; [|done]. destruct Hbi as (hs & Hin & Hsh & Hscore). rewrite Hsh in *.
  destruct (size (want ∩ hs) <? 2) eqn:Hsz; [done|]. apply Nat.ltb_ge in Hsz. destruct (anchored _ _) eqn:Hanc; [|done]. destruct dom; [|done]. cbn [andb negb orb] in H.
  apply elem_of_lookup_imap in Hin as (i' & hs' & [= <- <-] & Hi). destruct (headings !! i) as [h|] eqn:Hh; [|done]. injection H as H.
  exists i, h, hs, (best_score b). split_and!; [done|done| |done|done| |done|].
  - destruct (re_search DIFF_BLOCK_RE (section_of report headings i h)) as [m|] eqn:Hm; [|done]. cbn in H. by eapply search_between.
  - unfold anchored in Hanc. apply existsb_exists in Hanc as (t & Ht%list_elem_of_In & [Hdf Hlen]%andb_true_iff). rewrite elem_of_elements in Ht.
    apply Nat.leb_le in Hdf, Hlen. exists t. rewrite document_frequency_count in Hdf. done.
  - intros j h' s Hj Hne Hs. eapply (Hmax j h'); [|exact Hne|exact Hs]. apply elem_of_lookup_imap. eauto.
Qed.
End fix_spec.

(** ** Verification touches only the copy *)

(** [m] adds to the history, however it ends, only what satisfies [P] *)
Definition adds {A} (P : act -> Prop) (m : ST (Run history) A) : Prop :=
  forall r r' x, m r = (r', x) -> exists l, r_world r' = r_world r ++ l /\ Forall P l.

Lemma adds_bind {A B} P (m : ST (Run history) A) (f : A -> ST (Run history) B) : adds P m -> (forall a, adds P (f a)) -> adds P (a ← m; f a).
Proof.
  intros Hm Hf r r' x Hr. apply st_bind_inv in Hr as [(r1 & a & Hr1 & Hr2)|(e & Hr1 & ->)]; [|by eapply Hm].
  destruct (Hm _ _ _ Hr1) as (l & Hl & HP), (Hf _ _ _ _ Hr2) as (l' & Hl' & HP'). exists (l ++ l'). rewrite Hl', Hl, app_assoc. split; [done|by apply Forall_app].
Qed.

Lemma adds_act {A} (P : act -> Prop) a (answer : history -> res A) : P a -> adds P (act_with a answer).
Proof. intros Ha r r' x [= <- <-]. exists [a]. split; [done|by constructor]. Qed.

Lemma adds_none {A} P (m : ST (Run history) A) : (forall r, r_world (m r).1 = r_world r) -> adds P m.
Proof. intros Hm r r' x Hr. exists []. rewrite app_nil_r. split; [|done]. by rewrite <- (Hm r), Hr. Qed.

Lemma adds_map {A B} P (f : A -> ST (Run history) B) l : (forall a, a ∈ l -> adds P (f a)) -> adds P (map_st f l).
Proof.
  induction l as [|a l IH]; intros Hf; cbn [map_st]; [by apply adds_none|]. apply adds_bind; [apply Hf; by left|]. intros b.
  apply adds_bind; [apply IH; intros; apply Hf; by right|]. intros bs. by apply adds_none.
Qed.

Lemma adds_asking {A B} P (f : history -> A) (k : A -> ST (Run history) B) : (forall h, adds P (k (f h))) -> adds P (a ← asking f; k a).
Proof. intros Hk r r' x Hr. by apply (Hk (r_world r)) in Hr. Qed.

(** What is done outside stays under [root]; the sandbox sees the rest read-only *)
Definition within (root : path) (a : act) : Prop :=
  match a with
  | MkTemp p | RmTree p => p = root
  | CopyTree _ dst _ => root `prefix_of` dst
  | Execute _ cwd _ => root `prefix_of` cwd
  | Unlink p => root `prefix_of` p
  | Sandboxed req => Forall (fun m => read_only m = true \/ root `prefix_of` host_path m) (rq_mounts req)
  | WriteFile p _ | MakeDir p => root `prefix_of` p
  | Rename src dst => root `prefix_of` src /\ root `prefix_of` dst
  | Generate _ | Chat _ _ | Traced _ _ | Captured _ => False
  | Clock => True
  end.

Section mutation_spec.
Context (o : Outside).
Context (Hrglob : forall h d pat p, p ∈ o_rglob o h d pat -> d `prefix_of` p).

Lemma adds_execute P argv cwd input : P (Execute argv cwd input) -> adds P (execute o argv cwd input).
Proof.
  intros HP r r' x. unfold execute. destruct (act_with _ _ r) as [r1 y] eqn:E. intros [= <- <-]. by eapply (adds_act P _ _ HP).
Qed.

Lemma adds_git_apply root copy diff : root `prefix_of` copy -> adds (within root) (git_apply o copy diff).
Proof.
  intros Hp. unfold git_apply. apply adds_bind; [by apply adds_execute|]. intros c. case_bool_decide; [by apply adds_none|].
  apply adds_bind; [by apply adds_execute|]. intros c'. by apply adds_none.
Qed.

Lemma adds_isolate root copy poc : root `prefix_of` copy -> adds (within root) (isolate_poc_compile_scope o copy poc).
Proof.
  intros Hp. apply adds_asking. intros h. destruct (negb _); [by apply adds_none|]. apply adds_asking. intros h'.
  apply adds_bind; [|by intros; apply adds_none]. apply adds_map. intros t Ht. apply Hrglob in Ht. case_bool_decide; [by apply adds_none|].
  apply adds_act. cbn [within]. etrans; [exact Hp|]. etrans; [|exact Ht]. by eexists.
Qed.

Lemma adds_verify root project copy fid fix_ poc fork image : root `prefix_of` copy ->
  adds (within root) (verify_on_copy o project copy fid fix_ poc fork image).
Proof.
  intros Hp. assert (forall reason more, adds (within root) (unavailable fid reason more)) as Hun by (intros; by apply adds_none).
  unfold verify_on_copy. apply adds_bind; [by apply adds_act|]. intros _. apply adds_bind; [by apply adds_git_apply|]. intros [|]; [|apply Hun]. cbn [negb].
  apply adds_bind; [by apply adds_isolate|]. intros _. apply adds_bind.
  - apply adds_asking. intros h. apply adds_act. cbn [within test_request rq_mounts app]. apply Forall_cons. split; [by right|].
    apply Forall_forall. intros m (name & _ & Hm)%list_elem_of_omap. cbv zeta in Hm. destruct (fs_is_dir (o_disk o h) (project ++ [name])); [|done]. injection Hm as <-. by left.
  - intros [test|e]; [|apply Hun]. destruct (negb _); [apply Hun|]. destruct (passed test); by apply adds_none.
Qed.

Lemma resolve_fix_silent project fix_patch fix_ fid r r' x : resolve_fix o project fix_patch fix_ fid r = (r', x) ->
  r_world r' = r_world r /\ (forall f, x = Ok (inl f) -> r' = r) /\ (forall why, x = Ok (inr why) -> why ∈ ["no_fix"; "reconstruction_refused"]).
Proof.
  clear Hrglob. unfold resolve_fix. destruct (opt_truthy fix_patch); [intros [= <- <-]; naive_solver|]. destruct (opt_truthy fix_) as [block|].
  - unfold asking, st_gets, mbind, st_bind. cbv beta iota zeta. destruct (reconstruct _ _) as [diff|e]; [intros [= <- <-]; naive_solver|].
    destruct (String.eqb _ _); intros [= <- <-]; [|naive_solver]. split_and!; [done|done|]. intros why [= <-]. by right; left.
  - intros [= <- <-]. split_and!; [done|done|]. intros why [= <-]. by left.
Qed.

(** *** What was done to the copy, step by step

    Every relation below names the history at which the outside answered, so that a
    verdict is tied to the order of the copying, the fix and the run. *)

(** The fix that is the finding's own: the operator's patch, else what the report's block
    is reconstructed to on the files as they are; or the reason why there is none *)
Inductive own_fix (fs : FileSystem) (project : path) (fix_patch fix_ : option string) : string + string -> Prop :=
| operators patch : opt_truthy fix_patch = Some patch -> own_fix fs project fix_patch fix_ (inl patch)
| reports block diff : opt_truthy fix_patch = None -> opt_truthy fix_ = Some block ->
    reconstruct block (fun rel => let p := path_join project (to_path rel) in if fs_is_file fs p then res_to_option (fs_read fs p) else None) = Ok diff ->
    own_fix fs project fix_patch fix_ (inl diff)
| refused_report block e : opt_truthy fix_patch = None -> opt_truthy fix_ = Some block ->
    reconstruct block (fun rel => let p := path_join project (to_path rel) in if fs_is_file fs p then res_to_option (fs_read fs p) else None) = Raise e ->
    exn_class e = "ReconstructionRefused" -> own_fix fs project fix_patch fix_ (inr "reconstruction_refused")
| no_fix_at_all : opt_truthy fix_patch = None -> opt_truthy fix_ = None -> own_fix fs project fix_patch fix_ (inr "no_fix").

Lemma resolve_fix_own project fix_patch fix_ fid r r' f : resolve_fix o project fix_patch fix_ fid r = (r', Ok f) ->
  own_fix (o_disk o (r_world r)) project fix_patch fix_ f /\ r_world r' = r_world r /\ (forall diff, f = inl diff -> r' = r).
Proof.
  clear Hrglob. unfold resolve_fix. destruct (opt_truthy fix_patch) as [patch|] eqn:Hp; [intros [= <- <-]; split; [by constructor|done]|].
  destruct (opt_truthy fix_) as [block|] eqn:Hb; [|intros [= <- <-]; split; [by constructor|done]].
  unfold asking, st_gets, mbind, st_bind. cbv beta iota zeta. destruct (reconstruct _ _) as [diff|e] eqn:Hr; [intros [= <- <-]; split; [by eapply reports|done]|].
  destruct (String.eqb_spec (exn_class e) "ReconstructionRefused") as [He|]; intros [= <- <-]. split; [by eapply refused_report|done].
Qed.

(** The text that the tools are given *)
Definition whole_lines (diff : string) : string := if ends_with nls diff then diff else diff +:+ nls.

(** The tools run on the copy after the history [w], and whether one of them applied the
    diff: git first, and patch only when git failed *)
Inductive patching (copy : path) (diff : string) (w : history) : list act -> bool -> Prop :=
| git_took : o_execute o w GIT_APPLY copy (whole_lines diff) = Ok 0%Z -> patching copy diff w [Execute GIT_APPLY copy (whole_lines diff)] true
| patch_took : o_execute o w GIT_APPLY copy (whole_lines diff) <> Ok 0%Z ->
    o_execute o (w ++ [Execute GIT_APPLY copy (whole_lines diff)]) PATCH copy (whole_lines diff) = Ok 0%Z ->
    patching copy diff w [Execute GIT_APPLY copy (whole_lines diff); Execute PATCH copy (whole_lines diff)] true
| none_took : o_execute o w GIT_APPLY copy (whole_lines diff) <> Ok 0%Z ->
    o_execute o (w ++ [Execute GIT_APPLY copy (whole_lines diff)]) PATCH copy (whole_lines diff) <> Ok 0%Z ->
    patching copy diff w [Execute GIT_APPLY copy (whole_lines diff); Execute PATCH copy (whole_lines diff)] false.

Lemma git_apply_patching copy diff r r' x : git_apply o copy diff r = (r', x) ->
  exists acts b, x = Ok b /\ r_world r' = r_world r ++ acts /\ patching copy diff (r_world r) acts b.
Proof.
  clear Hrglob. unfold git_apply, execute, act_with, mbind, st_bind. fold (whole_lines diff). cbv beta iota zeta. cbn [r_world].
  case_bool_decide as H1.
  - intros [= <- <-]. eexists _, true. split_and!; [done..|]. apply git_took. destruct (o_execute o _ _ _ _); cbn in H1; congruence.
  - intros [= <- <-]. cbn [r_world]. eexists _, _. rewrite <- app_assoc. split_and!; [done..|]. case_bool_decide as H2.
    + apply patch_took; [intros H; by rewrite H in H1|]. destruct (o_execute o _ PATCH _ _); cbn in H2; congruence.
    + apply none_took; [intros H; by rewrite H in H1|intros H; by rewrite H in H2].
Qed.

(** The tests of the copy besides the one checked *)
Definition siblings (w : history) (copy : path) (poc_rel_path : string) : list path :=
  let fs := o_disk o w in
  let poc_dir := path_join copy (to_path POC_SUBDIR) in
  if fs_is_dir fs poc_dir then
    List.filter (fun t => negb (bool_decide (fs_resolve fs t = fs_resolve fs (path_join copy (to_path poc_rel_path))))) (o_rglob o w poc_dir "*.t.sol")
  else [].

Lemma isolate_acts copy poc r r' : isolate_poc_compile_scope o copy poc r = (r', Ok tt) ->
  r_world r' = r_world r ++ map Unlink (siblings (r_world r) copy poc).
Proof.
  clear Hrglob. unfold isolate_poc_compile_scope, siblings, asking, st_gets, mbind at 1, st_bind at 1. cbv beta iota zeta.
  destruct (fs_is_dir _ _); cbn [negb]; [|intros [= <-]; by rewrite app_nil_r].
  unfold mbind at 1, st_bind at 1. cbv beta iota zeta. generalize (o_rglob o (r_world r) (path_join copy (to_path POC_SUBDIR)) "*.t.sol"). intros l.
  generalize (fs_resolve (o_disk o (r_world r))). intros res. clear. intros H. apply st_bind_inv in H as [(r1 & ys & H & [= <-])|(? & _ & ?)]; [|done].
  revert r ys H. induction l as [|t l IH]; intros r ys H; cbn [map_st List.filter] in *; [injection H as <- _; by rewrite app_nil_r|].
  apply st_bind_inv in H as [(r2 & [] & Hu & H)|(? & _ & ?)]; [|done]. apply st_bind_inv in H as [(r3 & zs & H & [= <- _])|(? & _ & ?)]; [|done].
  apply IH in H. case_bool_decide; cbn [negb]; [by injection Hu as <-|]. injection Hu as <- _. cbn [r_world map] in *. by rewrite H, <- app_assoc.
Qed.

(** The check of the PoC on the copy, as a request and as its result after a history *)
Definition copy_request (w : history) (project copy : path) (poc : string) (fork image : option string) : SandboxRequest :=
  test_request copy (Some poc) (default FOUNDRY_IMAGE (opt_truthy image)) (verify_timeout fork) (Some POC_SUBDIR) fork (dep_mounts (o_disk o w) project) false.
Definition copy_result (w : history) (project copy : path) (poc : string) (fork image : option string) : res TestResult :=
  run_tests copy (o_sandbox o w) (Some poc) (default FOUNDRY_IMAGE (opt_truthy image)) (verify_timeout fork) (Some POC_SUBDIR) fork
    (dep_mounts (o_disk o w) project) false.

(** What a result of that run is reported as *)
Inductive reported : res TestResult -> string * string -> Prop :=
| no_result e : reported (Raise e) ("unavailable", "infra")
| not_built test : compiled (stdout test) (stderr test) = false -> reported (Ok test) ("unavailable", "patched_no_build")
| still_passes test : compiled (stdout test) (stderr test) = true -> passed test = true -> reported (Ok test) ("unverified_pass", "")
| now_fails test : compiled (stdout test) (stderr test) = true -> passed test = false -> reported (Ok test) ("verified", "").

(** All that happened on the copy after the history [w], and the verdict: the project was
    copied, then the fix was tried on the copy, and only where it was applied the other
    tests were removed and then the PoC was run *)
Inductive observed (w : history) (project copy : path) (diff poc : string) (fork image : option string) : list act -> string * string -> Prop :=
| saw_unpatched acts : o_copytree o w project copy = Ok tt ->
    patching copy diff (w ++ [CopyTree project copy [".git"; "node_modules"]]) acts false ->
    observed w project copy diff poc fork image (CopyTree project copy [".git"; "node_modules"] :: acts) ("unavailable", "patch_failed")
| saw_run acts removed before verdict : o_copytree o w project copy = Ok tt ->
    patching copy diff (w ++ [CopyTree project copy [".git"; "node_modules"]]) acts true ->
    removed = siblings (w ++ CopyTree project copy [".git"; "node_modules"] :: acts) copy poc ->
    before = CopyTree project copy [".git"; "node_modules"] :: acts ++ map Unlink removed ->
    reported (copy_result (w ++ before) project copy poc fork image) verdict ->
    observed w project copy diff poc fork image (before ++ [Sandboxed (copy_request (w ++ before) project copy poc fork image)]) verdict.

Lemma verify_on_copy_observed project copy fid fix_ poc fork image r r' v : verify_on_copy o project copy fid fix_ poc fork image r = (r', Ok v) ->
  exists acts, r_world r' = r_world r ++ acts /\ observed (r_world r) project copy fix_ poc fork image acts v.
Proof.
  clear Hrglob. unfold verify_on_copy. intros H. apply st_bind_inv in H as [(r1 & [] & [= <- Hc] & H)|(? & _ & ?)]; [|done].
  apply st_bind_inv in H as [(r2 & ap & Hap & H)|(? & _ & ?)]; [|done]. apply git_apply_patching in Hap as (acts & b & [= <-] & Hw2 & Hpat).
  cbn [r_world] in *. destruct ap; cbn [negb] in H.
  - apply st_bind_inv in H as [(r3 & [] & Hiso & H)|(? & _ & ?)]; [|done]. apply isolate_acts in Hiso.
    unfold run_copy, asking, st_gets, act_with in H. unfold mbind, st_bind in H. cbv beta iota zeta in H. rewrite Hiso, Hw2, <- !app_assoc in H. cbn [app] in H.
    set (before := CopyTree project copy [".git"; "node_modules"] :: acts ++ map Unlink (siblings (r_world r ++ CopyTree project copy [".git"; "node_modules"] :: acts) copy poc)) in *.
    exists (before ++ [Sandboxed (copy_request (r_world r ++ before) project copy poc fork image)]).
    assert (forall v, r_world r' = (r_world r ++ before) ++ [Sandboxed (copy_request (r_world r ++ before) project copy poc fork image)] ->
      reported (copy_result (r_world r ++ before) project copy poc fork image) v ->
      r_world r' = r_world r ++ before ++ [Sandboxed (copy_request (r_world r ++ before) project copy poc fork image)] /\
      observed (r_world r) project copy fix_ poc fork image (before ++ [Sandboxed (copy_request (r_world r ++ before) project copy poc fork image)]) v) as Hdone.
    { intros v' Hw Hrep. split; [by rewrite Hw, <- app_assoc|]. by eapply saw_run. }
    assert (forall lg v', reported (copy_result (r_world r ++ before) project copy poc fork image) v' ->
      (lg, r_world r ++ CopyTree project copy [".git"; "node_modules"] :: acts ++ map Unlink (siblings (r_world r ++ CopyTree project copy [".git"; "node_modules"] :: acts) copy poc) ++
        [Sandboxed (copy_request (r_world r ++ before) project copy poc fork image)], v') = (r_log r', r_world r', v) ->
      r_world r' = r_world r ++ before ++ [Sandboxed (copy_request (r_world r ++ before) project copy poc fork image)] /\
      observed (r_world r) project copy fix_ poc fork image (before ++ [Sandboxed (copy_request (r_world r ++ before) project copy poc fork image)]) v) as Hend.
    { intros lg v' Hrep [= _ Hw <-]. apply Hdone; [|done]. rewrite <- Hw. unfold before. cbn [app]. by rewrite <- !app_assoc, <- app_comm_cons, <- !app_assoc. }
    clear Hdone. unfold copy_result in Hend. destruct (run_tests _ _ _ _ _ _ _ _ _) as [test|e].
    + destruct (compiled (stdout test) (stderr test)) eqn:Hcomp; cbn [negb] in H.
      * destruct (passed test) eqn:Hpass; injection H as <- <-; (eapply Hend; [by constructor|done]).
      * injection H as <- <-. eapply Hend; [by constructor|done].
    + injection H as <- <-. eapply Hend; [constructor|done].
  - injection H as <- <-. exists (CopyTree project copy [".git"; "node_modules"] :: acts). cbn [r_world]. rewrite Hw2, <- app_assoc. split; [done|].
    by apply saw_unpatched.
Qed.

(** What the verdict of a check stands for, and what was done outside for it *)
Definition verdict_sound (project : path) (fix_patch fix_ : option string) (poc : string) (fork image : option string) (w : history) (acts : list act)
  (v : string * string) : Prop :=
  (exists why, own_fix (o_disk o w) project fix_patch fix_ (inr why) /\ acts = [] /\ v = ("unavailable", why)) \/
  exists diff root on_copy, own_fix (o_disk o w) project fix_patch fix_ (inl diff) /\ o_mkdtemp o w = Ok root /\
    acts = MkTemp root :: on_copy ++ [RmTree root] /\ observed (w ++ [MkTemp root]) project (root ++ [path_name project]) diff poc fork image on_copy v.

Lemma mutation_verdict project fid fix_patch fix_ poc fork image r r' v :
  mutation_verify o project fid fix_patch fix_ poc fork image r = (r', Ok v) ->
  exists acts, r_world r' = r_world r ++ acts /\ verdict_sound project fix_patch fix_ poc fork image (r_world r) acts v.
Proof.
  clear Hrglob. unfold mutation_verify. intros H. apply st_bind_inv in H as [(r1 & f & Hf & H)|(? & _ & ?)]; [|done].
  apply resolve_fix_own in Hf as (Hown & Hw & Hinl). destruct f as [diff|why].
  - assert (r1 = r) as -> by by eapply Hinl. unfold with_copy, finally in H. destruct (o_mkdtemp o (r_world r)) as [root|e] eqn:Hm; [|done].
    destruct ((_ ← act_with (MkTemp root) (fun _ => Ok tt); verify_on_copy o project (root ++ [path_name project]) fid diff poc fork image) r) as [r2 y] eqn:Hv.
    unfold mbind, st_bind, act_with in Hv. cbv beta iota zeta in Hv. injection H as <- ->.
    apply verify_on_copy_observed in Hv as (acts & Hacts & Hobs). cbn [r_world] in *. exists (MkTemp root :: acts ++ [RmTree root]).
    rewrite Hacts, <- !app_assoc. split; [done|]. right. by exists diff, root, acts.
  - unfold unavailable in H. injection H as <- <-. exists []. cbn [r_world]. rewrite app_nil_r. split; [done|]. left. by exists why.
Qed.

(** C10. A passing PoC is judged on a throwaway copy and nowhere else.  Whatever happens,
    an error of the tools included, what the check does outside is nothing, or begins by
    making one temporary directory, stays under it, with anything else only mounted
    read-only, and ends by removing it.  And each verdict stands for what was observed, in
    this order: without a fix of the finding's own nothing is done and the reason is
    given; otherwise the project was copied, the finding's own fix tried on the copy by
    git and then by patch, and where neither applied it that is the reason; where one did,
    the other tests of the copy were removed and then the PoC was run there, and it is
    verified exactly when the copy was built and the PoC failed, unverified when it was
    built and the PoC passed, and unavailable when it was not built or not run. *)
Theorem mutation_verify_sound project fid fix_patch fix_ poc fork image r r' x
  (H : mutation_verify o project fid fix_patch fix_ poc fork image r = (r', x)) :
  (r_world r' = r_world r \/
   exists root acts, o_mkdtemp o (r_world r) = Ok root /\ r_world r' = r_world r ++ MkTemp root :: acts ++ [RmTree root] /\ Forall (within root) acts) /\
  (forall v, x = Ok v ->
     (exists why, own_fix (o_disk o (r_world r)) project fix_patch fix_ (inr why) /\ r_world r' = r_world r /\ v = ("unavailable", why)) \/
     exists diff root acts, own_fix (o_disk o (r_world r)) project fix_patch fix_ (inl diff) /\ o_mkdtemp o (r_world r) = Ok root /\
       r_world r' = r_world r ++ MkTemp root :: acts ++ [RmTree root] /\
       observed (r_world r ++ [MkTemp root]) project (root ++ [path_name project]) diff poc fork image acts v).
Proof.
  split.
  2:{ intros v ->. apply mutation_verdict in H as (acts & Hw & [(why & Ho & -> & ->)|(diff & root & on_copy & Ho & Hm & -> & Hobs)]).
      - left. exists why. by rewrite app_nil_r in Hw.
      - right. by exists diff, root, on_copy. }
  unfold mutation_verify in H. apply st_bind_inv in H as [(r1 & f & Hf & H)|(e & He & ->)].
  - pose proof (resolve_fix_silent _ _ _ _ _ _ _ Hf) as (Hw & Hinl & _). destruct f as [diff|why].
    + assert (r1 = r) as -> by by eapply Hinl. unfold with_copy, finally in H. destruct (o_mkdtemp o (r_world r)) as [root|e] eqn:Hm; [|injection H as <- <-; by left].
      destruct ((_ ← act_with (MkTemp root) (fun _ => Ok tt); verify_on_copy o project (root ++ [path_name project]) fid diff poc fork image) r) as [r2 y] eqn:Hv.
      unfold mbind, st_bind, act_with in Hv. cbv beta iota zeta in Hv. injection H as <- <-.
      pose proof (adds_verify root project (root ++ [path_name project]) fid diff poc fork image ltac:(by eexists) _ _ _ Hv) as (l & Hl & HP).
      right. exists root, l. split_and!; [done| |done]. cbn [r_world] in *. by rewrite Hl, <- !app_assoc.
    + unfold unavailable in H. injection H as <- <-. by left.
  - pose proof (resolve_fix_silent _ _ _ _ _ _ _ He) as (Hw & _ & _). by left.
Qed.
End mutation_spec.

(** ** Witnesses *)

Definition demo_report : string :=
"[90] **1. Rounding in withdrawShares loses funds**

Text.

```diff
-a
+b
```

[80] **2. Missing owner check**

```diff
-c
+d
```
".
Definition plain_sum (l : list pyfloat) : pyfloat := foldl float_add (float_lit "0.0") l.

Lemma extracted_fix_confident_witness : exists h hs,
  extract_fix_for_finding plain_sum demo_report "Rounding in `withdrawShares`" = Ok (Some ("-a" +:+ nls +:+ "+b" +:+ nls)) /\
  re_finditer FINDING_HEADING_RE demo_report !! 0 = Some h /\ 2 <= size (title_tokens "Rounding in `withdrawShares`" ∩ hs).
Proof.
  assert (extract_fix_for_finding plain_sum demo_report "Rounding in `withdrawShares`" = Ok (Some ("-a" +:+ nls +:+ "+b" +:+ nls))) as H
    by (vm_compute; reflexivity).
  destruct (extracted_fix_confident plain_sum _ _ _ H) as (i & h & hs & best & Hh & _ & _ & Hsz & _).
  destruct (re_finditer FINDING_HEADING_RE demo_report !! 0) as [h0|] eqn:E0; [|exfalso; revert E0; vm_compute; done].
  exists h0, hs. split; [exact H|]. split; [reflexivity|exact Hsz].
Defined.

(** Tools that work and a PoC that fails once the fix is applied *)
Definition demo_outside : Outside := {|
  o_mkdtemp _ := Ok ["/"; "tmp"; "mutverify-1"];
  o_copytree _ _ _ := Ok tt;
  o_execute _ _ _ _ := Ok 0%Z;
  o_unlink _ _ := Ok tt;
  o_sandbox _ := fun _ => Ok (mkResult "Ran 1 test for audit/poc/F.t.sol" "" 1 false);
  o_disk _ := {| fs_resolve p := p; fs_resolve_error _ := None; fs_exists _ := true; fs_is_file _ := true; fs_is_dir _ := true;
                 fs_read _ := Ok ""; fs_rglob _ := []; fs_rglob_sol _ := [] |};
  o_rglob _ d _ := [d ++ ["F.t.sol"]; d ++ ["G.t.sol"]];
  o_write _ _ _ := Ok tt;
  o_mkdir _ _ := Ok tt;
  o_rename _ _ _ := Ok tt;
  o_generate _ _ := Ok "";
  o_chat _ _ _ := Ok (PDict []);
  o_trace _ _ _ := Ok tt;
  o_clock _ := float_lit "0.0";
  o_monotonic h := Z.of_nat (length h);
|}.

Lemma mutation_verify_sound_witness : exists r' root acts,
  mutation_verify demo_outside ["/"; "proj"] "F-1" (Some "--- a/x") None "audit/poc/F.t.sol" None None (mkRun [] []) = (r', Ok ("verified", "")) /\
  r_world r' = MkTemp root :: acts ++ [RmTree root] /\ Forall (within root) acts.
Proof.
  destruct (mutation_verify demo_outside ["/"; "proj"] "F-1" (Some "--- a/x") None "audit/poc/F.t.sol" None None (mkRun [] [])) as [r' x] eqn:E.
  assert (x = Ok ("verified", "") /\ r_world r' <> []) as [-> Hne] by (revert E; vm_compute; by intros [= <- <-]).
  destruct (mutation_verify_sound demo_outside ltac:(intros h d pat p [->|[->|[]%not_elem_of_nil]%elem_of_cons]%elem_of_cons; by eexists) _ _ _ _ _ _ _ _ _ _ E)
    as [[Hw|(root & acts & _ & Hw & HP)] _]; [done|].
  exists r', root, acts. split; [reflexivity|]. split; [exact Hw|exact HP].
Defined.
