(* ===== verification/RunnerSource.v ===== *)
(** * The PoC queue runner: what a draft is grounded in (scripts/poc_queue_runner.py)

    The names a finding's location gives, the sources read for them and their local
    imports, the scaffold, its missing types, the file map, the callable signatures, the
    worked example, the structural defects of a PoC, and the inventory of the scaffold.
    The disk, git and the Solidity parser are parameters; a path found under a directory
    lies under it, and a file that cannot be read raises an [OSError]. *)

From S2P Require Import Prelude PyStr PyRe PyPath PyVal PyNum PyFloat SolIndex SolUtils Fixers Inventory Reach Repeat WriteExecute RunnerBase.

(** ** Names in a location *)

(** [import\s+(?:[^QUOTES;]*\bfrom\s+)?QUOTE([^QUOTES]+)QUOTE] *)
Definition IMPORT_RE : re :=
  RAll [RStr "import"; ws1;
        ROpt (RAll [RMany (RSet (fun c => negb (Ascii.eqb c "034" || Ascii.eqb c "'" || Ascii.eqb c ";"))); RBound; RStr "from"; ws1]);
        RQuote; RGroup 1 (RSome RNoQuote); RQuote].
Definition RIdent : re := RSeq (RSet (fun c => is_alpha c || Ascii.eqb c "_")) (RMany RWord).
(** [[A-Za-z_][\w]*\.sol|\b[A-Z][A-Za-z0-9]*\b] *)
Definition LOC_NAME_RE : re := RAlt (RSeq RIdent (RStr ".sol")) (RAll [RBound; RSet is_upper; RMany (RSet is_alnum); RBound]).

Definition location_names (location : string) : list string := unique (map (removesuffix ".sol") (re_findall0 LOC_NAME_RE location)).

(** [\b[a-z][A-Za-z0-9]{3,}\b] *)
Definition LOC_METHOD_RE : re := RAll [RBound; RSet is_lower; RTimes 3 (RSet is_alnum); RMany (RSet is_alnum); RBound].
Definition LOC_METHOD_STOPWORDS : list string := ["this"; "with"; "from"; "into"; "when"; "that"; "path"; "line"].
Definition location_methods (location : string) : list string :=
  List.filter (fun m => negb (bool_decide (m ∈ LOC_METHOD_STOPWORDS))) (unique (re_findall0 LOC_METHOD_RE location)).

(** [`([A-Za-z_]\w* )\(\)?`] *)
Definition DESC_BACKTICK_METHOD_RE : re := RAll [RChr "`"; RGroup 1 RIdent; RChr "("; ROpt (RChr ")"); RChr "`"].
Definition description_methods (description : string) : list string :=
  match unique (re_findall1 DESC_BACKTICK_METHOD_RE description) with
  | [] => location_methods description
  | backticked => backticked
  end.

Definition mechanism_signal (code location description : string) : Mech :=
  match unique (location_methods location ++ description_methods description) with
  | [] => mkMech [] []
  | methods =>
      let body := strip_comments code in
      mkMech (List.filter (fun m => re_test (RAll [RChr "."; RStr m; ws; RChr "("]) body) methods) methods
  end.

(** ** Sources *)

Definition SOURCE_CHAR_BUDGET : nat := Z.to_nat 26000.
Definition PRIMARY_CHAR_CAP : nat := Z.to_nat 10000.
Definition IMPORT_DEPTH : nat := 2.
Definition REACHABILITY_SOURCE_BUDGET : nat := Z.to_nat 80000.
Definition SCAFFOLD_CHAR_BUDGET : nat := Z.to_nat 13000.
Definition FILEMAP_CHAR_BUDGET : nat := Z.to_nat 10000.
Definition CALLABLE_API_BUDGET : nat := Z.to_nat 6000.
Definition EXAMPLE_CHAR_BUDGET : nat := Z.to_nat 3500.

(** The files emitted, the blocks rendered, and the budget left *)
Record Emitted := mkEmitted { em_seen : list path; em_blocks : list string; em_budget : nat }.

Section sources.
Context (fs : FileSystem) (cwd : path) (rglob : string -> list path) (project : path).

Definition resolve_local_imports (source_path : path) (text : string) : list path :=
  omap (fun imp => if starts_with "." imp then
                     let cand := fs_resolve fs (path_join (parent source_path) (to_path imp)) in
                     if fs_is_file fs cand then Some cand else None
                   else None) (re_findall1 IMPORT_RE text).

Definition poc_dir_of : path := path_join project (to_path POC_SUBDIR).

Definition import_header (kind imp text : string) : string :=
  "// [" +:+ kind +:+ "] import this file as: " +:+ dquote +:+ imp +:+ dquote +:+ nls +:+ text.

Definition emit (primary_cap : option nat) (p : path) (kind : string) (e : Emitted) : res Emitted :=
  if bool_decide (p ∈ em_seen e) || (em_budget e =? 0) then Ok e
  else
    let cap := match primary_cap with
               | Some c => if String.eqb kind "target" then Nat.min (em_budget e) c else em_budget e
               | None => em_budget e
               end in
    t ← fs_read fs p;
    let text := utake cap t in
    Ok (mkEmitted (em_seen e ++ [p]) (em_blocks e ++ [import_header kind (relpath cwd p poc_dir_of) text]) (em_budget e - ulen text)).

(** The files of that name, outside the build and vendor directories *)
Definition sources_named (name : string) : list path :=
  List.filter (fun p => fs_is_file fs p && negb (existsb (fun d => bool_decide (d ∈ rel_parts project p)) UTILS_SKIP_DIRS))
    (rglob (name +:+ ".sol")).

Fixpoint emit_primaries (primary_cap : option nat) (names : list string) (frontier : list (path * nat)) (e : Emitted) :
  res (list (path * nat) * Emitted) :=
  match names with
  | [] => Ok (frontier, e)
  | name :: names' =>
      match sources_named name with
      | [] => emit_primaries primary_cap names' frontier e
      | primary :: _ => e ← emit primary_cap primary "target" e; emit_primaries primary_cap names' (frontier ++ [(primary, 0)]) e
      end
  end.

Fixpoint emit_deps (node_depth : nat) (deps : list path) (frontier : list (path * nat)) (e : Emitted) : res (list (path * nat) * Emitted) :=
  match deps with
  | [] => Ok (frontier, e)
  | dep :: deps' =>
      if bool_decide (dep ∈ em_seen e) then emit_deps node_depth deps' frontier e
      else e ← emit None dep "dependency" e; emit_deps node_depth deps' (frontier ++ [(dep, S node_depth)]) e
  end.

(** The local imports of a file, none when it cannot be read *)
Definition imports_of (p : path) : list path := match fs_read fs p with Ok txt => resolve_local_imports p txt | Raise _ => [] end.

(** One turn of the loop over the frontier *)
Fixpoint follow_imports (fuel depth : nat) (frontier : list (path * nat)) (e : Emitted) : res (list (path * nat) * Emitted) :=
  match frontier, fuel with
  | (p, node_depth) :: frontier', S fuel' =>
      if em_budget e =? 0 then Ok (frontier, e)
      else if depth <=? node_depth then follow_imports fuel' depth frontier' e
      else fe ← emit_deps node_depth (imports_of p) frontier' e; follow_imports fuel' depth fe.1 fe.2
  | _, _ => Ok (frontier, e)
  end.

(** The files reached from [p] within [left] steps, each as often as it is imported *)
Fixpoint import_tree (left : nat) (p : path) : nat :=
  match left with 0 => 1 | S left' => S (list_sum (map (import_tree left') (imports_of p))) end.
Definition turns_needed (depth : nat) (frontier : list (path * nat)) : nat := list_sum (map (fun pd => import_tree (depth - pd.2) pd.1) frontier).

Definition read_location_source (location : string) (depth budget : nat) (primary_cap : option nat) : res string :=
  match location_names location with
  | [] => Ok "(no contract name found in location)"
  | names =>
      fe ← emit_primaries primary_cap names [] (mkEmitted [] [] budget);
      out ← follow_imports (turns_needed depth fe.1) depth fe.1 fe.2;
      Ok (join (nls +:+ nls) (em_blocks out.2))
  end.
End sources.

(** ** The scaffold *)

(** [\bis\s+([A-Za-z0-9_]*(?:Base|Setup|Deploy|Harness|Fixture))\b] *)
Definition BASE_INHERIT_RE : re :=
  RAll [RBound; RStr "is"; ws1;
        RGroup 1 (RSeq (RMany RWord) (RAny [RStr "Base"; RStr "Setup"; RStr "Deploy"; RStr "Harness"; RStr "Fixture"])); RBound].
(** [^\s*test\s*=\s*QUOTE([^QUOTES]+)], multiline *)
Definition TEST_DIR_RE : re := RAll [RBol true; ws; RStr "test"; ws; RChr "="; ws; RQuote; RGroup 1 (RSome RNoQuote)].
Definition defines_contract_re (name : string) : re :=
  RAll [RBound; ROpt (RSeq (RStr "abstract") ws1); RStr "contract"; ws1; RStr name; RBound].

Section scaffold.
Context (fs : FileSystem) (git : res string) (cwd project : path).

Definition foundry_test_dir : res string :=
  let toml := path_join project ["foundry.toml"] in
  if fs_is_file fs toml then
    t ← fs_read fs toml;
    Ok (match re_search TEST_DIR_RE t with Some m => group_or_empty 1 t m | None => "test" end)
  else Ok "test".

(** The path a token names, from the project unless it is absolute *)
Definition token_path (token : string) : path :=
  let p := to_path token in if is_absolute p then p else path_join project p.

Definition scaffold_tokens (spec : string) : list string := List.filter truthy (map strip (split_char "," spec)).

Definition resolve_scaffold_tokens (spec : string) : list path * list string :=
  let tokens := scaffold_tokens spec in
  (map (fun t => fs_resolve fs (token_path t)) (List.filter (fun t => fs_is_file fs (token_path t)) tokens),
   List.filter (fun t => negb (fs_is_file fs (token_path t))) tokens).

(** How often each base is inherited, in order of first appearance *)
Definition count_inherited (texts : list (path * string)) : list (string * nat) :=
  foldl (fun d name => assoc_set name (S (default 0 (assoc name d))) d) [] (List.concat (map (fun ft => re_findall1 BASE_INHERIT_RE ft.2) texts)).

Definition by_count (inherited : list (string * nat)) : list string :=
  map fst (py_sort (fun a b => b.2 <=? a.2) inherited).

Definition defining_file (texts : list (path * string)) (name : string) : option path :=
  fst <$> first (fun ft => re_test (defines_contract_re name) ft.2) texts.

Definition discover_scaffold : res (list path) :=
  let tracked := tracked_sol fs git project in
  dir ← foundry_test_dir;
  let test_dir := path_join project (to_path dir) in
  if negb (fs_is_dir fs test_dir) then Ok []
  else
    let files := List.filter (fun f => bool_decide (tracked = []) || bool_decide (fs_resolve fs f ∈ tracked)) (fs_rglob_sol fs test_dir) in
    texts ← map_res (fun f => t ← fs_read fs f; Ok (f, t)) files;
    Ok (match omap (M := list) (defining_file texts) (by_count (count_inherited texts)) with
        | deff :: _ => [fs_resolve fs deff]
        | [] => []
        end).

Definition resolve_scaffold (spec : string) (disabled : bool) : res (list path) :=
  if disabled then Ok []
  else match (resolve_scaffold_tokens spec).1 with
       | [] => discover_scaffold
       | out => Ok out
       end.

Definition preflight_operator_scaffold (spec : string) : startup unit :=
  if negb (truthy (strip spec)) then Started tt
  else match (resolve_scaffold_tokens spec).2 with
       | [] => Started tt
       | unresolved => Exit 2 ("operator scaffold path(s) do not resolve to a file: " +:+ join ", " unresolved +:+ nls +:+
           "(point --test-scaffold / POC_SCAFFOLD at an existing base, or unset it to use auto-discovery)")
       end.

Definition scaffold_block (p : path) (text : string) : string :=
  let inherit := match opt_truthy (scaffold_base_name text) with
                 | Some base => "INHERIT the contract `" +:+ base +:+ "` (write `is " +:+ base
                     +:+ "` - that is the leaf that has setUp + the deployed state; do NOT inherit a base it extends)"
                 | None => "INHERIT it"
                 end in
  "// [test_scaffold] the project's PoC base - " +:+ inherit +:+ "; import as: " +:+ dquote +:+ relpath cwd p (poc_dir_of project) +:+ dquote +:+ nls +:+ text.

Fixpoint scaffold_blocks (budget : nat) (paths : list path) : res (list string) :=
  match paths with
  | [] => Ok []
  | p :: paths' =>
      if budget =? 0 then Ok []
      else
        t ← fs_read fs p;
        let text := utake budget t in
        rest ← scaffold_blocks (budget - ulen text) paths';
        Ok (scaffold_block p text :: rest)
  end.

Definition read_scaffold (paths : list path) : res string :=
  match paths with
  | [] => Ok ""
  | _ => blocks ← scaffold_blocks SCAFFOLD_CHAR_BUDGET paths; Ok (join (nls +:+ nls) blocks)
  end.
End scaffold.

(** ** The types a scaffold does not provide *)

(** [\b([A-Z]\w* )\s+(?:internal|public|private)\s+\w+\s*;] and the same with the name
    captured and any type *)
Definition visibility_re : re := RAny [RStr "internal"; RStr "public"; RStr "private"].
Definition STATE_VAR_TYPE_RE : re :=
  RAll [RBound; RGroup 1 (RSeq (RSet is_upper) (RMany RWord)); ws1; visibility_re; ws1; word1; ws; RChr ";"].
Definition BASE_STATE_VAR_RE : re := RAll [RBound; word1; ws1; visibility_re; ws1; RGroup 1 word1; ws; RChr ";"].

(** A variable of the type provides the type and every type it extends *)
Definition satisfies (ix : SymbolIndex) (stem var_type : string) : bool := String.eqb var_type stem || is_subtype ix var_type stem.

Definition provided (ix scaf : SymbolIndex) (stem : string) : bool :=
  existsb (fun c =>
    existsb (satisfies ix stem) (elements (state_var_types scaf c)) ||
    existsb (fun base => existsb (satisfies ix stem) (elements (state_var_types ix base))) (default [] (ix_bases scaf !! c)))
    (contract_names scaf).

Definition scaffold_missing_types (fs : FileSystem) (depth : nat) (parse : string -> res pyval) (scaffold : string) (target_stems : list string)
  (symbol_index : option SymbolIndex) : res (list string) :=
  if negb (truthy scaffold) || bool_decide (target_stems = []) then Ok []
  else match symbol_index with
  | None =>
      let declared_types := re_findall1 STATE_VAR_TYPE_RE scaffold in
      Ok (List.filter (fun s => negb (bool_decide (s ∈ declared_types))) target_stems)
  | Some ix =>
      let built := build_from_source fs depth parse scaffold in
      _ ← built.2;
      Ok (List.filter (fun s => negb (provided ix built.1 s)) target_stems)
  end.

(** ** The file map and the callable signatures *)

(** [p.stem] *)
Definition path_stem (p : path) : string :=
  match rev (split_char "." (path_name p)) with
  | suffix :: (_ :: _) as pieces => let base := join "." (rev (tail pieces)) in if truthy base && truthy suffix then base else path_name p
  | _ => path_name p
  end.

(** [function\s+\w+\s*\([^{};]*\)[^{};]*] *)
Definition FUNC_SIG_RE : re :=
  RAll [RStr "function"; ws1; word1; ws; RChr "("; RMany (RNoneOf "{};"); RChr ")"; RMany (RNoneOf "{};")].
Definition SIG_TAIL_KEYWORDS : list string :=
  ["external"; "public"; "internal"; "private"; "view"; "pure"; "payable"; "virtual"; "override"; "returns"; "memory"; "calldata"; "storage"].
Definition MODIFIER_TOKEN_RE : re := RAll [RBound; RGroup 1 RIdent; ROpt (RGroup 2 (RAll [RChr "("; RMany (RNoneOf ")"); RChr ")"]))].
Definition FUNC_NAME_RE : re := RAll [RStr "function"; ws1; RGroup 1 word1].

(** Just past the parenthesis closing the list of parameters; [i] is the offset of [s] *)
Fixpoint closing_paren (depth : Z) (i : nat) (s : string) : nat :=
  match s with
  | "" => i
  | String c s' =>
      if Ascii.eqb c "(" then closing_paren (depth + 1) (S i) s'
      else if Ascii.eqb c ")" then (if (depth - 1 =? 0)%Z then S i else closing_paren (depth - 1) (S i) s')
      else closing_paren depth (S i) s'
  end.
Definition param_list_end (sig : string) : res nat :=
  match sfind "(" sig with
  | None => Raise (Exn "ValueError" "substring not found")
  | Some start => Ok (closing_paren 0 start (sdrop start sig))
  end.

Definition sig_modifiers (sig : string) : res (list string) :=
  e ← param_list_end sig;
  let t := sdrop e sig in
  let t := match split_once "returns" t with Some (a, _) => a | None => t end in
  let t := before_char ";" t in
  Ok (omap (fun m => let name := group_or_empty 1 t m in
                     if bool_decide (name ∈ SIG_TAIL_KEYWORDS) then None else Some (name +:+ group_or_empty 2 t m))
        (re_finditer MODIFIER_TOKEN_RE t)).

Definition caller_requirement (name : string) (mods : list string) : string :=
  "    ⚠ CALLER REQUIREMENT on `" +:+ name +:+ "(...)` above: " +:+ join ", " mods
  +:+ " - vm.prank/startPrank the required address BEFORE calling it, or it reverts.".
Definition sig_entry (sig name : string) (mods : list string) : list string :=
  sig :: match mods with [] => [] | _ => [caller_requirement name mods] end.

Section api.
Context (fs : FileSystem) (git : res string) (cwd : path) (rglob : string -> list path) (project : path).

(** A file under contracts/, tracked when any file is *)
Definition mapped_file (tracked : list path) (p : path) : bool :=
  (bool_decide (tracked = []) || bool_decide (fs_resolve fs p ∈ tracked)) &&
  negb (existsb (fun d => bool_decide (d ∈ rel_parts project p)) UTILS_SKIP_DIRS).

Definition manifest_line (name : string) (p : path) : string := name +:+ ": " +:+ relpath cwd p (poc_dir_of project).

Definition build_file_manifest (symbol_index : option SymbolIndex) : string :=
  let tracked := tracked_sol fs git project in
  let contracts := path_join project ["contracts"] in
  match symbol_index with
  | Some ix =>
      let syms := py_sort (fun a b => str_leb (sy_name a) (sy_name b)) (top_level_symbols ix) in
      let kept := List.filter (fun s => in_parents (fs_resolve fs contracts) (fs_resolve fs (sy_file s)) && mapped_file tracked (sy_file s)) syms in
      utake FILEMAP_CHAR_BUDGET (unlines (unique (map (fun s => manifest_line (sy_name s) (sy_file s)) kept)))
  | None =>
      let kept := List.filter (fun p => fs_is_file fs p && mapped_file tracked p) (py_sort path_leb (fs_rglob_sol fs contracts)) in
      utake FILEMAP_CHAR_BUDGET (unlines (map (fun p => manifest_line (path_stem p) p) kept))
  end.

(** The block of a file from its entries, the wanted ones first, and the budget left *)
Definition render_entries (p : path) (dedup : bool) (wanted_methods : list string) (entries : list (string * list string)) (budget : nat) : string * nat :=
  let wanted e := bool_decide (e.1 ∈ wanted_methods) in
  match List.concat (map snd (List.filter wanted entries)) ++ List.concat (map snd (List.filter (fun e => negb (wanted e)) entries)) with
  | [] => ("", budget)
  | lines =>
      let body := utake budget (unlines (if dedup then unique lines else lines)) in
      ("// " +:+ path_stem p +:+ " - real callable signatures:" +:+ nls +:+ body, budget - ulen body)
  end.

Definition render_ast (ix : SymbolIndex) (wanted_methods : list string) (p : path) (budget : nat) : res (string * nat) :=
  let visible := List.filter (fun m => bool_decide (sy_visibility m ∈ ["external"; "public"])) (functions_in_file ix fs p) in
  Ok (render_entries p false wanted_methods (map (fun m => (sy_name m, sig_entry (sy_definition m) (sy_name m) (sy_modifiers m))) visible) budget).

Definition regex_entry (sig : string) : res (string * list string) :=
  let sig := sig +:+ ";" in
  let fname := match re_match FUNC_NAME_RE sig with Some m => group_or_empty 1 sig m | None => "?" end in
  mods ← sig_modifiers sig;
  Ok (fname, sig_entry sig fname mods).

Definition render_regex (wanted_methods : list string) (p : path) (budget : nat) : res (string * nat) :=
  txt ← fs_read fs p;
  let sigs := map (fun s => strip (re_sub ws1 " " s)) (re_findall0 FUNC_SIG_RE txt) in
  entries ← map_res regex_entry (List.filter (fun s => contains "external" s || contains "public" s) sigs);
  Ok (render_entries p true wanted_methods entries budget).

Definition render_api (symbol_index : option SymbolIndex) : list string -> path -> nat -> res (string * nat) :=
  match symbol_index with Some ix => render_ast ix | None => render_regex end.

Fixpoint visit_files (symbol_index : option SymbolIndex) (wanted_methods : list string) (to_visit : list path) (budget : nat)
  (seen : list path) (blocks : list string) : res (list path * list string) :=
  match to_visit with
  | [] => Ok (seen, blocks)
  | p :: to_visit' =>
      if bool_decide (p ∈ seen) || (budget =? 0) then visit_files symbol_index wanted_methods to_visit' budget seen blocks
      else
        bb ← render_api symbol_index wanted_methods p budget;
        visit_files symbol_index wanted_methods to_visit' bb.2 (seen ++ [p]) (if truthy bb.1 then blocks ++ [bb.1] else blocks)
  end.

Fixpoint visit_names (symbol_index : option SymbolIndex) (wanted_methods : list string) (per_name_budget : nat) (names : list string)
  (seen : list path) (blocks : list string) : res (list string) :=
  match names with
  | [] => Ok blocks
  | name :: names' =>
      match sources_named fs rglob project name with
      | [] => visit_names symbol_index wanted_methods per_name_budget names' seen blocks
      | primary :: _ =>
          txt ← fs_read fs primary;
          sb ← visit_files symbol_index wanted_methods (primary :: resolve_local_imports fs primary txt) per_name_budget seen blocks;
          visit_names symbol_index wanted_methods per_name_budget names' sb.1 sb.2
      end
  end.

Definition build_callable_api (location : string) (symbol_index : option SymbolIndex) : res string :=
  match location_names location with
  | [] => Ok ""
  | names =>
      blocks ← visit_names symbol_index (location_methods location) (Nat.max 1 (CALLABLE_API_BUDGET / length names)) names [] [];
      Ok (join (nls +:+ nls) blocks)
  end.
End api.

(** ** The worked example *)

(** [\b(?:abstract\s+)?contract\s+([A-Za-z0-9_]+)] *)
Definition CONTRACT_DEF_RE : re := RAll [RBound; ROpt (RSeq (RStr "abstract") ws1); RStr "contract"; ws1; RGroup 1 word1].
Definition ASSERT_RE : re :=
  RAll [RBound; RAny (map RStr ["assertEq"; "assertTrue"; "assertFalse"; "assertGt"; "assertGe"; "assertLt"; "assertLe"; "assertNotEq";
                                "assertApproxEqAbs"; "expectRevert"; "expectEmit"]); RBound].
Definition inherits_re (base : string) : re :=
  RAll [RBound; RStr "is"; RBound; RMany (RNoneOf "{"); RBound; RStr base; RBound].
Definition OWN_SETUP_RE : re := RAll [RBound; RStr "function"; ws1; RStr "setUp"; RBound].

(** [(has_setup, len(txt), rp)] *)
Record Cand := mkCand { cand_setup : bool; cand_len : nat; cand_path : path }.
Definition cand_leb (a b : Cand) : bool :=
  if Bool.eqb (cand_setup a) (cand_setup b) then
    (cand_len a <? cand_len b) || (cand_len a =? cand_len b) && path_leb (cand_path a) (cand_path b)
  else cand_setup b.

Section example.
Context (fs : FileSystem) (git : res string) (project : path).

Definition pinned_example (spec : string) : option path :=
  (fun t => fs_resolve fs (token_path project t)) <$> first (fun t => fs_is_file fs (token_path project t)) (scaffold_tokens spec).

Definition base_contracts (base_paths : list path) : res (list string) :=
  names ← map_res (fun bp => t ← fs_read fs bp; Ok (re_findall1 CONTRACT_DEF_RE t)) base_paths;
  Ok (unique (List.concat names)).

(** A file the example may be, or none: an original that is neither the base nor named
    after the finding, inherits the base and asserts something *)
Definition example_candidate (tracked base_paths : list path) (base_names excl : list string) (f : path) : res (option Cand) :=
  let rp := fs_resolve fs f in
  if negb (bool_decide (tracked = [])) && negb (bool_decide (rp ∈ tracked)) then Ok None
  else if bool_decide (rp ∈ map (fs_resolve fs) base_paths) then Ok None
  else if existsb (fun x => contains x (lower (path_name f))) excl then Ok None
  else
    txt ← fs_read fs f;
    if negb (existsb (fun bn => re_test (inherits_re bn) txt) base_names && re_test ASSERT_RE txt) then Ok None
    else Ok (Some (mkCand (re_test OWN_SETUP_RE txt) (ulen txt) rp)).

Definition resolve_example (spec : string) (disabled : bool) (base_paths : list path) (exclude_stems : list string) : res (option path) :=
  if disabled then Ok None
  else match pinned_example spec with
  | Some p => Ok (Some p)
  | None =>
      if bool_decide (base_paths = []) then Ok None
      else
        base_names ← base_contracts base_paths;
        let tracked := tracked_sol fs git project in
        dir ← foundry_test_dir fs project;
        let test_dir := path_join project (to_path dir) in
        if negb (fs_is_dir fs test_dir) || bool_decide (base_names = []) then Ok None
        else
          cands ← map_res (example_candidate tracked base_paths base_names (map lower exclude_stems)) (fs_rglob_sol fs test_dir);
          Ok (cand_path <$> head (py_sort cand_leb (omap id cands)))
  end.

Definition read_example (p : option path) : res string :=
  match p with
  | None => Ok ""
  | Some p =>
      t ← fs_read fs p;
      Ok ("// a REAL PoC from this project (different finding) - copy its structure:" +:+ nls +:+ utake EXAMPLE_CHAR_BUDGET t)
  end.
End example.

(** ** Structural defects *)

(** [function\s+setUp\s*\([^)]*\)\s*(?:public|external)(?![^{;]*\bvirtual\b)] *)
Definition NONVIRTUAL_SETUP_RE : re :=
  RAll [RStr "function"; ws1; RStr "setUp"; ws; RChr "("; RMany (RNoneOf ")"); RChr ")"; ws; RAlt (RStr "public") (RStr "external");
        RNotAhead (RAll [RMany (RNoneOf "{;"); RBound; RStr "virtual"; RBound])].
Definition base_has_nonvirtual_setup (scaffold : string) : bool := re_test NONVIRTUAL_SETUP_RE scaffold.

(** [\bcontract\s+\w+\s+is\s+\w] and [import[^;]*?QUOTE([^QUOTES]+)QUOTE] *)
Definition INHERITS_BASE_RE : re := RAll [RBound; RStr "contract"; ws1; word1; ws1; RStr "is"; ws1; RWord].
Definition POC_IMPORT_RE : re := RAll [RStr "import"; RManyLazy (RNoneOf ";"); RQuote; RGroup 1 (RSome RNoQuote); RQuote].

Definition NO_ASSERTION : string :=
  "no active assertion/expectRevert - the test is empty or fully commented out (a vacuous test that reproduces nothing).".
Definition redeclared (stem : string) : string :=
  "re-declares the real contract `" +:+ stem
  +:+ "` inline (a mock) - you MUST import the real one via its given path, never mock or reimplement it.".
Definition NO_IMPORT : string :=
  "does not import the real target contract - add an import using the exact path from its source-block header.".

Definition redeclares (stem body : string) : bool := re_test (RAll [RBound; RStr "contract"; ws1; RStr stem; RBound]) body.
Definition imports_target (target_stems : list string) (body : string) : bool :=
  existsb (fun imp => existsb (fun s => contains s imp) target_stems) (re_findall1 POC_IMPORT_RE body).

Definition poc_defects (code : string) (target_stems : list string) (scaffold_used : bool) : list string :=
  let body := strip_comments code in
  (if re_test ASSERT_RE body then [] else [NO_ASSERTION])
  ++ map redeclared (List.filter (fun stem => redeclares stem body) target_stems)
  ++ (let inherits_base := scaffold_used && re_test INHERITS_BASE_RE body in
      if negb (bool_decide (target_stems = [])) && negb inherits_base && negb (imports_target target_stems body) then [NO_IMPORT] else []).

(** ** The inventory of the scaffold *)

(** [^\s*QUOTE?([^QUOTES=\s]+/=[^QUOTES]+)QUOTE?\s*,?\s*$], multiline, and
    [remappings\s*=\s*\[(.*?)\]], dot matching newlines *)
Definition REMAP_LINE_RE : re :=
  RAll [RBol true; ws; ROpt RQuote;
        RGroup 1 (RAll [RSome (RSet (fun c => negb (Ascii.eqb c "034" || Ascii.eqb c "'" || Ascii.eqb c "=" || is_space c))); RStr "/="; RSome RNoQuote]);
        ROpt RQuote; ws; ROpt (RChr ","); ws; REol true].
Definition REMAP_BLOCK_RE : re := RAll [RStr "remappings"; ws; RChr "="; ws; RChr "["; RGroup 1 (RManyLazy RDotAll); RChr "]"].
Definition QUOTED_RE : re := RAll [RQuote; RGroup 1 (RSome RNoQuote); RQuote].

(** [s.strip(chars)] *)
Definition strip_set (p : ascii -> bool) (s : string) : string := rdrop_while p (drop_while p s).

Definition foundry_remappings (fs : FileSystem) (project : path) : res (list string) :=
  let toml := path_join project ["foundry.toml"] in
  if negb (fs_is_file fs toml) then Ok []
  else
    text ← fs_read fs toml;
    let lines := map (fun s => strip_set (fun c => Ascii.eqb c "034" || Ascii.eqb c "'") (strip_set (Ascii.eqb ",") (strip s))) (re_findall1 REMAP_LINE_RE text) in
    let block := match re_search REMAP_BLOCK_RE text with Some m => re_findall1 QUOTED_RE (group_or_empty 1 text m) | None => [] end in
    Ok (unique (lines ++ block)).

Definition scaffold_api_field (inventory : option ScaffoldApiInventory) : string :=
  match inventory with None => "" | Some inv => nls +:+ data_block inv +:+ nls end.

Definition drop_side (sv : InventoryStateVar) : pyval :=
  PDict [("contract", PStr (sv_contract sv)); ("path", PStr (sv_path sv)); ("type_text", PStr (sv_type sv)); ("distance", PInt (Z.of_nat (sv_distance sv)))].

Definition partial_event (fid : string) (inv : ScaffoldApiInventory) : list (string * pyval) :=
  [("event", PStr "scaffold_api_partial"); ("finding_id", PStr fid);
   ("unresolved_parents", PList (map (fun u => PDict [("name", PStr (up_name u)); ("from_contract", PStr (up_contract u)); ("reason", PStr (up_reason u))])
                                   (in_unresolved inv)))]
  ++ match in_drops inv with
     | [] => []
     | drops => [("diamond_drops", PList (map (fun d => PDict [("name", PStr (dd_name d)); ("discarded", drop_side (dd_discarded d)); ("winning", drop_side (dd_winning d))]) drops))]
     end.

(** [fuel] bounds the walk over the parents; a walk it does not end raises, which no
    fuel past the bound of the walk does *)
Definition refresh_scaffold_inventory {W} (fs : FileSystem) (depth : nat) (parse : string -> res pyval) (fuel : nat) (project : path)
  (scaffold_paths : list path) (fid : string) : ST (Run W) (option ScaffoldApiInventory) :=
  remappings ← st_lift (foundry_remappings fs project);
  d ← st_lift (derive_or_omit fs depth parse None remappings fuel scaffold_paths);
  match d with
  | None => st_lift (Raise (Exn "OutOfFuel" ""))
  | Some (inv, reason) =>
      match opt_truthy reason, inv with
      | Some why, _ => _ ← log [("event", PStr "scaffold_api_omit"); ("finding_id", PStr fid); ("reason", PStr why)]; mret None
      | None, None => mret None
      | None, Some i => if in_degraded i then _ ← log (partial_event fid i); mret (Some i) else mret (Some i)
      end
  end.

Definition NO_BASE : string := "(no base provided - deploy the real contracts yourself; still NEVER mock them)".

Definition grounding (fs : FileSystem) (cwd : path) (rglob : string -> list path) (project : path) (location scaffold callable_api : string) :
  res (string * string) :=
  if truthy scaffold then
    source ← read_location_source fs cwd rglob project location 1 (Z.to_nat (if truthy callable_api then 8000 else 12000)) (Some PRIMARY_CHAR_CAP);
    Ok (source, scaffold)
  else
    source ← read_location_source fs cwd rglob project location IMPORT_DEPTH SOURCE_CHAR_BUDGET (Some PRIMARY_CHAR_CAP);
    Ok (source, NO_BASE).

(** ** What is read for a location *)

Section sources_spec.
Context (fs : FileSystem) (cwd : path) (rglob : string -> list path) (project : path).

Abbreviation poc_dir := (poc_dir_of project).

(** The files a location reaches: the first file of a name, and the local imports of a
    reached file *)
Inductive located (names : list string) : path -> nat -> Prop :=
| located_primary name p rest : name ∈ names -> sources_named fs rglob project name = p :: rest -> located names p 0
| located_import p n q : located names p n -> q ∈ imports_of fs p -> located names q (S n).

(** A block and the part of a file it shows *)
Definition shows (cap : nat) (p : path) (block : string) (n : nat) : Prop :=
  exists kind t k, fs_read fs p = Ok t /\ k <= cap /\ block = import_header kind (relpath cwd p poc_dir) (utake k t) /\ n = ulen (utake k t).

(** What has been emitted under a budget *)
Record emitted_within (names : list string) (depth budget : nat) (e : Emitted) : Prop := {
  ew_once : NoDup (em_seen e);
  ew_located : forall p, p ∈ em_seen e -> exists n, n <= depth /\ located names p n;
  ew_shown : exists sizes, length sizes = length (em_seen e) /\ Forall2 (fun p bn => shows budget p bn.1 bn.2) (em_seen e) (zip (em_blocks e) sizes) /\
    length (em_blocks e) = length sizes /\ list_sum sizes + em_budget e = budget;
}.

Lemma emit_within names depth budget cap p kind e e' n : n <= depth -> located names p n -> emitted_within names depth budget e ->
  emit fs cwd project cap p kind e = Ok e' -> emitted_within names depth budget e'.
Proof.
  intros Hn Hp He. pose proof He as [Honce Hloc (sizes & Hlen & Hall & Hlenb & Hsum)]. unfold emit. case_bool_decide as Hin; cbn [orb]; cbv iota; [by intros [= <-]|].
  destruct (Nat.eqb_spec (em_budget e) 0) as [|Hb]; cbv iota; [by intros [= <-]|].
  set (k := match cap with Some c => _ | None => _ end). assert (k <= em_budget e) as Hk by (unfold k; repeat case_match; lia).
  destruct (fs_read fs p) as [t|] eqn:Ht; [|done]. cbn [mbind res_bind]. intros [= <-]. pose proof (ulen_utake k t) as Hu. split; cbn [em_seen em_blocks em_budget].
  - apply NoDup_app. split_and!; [done| |apply NoDup_singleton]. intros x Hx ->%list_elem_of_singleton. done.
  - intros q [Hq|Hq%list_elem_of_singleton]%elem_of_app; [by apply Hloc|subst q; eauto].
  - exists (sizes ++ [ulen (utake k t)]). rewrite !length_app. cbn [length]. split_and!; [lia| |lia|rewrite list_sum_app; cbn; lia].
    rewrite zip_with_app by done. apply Forall2_app; [done|]. apply Forall2_cons. split; [|constructor].
    exists kind, t, k. cbn [fst snd]. split_and!; [done|lia|done|done].
Qed.

Lemma emit_primaries_within depth budget cap names0 : forall names fr e fr' e', (forall x, x ∈ names -> x ∈ names0) ->
  (forall p n, (p, n) ∈ fr -> n <= depth /\ located names0 p n) -> emitted_within names0 depth budget e ->
  emit_primaries fs cwd rglob project cap names fr e = Ok (fr', e') ->
  (forall p n, (p, n) ∈ fr' -> n <= depth /\ located names0 p n) /\ emitted_within names0 depth budget e'.
Proof.
  induction names as [|name names IH]; intros fr e fr' e' Hsub Hfr He H; cbn [emit_primaries] in H; [by injection H as <- <-|].
  assert (forall x, x ∈ names -> x ∈ names0) as Hsub' by (intros; apply Hsub; by right).
  destruct (sources_named fs rglob project name) as [|p rest] eqn:Hs; [by eapply IH|].
  apply res_bind_Ok in H as (e1 & He1 & H). assert (located names0 p 0) as Hp by (eapply located_primary; [|exact Hs]; apply Hsub; by left).
  eapply IH; [exact Hsub'| |eapply emit_within; [|exact Hp|exact He|exact He1]; lia|exact H].
  intros q n [Hq|Hq%list_elem_of_singleton]%elem_of_app; [by apply Hfr|]. injection Hq as -> ->. split; [lia|done].
Qed.

Lemma emit_deps_within depth budget names nd : S nd <= depth -> forall deps fr e fr' e',
  (forall q, q ∈ deps -> located names q (S nd)) -> (forall p n, (p, n) ∈ fr -> n <= depth /\ located names p n) ->
  emitted_within names depth budget e -> emit_deps fs cwd project nd deps fr e = Ok (fr', e') ->
  (forall p n, (p, n) ∈ fr' -> n <= depth /\ located names p n) /\ emitted_within names depth budget e' /\
  exists new, fr' = fr ++ map (fun q => (q, S nd)) new /\ new `sublist_of` deps.
Proof.
  intros Hnd. induction deps as [|q deps IH]; intros fr e fr' e' Hdeps Hfr He H; cbn [emit_deps] in H.
  { injection H as <- <-. split_and!; [done|done|]. exists []. by rewrite app_nil_r. }
  assert (forall x, x ∈ deps -> located names x (S nd)) as Hdeps' by (intros; apply Hdeps; by right).
  case_bool_decide.
  - destruct (IH _ _ _ _ Hdeps' Hfr He H) as (? & ? & new & -> & Hnew). split_and!; [done|done|]. exists new. split; [done|by apply sublist_cons].
  - apply res_bind_Ok in H as (e1 & He1 & H). assert (located names q (S nd)) as Hq by (apply Hdeps; by left).
    apply IH in H as (? & ? & new & -> & Hnew); [|done| |by eapply emit_within].
    + split_and!; [done|done|]. exists (q :: new). cbn [map]. rewrite <- app_assoc. split; [done|by apply sublist_skip].
    + intros x n [Hx|Hx%list_elem_of_singleton]%elem_of_app; [by apply Hfr|]. injection Hx as -> ->. done.
Qed.

Lemma list_sum_sublist (f : path -> nat) l l' : l `sublist_of` l' -> list_sum (map f l) <= list_sum (map f l').
Proof. unfold list_sum. induction 1; cbn; lia. Qed.

(** The walk over the imports ends: nothing is left to walk, or no budget *)
Lemma follow_imports_ends depth budget names : forall fuel fr e fr' e', turns_needed fs depth fr <= fuel ->
  (forall p n, (p, n) ∈ fr -> n <= depth /\ located names p n) -> emitted_within names depth budget e ->
  follow_imports fs cwd project fuel depth fr e = Ok (fr', e') -> (fr' = [] \/ em_budget e' = 0) /\ emitted_within names depth budget e'.
Proof.
  induction fuel as [|fuel IH]; intros [|[p n] fr] e fr' e' Hf Hfr He H; cbn [follow_imports] in H; [injection H as <- <-; by split; [left|]| |injection H as <- <-; by split; [left|]|].
  { unfold turns_needed in Hf. cbn in Hf. destruct (depth - n); cbn in Hf; lia. }
  destruct (Nat.eqb_spec (em_budget e) 0) as [Hb|Hb]; [injection H as <- <-; by split; [right|]|].
  assert (forall q m, (q, m) ∈ fr -> m <= depth /\ located names q m) as Hfr' by (intros; apply Hfr; by right).
  assert (import_tree fs (depth - n) p + turns_needed fs depth fr <= S fuel) as Hf' by exact Hf. clear Hf. rename Hf' into Hf. destruct (Nat.leb_spec depth n) as [Hd|Hd].
  - eapply IH; [|exact Hfr'|exact He|exact H]. replace (depth - n) with 0 in Hf by lia. cbn in Hf. lia.
  - destruct (emit_deps fs cwd project n (imports_of fs p) fr e) as [[fr1 e1]|] eqn:Hdeps; [|done]. cbn [mbind res_bind] in H.
    destruct (Hfr p n (list_elem_of_here _ _)) as [Hn Hp].
    eapply (emit_deps_within depth budget names n) in Hdeps as (Hfr1 & He1 & new & -> & Hnew);
      [|lia|by intros q Hq; eapply located_import|exact Hfr'|exact He]. eapply IH; [|exact Hfr1|exact He1|exact H].
    destruct (depth - n) as [|left] eqn:Hleft; [lia|]. cbn [import_tree] in Hf. unfold turns_needed. rewrite map_app, list_sum_app, map_map.
    assert (forall q, import_tree fs (depth - (q, S n).2) (q, S n).1 = import_tree fs left q) as Hext by (intros q; cbn [fst snd]; f_equal; lia).
    rewrite (map_ext _ _ Hext). pose proof (list_sum_sublist (import_tree fs left) _ _ Hnew). unfold turns_needed in Hf. lia.
Qed.

(** C14. The grounding of a draft stays within its budget.  What is read for a
    location is one block for each of a list of distinct files, each the first file of a
    name in the location or reached from one by at most [depth] local imports; a block is a
    prefix of its file, headed by an import path that leads to it, and the prefixes
    together are no longer than the budget. *)
Theorem location_source_within location depth budget cap text
  (H : read_location_source fs cwd rglob project location depth budget cap = Ok text) (Hn : location_names location <> []) :
  exists (files : list path) blocks sizes, text = join (nls +:+ nls) blocks /\ NoDup files /\
    (forall p, p ∈ files -> exists n, n <= depth /\ located (location_names location) p n) /\
    length blocks = length sizes /\ Forall2 (fun p bn => shows budget p bn.1 bn.2) files (zip blocks sizes) /\ list_sum sizes <= budget.
Proof.
  unfold read_location_source in H. set (names := location_names location) in *. destruct names as [|name names'] eqn:Hnames; [done|]. rewrite <- Hnames in *.
  apply res_bind_Ok in H as ([fr e] & Hp & H). apply res_bind_Ok in H as ([fr' e'] & Hf & [= <-]). cbn [fst snd] in *.
  eapply (emit_primaries_within depth budget) in Hp as [Hfr He]; [|done|by intros ? ? ?%elem_of_nil|].
  - eapply follow_imports_ends in Hf as [_ [Honce Hloc (sizes & Hlen & Hall & Hlenb & Hsum)]]; [|done|exact Hfr|exact He].
    exists (em_seen e'), (em_blocks e'), sizes. split_and!; [done|done|done|done|done|lia].
  - split; [constructor|by intros ? ?%elem_of_nil|]. exists []. cbn. split_and!; [done|constructor|done|lia].
Qed.
End sources_spec.

(** A disk with one contract that imports another *)
Definition two_files : FileSystem := {|
  fs_resolve p := p;
  fs_resolve_error _ := None;
  fs_exists _ := true;
  fs_is_file p := bool_decide (p ∈ [["/"; "proj"; "Vault.sol"]; ["/"; "proj"; "IVault.sol"]]);
  fs_is_dir _ := false;
  fs_read p := if bool_decide (p = ["/"; "proj"; "Vault.sol"]) then Ok ("import " +:+ dquote +:+ "./IVault.sol" +:+ dquote +:+ ";" +:+ nls +:+ "contract Vault {}")
               else Ok "interface IVault {}";
  fs_rglob _ := [];
  fs_rglob_sol _ := [];
|}.

Definition two_files_source : res string :=
  read_location_source two_files ["/"] (fun pat => if String.eqb pat "Vault.sol" then [["/"; "proj"; "Vault.sol"]] else []) ["/"; "proj"] "Vault.withdraw" 1 100 (Some 100).

Lemma location_source_within_witness : exists text, two_files_source = Ok text /\ exists (files : list path) blocks sizes, text = join (nls +:+ nls) blocks /\ NoDup files /\
  length files = length sizes /\ list_sum sizes <= 100.
Proof.
  destruct two_files_source as [text|e] eqn:E.
  - exists text. split; [done|].
    destruct (location_source_within _ _ _ _ _ _ _ _ _ E ltac:(vm_compute; done)) as (files & blocks & sizes & Ht & Hnd & _ & Hlen & Hall & Hsum).
    exists files, blocks, sizes. split_and!; [exact Ht|exact Hnd| |exact Hsum].
    apply Forall2_length in Hall. rewrite Hall, length_zip_with, Hlen. apply Nat.min_id.
  - exfalso. assert (match two_files_source with Ok _ => true | Raise _ => false end = true) as Hok by (vm_compute; reflexivity). by rewrite E in Hok.
Defined.

(** ** The scaffold and the example *)

(** The check before the run and the lookup in the run read the same tokens: a scaffold
    the check accepts resolves to all the files it names, when it names any *)
Lemma preflight_agrees fs git project spec : preflight_operator_scaffold fs project spec = Started tt -> truthy (strip spec) = true ->
  scaffold_tokens spec <> [] ->
  resolve_scaffold fs git project spec false = Ok (map (fun t => fs_resolve fs (token_path project t)) (scaffold_tokens spec)).
Proof.
  unfold preflight_operator_scaffold, resolve_scaffold, resolve_scaffold_tokens. cbn [fst snd]. intros H Hs Hne. rewrite Hs in H. cbn [negb] in H.
  set (tokens := scaffold_tokens spec) in *. assert (List.filter (fun t => fs_is_file fs (token_path project t)) tokens = tokens) as ->; [|by destruct tokens].
  destruct (List.filter (fun t => negb (fs_is_file fs (token_path project t))) tokens) as [|x l] eqn:Hf; [|done]. clear H Hne.
  induction tokens as [|t tokens IH]; [done|]. cbn [List.filter] in *. destruct (fs_is_file fs (token_path project t)); [|done]. by rewrite IH.
Qed.

(** A scaffold of commas only passes the check and is not a scaffold *)
Lemma commas_pass_preflight fs git project : preflight_operator_scaffold fs project "," = Started tt /\
  resolve_scaffold fs git project "," false = discover_scaffold fs git project.
Proof. done. Qed.

(** An example found for a finding is an original, is not the base, is not named after
    what is excluded, inherits a contract of the base and asserts something *)
Lemma example_not_leaked fs git project spec base_paths exclude p :
  pinned_example fs project spec = None -> resolve_example fs git project spec false base_paths exclude = Ok (Some p) ->
  exists f txt, p = fs_resolve fs f /\ (tracked_sol fs git project = [] \/ p ∈ tracked_sol fs git project) /\
    ~ (p ∈ map (fs_resolve fs) base_paths) /\ (forall x, x ∈ exclude -> contains (lower x) (lower (path_name f)) = false) /\
    fs_read fs f = Ok txt /\ re_test ASSERT_RE txt = true /\
    (exists base_names bn, base_contracts fs base_paths = Ok base_names /\ bn ∈ base_names /\ re_test (inherits_re bn) txt = true).
Proof.
  unfold resolve_example. intros ->. case_bool_decide; [done|]. intros H0. apply res_bind_Ok in H0 as (base_names & Hb & H0).
  apply res_bind_Ok in H0 as (dir & _ & H0). destruct (_ || _); [done|]. apply res_bind_Ok in H0 as (cands & Hc & H0).
  destruct (py_sort cand_leb (omap id cands)) as [|c l] eqn:Hs; [done|]. injection H0 as <-.
  assert (Some c ∈ cands) as Hin. { assert (c ∈ py_sort cand_leb (omap id cands)) as Hc' by (rewrite Hs; by left). apply elem_of_py_sort, list_elem_of_omap in Hc' as (o & Ho & Ho'). unfold id in Ho'. by subst o. }
  apply map_res_Ok in Hc. apply list_elem_of_lookup in Hin as [i Hi]. eapply Forall2_lookup_r in Hc as (f & _ & Hf); [|exact Hi].
  unfold example_candidate in Hf. destruct (negb _ && negb _) eqn:Htr; [done|]. case_bool_decide as Hbase; [done|].
  destruct (existsb (fun x => contains x _) _) eqn:Hex; [done|]. apply res_bind_Ok in Hf as (txt & Ht & Hf).
  destruct (existsb _ base_names && _) eqn:Hgood; cbn [negb] in Hf; [|done]. injection Hf as <-. cbn [cand_path].
  apply andb_true_iff in Hgood as [Hinh Hass]. exists f, txt. split_and!; [done| |done| |done|done|].
  - case_bool_decide; [by left|]. cbn in Htr. right. by case_bool_decide.
  - intros x Hx. apply not_true_iff_false. intros Hc'. enough (existsb (fun x => contains x (lower (path_name f))) (map lower exclude) = true) by congruence.
    apply existsb_exists. exists (lower x). split; [|done]. apply in_map. by apply list_elem_of_In.
  - apply existsb_exists in Hinh as (bn & Hbn%list_elem_of_In & Hm). eauto.
Qed.

(** A PoC with no structural defect asserts something, declares no target itself, and
    imports a target unless it inherits the scaffold or no target is known *)
Lemma no_defects code stems scaffold_used : poc_defects code stems scaffold_used = [] <->
  re_test ASSERT_RE (strip_comments code) = true /\ (forall s, s ∈ stems -> redeclares s (strip_comments code) = false) /\
  (stems = [] \/ scaffold_used && re_test INHERITS_BASE_RE (strip_comments code) = true \/ imports_target stems (strip_comments code) = true).
Proof.
  unfold poc_defects. cbv zeta. set (body := strip_comments code). split.
  - intros [Ha [Hr Hi]%app_eq_nil]%app_eq_nil. split_and!.
    + by destruct (re_test ASSERT_RE body).
    + intros s Hs. destruct (redeclares s body) eqn:E; [|done]. apply map_eq_nil in Hr.
      assert (In s (List.filter (fun stem => redeclares stem body) stems)) as Hin by (apply filter_In; split; [by apply list_elem_of_In|done]). by rewrite Hr in Hin.
    + case_bool_decide; [by left|]. right. destruct (scaffold_used && re_test INHERITS_BASE_RE body) eqn:E; [by left|]. right. destruct (imports_target stems body); [done|]. done.
  - intros (-> & Hr & Hi). rewrite (filter_all_false (fun stem => redeclares stem body) stems Hr). cbn [map app].
    destruct Hi as [->|[->| ->]]; [by rewrite bool_decide_true|by rewrite andb_false_r|by cbn [negb]; rewrite andb_false_r].
Qed.
