(* ===== verification/RunnerHints.v ===== *)
(** * The PoC queue runner: hints (scripts/poc_queue_runner.py)

    The fixes drawn from a compiler's output against the real signatures and paths, and
    the feedback of a test that ran and did not pass, with its excerpt of the trace. *)

From S2P Require Import Prelude PyStr PyRe PyPath PyNum PyVal SolIndex SolUtils Fixers Inventory WriteExecute Grounding Reach RunnerSource.

(** ** Signatures *)

Definition paragraphs (s : string) : list string := split_str (nls +:+ nls) s.

Fixpoint sigs_in (blocks : list string) (contract : string) : string :=
  match blocks with
  | [] => ""
  | block :: blocks' =>
      if starts_with ("// " +:+ contract +:+ " ") block then utake (Z.to_nat 1400) (unlines (tail (splitlines block))) else sigs_in blocks' contract
  end.
Definition sigs_for (callable_api contract : string) : string := sigs_in (paragraphs callable_api) contract.

Definition sig_by_method (callable_api method : string) : string :=
  let lines := List.concat (map (fun block => tail (splitlines block)) (paragraphs callable_api)) in
  utake (Z.to_nat 600) (unlines (unique (List.filter (re_test (RAll [RBound; RStr "function"; ws1; RStr method; ws; RChr "("])) lines))).

Definition RNotSpace : re := RSet (fun c => negb (is_space c)).
(** [-->\s*\S+\.t\.sol:(\d+):\d+] and [\.(\w+)\s*\(] *)
Definition ERROR_LINE_RE : re :=
  RAll [RStr "-->"; ws; RSome RNotSpace; RStr ".t.sol:"; RGroup 1 (RSome RDigit); RChr ":"; RSome RDigit].
Definition CALL_RE : re := RAll [RChr "."; RGroup 1 word1; ws; RChr "("].

(** The line of a number written in digits; the first line is line 1 *)
Definition line_at (lines : list string) (lineno : string) : option string :=
  let idx := (digits_val 0 lineno - 1)%Z in if (0 <=? idx)%Z then lines !! Z.to_nat idx else None.

Definition line_hints (callable_api : string) (lines : list string) (lineno : string) : list string :=
  match line_at lines lineno with
  | None => []
  | Some line =>
      let src_line := strip line in
      omap (fun method =>
        let sigs := sig_by_method callable_api method in
        if truthy sigs then
          Some ("Line " +:+ lineno +:+ " calls `." +:+ method +:+ "(...)` - your arguments don't match its REAL signature. Use EXACTLY:" +:+ nls
                +:+ sigs +:+ nls +:+ "against: " +:+ src_line)
        else None) (unique (re_findall1 CALL_RE src_line))
  end.

Definition line_level_hints (forge_output code callable_api : string) : list string :=
  if negb (contains "Invalid type for argument" forge_output) && negb (contains "Wrong argument count" forge_output) then []
  else List.concat (map (line_hints callable_api (splitlines code)) (unique (re_findall1 ERROR_LINE_RE forge_output))).

(** ** Redeclarations *)

(** [Identifier already declared\.(.*?)(?=\nError \(|\nWarning|\Z)], dot matching newlines *)
Definition REDECLARED_RE : re :=
  RAll [RStr "Identifier already declared."; RGroup 1 (RManyLazy RDotAll);
        RNotAhead (RNotAhead (RAny [RStr (nls +:+ "Error ("); RStr (nls +:+ "Warning"); RNotAhead RDotAll]))].
(** [-->\s*(\S+\.sol):\d+] *)
Definition SRC_PTR_RE : re := RAll [RStr "-->"; ws; RGroup 1 (RSeq (RSome RNotSpace) (RStr ".sol")); RChr ":"; RDigit; RMany RDigit].

Definition base_state_vars (scaffold : string) : list string :=
  if negb (truthy scaffold) then [] else unique (re_findall1 BASE_STATE_VAR_RE (strip_comments scaffold)).

Definition AMBIGUOUS_REDECLARATION : string :=
  "An identifier is already declared in a contract you inherit - do NOT redeclare inherited state. Remove your duplicate declaration and use the inherited one, or rename yours to a non-colliding name.".

Definition redeclaration_hint (block : string) : string :=
  match unique (re_findall1 BASE_STATE_VAR_RE block) with
  | [name] =>
      let where_ := first (fun p => negb (contains POC_SUBDIR p)) (re_findall1 SRC_PTR_RE block) in
      let loc := match where_ with Some w => if truthy w then " (in `" +:+ w +:+ "`)" else "" | None => "" end in
      "`" +:+ name +:+ "` is ALREADY declared by the test base you inherit" +:+ loc +:+ " - do not redeclare it. Delete your own `" +:+ name
      +:+ "` declaration and use the inherited one (the base's setUp already deployed it). If you genuinely need a separate variable, rename yours instead - the two declarations may have different types."
  | _ => AMBIGUOUS_REDECLARATION
  end.

(** ** Targeted fixes *)

Definition RDQuote : re := RChr "034".
Definition DECLARATION_RE : re := RAll [RStr "Declaration "; RDQuote; RGroup 1 word1; RDQuote; RStr " not found"].
Definition MEMBER_RE : re :=
  RAll [RStr "Member "; RDQuote; RGroup 1 word1; RDQuote; RStr " not found"; RManyLazy (RNoneOf "."); RStr "in contract "; RGroup 2 word1].
Definition SOURCE_RE : re :=
  RAll [RStr "Source "; RDQuote; RGroup 1 (RSeq (RSome (RSet (fun c => negb (Ascii.eqb c "034")))) (RStr ".sol")); RDQuote; RStr " not found"].
Definition QUOTED_NAME_RE : re := RAll [RDQuote; RGroup 1 word1; RDQuote].
Definition ADDR_IFACE_RE : re := RSeq (RStr "conversion from address to contract ") (RGroup 1 word1).

Definition nested_hint (ix : SymbolIndex) (decl : string) : option string :=
  match opt_truthy (nested_container ix decl) with
  | Some container =>
      Some ("`" +:+ decl +:+ "` is a NESTED type declared inside `" +:+ container +:+ "` - remove any `import { " +:+ decl
            +:+ " } from ...;`, import `" +:+ container +:+ "`, and reference it as `" +:+ container +:+ "." +:+ decl +:+ "` everywhere.")
  | None => None
  end.

Definition member_hint (callable_api scaffold member contract : string) : string :=
  if bool_decide (member ∈ base_state_vars scaffold) then
    "`" +:+ member +:+ "` is NOT a member of `" +:+ contract +:+ "` - it is the test base's OWN state variable, already declared and deployed by the base you inherit. Drop the `"
    +:+ contract +:+ ".` qualifier and reference `" +:+ member +:+ "` directly."
  else
    let sigs := sigs_for callable_api contract in
    if truthy sigs then "`" +:+ contract +:+ "` has NO member `" +:+ member +:+ "`. Use only its real functions:" +:+ nls +:+ sigs
    else "`" +:+ contract +:+ "` has no member `" +:+ member +:+ "` - use a real function from [callable_api].".

Definition source_hint (file_map src : string) : string :=
  let name := path_stem (to_path src) in
  let p := path_for file_map name in
  if truthy p then "Import `" +:+ name +:+ "` from the real path `" +:+ p +:+ "`"
  else if contains "_synth/" (replace "\" "/" src) then
    "`" +:+ name +:+ "` is a synthesized base under audit/poc/_synth/ - import it as `./_synth/" +:+ name
    +:+ ".sol` (a bare `_synth/...` path resolves from the project root and will not be found)."
  else "`" +:+ name +:+ "` is not a real file - use a name from [project_files], not an invented one.".

(** The names of the inventory, and those of the output that are among them *)
Definition inventory_names (inv : ScaffoldApiInventory) : list string :=
  map sv_name (in_state_vars inv) ++ map ih_name (in_lifecycle inv ++ in_callable inv).

Definition undefined_hint (forge_output : string) (inventory : option ScaffoldApiInventory) : string :=
  match inventory with
  | Some inv =>
      let hits := List.filter (fun n => bool_decide (n ∈ inventory_names inv)) (unique (re_findall1 QUOTED_NAME_RE forge_output)) in
      let exact := match hits with
                   | [] => ""
                   | _ => " Exact match(es) already on the inherited base: " +:+ join ", " (map (fun n => "`" +:+ n +:+ "`") hits) +:+ "."
                   end in
      "An identifier is undefined: the inherited base ALREADY exposes a concrete symbol list - do NOT invent parallel names." +:+ exact
      +:+ " Use names from [project_files] + the base inventory below; IMPORT every type you reference (imports are not inherited from the base)." +:+ nls
      +:+ "[scaffold_api excerpt]" +:+ nls +:+ hint_excerpt inv
  | None =>
      "An identifier is undefined: use only names from [project_files] + the base's state variables, and IMPORT every type you reference (imports are not inherited from the base)."
  end.

Definition address_hint (typ : string) : string :=
  "A call passes a bare `address` where type `" +:+ typ +:+ "` is required - wrap the argument as `" +:+ typ
  +:+ "(address(x))` (or pass the already-typed variable), don't pass a bare address.".

Definition all_hints (forge_output callable_api file_map code : string) (symbol_index : option SymbolIndex) (scaffold : string)
  (inventory : option ScaffoldApiInventory) : list string :=
  line_level_hints forge_output code callable_api
  ++ match symbol_index with Some ix => omap (nested_hint ix) (re_findall1 DECLARATION_RE forge_output) | None => [] end
  ++ map (fun m => member_hint callable_api scaffold (group_or_empty 1 forge_output m) (group_or_empty 2 forge_output m)) (re_finditer MEMBER_RE forge_output)
  ++ map (source_hint file_map) (re_findall1 SOURCE_RE forge_output)
  ++ (if contains "Wrong argument count" forge_output
      then ["A call has the wrong number of arguments - match a signature in [callable_api] exactly."] else [])
  ++ (if contains "Identifier not found" forge_output then [undefined_hint forge_output inventory] else [])
  ++ map redeclaration_hint (re_findall1 REDECLARED_RE forge_output)
  ++ map address_hint (re_findall1 ADDR_IFACE_RE forge_output).

Definition targeted_hints (forge_output callable_api file_map code : string) (symbol_index : option SymbolIndex) (scaffold : string)
  (inventory : option ScaffoldApiInventory) : string :=
  unlines (unique (all_hints forge_output callable_api file_map code symbol_index scaffold inventory)).

(** ** The trace of a failing test *)

(** [\[FAIL[:.][^\n]*] and [^\s*(\[PASS\]|\[FAIL[:.]|Suite result:|Ran \d+ test|Compiling |Warning )] *)
Definition FAIL_LINE_RE : re := RAll [RStr "[FAIL"; ROneOf ":."; RMany RDot].
Definition TRACE_BLOCK_END_RE : re :=
  RAll [RBol false; ws; RAny [RStr "[PASS]"; RSeq (RStr "[FAIL") (ROneOf ":."); RStr "Suite result:"; RAll [RStr "Ran "; RSome RDigit; RStr " test"];
                              RStr "Compiling "; RStr "Warning "]].
Definition TRACE_EXCERPT_BUDGET : Z := 2500.

Definition is_fail_line (line : string) : bool := re_fullstart FAIL_LINE_RE (strip line).
Definition ends_block (line : string) : bool := re_fullstart TRACE_BLOCK_END_RE line.

(** The blocks from the lines on, [cur] being the one that is open *)
Fixpoint fail_blocks (cur : option (list string)) (lines : list string) : list (list string) :=
  match lines with
  | [] => match cur with Some b => [b] | None => [] end
  | l :: lines' =>
      match cur with
      | Some b =>
          if ends_block l then b :: fail_blocks (if is_fail_line l then Some [l] else None) lines'
          else fail_blocks (Some (b ++ [l])) lines'
      | None => fail_blocks (if is_fail_line l then Some [l] else None) lines'
      end
  end.

Definition has_trace (block : string) : bool := contains "Traces:" block || contains "Backtrace:" block.

(** [s[-n:]] for [n >= 0]: all of [s] when [n] is zero *)
Definition from_end (n : nat) (s : string) : string := if n =? 0 then s else ulast n s.

Definition trace_excerpt (stdout : string) (budget : Z) : string :=
  match List.filter has_trace (map (fun b => rstrip (unlines b)) (fail_blocks None (splitlines stdout))) with
  | [] => ""
  | blocks =>
      let excerpt := join (nls +:+ nls) blocks in
      if (Z.of_nat (ulen excerpt) <=? budget)%Z then excerpt
      else
        let head := before_char nl excerpt in
        let tail := from_end (Z.to_nat (Z.max (budget - Z.of_nat (ulen head) - 5) 0)) excerpt in
        head +:+ nls +:+ "…" +:+ nls +:+ tail
  end.

(** ** Reverts *)

(** [ERC20InsufficientAllowance\((0x[0-9a-fA-F]+),\s*\d+,\s*(\d+)] *)
Definition ALLOWANCE_REVERT_RE : re :=
  RAll [RStr "ERC20InsufficientAllowance("; RGroup 1 (RSeq (RStr "0x") (RSome RHex)); RChr ","; ws; RSome RDigit; RChr ","; ws; RGroup 2 (RSome RDigit)].

Definition allowance_hint (spender needed : string) : string :=
  "REVERT `ERC20InsufficientAllowance`: a token transfer needs approval FIRST. The account that owns the tokens must approve spender `" +:+ spender
  +:+ "` for at least " +:+ needed +:+ " BEFORE the failing call - add, before that call: `vm.prank(<the account being debited>); IERC20(<the token being pulled>).approve("
  +:+ spender +:+ ", type(uint256).max);`. The token is usually the vault's asset or share token; the owner is the account doing the redeem/deposit.".

Definition setup_revert_hints (blob : string) : string :=
  unlines (unique (map (fun m => allowance_hint (group_or_empty 1 blob m) (group_or_empty 2 blob m)) (re_finditer ALLOWANCE_REVERT_RE blob))).

Definition TRACE_NOTE : string :=
  "EXECUTION TRACE of the failing test (forge -vvv - the call path to the revert/assert; read it to see WHICH call blocked the exploit and with what value):" +:+ nls.

Definition generic_note (fails : list string) (title description : string) : string :=
  "The test compiled and ran, but did NOT pass - this is an EXPLOIT-LOGIC problem, not a compile error:" +:+ nls +:+ utake 800 (unlines (unique fails))
  +:+ nls +:+ nls +:+ "Re-read the finding and fix the SEQUENCE/PRECONDITIONS, not just syntax:" +:+ nls
  +:+ "Title: " +:+ title +:+ nls +:+ "Description: " +:+ description +:+ nls
  +:+ "Common causes: wrong order of calls, a precondition never actually set up (e.g. a required state/role/balance not established before the exploit step), asserting the wrong condition, or expecting a revert that the real code doesn't produce at that call (check which call in the sequence should actually revert).".

Definition revert_hints (stdout stderr title description : string) : string :=
  let blob := stdout +:+ nls +:+ stderr in
  match re_findall0 FAIL_LINE_RE blob with
  | [] => ""
  | fails =>
      let setup := setup_revert_hints blob in
      let trace := trace_excerpt stdout TRACE_EXCERPT_BUDGET in
      let generic := generic_note fails title description in
      let core := if truthy trace then TRACE_NOTE +:+ trace +:+ nls +:+ nls +:+ generic else generic in
      if truthy setup then setup +:+ nls +:+ nls +:+ core else core
  end.

(** ** The excerpt *)

(** The excerpt is within its budget unless the line it begins with fills the budget but
    for five characters; then the whole text follows that line *)
Lemma trace_excerpt_bounded stdout budget : (0 <= budget)%Z ->
  (Z.of_nat (ulen (trace_excerpt stdout budget)) <= budget)%Z \/
  exists head whole, (budget - 5 <= Z.of_nat (ulen head))%Z /\ (budget < Z.of_nat (ulen whole))%Z /\
    trace_excerpt stdout budget = head +:+ nls +:+ "…" +:+ nls +:+ whole.
Proof.
  intros Hb. unfold trace_excerpt. destruct (List.filter has_trace _) as [|b blocks]; [left; cbn; lia|]. cbv zeta.
  set (excerpt := join _ _). destruct (Z.leb_spec (Z.of_nat (ulen excerpt)) budget) as [Hle|Hgt]; [by left|].
  set (head := before_char nl excerpt). destruct (Z.le_gt_cases (budget - 5) (Z.of_nat (ulen head))) as [Hh|Hh].
  - right. exists head, excerpt. split_and!; [done|done|]. by rewrite Z.max_r by lia.
  - left. rewrite !ulen_app. change (ulen nls) with 1. change (ulen "…") with 1. unfold from_end. destruct (_ =? 0) eqn:E; [apply Nat.eqb_eq in E; lia|].
    pose proof (ulen_ulast (Z.to_nat (Z.max (budget - Z.of_nat (ulen head) - 5) 0)) excerpt). lia.
Qed.

(** A failure reason that long defeats the budget: the excerpt is twice as long *)
Example long_reason_exceeds :
  let out := unlines ["[FAIL: " +:+ String.concat "" (repeat "x" 2600) +:+ "] test()"; "Traces:"] in
  (5000 <? Z.of_nat (ulen (trace_excerpt out TRACE_EXCERPT_BUDGET)))%Z = true.
Proof. vm_compute. reflexivity. Qed.

(** An output with one compiler error of each of two kinds, and the fixes for it *)
Example targeted_two :
  let out := bq "Error (9582): Member `mint` not found or not visible after argument-dependent lookup in contract Vault" in
  targeted_hints out ("// Vault - real callable signatures:" +:+ nls +:+ "function deposit(uint256)") "" "" None "" None
  = "`Vault` has NO member `mint`. Use only its real functions:" +:+ nls +:+ "function deposit(uint256)".
Proof. vm_compute. reflexivity. Qed.
