(* ===== verification/RunnerSynth.v ===== *)
(** * The PoC queue runner: synthesis of a scaffold (scripts/poc_queue_runner.py)

    A finding as a record, the operations on the disk and the sandbox as actions of the
    history, and the synthesis of a deploy base: reuse of a promoted base, the model's
    candidate, the bounded repair of its smoke build, promotion or rejection. *)

From S2P Require Import Prelude PyStr PyRe PyPath PyVal PyNum PyFloat SolIndex SolUtils Fixers Inventory Causes StaticAnalysis WriteExecute Reach RunnerBase RunnerFix RunnerSource RunnerPrompts.

(** ** Findings *)

(** A finding as [_attach_fixes] makes it *)
Record Task := mkTask {
  t_id : string;
  t_title : string;
  t_location : string;
  t_description : string;
  t_class : string;
  t_fix : option string;
  t_fix_patch : option string;
}.

Definition task_dict (t : Task) : list (string * pyval) :=
  [("id", PStr (t_id t)); ("title", PStr (t_title t)); ("location", PStr (t_location t)); ("description", PStr (t_description t));
   ("finding_class", PStr (t_class t)); ("fix", opt_str (t_fix t)); ("fix_patch", opt_str (t_fix_patch t))].
Definition task_map (t : Task) : list (string * option string) :=
  [("id", Some (t_id t)); ("title", Some (t_title t)); ("location", Some (t_location t)); ("description", Some (t_description t));
   ("finding_class", Some (t_class t)); ("fix", t_fix t); ("fix_patch", t_fix_patch t)].

(** ** Actions *)

Definition SYNTH_SUBDIR : string := "audit/poc/_synth".
Definition CONTRACT_NAME_RE : re := RAll [RBound; ROpt (RSeq (RStr "abstract") ws1); RStr "contract"; ws1; RGroup 1 RIdent].
Definition SYNTH_REPAIR_ROUNDS : nat := 3.
Definition DET_REPAIR_ROUNDS : nat := 2.

(** What of a run does not change: the finding's target, the operator's choices, the
    parser, the tracked files, the prompts and a source of run ids *)
Record Config := mkConfig {
  c_project : path;
  c_cwd : path;
  c_depth : nat;
  c_parse : string -> res pyval;
  c_git : history -> res string;
  c_prompts : string -> string -> string * pyval;
  c_mint : history -> string;
  c_inventory_fuel : nat;
  c_image : option string;
  c_fork_rpc : option string;
}.

Section actions.
Context (o : Outside) (c : Config).

Definition write_file (p : path) (text : string) : ST (Run history) unit := act_with (WriteFile p text) (fun h => o_write o h p text).
Definition make_dir (p : path) : ST (Run history) unit := act_with (MakeDir p) (fun h => o_mkdir o h p).
(** [p.unlink(missing_ok=True)] *)
Definition unlink_ok (p : path) : ST (Run history) unit :=
  act_with (Unlink p) (fun h => match o_unlink o h p with
                                | Raise e => if String.eqb (exn_class e) "FileNotFoundError" then Ok tt else Raise e
                                | r => r
                                end).
Definition now : ST (Run history) pyfloat := act_with Clock (fun h => Ok (o_clock o h)).
Definition generate (prompt : string) : ST history string := fun h => (h ++ [Generate prompt], o_generate o h prompt).
Definition chat (messages : list pyval) (tools : bool) : ST history pyval := fun h => (h ++ [Chat messages tools], o_chat o h messages tools).

(** The tests at a path of the project, or the exception running them raised *)
Definition sandboxed (test_path : string) (trace : bool) : ST (Run history) (res TestResult) :=
  let img := default FOUNDRY_IMAGE (opt_truthy (c_image c)) in
  let timeout := verify_timeout (c_fork_rpc c) in
  act_with (Sandboxed (test_request (c_project c) (Some test_path) img timeout (Some POC_SUBDIR) (c_fork_rpc c) [] trace))
    (fun h => Ok (run_tests (c_project c) (o_sandbox o h) (Some test_path) img timeout (Some POC_SUBDIR) (c_fork_rpc c) [] trace)).

(** [try: ... except MODEL_ERRORS] *)
Definition catch_model {A} (m : ST (Run history) A) : ST (Run history) (exn + A) := fun r =>
  match m r with
  | (r', Ok a) => (r', Ok (inr a))
  | (r', Raise e) => if is_model_error e then (r', Ok (inl e)) else (r', Raise e)
  end.

(** [str(p.relative_to(project))] *)
Definition rel_str (p : path) : string := path_str (rel_parts (c_project c) p).

(** Something read of the disk as it is *)
Definition reading {A} (f : FileSystem -> (string -> list path) -> res string -> res A) : ST (Run history) A :=
  h ← asking (fun h => h); st_lift (f (o_disk o h) (o_rglob o h (c_project c)) (c_git c h)).
End actions.

(** ** Synthesis *)

Definition synth_failed (fid reason : string) (more : list (string * pyval)) (cause sig : string) : list (string * pyval) :=
  merge ([("event", PStr "scaffold_synthesis_failed"); ("finding_id", PStr fid); ("reason", PStr reason)] ++ more)
    (terminal_fields "synthesis_attempt" cause (Some 1%Z) sig).

Definition fixer_dict (r : FixerResult) : pyval :=
  PDict [("name", PStr (fx_name r)); ("matched", PBool (fx_matched r)); ("applied", PBool (fx_applied r))].
Definition import_lines (code : string) : list string :=
  take 12 (map strip (List.filter (fun ln => starts_with "import" (lstrip ln)) (splitlines code))).

Definition strs (l : list string) : pyval := PList (map PStr l).

(** How the rounds of the smoke build end: promoted to a live base, with the checks made of
    it, stopped by the infrastructure, or rejected, with the cause when the repair was
    exhausted and the last output *)
Inductive rounds_end :=
  | promoted (live : path) (checks : list ReachabilityCheck)
  | stopped
  | rejected (exhausted : option string) (blob : string).

Section synthesis.
Context (o : Outside) (c : Config).
Context (symbol_index : option SymbolIndex) (file_map run_id : string).
Context (t : Task) (missing_types : list string) (existing_scaffold : string) (inventory : option ScaffoldApiInventory).

Abbreviation project := (c_project c).
Abbreviation fid := (t_id t).
Abbreviation M := (ST (Run history)).

Definition want_name : string := "SynthBase_" +:+ ident fid.
Definition live_dir : path := path_join project (to_path SYNTH_SUBDIR).
Definition poc_dir : path := path_join project (to_path POC_SUBDIR).
Definition smoke : path := poc_dir ++ ["_synth_smoke.t.sol"].

(** The base promoted by an earlier run, when it still provides every missing type *)
Definition reuse_live : M (option path) :=
  let live := live_dir ++ [want_name +:+ ".sol"] in
  fs ← asking (o_disk o);
  if negb (fs_is_file fs live) then mret None
  else
    text ← st_lift (fs_read fs live);
    still ← st_lift (scaffold_missing_types fs (c_depth c) (c_parse c) text missing_types symbol_index);
    match still with
    | [] =>
        _ ← log [("event", PStr "scaffold_reused"); ("finding_id", PStr fid); ("path", PStr (rel_str c live)); ("missing_types", strs missing_types)];
        mret (Some live)
    | _ => mret None
    end.

(** The patterns detected and the prompt *)
Definition synth_prompt : M (list PatternMatch * string) :=
  source ← reading o c (fun fs rglob _ => read_location_source fs (c_cwd c) rglob project (join " " missing_types) IMPORT_DEPTH SOURCE_CHAR_BUDGET (Some PRIMARY_CHAR_CAP));
  location_source ← reading o c (fun fs rglob _ => read_location_source fs (c_cwd c) rglob project (t_location t) 1
    (if truthy existing_scaffold then Z.to_nat 12000 else SOURCE_CHAR_BUDGET) (Some PRIMARY_CHAR_CAP));
  parent ← reading o c (fun fs rglob _ => resolve_parent inventory missing_types project
    (fun proj loc => read_location_source fs (c_cwd c) rglob proj loc IMPORT_DEPTH REACHABILITY_SOURCE_BUDGET None) (task_map t));
  miss ← reading o c (fun fs rglob _ => read_location_source fs (c_cwd c) rglob project (join " " missing_types) IMPORT_DEPTH REACHABILITY_SOURCE_BUDGET None);
  let matches := detect_patterns (task_map t) location_source parent miss existing_scaffold in
  let extras := synthesis_extras matches location_source parent (task_map t) in
  p ← st_lift (resolve_prompt (c_prompts c) "poc-synth-scaffold" SYNTH_SCAFFOLD_PROMPT
    (synth_fields (join ", " missing_types) source (if truthy existing_scaffold then existing_scaffold else "(none)") want_name));
  mret (matches, p.1 +:+ extras).

Definition smoke_text (name import : string) : string :=
  "// SPDX-License-Identifier: MIT" +:+ nls +:+ "pragma solidity ^0.8.28;" +:+ nls
  +:+ "import { " +:+ name +:+ " } from " +:+ dquote +:+ import +:+ dquote +:+ ";" +:+ nls
  +:+ "contract _SynthSmoke is " +:+ name +:+ " { function test_compiles() public {} }" +:+ nls.

Definition wiring_event (stage : string) (more : list (string * pyval)) : list (string * pyval) :=
  [("event", PStr "scaffold_wiring_receiver_fix"); ("finding_id", PStr fid); ("stage", PStr stage)] ++ more ++ [("applied", PBool true)].

(** Writing the candidate as the live base, its imports anchored again *)
Definition promote (matches : list PatternMatch) (candidate live : path) (rnd : nat) (code : string) : M rounds_end :=
  _ ← make_dir o live_dir;
  live_code ← reading o c (fun fs rglob git => Ok (seq_synth_prewrite fs git (c_cwd c) rglob code project live_dir).1);
  _ ← write_file o live live_code;
  let checks := check_reachability matches live_code in
  _ ← log (merge [("event", PStr "scaffold_synthesized"); ("finding_id", PStr fid); ("path", PStr (rel_str c live));
                  ("attempt_path", PStr (rel_str c candidate)); ("missing_types", strs missing_types); ("repair_rounds", PInt (Z.of_nat rnd - 1))]
             (terminal_fields "synthesis_attempt" "synthesized" (Some 1%Z) "")
           ++ match checks with [] => [] | _ => [("reachability_checks", PList (reachability_checks_to_json checks))] end);
  mret (promoted live checks).

Definition ENVIRONMENT_CAUSES : list string := ["no_build:toolchain"; "no_build:path"; "no_build:infra"].

(** The event of a round that repaired nothing, and the cause it leaves *)
Definition exhausted_event (rnd : nat) (results : list FixerResult) (code blob : string) : list (string * pyval) * option string :=
  let build_cause := classify_build_failure blob in
  let environment := bool_decide (build_cause ∈ ENVIRONMENT_CAUSES) in
  let cause := if environment then build_cause
               else if existsb (fun r => fx_matched r && negb (fx_applied r)) results then "repair_exhausted:resolvable"
               else "repair_exhausted:unresolvable" in
  ([("event", PStr (if environment then "scaffold_repair_stopped" else "scaffold_repair_exhausted")); ("finding_id", PStr fid);
    ("round", PInt (Z.of_nat rnd)); ("fixers", PList (map fixer_dict results)); ("cause", PStr cause); ("imports", strs (import_lines code))],
   if environment then None else Some cause).

(** The rounds from [rnd] on, [left] of them, the code of this round and the output of
    the one before *)
Fixpoint synth_rounds (matches : list PatternMatch) (attempt_dir candidate live : path) (left rnd : nat) (code blob : string) : M rounds_end :=
  match left with
  | 0 => mret (rejected None blob)
  | S left' =>
      _ ← write_file o candidate code;
      test ← sandboxed o c (rel_str c smoke) false;
      match test with
      | Raise e =>
          _ ← log (synth_failed fid "infra" [("error", PStr (utake 200 (exn_msg e)))] "no_build:infra" "");
          _ ← unlink_ok o candidate;
          mret stopped
      | Ok test =>
          if compiled (stdout test) (stderr test) then promote matches candidate live rnd code
          else
            let blob := stdout test +:+ nls +:+ stderr test in
            cr ← reading o c (fun fs rglob git => Ok (seq_synth_repair fs git (c_cwd c) rglob code blob project attempt_dir symbol_index file_map existing_scaffold));
            let '(code, wr) := fix_wiring_receivers cr.1 matches missing_types symbol_index in
            let applied := applied_names cr.2 ++ (if (wr : bool) then ["wiring_receiver"] else []) in
            _ ← (if wr then log (wiring_event "repair" [("round", PInt (Z.of_nat rnd))]) else mret tt);
            match applied with
            | [] =>
                let ec := exhausted_event rnd cr.2 code blob in
                _ ← log ec.1;
                mret (rejected ec.2 blob)
            | _ =>
                _ ← log [("event", PStr "scaffold_repair"); ("finding_id", PStr fid); ("round", PInt (Z.of_nat rnd)); ("fixes", strs applied)];
                synth_rounds matches attempt_dir candidate live left' (S rnd) code blob
            end
      end
  end.

Definition rename_or_unlink (candidate kept : path) : M unit := fun r =>
  match act_with (Rename candidate kept) (fun h => o_rename o h candidate kept) r with
  | (r', Ok _) => (r', Ok tt)
  | (r', Raise _) => unlink_ok o candidate r'
  end.

(** A rejected candidate is kept under another name, or removed when it cannot be *)
Definition reject (candidate : path) (exhausted : option string) (blob : string) : M unit :=
  let kept := parent candidate ++ [path_name candidate +:+ ".rejected"] in
  let exhausted := opt_truthy exhausted in
  let cause := default (classify_build_failure blob) exhausted in
  let reason := if starts_with "repair_exhausted" (default "" exhausted) then "repair_exhausted" else "no_build" in
  let tail := ulast 600 blob in
  _ ← log (synth_failed fid reason [("stderr_tail", PStr tail); ("rejected_base", PStr (rel_str c kept))] cause tail);
  rename_or_unlink candidate kept.

Definition no_checks : list ReachabilityCheck := [].

Definition compile_candidate (matches : list PatternMatch) (name code : string) : M (option path * list ReachabilityCheck) :=
  minted ← asking (c_mint c);
  let run_id := if truthy run_id then run_id else minted in
  let attempt_dir := path_join (poc_dir ++ ["_runs"]) (to_path run_id) in
  _ ← make_dir o attempt_dir;
  let candidate := attempt_dir ++ [name +:+ ".sol"] in
  let live := live_dir ++ [name +:+ ".sol"] in
  code ← reading o c (fun fs rglob git => Ok (seq_synth_prewrite fs git (c_cwd c) rglob code project attempt_dir).1);
  let '(code, wr0) := fix_wiring_receivers code matches missing_types symbol_index in
  _ ← (if (wr0 : bool) then log (wiring_event "prewrite" []) else mret tt);
  _ ← make_dir o poc_dir;
  _ ← write_file o smoke (smoke_text name ("./" +:+ relpath (c_cwd c) candidate poc_dir));
  finally (e ← synth_rounds matches attempt_dir candidate live SYNTH_REPAIR_ROUNDS 1 code "";
           match e with
           | promoted live checks => mret (Some live, checks)
           | stopped => mret (None, no_checks)
           | rejected exhausted blob => _ ← reject candidate exhausted blob; mret (None, no_checks)
           end)
    (unlink_ok o smoke).

(** The live base and the checks of a synthesized one *)
Definition synthesize_scaffold : M (option path * list ReachabilityCheck) :=
  live ← reuse_live;
  match live return M (option path * list ReachabilityCheck) with
  | Some p => mret (Some p, no_checks)
  | None =>
      mp ← synth_prompt;
      reply ← catch_model (outside (generate o mp.2));
      match reply return M (option path * list ReachabilityCheck) with
      | inl e => _ ← log (synth_failed fid "no_output" [("error", PStr (utake 200 (exn_msg e)))] "no_output:crash" ""); mret (None, no_checks)
      | inr raw =>
          let code := extract_solidity raw in
          match re_search CONTRACT_NAME_RE code with
          | Some m =>
              if contains "pragma" code then compile_candidate mp.1 (group_or_empty 1 code m) code
              else _ ← log (synth_failed fid "no_output" [] "no_output:model" ""); mret (None, no_checks)
          | None => _ ← log (synth_failed fid "no_output" [] "no_output:model" ""); mret (None, no_checks)
          end
      end
  end.
End synthesis.

(** ** What a synthesis logs and does *)

Lemma only_act {A} P (a : act) (answer : history -> res A) : only P (act_with a answer).
Proof. by apply only_silent. Qed.

Lemma only_catch {A} P (m : ST (Run history) A) : only P m -> only P (catch_model m).
Proof.
  intros Hm r r' x Hr. unfold catch_model in Hr. destruct (m r) as [r1 [a|e]] eqn:E; [injection Hr as <- <-; by eapply Hm|].
  destruct (is_model_error e); injection Hr as <- <-; by eapply Hm.
Qed.

Lemma only_rename o P candidate kept : only P (rename_or_unlink o candidate kept).
Proof. apply only_silent. intros r. unfold rename_or_unlink, act_with. by destruct (o_rename o _ _ _). Qed.

(** The steps of the runner on the disk and the sandbox log nothing *)
Ltac silent_step :=
  first [ only_step | apply only_act | apply only_catch | apply only_rename
        | progress unfold write_file, make_dir, unlink_ok, now, sandboxed, reading, asking ].
Ltac only_go := repeat silent_step.

Definition open (e : entry) : Prop := assoc "terminal" e = None.

Lemma closes_open level cause base seq sig e : e = merge base (terminal_fields level cause seq sig) -> ~ open e.
Proof. intros -> Ho. unfold open in Ho. by rewrite (closes_terminal _ _ _ (merge_closes level cause base seq sig)) in Ho. Qed.

Section synthesis_log.
Context (o : Outside) (c : Config) (symbol_index : option SymbolIndex) (file_map run_id : string).
Context (t : Task) (missing_types : list string) (existing_scaffold : string) (inventory : option ScaffoldApiInventory).

Abbreviation reusing := (reuse_live o c symbol_index t missing_types).
Abbreviation prompting := (synth_prompt o c t missing_types existing_scaffold inventory).
Abbreviation rounds := (synth_rounds o c symbol_index file_map t missing_types existing_scaffold).
Abbreviation compiling := (compile_candidate o c symbol_index file_map run_id t missing_types existing_scaffold).
Abbreviation synthesizing := (synthesize_scaffold o c symbol_index file_map run_id t missing_types existing_scaffold inventory).

(** What the last entry of an attempt says of what it returns *)
Definition closes_synthesis (out : option path) (e : entry) : Prop :=
  exists cause, closes "synthesis_attempt" cause e /\ cause ∈ SYNTHESIS_CAUSES /\ (is_Some out <-> cause = "synthesized").

Lemma synth_failed_closes reason more cause sig : cause ∈ SYNTHESIS_CAUSES -> cause <> "synthesized" ->
  closes_synthesis None (synth_failed (t_id t) reason more cause sig).
Proof. intros Hin Hne. exists cause. split_and!; [apply merge_closes|done|]. split; [by intros []|done]. Qed.

Lemma only_prompt P : only P prompting.
Proof. unfold synth_prompt. only_go. Qed.

(** How the log of the rounds ends *)
Definition rounds_logged (r r' : Run history) (e : rounds_end) : Prop :=
  match e with
  | promoted live _ => exists l z, r_log r' = r_log r ++ l ++ [z] /\ Forall open l /\ closes_synthesis (Some live) z
  | stopped => exists l z, r_log r' = r_log r ++ l ++ [z] /\ Forall open l /\ closes_synthesis None z
  | rejected exhausted _ => (exists l, r_log r' = r_log r ++ l /\ Forall open l) /\
      (forall cause, exhausted = Some cause -> cause ∈ ["repair_exhausted:resolvable"; "repair_exhausted:unresolvable"])
  end.

Lemma promote_log matches candidate live rnd code r r' e : promote o c t missing_types matches candidate live rnd code r = (r', Ok e) ->
  (exists checks, e = promoted live checks) /\ rounds_logged r r' e.
Proof.
  unfold promote. intros H. apply st_bind_inv in H as [(r1 & [] & [= <- _] & H)|(? & _ & ?)]; [|done].
  apply st_bind_inv in H as [(r2 & code' & [= <- _] & H)|(? & _ & ?)]; [|done].
  apply st_bind_inv in H as [(r3 & [] & [= <- _] & H)|(? & _ & ?)]; [|done].
  unfold log, st_modify, mbind, st_bind in H. cbv beta iota zeta in H. injection H as <- <-. split; [by eexists|].
  cbn [rounds_logged r_log]. eexists [], _. split_and!; [reflexivity|done|]. exists "synthesized".
  split_and!; [by split|apply (bool_decide_unpack _); vm_compute; exact I|]. split; [done|by eexists].
Qed.

Lemma exhausted_open rnd results code blob : open (exhausted_event t rnd results code blob).1.
Proof. done. Qed.

Lemma exhausted_causes rnd results code blob cause : (exhausted_event t rnd results code blob).2 = Some cause ->
  cause ∈ ["repair_exhausted:resolvable"; "repair_exhausted:unresolvable"].
Proof. unfold exhausted_event. cbv zeta. cbn [snd]. case_bool_decide; [done|]. destruct (existsb _ results); intros [= <-]; set_solver. Qed.

Lemma rounds_log matches attempt_dir candidate live : forall left rnd code blob r r' e,
  rounds matches attempt_dir candidate live left rnd code blob r = (r', Ok e) ->
  rounds_logged r r' e /\ forall p checks, e = promoted p checks -> p = live.
Proof.
  induction left as [|left IH]; intros rnd code blob r r' e H; cbn [synth_rounds] in H.
  { injection H as <- <-. split; [|done]. split; [|done]. exists []. by rewrite app_nil_r. }
  apply st_bind_inv in H as [(r1 & [] & [= <- _] & H)|(? & _ & ?)]; [|done].
  apply st_bind_inv in H as [(r2 & test & [= <- _] & H)|(? & _ & ?)]; [|done]. destruct test as [test|ex].
  - destruct (compiled (stdout test) (stderr test)).
    + apply promote_log in H as [[checks ->] H]. split; [exact H|]. by intros ? ? [= <- _].
    + apply st_bind_inv in H as [(r3 & cr & [= <- _] & H)|(? & _ & ?)]; [|done].
      destruct (fix_wiring_receivers cr.1 matches missing_types symbol_index) as [code' wr].
      apply st_bind_inv in H as [(r4 & [] & Hw & H)|(? & _ & ?)]; [|done].
      assert (exists l, r_log r4 = r_log r ++ l /\ Forall open l) as (lw & Hlw & Hopen).
      { destruct wr; injection Hw as <-; [eexists [_]; split; [reflexivity|by constructor]|exists []; by rewrite app_nil_r]. }
      destruct (applied_names cr.2 ++ _) as [|a applied] eqn:Happ.
      * unfold log, st_modify, mbind, st_bind in H. cbv beta iota zeta in H. injection H as <- <-. split; [|done]. split; cycle 1. { intros cause Hc. exact (exhausted_causes rnd cr.2 code' _ cause Hc). }
        exists (lw ++ [(exhausted_event t rnd cr.2 code' (stdout test +:+ nls +:+ stderr test)).1]). cbn [r_log]. rewrite Hlw, app_assoc.
        split; [done|]. apply Forall_app. split; [done|]. constructor; [apply exhausted_open|done].
      * apply st_bind_inv in H as [(r5 & [] & [= <-] & H)|(? & _ & ?)]; [|done]. apply IH in H as [H Hp]. split; [|exact Hp].
        match goal with |- rounds_logged r r' e => idtac end. destruct e as [p checks| |ex b]; cbn [rounds_logged r_log] in *.
        -- destruct H as (l & z & Hl & Ho & Hz). eexists (lw ++ [_] ++ l), z. rewrite Hl, Hlw, <- !app_assoc. split_and!; [reflexivity| |done].
           apply Forall_app. split; [done|]. by constructor.
        -- destruct H as (l & z & Hl & Ho & Hz). eexists (lw ++ [_] ++ l), z. rewrite Hl, Hlw, <- !app_assoc. split_and!; [reflexivity| |done].
           apply Forall_app. split; [done|]. by constructor.
        -- destruct H as [(l & Hl & Ho) Hex]. split; [|exact Hex]. eexists (lw ++ [_] ++ l). rewrite Hl, Hlw, <- !app_assoc. split; [reflexivity|].
           apply Forall_app. split; [done|]. by constructor.
  - apply st_bind_inv in H as [(r3 & [] & [= <-] & H)|(? & _ & ?)]; [|done].
    apply st_bind_inv in H as [(r4 & [] & Hu & H)|(? & _ & ?)]; [|done]. injection H as <- <-. split; [|done].
    injection Hu as <- _. cbn [rounds_logged r_log]. eexists [], _. split_and!; [reflexivity|done|].
    apply synth_failed_closes; [apply (bool_decide_unpack _); vm_compute; exact I|done].
Qed.

Lemma reject_log candidate exhausted blob : (forall cause, exhausted = Some cause -> cause ∈ ["repair_exhausted:resolvable"; "repair_exhausted:unresolvable"]) ->
  last_entry open (fun _ => closes_synthesis None) (reject o c t candidate exhausted blob).
Proof.
  intros Hex r r' [] H. unfold reject in H. cbv zeta in H. apply st_bind_inv in H as [(r1 & [] & [= <-] & H)|(? & _ & ?)]; [|done].
  assert (r_log r' = r_log r ++ [synth_failed (t_id t) (if starts_with "repair_exhausted" (default "" (opt_truthy exhausted)) then "repair_exhausted" else "no_build")
    [("stderr_tail", PStr (ulast 600 blob)); ("rejected_base", PStr (rel_str c (parent candidate ++ [path_name candidate +:+ ".rejected"])))]
    (default (classify_build_failure blob) (opt_truthy exhausted)) (ulast 600 blob)]) as ->.
  { unfold rename_or_unlink, act_with in H. destruct (o_rename o _ _ _); [by injection H as <-|]. unfold unlink_ok, act_with in H. by injection H as <- _. }
  eexists [], _. split_and!; [reflexivity|done|]. destruct exhausted as [cause|]; cbn [opt_truthy].
  - specialize (Hex cause eq_refl). apply elem_of_cons in Hex as [->|Hex]; [|apply list_elem_of_singleton in Hex as ->];
      (apply synth_failed_closes; [apply (bool_decide_unpack _); vm_compute; exact I|done]).
  - apply synth_failed_closes; cbn [default]; [|by unfold classify_build_failure; cbv zeta; repeat case_match].
    unfold classify_build_failure. cbv zeta. repeat case_match; apply (bool_decide_unpack _); vm_compute; exact I.
Qed.

Lemma compiling_log matches name code : last_entry open (fun out => closes_synthesis out.1) (compiling matches name code).
Proof.
  unfold compile_candidate. apply last_bind; [by only_go|]. intros minted. cbv zeta.
  do 2 (apply last_bind; [by only_go|]; intros ?). destruct (fix_wiring_receivers _ _ _ _) as [code' wr].
  apply last_bind; [destruct wr; only_go; done|]. intros _. do 2 (apply last_bind; [by only_go|]; intros ?).
  intros r r' out H. unfold finally in H. match type of H with context [let (_, _) := ?m in _] => destruct m as [r1 x] eqn:E end. destruct (unlink_ok o (smoke c) r1) as [r2 y] eqn:Eu. injection H as <- Hx.
  assert (r_log r2 = r_log r1) as -> by (unfold unlink_ok, act_with in Eu; by injection Eu as <- _). destruct y as [[]|]; [|done]. subst x.
  apply st_bind_inv in E as [(r3 & e & Hr & E)|(? & _ & ?)]; [|done]. apply rounds_log in Hr as [Hr Hp]. destruct e as [p checks| |ex b]; cbn [rounds_logged] in Hr.
  - injection E as <- <-. destruct Hr as (l & z & Hl & Ho & Hz). by exists l, z.
  - injection E as <- <-. destruct Hr as (l & z & Hl & Ho & Hz). by exists l, z.
  - destruct Hr as [(l & Hl & Ho) Hex]. apply st_bind_inv in E as [(r4 & [] & Hj & E)|(? & _ & ?)]; [|done]. injection E as <- <-.
    apply reject_log in Hj as (l' & z & Hl' & Ho' & Hz); [|exact Hex]. exists (l ++ l'), z. rewrite Hl', Hl, <- !app_assoc.
    split_and!; [done|by apply Forall_app|done].
Qed.
End synthesis_log.

Lemma parent_long (y z : string) (l : path) : parent (y :: z :: l) = removelast (y :: z :: l).
Proof. destruct y as [|[[] [] [] [] [] [] [] []] y]; try reflexivity; by destruct y. Qed.

Lemma parent_snoc (d : path) x : x <> "/" -> parent (d ++ [x]) = d.
Proof.
  intros Hx. destruct d as [|y d]; cbn [app].
  - destruct x as [|[[] [] [] [] [] [] [] []] x]; try reflexivity. by destruct x.
  - destruct (d ++ [x]) as [|z l] eqn:E; [by destruct d|]. rewrite parent_long, <- E. change (y :: d ++ [x]) with ((y :: d) ++ [x]). by rewrite removelast_last.
Qed.

(** ** Nothing is promoted unbuilt *)

Lemma adds_answer {A B} (P : act -> Prop) a (answer : history -> res A) (f : A -> ST (Run history) B) : P a ->
  (forall h x, answer h = Ok x -> adds P (f x)) -> adds P (x ← act_with a answer; f x).
Proof.
  intros Ha Hf r r' x Hr. apply st_bind_inv in Hr as [(r1 & y & Hr1 & Hr2)|(e & Hr1 & ->)]; injection Hr1 as <- Hy.
  - destruct (Hf _ _ Hy _ _ _ Hr2) as (l & Hl & HP). cbn [r_world] in Hl. exists (a :: l). rewrite Hl, <- app_assoc. split; [done|by constructor].
  - exists [a]. split; [done|by constructor].
Qed.

Lemma adds_finally {A} P (m : ST (Run history) A) f : adds P m -> adds P f -> adds P (finally m f).
Proof.
  intros Hm Hf r r' x Hr. unfold finally in Hr. destruct (m r) as [r1 y] eqn:E1, (f r1) as [r2 z] eqn:E2. injection Hr as <- <-.
  destruct (Hm _ _ _ E1) as (l & Hl & HP), (Hf _ _ _ E2) as (l' & Hl' & HP'). exists (l ++ l'). rewrite Hl', Hl, app_assoc.
  split; [done|by apply Forall_app].
Qed.

Lemma adds_catch {A} P (m : ST (Run history) A) : adds P m -> adds P (catch_model m).
Proof.
  intros Hm r r' x Hr. unfold catch_model in Hr. destruct (m r) as [r1 [a|e]] eqn:E; [injection Hr as <- <-; by eapply Hm|].
  destruct (is_model_error e); injection Hr as <- <-; by eapply Hm.
Qed.

Lemma adds_generate o P prompt : P (Generate prompt) -> adds P (outside (generate o prompt)).
Proof. intros HP r r' x [= <- <-]. exists [Generate prompt]. split; [done|by constructor]. Qed.

Lemma adds_rename o (P : act -> Prop) candidate kept : P (Rename candidate kept) -> P (Unlink candidate) -> adds P (rename_or_unlink o candidate kept).
Proof.
  intros H1 H2 r r' x Hr. unfold rename_or_unlink, act_with in Hr. destruct (o_rename o _ _ _); [injection Hr as <- <-; exists [Rename candidate kept]; split; [done|by constructor]|].
  injection Hr as <- <-. exists [Rename candidate kept; Unlink candidate]. cbn [r_world]. rewrite <- app_assoc. split; [done|by repeat constructor].
Qed.

Lemma adds_log P e : adds P (log e).
Proof. by apply adds_none. Qed.
Lemma adds_ret {A} P (a : A) : adds P (mret a).
Proof. by apply adds_none. Qed.
Lemma adds_lift {A} P (m : res A) : adds P (st_lift m).
Proof. by apply adds_none. Qed.

Lemma adds_asked {A} P (f : history -> A) : adds P (asking f).
Proof. by apply adds_none. Qed.

(** A step at a time through what does only some things outside *)
Ltac adds_step :=
  first [ apply adds_bind; [|intros ?] | apply adds_log | apply adds_ret | apply adds_lift | apply adds_act | apply adds_finally | apply adds_catch
        | apply adds_map; intros ? ? | apply adds_asked | progress unfold write_file, make_dir, unlink_ok, now, reading ].

(** What is done after a history, each act seen with the history before it *)
Inductive traced (P : history -> act -> Prop) : history -> list act -> Prop :=
| traced_nil h : traced P h []
| traced_cons h a l : P h a -> traced P (h ++ [a]) l -> traced P h (a :: l).

Lemma traced_app P h l l' : traced P h (l ++ l') <-> traced P h l /\ traced P (h ++ l) l'.
Proof.
  revert h. induction l as [|a l IH]; intros h; cbn [app].
  - rewrite app_nil_r. split; [intros; split; [constructor|done]|by intros [_ ?]].
  - split.
    + inversion 1 as [|h' a' l0 Ha Hl]; subst. apply IH in Hl as [Hl Hl']. rewrite <- app_assoc in Hl'. split; [by constructor|done].
    + intros [Hl Hl']. inversion Hl as [|h' a' l0 Ha Hl0]; subst. constructor; [done|]. apply IH. rewrite <- app_assoc. done.
Qed.

Lemma traced_all (P : history -> act -> Prop) (Q : act -> Prop) h l : (forall h a, Q a -> P h a) -> Forall Q l -> traced P h l.
Proof. intros HPQ Hl. revert h. induction Hl as [|a l Ha _ IH]; intros h; constructor; auto. Qed.

(** However [m] ends, each act it adds satisfies [P] with the history before it *)
Definition traces {A} (P : history -> act -> Prop) (m : ST (Run history) A) : Prop :=
  forall r r' x, m r = (r', x) -> exists l, r_world r' = r_world r ++ l /\ traced P (r_world r) l.

Lemma traces_bind {A B} P (m : ST (Run history) A) (f : A -> ST (Run history) B) : traces P m -> (forall a, traces P (f a)) -> traces P (a ← m; f a).
Proof.
  intros Hm Hf r r' x Hr. apply st_bind_inv in Hr as [(r1 & a & Hr1 & Hr2)|(e & Hr1 & ->)]; [|by eapply Hm].
  destruct (Hm _ _ _ Hr1) as (l & Hl & HP), (Hf _ _ _ _ Hr2) as (l' & Hl' & HP'). exists (l ++ l'). rewrite Hl', Hl, app_assoc.
  split; [done|]. apply traced_app. rewrite Hl in HP'. done.
Qed.

Lemma traces_adds {A} (P : history -> act -> Prop) (Q : act -> Prop) (m : ST (Run history) A) : (forall h a, Q a -> P h a) -> adds Q m -> traces P m.
Proof. intros HPQ Hm r r' x Hr. destruct (Hm _ _ _ Hr) as (l & Hl & HQ). exists l. split; [done|]. by eapply traced_all. Qed.

Section promotion.
Context (o : Outside) (c : Config) (symbol_index : option SymbolIndex) (file_map run_id : string).
Context (t : Task) (missing_types : list string) (existing_scaffold : string) (inventory : option ScaffoldApiInventory).

(** The smoke test of a contract of that name at that import path *)
Definition smoke_of (name import : string) : string :=
  "// SPDX-License-Identifier: MIT" +:+ nls +:+ "pragma solidity ^0.8.28;" +:+ nls +:+ "import { " +:+ name +:+ " } from " +:+ dquote +:+ import +:+ dquote +:+ ";"
  +:+ nls +:+ "contract _SynthSmoke is " +:+ name +:+ " { function test_compiles() public {} }" +:+ nls.

(** The build of the smoke test, as a request and as its result after a history *)
Definition smoke_request : SandboxRequest :=
  test_request (c_project c) (Some (rel_str c (smoke c))) (default FOUNDRY_IMAGE (opt_truthy (c_image c))) (verify_timeout (c_fork_rpc c))
    (Some POC_SUBDIR) (c_fork_rpc c) [] false.
Definition smoke_result (h : history) : res TestResult :=
  run_tests (c_project c) (o_sandbox o h) (Some (rel_str c (smoke c))) (default FOUNDRY_IMAGE (opt_truthy (c_image c)))
    (verify_timeout (c_fork_rpc c)) (Some POC_SUBDIR) (c_fork_rpc c) [] false.

(** A try of the candidate: it is written, and the smoke test is built *)
Definition tries (candidate : path) (a : act) : Prop := (exists code, a = WriteFile candidate code) \/ a = Sandboxed smoke_request.

(** After the history [h] the file [p] may be written with [text]: the smoke test that
    inherits the candidate was written and stayed, the candidate was written with a code,
    the build that followed at once compiled, and [text] is that code with its imports
    anchored to the directory of [p] *)
Definition built_before (h : history) (p : path) (text : string) : Prop :=
  exists h0 name mid code test,
    let candidate := poc_dir c ++ ["_runs"; run_id; name +:+ ".sol"] in
    let tried := (h0 ++ WriteFile (smoke c) (smoke_of name ("./" +:+ relpath (c_cwd c) candidate (poc_dir c))) :: mid) ++ [WriteFile candidate code] in
    h = tried ++ [Sandboxed smoke_request; MakeDir (live_dir c)] /\ Forall (tries candidate) mid /\
    smoke_result tried = Ok test /\ compiled (stdout test) (stderr test) = true /\ p = live_dir c ++ [name +:+ ".sol"] /\
    text = (seq_synth_prewrite (o_disk o h) (c_git c h) (c_cwd c) (o_rglob o h (c_project c)) code (c_project c) (live_dir c)).1.

(** What is written among the live bases was built before *)
Definition promotes (h : history) (a : act) : Prop := forall p text, a = WriteFile p text -> parent p = live_dir c -> built_before h p text.

Lemma promotes_other h a : match a with WriteFile _ _ => False | _ => True end -> promotes h a.
Proof. by intros Ha p text ->. Qed.

Lemma not_sol name : name +:+ ".sol" <> "/".
Proof. intros H. apply (f_equal String.length) in H. rewrite length_sapp in H. cbn in H. lia. Qed.

Lemma live_is_deeper p : p = poc_dir c \/ (exists id, p = poc_dir c ++ ["_runs"; id]) -> p <> live_dir c.
Proof.
  unfold poc_dir, live_dir, path_join. change (to_path POC_SUBDIR) with ["audit"; "poc"]. change (to_path SYNTH_SUBDIR) with ["audit"; "poc"; "_synth"].
  cbn [is_absolute]. intros [->|[id ->]] H; apply (f_equal (@length string)) in H; rewrite !length_app in H; cbn in H; lia.
Qed.

Section candidate.
Context (h0 : history) (name : string).

Abbreviation candidate := (poc_dir c ++ ["_runs"; run_id; name +:+ ".sol"]).
Abbreviation live := (live_dir c ++ [name +:+ ".sol"]).
Abbreviation smoke_written := (WriteFile (smoke c) (smoke_of name ("./" +:+ relpath (c_cwd c) candidate (poc_dir c)))).

Lemma promotes_candidate h code : promotes h (WriteFile candidate code).
Proof.
  intros p text [= <- <-] Hp. exfalso. revert Hp. change [_; _; _] with (["_runs"; run_id] ++ [name +:+ ".sol"]).
  rewrite app_assoc, parent_snoc by apply not_sol. apply live_is_deeper. right. by eexists.
Qed.

Lemma rounds_built matches attempt_dir : forall left rnd code blob mid r r' x,
  r_world r = h0 ++ smoke_written :: mid -> Forall (tries candidate) mid ->
  synth_rounds o c symbol_index file_map t missing_types existing_scaffold matches attempt_dir candidate live left rnd code blob r = (r', x) ->
  exists l, r_world r' = r_world r ++ l /\ traced promotes (r_world r) l.
Proof.
  induction left as [|left IH]; intros rnd code blob mid r r' x Hr Hmid H; cbn [synth_rounds] in H.
  { injection H as <- _. exists []. rewrite app_nil_r. split; [done|constructor]. }
  apply st_bind_inv in H as [(r1 & [] & [= <- _] & H)|(? & [= <- _] & _)].
  2:{ eexists. split; [reflexivity|]. constructor; [apply promotes_candidate|constructor]. }
  assert (forall l, traced promotes ((r_world r ++ [WriteFile candidate code]) ++ [Sandboxed smoke_request]) l ->
    traced promotes (r_world r) (WriteFile candidate code :: Sandboxed smoke_request :: l)) as Htried.
  { intros l Hl. constructor; [apply promotes_candidate|]. constructor; [by apply promotes_other|exact Hl]. }
  apply st_bind_inv in H as [(r2 & test & [= <- Ht] & H)|(? & ? & _)]; [|done]. cbn [r_world r_log] in *.
  assert (forall m : ST (Run history) rounds_end, adds (fun a => match a with WriteFile _ _ => False | _ => True end) m ->
    m (mkRun (r_log r) ((r_world r ++ [WriteFile candidate code]) ++ [Sandboxed smoke_request])) = (r', x) ->
    exists l, r_world r' = r_world r ++ l /\ traced promotes (r_world r) l) as Hother.
  { intros m Hm Hm'. apply Hm in Hm' as (l & -> & Hl). eexists. cbn [r_world]. split; [rewrite <- !app_assoc; reflexivity|].
    apply Htried. eapply traced_all; [|exact Hl]. intros; by apply promotes_other. }
  destruct test as [test|e].
  2:{ revert H. apply Hother. by repeat adds_step. }
  destruct (compiled (stdout test) (stderr test)) eqn:Hc.
  - unfold promote in H. apply st_bind_inv in H as [(r3 & [] & [= <- _] & H)|(? & [= <- _] & _)].
    2:{ eexists. cbn [r_world]. split; [rewrite <- !app_assoc; reflexivity|]. apply Htried. constructor; [by apply promotes_other|constructor]. }
    apply st_bind_inv in H as [(r4 & text & [= <- Htext] & H)|(? & ? & _)]; [|done]. cbn [r_world] in *.
    set (w := ((r_world r ++ [WriteFile candidate code]) ++ [Sandboxed smoke_request]) ++ [MakeDir (live_dir c)]) in *.
    exists [WriteFile candidate code; Sandboxed smoke_request; MakeDir (live_dir c); WriteFile live text]. split.
    + assert (r_world r' = w ++ [WriteFile live text]) as ->; [|by unfold w; rewrite <- !app_assoc].
      apply st_bind_inv in H as [(r5 & [] & [= <- _] & [= <- _])|(? & [= <- _] & _)]; done.
    + apply Htried. constructor; [by apply promotes_other|]. constructor; [|constructor]. intros p text' [= <- <-] _.
      exists h0, name, mid, code, test. cbv zeta. rewrite <- Hr. split_and!; [by unfold w; rewrite <- app_assoc|done|by rewrite <- Ht|done|done|done].
  - apply st_bind_inv in H as [(r3 & cr & [= <- _] & H)|(? & ? & _)]; [|done]. destruct (fix_wiring_receivers cr.1 _ _ _) as [code' wr].
    apply st_bind_inv in H as [(r4 & [] & Hw & H)|(? & Hw & _)]; [|by destruct wr].
    assert (r_world r4 = (r_world r ++ [WriteFile candidate code]) ++ [Sandboxed smoke_request]) as Hr4 by (destruct wr; by injection Hw as <-).
    destruct (applied_names cr.2 ++ _) as [|fx applied].
    + apply st_bind_inv in H as [(r5 & [] & [= <-] & [= <- _])|(? & ? & _)]; [|done]. eexists. cbn [r_world]. rewrite Hr4. split; [rewrite <- !app_assoc; reflexivity|].
      apply Htried. constructor.
    + apply st_bind_inv in H as [(r5 & [] & [= <-] & H)|(? & ? & _)]; [|done].
      apply (IH _ _ _ (mid ++ [WriteFile candidate code; Sandboxed smoke_request])) in H as (l & Hl & Htr).
      * cbn [r_world] in *. rewrite Hr4 in *. exists (WriteFile candidate code :: Sandboxed smoke_request :: l). split; [rewrite Hl, <- !app_assoc; reflexivity|].
        by apply Htried.
      * cbn [r_world]. rewrite Hr4, Hr, <- !app_assoc. reflexivity.
      * apply Forall_app. split; [done|]. apply Forall_cons. split; [by left; eexists|]. apply Forall_cons. split; [by right|constructor].
Qed.
End candidate.

Abbreviation synthesizing := (synthesize_scaffold o c symbol_index file_map run_id t missing_types existing_scaffold inventory).

(** A name that is one part of a path *)
Definition plain_name (s : string) : Prop := to_path s = [s] /\ s <> "/".

Lemma compiling_built matches name code : plain_name run_id ->
  traces promotes (compile_candidate o c symbol_index file_map run_id t missing_types existing_scaffold matches name code).
Proof.
  intros [Hid Hroot]. assert (truthy run_id = true) as Ht by (destruct run_id; [by vm_compute in Hid|done]).
  assert (forall A (m : ST (Run history) A), adds (fun a => match a with WriteFile _ _ => False | _ => True end) m -> traces promotes m) as Hother.
  { intros A m. apply traces_adds. intros h a. apply promotes_other. }
  unfold compile_candidate. apply traces_bind; [apply Hother; by repeat adds_step|]. intros minted. cbv zeta. rewrite Ht, Hid.
  assert (path_join (poc_dir c ++ ["_runs"]) [run_id] = poc_dir c ++ ["_runs"; run_id]) as -> by (rewrite path_join_child by done; by rewrite <- app_assoc).
  apply traces_bind; [apply Hother; by repeat adds_step|]. intros _. apply traces_bind; [apply Hother; by repeat adds_step|]. intros code'.
  destruct (fix_wiring_receivers _ _ _ _) as [code2 wr]. apply traces_bind; [apply Hother; destruct wr; by repeat adds_step|]. intros _.
  apply traces_bind; [apply Hother; by repeat adds_step|]. intros _. rewrite <- app_assoc. cbn [app]. intros r r' x H.
  assert (forall h text, promotes h (WriteFile (smoke c) text)) as Hsmoke.
  { intros h text p text' [= <- <-] Hp. exfalso. revert Hp. unfold smoke. rewrite parent_snoc by done. apply live_is_deeper. by left. }
  apply st_bind_inv in H as [(r1 & [] & [= <- _] & H)|(? & [= <- _] & _)].
  2:{ eexists. split; [reflexivity|]. constructor; [apply Hsmoke|constructor]. }
  assert (exists l, r_world r' = (r_world r ++ [WriteFile (smoke c) (smoke_text name ("./" +:+ relpath (c_cwd c) (poc_dir c ++ ["_runs"; run_id; name +:+ ".sol"]) (poc_dir c)))]) ++ l /\
    traced promotes (r_world r ++ [WriteFile (smoke c) (smoke_text name ("./" +:+ relpath (c_cwd c) (poc_dir c ++ ["_runs"; run_id; name +:+ ".sol"]) (poc_dir c)))]) l) as (l & Hl & Htr).
  { revert r' x H. set (r1 := mkRun _ _). change (r_world r ++ [_]) with (r_world r1). intros r' x H.
    unfold finally in H. match type of H with context [let (_, _) := ?m in _] => destruct m as [r2 y] eqn:E end.
    assert (exists l, r_world r2 = r_world r1 ++ l /\ traced promotes (r_world r1) l) as (l & Hl & Htr).
    { apply st_bind_inv in E as [(r3 & e & He & E)|(e & He & _)]; apply (rounds_built (r_world r) name _ _ _ _ _ _ [] r1) in He as (l & Hl & Htr); [|done|done| |done|done].
      - assert (adds (fun a => match a with WriteFile _ _ => False | _ => True end)
          match e with promoted live checks => mret (Some live, checks) | stopped => mret (None, no_checks)
          | rejected exhausted blob => _ ← reject o c t (poc_dir c ++ ["_runs"; run_id; name +:+ ".sol"]) exhausted blob; mret (None, no_checks) end) as Hend.
        { destruct e as [lv checks| |ex blob]; [apply adds_ret|apply adds_ret|]. unfold reject. apply adds_bind; [|intros; apply adds_ret].
          apply adds_bind; [apply adds_log|]. intros _. by apply adds_rename. }
        apply Hend in E as (l' & Hl' & Hall). exists (l ++ l'). rewrite Hl', Hl, <- app_assoc. split; [done|]. apply traced_app. split; [done|].
        eapply traced_all; [|exact Hall]. intros; by apply promotes_other.
      - by exists l. }
    destruct (unlink_ok o (smoke c) r2) as [r3 z] eqn:Eu. injection H as <- _. unfold unlink_ok, act_with in Eu. injection Eu as <- _. cbn [r_world].
    exists (l ++ [Unlink (smoke c)]). rewrite Hl, <- app_assoc. split; [done|]. apply traced_app. split; [done|]. constructor; [by apply promotes_other|constructor]. }
  eexists (_ :: l). rewrite Hl, <- app_assoc. split; [reflexivity|]. constructor; [apply Hsmoke|exact Htr].
Qed.

Lemma synthesizing_built : plain_name run_id -> traces promotes synthesizing.
Proof.
  intros Hid. assert (forall A (m : ST (Run history) A), adds (fun a => match a with WriteFile _ _ => False | _ => True end) m -> traces promotes m) as Hother.
  { intros A m. apply traces_adds. intros h a. apply promotes_other. }
  unfold synthesize_scaffold. apply traces_bind.
  { apply Hother. unfold reuse_live. apply adds_asking. intros h. destruct (negb _); [apply adds_ret|]. do 2 (apply adds_bind; [apply adds_lift|]; intros ?). destruct a0; by repeat adds_step. }
  intros [p|]; [apply Hother, adds_ret|]. apply traces_bind; [apply Hother; unfold synth_prompt; by repeat adds_step|]. intros mp.
  apply traces_bind; [by apply Hother, adds_catch, adds_generate|]. intros [e|raw]; [apply Hother; by repeat adds_step|]. cbv zeta.
  destruct (re_search CONTRACT_NAME_RE _) as [m|]; [|apply Hother; by repeat adds_step]. destruct (contains _ _); [|apply Hother; by repeat adds_step].
  by apply compiling_built.
Qed.

(** C3. A synthesis is accounted for and promotes only what builds.  When it returns, the
    last thing it logged is either the reuse of the live base it returns, nothing having
    been done outside, or the one terminal of the attempt, with a cause of the closed set
    that is synthesized exactly when a base is returned; nothing else it logged is
    terminal.  However it ends, an exception included, a file is written among the live
    bases only after this: the smoke test that imports and inherits its contract was
    written, its candidate was written, the build of the smoke test that followed at once
    compiled, and what is written is that candidate with its imports anchored again.  The
    id of the run is one part of a path. *)
Theorem synthesis_accounts r r' x (Hid : plain_name run_id) (H : synthesizing r = (r', x)) :
  (forall out checks, x = Ok (out, checks) -> exists l e, r_log r' = r_log r ++ l ++ [e] /\ Forall open l /\
     (closes_synthesis out e \/
      is_Some out /\ open e /\ assoc "event" e = Some (PStr "scaffold_reused") /\ r_world r' = r_world r)) /\
  (exists acts, r_world r' = r_world r ++ acts /\ traced promotes (r_world r) acts).
Proof.
  split; [|by eapply synthesizing_built]. intros out checks ->. unfold synthesize_scaffold in H.
  apply st_bind_inv in H as [(r1 & live & Hlive & H)|(? & _ & ?)]; [|done]. unfold reuse_live, asking, st_gets in Hlive.
  assert (live = None /\ r1 = r \/ exists p, live = Some p /\ r_world r1 = r_world r /\ exists e, r_log r1 = r_log r ++ [e] /\ open e /\ assoc "event" e = Some (PStr "scaffold_reused"))
    as [[-> ->]|(p & -> & Hw & e & He & Ho & Hev)].
  { unfold mbind, st_bind in Hlive. cbv beta iota zeta in Hlive. destruct (negb _); [injection Hlive as <- <-; by left|].
    unfold st_lift in Hlive. destruct (fs_read _ _); [|done]. destruct (scaffold_missing_types _ _ _ _ _ _) as [[|m ms]|]; [|injection Hlive as <- <-; by left|done].
    injection Hlive as <- <-. right. eexists. split_and!; [done|done|]. by eexists. }
  - apply st_bind_inv in H as [(r2 & mp & Hp & H)|(? & _ & ?)]; [|done]. apply (only_prompt _ _ _ _ _ _ open) in Hp as (l1 & Hl1 & Ho1).
    apply st_bind_inv in H as [(r3 & reply & Hg & H)|(? & _ & ?)]; [|done].
    apply (only_catch open _ (only_outside _ _)) in Hg as (l2 & Hl2 & Ho2).
    assert (forall z l3, r_log r' = r_log r3 ++ l3 ++ [z] -> Forall open l3 -> closes_synthesis out z ->
      exists l e, r_log r' = r_log r ++ l ++ [e] /\ Forall open l /\ (closes_synthesis out e \/ is_Some out /\ open e /\ assoc "event" e = Some (PStr "scaffold_reused") /\ r_world r' = r_world r)) as Hdone.
    { intros z l3 Hl3 Ho3 Hz. exists (l1 ++ l2 ++ l3), z. rewrite Hl3, Hl2, Hl1, <- !app_assoc. split_and!; [done| |by left]. repeat (apply Forall_app; split); done. }
    assert (forall more cause, r_log r' = r_log r3 ++ [synth_failed (t_id t) "no_output" more cause ""] -> out = None ->
      cause ∈ SYNTHESIS_CAUSES -> cause <> "synthesized" -> exists l e, r_log r' = r_log r ++ l ++ [e] /\ Forall open l /\ (closes_synthesis out e \/ is_Some out /\ open e /\ assoc "event" e = Some (PStr "scaffold_reused") /\ r_world r' = r_world r)) as Hfail.
    { intros more cause Hl -> Hc Hne. eapply (Hdone _ []); [exact Hl|done|by apply synth_failed_closes]. }
    destruct reply as [e|raw].
    { injection H as <- <- _. eapply Hfail; [reflexivity|done|apply (bool_decide_unpack _); vm_compute; exact I|done]. }
    destruct (re_search CONTRACT_NAME_RE _) as [m|]; [destruct (contains "pragma" _)|].
    + apply compiling_log in H as (l3 & z & Hl3 & Ho3 & Hz). by eapply Hdone.
    + injection H as <- <- _. eapply Hfail; [reflexivity|done|apply (bool_decide_unpack _); vm_compute; exact I|done].
    + injection H as <- <- _. eapply Hfail; [reflexivity|done|apply (bool_decide_unpack _); vm_compute; exact I|done].
  - injection H as <- <- _. exists [], e. split_and!; [done|done|]. right. by split_and!.
Qed.
End promotion.

(** ** Examples *)

Definition demo_task : Task := mkTask "F-1" "Rounding" "Vault.withdraw" "calls `withdraw()`" "" None None.

Definition demo_config : Config := mkConfig ["/"; "proj"] ["/"] 100 (fun _ => Raise (Exn "ParseError" "")) (fun _ => Ok "")
  (fun _ fallback => (fallback, PNone)) (fun _ => "run-0") 10 None None.

(** An empty disk, a model that answers with a base, and a sandbox in which it builds
    from the [n]-th build on *)
Definition builds_from (n : nat) : Outside := {|
  o_mkdtemp _ := Ok ["/"; "tmp"];
  o_copytree _ _ _ := Ok tt;
  o_execute _ _ _ _ := Ok 0%Z;
  o_unlink _ _ := Ok tt;
  o_sandbox h := fun _ => Ok (mkResult (if n <=? length (List.filter (fun a => match a with Sandboxed _ => true | _ => false end) h)
                                        then "Ran 1 test for audit/poc" else "Error (7576): Undeclared identifier.") "" 0 true);
  o_disk _ := empty_fs;
  o_rglob _ _ _ := [];
  o_write _ _ _ := Ok tt;
  o_mkdir _ _ := Ok tt;
  o_rename _ _ _ := Ok tt;
  o_generate _ _ := Ok ("pragma solidity ^0.8.28;" +:+ nls +:+ "contract SynthBase_F_1 is Base { Vault internal vault; }");
  o_chat _ _ _ := Ok (PDict []);
  o_trace _ _ _ := Ok tt;
  o_clock _ := float_lit "0.0";
  o_monotonic h := Z.of_nat (length h);
|}.

Abbreviation demo_synthesis n :=
  (synthesize_scaffold (builds_from n) demo_config None "" "run-1" demo_task ["Vault"] "contract Base { }" None (mkRun [] [])).

Lemma demo_synthesis_promotes : (demo_synthesis 0).2 = Ok (Some ["/"; "proj"; "audit"; "poc"; "_synth"; "SynthBase_F_1.sol"], []).
Proof. vm_compute. reflexivity. Qed.

Lemma demo_synthesis_rejects : (demo_synthesis 1).2 = Ok (None, []) /\
  map (assoc "cause") (r_log (demo_synthesis 1).1) = [Some (PStr "repair_exhausted:unresolvable"); Some (PStr "repair_exhausted:unresolvable")].
Proof. vm_compute. done. Qed.

Lemma demo_synthesis_acts : (length (r_world (demo_synthesis 0).1) =? 0) = false.
Proof. vm_compute. reflexivity. Qed.

Lemma synthesis_accounts_witness : plain_name "run-1" /\ exists l e, r_log (demo_synthesis 0).1 = l ++ [e] /\
  exists cause, closes "synthesis_attempt" cause e /\ cause = "synthesized".
Proof.
  assert (plain_name "run-1") as Hid by (split; [vm_compute; reflexivity|done]). split; [exact Hid|].
  destruct (demo_synthesis 0) as [r' x] eqn:E. pose proof demo_synthesis_promotes as Hp. rewrite E in Hp. cbn [fst snd] in *. subst x.
  destruct (synthesis_accounts _ _ _ _ _ _ _ _ _ _ _ _ Hid E) as [Hl _]. destruct (Hl _ _ eq_refl) as (l & e & Hlog & _ & He).
  exists l, e. split; [exact Hlog|]. destruct He as [(cause & Hc & _ & Hs)|(_ & Ho & _ & Hw)].
  - exists cause. split; [exact Hc|]. by apply Hs.
  - exfalso. pose proof demo_synthesis_acts as Ha. rewrite E in Ha. cbn [fst] in Ha. by rewrite Hw in Ha.
Defined.

(** A live base that was left empty is reused for any missing type *)
Lemma empty_base_reused fs depth parse ix missing : scaffold_missing_types fs depth parse "" missing ix = Ok [].
Proof. done. Qed.
