(* ===== verification/RunnerDraft.v ===== *)
(** * The PoC queue runner: drafts, fixes and the agentic loop (scripts/poc_queue_runner.py)

    The prompts of a draft and of a fix with what is appended to them, their round trips,
    the deterministic repairs of their code, and the opt-in loop that drafts by itself.
    The read-only tools of the loop and the framing of data are parameters. *)

From S2P Require Import Prelude PyStr PyRe PyPath PyVal PyNum PyFloat SolIndex SolUtils Fixers Inventory Relay Grounding WriteExecute ExploitLoop.
From S2P Require Import RunnerBase RunnerFix RunnerLookup RunnerSource RunnerPrompts RunnerSynth.

(** The operator's choices for a run *)
Record Args := mkArgs {
  a_test_scaffold : string;
  a_no_scaffold : bool;
  a_example_poc : string;
  a_no_example : bool;
  a_no_file_map : bool;
  a_lookup_budget : Z;
  a_no_scaffold_synthesis : bool;
  a_attempts : nat;
  a_agentic_loop : bool;
  a_loop_budget_calls : nat;
  a_loop_budget : Z;          (* the minutes of the loop, in the units of the monotonic clock; 0 is no deadline *)
  a_loop_spin_k : nat;
  a_loop_retry_cap : nat;
  a_model : string;
}.

(** What the drafts of one finding share *)
Record Ground := mkGround {
  g_scaffold : string;
  g_example : string;
  g_files : string;
  g_callable : string;
  g_inventory : option ScaffoldApiInventory;
  g_guard : bool;
}.

(** A lesson offered to the store, which answers with its signature when it keeps it *)
Record Lesson := mkLesson {
  le_trigger : list string;
  le_symptom : string;
  le_fix : string;
  le_category : string;
  le_finding : string;
  le_attempt : nat;
}.
Record LessonStore := mkStore {
  ls_retrieve : history -> string -> res (list string);
  ls_capture : history -> Lesson -> res (option string);
}.

(** The tools of the agentic loop, the store of lessons, and the unified difference of two
    lists of lines *)
Record Tools := mkTools {
  to_sanitize : string -> Sanitized;
  to_read_file : string -> path -> history -> res string;
  to_search_code : string -> path -> history -> res (list Hit);
  to_is_error : exn -> bool;
  to_is_sandbox_error : exn -> bool;
  to_lessons : option LessonStore;
  to_diff : list string -> list string -> list string;
}.

Section draft.
Context (o : Outside) (c : Config) (a : Args) (u : Tools) (symbol_index : option SymbolIndex) (protocol_mode : string).
Context (t : Task) (g : Ground).

Abbreviation project := (c_project c).
Abbreviation M := (ST (Run history)).

Definition or_none (s : string) : string := if truthy s then s else "(none)".
Definition trace_generation (gen : generation) : ST history unit :=
  fun h => (h ++ [Traced (RunnerLookup.g_name gen) (RunnerLookup.g_output gen)], o_trace o h (RunnerLookup.g_name gen) (RunnerLookup.g_output gen)).

Definition grounded : M (string * string) :=
  reading o c (fun fs rglob _ => grounding fs (c_cwd c) rglob project (t_location t) (g_scaffold g) (g_callable g)).

(** What every prompt ends with *)
Definition with_appendices (prompt context : string) : M string :=
  h ← asking (fun h => h);
  let prompt := append_lessons ((fun s => ls_retrieve s h) <$> to_lessons u) prompt context in
  let prompt := append_discipline_instruction prompt (task_dict t) in
  mret (append_anti_mock_grounding prompt (truthy (g_scaffold g))).

Definition lesson_context : string := t_title t +:+ " " +:+ t_location t +:+ " " +:+ t_description t.

(** The prompt of a draft and its provenance *)
Definition draft_prompt : M (string * list (string * pyval)) :=
  ss ← grounded;
  checklist ← st_lift (resolve_prompt (c_prompts c) "poc-exploit-checklist" EXPLOIT_QUALITY_CHECKLIST []);
  p ← st_lift (resolve_prompt (c_prompts c) "poc-draft" DRAFT_PROMPT
    (draft_fields (t_id t) (t_title t) (t_location t) (t_description t) (RunnerBase.ident (t_id t)) ss.1 ss.2 (or_none (g_example g)) (or_none (g_files g))
       (callable_field (g_callable g) symbol_index) checklist.1 (scaffold_api_field (g_inventory g))));
  prompt ← with_appendices p.1 lesson_context;
  mret (prompt, [p.2; checklist.2]).

Definition fix_prompt (previous error : string) : M (string * list (string * pyval)) :=
  ss ← grounded;
  checklist ← st_lift (resolve_prompt (c_prompts c) "poc-exploit-checklist" EXPLOIT_QUALITY_CHECKLIST []);
  p ← st_lift (resolve_prompt (c_prompts c) "poc-fix" FIX_PROMPT
    (fix_fields (t_id t) (RunnerBase.ident (t_id t)) (ulast (Z.to_nat 6000) previous) (ulast (Z.to_nat 4000) error) ss.1 ss.2 (or_none (g_example g))
       (or_none (g_files g)) (callable_field (g_callable g) symbol_index) checklist.1 (scaffold_api_field (g_inventory g))));
  prompt ← with_appendices p.1 error;
  mret (prompt, [p.2; checklist.2]).

Definition tripping (name : string) (attempt : Z) (pp : string * list (string * pyval)) : M string :=
  traced_round_trip (generate o) (chat o) (c_prompts c) LOOKUP_MARKER_SUFFIX symbol_index (a_lookup_budget a) trace_generation name (t_id t) attempt
    pp.1 protocol_mode pp.2.

Definition draft : M string := pp ← draft_prompt; tripping "draft" 0 pp.
Definition fix_ (attempt : Z) (previous error : string) : M string := pp ← fix_prompt previous error; tripping "fix" attempt pp.

(** The repairs applied to the code of a reply *)
Definition postmodel (code : string) : M (string * list string) :=
  reading o c (fun fs rglob git => Ok (seq_postmodel fs git (c_cwd c) rglob code project symbol_index (g_files g) (g_scaffold g) (g_guard g))).

(** [write_poc(fid, poc_dir, generator=lambda _f: code)] *)
Definition write_poc (code : string) : M path :=
  _ ← make_dir o (poc_dir c);
  let p := poc_dir c ++ [RunnerBase.ident (t_id t) +:+ ".t.sol"] in
  _ ← write_file o p code;
  mret p.

(** ** The agentic loop *)

(** An event of the loop as the runner logs it *)
Definition loop_entry (e : ExploitLoop.event) : list (string * pyval) :=
  let n i := PInt (Z.of_nat i) in
  match e with
  | read_refused verb arg reason => [("event", PStr "read_refused"); ("verb", PStr verb); ("arg", PStr arg); ("reason", PStr reason)]
  | loop_force_commit used => [("event", PStr "loop_force_commit"); ("iteration", n used)]
  | loop_degenerate_retry i retry total =>
      [("event", PStr "loop_degenerate_retry"); ("iteration", n i); ("retry", n retry); ("degenerate_retries", n total)]
  | loop_no_code i total => [("event", PStr "loop_no_code"); ("iteration", n i); ("degenerate_retries", n total)]
  | loop_triggered i => [("event", PStr "loop_triggered"); ("iteration", n i)]
  | loop_iteration i kind inform spin distinct =>
      [("event", PStr "loop_iteration"); ("iteration", n i); ("kind", PStr kind); ("informative", PBool inform); ("spin_count", n spin);
       ("distinct_sigs", n distinct)]
  | loop_spin_stop i => [("event", PStr "loop_spin_stop"); ("iteration", n i)]
  end.

Definition outcome_name (x : ExploitLoop.outcome) : string :=
  match x with triggered => "triggered" | budget_exhausted => "budget_exhausted" | spin_stopped => "spin_stopped" | no_code => "no_code" end.

(** [_fix]: the base imports, then the repairs of every attempt *)
Definition agentic_fix (code : string) : M string :=
  let code := (ensure_base_imports (c_cwd c) (poc_dir c) symbol_index code).1 in
  ca ← postmodel code;
  mret ca.1.

Definition run_agentic_poc (code : string) : M (string * string) :=
  code ← agentic_fix code;
  p ← write_poc code;
  test ← sandboxed o c (rel_str c p) true;
  match test with
  | Raise e => st_lift (Raise e)
  | Ok test => mret (stdout test, stderr test)
  end.

(** A step of the runner that logs nothing, on the history alone *)
Definition bare {A} (m : M A) : ST history A := fun h => let '(r, x) := m (mkRun [] h) in (r_world r, x).

Definition ticks : ST history Z := fun h => (h ++ [Clock], Ok (o_monotonic o h)).

(** The loop, what it logs being logged with the runner's events *)
Definition exploit (prompt : string) (deadline : option Z) : M LoopResult := fun r =>
  let '(l, x) := ExploitLoop.run (to_sanitize u) (generate o) (fun code => bare (run_agentic_poc code)) (to_read_file u) (to_search_code u) (to_is_error u)
    ticks symbol_index project prompt (a_loop_budget_calls a) deadline (a_loop_spin_k a) (Nat.max (Z.to_nat (a_lookup_budget a)) 6)
    (a_loop_retry_cap a) (ExploitLoop.mkRun (r_world r) [] [] [] []) in
  (mkRun (r_log r ++ map loop_entry (ExploitLoop.r_log l)) (ExploitLoop.r_world l), x).

Definition iteration_dict (i : Iteration) : pyval :=
  PDict [("sig", strs (it_sig i)); ("spin_count", PInt (Z.of_nat (it_spin i))); ("distinct", PInt (Z.of_nat (it_distinct i)));
         ("gap", match it_gap i with Some x => PFloat (float_repr x) | None => PNone end); ("kind", PStr (it_kind i)); ("informative", PBool (it_informative i))].

Definition loop_done (result : LoopResult) (seconds : pyfloat) : list (string * pyval) :=
  let s := lr_state result in
  [("event", PStr "agentic_loop_done"); ("finding_id", PStr (t_id t)); ("outcome", PStr (outcome_name (lr_outcome result))); ("model", PStr (a_model a));
   ("calls_used", PInt (Z.of_nat (lr_calls_used result))); ("seconds", PFloat (float_repr (float_round 1 seconds)));
   ("degenerate_retries", PInt (Z.of_nat (degenerate_retries s))); ("finding_class", PStr (t_class t));
   ("distinct_sigs", PInt (Z.of_nat (size (distinct_sigs s)))); ("iterations", PList (map iteration_dict (iterations s)))].

Definition run_agentic_exploit_loop : M string :=
  pp ← draft_prompt;
  started ← now o;
  deadline ← (if (a_loop_budget a =? 0)%Z then mret None else start ← outside ticks; mret (Some (start + a_loop_budget a)%Z));
  result ← exploit (pp.1 +:+ READ_PROTOCOL_SUFFIX) deadline;
  ended ← now o;
  _ ← log (loop_done result (float_sub ended started));
  agentic_fix (lr_code result).
End draft.
