(* ===== verification/RunnerAttempt.v ===== *)
(** * The PoC queue runner: one attempt (scripts/poc_queue_runner.py)

    An attempt at a finding: the PoC is written and run, repaired in place, judged,
    checked against the fix when it passes, and answered with feedback for the next draft
    when it does not.  The progress of a finding is threaded through its attempts. *)

From S2P Require Import ExploitLoop.
From S2P Require Import Prelude PyStr PyRe PyPath PyVal PyNum PyFloat PyJson SolIndex SolUtils Fixers Inventory Causes StaticAnalysis Checkpoint Grounding Reach Repeat WriteExecute.
From S2P Require Import RunnerBase RunnerFix RunnerLookup RunnerSource RunnerPrompts RunnerHints RunnerSynth RunnerDraft.

Definition REPEAT_THRESHOLD : nat := 3.

Definition pint (n : nat) : pyval := PInt (Z.of_nat n).

(** The variables of the attempts at one finding *)
Record Progress := mkProgress {
  pg_code : string;
  pg_res : option path;
  pg_prev_error : option (list string);
  pg_prev_fail : option (list string);
  pg_prev_code : option string;
  pg_prev_symptom : string;
  pg_repeat : RepeatState;
  pg_baseline : gset string;
  pg_last_called : option (gset string);
  pg_checkpoint : CheckpointState;
  pg_last_compiled : option bool;
}.

Definition start_progress (code : string) : Progress :=
  mkProgress code None None None None "" initial_repeat ∅ None (mkCheckpoint None None) None.

Definition with_code (code : string) (res : option path) (p : Progress) : Progress :=
  mkProgress code res (pg_prev_error p) (pg_prev_fail p) (pg_prev_code p) (pg_prev_symptom p) (pg_repeat p) (pg_baseline p)
    (pg_last_called p) (pg_checkpoint p) (pg_last_compiled p).
Definition with_previous (error_sig fail_sig : list string) (code symptom : string) (p : Progress) : Progress :=
  mkProgress (pg_code p) (pg_res p) (Some error_sig) (Some fail_sig) (Some code) symptom (pg_repeat p) (pg_baseline p)
    (pg_last_called p) (pg_checkpoint p) (pg_last_compiled p).

Definition with_checkpoint (state : CheckpointState) (p : Progress) : Progress :=
  mkProgress (pg_code p) (pg_res p) (pg_prev_error p) (pg_prev_fail p) (pg_prev_code p) (pg_prev_symptom p) (pg_repeat p) (pg_baseline p)
    (pg_last_called p) state (pg_last_compiled p).
Definition with_streaks (rep : RepeatState) (baseline : gset string) (last_called : option (gset string)) (p : Progress) : Progress :=
  mkProgress (pg_code p) (pg_res p) (pg_prev_error p) (pg_prev_fail p) (pg_prev_code p) (pg_prev_symptom p) rep baseline last_called
    (pg_checkpoint p) (pg_last_compiled p).
Definition with_last_compiled (b : bool) (p : Progress) : Progress :=
  mkProgress (pg_code p) (pg_res p) (pg_prev_error p) (pg_prev_fail p) (pg_prev_code p) (pg_prev_symptom p) (pg_repeat p) (pg_baseline p)
    (pg_last_called p) (pg_checkpoint p) (Some b).

(** The verdict on a tested code, as the runner computes it *)
Record Verdict := mkVerdict {
  v_test : TestResult;
  v_defects : list string;
  v_compiled : bool;
}.
Definition real_pass (v : Verdict) : bool := passed (v_test v) && bool_decide (v_defects v = []).
Definition compiled_real (v : Verdict) : bool := v_compiled v && bool_decide (v_defects v = []).
Definition v_out (v : Verdict) : string := stdout (v_test v).
Definition v_err (v : Verdict) : string := stderr (v_test v).
Definition v_blob (v : Verdict) : string := v_out v +:+ nls +:+ v_err v.

(** ** The feedback of a failed attempt *)

Definition defect_note (defects : list string) : string :=
  match defects with
  | [] => ""
  | _ => nls +:+ nls +:+ "STRUCTURAL PROBLEMS - the test builds but proves nothing; fix ALL:" +:+ nls +:+ "- " +:+ join (nls +:+ "- ") defects
  end.
Definition hint_note (hints : string) : string :=
  if truthy hints then nls +:+ nls +:+ "TARGETED FIXES (authoritative - apply exactly):" +:+ nls +:+ hints else "".
Definition compile_stall (error_sig : list string) : string :=
  nls +:+ nls +:+ "STALL: the previous fix did NOT resolve this - the IDENTICAL compiler error(s) persist even after a full rewrite: "
  +:+ utake 300 (join "; " error_sig)
  +:+ ". Do not just rewrite the file again; specifically locate every call/argument the targeted fix above describes and correct it - if you already tried a similar edit, it was wrong in a way you haven't identified yet.".
Definition runtime_stall (fail_sig : list string) : string :=
  nls +:+ nls +:+ "STALL: the previous fix did NOT change the runtime outcome - the test still fails with the EXACT SAME reason: " +:+ join "; " fail_sig
  +:+ ". This is an EVM-logic stall, not a syntax one. Reconsider WHO calls each step (vm.prank/startPrank target), WHETHER a precondition (approval, balance, role, initial state) is actually established before the call that fails, and whether the call ORDER matches the finding's described sequence - do not just reformat the same call chain.".

(** The outcome of the last attempt *)
Definition exhausted_outcome (v : Verdict) : string :=
  if passed (v_test v) then "vacuous_pass"
  else if compiled_real v then "reverted_exhausted"
  else if v_compiled v then "compile_only_defective" else "exhausted".


(** ** An attempt *)

Section attempt.
Context (o : Outside) (c : Config) (a : Args) (u : Tools) (symbol_index : option SymbolIndex) (file_map protocol_mode run_id : string).
Context (require_pass_effective : bool) (t : Task) (g : Ground) (checks : list ReachabilityCheck).

Abbreviation project := (c_project c).
Abbreviation fid := (t_id t).
Abbreviation M := (ST (Run history)).

Definition target_stems : list string := location_names (t_location t).

Definition writing (code : string) : M path := write_poc o c t code.

(** The bounded repair in place: the code, its file and the last run of it *)
Fixpoint det_repair (left attempt : nat) (code : string) (p : path) (test : TestResult) : M (string * path * TestResult) :=
  match left with
  | 0 => mret (code, p, test)
  | S left' =>
      if compiled (stdout test) (stderr test) then mret (code, p, test)
      else
        let '(code, applied) := seq_draft_inplace (c_cwd c) code (stdout test +:+ nls +:+ stderr test) file_map in
        match applied with
        | [] => mret (code, p, test)
        | _ =>
            _ ← log [("event", PStr "deterministic_fix"); ("finding_id", PStr fid); ("attempt", pint attempt); ("fixes", strs applied)];
            p ← writing code;
            x ← sandboxed o c (rel_str c p) true;
            match x with
            | Ok test => det_repair left' attempt code p test
            | Raise e =>
                _ ← log [("event", PStr "run_error"); ("finding_id", PStr fid); ("attempt", pint attempt); ("error", PStr (exn_msg e))];
                mret (code, p, test)
            end
        end
  end.

(** ** The record of an attempt *)

Definition artifact_rel (attempt : nat) : string :=
  POC_SUBDIR +:+ "/_runs/" +:+ (if truthy run_id then run_id else "_local") +:+ "/poc_attempts/" +:+ fid +:+ "/a" +:+ pretty attempt +:+ "_post_det.sol.txt".
Definition artifact (attempt : nat) : path := path_join project (to_path (artifact_rel attempt)).
Definition keep_artifact (attempt : nat) (code : string) : M unit :=
  _ ← make_dir o (parent (artifact attempt)); write_file o (artifact attempt) code.

Definition mechanism (code : string) : Mech := mechanism_signal code (t_location t) (t_description t).
Definition mech_dict (m : Mech) : pyval := PDict [("checked", strs (mech_checked m)); ("called", strs (mech_called m))].

Definition tested (attempt : nat) (code : string) (v : Verdict) : list (string * pyval) :=
  [("event", PStr "tested"); ("finding_id", PStr fid); ("attempt", pint attempt); ("passed", PBool (passed (v_test v)));
   ("compiled", PBool (v_compiled v)); ("real_pass", PBool (real_pass v)); ("compiled_real", PBool (compiled_real v));
   ("defects", strs (v_defects v)); ("mechanism", mech_dict (mechanism code)); ("exit_code", PInt (exit_code (v_test v)));
   ("stdout_tail", PStr (ulast (Z.to_nat 1200) (v_out v))); ("stderr_tail", PStr (ulast (Z.to_nat 1200) (v_err v)))].

(** A code that does not compile after one that did is refused and the earlier one
    restored; one that compiles is remembered *)
Definition adopt (attempt : nat) (v : Verdict) (p : Progress) : M Progress :=
  let target := restore_target (pg_checkpoint p) in
  if should_emit_adopt_refusal true (v_compiled v) (bool_decide (is_Some target)) then
    refusal ← st_lift (build_adopt_refusal_fields (pg_checkpoint p) attempt (artifact_rel attempt));
    _ ← log (merge [("finding_id", PStr fid)] (match refusal with PDict d => d | _ => [] end));
    slot ← st_lift (match target with Some slot => Ok slot | None => Raise (Exn "AttributeError" "'NoneType' object has no attribute 'source'") end);
    path ← writing (cs_source slot);
    mret (with_code (cs_source slot) (Some path) p)
  else if v_compiled v then
    mret (with_checkpoint (refresh_slots (pg_checkpoint p) (pg_code p) attempt true (compiled_real v) (if passed (v_test v) then "pass" else "fail")) p)
  else mret p.

(** What the output of a run says: the repeated revert and whether it is due a hint, the
    dropped mechanisms, and the errors *)
Record Evidence := mkEvidence {
  ev_site : option CallSite;
  ev_fired : bool;
  ev_reminder : string;
  ev_errors : list string;
  ev_fails : list string;
}.

Definition evidence (m : Mech) (v : Verdict) (p : Progress) : Progress * Evidence :=
  let '(site, selector) := extract_repeat_evidence (v_out v) (v_err v) in
  let caller := site ≫= extract_caller_expr (pg_code p) in
  let '(rep, fired) := update_repeat (pg_repeat p) site selector caller REPEAT_THRESHOLD in
  let '(baseline, last_called, reminder) := update_mechanism_baseline (pg_baseline p) (pg_last_called p) (v_compiled v) m in
  (with_streaks rep baseline last_called p,
   mkEvidence site fired reminder (error_signature (v_out v +:+ v_err v)) (fail_signature (v_out v +:+ v_err v))).

(** ** Lessons *)

Definition lesson_of (attempt : nat) (trigger : list string) (category : string) (p : Progress) : Lesson :=
  mkLesson trigger (utake (Z.to_nat 2000) (pg_prev_symptom p))
    (utake (Z.to_nat 4000) (unlines (to_diff u (splitlines (default "" (pg_prev_code p))) (splitlines (pg_code p))))) category fid attempt.

Definition maybe_capture_lesson (attempt : nat) (ev : Evidence) (v : Verdict) (p : Progress) : M unit :=
  match to_lessons u with
  | None => mret tt
  | Some store =>
      match lesson_trigger (pg_prev_error p) (ev_errors ev) (pg_prev_fail p) (real_pass v) (v_compiled v) with
      | None => mret tt
      | Some (trigger, category) =>
          x ← act_with (Captured trigger) (fun h => Ok (ls_capture store h (lesson_of attempt trigger category p)));
          match x with
          | Ok (Some sig_id) =>
              log [("event", PStr "lesson_captured"); ("finding_id", PStr fid); ("attempt", pint attempt); ("sig_id", PStr sig_id); ("category", PStr category)]
          | Ok None => mret tt
          | Raise e => log [("event", PStr "lesson_capture_error"); ("finding_id", PStr fid); ("error", PStr (exn_msg e))]
          end
      end
  end.

(** ** The verdict *)

(** A passing PoC is checked against the fix *)
Definition falsified (p : path) : M (string * string) :=
  sr ← mutation_verify o project fid (t_fix_patch t) (t_fix t) (rel_str c p) (c_fork_rpc c) (c_image c);
  mret (if String.eqb sr.1 "verified" then ("passed_verified", "")
        else if String.eqb sr.1 "unverified_pass" then ("unverified_pass", "")
        else ("passed_unchecked", sr.2)).

(** The outcome of a judged code with the reason it was not falsified; none when the
    next attempt is due *)
Definition judged (attempt : nat) (p : path) (v : Verdict) : M (option (string * string)) :=
  if real_pass v then r ← falsified p; mret (Some r)
  else if compiled_real v && negb require_pass_effective then mret (Some ("compiled", ""))
  else
    _ ← (if passed (v_test v) && negb (bool_decide (v_defects v = [])) then
           log [("event", PStr "rejected_vacuous"); ("finding_id", PStr fid); ("attempt", pint attempt); ("defects", strs (v_defects v))]
         else mret tt);
    mret (if attempt =? a_attempts a then Some (exhausted_outcome v, "") else None).

(** ** The feedback *)

Definition noted (cond : bool) (e : list (string * pyval)) : M unit := if cond then log e else mret tt.

(** The compiler's or the revert's note, logged *)
Definition hint_notes (attempt : nat) (v : Verdict) (code : string) : M string :=
  let hints := targeted_hints (v_blob v) (g_callable g) file_map code symbol_index (g_scaffold g) (g_inventory g) in
  let revert_note := if v_compiled v && negb (truthy hints) && bool_decide (v_defects v = [])
                     then nls +:+ nls +:+ revert_hints (v_out v) (v_err v) (t_title t) (t_description t) else "" in
  let obs_block := if v_compiled v then access_control_observation_block (v_blob v) else "" in
  _ ← noted (truthy obs_block) [("event", PStr "observed_fork_grounding"); ("finding_id", PStr fid); ("attempt", pint attempt); ("hints", PStr (utake 500 obs_block))];
  _ ← (if truthy hints then log [("event", PStr "targeted_hints"); ("finding_id", PStr fid); ("attempt", pint attempt); ("hints", PStr (utake 300 hints))]
       else noted (truthy (strip revert_note))
              [("event", PStr "revert_hints"); ("finding_id", PStr fid); ("attempt", pint attempt);
               ("with_trace", PBool (contains "EXECUTION TRACE" revert_note)); ("hints", PStr (utake (Z.to_nat 1500) revert_note))]);
  mret (hint_note hints +:+ revert_note +:+ (if truthy obs_block then nls +:+ nls +:+ obs_block else "")).

(** The same error twice in a row *)
Definition stall_note (attempt : nat) (ev : Evidence) (p : Progress) : M string :=
  if negb (bool_decide (ev_errors ev = [])) && bool_decide (Some (ev_errors ev) = pg_prev_error p) then
    _ ← log [("event", PStr "stall_detected"); ("finding_id", PStr fid); ("attempt", pint attempt); ("kind", PStr "compile")];
    mret (compile_stall (ev_errors ev))
  else if negb (bool_decide (ev_fails ev = [])) && bool_decide (Some (ev_fails ev) = pg_prev_fail p) then
    _ ← log [("event", PStr "stall_detected"); ("finding_id", PStr fid); ("attempt", pint attempt); ("kind", PStr "runtime"); ("reason", strs (take 2 (ev_fails ev)))];
    mret (runtime_stall (ev_fails ev))
  else mret "".

Definition repeat_note (attempt : nat) (ev : Evidence) (p : Progress) : M string :=
  if ev_fired ev then
    let corroborating := corroboration (ev_site ev) checks in
    let confirmed := confirmed_caller_change (pg_repeat p) in
    let note := nls +:+ nls +:+ repeat_hint (pg_repeat p) corroborating in
    let form := match corroborating with
                | Some _ => "corroborated"
                | None => if confirmed then "hypothesis_confirmed" else "hypothesis_indeterminate"
                end in
    _ ← log [("event", PStr "repeat_revert_hint"); ("finding_id", PStr fid); ("attempt", pint attempt); ("confirmed_caller_change", PBool confirmed);
             ("form", PStr form); ("hints", PStr (utake (Z.to_nat 1500) note))];
    mret note
  else mret "".

Definition mechanism_note (attempt : nat) (ev : Evidence) : M string :=
  if truthy (ev_reminder ev) then
    let note := nls +:+ nls +:+ ev_reminder ev in
    _ ← log [("event", PStr "mechanism_regression_hint"); ("finding_id", PStr fid); ("attempt", pint attempt); ("hints", PStr (utake (Z.to_nat 1500) note))];
    mret note
  else mret "".

(** What the model is told of the failed attempt *)
Definition feedback (attempt : nat) (v : Verdict) (ev : Evidence) (p : Progress) : M string :=
  hints ← hint_notes attempt v (pg_code p);
  stall ← stall_note attempt ev p;
  repeated ← repeat_note attempt ev p;
  dropped ← mechanism_note attempt ev;
  mret (v_blob v +:+ defect_note (v_defects v) +:+ hints +:+ stall +:+ repeated +:+ dropped).

(** The repairs of a reply, each logged *)
Definition repaired (code stage : string) : M string :=
  ca ← postmodel o c symbol_index g code;
  _ ← map_st (fun fx => log [("event", PStr (default "" (assoc fx POSTMODEL_EVENT))); ("finding_id", PStr fid); ("stage", PStr stage)]) ca.2;
  mret ca.1.

(** The next code, or none when the model failed *)
Definition next_code (attempt : nat) (code error : string) : M (option string) :=
  reply ← catch_model (call_with_retry (fix_ o c a u symbol_index protocol_mode t g (Z.of_nat attempt) code error) "fix" fid None);
  match reply with
  | inl e => _ ← log [("event", PStr "fix_failed"); ("finding_id", PStr fid); ("error", PStr (exn_msg e))]; mret None
  | inr reply =>
      let fixed := default "" reply in
      _ ← noted (negb (truthy (strip fixed))) [("event", PStr "fix_no_code"); ("finding_id", PStr fid); ("attempt", pint attempt)];
      let fixed := if truthy (strip fixed) then fixed else if truthy code then code else fixed in
      code ← repaired fixed ("fix" +:+ pretty attempt);
      mret (Some code)
  end.

(** ** The attempts *)

(** How an attempt ends: with the progress for the next, or with an outcome and the
    reason it was not falsified *)
Definition attempt_end : Type := Progress + Progress * (string * string).

(** A code that was run *)
Definition after_run (attempt : nat) (p : Progress) (path : path) (test : TestResult) : M attempt_end :=
  cpt ← det_repair DET_REPAIR_ROUNDS attempt (pg_code p) path test;
  let '(code, res, test) := cpt in
  let v := mkVerdict test (poc_defects code target_stems (truthy (g_scaffold g))) (compiled (stdout test) (stderr test)) in
  _ ← keep_artifact attempt code;
  _ ← log (tested attempt code v);
  p ← adopt attempt v (with_last_compiled (v_compiled v) (with_code code (Some res) p));
  let '(p, ev) := evidence (mechanism code) v p in
  _ ← maybe_capture_lesson attempt ev v p;
  verdict ← judged attempt path v;
  match verdict with
  | Some out => mret (inr (p, out))
  | None =>
      error ← feedback attempt v ev p;
      let p := with_previous (ev_errors ev) (ev_fails ev) (pg_code p) (v_blob v) p in
      next ← next_code attempt (pg_code p) error;
      mret (match next with Some code => inl (with_code code (pg_res p) p) | None => inr (p, ("fix_failed", "")) end)
  end.

Definition one_attempt (attempt : nat) (p : Progress) : M attempt_end :=
  path ← writing (pg_code p);
  let p := with_code (pg_code p) (Some path) p in
  _ ← log [("event", PStr "written"); ("finding_id", PStr fid); ("attempt", pint attempt); ("path", PStr (rel_str c path))];
  x ← sandboxed o c (rel_str c path) true;
  match x with
  | Raise e =>
      if String.eqb (exn_class e) "SandboxUnavailable" then
        _ ← log [("event", PStr "sandbox_unavailable"); ("finding_id", PStr fid); ("reason", PStr (exn_msg e))];
        mret (inr (p, ("sandbox_unavailable", "")))
      else
        _ ← log [("event", PStr "run_error"); ("finding_id", PStr fid); ("attempt", pint attempt); ("error", PStr (exn_msg e))];
        mret (inr (p, ("run_error", "")))
  | Ok test => after_run attempt p path test
  end.

Fixpoint attempts (left attempt : nat) (p : Progress) : M (Progress * (string * string)) :=
  match left with
  | 0 => mret (p, ("unknown", ""))
  | S left' =>
      e ← one_attempt attempt p;
      match e with inl p => attempts left' (S attempt) p | inr done => mret done end
  end.

Definition effective_attempts : nat := if a_agentic_loop a then 1 else a_attempts a.

(** ** After the attempts *)

Definition end_restore (p : Progress) : M Progress :=
  match pg_last_compiled p, restore_target (pg_checkpoint p), pg_res p with
  | Some last_compiled, Some slot, Some _ =>
      if should_end_restore last_compiled true then
        path ← writing (cs_source slot);
        mret (with_code (cs_source slot) (Some path) p)
      else mret p
  | _, _, _ => mret p
  end.

Definition KEPT_OUTCOMES : list string := ["passed_verified"; "passed_unchecked"; "compiled"].

(** A PoC that is not kept leaves the directory of the tests *)
Definition quarantine (outcome : string) (p : Progress) : M unit :=
  if bool_decide (outcome ∈ KEPT_OUTCOMES) then mret tt
  else match pg_res p with
       | None => mret tt
       | Some path =>
           let dir := parent (poc_dir c) ++ ["poc_failed"] in
           let dest := dir ++ [path_name path] in
           _ ← make_dir o dir;
           _ ← act_with (Rename path dest) (fun h => o_rename o h path dest);
           log [("event", PStr "quarantined"); ("finding_id", PStr fid); ("path", PStr (rel_str c dest))]
       end.
End attempt.
