(* ===== verification/Runner.v ===== *)
(** * The PoC queue runner: findings and the queue (scripts/poc_queue_runner.py)

    The lifecycle of a finding, from its scaffold to the verdict, and the main loop over
    the queue.  Each finding that is processed closes with exactly one terminal event. *)

From S2P Require Import ExploitLoop.
From S2P Require Import Prelude PyStr PyRe PyPath PyVal PyNum PyFloat PyJson SolIndex SolUtils Fixers Inventory Causes StaticAnalysis Checkpoint Grounding Reach Repeat WriteExecute.
From S2P Require Import RunnerBase RunnerFix RunnerLookup RunnerSource RunnerPrompts RunnerHints RunnerSynth RunnerDraft RunnerAttempt.

Section finding.
Context (o : Outside) (c : Config) (a : Args) (u : Tools) (symbol_index : option SymbolIndex) (file_map protocol_mode run_id : string).
Context (require_pass_effective : bool) (t : Task).

Abbreviation project := (c_project c).
Abbreviation fid := (t_id t).
Abbreviation M := (ST (Run history)).

(** ** Closing a finding *)

Definition closing (event : string) (more : list (string * pyval)) (outcome : string) : list (string * pyval) :=
  merge ([("event", PStr event); ("finding_id", PStr fid)] ++ more) (terminal_fields "finding_attempt" (finding_cause outcome) None "").

Definition elapsed (started ended : pyfloat) : pyval := PFloat (float_repr (float_round 1 (float_sub ended started))).

(** The last event of a finding that reached a verdict *)
Definition task_done (started : pyfloat) (outcome verify_reason : string) : M string :=
  ended ← now o;
  _ ← log (closing "task_done" [("outcome", PStr outcome); ("elapsed_s", elapsed started ended)] outcome
           ++ (if truthy verify_reason then [("verify_reason", PStr verify_reason)] else []));
  mret outcome.

(** A finding that ends before its first attempt *)
Definition close_early (event key message outcome : string) : M string :=
  _ ← log (closing event [(key, PStr message)] outcome); mret outcome.

(** ** The grounding of a finding *)

Definition rel_paths (ps : list path) : pyval := PList (map (fun p => PStr (rel_str c p)) ps).

Definition scaffold_of (paths : list path) : M (string * option ScaffoldApiInventory) :=
  scaffold ← reading o c (fun fs _ _ => read_scaffold fs (c_cwd c) project paths);
  h ← asking (fun h => h);
  inventory ← refresh_scaffold_inventory (o_disk o h) (c_depth c) (c_parse c) (c_inventory_fuel c) project paths fid;
  mret (scaffold, inventory).

Definition guard_of (scaffold : string) : bool := truthy scaffold && base_has_nonvirtual_setup scaffold.

(** What synthesis made of an insufficient scaffold, with the checks of the new base *)
Definition with_synthesis (g : Ground) (missing_types : list string) : M (option (Ground * list ReachabilityCheck)) :=
  if a_no_scaffold_synthesis a then mret None
  else
    s ← synthesize_scaffold o c symbol_index file_map run_id t missing_types (g_scaffold g) (g_inventory g);
    match s.1 with
    | None => mret None
    | Some synth =>
        si ← scaffold_of [synth];
        let guard := guard_of si.1 in
        _ ← log [("event", PStr "grounding"); ("finding_id", PStr fid); ("stage", PStr "synthesized"); ("scaffold", rel_paths [synth]); ("setup_guard", PBool guard)];
        mret (Some (mkGround si.1 (g_example g) (g_files g) (g_callable g) si.2 guard, s.2))
    end.

(** The grounding of the drafts, or the outcome of a finding that has none *)
Definition ground : M (string + Ground * list ReachabilityCheck) :=
  scaffold_paths ← reading o c (fun fs _ git => resolve_scaffold fs git project (a_test_scaffold a) (a_no_scaffold a));
  if negb (a_no_scaffold a) && bool_decide (scaffold_paths = []) then
    _ ← log [("event", PStr "scaffold_absent"); ("finding_id", PStr fid);
             ("reason", PStr "no deploy base could be resolved (auto-discovery empty, no operator scaffold configured) and scaffolding was not deliberately disabled - an environment gap, not a model miss (FR-001)")];
    mret (inl "base-insufficient")
  else
    si ← scaffold_of scaffold_paths;
    example_path ← reading o c (fun fs _ git => resolve_example fs git project (a_example_poc a) (a_no_example a) scaffold_paths (fid :: target_stems t));
    example ← reading o c (fun fs _ _ => read_example fs example_path);
    callable_api ← (if a_no_file_map a then mret "" else reading o c (fun fs rglob _ => build_callable_api fs rglob project (t_location t) symbol_index));
    let guard := guard_of si.1 in
    _ ← log [("event", PStr "grounding"); ("finding_id", PStr fid); ("scaffold", rel_paths scaffold_paths);
             ("example", match example_path with Some p => PStr (rel_str c p) | None => PNone end); ("callable_api_chars", pint (ulen callable_api));
             ("setup_guard", PBool guard)];
    let g := mkGround si.1 example file_map callable_api si.2 guard in
    missing_types ← reading o c (fun fs _ _ => scaffold_missing_types fs (c_depth c) (c_parse c) si.1 (target_stems t) symbol_index);
    match missing_types with
    | [] => mret (inr (g, []))
    | _ =>
        _ ← log [("event", PStr "scaffold_insufficient"); ("finding_id", PStr fid); ("missing_types", strs missing_types);
                 ("hint", PStr "the resolved scaffold declares no state variable of this type - escalate via synth then agentic lookup (Option C); drafting on a known-insufficient base is disallowed (feature 040 FR-011)")];
        synth ← with_synthesis g missing_types;
        match synth with
        | Some gc => mret (inr gc)
        | None => outcome ← insufficiency_ladder_outcome symbol_index (a_lookup_budget a) missing_types fid; mret (inl outcome)
        end
    end.

(** ** The first code *)

Abbreviation drafting g := (draft o c a u symbol_index protocol_mode t g).
Abbreviation fixing g := (fix_ o c a u symbol_index protocol_mode t g).

Inductive first_code := written (code : string) | failed (event key message outcome : string).

Definition with_solidity (code message : string) : first_code :=
  if truthy (strip code) then written code else failed "draft_failed" "error" message "draft_failed".

(** [except MODEL_ERRORS], then [SandboxUnavailable], then [SandboxError] *)
Definition agentic_code (g : Ground) : M first_code := fun r =>
  match run_agentic_exploit_loop o c a u symbol_index t g r with
  | (r', Ok code) => (r', Ok (with_solidity code "agentic loop produced no Solidity"))
  | (r', Raise e) =>
      if is_model_error e then (r', Ok (failed "draft_failed" "error" (exn_msg e) "draft_failed"))
      else if String.eqb (exn_class e) "SandboxUnavailable" then (r', Ok (failed "sandbox_unavailable" "reason" (exn_msg e) "sandbox_unavailable"))
      else if to_is_sandbox_error u e then (r', Ok (failed "run_error" "error" (exn_msg e) "run_error"))
      else (r', Raise e)
  end.

Definition drafted_code (g : Ground) : M first_code :=
  reply ← catch_model (call_with_retry (drafting g) "draft" fid None);
  mret (match reply with
        | inl e => failed "draft_failed" "error" (exn_msg e) "draft_failed"
        | inr code => with_solidity (default "" code) "no Solidity in model reply"
        end).

(** ** A finding *)

Definition first_draft (g : Ground) : M first_code := if a_agentic_loop a then agentic_code g else drafted_code g.

Definition process_finding : M string :=
  started ← now o;
  _ ← log [("event", PStr "task_start"); ("finding_id", PStr fid); ("title", PStr (t_title t))];
  gr ← ground;
  match gr with
  | inl outcome => task_done started outcome ""
  | inr (g, checks) =>
      first ← first_draft g;
      match first with
      | failed event key message outcome => close_early event key message outcome
      | written code =>
          code ← repaired o c symbol_index t g code "draft";
          pr ← attempts o c a u symbol_index file_map protocol_mode run_id require_pass_effective t g checks (effective_attempts a) 1 (start_progress code);
          p ← end_restore o c t pr.1;
          _ ← quarantine o c t pr.2.1 p;
          task_done started pr.2.1 pr.2.2
      end
  end.
End finding.

(** ** The queue *)

(** The findings to prove: those asked for by id, or the first of them, or all; and the
    ids asked for that no task has *)
Definition wanted_ids (only_ : string) : gset string := list_to_set (map lower (List.filter truthy (map strip (split_char "," only_)))).

(** [tasks[:limit]]: a negative limit leaves out the last tasks *)
Definition first_tasks (limit : Z) (tasks : list Task) : list Task :=
  take (Z.to_nat (if (0 <=? limit)%Z then limit else (Z.of_nat (length tasks) + limit)%Z)) tasks.

Definition select_todo (only_ : string) (limit : Z) (tasks : list Task) : list Task * list string :=
  if truthy only_ then
    let wanted := wanted_ids only_ in
    (List.filter (fun t => bool_decide (lower (t_id t) ∈ wanted)) tasks,
     sorted_names (wanted ∖ list_to_set (map (fun t => lower (t_id t)) tasks)))
  else (if (limit =? 0)%Z then tasks else first_tasks limit tasks, []).

Definition selected {W} (only_ : string) (limit : Z) (tasks : list Task) : ST (Run W) (list Task) :=
  let '(todo, missing) := select_todo only_ limit tasks in
  _ ← (match missing with [] => mret tt | _ => log [("event", PStr "only_ids_not_found"); ("missing", strs missing)] end);
  mret todo.

Section queue.
Context (o : Outside) (c : Config) (a : Args) (u : Tools) (symbol_index : option SymbolIndex) (file_map protocol_mode run_id : string).
Context (require_pass_effective : bool).

(** [max_time] in the units of the monotonic clock, zero for no limit; [max_minutes] as it
    is logged *)
Context (max_time : Z) (max_minutes : string) (run_start : Z).

Abbreviation M := (ST (Run history)).

Definition spent : M bool :=
  if (max_time =? 0)%Z then mret false else t ← outside (ticks o); mret (max_time <=? t - run_start)%Z.

(** The findings in order, [i] of them done; past the budget the rest are skipped, each
    with its terminal *)
Fixpoint run_queue (i : nat) (todo : list Task) : M unit :=
  match todo with
  | [] => log [("event", PStr "done")]
  | t :: rest =>
      over ← spent;
      if (over : bool) then
        _ ← log [("event", PStr "budget_reached"); ("max_minutes", PFloat max_minutes); ("done_before_stop", pint i)];
        _ ← emit_budget_skips (map t_id todo);
        log [("event", PStr "done")]
      else
        _ ← process_finding o c a u symbol_index file_map protocol_mode run_id require_pass_effective t;
        run_queue (S i) rest
  end.
End queue.

(** ** What a finding logs *)

(** An entry that does not close a finding *)
Definition quiet (e : entry) : Prop := assoc "level" e <> Some (PStr "finding_attempt").

Lemma quiet_synth_failed fid reason more cause sig : quiet (synth_failed fid reason more cause sig).
Proof. unfold quiet, synth_failed. by rewrite (closes_level _ _ _ (merge_closes _ _ _ _ _)). Qed.

Ltac quiet_step :=
  first [ silent_step | apply quiet_synth_failed | case_match | done ].
Ltac quiet_go := repeat quiet_step.

Section quiet_synthesis.
Context (o : Outside) (c : Config) (symbol_index : option SymbolIndex) (file_map run_id : string).
Context (t : Task) (missing_types : list string) (existing_scaffold : string) (inventory : option ScaffoldApiInventory).

Lemma quiet_rounds matches attempt_dir candidate live : forall left rnd code blob,
  only quiet (synth_rounds o c symbol_index file_map t missing_types existing_scaffold matches attempt_dir candidate live left rnd code blob).
Proof.
  induction left as [|left IH]; intros rnd code blob; cbn [synth_rounds]; [apply only_ret|].
  apply only_bind; [by only_go|intros _]. apply only_bind; [by only_go|intros [test|e]].
  - destruct (compiled _ _).
    + unfold promote. only_go. unfold quiet. rewrite assoc_app. by rewrite (closes_level _ _ _ (merge_closes _ _ _ _ _)).
    + apply only_bind; [by only_go|intros cr]. destruct (fix_wiring_receivers _ _ _ _) as [code' wr]. apply only_bind; [destruct wr; by only_go|intros _].
      destruct (applied_names _ ++ _); [by only_go|]. apply only_bind; [by only_go|]. intros _. apply IH.
  - only_go. apply quiet_synth_failed.
Qed.

Lemma quiet_synthesis : only quiet (synthesize_scaffold o c symbol_index file_map run_id t missing_types existing_scaffold inventory).
Proof.
  unfold synthesize_scaffold. apply only_bind.
  { unfold reuse_live. only_go. case_match; only_go. case_match; by only_go. }
  intros [p|]; [apply only_ret|]. apply only_bind; [apply only_prompt|]. intros mp. apply only_bind; [by only_go|]. intros [e|raw].
  { only_go. apply quiet_synth_failed. }
  case_match; [|by only_go; apply quiet_synth_failed]. case_match; [|by only_go; apply quiet_synth_failed].
  unfold compile_candidate. only_go. destruct (fix_wiring_receivers _ _ _ _) as [code' wr]. apply only_bind; [destruct wr; by only_go|intros _].
  do 2 (apply only_bind; [by only_go|intros _]). apply only_finally; [|by only_go]. apply only_bind; [apply quiet_rounds|].
  intros [live checks| |ex blob]; only_go. unfold reject. only_go. apply quiet_synth_failed.
Qed.
End quiet_synthesis.

Section quiet_attempt.
Context (o : Outside) (c : Config) (a : Args) (u : Tools) (symbol_index : option SymbolIndex) (file_map protocol_mode run_id : string).
Context (require_pass_effective : bool) (t : Task) (g : Ground) (checks : list ReachabilityCheck).

Lemma quiet_tripping name attempt pp : only quiet (tripping o c a symbol_index protocol_mode t name attempt pp).
Proof. by apply only_traced. Qed.

Lemma quiet_appendices prompt context : only quiet (with_appendices u t g prompt context).
Proof. unfold with_appendices. by only_go. Qed.

Lemma quiet_draft_prompt : only quiet (draft_prompt o c u symbol_index t g).
Proof. unfold draft_prompt, grounded. repeat first [apply quiet_appendices | silent_step]. Qed.

Lemma quiet_draft : only quiet (draft o c a u symbol_index protocol_mode t g).
Proof. apply only_bind; [apply quiet_draft_prompt|]. intros pp. apply quiet_tripping. Qed.

Lemma quiet_fix attempt previous error : only quiet (fix_ o c a u symbol_index protocol_mode t g attempt previous error).
Proof.
  apply only_bind; [|intros pp; apply quiet_tripping]. unfold fix_prompt, grounded. repeat first [apply quiet_appendices | silent_step].
Qed.

Lemma quiet_postmodel code : only quiet (postmodel o c symbol_index g code).
Proof. unfold postmodel. by only_go. Qed.

Lemma quiet_write code : only quiet (writing o c t code).
Proof. unfold writing, write_poc. by only_go. Qed.

Lemma quiet_exploit prompt deadline : only quiet (exploit o c a u symbol_index t g prompt deadline).
Proof.
  intros r r' x H. unfold exploit in H. destruct (ExploitLoop.run _ _ _ _ _ _ _ _ _ _ _ _ _ _ _ _) as [l y]. injection H as <- <-.
  eexists. split; [reflexivity|]. apply Forall_forall. intros e (ev & -> & _)%list_elem_of_fmap. by destruct ev.
Qed.

Lemma quiet_agentic : only quiet (run_agentic_exploit_loop o c a u symbol_index t g).
Proof.
  unfold run_agentic_exploit_loop. apply only_bind; [apply quiet_draft_prompt|]. intros pp. apply only_bind; [by only_go|]. intros started.
  apply only_bind; [destruct (_ =? 0)%Z; by only_go|]. intros deadline. apply only_bind; [apply quiet_exploit|]. intros result. by only_go.
Qed.

Lemma quiet_repaired code stage : only quiet (repaired o c symbol_index t g code stage).
Proof. unfold repaired. apply only_bind; [apply quiet_postmodel|intros ca]. by only_go. Qed.

Lemma quiet_execute argv cwd input : only quiet (execute o argv cwd input).
Proof. by apply only_silent. Qed.

Lemma quiet_mutation p : only quiet (falsified o c t p).
Proof.
  unfold falsified, mutation_verify. apply only_bind; [|intros sr; by only_go]. apply only_bind.
  - unfold resolve_fix. repeat first [done | silent_step | case_match].
  - intros [diff|why]; [|by unfold unavailable; only_go]. unfold with_copy. intros r r' x H.
    destruct (o_mkdtemp o (r_world r)) as [root|e]; [|injection H as <- <-; exists []; by rewrite app_nil_r]. revert H. apply only_finally; [|by only_go].
    apply only_bind; [by only_go|]. intros _. unfold verify_on_copy, git_apply, isolate_poc_compile_scope, run_copy, unavailable.
    repeat first [done | silent_step | case_match | apply quiet_execute].
Qed.

Lemma quiet_adopt attempt v p : only quiet (adopt o c run_id t attempt v p).
Proof.
  unfold adopt. cbv zeta. destruct (should_emit_adopt_refusal _ _ _); [|destruct (v_compiled v); apply only_ret].
  intros r r' x H. unfold mbind at 1, st_bind at 1, st_lift at 1 in H. destruct (build_adopt_refusal_fields _ _ _) as [f|e] eqn:Hf; [|injection H as <- <-; exists []; by rewrite app_nil_r].
  revert r r' x H. apply only_bind.
  - apply only_log. unfold build_adopt_refusal_fields in Hf. repeat case_match; simplify_eq. done.
  - intros _. apply only_bind; [apply only_lift|]. intros slot. apply only_bind; [apply quiet_write|]. intros path. apply only_ret.
Qed.

Lemma quiet_det left attempt : forall code p test, only quiet (det_repair o c file_map t left attempt code p test).
Proof.
  induction left as [|left IH]; intros code p test; cbn [det_repair]; [apply only_ret|]. destruct (compiled _ _); [apply only_ret|].
  destruct (seq_draft_inplace _ _ _ _) as [code' [|fx applied]]; [apply only_ret|]. apply only_bind; [by only_go|intros _].
  apply only_bind; [apply quiet_write|intros p']. apply only_bind; [by only_go|]. intros [test'|e]; [apply IH|by only_go].
Qed.

Lemma quiet_capture attempt ev v p : only quiet (maybe_capture_lesson u t attempt ev v p).
Proof. unfold maybe_capture_lesson. repeat first [done | silent_step | case_match]. Qed.

Lemma quiet_judged attempt p v : only quiet (judged o c a require_pass_effective t attempt p v).
Proof.
  unfold judged. destruct (real_pass v); [apply only_bind; [apply quiet_mutation|intros; apply only_ret]|]. destruct (_ && _); [apply only_ret|].
  apply only_bind; [destruct (_ && _); by only_go|]. intros _. apply only_ret.
Qed.

Lemma quiet_feedback attempt v ev p : only quiet (feedback symbol_index file_map t g checks attempt v ev p).
Proof.
  unfold feedback, hint_notes, stall_note, repeat_note, mechanism_note, noted. cbv zeta.
  repeat first [apply only_ret | apply only_log; done | apply only_bind; [|intros ?] | match goal with |- only _ (if ?b then _ else _) => destruct b end].
Qed.

Lemma quiet_next attempt code error : only quiet (next_code o c a u symbol_index protocol_mode t g attempt code error).
Proof.
  unfold next_code. apply only_bind; [apply only_catch, only_retry; [apply quiet_fix|done]|]. intros [e|reply]; [by only_go|].
  apply only_bind; [unfold noted; destruct (negb _); by only_go|]. intros _. apply only_bind; [apply quiet_repaired|]. intros; apply only_ret.
Qed.

Lemma quiet_one attempt p : only quiet (one_attempt o c a u symbol_index file_map protocol_mode run_id require_pass_effective t g checks attempt p).
Proof.
  unfold one_attempt. apply only_bind; [apply quiet_write|intros path]. cbv zeta. apply only_bind; [by only_go|intros _].
  apply only_bind; [by only_go|]. intros [test|e]; [|destruct (String.eqb _ _); by only_go]. unfold after_run.
  apply only_bind; [apply quiet_det|]. intros [[code res] test']. cbv zeta. apply only_bind; [unfold keep_artifact; by only_go|intros _].
  apply only_bind; [by only_go|intros _]. apply only_bind; [apply quiet_adopt|]. intros p'. destruct (evidence _ _ _) as [p2 ev].
  apply only_bind; [apply quiet_capture|intros _]. apply only_bind; [apply quiet_judged|]. intros [out|]; [apply only_ret|].
  apply only_bind; [apply quiet_feedback|]. intros error. apply only_bind; [apply quiet_next|]. intros; apply only_ret.
Qed.

Lemma quiet_attempts : forall left attempt p,
  only quiet (attempts o c a u symbol_index file_map protocol_mode run_id require_pass_effective t g checks left attempt p).
Proof.
  induction left as [|left IH]; intros attempt p; cbn [attempts]; [apply only_ret|]. apply only_bind; [apply quiet_one|]. intros [p'|done]; [apply IH|apply only_ret].
Qed.

Lemma quiet_end p : only quiet (end_restore o c t p).
Proof.
  unfold end_restore. repeat first [apply only_ret | case_match]. apply only_bind; [apply quiet_write|]. intros; apply only_ret.
Qed.

Lemma quiet_quarantine outcome p : only quiet (quarantine o c t outcome p).
Proof. unfold quarantine. repeat first [done | silent_step | case_match]. Qed.
End quiet_attempt.

(** ** A finding closes once *)

Section closing.
Context (o : Outside) (c : Config) (a : Args) (u : Tools) (symbol_index : option SymbolIndex) (file_map protocol_mode run_id : string).
Context (require_pass_effective : bool).

Abbreviation processing := (process_finding o c a u symbol_index file_map protocol_mode run_id require_pass_effective).

(** The entry that closes a finding with an outcome *)
Definition closes_finding (t : Task) (outcome : string) (e : entry) : Prop :=
  closes "finding_attempt" (finding_cause outcome) e /\ assoc "finding_id" e = Some (PStr (t_id t)).

Lemma closing_closes t event more outcome : closes_finding t outcome (closing t event more outcome).
Proof. unfold closing. split; [apply merge_closes|]. by rewrite merge_field by (apply (bool_decide_unpack _); vm_compute; exact I). Qed.

Lemma task_done_closes t started outcome reason : last_entry quiet (closes_finding t) (task_done o t started outcome reason).
Proof.
  unfold task_done. apply last_bind; [by only_go|]. intros ended. apply last_log.
  destruct (closing_closes t "task_done" [("outcome", PStr outcome); ("elapsed_s", elapsed started ended)] outcome) as [Hc Hf]. split; [by apply closes_app|].
  by rewrite assoc_app, Hf.
Qed.

Lemma close_early_closes t event key message outcome : last_entry quiet (closes_finding t) (close_early t event key message outcome).
Proof. apply last_log, closing_closes. Qed.

Lemma quiet_partial fid inv : quiet (partial_event fid inv).
Proof. unfold quiet, partial_event. by destruct (in_drops inv). Qed.

Lemma quiet_scaffold t paths : only quiet (scaffold_of o c t paths).
Proof.
  unfold scaffold_of, refresh_scaffold_inventory. apply only_bind; [by only_go|intros scaffold]. apply only_bind; [by only_go|intros h].
  apply only_bind; [|intros; apply only_ret]. repeat first [done | silent_step | case_match | apply quiet_partial].
Qed.

Lemma quiet_ladder missing budget fid : only quiet (insufficiency_ladder_outcome (W := history) symbol_index budget missing fid).
Proof. unfold insufficiency_ladder_outcome. repeat first [done | silent_step | case_match]. Qed.

Lemma quiet_with_synthesis t g missing : only quiet (with_synthesis o c a symbol_index file_map run_id t g missing).
Proof.
  unfold with_synthesis. destruct (a_no_scaffold_synthesis a); [apply only_ret|]. apply only_bind; [apply quiet_synthesis|]. intros [[synth|] checks]; [|apply only_ret].
  apply only_bind; [apply quiet_scaffold|]. intros si. by only_go.
Qed.

Lemma quiet_ground t : only quiet (ground o c a symbol_index file_map run_id t).
Proof.
  unfold ground. apply only_bind; [by only_go|]. intros paths. destruct (_ && _); [by only_go|]. apply only_bind; [apply quiet_scaffold|]. intros si.
  do 2 (apply only_bind; [by only_go|]; intros ?). apply only_bind; [destruct (a_no_file_map a); by only_go|]. intros api. cbv zeta.
  apply only_bind; [by only_go|intros _]. apply only_bind; [by only_go|]. intros [|m missing]; [apply only_ret|]. apply only_bind; [by only_go|intros _].
  apply only_bind; [apply quiet_with_synthesis|]. intros [gc|]; [apply only_ret|]. apply only_bind; [apply quiet_ladder|]. intros; apply only_ret.
Qed.

Lemma quiet_first t g : only quiet (first_draft o c a u symbol_index protocol_mode t g).
Proof.
  unfold first_draft. destruct (a_agentic_loop a).
  - intros r r' x H. unfold agentic_code in H. destruct (run_agentic_exploit_loop _ _ _ _ _ _ _ r) as [r1 [code|e]] eqn:E; apply quiet_agentic in E.
    + by injection H as <- <-.
    + destruct (is_model_error e); [by injection H as <- <-|]. destruct (String.eqb _ _); [by injection H as <- <-|].
      destruct (to_is_sandbox_error u e); by injection H as <- <-.
  - unfold drafted_code. apply only_bind; [apply only_catch, only_retry; [apply quiet_draft|done]|]. intros; apply only_ret.
Qed.

Lemma processing_closes t : last_entry quiet (closes_finding t) (processing t).
Proof.
  unfold process_finding. do 2 (apply last_bind; [by only_go|]; intros ?). apply last_bind; [apply quiet_ground|]. intros [outcome|[g checks]]; [apply task_done_closes|].
  apply last_bind; [apply quiet_first|]. intros [code|event key message outcome]; [|apply close_early_closes]. apply last_bind; [apply quiet_repaired|]. intros code'.
  apply last_bind; [apply quiet_attempts|]. intros pr. apply last_bind; [apply quiet_end|]. intros p. apply last_bind; [apply quiet_quarantine|]. intros _.
  apply task_done_closes.
Qed.
End closing.

(** ** The queue accounts for every finding *)

Definition closing_entry (e : entry) : bool := bool_decide (assoc "level" e = Some (PStr "finding_attempt")).

(** The terminal of a finding, with a cause of the closed set *)
Definition accounts (t : Task) (e : entry) : Prop :=
  assoc "finding_id" e = Some (PStr (t_id t)) /\ exists cause, cause ∈ FINDING_CAUSES /\ closes "finding_attempt" cause e.

Lemma quiet_filter l : Forall quiet l -> List.filter closing_entry l = [].
Proof.
  induction 1 as [|e l He _ IH]; [done|]. cbn [List.filter]. unfold closing_entry at 1. by rewrite bool_decide_false, IH by exact He.
Qed.

Lemma closes_filter level cause e l : level = "finding_attempt" -> closes level cause e -> List.filter closing_entry (e :: l) = e :: List.filter closing_entry l.
Proof. intros -> [_ Hl _]. cbn [List.filter]. unfold closing_entry at 1. by rewrite bool_decide_true. Qed.

Lemma skips_account ts (r r' : Run history) x : emit_budget_skips (map t_id ts) r = (r', x) ->
  exists l, r_log r' = r_log r ++ l /\ Forall2 accounts ts (List.filter closing_entry l).
Proof.
  intros H. assert (r_log r' = r_log r ++ map (fun t => skip_event (t_id t)) ts) as Hlog.
  { unfold emit_budget_skips in H. enough (forall x r1, map_st (fun fid => log (skip_event fid)) (map t_id ts) r = (r1, x) -> r_log r1 = r_log r ++ map (fun t => skip_event (t_id t)) ts) as He.
    { apply st_bind_inv in H as [(r1 & l & H & [= <- _])|(? & H & _)]; by eapply He. }
    clear H. revert r. induction ts as [|t ts IH]; intros r y r1 H; [injection H as <- _; by rewrite app_nil_r|]. cbn [map map_st] in H.
    apply st_bind_inv in H as [(r2 & [] & [= <-] & H)|(? & ? & _)]; [|done].
    apply st_bind_inv in H as [(r3 & l & H & [= <- _])|(? & H & _)]; apply IH in H; rewrite H; cbn [r_log map]; by rewrite <- app_assoc. }
  eexists. split; [exact Hlog|]. clear. induction ts as [|t ts IH]; [constructor|]. cbn [map].
  rewrite (closes_filter _ "not_attempted:budget" _ _ eq_refl) by apply merge_closes. constructor; [|exact IH]. split; [reflexivity|].
  exists "not_attempted:budget". split; [apply (bool_decide_unpack _); vm_compute; exact I|apply merge_closes].
Qed.

Section accounting.
Context (o : Outside) (c : Config) (a : Args) (u : Tools) (symbol_index : option SymbolIndex) (file_map protocol_mode run_id : string).
Context (require_pass_effective : bool) (max_time : Z) (max_minutes : string) (run_start : Z).

Abbreviation queue := (run_queue o c a u symbol_index file_map protocol_mode run_id require_pass_effective max_time max_minutes run_start).

(** When the queue returns, each finding of the list has its terminal, in order, the ones
    the budget skipped included *)
Lemma queue_accounts todo i r r' : queue i todo r = (r', Ok tt) ->
  exists l, r_log r' = r_log r ++ l ++ [[("event", PStr "done")]] /\ Forall2 accounts todo (List.filter closing_entry l).
Proof.
  revert i r. induction todo as [|t rest IH]; intros i r H; cbn [run_queue] in H; [injection H as <-; by exists []|].
  apply st_bind_inv in H as [(r1 & over & Hs & H)|(? & _ & ?)]; [|done].
  assert (r_log r1 = r_log r) as <-.
  { unfold spent in Hs. destruct (max_time =? 0)%Z; [by injection Hs as <- _|].
    apply st_bind_inv in Hs as [(r2 & z & [= <- _] & [= <- _])|(? & _ & ?)]; [reflexivity|done]. }
  destruct over.
  - apply st_bind_inv in H as [(r2 & [] & [= <-] & H)|(? & _ & ?)]; [|done]. apply st_bind_inv in H as [(r3 & [] & Hk & [= <-])|(? & _ & ?)]; [|done].
    apply skips_account in Hk as (l & Hl & Hall). cbn [r_log] in *. eexists (_ :: l). rewrite Hl, <- !app_assoc. split; [reflexivity|exact Hall].
  - apply st_bind_inv in H as [(r2 & outcome & Hp & H)|(? & _ & ?)]; [|done]. apply processing_closes in Hp as (l1 & e & Hl1 & Hq & Hc & Hf).
    apply IH in H as (l & Hl & Hall). exists (l1 ++ e :: l). rewrite Hl, Hl1, <- !app_assoc. split; [done|].
    rewrite List.filter_app, (quiet_filter l1), (closes_filter _ _ _ _ eq_refl Hc) by done. constructor; [|exact Hall]. split; [exact Hf|].
    exists (finding_cause outcome). split; [apply finding_cause_closed|exact Hc].
Qed.
End accounting.
