(* ===== verification/RunnerWorld.v ===== *)
(** * The PoC queue runner: the history of a finding only grows

    Whatever the model, the tools and the sandbox answer, and however a step ends, what was
    done outside before it remains the beginning of the history: the round trips of drafts
    and fixes, the agentic loop, the synthesis of a scaffold and the attempts. *)

From S2P Require Import ExploitLoop.
From S2P Require Import Prelude PyStr PyRe PyPath PyVal PyNum PyFloat PyJson Relay SolIndex SolUtils Fixers Inventory Causes StaticAnalysis Checkpoint Grounding Reach Repeat WriteExecute.
From S2P Require Import RunnerBase RunnerFix RunnerLookup RunnerSource RunnerPrompts RunnerHints RunnerSynth RunnerDraft RunnerAttempt Runner.

(** The history of [s] is the beginning of that of [s'] *)
Definition extends {S} (world : S -> history) (s s' : S) : Prop := world s `prefix_of` world s'.

#[export] Instance extends_preorder {S} (world : S -> history) : PreOrder (extends world).
Proof. split; [intros s; unfold extends; reflexivity|]. intros a b d. unfold extends. apply transitivity. Qed.

Abbreviation grows world m := (steps (extends world) m).
Abbreviation running m := (steps (extends (r_world (W := history))) m).
Abbreviation acting m := (steps (extends (fun h : history => h)) m).

(** ** The steps of the runner *)

Lemma running_act {A} a (answer : history -> res A) : running (act_with a answer).
Proof. intros r r' x [= <- _]. by eexists. Qed.
Lemma running_log e : running (log e).
Proof. apply steps_modify. intros r. unfold extends. by cbn. Qed.
Lemma running_outside {A} (m : ST history A) : acting m -> running (outside m).
Proof.
  intros Hm r r' x H. unfold outside in H. destruct (m (r_world r)) as [w y] eqn:E. injection H as <- _. exact (Hm _ _ _ E).
Qed.
Lemma running_catch {A} (m : ST (Run history) A) : running m -> running (catch_model m).
Proof.
  intros Hm r r' x H. unfold catch_model in H. destruct (m r) as [r1 [a|e]] eqn:E; [injection H as <- _; by eapply Hm|].
  destruct (is_model_error e); injection H as <- _; by eapply Hm.
Qed.
Lemma running_retry {A} (fn : ST (Run history) A) stage fid n : running fn -> running (call_with_retry fn stage fid n).
Proof.
  intros Hfn. unfold call_with_retry. generalize 1 (default GEN_RETRY_ATTEMPTS n). intros i left. revert i.
  induction left as [|left IH]; intros i; cbn [retry_from]; [apply steps_ret; apply _|].
  intros r r' x H. destruct (fn r) as [r1 [a|e]] eqn:E; [injection H as <- _; by eapply Hfn|].
  destruct (is_model_error e && negb (left =? 0)); [|injection H as <- _; by eapply Hfn]. unfold mbind, st_bind, log, st_modify in H.
  etrans; [by eapply Hfn|]. apply IH in H. exact H.
Qed.
Lemma running_execute o argv cwd input : running (execute o argv cwd input).
Proof. intros r r' x [= <- _]. by eexists. Qed.
Lemma running_rename o candidate kept : running (rename_or_unlink o candidate kept).
Proof.
  intros r r' x H. unfold rename_or_unlink, act_with in H. destruct (o_rename o _ _ _); [injection H as <- _; by eexists|].
  injection H as <- _. cbn [r_world]. rewrite <- app_assoc. by eexists.
Qed.
Lemma acting_generate o prompt : acting (generate o prompt).
Proof. intros h h' x [= <- _]. by eexists. Qed.
Lemma acting_chat o messages tools : acting (chat o messages tools).
Proof. intros h h' x [= <- _]. by eexists. Qed.
Lemma acting_ticks o : acting (ticks o).
Proof. intros h h' x [= <- _]. by eexists. Qed.
Lemma acting_trace o gen : acting (trace_generation o gen).
Proof. intros h h' x [= <- _]. by eexists. Qed.
Lemma acting_bare {A} (m : ST (Run history) A) : running m -> acting (bare m).
Proof. intros Hm h h' x H. unfold bare in H. destruct (m (mkRun [] h)) as [r y] eqn:E. injection H as <- _. exact (Hm _ _ _ E). Qed.

(** A step at a time through what only adds to the history *)
Ltac grow_step :=
  first [ apply steps_bind; [apply _| |intros ?] | apply steps_ret; apply _ | apply steps_lift; apply _ | apply steps_gets; apply _
        | apply running_log | apply running_act | apply running_execute | apply running_rename
        | apply running_outside | apply running_catch | apply running_retry | apply steps_finally; [apply _| |] | apply steps_map; [apply _|intros ?]
        | apply acting_generate | apply acting_chat | apply acting_ticks | apply acting_trace
        | progress unfold write_file, make_dir, unlink_ok, now, sandboxed, reading, asking ].
Ltac grow := repeat grow_step.
(** The same, through the cases of what it does *)
Ltac grow_cases := repeat first [ grow_step | case_match | done ].

(** ** Round trips *)

Section trips.
Context (o : Outside) (symbol_index : option SymbolIndex) (budget : Z) (prompts : string -> string -> string * pyval) (suffix : string).

Abbreviation Trip := (list seen_lookup * Run history)%type.
Abbreviation tripping_on m := (steps (extends (fun t : Trip => r_world t.2)) m).

Lemma trip_within {A} (m : ST (Run history) A) : running m -> tripping_on (within_run m).
Proof. intros Hm t t' x H. unfold within_run in H. destruct (m t.2) as [r y] eqn:E. injection H as <- _. exact (Hm _ _ _ E). Qed.

Lemma trip_record fid attempt symbol resolved n : tripping_on (record fid attempt symbol resolved n).
Proof. unfold record. grow; [by (apply steps_modify; intros ?; unfold extends; cbn)|]. apply trip_within. grow. Qed.

Lemma trip_lookups fid attempt prompt :
  tripping_on (generate_with_lookups symbol_index budget (record fid attempt) (fun q => within_run (outside (generate o q))) prompt).
Proof.
  unfold generate_with_lookups. apply steps_iter; [apply _|]. intros [used p]. unfold lookup_turn. grow; [apply trip_within; grow|].
  destruct (asked _ _ _ _) as [[ix names]|]; repeat first [apply trip_record | grow_step].
Qed.

Lemma trip_tool_calls fid attempt prompt :
  tripping_on (generate_with_tool_calls symbol_index budget (record fid attempt) (fun ms tools => within_run (outside (chat o ms tools))) prompt).
Proof.
  unfold generate_with_tool_calls. apply steps_iter; [apply _|]. intros [used ms]. unfold tool_turn. grow; [apply trip_within; grow|].
  destruct symbol_index as [ix|]; [|grow]. destruct (_ || _); repeat first [apply trip_record | progress unfold tool_message | grow_step].
Qed.

Lemma trip_marker fid attempt prompt : tripping_on (with_marker (generate o) prompts suffix symbol_index budget fid attempt prompt).
Proof. unfold with_marker. repeat first [apply trip_lookups | grow_step]. Qed.

Lemma trip_round fid attempt prompt mode : tripping_on (round_trip (generate o) (chat o) prompts suffix symbol_index budget fid attempt prompt mode).
Proof.
  unfold round_trip. destruct (String.eqb mode _); [repeat first [apply trip_marker | grow_step]|]. apply steps_bind; [apply _|apply trip_tool_calls|].
  intros code. cbv zeta. destruct (truthy _); repeat first [apply trip_marker | grow_step].
Qed.

Lemma running_traced name fid attempt prompt mode provenance :
  running (traced_round_trip (generate o) (chat o) prompts suffix symbol_index budget (trace_generation o) name fid attempt prompt mode provenance).
Proof.
  intros r r' x H. unfold traced_round_trip in H. destruct (round_trip _ _ _ _ _ _ _ _ _ _ ([], r)) as [[seen r1] y] eqn:E.
  apply trip_round in E. unfold extends in E. cbn [snd] in E. destruct y as [[[[code full] m] prov]|e]; [|injection H as <- _; exact E].
  etrans; [exact E|]. revert r1 r' x H E. intros r1 r' x H _. revert r1 r' x H. change (running (_ ← outside (trace_generation o (mkGeneration name full code m seen (provenance ++ prov))); mret code)). grow.
Qed.
End trips.

(** ** The agentic loop *)

Section looping.
Context (sanitize : string -> Sanitized) (gen : string -> ST history string) (poc : string -> ST history (string * string)).
Context (read_file : string -> path -> history -> res string) (search_code : string -> path -> history -> res (list Hit)).
Context (is_tool_error : exn -> bool) (monotonic : ST history Z) (symbol_index : option SymbolIndex) (root : path).
Context (draft_prompt : string) (budget_calls : nat) (deadline : option Z) (spin_k read_budget retry_cap : nat).
Context (Hgen : forall q, acting (gen q)) (Hpoc : forall code, acting (poc code)) (Hclock : acting monotonic).

Abbreviation looping m := (steps (extends (ExploitLoop.r_world (W := history))) m).

Lemma looping_in_world {A} (m : ST history A) : acting m -> looping (in_world m).
Proof. intros Hm r r' x H. unfold in_world in H. destruct (m (ExploitLoop.r_world r)) as [w y] eqn:E. injection H as <- _. exact (Hm _ _ _ E). Qed.
Lemma looping_log e : looping (ExploitLoop.log e).
Proof. by (apply steps_modify; intros ?; unfold extends; cbn). Qed.

Ltac loop_step := first [ apply looping_log | apply looping_in_world | by (apply steps_modify; intros ?; unfold extends; cbn) | grow_step ].

Lemma looping_blocks batch : looping (resolve_blocks read_file search_code is_tool_error symbol_index root batch).
Proof.
  induction batch as [|[verb arg] batch IH]; cbn [resolve_blocks]; repeat loop_step; [|exact IH]. destruct a0; repeat loop_step. destruct (is_tool_error _); repeat loop_step.
Qed.

Lemma looping_refusals l : looping (log_refusals l).
Proof. induction l as [|[verb arg] l IH]; cbn [log_refusals]; repeat loop_step. exact IH. Qed.

Lemma looping_reads prompt : looping (generate_with_reads sanitize gen read_file search_code is_tool_error symbol_index root read_budget prompt).
Proof.
  unfold generate_with_reads. apply steps_bind; [apply _| |intros [code|]; repeat loop_step]. apply steps_iter; [apply _|]. intros v. unfold gen_turn, ask.
  repeat loop_step; [apply Hgen|]. destruct a0 as [reads refusals]. apply steps_bind; [apply _|apply looping_refusals|]. intros _. destruct (_ && _).
  - unfold resolve_reads. repeat loop_step. apply looping_blocks.
  - cbv zeta. destruct (_ || _); repeat loop_step.
Qed.

Lemma looping_reroll prompt left : forall retries s code,
  looping (reroll sanitize gen read_file search_code is_tool_error symbol_index root read_budget left prompt retries s code).
Proof.
  induction left as [|left IH]; intros retries s code; cbn [reroll]; [repeat loop_step|]. destruct (truthy _); [repeat loop_step|]. cbv zeta.
  apply steps_bind; [apply _|repeat loop_step|]. intros _. apply steps_bind; [apply _|apply looping_reads|]. intros code'. apply IH.
Qed.

Lemma looping_run : looping (ExploitLoop.run sanitize gen poc read_file search_code is_tool_error monotonic symbol_index root draft_prompt budget_calls
  deadline spin_k read_budget retry_cap).
Proof.
  unfold ExploitLoop.run. apply steps_bind; [apply _| |intros [r|]; repeat loop_step]. apply steps_iter; [apply _|]. intros v. unfold loop_turn.
  apply steps_bind; [apply _|apply looping_reads|]. intros code. apply steps_bind; [apply _|apply looping_reroll|]. intros [s code'].
  destruct (negb _); [repeat loop_step|]. unfold try_poc. repeat loop_step; [apply Hpoc|]. cbv zeta. destruct (ExploitLoop.passed _); [repeat loop_step|].
  unfold after_failure. cbv zeta. repeat loop_step. destruct (_ <=? _); [repeat loop_step|]. apply steps_bind; [apply _| |].
  - unfold past_deadline. destruct deadline; repeat loop_step. exact Hclock.
  - intros [|]; [repeat loop_step|]. destruct (_ <=? _); repeat loop_step.
Qed.
End looping.

(** ** A finding *)

Section finding.
Context (o : Outside) (c : Config) (a : Args) (u : Tools) (symbol_index : option SymbolIndex) (file_map protocol_mode run_id : string).
Context (require_pass_effective : bool) (t : Task).

Lemma running_appendices g prompt context : running (with_appendices u t g prompt context).
Proof. unfold with_appendices. grow. Qed.

Lemma running_draft_prompt g : running (draft_prompt o c u symbol_index t g).
Proof. unfold draft_prompt, grounded. repeat first [apply running_appendices | grow_step]. Qed.

Lemma running_draft g : running (draft o c a u symbol_index protocol_mode t g).
Proof. unfold draft. apply steps_bind; [apply _|apply running_draft_prompt|]. intros pp. apply running_traced. Qed.

Lemma running_fix g attempt previous error : running (fix_ o c a u symbol_index protocol_mode t g attempt previous error).
Proof.
  unfold fix_. apply steps_bind; [apply _| |intros pp; apply running_traced]. unfold fix_prompt, grounded. repeat first [apply running_appendices | grow_step].
Qed.

Lemma running_postmodel g code : running (postmodel o c symbol_index g code).
Proof. unfold postmodel. grow. Qed.

Lemma running_write code : running (writing o c t code).
Proof. unfold writing, write_poc. grow. Qed.

Lemma running_agentic_poc g code : running (run_agentic_poc o c symbol_index t g code).
Proof.
  unfold run_agentic_poc, agentic_fix. repeat first [apply running_postmodel | apply running_write | grow_step]. case_match; grow.
Qed.

Lemma running_agentic g : running (run_agentic_exploit_loop o c a u symbol_index t g).
Proof.
  unfold run_agentic_exploit_loop. apply steps_bind; [apply _|apply running_draft_prompt|]. intros pp. apply steps_bind; [apply _|grow|]. intros started.
  apply steps_bind; [apply _|destruct (_ =? 0)%Z; grow|]. intros deadline. apply steps_bind; [apply _| |].
  - intros r r' x H. unfold exploit in H.
    destruct (ExploitLoop.run _ _ _ _ _ _ _ _ _ _ _ _ _ _ _ _) as [l y] eqn:E. injection H as <- _.
    apply looping_run in E; [exact E|intros; apply acting_generate|intros; apply acting_bare, running_agentic_poc|apply acting_ticks].
  - intros result. unfold agentic_fix. repeat first [apply running_postmodel | grow_step].
Qed.

Lemma running_repaired g code stage : running (repaired o c symbol_index t g code stage).
Proof. unfold repaired. apply steps_bind; [apply _|apply running_postmodel|]. intros ca. grow. Qed.

Lemma running_first g : running (first_draft o c a u symbol_index protocol_mode t g).
Proof.
  unfold first_draft. destruct (a_agentic_loop a).
  - intros r r' x H. unfold agentic_code in H. destruct (run_agentic_exploit_loop _ _ _ _ _ _ _ r) as [r1 [code|e]] eqn:E; apply running_agentic in E.
    + by injection H as <- _.
    + destruct (is_model_error e); [by injection H as <- _|]. destruct (String.eqb _ _); [by injection H as <- _|].
      destruct (to_is_sandbox_error u e); by injection H as <- _.
  - unfold drafted_code. repeat first [apply running_draft | grow_step].
Qed.

(** *** Synthesis *)

Lemma running_rounds missing existing matches attempt_dir candidate live : forall left rnd code blob,
  running (synth_rounds o c symbol_index file_map t missing existing matches attempt_dir candidate live left rnd code blob).
Proof.
  induction left as [|left IH]; intros rnd code blob; cbn [synth_rounds]; grow. destruct a1 as [test|e]; [|grow]. destruct (compiled _ _); [unfold promote; grow|].
  cbv zeta. apply steps_bind; [apply _|grow|]. intros cr. destruct (fix_wiring_receivers _ _ _ _) as [code' wr].
  apply steps_bind; [apply _|destruct wr; grow|]. intros _. destruct (applied_names _ ++ _); repeat first [apply IH | grow_step].
Qed.

Lemma running_synthesis missing existing inventory : running (synthesize_scaffold o c symbol_index file_map run_id t missing existing inventory).
Proof.
  unfold synthesize_scaffold. apply steps_bind; [apply _| |].
  { unfold reuse_live. grow_cases. }
  intros [p|]; [grow|]. apply steps_bind; [apply _|unfold synth_prompt; grow|]. intros mp. apply steps_bind; [apply _|grow|]. intros [e|raw]; [grow|].
  cbv zeta. case_match; [|grow]. case_match; [|grow]. unfold compile_candidate. grow. destruct (fix_wiring_receivers _ _ _ _) as [code' wr].
  apply steps_bind; [apply _|destruct wr; grow|]. intros _. repeat first [apply running_rounds | grow_step]. case_match; grow.
Qed.

Lemma running_scaffold paths : running (scaffold_of o c t paths).
Proof. unfold scaffold_of, refresh_scaffold_inventory. grow. grow_cases. Qed.

Lemma running_with_synthesis g missing : running (with_synthesis o c a symbol_index file_map run_id t g missing).
Proof.
  unfold with_synthesis. destruct (a_no_scaffold_synthesis a); [grow|]. apply steps_bind; [apply _|apply running_synthesis|]. intros [[synth|] checks]; [|grow].
  apply steps_bind; [apply _|apply running_scaffold|]. intros si. grow.
Qed.

Lemma running_ground : running (ground o c a symbol_index file_map run_id t).
Proof.
  unfold ground. apply steps_bind; [apply _|grow|]. intros paths. destruct (_ && _); [grow|]. apply steps_bind; [apply _|apply running_scaffold|]. intros si.
  do 2 (apply steps_bind; [apply _|grow|]; intros ?). apply steps_bind; [apply _|destruct (a_no_file_map a); grow|]. intros api. cbv zeta.
  apply steps_bind; [apply _|grow|]. intros _. apply steps_bind; [apply _|grow|]. intros [|m missing]; [grow|]. apply steps_bind; [apply _|grow|]. intros _.
  apply steps_bind; [apply _|apply running_with_synthesis|]. intros [gc|]; [grow|]. apply steps_bind; [apply _| |intros; grow].
  unfold insufficiency_ladder_outcome. grow_cases.
Qed.

(** *** The attempts *)

Lemma running_det left attempt : forall code p test, running (det_repair o c file_map t left attempt code p test).
Proof.
  induction left as [|left IH]; intros code p test; cbn [det_repair]; [grow|]. destruct (compiled _ _); [grow|].
  destruct (seq_draft_inplace _ _ _ _) as [code' [|fx applied]]; [grow|]. apply steps_bind; [apply _|grow|]. intros _.
  apply steps_bind; [apply _|apply running_write|]. intros p'. apply steps_bind; [apply _|grow|]. intros [test'|e]; [apply IH|grow].
Qed.

Lemma running_verify project copy fid fix_ poc fork image : running (verify_on_copy o project copy fid fix_ poc fork image).
Proof. unfold verify_on_copy, git_apply, isolate_poc_compile_scope, run_copy, unavailable. grow_cases. Qed.

Lemma running_mutation project fid fix_patch fix_ poc fork image : running (mutation_verify o project fid fix_patch fix_ poc fork image).
Proof.
  unfold mutation_verify. apply steps_bind; [apply _|unfold resolve_fix; grow_cases|]. intros [diff|why]; [|unfold unavailable; grow].
  intros r r' x H. unfold with_copy in H. destruct (o_mkdtemp o (r_world r)) as [root|e]; [|by injection H as <- _]. revert r r' x H.
  enough (running (finally (_ ← act_with (MkTemp root) (fun _ => Ok tt); verify_on_copy o project (root ++ [path_name project]) fid diff poc fork image)
    (act_with (RmTree root) (fun _ => Ok tt)))) as H by exact H. repeat first [apply running_verify | grow_step].
Qed.

Lemma running_judged attempt p v : running (judged o c a require_pass_effective t attempt p v).
Proof. unfold judged, falsified. destruct (real_pass v); [repeat first [apply running_mutation | grow_step]|]. grow_cases. Qed.

Lemma running_feedback g checks attempt v ev p : running (feedback symbol_index file_map t g checks attempt v ev p).
Proof. unfold feedback, hint_notes, stall_note, repeat_note, mechanism_note, noted. cbv zeta. grow_cases. Qed.

Lemma running_next g attempt code error : running (next_code o c a u symbol_index protocol_mode t g attempt code error).
Proof.
  unfold next_code. apply steps_bind; [apply _|repeat first [apply running_fix | grow_step]|]. intros [e|reply]; [grow|]. unfold noted.
  apply steps_bind; [apply _|destruct (negb _); grow|]. intros _. apply steps_bind; [apply _|apply running_repaired|]. intros; grow.
Qed.

Lemma running_adopt attempt v p : running (adopt o c run_id t attempt v p).
Proof.
  unfold adopt. cbv zeta. destruct (should_emit_adopt_refusal _ _ _); [|destruct (v_compiled v); grow].
  repeat first [apply running_write | grow_step].
Qed.

Lemma running_one g checks attempt p : running (one_attempt o c a u symbol_index file_map protocol_mode run_id require_pass_effective t g checks attempt p).
Proof.
  unfold one_attempt. apply steps_bind; [apply _|apply running_write|]. intros path. cbv zeta. apply steps_bind; [apply _|grow|]. intros _.
  apply steps_bind; [apply _|grow|]. intros [test|e]; [|destruct (String.eqb _ _); grow]. unfold after_run.
  apply steps_bind; [apply _|apply running_det|]. intros [[code res] test']. cbv zeta. unfold keep_artifact. do 2 (apply steps_bind; [apply _|grow|]; intros _).
  apply steps_bind; [apply _|apply running_adopt|]. intros p'. destruct (evidence _ _ _) as [p2 ev].
  apply steps_bind; [apply _|unfold maybe_capture_lesson; grow_cases|]. intros _. apply steps_bind; [apply _|apply running_judged|]. intros [out|]; [grow|].
  apply steps_bind; [apply _|apply running_feedback|]. intros error. apply steps_bind; [apply _|apply running_next|]. intros; grow.
Qed.

(** *** After the attempts *)

Lemma running_end p : running (end_restore o c t p).
Proof. unfold end_restore. repeat case_match; repeat first [apply running_write | grow_step]. Qed.

Lemma running_quarantine outcome p : running (quarantine o c t outcome p).
Proof. unfold quarantine. grow_cases. Qed.

Lemma running_done started outcome reason : running (task_done o t started outcome reason).
Proof. unfold task_done. grow. Qed.
End finding.
