(* ===== verification/RunnerSound.v ===== *)
(** * The PoC queue runner: what a proof stands for (scripts/poc_queue_runner.py)

    The runs and the check against the fix behind the outcome [passed_verified], and runs
    of the whole lifecycle on a scripted outside. *)

From S2P Require Import ExploitLoop.
From S2P Require Import Prelude PyStr PyRe PyPath PyVal PyNum PyFloat PyJson Relay SolIndex SolUtils Fixers Inventory Causes StaticAnalysis Checkpoint Grounding Reach Repeat WriteExecute.
From S2P Require Import RunnerBase RunnerFix RunnerLookup RunnerSource RunnerPrompts RunnerHints RunnerSynth RunnerDraft RunnerAttempt Runner RunnerWorld.

Section soundness.
Context (o : Outside) (c : Config) (a : Args) (u : Tools) (symbol_index : option SymbolIndex) (file_map protocol_mode run_id : string).
Context (require_pass_effective : bool) (t : Task).

(** The one file of the finding's PoC *)
Definition poc_file : path := poc_dir c ++ [RunnerBase.ident (t_id t) +:+ ".t.sol"].

(** The run of the finding's PoC in the project, as a request and as its result after a
    history *)
Definition poc_request : SandboxRequest :=
  test_request (c_project c) (Some (rel_str c poc_file)) (default FOUNDRY_IMAGE (opt_truthy (c_image c))) (verify_timeout (c_fork_rpc c))
    (Some POC_SUBDIR) (c_fork_rpc c) [] true.
Definition poc_result (h : history) : res TestResult :=
  run_tests (c_project c) (o_sandbox o h) (Some (rel_str c poc_file)) (default FOUNDRY_IMAGE (opt_truthy (c_image c))) (verify_timeout (c_fork_rpc c))
    (Some POC_SUBDIR) (c_fork_rpc c) [] true.

Definition built (test : TestResult) : bool := compiled (stdout test) (stderr test).

(** What an attempt does between its last run and the check against the fix: the record of
    the attempt and a lesson are kept; the PoC is written or run again only when the run
    did not build *)
Definition settles (attempt : nat) (test : TestResult) (x : act) : Prop :=
  match x with
  | MakeDir _ | Captured _ => True
  | WriteFile p _ => p = artifact c run_id t attempt \/ built test = false /\ p = poc_file
  | Sandboxed _ => built test = false
  | _ => False
  end.

(** In the history [h], after [w0]: the PoC was written with a code and run at once, with
    this result; that code is the one judged unless the run did not build *)
Definition ran (w0 : history) (attempt : nat) (code : string) (test : TestResult) (h : history) : Prop :=
  exists before code0 rest,
    h = ((w0 ++ before) ++ [WriteFile poc_file code0]) ++ Sandboxed poc_request :: rest /\
    o_write o (w0 ++ before) poc_file code0 = Ok tt /\ poc_result ((w0 ++ before) ++ [WriteFile poc_file code0]) = Ok test /\
    (code0 = code \/ built test = false) /\ Forall (settles attempt test) rest.

Lemma ran_settles w0 attempt code test h l : ran w0 attempt code test h -> Forall (settles attempt test) l -> ran w0 attempt code test (h ++ l).
Proof.
  intros (before & code0 & rest & -> & ? & ? & ? & Hrest) Hl. exists before, code0, (rest ++ l). rewrite <- (app_assoc _ _ l).
  split_and!; [done..|by apply Forall_app].
Qed.

Lemma ran_adds {A} w0 attempt code test (m : ST (Run history) A) r r' x : adds (settles attempt test) m -> m r = (r', x) ->
  ran w0 attempt code test (r_world r) -> ran w0 attempt code test (r_world r').
Proof. intros Hm H Hr. destruct (Hm _ _ _ H) as (l & -> & Hl). by apply ran_settles. Qed.

Lemma writing_spec code r r' p : writing o c t code r = (r', Ok p) ->
  p = poc_file /\ r_world r' = r_world r ++ [MakeDir (poc_dir c); WriteFile poc_file code] /\ o_write o (r_world r ++ [MakeDir (poc_dir c)]) poc_file code = Ok tt.
Proof.
  unfold writing, write_poc. intros H. apply st_bind_inv in H as [(r1 & [] & [= <- _] & H)|(? & _ & ?)]; [|done].
  apply st_bind_inv in H as [(r2 & [] & [= <- Hw] & [= <- <-])|(? & _ & ?)]; [|done]. cbn [r_world] in *. by rewrite <- app_assoc.
Qed.

(** A code written and then run *)
Lemma written_ran w0 attempt code r r1 p e r2 test : writing o c t code r = (r1, Ok p) -> w0 `prefix_of` r_world r ->
  sandboxed o c (rel_str c p) true (mkRun (r_log r1 ++ e) (r_world r1)) = (r2, Ok (Ok test)) ->
  p = poc_file /\ ran w0 attempt code test (r_world r2).
Proof.
  intros Hw [before Hb] Hs. apply writing_spec in Hw as (-> & Hw & Hok). split; [done|]. injection Hs as <- Hs. cbn [r_world] in *.
  exists (before ++ [MakeDir (poc_dir c)]), code, []. rewrite Hw, Hb in *. rewrite <- !app_assoc in *. cbn [app] in *.
  split_and!; [done|done| |by left|done]. rewrite <- Hs. by unfold poc_result.
Qed.

Lemma det_repair_ran w0 left attempt : forall code test r r' code' p' test', ran w0 attempt code test (r_world r) ->
  det_repair o c file_map t left attempt code poc_file test r = (r', Ok (code', p', test')) -> p' = poc_file /\ ran w0 attempt code' test' (r_world r').
Proof.
  induction left as [|left IH]; intros code test r r' code' p' test' Hran H; cbn [det_repair] in H; [by injection H as <- <- <- <-|].
  destruct (compiled _ _) eqn:Hb; [by injection H as <- <- <- <-|].
  destruct (seq_draft_inplace _ _ _ _) as [code1 [|fx applied]].
  { injection H as <- <- <- <-. split; [done|]. destruct Hran as (before & code0 & rest & ? & ? & ? & _ & ?). exists before, code0, rest. split_and!; try done. by right. }
  apply st_bind_inv in H as [(r1 & [] & [= <-] & H)|(? & _ & ?)]; [|done]. apply st_bind_inv in H as [(r2 & p & Hp & H)|(? & _ & ?)]; [|done].
  apply st_bind_inv in H as [(r3 & [test1|e] & Hx & H)|(? & _ & ?)]; [| |done].
  - assert (p = poc_file /\ ran w0 attempt code1 test1 (r_world r3)) as [-> Hran1]; [|by eapply IH].
    eapply (written_ran _ _ _ _ _ _ []); [exact Hp| |rewrite app_nil_r; by destruct r2].
    destruct Hran as (before & code0 & rest & -> & _). rewrite <- !app_assoc. by eexists.
  - apply writing_spec in Hp as (-> & Hp & _). apply st_bind_inv in H as [(r4 & [] & [= <-] & [= <- <- <- <-])|(? & _ & ?)]; [|done].
    split; [done|]. injection Hx as <- _. cbn [r_world] in *. rewrite Hp, <- !app_assoc.
    destruct Hran as (before & code0 & rest & Hh & Hw & Hres & _ & Hrest). exists before, code0, (rest ++ [MakeDir (poc_dir c); WriteFile poc_file code1; Sandboxed poc_request]).
    rewrite Hh, <- !app_assoc. split_and!; [done|done|by rewrite <- app_assoc in Hres|by right|]. apply Forall_app. split; [done|].
    apply Forall_cons. split; [done|]. apply Forall_cons. split; [by right|]. apply Forall_cons. by split.
Qed.

(** The check against the fix, after a history *)
Definition checked (w : history) (acts : list act) (v : string * string) : Prop :=
  verdict_sound o (c_project c) (t_fix_patch t) (t_fix t) (rel_str c poc_file) (c_fork_rpc c) (c_image c) w acts v.

Lemma judged_verified attempt v r r' reason : judged o c a require_pass_effective t attempt poc_file v r = (r', Ok (Some ("passed_verified", reason))) ->
  real_pass v = true /\ exists acts why, r_world r' = r_world r ++ acts /\ checked (r_world r) acts ("verified", why).
Proof.
  unfold judged. destruct (real_pass v).
  - intros H. split; [done|]. apply st_bind_inv in H as [(r1 & out & H & [= <- ->])|(? & _ & ?)]; [|done]. unfold falsified in H.
    apply st_bind_inv in H as [(r2 & [s why] & H & He)|(? & _ & ?)]; [|done]. apply mutation_verdict in H as (acts & Hacts & H). cbn [fst snd] in He.
    destruct (String.eqb_spec s "verified") as [->|_]; [injection He as <- _; by exists acts, why|]. by destruct (String.eqb s _).
  - destruct (_ && _); [done|]. intros H. apply st_bind_inv in H as [(r1 & [] & _ & H)|(? & _ & ?)]; [|done]. destruct (attempt =? _); [|done].
    exfalso. injection H as _ H _. revert H. unfold exhausted_outcome. by repeat case_match.
Qed.

Lemma adds_adopt attempt v p : adds (settles attempt (v_test v)) (adopt o c run_id t attempt (mkVerdict (v_test v) (v_defects v) (built (v_test v))) p).
Proof.
  unfold adopt. cbv zeta. cbn [v_compiled v_test]. destruct (should_emit_adopt_refusal _ _ _) eqn:Hs; [|destruct (built _); apply adds_ret].
  assert (built (v_test v) = false) as Hb by (unfold should_emit_adopt_refusal in Hs; by destruct (built (v_test v)), (bool_decide _)).
  unfold writing, write_poc. repeat adds_step; [done|]. by right.
Qed.

Lemma adds_capture attempt test ev v p : adds (settles attempt test) (maybe_capture_lesson u t attempt ev v p).
Proof. unfold maybe_capture_lesson. repeat first [done | adds_step | case_match]. Qed.

(** A run of the PoC after [w0], judged clean and passed, was logged after [log0], and then
    the check against the fix held *)
Definition proof_stands (w0 : history) (log0 : list entry) (g : Ground) (r : Run history) : Prop :=
  exists attempt code test before acts why after l1 l2,
    r_world r = before ++ acts ++ after /\ ran w0 attempt code test before /\ passed test = true /\
    poc_defects code (target_stems t) (truthy (g_scaffold g)) = [] /\
    r_log r = log0 ++ l1 ++ tested t attempt code (mkVerdict test [] (built test)) :: l2 /\ checked before acts ("verified", why).

Lemma proof_stands_later {A} w0 log0 g (m : ST (Run history) A) P r r' x : running m -> only P m -> m r = (r', x) ->
  proof_stands w0 log0 g r -> proof_stands w0 log0 g r'.
Proof.
  intros Hm Hq H (n & code & test & before & acts & why & after & l1 & l2 & Hw & Hr & ? & ? & Hl & ?).
  destruct (Hm _ _ _ H) as [more Hmore], (Hq _ _ _ H) as (l3 & Hl3 & _). exists n, code, test, before, acts, why, (after ++ more), l1, (l2 ++ l3).
  rewrite Hmore, Hw, Hl3, Hl, <- !app_assoc. done.
Qed.

Lemma one_attempt_verified w0 log0 g checks attempt p r r' p' reason : w0 `prefix_of` r_world r -> log0 `prefix_of` r_log r ->
  one_attempt o c a u symbol_index file_map protocol_mode run_id require_pass_effective t g checks attempt p r = (r', Ok (inr (p', ("passed_verified", reason)))) ->
  proof_stands w0 log0 g r'.
Proof.
  intros Hw0 Hlog0. unfold one_attempt. intros H. apply st_bind_inv in H as [(r1 & path & Hw & H)|(? & _ & ?)]; [|done].
  pose proof (quiet_write _ _ _ _ _ _ _ Hw) as (l0 & Hl0 & _).
  apply st_bind_inv in H as [(r2 & [] & [= <-] & H)|(? & _ & ?)]; [|done]. apply st_bind_inv in H as [(r3 & [test|e] & Hx & H)|(? & _ & ?)]; [| |done].
  2:{ destruct (String.eqb _ _); by apply st_bind_inv in H as [(r4 & [] & _ & ?)|(? & _ & ?)]. }
  pose proof (written_ran w0 attempt _ _ _ _ _ _ _ Hw Hw0 Hx) as [-> Hran]. injection Hx as <- _.
  unfold after_run in H. apply st_bind_inv in H as [(r4 & [[code res] test'] & Hd & H)|(? & _ & ?)]; [|done].
  pose proof (quiet_det _ _ _ _ _ _ _ _ _ _ _ _ Hd) as (ld & Hld & _). apply (det_repair_ran w0) in Hd as [-> Hran']; [|exact Hran].
  assert (exists lx, r_log r4 = log0 ++ lx) as [lx Hlx].
  { destruct Hlog0 as [l9 Hlog0]. rewrite Hld. cbn [r_log]. rewrite Hl0, Hlog0, <- !app_assoc. by eexists. }
  clear Hld Hl0 Hw.
  set (v := mkVerdict _ _ _) in *.
  apply st_bind_inv in H as [(r5 & [] & Hk & H)|(? & _ & ?)]; [|done].
  eapply (ran_adds _ _ _ _ (keep_artifact o c run_id t attempt code)) in Hran'; [|unfold keep_artifact; repeat adds_step; [done|by left]|exact Hk].
  assert (r_log r5 = r_log r4) as Hl5.
  { unfold keep_artifact in Hk. by apply st_bind_inv in Hk as [(? & ? & [= <- _] & [= <- _])|(? & [= <- _] & _)]. }
  apply st_bind_inv in H as [(r6 & [] & Hl & H)|(? & _ & ?)]; [|done]. injection Hl as <-.
  apply st_bind_inv in H as [(r7 & p7 & Ha & H)|(? & _ & ?)]; [|done]. pose proof (quiet_adopt _ _ _ _ _ _ _ _ _ _ Ha) as (l1 & Hl1 & _).
  eapply (ran_adds w0 attempt code test') in Ha; [|apply (adds_adopt attempt v)|exact Hran']. destruct (evidence _ _ _) as [p8 ev].
  apply st_bind_inv in H as [(r8 & [] & Hc & H)|(? & _ & ?)]; [|done]. pose proof (quiet_capture _ _ _ _ _ _ _ _ _ Hc) as (l2 & Hl2 & _).
  eapply (ran_adds w0 attempt code test') in Hc; [|apply adds_capture|exact Ha].
  apply st_bind_inv in H as [(r9 & verdict & Hj & H)|(? & _ & ?)]; [|done].
  destruct verdict as [out|].
  - injection H as <- <- ->. pose proof (quiet_judged _ _ _ _ _ _ _ _ _ _ _ Hj) as (l3 & Hl3 & _). apply judged_verified in Hj as [Hreal (acts & why & Hacts & Hch)].
    unfold real_pass in Hreal. apply andb_true_iff in Hreal as [Hpass Hdef%bool_decide_eq_true]. cbn [v_test v_defects v] in Hpass, Hdef.
    assert (v = mkVerdict test' [] (built test')) as Hv by (unfold v; f_equal; exact Hdef). rewrite Hv in Hl1.
    exists attempt, code, test', (r_world r8), acts, why, [], lx, (l1 ++ l2 ++ l3). split; [by rewrite app_nil_r|]. split; [exact Hc|]. split; [exact Hpass|].
    split; [exact Hdef|]. split; [|exact Hch]. rewrite Hl3, Hl2, Hl1, <- !app_assoc. cbn [r_log]. rewrite Hl5, Hlx, <- !app_assoc. reflexivity.
  - apply st_bind_inv in H as [(r10 & err & _ & H)|(? & _ & ?)]; [|done]. apply st_bind_inv in H as [(r11 & [code'|] & _ & H)|(? & _ & ?)]; done.
Qed.

Lemma attempts_verified w0 log0 g checks : forall left attempt p r r' p' reason, w0 `prefix_of` r_world r -> log0 `prefix_of` r_log r ->
  attempts o c a u symbol_index file_map protocol_mode run_id require_pass_effective t g checks left attempt p r = (r', Ok (p', ("passed_verified", reason))) ->
  proof_stands w0 log0 g r'.
Proof.
  induction left as [|left IH]; intros attempt p r r' p' reason Hw0 Hl0 H; cbn [attempts] in H; [done|].
  apply st_bind_inv in H as [(r1 & e & He & H)|(? & _ & ?)]; [|done]. destruct e as [p1|done_].
  - eapply IH; [etrans; [exact Hw0|by eapply running_one]| |exact H]. destruct (quiet_one _ _ _ _ _ _ _ _ _ _ _ _ _ _ _ _ _ He) as (l & -> & _).
    etrans; [exact Hl0|by eexists].
  - injection H as <- ->. by eapply one_attempt_verified.
Qed.

Lemma ground_outcome r r' outcome : ground o c a symbol_index file_map run_id t r = (r', Ok (inl outcome)) -> outcome ∈ ["base-insufficient"; "lookup_failed"].
Proof.
  unfold ground. intros H. apply st_bind_inv in H as [(r1 & paths & _ & H)|(? & _ & ?)]; [|done]. destruct (_ && _).
  { apply st_bind_inv in H as [(r2 & [] & _ & [= _ <-])|(? & _ & ?)]; [by left|done]. }
  do 4 (apply st_bind_inv in H as [(? & ? & _ & H)|(? & _ & ?)]; [|done]). cbv zeta in H.
  apply st_bind_inv in H as [(? & [] & _ & H)|(? & _ & ?)]; [|done]. apply st_bind_inv in H as [(? & [|m missing] & _ & H)|(? & _ & ?)]; [done| |done].
  apply st_bind_inv in H as [(? & [] & _ & H)|(? & _ & ?)]; [|done]. apply st_bind_inv in H as [(? & [gc|] & _ & H)|(? & _ & ?)]; [done| |done].
  apply st_bind_inv in H as [(? & out & Hl & [= _ <-])|(? & _ & ?)]; [|done]. unfold insufficiency_ladder_outcome in Hl.
  destruct symbol_index as [ix|]; [|injection Hl as _ <-; by left]. destruct (_ <=? _)%Z; [injection Hl as _ <-; by left|].
  apply st_bind_inv in Hl as [(? & ? & _ & [= _ <-])|(? & _ & ?)]; [|done]. by right; left.
Qed.

Lemma first_failed g r r' event key message outcome : first_draft o c a u symbol_index protocol_mode t g r = (r', Ok (failed event key message outcome)) ->
  outcome ∈ ["draft_failed"; "sandbox_unavailable"; "run_error"].
Proof.
  unfold first_draft, with_solidity, agentic_code, drafted_code. destruct (a_agentic_loop a).
  - destruct (run_agentic_exploit_loop _ _ _ _ _ _ _ r) as [r1 [code|e]].
    + unfold with_solidity. destruct (truthy _); [done|]. intros [= _ _ _ _ <-]. by left.
    + destruct (is_model_error e); [intros [= _ _ _ _ <-]; by left|]. destruct (String.eqb _ _); [intros [= _ _ _ _ <-]; by right; left|].
      destruct (to_is_sandbox_error u e); [intros [= _ _ _ _ <-]; by right; right; left|done].
  - intros H. apply st_bind_inv in H as [(r1 & [e|code] & _ & H)|(? & _ & ?)]; [| |done].
    + injection H as _ _ _ _ <-. by left.
    + unfold with_solidity in H. destruct (truthy _); [done|]. injection H as _ _ _ _ <-. by left.
Qed.

Lemma only_done (P : entry -> Prop) started outcome reason : (forall e, P e) -> only P (task_done o t started outcome reason).
Proof. intros HP. unfold task_done. by only_go. Qed.

(** C1. A proof is checked before it is called one.  When a finding comes out as
    passed_verified, what was done outside since its processing began has this order: the
    finding's PoC was written and run in the project, and that run passed; then the record
    of the attempt was written and nothing else, unless the run did not build; then a
    directory was made, the project was copied to it, the finding's own fix was applied to the copy by git or by patch, the
    other tests of the copy were removed, and the same PoC was run there, where it was
    built and failed; and the copy was removed.  The code that was judged had no structural
    defect, is the code that was run unless that run did not build, and its run was
    logged. *)
Theorem passed_verified_sound r r' (H : process_finding o c a u symbol_index file_map protocol_mode run_id require_pass_effective t r = (r', Ok "passed_verified")) :
  exists attempt code0 code test scaffold_used before rest root diff on_copy after l1 l2,
    let written_ := (r_world r ++ before) ++ [WriteFile poc_file code0] in
    let judged_ := written_ ++ Sandboxed poc_request :: rest in
    r_world r' = judged_ ++ MkTemp root :: on_copy ++ RmTree root :: after /\
    o_write o (r_world r ++ before) poc_file code0 = Ok tt /\ poc_result written_ = Ok test /\ passed test = true /\
    (code0 = code \/ built test = false) /\ poc_defects code (target_stems t) scaffold_used = [] /\ Forall (settles attempt test) rest /\
    r_log r' = r_log r ++ l1 ++ tested t attempt code (mkVerdict test [] (built test)) :: l2 /\
    own_fix (o_disk o judged_) (c_project c) (t_fix_patch t) (t_fix t) (inl diff) /\ o_mkdtemp o judged_ = Ok root /\
    observed o (judged_ ++ [MkTemp root]) (c_project c) (root ++ [path_name (c_project c)]) diff (rel_str c poc_file) (c_fork_rpc c) (c_image c)
      on_copy ("verified", "").
Proof.
  enough (exists g, proof_stands (r_world r) (r_log r) g r') as (g & n & code & test & judged_ & acts & why & after & l1 & l2 & Hw & Hran & Hp & Hd & Hl & Hc).
  { destruct Hran as (before & code0 & rest & -> & Hok & Hres & Hcode & Hrest). destruct Hc as [(why' & _ & _ & ?)|(diff & root & on_copy & Hown & Hm & -> & Hobs)]; [done|].
    assert (why = "") as -> by (inversion Hobs; subst; match goal with Hr : reported _ _ |- _ => by inversion Hr end).
    exists n, code0, code, test, (truthy (g_scaffold g)), before, rest, root, diff, on_copy, after, l1, l2. cbv zeta.
    split_and!; [|done..]. rewrite Hw. cbn [app]. by rewrite <- !app_assoc. }
  unfold process_finding in H. apply st_bind_inv in H as [(r0 & started & Hnow & H)|(? & _ & ?)]; [|done]. injection Hnow as <- _.
  apply st_bind_inv in H as [(r1 & [] & [= <-] & H)|(? & _ & ?)]; [|done].
  apply st_bind_inv in H as [(r2 & gr & Hg & H)|(? & _ & ?)]; [|done].
  assert (forall started outcome reason r, task_done o t started outcome reason r = (r', Ok "passed_verified") -> outcome = "passed_verified") as Hdone.
  { intros started0 outcome reason r3 Ht. unfold task_done in Ht. do 2 (apply st_bind_inv in Ht as [(? & ? & _ & Ht)|(? & _ & ?)]; [|done]). by injection Ht as _ ->. }
  destruct gr as [outcome|[g checks]].
  { apply Hdone in H as ->. apply ground_outcome in Hg. exfalso. revert Hg. set_solver. }
  exists g. pose proof (running_ground _ _ _ _ _ _ _ _ _ _ Hg) as Hg1. apply quiet_ground in Hg as (lg & Hg2 & _).
  apply st_bind_inv in H as [(r3 & first & Hf & H)|(? & _ & ?)]; [|done]. destruct first as [code|event key message outcome].
  - pose proof (running_first _ _ _ _ _ _ _ _ _ _ _ Hf) as Hf1. apply quiet_first in Hf as (lf & Hf2 & _).
    apply st_bind_inv in H as [(r4 & code' & Hr & H)|(? & _ & ?)]; [|done]. pose proof (running_repaired _ _ _ _ _ _ _ _ _ _ Hr) as Hr1.
    apply quiet_repaired in Hr as (lr & Hr2 & _). apply st_bind_inv in H as [(r5 & [p [outcome reason]] & Ha & H)|(? & _ & ?)]; [|done].
    apply st_bind_inv in H as [(r6 & p' & He & H)|(? & _ & ?)]; [|done]. apply st_bind_inv in H as [(r7 & [] & Hq & H)|(? & _ & ?)]; [|done].
    cbn [fst snd] in *. pose proof (Hdone _ _ _ _ H) as ->. apply (attempts_verified (r_world r) (r_log r)) in Ha.
    + eapply proof_stands_later; [apply running_done|by apply (only_done (fun _ => True))|exact H|].
      eapply proof_stands_later; [apply running_quarantine|apply quiet_quarantine|exact Hq|].
      by eapply proof_stands_later; [apply running_end|apply quiet_end|exact He|].
    + etrans; [|exact Hr1]. etrans; [|exact Hf1]. etrans; [|exact Hg1]. by eexists.
    + rewrite Hr2, Hf2, Hg2. cbn [r_log]. rewrite <- !app_assoc. by eexists.
  - unfold close_early in H. apply st_bind_inv in H as [(? & ? & _ & [= _ ->])|(? & _ & ?)]; [|done]. apply first_failed in Hf. exfalso. revert Hf. set_solver.
Qed.
End soundness.

(** ** Runs on a scripted outside *)

Definition demo_args (attempts : nat) (agentic : bool) : Args :=
  mkArgs "" true "" true true 0 true attempts agentic 1 0 3 2 "m".

Definition demo_tools : Tools := {|
  to_sanitize s := mkSanitized s [];
  to_read_file _ _ _ := Ok "";
  to_search_code _ _ _ := Ok [];
  to_is_error _ := false;
  to_is_sandbox_error _ := false;
  to_lessons := None;
  to_diff _ _ := [];
|}.

Definition poc_text (name : string) : string :=
  "pragma solidity ^0.8.28;" +:+ nls +:+ "contract " +:+ name +:+ " { function test_x() public { assertEq(1, 2); } }".

Definition is_generate (a : act) : bool := match a with Generate _ => true | _ => false end.
Definition is_run (a : act) : bool := match a with Sandboxed _ => true | _ => false end.
Definition is_copy (a : act) : bool := match a with CopyTree _ _ _ => true | _ => false end.

(** The model answers with the next of [replies]; the [n]-th run in the project answers
    with the [n]-th of [results], and one of the copy with [on_copy] *)
Definition scripted_on (disk : FileSystem) (replies : list string) (results : list SandboxResult) (on_copy : SandboxResult) : Outside :=
  let failing := mkResult "" "" 1 false in {|
  o_mkdtemp _ := Ok ["/"; "tmp"];
  o_copytree _ _ _ := Ok tt;
  o_execute _ _ _ _ := Ok 0%Z;
  o_unlink _ _ := Ok tt;
  o_sandbox h := fun _ => Ok (if existsb is_copy h then on_copy else default failing (results !! length (List.filter is_run h)));
  o_disk _ := disk;
  o_rglob _ _ _ := [];
  o_write _ _ _ := Ok tt;
  o_mkdir _ _ := Ok tt;
  o_rename _ _ _ := Ok tt;
  o_generate h _ := Ok (default "" (replies !! length (List.filter is_generate h)));
  o_chat _ _ _ := Ok (PDict []);
  o_trace _ _ _ := Ok tt;
  o_clock _ := float_lit "0.0";
  o_monotonic h := Z.of_nat (length h);
|}.

Definition scripted : list string -> list SandboxResult -> SandboxResult -> Outside := scripted_on empty_fs.

Definition reverted : SandboxResult := mkResult ("Ran 1 test for audit/poc" +:+ nls +:+ "[FAIL: boom] test_x()") "" 1 false.
Definition no_tests : SandboxResult := mkResult "No tests found in project!" "" 0 true.

Definition patched_task : Task := mkTask "F-1" "Rounding" "" "" "" None (Some "--- a").

Abbreviation demo_run o a := (process_finding o demo_config a demo_tools None "" "marker" "run-1" true patched_task (mkRun [] [])).

Definition passes : SandboxResult := mkResult ("Ran 1 test for audit/poc" +:+ nls +:+ "[PASS] test_x()") "" 0 true.

Abbreviation proving := (demo_run (scripted [poc_text "A"] [passes] reverted) (demo_args 3 false)).

Lemma proving_verified : proving.2 = Ok "passed_verified".
Proof. vm_compute. reflexivity. Qed.

Lemma passed_verified_sound_witness : exists r', proving = (r', Ok "passed_verified") /\
  exists attempt code0 code test before rest root on_copy after,
    r_world r' = (before ++ [WriteFile (poc_file demo_config patched_task) code0]) ++ Sandboxed (poc_request demo_config patched_task) :: rest ++
      MkTemp root :: on_copy ++ RmTree root :: after /\
    passed test = true /\ tested patched_task attempt code (mkVerdict test [] (built test)) ∈ r_log r'.
Proof.
  destruct proving as [r' x] eqn:E. pose proof proving_verified as Hx. rewrite E in Hx. cbn [snd] in Hx. subst x. exists r'. split; [done|].
  destruct (passed_verified_sound _ _ _ _ _ _ _ _ _ _ _ _ E) as (n & code0 & code & test & used & before & rest & root & diff & on_copy & after & l1 & l2 & Hw & _ & _ & Hp & _ & _ & _ & Hl & _).
  exists n, code0, code, test, before, rest, root, on_copy, after. split; [rewrite Hw; cbn [r_world app]; by rewrite <- !app_assoc|]. split; [exact Hp|].
  rewrite Hl. cbn [r_log app]. rewrite elem_of_app. right. by left.
Defined.

(** A queue whose time is over after the first finding: both are accounted for *)
Abbreviation demo_queue :=
  (run_queue (scripted [poc_text "A"] [passes] reverted) demo_config (demo_args 3 false) demo_tools None "" "marker" "run-1" true 5 "1.0" 0 0
    [patched_task; demo_task] (mkRun [] [])).

Lemma demo_queue_returns : demo_queue.2 = Ok tt /\
  map (fun e => (assoc "finding_id" e, assoc "cause" e)) (List.filter closing_entry (r_log demo_queue.1))
  = [(Some (PStr "F-1"), Some (PStr "proved")); (Some (PStr "F-1"), Some (PStr "not_attempted:budget"))].
Proof. vm_compute. done. Qed.

(** ** Two outcomes that do not stand for what they say *)

(** The source that was on file when the copy was made *)
Fixpoint copied_source (last : option string) (h : history) : option string :=
  match h with
  | [] => None
  | WriteFile p text :: h' => copied_source (if bool_decide (p = poc_file demo_config patched_task) then Some text else last) h'
  | CopyTree _ _ _ :: _ => last
  | _ :: h' => copied_source last h'
  end.

(** A second draft that exits with success without running a test is not a compiled code,
    so it is refused and the first, which reverted, is put back; it still counts as a
    pass, and the check against the fix then runs the first draft, which fails there as it
    failed before: the finding is reported as proved by a PoC that never passed *)
Example reverted_code_reported_proved :
  let run := demo_run (scripted [poc_text "A"; poc_text "B"] [reverted; no_tests] reverted) (demo_args 2 false) in
  run.2 = Ok "passed_verified" /\ copied_source None (r_world run.1) = Some (poc_text "A") /\
  map (fun e => assoc "compiled" e) (List.filter (fun e => bool_decide (assoc "event" e = Some (PStr "tested"))) (r_log run.1)) = [Some (PBool true); Some (PBool false)].
Proof. vm_compute. done. Qed.

(** Under the agentic loop the single attempt is compared with the attempts asked for: it
    is not the last, the model is asked for a fix that is never run, and the outcome is
    one the table of causes does not know *)
Example agentic_outcome_unknown :
  let run := demo_run (scripted [poc_text "A"; poc_text "B"] [reverted; reverted] reverted) (demo_args 3 true) in
  run.2 = Ok "unknown" /\ length (List.filter is_generate (r_world run.1)) = 2 /\
  map (assoc "cause") (List.filter closing_entry (r_log run.1)) = [Some (PStr "unclassified")].
Proof. vm_compute. done. Qed.

(** With as many attempts asked for as the loop makes, no fix is asked for *)
Example agentic_single_attempt :
  let run := demo_run (scripted [poc_text "A"; poc_text "B"] [reverted; reverted] reverted) (demo_args 1 true) in
  run.2 = Ok "reverted_exhausted" /\ length (List.filter is_generate (r_world run.1)) = 1.
Proof. vm_compute. done. Qed.

(** The record of an attempt is filed under the raw id, so an id with parent parts leaves
    the directory of the run *)
Example artifact_raw_id :
  artifact demo_config "run-1" (mkTask "../../../../../../etc/x" "" "" "" "" None None) 1
  = ["/"; "proj"; "audit"; "poc"; "_runs"; "run-1"; "poc_attempts"; ".."; ".."; ".."; ".."; ".."; ".."; "etc"; "x"; "a1_post_det.sol.txt"].
Proof. vm_compute. reflexivity. Qed.
