(* ===== verification/RunnerMain.v ===== *)
(** * The PoC queue runner: a run (scripts/poc_queue_runner.py)

    The main function after its arguments are parsed: the checks that stop a run before
    any finding, the task list, the selection, the index of the target and the queue.  The
    keep-alive thread is left out; the probes of a client, the environment and the tracer
    are parameters. *)

From S2P Require Import Prelude PyStr PyRe PyPath PyVal PyNum PyFloat PyJson SolIndex SolUtils Fixers Causes StaticAnalysis WriteExecute.
From S2P Require Import RunnerBase RunnerFix RunnerLookup RunnerSource RunnerPrompts RunnerSynth RunnerDraft RunnerAttempt Runner RunnerSound.

(** ** The task list on disk *)

(** A character of [json.dumps(..., ensure_ascii=False)] *)
Definition raw_char (ch : ascii) : string := if (N_of_ascii ch <? 127)%N then dump_cp (N_of_ascii ch) else String ch "".
Fixpoint raw_chars (s : string) : string := match s with "" => "" | String ch s' => raw_char ch +:+ raw_chars s' end.
Definition raw_string (s : string) : string := dquote +:+ raw_chars s +:+ dquote.

Definition raw_field (kv : string * pyval) : string :=
  "    " +:+ raw_string kv.1 +:+ ": " +:+ match kv.2 with PStr s => raw_string s | _ => "null" end.
Definition raw_task (t : list (string * pyval)) : string := "  {" +:+ nls +:+ join ("," +:+ nls) (map raw_field t) +:+ nls +:+ "  }".

(** [json.dumps(tasks, indent=2, ensure_ascii=False)] of tasks, whose values are texts or null *)
Definition raw_tasks (ts : list (list (string * pyval))) : string :=
  match ts with [] => "[]" | _ => "[" +:+ nls +:+ join ("," +:+ nls) (map raw_task ts) +:+ nls +:+ "]" end.

Definition text_field (k : string) (d : list (string * pyval)) : string := match assoc k d with Some (PStr s) => s | _ => "" end.
Definition opt_field (k : string) (d : list (string * pyval)) : option string := match assoc k d with Some (PStr s) => Some s | _ => None end.

(** A dictionary of [_attach_fixes] as a record *)
Definition task_of (d : list (string * pyval)) : Task :=
  mkTask (text_field "id" d) (text_field "title" d) (text_field "location" d) (text_field "description" d) (text_field "finding_class" d)
    (opt_field "fix" d) (opt_field "fix_patch" d).

(** ** The arguments *)

Record Options := mkOptions {
  m_provider : string;
  m_model : string;
  m_host : string;
  m_fork : bool;
  m_require_pass : bool;
  m_report : path;
  m_tasks_from : option path;
  m_fix_patches : list string;
  m_only : string;
  m_limit : Z;
  m_extract_only : bool;
  m_no_symbol_index : bool;
  m_lookup_protocol : string;
  m_max_time : Z;             (* the minutes of the run, in the units of the monotonic clock; 0 is no limit *)
  m_max_minutes : string;     (* the minutes as they are logged *)
}.

(** The environment, the probes of a client, the default models, the tracer, and what the
    standard library does with paths, JSON errors and classes of exceptions *)
Record Host := mkHost {
  h_environ : string -> option string;
  h_warm : history -> GenClient -> bool;
  h_ready : history -> GenClient -> bool;
  h_supports_tools : history -> GenClient -> bool;
  h_openrouter_model : string;
  h_gemini_model : string;
  h_tracing : bool;
  h_seed : history -> string -> string -> res unit;
  h_expanduser : path -> res path;
  h_agent_root : path;
  h_json_error : string -> string;
  h_is_os_error : exn -> bool;
  h_parse_file : history -> path -> res pyval;
  h_fsum : list pyfloat -> pyfloat;
}.

Definition GEN_TIMEOUT_S : pyfloat := float_lit "3600.0".

Section main.
Context (o : Outside) (c : Config) (a : Args) (u : Tools) (m : Options) (host : Host).

Abbreviation M := (ST (Run history)).
Abbreviation project := (c_project c).

(** [sys.exit(code)] *)
Definition exits {A} (code : Z) : M A := st_lift (Raise (Exn "SystemExit" (pretty code))).
Definition started {A} (x : startup A) : M A := match x with Started y => mret y | Exit code _ => exits code end.
Definition abort {A} (reason : string) : M A := _ ← log [("event", PStr "abort"); ("reason", PStr reason)]; exits 1.

Definition client : GenClient :=
  build_generation_client (h_environ host) (h_openrouter_model host) (h_gemini_model host) (m_provider m) (m_model m) (m_host m) GEN_TIMEOUT_S.

(** ** Before the first finding *)

Definition fork_url : M (option string) :=
  if m_fork m then match opt_truthy (h_environ host "MAINNET_RPC_URL") with Some url => mret (Some url) | None => exits 2 end else mret None.

Definition client_ready : M unit :=
  if String.eqb (m_provider m) "local" then
    _ ← log [("event", PStr "warming"); ("model", PStr (model_of client))];
    warm ← asking (fun h => h_warm host h client);
    if negb warm then abort ("could not warm " +:+ model_of client +:+ " (is Ollama up?)")
    else ready ← asking (fun h => h_ready host h client); if negb ready then abort ("local model " +:+ model_of client +:+ " not ready") else mret tt
  else
    err ← asking (fun h => hosted_ready_error (m_provider m) client (h_ready host h));
    match err with Some why => abort why | None => mret tt end.

Definition protocol : M string :=
  match resolve_lookup_protocol (m_provider m) (m_lookup_protocol m) with
  | Raise e => abort (exn_msg e)
  | Ok requested =>
      x ← asking (fun h => select_protocol requested client (h_supports_tools host h));
      ms ← started x;
      _ ← log [("event", PStr "lookup_protocol"); ("mode", PStr ms.1); ("source", PStr ms.2)];
      mret ms.1
  end.

Definition obtain (patches : list (string * string)) : M (list (list (string * pyval))) :=
  fs ← asking (o_disk o);
  match m_tasks_from m with
  | Some p => st_lift (load_pinned_tasks (h_fsum host) fs (h_json_error host) p (m_report m) patches)
  | None =>
      extract_tasks (h_fsum host) (fun prompt => s ← generate o prompt; mret (Some s)) (c_prompts c) EXTRACT_PROMPT (h_json_error host) fs (m_report m) patches
  end.

Definition extraction_error (e : exn) : bool := is_model_error e || String.eqb (exn_class e) "JSONDecodeError" || h_is_os_error host e.

(** The outcome of the extraction; the errors that are expected end the run *)
Definition extraction (patches : list (string * string)) : M (list (list (string * pyval))) := fun r =>
  match obtain patches r with
  | (r', Raise e) =>
      if extraction_error e then (_ ← log [("event", PStr "extract_failed"); ("error", PStr (exn_msg e))]; exits 1) r' else (r', Raise e)
  | ok => ok
  end.

Definition extracted (patches : list (string * string)) : M (list (list (string * pyval))) :=
  _ ← log [("event", PStr "extract_start"); ("report", PStr (path_str (m_report m))); ("model", PStr (m_model m));
           ("source", PStr (match m_tasks_from m with Some _ => "pinned" | None => "model" end))];
  ts ← extraction patches;
  _ ← log [("event", PStr "extracted"); ("count", PInt (Z.of_nat (length ts))); ("ids", strs (map (text_field "id") ts))];
  mret ts.

(** The task list is kept beside the PoCs *)
Definition keep_tasks (ts : list (list (string * pyval))) : M unit :=
  _ ← make_dir o (poc_dir c); write_file o (poc_dir c ++ ["_extracted_tasks.json"]) (raw_tasks ts).

(** What a run has settled before its findings *)
Record Settled := mkSettled {
  st_fork : option string;
  st_run_id : string;
  st_protocol : string;
  st_tasks : list Task;
}.

(** Offering a prompt to the tracer *)
Definition create_prompt (name text : string) : ST history unit := fun h => (h ++ [Traced name text], h_seed host h name text).

Definition settle : M Settled :=
  fs ← asking (o_disk o);
  _ ← started (preflight_operator_scaffold fs project (a_test_scaffold a));
  x ← st_lift (parse_fix_patches fs (h_expanduser host) (h_agent_root host) (m_fix_patches m));
  patches ← started x;
  fork ← fork_url;
  run_id ← asking (c_mint c);
  _ ← log [("event", PStr "provider"); ("provider", PStr (m_provider m)); ("model", PStr (model_of client)); ("run_id", PStr run_id)];
  _ ← client_ready;
  mode ← protocol;
  _ ← log [("event", PStr "tracer"); ("enabled", PBool (h_tracing host))];
  _ ← outside (seed_prompts (h_tracing host) create_prompt);
  ts ← extracted patches;
  _ ← keep_tasks ts;
  mret (mkSettled fork run_id mode (map task_of ts)).

(** ** The findings *)

Definition with_fork (fork : option string) : Config :=
  mkConfig project (c_cwd c) (c_depth c) (c_parse c) (c_git c) (c_prompts c) (c_mint c) (c_inventory_fuel c) (c_image c) fork.

Definition require_pass_effective (fork : option string) : bool := m_require_pass m || negb (is_none (opt_truthy fork)).

Definition index : M (option SymbolIndex) :=
  if m_no_symbol_index m then mret None
  else
    h ← asking (fun h => h);
    let '(ix, out) := SolIndex.build (o_disk o h) (c_depth c) (h_parse_file host h) project in
    _ ← st_lift out;
    _ ← log [("event", PStr "symbol_index_built"); ("unparsed_files", PInt (Z.of_nat (length (ix_unparsed ix))))];
    mret (Some ix).

Definition scaffold_mode (fork : option string) (ix : option SymbolIndex) (file_map : string) : list (string * pyval) :=
  [("event", PStr "scaffold_mode");
   ("source", PStr (if truthy (a_test_scaffold a) then "operator" else if a_no_scaffold a then "off" else "auto"));
   ("file_map_chars", PInt (Z.of_nat (ulen file_map))); ("fork", PBool (negb (is_none (opt_truthy fork))));
   ("lookup_budget", PInt (match ix with Some _ => a_lookup_budget a | None => 0%Z end));
   ("bar", PStr (if require_pass_effective fork then "pass" else "compile+real"))].

Definition prove (s : Settled) : M unit :=
  todo ← selected (m_only m) (m_limit m) (st_tasks s);
  run_start ← outside (ticks o);
  ix ← index;
  file_map ← (if a_no_file_map a then mret "" else reading o c (fun fs _ git => Ok (build_file_manifest fs git (c_cwd c) project ix)));
  _ ← log (scaffold_mode (st_fork s) ix file_map);
  run_queue o (with_fork (st_fork s)) a u ix file_map (st_protocol s) (st_run_id s) (require_pass_effective (st_fork s)) (m_max_time m) (m_max_minutes m)
    run_start 0 todo.

Definition main : M unit := s ← settle; if m_extract_only m then mret tt else prove s.
End main.

(** ** Tasks *)

(** What [_attach_fixes] makes is a record's dictionary *)
Lemma attached_is_task fsum report patches it d : attach_fix fsum report patches it = Ok (Some d) -> task_dict (task_of d) = d.
Proof.
  unfold attach_fix. destruct it.2 as [| | | | | |t]; try done. cbv zeta. destruct (negb _); [done|]. intros H.
  apply res_bind_Ok in H as (f & _ & [= <-]). unfold task_dict, task_of, text_field, opt_field, opt_str. cbn [assoc].
  by destruct f, (assoc _ patches).
Qed.

Lemma attached_are_tasks fsum raw report patches l : attach_fixes fsum raw report patches = Ok l -> map (fun d => task_dict (task_of d)) l = l.
Proof.
  unfold attach_fixes. intros H. apply res_bind_Ok in H as (items & _ & H). apply res_bind_Ok in H as (l' & Hl & [= <-]).
  apply map_res_Ok in Hl. rewrite <- (map_id (omap _ _)) at 2. apply map_ext_in. intros d Hd%list_elem_of_In. apply list_elem_of_omap in Hd as ([d'|] & Hin & [= ->]).
  apply list_elem_of_lookup in Hin as [i Hi]. eapply Forall2_lookup_r in Hl as (x & _ & Hx); [|exact Hi]. by eapply attached_is_task.
Qed.

(** ** A run *)

Section run.
Context (o : Outside) (c : Config) (a : Args) (u : Tools) (m : Options) (host : Host).

Abbreviation settling := (settle o c a m host).

(** An entry that neither begins nor closes a finding *)
Definition before_findings (e : entry) : Prop := quiet e /\ assoc "event" e <> Some (PStr "task_start").

Lemma only_started {A} P (x : startup A) : only P (started x).
Proof. destruct x; by apply only_silent. Qed.
Lemma only_abort {A} reason : only before_findings (abort (A := A) reason).
Proof. unfold abort. apply only_bind; [by apply only_log|]. intros _. by apply only_silent. Qed.

Lemma obtain_only patches : only before_findings (obtain o c m host patches).
Proof.
  unfold obtain. apply only_bind; [by only_go|]. intros fs. destruct (m_tasks_from m); [by only_go|]. unfold extract_tasks. by only_go.
Qed.

Lemma extracted_only patches : only before_findings (extracted o c m host patches).
Proof.
  unfold extracted. apply only_bind; [by apply only_log|]. intros _. apply only_bind; [|intros ts; by only_go].
  intros r r' x H. unfold extraction in H. destruct (obtain o c m host patches r) as [r1 [ts|e]] eqn:E; apply obtain_only in E as (l & Hl & Hall).
  - injection H as <- <-. by exists l.
  - destruct (extraction_error host e); [|injection H as <- <-; by exists l].
    injection H as <- <-. eexists (l ++ [_]). cbn [r_log]. rewrite Hl, <- app_assoc. split; [reflexivity|]. apply Forall_app. split; [done|]. by constructor.
Qed.

Lemma settle_only : only before_findings settling.
Proof.
  unfold settle. apply only_bind; [by only_go|]. intros fs. apply only_bind; [apply only_started|]. intros _. apply only_bind; [by only_go|]. intros x.
  apply only_bind; [apply only_started|]. intros patches. apply only_bind; [unfold fork_url; destruct (m_fork m), (opt_truthy (h_environ host "MAINNET_RPC_URL")); by apply only_silent|]. intros fork.
  apply only_bind; [by only_go|]. intros run_id. apply only_bind; [by only_go|]. intros _. apply only_bind.
  { unfold client_ready. destruct (String.eqb _ _); [do 2 (apply only_bind; [by only_go|]; intros ?); destruct (negb _); [apply only_abort|]|];
      (apply only_bind; [by only_go|]; intros ?); case_match; first [apply only_abort | apply only_ret]. }
  intros _. apply only_bind.
  { unfold protocol. destruct (resolve_lookup_protocol _ _) as [requested|e]; [|apply only_abort]. apply only_bind; [by only_go|]. intros x'.
    apply only_bind; [apply only_started|]. intros ms. by only_go. }
  intros mode. do 2 (apply only_bind; [by only_go|]; intros ?). apply only_bind; [apply extracted_only|]. intros ts.
  apply only_bind; [unfold keep_tasks; by only_go|]. intros _. apply only_ret.
Qed.

(** What a run does before its findings are kept: it asks the model and offers its prompts
    to the tracer *)
Definition asks (x : act) : Prop := match x with Generate _ | Traced _ _ => True | _ => False end.

Lemma adds_seeds : adds asks (outside (seed_prompts (h_tracing host) (create_prompt host))).
Proof.
  assert (forall l h, exists acts, map_st (fun nc w => let '(w', _) := create_prompt host nc.1 nc.2 w in (w', Ok tt)) l h = (h ++ acts, Ok (map (fun _ => tt) l)) /\ Forall asks acts) as Hmap.
  { induction l as [|nc l IH]; intros h; cbn [map_st]; [exists []; by rewrite app_nil_r|]. unfold mbind, st_bind. change (create_prompt host nc.1 nc.2 h) with (h ++ [Traced nc.1 nc.2], h_seed host h nc.1 nc.2). cbv iota.
    destruct (IH (h ++ [Traced nc.1 nc.2])) as (acts & -> & Ha). exists (Traced nc.1 nc.2 :: acts). rewrite <- app_assoc. split; [done|by constructor]. }
  intros r r' x H. unfold outside, seed_prompts in H. destruct (h_tracing host); cbn [negb] in H; [|injection H as <- <-; exists []; by rewrite app_nil_r].
  unfold mbind, st_bind in H. destruct (Hmap HARNESS_PROMPTS (r_world r)) as (acts & Hh & Ha). rewrite Hh in H. injection H as <- <-. by exists acts.
Qed.

Lemma adds_exits {A} P code : adds P (exits (A := A) code).
Proof. by apply adds_none. Qed.
Lemma adds_started {A} P (x : startup A) : adds P (started x).
Proof. destruct x; by apply adds_none. Qed.
Lemma adds_abort {A} P reason : adds P (abort (A := A) reason).
Proof. unfold abort. by repeat adds_step. Qed.

Lemma adds_retry {A} P (fn : ST (Run history) A) stage fid n : adds P fn -> adds P (call_with_retry fn stage fid n).
Proof.
  intros Hfn. unfold call_with_retry. generalize 1 (default GEN_RETRY_ATTEMPTS n). intros i left. revert i. induction left as [|left IH]; intros i; [apply adds_ret|].
  intros r r' x Hr. cbn [retry_from] in Hr. destruct (fn r) as [r1 [y|e]] eqn:E; pose proof (Hfn _ _ _ E) as (l & Hl & Hall).
  - injection Hr as <- <-. by exists l.
  - destruct (is_model_error e && negb (left =? 0)); [|injection Hr as <- <-; by exists l]. unfold mbind, st_bind, log, st_modify in Hr.
    apply IH in Hr as (l' & Hl' & Hall'). cbn [r_world] in Hl'. exists (l ++ l'). rewrite Hl', Hl, <- app_assoc. split; [done|by apply Forall_app].
Qed.

Lemma adds_obtain patches : adds asks (obtain o c m host patches).
Proof.
  unfold obtain. apply adds_asking. intros h. destruct (m_tasks_from m); [apply adds_lift|]. unfold extract_tasks.
  do 2 (apply adds_bind; [apply adds_lift|]; intros ?). apply adds_bind; [|intros raw; by repeat adds_step]. apply adds_retry.
  intros r r' x H. unfold outside, extract_reply, generate, mbind, st_bind in H. exists [Generate a1.1].
  destruct (o_generate o _ _) as [s|e]; cbn in H; [|by injection H as <- _; split; [|repeat constructor]].
  destruct (truthy _); injection H as <- _; (split; [done|repeat constructor]).
Qed.

Lemma adds_extracted patches : adds asks (extracted o c m host patches).
Proof.
  unfold extracted. adds_step; [apply adds_log|]. apply adds_bind; [|intros ts; by repeat adds_step].
  intros r r' x H. unfold extraction in H. destruct (obtain o c m host patches r) as [r1 [ts|e]] eqn:E; apply adds_obtain in E as (l & Hl & Hall).
  - injection H as <- <-. by exists l.
  - destruct (extraction_error host e); injection H as <- <-; by exists l.
Qed.

Abbreviation tasks_file := (poc_dir c ++ ["_extracted_tasks.json"]).

(** The task list is kept last, after the history [h] *)
Definition keeps_tasks (h : history) (kept : list act) (x : res Settled) : Prop :=
  match x with
  | Ok s => exists ts, kept = [MakeDir (poc_dir c); WriteFile tasks_file (raw_tasks ts)] /\ st_tasks s = map task_of ts
  | Raise e => kept = [] \/ kept = [MakeDir (poc_dir c)] /\ o_mkdir o h (poc_dir c) = Raise e \/
      exists ts, kept = [MakeDir (poc_dir c); WriteFile tasks_file (raw_tasks ts)] /\ o_write o (h ++ [MakeDir (poc_dir c)]) tasks_file (raw_tasks ts) = Raise e
  end.

(** [run] asks, and then keeps the tasks *)
Definition asks_then_keeps (run : ST (Run history) Settled) : Prop := forall r r' x, run r = (r', x) ->
  exists asked kept, r_world r' = r_world r ++ asked ++ kept /\ Forall asks asked /\ keeps_tasks (r_world r ++ asked) kept x.

Lemma asks_first {A} (run : ST (Run history) A) f : adds asks run -> (forall y, asks_then_keeps (f y)) -> asks_then_keeps (y ← run; f y).
Proof.
  intros Hm Hf r r' x H. apply st_bind_inv in H as [(r1 & y & H1 & H2)|(e & H1 & ->)].
  - apply Hm in H1 as (l & Hl & Ha). apply Hf in H2 as (asked & kept & Hw & Ha' & Hk). exists (l ++ asked), kept. rewrite Hw, Hl, !app_assoc in *.
    split_and!; [done|by apply Forall_app|done].
  - apply Hm in H1 as (l & Hl & Ha). exists l, []. rewrite app_nil_r. split_and!; [done..|by left].
Qed.

Lemma settle_acts : asks_then_keeps settling.
Proof.
  unfold settle. apply asks_first; [apply adds_asked|]. intros h. apply asks_first; [apply adds_started|]. intros _. apply asks_first; [apply adds_lift|]. intros x.
  apply asks_first; [apply adds_started|]. intros patches.
  apply asks_first; [unfold fork_url; destruct (m_fork m), (opt_truthy (h_environ host "MAINNET_RPC_URL")); by apply adds_none|]. intros fork.
  apply asks_first; [apply adds_asked|]. intros run_id. apply asks_first; [apply adds_log|]. intros _. apply asks_first.
  { unfold client_ready. destruct (String.eqb _ _).
    - apply adds_bind; [apply adds_log|]. intros _. apply adds_asking. intros h1. destruct (negb _); [apply adds_abort|]. apply adds_asking. intros h2.
      destruct (negb _); [apply adds_abort|apply adds_ret].
    - apply adds_asking. intros h1. destruct (hosted_ready_error _ _ _); [apply adds_abort|apply adds_ret]. }
  intros _. apply asks_first.
  { unfold protocol. destruct (resolve_lookup_protocol _ _) as [requested|e]; [|apply adds_abort]. apply adds_asking. intros h1.
    apply adds_bind; [apply adds_started|]. intros ms. by repeat adds_step. }
  intros mode. apply asks_first; [apply adds_log|]. intros _. apply asks_first; [apply adds_seeds|]. intros _. apply asks_first; [apply adds_extracted|]. intros ts.
  intros r r' y H. exists []. unfold keep_tasks in H. cbn [app].
  apply st_bind_inv in H as [(r1 & [] & Hk & [= <- <-])|(e & Hk & ->)]; apply st_bind_inv in Hk as [(r2 & [] & [= <- Hd] & Hk)|(e' & [= <- Hd] & He)]; try done.
  - injection Hk as <- _. exists [MakeDir (poc_dir c); WriteFile tasks_file (raw_tasks ts)]. cbn [r_world]. rewrite <- app_assoc. split_and!; [done|constructor|by exists ts].
  - injection Hk as <- Hw. exists [MakeDir (poc_dir c); WriteFile tasks_file (raw_tasks ts)]. cbn [r_world] in *. rewrite app_nil_r, <- app_assoc. split_and!; [done|constructor|].
    right. right. by exists ts.
  - injection He as <-. exists [MakeDir (poc_dir c)]. cbn [r_world] in *. rewrite app_nil_r. split_and!; [done|constructor|]. right. by left.
Qed.

Lemma prove_accounts s r r' : prove o c a u m host s r = (r', Ok tt) ->
  exists l, r_log r' = r_log r ++ l ++ [[("event", PStr "done")]] /\ Forall2 accounts (select_todo (m_only m) (m_limit m) (st_tasks s)).1 (List.filter closing_entry l).
Proof.
  unfold prove. intros H. apply st_bind_inv in H as [(r1 & todo & Hs & H)|(? & _ & ?)]; [|done].
  assert (todo = (select_todo (m_only m) (m_limit m) (st_tasks s)).1 /\ exists l, r_log r1 = r_log r ++ l /\ Forall quiet l) as [-> (l1 & Hl1 & Hq1)].
  { unfold selected in Hs. destruct (select_todo _ _ _) as [ts [|x xs]]; cbn [fst]; injection Hs as <- <-; (split; [done|]).
    - exists []. by rewrite app_nil_r.
    - eexists [_]. split; [reflexivity|by constructor]. }
  apply st_bind_inv in H as [(r2 & start & Ht & H)|(? & _ & ?)]; [|done]. apply (only_outside quiet) in Ht as (l2 & Hl2 & Hq2).
  apply st_bind_inv in H as [(r3 & ix & Hi & H)|(? & _ & ?)]; [|done].
  assert (only quiet (index o c m host)) as Hix.
  { unfold index. destruct (m_no_symbol_index m); [apply only_ret|]. apply only_bind; [by only_go|]. intros h. destruct (SolIndex.build _ _ _ _) as [ix' out]. by only_go. }
  apply Hix in Hi as (l3 & Hl3 & Hq3). apply st_bind_inv in H as [(r4 & fm & Hf & H)|(? & _ & ?)]; [|done].
  assert (only quiet (if a_no_file_map a then mret "" else reading o c (fun fs _ git => Ok (build_file_manifest fs git (c_cwd c) (c_project c) ix)))) as Hfm
    by (destruct (a_no_file_map a); by only_go).
  apply Hfm in Hf as (l4 & Hl4 & Hq4). apply st_bind_inv in H as [(r5 & [] & [= <-] & H)|(? & _ & ?)]; [|done].
  apply queue_accounts in H as (l & Hl & Hall). cbn [r_log] in Hl. eexists ((l1 ++ l2 ++ l3 ++ l4 ++ [_]) ++ l). split; [rewrite Hl, Hl4, Hl3, Hl2, Hl1, <- !app_assoc; reflexivity|].
  rewrite List.filter_app, quiet_filter; [exact Hall|]. repeat (apply Forall_app; split); try done. by constructor.
Qed.

End run.

(** ** A run on a scripted outside *)

Definition demo_host (key : string) : Host := {|
  h_environ k := if String.eqb k "GEMINI_API_KEY" then Some key else None;
  h_warm _ _ := true;
  h_ready _ _ := true;
  h_supports_tools _ _ := false;
  h_openrouter_model := "or";
  h_gemini_model := "gem";
  h_tracing := true;
  h_seed _ _ _ := Ok tt;
  h_expanduser p := Ok p;
  h_agent_root := ["/"; "agent"];
  h_json_error _ := "";
  h_is_os_error e := String.eqb (exn_class e) "FileNotFoundError";
  h_parse_file _ _ := Raise (Exn "ParseError" "");
  h_fsum l := foldl float_add (float_lit "0.0") l;
|}.

(** Two findings of a report, of which the time allows the first *)
Definition demo_options (extract_only : bool) : Options :=
  mkOptions "gemini" "" "" false true ["/"; "report.md"] None [] "" 0 extract_only true "auto" 5 "1.0".

Definition report_disk : FileSystem := {|
  fs_resolve p := p;
  fs_resolve_error _ := None;
  fs_exists _ := false;
  fs_is_file _ := false;
  fs_is_dir _ := false;
  fs_read p := if bool_decide (p = ["/"; "report.md"]) then Ok "# Report" else Raise (Exn "FileNotFoundError" (path_str p));
  fs_rglob _ := [];
  fs_rglob_sol _ := [];
|}.

Definition task_reply : string := bq "[{`id`: `F-1`, `title`: `Rounding`}, {`id`: `F-2`, `title`: `Owner`}]".

Abbreviation demo_main key extract_only :=
  (main (scripted_on report_disk [task_reply; poc_text "A"] [passes] reverted) demo_config (demo_args 3 false) demo_tools (demo_options extract_only)
     (demo_host key) (mkRun [] [])).

Definition run_summary (run : Run history * res unit) : res unit * list (option pyval * option pyval) :=
  (run.2, map (fun e => (assoc "finding_id" e, assoc "cause" e)) (List.filter closing_entry (r_log run.1))).

(** Both tasks are closed, the second by the budget *)
Lemma demo_main_closes : run_summary (demo_main "k" false)
  = (Ok tt, [(Some (PStr "F-1"), Some (PStr "not_triggered")); (Some (PStr "F-2"), Some (PStr "not_attempted:budget"))]).
Proof. vm_compute. reflexivity. Qed.

(** Without a key the run stops before it does anything *)
Example no_key_stops : (let run := demo_main "" false in (run.2, r_world run.1)) = (Raise (Exn "SystemExit" "1"), []).
Proof. vm_compute. reflexivity. Qed.

