(* ===== verification/Http.v ===== *)
(** * The operator's backend (frontend/backend/app.py, frontend/backend/state.py)

    The server as one state machine over the components it composes: the reasoning slots
    and their heartbeat, the approval gate, the session manager and the event bus.  A
    synchronous route is one step; a message and a socket are coroutines, so each is the
    steps between its suspensions, and an execution is any interleaving of them with the
    callbacks of the event loop and the keep-alive.

    A chat is found by its session's id, which the kernel draws anew for each.  The bodies
    of requests are JSON objects of strings and nulls, what the operator's page sends.  The
    kernel's records, the turns of its loop, the liveness of a model and the clock are
    parameters or labels of the steps. *)

From stdpp Require Import gmap sets.
From S2P Require Import Prelude PyStr PyPath PyVal PyNum PyJson Actions Confirm ModelSlots Operator Events.

(** ** Requests and answers *)

Definition Body : Type := list (string * option string).
(** [body.get(k)] *)
Definition field (k : string) (b : Body) : option string := mjoin (assoc k b).
(** [body.get(k) or None] *)
Definition field_or_none (k : string) (b : Body) : option string := field k b ≫= or_none.

Inductive answer :=
| Answered (body : pyval)
| Refused (status : Z) (detail : string)   (* an [HTTPException] *)
| Crashed (e : exn).                       (* any other exception: the server's 500 *)

(** An [except] clause that raises an [HTTPException]: the classes it catches, the status
    and the detail *)
Record clause := mkClause { cl_on : list string; cl_status : Z; cl_detail : exn -> string }.

Fixpoint refuse (clauses : list clause) (e : exn) : answer :=
  match clauses with
  | [] => Crashed e
  | c :: clauses' => if bool_decide (exn_class e ∈ cl_on c) then Refused (cl_status c) (cl_detail c e) else refuse clauses' e
  end.
Definition answer_of (clauses : list clause) (r : res pyval) : answer :=
  match r with Ok v => Answered v | Raise e => refuse clauses e end.

(** [ValueError] and its subclasses in the library *)
Definition VALUE_ERRORS : list string :=
  ["ValueError"; "UnicodeError"; "UnicodeDecodeError"; "UnicodeEncodeError"; "JSONDecodeError"].

Definition on_value_error : clause := mkClause VALUE_ERRORS 400 exn_msg.
Definition on_approval_error : clause := mkClause ["ApprovalError"] 403 exn_msg.
Definition no_confirmation : clause := mkClause ["FileNotFoundError"] 404 (fun _ => "confirmation not found").
Definition no_session : answer := Refused 404 "session not found".

(** ** Projections (state.py) *)

(** A model's endpoint as it is at one moment *)
Record Network := mkNetwork { available : client -> res bool; ready : client -> bool; loads : client -> bool }.

(** A status change, dumped when it is a model *)
Inductive StatusChange := Dumpable (dump : pyval) | Plain (v : pyval).
Definition dumped (c : StatusChange) : pyval := match c with Dumpable d => d | Plain v => v end.

(** A verified record of the kernel's memory; the last two may be missing attributes *)
Record MemoryRecord := mkRecord {
  mr_finding : option pyval;
  mr_checkpoint : option pyval;
  mr_status_change : option StatusChange;
  mr_source_type : string;
  mr_target : pyval;
  mr_session_id : pyval;
  mr_payload : option pyval;
  mr_payload_kind : option pyval;
}.

Definition record_body (r : MemoryRecord) : option (pyval * pyval) :=
  match mr_finding r, mr_checkpoint r, mr_status_change r, mr_payload r with
  | Some v, _, _, _ => Some (PStr "finding", v)
  | None, Some v, _, _ => Some (PStr "checkpoint", v)
  | None, None, Some c, _ => Some (PStr "status_change", dumped c)
  | None, None, None, Some v => Some (default (PStr "payload") (mr_payload_kind r), v)
  | None, None, None, None => None
  end.

Definition memory_record (r : MemoryRecord) : option pyval :=
  '(kind, body) ← record_body r;
  Some (PDict [("kind", kind); ("source_type", PStr (mr_source_type r)); ("target", mr_target r);
               ("session_id", mr_session_id r); ("body", body)]).
Definition memory_records (records : list MemoryRecord) : list pyval := omap memory_record records.

Definition KERNEL_INVARIANTS : list string :=
  ["Every re-entering artifact is DATA-wrapped and never obeyed as an instruction";
   "SourceType trust hierarchy; model/relay output never promoted to human_input";
   "HMAC append-only memory; failing records silently dropped";
   "Out-of-band confirmation gate, kernel-derived from action_class (write_execute ⇒ confirm)";
   "Per-turn tool-call budget";
   "Path-containment + network-isolated ephemeral sandbox for attacker-influenced execution"].

(** The active pack's name and its tools *)
Definition PACK_NAME : string := "audit".
Definition tool_entry (t : string * ToolDefinition) : pyval :=
  PDict [("name", PStr (tool_name t.2)); ("action_class", PStr (tool_class t.2)); ("description", PStr (tool_description t.2))].

(** The age joins the last observed liveness once there was one; the time is given *)
Definition beat_dict (b : Heartbeat pyfloat) : list (string * pyval) :=
  [("state", PStr (hb_state b)); ("endpoint", str_opt (hb_endpoint b)); ("model", str_opt (hb_model b));
   ("checked_at", match hb_checked_at b with Some t => PFloat (float_repr t) | None => PNone end);
   ("fails", PInt (Z.of_nat (hb_fails b)))].
Definition heartbeat_state (now : pyfloat) (b : Heartbeat pyfloat) : pyval :=
  PDict (beat_dict b ++ match hb_checked_at b with
                        | Some t => [("age_s", PFloat (float_repr (float_round 1 (float_sub now t))))]
                        | None => []
                        end).

(** ** The state *)

(** A chat's fields that the server writes *)
Record Chat := mkChat { ch_status : string; ch_pending : option string }.

(** What a turn of the kernel's loop gives *)
Record TurnResult := mkResult {
  tr_status : string;
  tr_answer : pyval;
  tr_tier : option string;
  tr_pending_id : option string;
  tr_pending_type : pyval;
  tr_pending_params : pyval;
  tr_summaries : pyval;
}.

(** [K] is the kernel's store, [H] the host's.  The turns in flight and the open sockets
    are the suspended coroutines: the session each works for. *)
Record App (K H : Type) := mkApp {
  ap_slots : Slots;
  ap_beat : Heartbeat pyfloat;
  ap_gate : @gate K;
  ap_server : Server H;
  ap_chats : gmap string Chat;
  ap_bus : Bus pyval;
  ap_turns : gmap nat string;
  ap_next_turn : nat;
  ap_sockets : gmap nat string;
}.
Arguments mkApp {K H} _ _ _ _ _ _ _ _ _.
Arguments ap_slots {K H} _.
Arguments ap_beat {K H} _.
Arguments ap_gate {K H} _.
Arguments ap_server {K H} _.
Arguments ap_chats {K H} _.
Arguments ap_bus {K H} _.
Arguments ap_turns {K H} _.
Arguments ap_next_turn {K H} _.
Arguments ap_sockets {K H} _.

Definition PAUSED : list string := ["paused_confirmation"; "paused_relay"; "blocked_local_unavailable"].
Definition chat_status (status : string) : string := if bool_decide (status ∈ PAUSED) then status else "active".

Definition turn_start (text : option string) : pyval :=
  PDict [("type", PStr "turn_start"); ("user_message", str_opt text); ("source_type", PStr "human_input")].
Definition outcome (r : TurnResult) : pyval :=
  PDict [("type", PStr "outcome"); ("status", PStr (tr_status r)); ("source_type", PStr "tool_output")].
Definition turn_answer (r : TurnResult) : pyval := PDict
  [("status", PStr (tr_status r)); ("answer", tr_answer r); ("tier", PStr (default "local" (tr_tier r)));
   ("pending_confirmation_id", str_opt (tr_pending_id r)); ("pending_action_type", tr_pending_type r);
   ("pending_action_params", tr_pending_params r); ("tool_summaries", tr_summaries r)].

Section app.
Context {K H : Type}.
(** The reasoning slots *)
Context (DEFAULT_HOST : string) (SIMPLE_MODELS OPENROUTER_MODELS : list string) (client_model : client -> string).
(** The kernel: its pending actions, its memory and the status a chat starts with *)
Context {Status : Type} (status_value : Status -> string).
Context (load_request : string -> K -> res pyval) (resolve_confirmation : string -> bool -> K -> K * res Status)
        (token_urlsafe : nat -> string) (confirmations : K -> option Listing)
        (load_for_principal : K -> list (string * string) -> string -> list MemoryRecord)
        (render_roadmap : K -> list (string * string) -> string -> string -> string)
        (initial_status : string) (tool_hash_of : string -> string).
(** Opening a session, with the host it runs on *)
Context (start_session : option string -> option string -> option string -> option string -> ST (Server H) Session).

Abbreviation App := (App K H).
Abbreviation Handler := (App -> App * answer).

Definition set_slots x (s : App) : App :=
  mkApp x (ap_beat s) (ap_gate s) (ap_server s) (ap_chats s) (ap_bus s) (ap_turns s) (ap_next_turn s) (ap_sockets s).
Definition set_beat x (s : App) : App :=
  mkApp (ap_slots s) x (ap_gate s) (ap_server s) (ap_chats s) (ap_bus s) (ap_turns s) (ap_next_turn s) (ap_sockets s).
Definition set_gate x (s : App) : App :=
  mkApp (ap_slots s) (ap_beat s) x (ap_server s) (ap_chats s) (ap_bus s) (ap_turns s) (ap_next_turn s) (ap_sockets s).
Definition set_server x (s : App) : App :=
  mkApp (ap_slots s) (ap_beat s) (ap_gate s) x (ap_chats s) (ap_bus s) (ap_turns s) (ap_next_turn s) (ap_sockets s).
Definition set_chats x (s : App) : App :=
  mkApp (ap_slots s) (ap_beat s) (ap_gate s) (ap_server s) x (ap_bus s) (ap_turns s) (ap_next_turn s) (ap_sockets s).
Definition set_bus x (s : App) : App :=
  mkApp (ap_slots s) (ap_beat s) (ap_gate s) (ap_server s) (ap_chats s) x (ap_turns s) (ap_next_turn s) (ap_sockets s).
Definition set_turns x n (s : App) : App :=
  mkApp (ap_slots s) (ap_beat s) (ap_gate s) (ap_server s) (ap_chats s) (ap_bus s) x n (ap_sockets s).
Definition set_sockets x (s : App) : App :=
  mkApp (ap_slots s) (ap_beat s) (ap_gate s) (ap_server s) (ap_chats s) (ap_bus s) (ap_turns s) (ap_next_turn s) x.
Definition set_kernel (k : K) (s : App) : App := set_gate (mkGate (tokens (ap_gate s)) (drawn (ap_gate s)) k) s.

(** An operation of one component, as an operation of the server *)
Definition on_slots {A} (m : ST Slots A) : ST App A := fun s => let '(x, r) := m (ap_slots s) in (set_slots x s, r).
Definition on_gate {A} (m : ST (@gate K) A) : ST App A := fun s => let '(x, r) := m (ap_gate s) in (set_gate x s, r).
Definition on_server {A} (m : ST (Server H) A) : ST App A := fun s => let '(x, r) := m (ap_server s) in (set_server x s, r).
Definition publish_to (sid : string) (ev : pyval) (s : App) : App := set_bus (publish sid ev (ap_bus s)) s.

Definition handle (clauses : list clause) (m : ST App pyval) : Handler := fun s =>
  let '(s', r) := m s in (s', answer_of clauses r).
(** A route that only reads *)
Definition reads (f : App -> pyval) : Handler := fun s => (s, Answered (f s)).

(** ** The routes *)

Definition health (net : Network) : Handler := handle [] (fun s => (s,
  let c := local_client (CONFIG (ap_slots s)) in
  up ← available net c;
  Ok (PDict [("model_name", PStr (client_model c)); ("endpoint", PStr (endpoint (CONFIG (ap_slots s))));
             ("backend", PStr (backend (CONFIG (ap_slots s)))); ("model_available", PBool up);
             ("model_ready", PBool (if up : bool then ready net c else false)); ("ollama_reachable", PBool up)]))).

Definition modules : Handler := reads (fun _ => PDict
  [("kernel", PStr "sr_agent (task-agnostic secure kernel)"); ("active_pack", PStr PACK_NAME);
   ("pack_tools", PList (map tool_entry (TOOL_REGISTRY tool_hash_of))); ("kernel_invariants", PList (map PStr KERNEL_INVARIANTS))]).

Definition get_model_config : Handler := reads (fun s => public (CONFIG (ap_slots s))).
Definition get_model_models : Handler := reads (fun s => PDict
  [("models", PList (map PStr SIMPLE_MODELS)); ("openrouter", PList (map PStr OPENROUTER_MODELS));
   ("selected", PStr (str_or (model (CONFIG (ap_slots s))) (head_or_empty SIMPLE_MODELS)))]).
Definition post_model_config (b : Body) : Handler :=
  handle [on_value_error] (on_slots (set_config (field "endpoint" b) (field "model" b) (field "backend" b) (field "paid_key" b))).
Definition get_model_additional : Handler := reads (fun s => public (ADDITIONAL (ap_slots s))).
Definition post_model_additional (b : Body) : Handler :=
  handle [on_value_error] (on_slots (set_additional (field "endpoint" b) (field "model" b) (field "backend" b) (field "paid_key" b))).

(** The time before and after the load is given *)
Definition post_warm (net : Network) (t0 t1 : pyfloat) : Handler := reads (fun s =>
  let r := warm client_model (loads net) (ready net) (ap_slots s) in
  PDict [("state", PStr (wr_state r)); ("reason", str_opt (wr_reason r)); ("model", PStr (wr_model r));
         ("elapsed_s", PFloat (float_repr (float_round 1 (float_sub t1 t0))))]).
Definition get_heartbeat (now : pyfloat) : Handler := reads (fun s => heartbeat_state now (ap_beat s)).

Definition session_head (s : Session) : list (string * pyval) :=
  [("session_id", PStr (se_session_id s)); ("project_id", PStr (se_project_id s)); ("scope_root", PStr (path_str (se_audit_root s)))].

(** A session that opens has a chat of its own *)
Definition post_session (b : Body) : Handler := handle [on_value_error] (
  se ← on_server (start_session (field_or_none "project_path" b) (field "project_id" b)
                                (field_or_none "audit_path" b) (field_or_none "repo_url" b));
  _ ← st_modify (fun s => set_chats (<[se_session_id se := mkChat initial_status None]> (ap_chats s)) s);
  mret (PDict (session_head se ++ [("has_report", PBool (negb (is_none (se_facts se))))]))).

Definition chat_of (sid : string) (s : App) : Chat := default (mkChat initial_status None) (ap_chats s !! sid).
Definition session_at (sid : string) (s : App) : option Session := get_session sid (ap_server s).

Definition get_session_route (sid : string) : Handler := fun s =>
  match session_at sid s with
  | None => (s, no_session)
  | Some se => (s, Answered (PDict (session_head se ++
      [("status", PStr (ch_status (chat_of sid s))); ("pending_confirmation_id", str_opt (ch_pending (chat_of sid s)))])))
  end.

Definition get_memory (project : string) : Handler := reads (fun s =>
  PList (memory_records (load_for_principal (world (ap_gate s)) (sv_saved (ap_server s)) project))).
Definition domain_panels (session project : string) : Handler := reads (fun s => PDict
  [("pack", PStr PACK_NAME);
   ("panels", PList [PDict [("title", PStr "Findings / PoC roadmap"); ("kind", PStr "markdown");
     ("body", PStr (render_roadmap (world (ap_gate s)) (sv_saved (ap_server s)) session project))]])]).

Definition list_confirmations : Handler := handle [] (fun s =>
  (s, items ← list_pending (confirmations (world (ap_gate s))); Ok (PList items))).

Definition notice_dict (n : Notice) : pyval := PDict
  [("id", PStr (nt_id n)); ("action_type", nt_action_type n); ("params", nt_params n); ("state", nt_state n);
   ("confirm_token", PStr (nt_token n))].
Definition get_confirmation (id : string) : Handler := handle [no_confirmation] (
  n ← on_gate (load_notice load_request token_urlsafe id); mret (notice_dict n)).

Definition post_confirm (id : string) (b : Body) : Handler := handle [on_approval_error; no_confirmation] (
  status ← on_gate (Confirm.decide resolve_confirmation id (field "confirm_token" b) (default "" (field "decision" b)));
  mret (PDict [("confirmation_id", PStr id); ("status", PStr (status_value status))])).

(** ** Coroutines *)

(** A message up to where it waits for the turn; a body without the text is a [KeyError] *)
Definition post_message (sid : string) (b : Body) (s : App) : App * option answer :=
  match session_at sid s with
  | None => (s, Some no_session)
  | Some _ =>
      match assoc "text" b with
      | None => (s, Some (Crashed (Exn "KeyError" "'text'")))
      | Some text =>
          let s := publish_to sid (turn_start text) s in
          (set_turns (<[ap_next_turn s := sid]> (ap_turns s)) (S (ap_next_turn s)) s, None)
      end
  end.

(** The rest of it, once the turn has returned or raised *)
Definition turn_returns (t : nat) (o : res TurnResult) (s : App) : App * option answer :=
  match ap_turns s !! t with
  | None => (s, None)
  | Some sid =>
      let s := set_turns (delete t (ap_turns s)) (ap_next_turn s) s in
      match o with
      | Raise e => (s, Some (Crashed e))
      | Ok r =>
          let s := set_chats (<[sid := mkChat (chat_status (tr_status r)) (tr_pending_id r)]> (ap_chats s)) s in
          (publish_to sid (outcome r) s, Some (Answered (turn_answer r)))
      end
  end.

(** What the turn does meanwhile: it writes the kernel's store, and its sink publishes to
    the session it was made for *)
Definition turn_writes (t : nat) (k : K) (s : App) : App := match ap_turns s !! t with Some _ => set_kernel k s | None => s end.
Definition turn_traces (t : nat) (ev : pyval) (s : App) : App :=
  match ap_turns s !! t with Some sid => publish_to sid ev s | None => s end.

(** A socket is accepted and subscribed *)
Definition ws_accept (sid : string) (s : App) : App :=
  let '(bus, q) := subscribe sid (ap_bus s) in set_sockets (<[q := sid]> (ap_sockets s)) (set_bus bus s).
(** The [finally] of its loop *)
Definition ws_close (q : nat) (s : App) : App :=
  match ap_sockets s !! q with
  | None => s
  | Some sid => set_sockets (delete q (ap_sockets s)) (set_bus (unsubscribe sid q (ap_bus s)) s)
  end.
(** One turn of its loop: nothing while the queue is empty; the event is taken before it
    is sent, and a send that raises ends the loop *)
Definition ws_push (q : nat) (sent : res unit) (s : App) : App :=
  match ap_sockets s !! q with
  | None => s
  | Some _ =>
      match Events.get q (ap_bus s) with
      | (_, None) => s
      | (bus, Some _) => let s := set_bus bus s in match sent with Ok _ => s | Raise _ => ws_close q s end
      end
  end.

Definition heartbeat (net : Network) (now : pyfloat) (s : App) : App :=
  set_beat (heartbeat_once client_model (available net) now (ap_slots s) (ap_beat s)) s.

(** ** Executions *)

Inductive request :=
| GetHealth (net : Network) | GetModules | GetModelConfig | GetModelModels | PostModelConfig (b : Body)
| GetModelAdditional | PostModelAdditional (b : Body) | PostWarm (net : Network) (t0 t1 : pyfloat)
| GetHeartbeat (now : pyfloat) | PostSession (b : Body) | GetSession (sid : string) | GetMemory (project : string)
| GetDomainPanels (session project : string) | ListConfirmations | GetConfirmation (id : string)
| PostConfirm (id : string) (b : Body).

Definition route (q : request) : Handler :=
  match q with
  | GetHealth net => health net
  | GetModules => modules
  | GetModelConfig => get_model_config
  | GetModelModels => get_model_models
  | PostModelConfig b => post_model_config b
  | GetModelAdditional => get_model_additional
  | PostModelAdditional b => post_model_additional b
  | PostWarm net t0 t1 => post_warm net t0 t1
  | GetHeartbeat now => get_heartbeat now
  | PostSession b => post_session b
  | GetSession sid => get_session_route sid
  | GetMemory project => get_memory project
  | GetDomainPanels session project => domain_panels session project
  | ListConfirmations => list_confirmations
  | GetConfirmation id => get_confirmation id
  | PostConfirm id b => post_confirm id b
  end.

Inductive step :=
| Startup | Shutdown                              (* the lifespan *)
| Callback                                        (* the event loop runs what waits on it *)
| Beat (net : Network) (now : pyfloat)            (* the keep-alive *)
| Request (q : request)
| Message (sid : string) (b : Body)
| TurnWrites (t : nat) (k : K)
| TurnTraces (t : nat) (ev : pyval)
| TurnReturns (t : nat) (o : res TurnResult)
| Accept (sid : string)
| Push (q : nat) (sent : res unit)
| Close (q : nat)                                 (* a socket's task is cancelled *)
| Elsewhere (k : K).                              (* another process writes the store *)

Definition perform (a : step) (s : App) : App * option answer :=
  match a with
  | Startup => (set_bus (bind_loop (ap_bus s)) s, None)
  | Shutdown => (set_bus (close_loop (ap_bus s)) s, None)
  | Callback => (set_bus (run_callback (ap_bus s)) s, None)
  | Beat net now => (heartbeat net now s, None)
  | Request q => let '(s', r) := route q s in (s', Some r)
  | Message sid b => post_message sid b s
  | TurnWrites t k => (turn_writes t k s, None)
  | TurnTraces t ev => (turn_traces t ev s, None)
  | TurnReturns t o => turn_returns t o s
  | Accept sid => (ws_accept sid s, None)
  | Push q sent => (ws_push q sent s, None)
  | Close q => (ws_close q s, None)
  | Elsewhere k => (set_kernel k s, None)
  end.

Definition initial (k : K) (h : H) : App :=
  mkApp (initial_slots DEFAULT_HOST) heartbeat_start (mkGate ∅ 0 k) (mkServer (mkHost h []) [] []) ∅ empty_bus ∅ 0 ∅.
End app.
Arguments step _ : clear implicits.
