(* ===== verification/HttpSound.v ===== *)
(** * The operator's backend: what every execution keeps

    The server of Http.v refines its components: what it does on the bus is an execution
    of Events.v and its requests are a history of the gate of Confirm.v, so that their
    invariants hold of the whole, from the page to the kernel. *)

From stdpp Require Import gmap sets.
From S2P Require Import Prelude PyStr PyPath PyVal PyNum PyJson Actions Confirm ModelSlots Operator Events Http.

(** ** The server refines its components *)

(** What an observer of an execution remembers: the steps and their answers, newest
    first, the history of the bus and that of the approval gate *)
Record Observed (K : Type) := mkObserved {
  ob_steps : list (step K * option answer);
  ob_bus : History pyval;
  ob_gate : list event;
}.
Arguments mkObserved {K} _ _ _.
Arguments ob_steps {K} _.
Arguments ob_bus {K} _.
Arguments ob_gate {K} _.

(** What the server relies on in the session manager: opening registers the one session it
    gives, a request that raises none *)
Class Opener {H} (start_session : option string -> option string -> option string -> option string -> ST (Server H) Session) : Prop :=
  opener_sessions project_path project_id audit_path repo_url s s' o :
    start_session project_path project_id audit_path repo_url s = (s', o) ->
    sv_sessions s' = match o with Ok se => assoc_set (se_session_id se) se (sv_sessions s) | Raise _ => sv_sessions s end.

#[export] Instance operator_opener {W} netloc_ok (uuid4 : ST W string) mkstemp run_git is_oserror disk expanduser agent_root
    workspaces_root git_token new_session_id provider_ready :
  Opener (fun project_path project_id audit_path repo_url =>
    Operator.start netloc_ok uuid4 mkstemp run_git is_oserror disk expanduser agent_root workspaces_root git_token new_session_id
      provider_ready project_path project_id audit_path repo_url).
Proof. intros ? ? ? ? s s' o H%start_opens. destruct o; [|done]. by destruct H as [_ (_ & Hs & _)]. Qed.

Section observed.
Context {K H : Type}.
Context (DEFAULT_HOST : string) (SIMPLE_MODELS OPENROUTER_MODELS : list string) (client_model : client -> string).
Context {Status : Type} (status_value : Status -> string).
Context (load_request : string -> K -> res pyval) (resolve_confirmation : string -> bool -> K -> K * res Status)
        (token_urlsafe : nat -> string) (confirmations : K -> option Listing)
        (load_for_principal : K -> list (string * string) -> string -> list MemoryRecord)
        (render_roadmap : K -> list (string * string) -> string -> string -> string)
        (initial_status : string) (tool_hash_of : string -> string).
Context (start_session : option string -> option string -> option string -> option string -> ST (Server H) Session).

Abbreviation App := (App K H).
Abbreviation do := (perform SIMPLE_MODELS OPENROUTER_MODELS client_model status_value load_request resolve_confirmation
  token_urlsafe confirmations load_for_principal render_roadmap initial_status tool_hash_of start_session).
Abbreviation serve_request := (route SIMPLE_MODELS OPENROUTER_MODELS client_model status_value load_request resolve_confirmation
  token_urlsafe confirmations load_for_principal render_roadmap initial_status tool_hash_of start_session).

(** What a step does on the bus *)
Definition bus_actions (a : step K) (s : App) : list (Events.action pyval) :=
  match a with
  | Startup => [ABind]
  | Shutdown => [AClose]
  | Callback => [ARun]
  | Message sid b =>
      match session_at sid s, assoc "text" b with
      | Some _, Some text => [APublish sid (turn_start text)]
      | _, _ => []
      end
  | TurnTraces t ev => match ap_turns s !! t with Some sid => [APublish sid ev] | None => [] end
  | TurnReturns t (Ok r) => match ap_turns s !! t with Some sid => [APublish sid (outcome r)] | None => [] end
  | Accept sid => [ASubscribe sid]
  | Close q => match ap_sockets s !! q with Some sid => [AUnsubscribe sid q] | None => [] end
  | Push q sent =>
      match ap_sockets s !! q, queue q (ap_bus s) with
      | Some sid, _ :: _ => AGet q :: match sent with Ok _ => [] | Raise _ => [AUnsubscribe sid q] end
      | _, _ => []
      end
  | _ => []
  end.
Definition run_actions (l : list (Events.action pyval)) (x : Bus pyval * History pyval) : Bus pyval * History pyval :=
  foldl (fun x a => (act a x.1, note a x.1 x.2)) x l.

(** What it does at the gate *)
Definition gate_events (a : step K) (s s' : App) (r : option answer) : list event :=
  match a, r with
  | Request (GetConfirmation id), _ =>
      if drawn (ap_gate s') =? drawn (ap_gate s) then [Quiet] else [Issued id (token_urlsafe (drawn (ap_gate s)))]
  | Request (PostConfirm id b), Some (Answered _) =>
      [Resolved id (field "confirm_token" b) (String.eqb (default "" (field "decision" b)) "approve")]
  | Request (PostConfirm id b), _ => [Quiet]
  | _, _ => []
  end.

Definition observe (a : step K) (s : App) (o : Observed K) : Observed K :=
  let '(s', r) := do a s in
  mkObserved ((a, r) :: ob_steps o) (run_actions (bus_actions a s) (ap_bus s, ob_bus o)).2 (gate_events a s s' r ++ ob_gate o).

Inductive executed : App -> Observed K -> Prop :=
| exec_start k h : executed (initial DEFAULT_HOST k h) (mkObserved [] empty_history [])
| exec_step a s o : executed s o -> executed (do a s).1 (observe a s o).

Lemma run_actions_reachable l b h : bus_reachable b h -> bus_reachable (run_actions l (b, h)).1 (run_actions l (b, h)).2.
Proof.
  revert b h. induction l as [|a l IH]; intros b h Hr; [done|]. cbn. apply IH. by apply reach_step.
Qed.

(** A request keeps everything that the coroutines, the bus and the keep-alive use *)
Record kept (s s' : App) : Prop := {
  k_beat : ap_beat s' = ap_beat s;
  k_bus : ap_bus s' = ap_bus s;
  k_turns : ap_turns s' = ap_turns s;
  k_next : ap_next_turn s' = ap_next_turn s;
  k_sockets : ap_sockets s' = ap_sockets s;
}.
Lemma kept_refl s : kept s s.
Proof. done. Qed.

Lemma route_kept q s : kept s (serve_request q s).1.
Proof.
  destruct q; cbn; try apply kept_refl.
  - unfold post_model_config, handle, on_slots. by destruct (set_config _ _ _ _ _).
  - unfold post_model_additional, handle, on_slots. by destruct (set_additional _ _ _ _ _).
  - unfold post_session, handle, on_server, mbind, st_bind. by destruct (start_session _ _ _ _ _) as [? []].
  - unfold get_session_route. by destruct (session_at _ _).
  - unfold get_confirmation, handle, on_gate, mbind, st_bind. by destruct (load_notice _ _ _ _) as [? []].
  - unfold post_confirm, handle, on_gate, mbind, st_bind. by destruct (Confirm.decide _ _ _ _ _) as [? []].
Qed.

Lemma perform_request q s : do (Request q) s = ((serve_request q s).1, Some (serve_request q s).2).
Proof. cbn. by destruct (serve_request q s). Qed.

(** The server does on the bus what [bus_actions] says and nothing else *)
Lemma perform_bus a s h : (run_actions (bus_actions a s) (ap_bus s, h)).1 = ap_bus (do a s).1.
Proof.
  destruct a as [| | | |q|sid b|t k|t ev|t [r|e]|sid|q sent|q|k]; try done.
  - rewrite perform_request. cbn [fst bus_actions]. by rewrite (k_bus _ _ (route_kept q s)).
  - cbn. unfold post_message. destruct (session_at sid s), (assoc "text" b); done.
  - cbn. unfold turn_writes. by destruct (ap_turns s !! t).
  - cbn. unfold turn_traces. by destruct (ap_turns s !! t).
  - cbn. unfold turn_returns. by destruct (ap_turns s !! t).
  - cbn. unfold turn_returns. by destruct (ap_turns s !! t).
  - cbn [perform bus_actions run_actions foldl act fst snd]. unfold ws_accept. by destruct (subscribe sid (ap_bus s)).
  - cbn. unfold ws_push. destruct (ap_sockets s !! q) as [sid|] eqn:E; [|done]. unfold Events.get at 1.
    destruct (queue q (ap_bus s)) as [|ev l] eqn:Eq; [done|]. destruct sent; cbn; unfold Events.get; rewrite Eq; [done|].
    unfold ws_close. cbn [set_bus ap_sockets]. by rewrite E.
  - cbn. unfold ws_close. by destruct (ap_sockets s !! q).
Qed.

Lemma executed_bus s o : executed s o -> bus_reachable (ap_bus s) (ob_bus o).
Proof.
  induction 1 as [k h|a s o _ IH]; [apply reach_start|]. unfold observe. destruct (do a s) as [s' r] eqn:E. cbn [ob_bus].
  replace (ap_bus (s', r).1) with (run_actions (bus_actions a s) (ap_bus s, ob_bus o)).1; [by apply run_actions_reachable|].
  by rewrite perform_bus, E.
Qed.

(** A step that is no request for a notice and no decision leaves the tokens *)
Definition gate_free (a : step K) : bool :=
  match a with Request (GetConfirmation _) | Request (PostConfirm _ _) => false | _ => true end.

(** A step in which something other than the page writes the kernel's store *)
Definition outside (a : step K) : bool := match a with TurnWrites _ _ | Elsewhere _ => true | _ => false end.

Lemma gate_free_gate a s : gate_free a = true -> outside a = false -> ap_gate (do a s).1 = ap_gate s.
Proof.
  destruct a as [| | | |q|sid b|t k|t ev|t [r|e]|sid|q sent|q|k]; try done.
  - rewrite perform_request. destruct q; try done; cbn.
    + unfold post_model_config, handle, on_slots. by destruct (set_config _ _ _ _ _).
    + unfold post_model_additional, handle, on_slots. by destruct (set_additional _ _ _ _ _).
    + unfold post_session, handle, on_server, mbind, st_bind. by destruct (start_session _ _ _ _ _) as [? []].
    + unfold get_session_route. by destruct (session_at _ _).
  - cbn. unfold post_message. by destruct (session_at sid s), (assoc "text" b).
  - cbn. unfold turn_traces. by destruct (ap_turns s !! t).
  - cbn. unfold turn_returns. by destruct (ap_turns s !! t).
  - cbn. unfold turn_returns. by destruct (ap_turns s !! t).
  - cbn. unfold ws_accept. by destruct (subscribe sid (ap_bus s)).
  - cbn. unfold ws_push, ws_close. destruct (ap_sockets s !! q) eqn:E; [|done]. destruct (Events.get q (ap_bus s)) as [? [|]]; [|done].
    destruct sent; [done|]. cbn. by rewrite E.
  - cbn. unfold ws_close. by destruct (ap_sockets s !! q).
Qed.

Lemma gate_free_tokens a s : gate_free a = true -> tokens (ap_gate (do a s).1) = tokens (ap_gate s) /\ drawn (ap_gate (do a s).1) = drawn (ap_gate s).
Proof.
  intros Hf. destruct (outside a) eqn:Ho; [|by rewrite gate_free_gate]. destruct a; try done. cbn. unfold turn_writes. by destruct (ap_turns s !! t).
Qed.

Lemma get_confirmation_gate id s :
  let x := load_notice load_request token_urlsafe id (ap_gate s) in
  serve_request (GetConfirmation id) s =
    (set_gate x.1 s, match x.2 with Ok n => Answered (notice_dict n) | Raise e => refuse [no_confirmation] e end).
Proof. cbn. unfold get_confirmation, handle, on_gate, mbind, st_bind. by destruct (load_notice _ _ _ _) as [? []]. Qed.

Lemma post_confirm_gate id b s :
  let x := Confirm.decide resolve_confirmation id (field "confirm_token" b) (default "" (field "decision" b)) (ap_gate s) in
  serve_request (PostConfirm id b) s =
    (set_gate x.1 s, match x.2 with
                     | Ok status => Answered (PDict [("confirmation_id", PStr id); ("status", PStr (status_value status))])
                     | Raise e => refuse [on_approval_error; no_confirmation] e
                     end).
Proof. cbn. unfold post_confirm, handle, on_gate, mbind, st_bind. by destruct (Confirm.decide _ _ _ _ _) as [? []]. Qed.

(** The server's requests are a history of the gate *)
Lemma executed_gate s o :
  executed s o -> exists g0, history load_request resolve_confirmation token_urlsafe g0 (ob_gate o) (ap_gate s).
Proof.
  induction 1 as [k h|a s o _ [g0 IH]]; [eexists; by constructor|]. exists g0. unfold observe.
  destruct (do a s) as [s' r] eqn:E. cbn [fst ob_gate]. destruct (gate_free a) eqn:Hf.
  - replace (gate_events a s s' r) with (@nil event) by (destruct a as [| | | |[]| | | | | | | |]; by try destruct r).
    pose proof (gate_free_tokens a s Hf) as [Ht Hd]. rewrite E in Ht, Hd. cbn [fst] in *.
    replace (ap_gate s') with (mkGate (tokens (ap_gate s)) (drawn (ap_gate s)) (world (ap_gate s'))).
    2: { rewrite <- Ht, <- Hd. by destruct (ap_gate s'). }
    by constructor.
  - destruct a as [| | | |[]| | | | | | | |]; try done; rewrite perform_request in E.
    + rewrite get_confirmation_gate in E. destruct (load_notice load_request token_urlsafe id (ap_gate s)) as [g x] eqn:El.
      injection E as <- <-. cbn. destruct (Nat.eqb_spec (drawn g) (drawn (ap_gate s))) as [Hd|Hd].
      * by eapply h_no_notice.
      * by eapply h_notice.
    + rewrite post_confirm_gate in E.
      destruct (Confirm.decide resolve_confirmation id (field "confirm_token" b) (default "" (field "decision" b)) (ap_gate s)) as [g [v|e]] eqn:Ed;
        injection E as <- <-; cbn [ap_gate set_gate fst snd gate_events].
      * by eapply h_decided.
      * repeat case_bool_decide; cbn [app]; by eapply h_failed.
Qed.

(** ** Approvals, from the page to the kernel *)

Definition fetches (id : string) (l : list (step K * option answer)) : nat :=
  length (List.filter (fun x => match x.1 with Request (GetConfirmation id') => String.eqb id' id | _ => false end) l).
Definition approvals (id : string) (l : list (step K * option answer)) : nat :=
  length (List.filter (fun x => match x with
                                | (Request (PostConfirm id' b), Some (Answered _)) =>
                                    String.eqb id' id && String.eqb (default "" (field "decision" b)) "approve"
                                | _ => false
                                end) l).

Lemma count_gate s o id : executed s o ->
  count (is_issue id) (ob_gate o) <= fetches id (ob_steps o) /\ count (is_approval id) (ob_gate o) = approvals id (ob_steps o).
Proof.
  induction 1 as [k h|a s o _ [IHi IHa]]; [done|]. unfold observe. destruct (do a s) as [s' r] eqn:E. cbn [ob_gate ob_steps].
  unfold count, fetches, approvals in *.
  destruct a as [| | | |[]| | | | | | | |]; cbn [gate_events List.filter fst]; try (by destruct r as [[]|]); try (destruct r as [[]|]; cbn; by auto).
  - destruct (_ =? _); cbn; destruct (String.eqb id0 id); cbn; lia.
  - destruct r as [[]|]; cbn; auto. destruct (String.eqb id0 id), (String.eqb _ "approve"); cbn; auto; split; lia.
Qed.

Lemma issued_fetched s o id t : executed s o -> Issued id t ∈ ob_gate o -> exists r, (Request (GetConfirmation id), r) ∈ ob_steps o.
Proof.
  induction 1 as [k h|a s o _ IH]; [by intros ?%elem_of_nil|]. unfold observe. destruct (do a s) as [s' r] eqn:E. cbn [ob_gate ob_steps].
  intros [Hi|Hi]%elem_of_app; [|destruct (IH Hi) as [r' Hr]; exists r'; by right].
  destruct a as [| | | |[]| | | | | | | |]; cbn [gate_events] in Hi; try (by apply elem_of_nil in Hi).
  - destruct (_ =? _); apply list_elem_of_singleton in Hi; [done|]. injection Hi as <- _. exists r. left.
  - destruct r as [[]|]; apply list_elem_of_singleton in Hi; done.
Qed.

Lemma perform_world a s : outside a = false -> (forall id b, a <> Request (PostConfirm id b)) -> world (ap_gate (do a s).1) = world (ap_gate s).
Proof.
  intros Ho Hp. destruct (gate_free a) eqn:Hf; [by rewrite gate_free_gate|].
  destruct a as [| | | |[]| | | | | | | |]; try done; [|by destruct (Hp id b)].
  rewrite perform_request, get_confirmation_gate. destruct (load_notice _ _ _ _) as [g x] eqn:El. cbn.
  by apply load_notice_cases in El as [[-> _]|[-> _]].
Qed.

(** ** Sockets and sessions *)

Context `{!Opener start_session}.

(** Requests touch the sessions and the chats only by opening one of each *)
Lemma route_sessions q s :
  let s' := (serve_request q s).1 in
  (sv_sessions (ap_server s') = sv_sessions (ap_server s) /\ ap_chats s' = ap_chats s) \/
  exists se, sv_sessions (ap_server s') = assoc_set (se_session_id se) se (sv_sessions (ap_server s)) /\
    ap_chats s' = <[se_session_id se := mkChat initial_status None]> (ap_chats s).
Proof.
  destruct q; cbn; auto.
  - unfold post_model_config, handle, on_slots. destruct (set_config _ _ _ _ _); auto.
  - unfold post_model_additional, handle, on_slots. destruct (set_additional _ _ _ _ _); auto.
  - unfold post_session, handle, on_server, mbind, st_bind.
    destruct (start_session _ _ _ _ _) as [x [se|e]] eqn:E; apply opener_sessions in E; cbn; [right|left]; eauto.
  - unfold get_session_route. destruct (session_at _ _); auto.
  - unfold get_confirmation, handle, on_gate, mbind, st_bind. destruct (load_notice _ _ _ _) as [? []]; auto.
  - unfold post_confirm, handle, on_gate, mbind, st_bind. destruct (Confirm.decide _ _ _ _ _) as [? []]; auto.
Qed.

Lemma assoc_set_is_Some {V} (k k' : string) (v : V) l : is_Some (assoc k' (assoc_set k v l)) <-> k' = k \/ is_Some (assoc k' l).
Proof.
  destruct (base.decide (k' = k)) as [->|Hn]; [rewrite assoc_set_eq|rewrite assoc_set_ne by done]; [|tauto].
  split; [auto|intros _; eexists; done].
Qed.

Definition known (sid : string) (s : App) : Prop := is_Some (session_at sid s).

(** Messages that wait for their turn or had it, and those that had it *)
Definition started (l : list (step K * option answer)) : nat :=
  length (List.filter (fun x => match x with (Message _ _, None) => true | _ => false end) l).
Definition finished (l : list (step K * option answer)) : nat :=
  length (List.filter (fun x => match x with (TurnReturns _ _, Some _) => true | _ => false end) l).

Record sound (s : App) (o : Observed K) : Prop := {
  so_chats sid : known sid s <-> is_Some (ap_chats s !! sid);
  so_status sid c : ap_chats s !! sid = Some c -> ch_status c ∈ initial_status :: "active" :: PAUSED;
  so_published sid : published sid (ob_bus o) <> [] -> known sid s;
  so_turns t sid : ap_turns s !! t = Some sid -> known sid s /\ t < ap_next_turn s;
  so_count : started (ob_steps o) = size (ap_turns s) + finished (ob_steps o);
}.

Lemma chat_status_one status : chat_status status ∈ "active" :: PAUSED.
Proof. unfold chat_status. case_bool_decide; [by right|by left]. Qed.

(** A step that is no message, no end of a turn and opens no session *)
Lemma sound_frame s s' o o' :
  sv_sessions (ap_server s') = sv_sessions (ap_server s) -> ap_chats s' = ap_chats s -> ap_turns s' = ap_turns s ->
  ap_next_turn s' = ap_next_turn s -> (forall sid, published sid (ob_bus o') <> [] -> published sid (ob_bus o) <> [] \/ known sid s) ->
  started (ob_steps o') = started (ob_steps o) -> finished (ob_steps o') = finished (ob_steps o) -> sound s o -> sound s' o'.
Proof.
  intros Hs Hc Ht Hn Hp H1 H2 I.
  assert (forall sid, known sid s' <-> known sid s) as Hk by (intros; unfold known, session_at, get_session; by rewrite Hs).
  split.
  - intros sid. rewrite Hk, Hc. apply (so_chats _ _ I).
  - rewrite Hc. apply (so_status _ _ I).
  - intros sid [Hpub|Hkn]%Hp; apply Hk; [by apply (so_published _ _ I)|done].
  - intros t sid. rewrite Hk, Ht, Hn. apply (so_turns _ _ I).
  - rewrite H1, H2, Ht. apply (so_count _ _ I).
Qed.

Lemma published_run l b h sid :
  published sid (run_actions l (b, h)).2 <> [] -> published sid h <> [] \/ exists ev, APublish sid ev ∈ l.
Proof.
  revert b h. induction l as [|a l IH]; intros b h Hp; [by left|]. cbn in Hp. apply IH in Hp as [Hp|(ev & Hev)]; [|right; exists ev; by right].
  destruct a as [|sid'|sid' q|sid' ev'| |q|]; try (by left); unfold note in Hp.
  - unfold published in Hp. cbn in Hp. destruct (base.decide (sid' = sid)) as [->|Hn]; [right; exists ev'; left|].
    rewrite lookup_insert_ne in Hp by done. by left.
  - destruct (Events.get q b).2; by left.
Qed.

Lemma publishes_known a s o sid ev : sound s o -> APublish sid ev ∈ bus_actions a s -> known sid s.
Proof.
  intros I. destruct a as [| | | |q|sid' b|t k|t ev'|t [r|e]|sid'|q sent|q|k]; cbn; try (by intros ?%elem_of_nil); try (by intros ?%list_elem_of_singleton).
  - unfold known. destruct (session_at sid' s) eqn:E, (assoc "text" b); try (by intros ?%elem_of_nil).
    intros [= -> _]%list_elem_of_singleton. by rewrite E.
  - destruct (ap_turns s !! t) eqn:E; [|by intros ?%elem_of_nil]. intros [= -> _]%list_elem_of_singleton. by apply (so_turns _ _ I) in E as [? _].
  - destruct (ap_turns s !! t) eqn:E; [|by intros ?%elem_of_nil]. intros [= -> _]%list_elem_of_singleton. by apply (so_turns _ _ I) in E as [? _].
  - destruct (ap_sockets s !! q), (queue q (ap_bus s)); try (by intros ?%elem_of_nil). destruct sent; set_solver.
  - destruct (ap_sockets s !! q); [|by intros ?%elem_of_nil]. by intros ?%list_elem_of_singleton.
Qed.

(** The fields that a step other than a request, a message and the end of a turn keeps *)
Definition plain (a : step K) : bool := match a with Request _ | Message _ _ | TurnReturns _ _ => false | _ => true end.

Lemma plain_kept a s : plain a = true ->
  let s' := (do a s).1 in
  ap_server s' = ap_server s /\ ap_chats s' = ap_chats s /\ ap_turns s' = ap_turns s /\ ap_next_turn s' = ap_next_turn s.
Proof.
  destruct a as [| | | |q|sid b|t k|t ev|t o|sid|q sent|q|k]; try done; intros _; cbv zeta.
  - cbn. unfold turn_writes. by destruct (ap_turns s !! t).
  - cbn. unfold turn_traces. by destruct (ap_turns s !! t).
  - cbn [perform fst snd]. unfold ws_accept. by destruct (subscribe sid (ap_bus s)).
  - cbn. unfold ws_push, ws_close. destruct (ap_sockets s !! q) eqn:E; [|done]. destruct (Events.get q (ap_bus s)) as [? [|]]; [|done].
    destruct sent; [done|]. cbn. by rewrite E.
  - cbn. unfold ws_close. by destruct (ap_sockets s !! q).
Qed.

Lemma observe_parts a s o :
  observe a s o = mkObserved ((a, (do a s).2) :: ob_steps o) (run_actions (bus_actions a s) (ap_bus s, ob_bus o)).2
    (gate_events a s (do a s).1 (do a s).2 ++ ob_gate o).
Proof. unfold observe. by destruct (do a s). Qed.

Lemma observe_published a s o sid : sound s o -> published sid (ob_bus (observe a s o)) <> [] -> published sid (ob_bus o) <> [] \/ known sid s.
Proof.
  intros I. rewrite observe_parts. intros [Hp|(ev & Hev)]%published_run; [by left|right]. by eapply publishes_known.
Qed.

Lemma sound_request q s o : sound s o -> sound (do (Request q) s).1 (observe (Request q) s o).
Proof.
  intros I. pose proof (fun sid => observe_published (Request q) s o sid I) as Hp. pose proof (route_kept q s) as Hk.
  destruct (route_sessions q s) as [[Hs Hc]|(se & Hs & Hc)]; rewrite perform_request in *; cbn [fst] in *.
  - eapply sound_frame; [exact Hs|exact Hc|apply Hk|apply Hk|exact Hp|by rewrite observe_parts|by rewrite observe_parts|exact I].
  - assert (forall sid, known sid (serve_request q s).1 <-> sid = se_session_id se \/ known sid s) as Hkn.
    { intros sid. unfold known, session_at, get_session. rewrite Hs. apply assoc_set_is_Some. }
    split.
    + intros sid. rewrite Hkn, Hc. destruct (base.decide (sid = se_session_id se)) as [->|Hn].
      * rewrite lookup_insert_eq. split; [intros _; eexists; done|by left].
      * rewrite lookup_insert_ne by done. rewrite <- (so_chats _ _ I). tauto.
    + intros sid c. rewrite Hc. intros [[_ <-]|[_ H']]%lookup_insert_Some; [left|by apply (so_status _ _ I) in H'].
    + intros sid Hpub. apply Hkn. apply Hp in Hpub as [Hpub|?]; right; [by apply (so_published _ _ I)|done].
    + intros t sid. rewrite (k_turns _ _ Hk), (k_next _ _ Hk), Hkn. intros H'%(so_turns _ _ I). tauto.
    + rewrite observe_parts, (k_turns _ _ Hk). apply (so_count _ _ I).
Qed.

Lemma sound_message sid b s o : sound s o -> sound (do (Message sid b) s).1 (observe (Message sid b) s o).
Proof.
  intros I. pose proof (fun sid' => observe_published (Message sid b) s o sid' I) as Hp. revert Hp. rewrite observe_parts. cbn [perform fst].
  unfold post_message. destruct (session_at sid s) as [se|] eqn:Es; [|intros Hp; by eapply sound_frame].
  destruct (assoc "text" b) as [text|] eqn:Et; [|intros Hp; by eapply sound_frame].
  cbn [fst snd]. intros Hp. assert (ap_turns s !! ap_next_turn s = None) as Hfresh.
  { destruct (ap_turns s !! ap_next_turn s) eqn:E; [|done]. apply (so_turns _ _ I) in E as [_ ?]. lia. }
  split; cbn [ap_chats ap_turns ap_next_turn set_turns publish_to set_bus ob_steps ob_bus].
  - apply (so_chats _ _ I).
  - apply (so_status _ _ I).
  - intros sid' [Hpub|?]%Hp; [by apply (so_published _ _ I)|done].
  - intros t sid' [[<- <-]|[_ H']]%lookup_insert_Some; [split; [by eexists|lia]|]. apply (so_turns _ _ I) in H' as [? ?]. split; [done|lia].
  - rewrite map_size_insert_None by done. pose proof (so_count _ _ I) as Hc. unfold started, finished in *. cbn. lia.
Qed.

Lemma sound_returns t r s o : sound s o -> sound (do (TurnReturns t r) s).1 (observe (TurnReturns t r) s o).
Proof.
  intros I. pose proof (fun sid' => observe_published (TurnReturns t r) s o sid' I) as Hp. revert Hp. rewrite observe_parts. cbn [perform fst].
  unfold turn_returns. destruct (ap_turns s !! t) as [sid|] eqn:Et; [|intros Hp; by eapply sound_frame].
  destruct (so_turns _ _ I _ _ Et) as [Hsid _]. pose proof (so_count _ _ I) as Hc.
  assert (size (ap_turns s) = S (size (delete t (ap_turns s)))) as Hsize.
  { rewrite map_size_delete_Some by (by eexists). assert (size (ap_turns s) <> 0); [|lia]. eapply map_size_ne_0_lookup_2; eexists; exact Et. }
  assert (forall sid', is_Some (ap_chats s !! sid') <-> known sid' s) as Hchats by (intros; by rewrite (so_chats _ _ I)).
  destruct r as [r|e]; cbn [fst snd]; intros Hp;
    (split; cbn [ap_chats ap_turns ap_next_turn set_turns publish_to set_bus set_chats ob_steps ob_bus]).
  - intros sid'. destruct (base.decide (sid' = sid)) as [->|Hn]; [|rewrite lookup_insert_ne by done; apply (so_chats _ _ I)].
    rewrite lookup_insert_eq. split; [intros _; by eexists|by intros _].
  - intros sid' c [[_ <-]|[_ H']]%lookup_insert_Some; [right; apply chat_status_one|by apply (so_status _ _ I) in H'].
  - intros sid' [Hpub|?]%Hp; [by apply (so_published _ _ I)|done].
  - intros t' sid' [_ H']%lookup_delete_Some. by apply (so_turns _ _ I) in H'.
  - unfold started, finished in *. cbn. lia.
  - apply (so_chats _ _ I).
  - apply (so_status _ _ I).
  - intros sid' [Hpub|?]%Hp; [by apply (so_published _ _ I)|done].
  - intros t' sid' [_ H']%lookup_delete_Some. by apply (so_turns _ _ I) in H'.
  - unfold started, finished in *. cbn. lia.
Qed.

Lemma executed_sound s o : executed s o -> sound s o.
Proof.
  induction 1 as [k h|a s o _ I].
  - split; cbn.
    + intros sid. rewrite lookup_empty. unfold known, session_at, get_session. cbn. by split; intros [? [=]].
    + intros sid c. by rewrite lookup_empty.
    + done.
    + intros t sid. by rewrite lookup_empty.
    + by rewrite map_size_empty.
  - destruct (plain a) eqn:Hpl.
    + destruct (plain_kept a s Hpl) as (Hs & Hc & Ht & Hn).
      eapply sound_frame; [by rewrite Hs|exact Hc|exact Ht|exact Hn|intros sid; by apply observe_published|..|exact I];
        rewrite observe_parts; unfold started, finished; by destruct a.
    + destruct a; try done; [by apply sound_request|by apply sound_message|by apply sound_returns].
Qed.

(** The open sockets are the subscribers of the bus *)
Definition matched (s : App) : Prop := forall q sid, ap_sockets s !! q = Some sid <-> subscribed (ap_bus s) q sid.

Lemma matched_same s s' :
  ap_sockets s' = ap_sockets s -> b_subs (ap_bus s') = b_subs (ap_bus s) -> b_sets (ap_bus s') = b_sets (ap_bus s) -> matched s -> matched s'.
Proof. intros H1 H2 H3 Hm q sid. rewrite H1, (Hm q sid). symmetry. by apply subscribed_same. Qed.

Lemma matched_publish sid ev s : matched s -> matched (publish_to sid ev s).
Proof. apply matched_same; [done|..]; cbn; unfold publish; repeat case_match; done. Qed.

Lemma matched_close q s h : inv (ap_bus s) h -> matched s -> matched (ws_close q s).
Proof.
  intros I Hm. unfold ws_close. destruct (ap_sockets s !! q) as [sid0|] eqn:E; [|done].
  intros q' sid. cbn. rewrite lookup_delete_Some, (Hm q' sid), (subscribed_unsubscribe _ _ _ _ _ _ I). split.
  - intros [Hn ?]. split; [done|]. by intros [-> _].
  - intros [Hs Hn]. split; [|done]. intros <-. apply Hn. split; [done|]. apply Hm in Hs. congruence.
Qed.

Lemma matched_accept sid s h : inv (ap_bus s) h -> matched s -> matched (ws_accept sid s).
Proof.
  intros I Hm. unfold ws_accept. rewrite (surjective_pairing (subscribe sid (ap_bus s))). intros q' sid'.
  cbn [ap_sockets ap_bus set_sockets set_bus]. rewrite (subscribed_subscribe _ _ _ _ _ I), <- (Hm q' sid').
  replace (subscribe sid (ap_bus s)).2 with (b_next_queue (ap_bus s)) by (unfold subscribe; cbn; by destruct (subs_of _ _)).
  destruct (base.decide (b_next_queue (ap_bus s) = q')) as [<-|Hn]; [|rewrite lookup_insert_ne by done; naive_solver].
  rewrite lookup_insert_eq. split; [intros [= <-]; by right|]. intros [Hs|[_ ->]]; [|done].
  apply Hm in Hs as (r & _ & Hq). apply (i_members _ _ I) in Hq as (sid1 & Hq & _). apply (i_queue _ _ I) in Hq. lia.
Qed.

Lemma executed_sockets s o : executed s o -> matched s.
Proof.
  induction 1 as [k h|a s o Hx IH].
  - intros q sid. cbn. split; [by intros ?%lookup_empty_Some|]. intros (r & Hr & _). discriminate Hr.
  - apply executed_bus, bus_reachable_inv in Hx as I. destruct a as [| | | |q|sid b|t k|t ev|t r|sid|q sent|q|k].
    + by apply (matched_same s).
    + cbn. apply (matched_same s); try done; cbn; unfold close_loop; by case_match.
    + cbn. apply (matched_same s); try done; cbn; unfold run_callback; by repeat case_match.
    + by apply (matched_same s).
    + rewrite perform_request. cbn [fst]. apply (matched_same s); [apply route_kept|by rewrite (k_bus _ _ (route_kept q s))..|done].
    + cbn. unfold post_message. destruct (session_at sid s), (assoc "text" b) as [text|]; try done.
      by apply (matched_same (publish_to sid (turn_start text) s)), matched_publish.
    + cbn. unfold turn_writes. by destruct (ap_turns s !! t); [apply (matched_same s)|].
    + cbn. unfold turn_traces. destruct (ap_turns s !! t); [by apply matched_publish|done].
    + cbn. unfold turn_returns. destruct (ap_turns s !! t); [|done]. destruct r; [apply matched_publish|]; by apply (matched_same s).
    + by eapply matched_accept.
    + cbn. unfold ws_push. destruct (ap_sockets s !! q); [|done]. pose proof (inv_get q _ _ I) as I'.
      assert (b_subs (Events.get q (ap_bus s)).1 = b_subs (ap_bus s) /\ b_sets (Events.get q (ap_bus s)).1 = b_sets (ap_bus s)) as [H1 H2]
        by (unfold Events.get; by destruct (queue q (ap_bus s))).
      destruct (Events.get q (ap_bus s)) as [bus [ev|]]; [|done]. cbn [fst] in *.
      destruct sent; [by apply (matched_same s)|]. eapply (matched_close q (set_bus bus s)); [exact I'|by apply (matched_same s)].
    + by eapply matched_close.
    + by apply (matched_same s).
Qed.

(** C4. The server as a whole keeps its books, whatever the order of requests, messages,
    turns, callbacks and sockets.  The subscribers of the bus are exactly the open
    sockets, so none is left behind and none is missed; what a socket was sent and has
    waiting is, in order, part of what was published to its session; sessions and chats
    come in pairs, a chat's status is one the page knows, nothing is published to or runs
    for a session that was not opened; and every accepted message is in flight or was
    answered. *)
Theorem server_keeps_books s o :
  executed s o ->
  (forall q sid, ap_sockets s !! q = Some sid <-> exists r, b_subs (ap_bus s) !! sid = Some r /\ q ∈ members r (ap_bus s)) /\
  (forall q sid, ap_sockets s !! q = Some sid -> sublist (got q (ob_bus o) ++ queue q (ap_bus s)) (published sid (ob_bus o))) /\
  (forall sid, is_Some (session_at sid s) <-> is_Some (ap_chats s !! sid)) /\
  (forall sid c, ap_chats s !! sid = Some c -> ch_status c ∈ initial_status :: "active" :: PAUSED) /\
  (forall sid, published sid (ob_bus o) <> [] -> is_Some (session_at sid s)) /\
  (forall t sid, ap_turns s !! t = Some sid -> is_Some (session_at sid s)) /\
  started (ob_steps o) = size (ap_turns s) + finished (ob_steps o).
Proof.
  intros Hx. pose proof (executed_sockets _ _ Hx) as Hm. pose proof (executed_sound _ _ Hx) as S.
  apply executed_bus, bus_reachable_inv in Hx as I. split_and!; try apply S.
  - exact Hm.
  - intros q sid Hq. apply Hm in Hq as (r & Hr%(i_subs _ _ I) & Hq). apply (i_members _ _ I) in Hq as (sid' & Hq & Hr').
    assert (sid' = sid) as -> by congruence. etrans; [|apply (i_order _ _ I q sid Hq)]. rewrite app_assoc. by apply sublist_inserts_r.
Qed.

(** C5. Approving takes reading, from the page to the kernel.  Of all the server's steps,
    the kernel's records are changed only by a turn, by another process, or by a decision
    that rejects or that carries the token outstanding for that very action, which was
    drawn by an earlier request for its notice and not spent since; and no action is
    approved more often than its notice was requested. *)
Theorem approval_takes_reading s o a :
  executed s o ->
  (world (ap_gate (do a s).1) = world (ap_gate s) \/ outside a = true \/
   exists id b, a = Request (PostConfirm id b) /\
     (field "decision" b = Some "reject" \/
      field "decision" b = Some "approve" /\ exists t r, field "confirm_token" b = Some t /\ t <> "" /\
        outstanding (ob_gate o) id = Some t /\ (Request (GetConfirmation id), r) ∈ ob_steps o)) /\
  (forall id, approvals id (ob_steps o) <= fetches id (ob_steps o)).
Proof.
  intros Hx. destruct (executed_gate _ _ Hx) as [g0 Hh]. split.
  - destruct (outside a) eqn:Ho; [auto|]. destruct a as [| | | |[]| | | | | | | |] eqn:Ea; try (left; by apply perform_world).
    rewrite perform_request, post_confirm_gate. cbn [fst set_gate ap_gate].
    destruct (Confirm.decide resolve_confirmation id (field "confirm_token" b) (default "" (field "decision" b)) (ap_gate s)) as [g v] eqn:Ed.
    apply decide_cases in Ed as [[-> _]|[Hd _]]; [by left|]. right; right. exists id, b. split; [done|].
    destruct (field "decision" b) as [d|]; cbn in Hd; [|by destruct Hd as [?|[? _]]].
    destruct Hd as [->|(-> & t & Ht & Hne & Hl)]; [by left|right]. split; [done|].
    rewrite (history_tokens _ _ _ _ _ _ id Hh) in Hl. destruct (issued_fetched _ _ id t Hx) as [r Hr]; [by apply outstanding_issued|]. eauto 8.
  - intros id. destruct (count_gate _ _ id Hx) as [Hi <-]. pose proof (count_history _ _ _ _ _ _ id Hh). lia.
Qed.

(** ** Refusals *)

Lemma refuse_one c e code detail : refuse [c] e = Refused code detail -> exn_class e ∈ cl_on c /\ code = cl_status c /\ detail = cl_detail c e.
Proof. cbn. case_bool_decide; [|done]. by intros [= <- <-]. Qed.

Lemma load_notice_missing id g g' e :
  load_notice load_request token_urlsafe id g = (g', Raise e) -> exn_class e = "FileNotFoundError" -> g' = g.
Proof.
  unfold load_notice, mbind, st_bind, st_gets, st_lift, issue_token. destruct (load_request id (world g)) as [p|e'];
    [|by intros [= <- _]]. cbn. destruct p; cbn; by intros [= <- <-].
Qed.

(** The words of a decision *)
Definition DECISIONS : list string := ["approve"; "reject"].

(** A token that does not approve: none given, none outstanding, an empty one or another *)
Definition wrong_token (token out : option string) : Prop :=
  match token, out with Some t, Some u => t <> u \/ t = "" | _, _ => True end.

(** What [secrets.compare_digest] compares without a [TypeError], or is not asked about *)
Definition comparable_tokens (token out : option string) : bool :=
  match token, out with Some t, Some u => negb (truthy u && truthy t) || ascii_only u && ascii_only t | _, _ => true end.

(** A decision that is carried out *)
Definition permitted (id : string) (token : option string) (decision : string) (s : App) : Prop :=
  decision = "reject" \/
  decision = "approve" /\ exists t, token = Some t /\ t <> "" /\ ascii_only t = true /\ tokens (ap_gate s) !! id = Some t.

(** What carrying the decision out gives *)
Definition resolution (id decision : string) (s : App) : res Status :=
  (resolve_confirmation id (String.eqb decision "approve") (world (ap_gate s))).2.

(** Why a decision is refused: it is neither word or its token is wrong, and nothing
    changed; or it was carried out and raised one of the two answered exceptions *)
Definition decision_refused (id : string) (token : option string) (decision : string) (s s' : App) (code : Z) (detail : string) : Prop :=
  code = 403%Z /\ s' = s /\ (decision ∉ DECISIONS \/ decision = "approve" /\ wrong_token token (tokens (ap_gate s) !! id)) \/
  permitted id token decision s /\ exists e, resolution id decision s = Raise e /\
    (code = 403%Z /\ exn_class e = "ApprovalError" /\ detail = exn_msg e \/
     code = 404%Z /\ exn_class e = "FileNotFoundError" /\ detail = "confirmation not found").

(** What a refusal means, by the route *)
Definition refusal_reason (a : step K) (s s' : App) (code : Z) (detail : string) : Prop :=
  match a with
  | Request (PostModelConfig b) => code = 400%Z /\ exists x, field "backend" b = Some x /\ x ∉ MAIN_BACKENDS
  | Request (PostModelAdditional b) => code = 400%Z /\ exists x, field "backend" b = Some x /\ x ∉ ADDITIONAL_BACKENDS
  | Request (PostSession b) => code = 400%Z /\ exists e, exn_class e ∈ VALUE_ERRORS /\ detail = exn_msg e /\
      (start_session (field_or_none "project_path" b) (field "project_id" b) (field_or_none "audit_path" b)
        (field_or_none "repo_url" b) (ap_server s)).2 = Raise e
  | Request (GetSession sid) | Message sid _ => code = 404%Z /\ session_at sid s = None /\ s' = s
  | Request (GetConfirmation id) => code = 404%Z /\ s' = s /\
      exists e, load_request id (world (ap_gate s)) = Raise e /\ exn_class e = "FileNotFoundError"
  | Request (PostConfirm id b) => decision_refused id (field "confirm_token" b) (default "" (field "decision" b)) s s' code detail
  | _ => False
  end.

Lemma decide_raises id token decision s g e :
  Confirm.decide resolve_confirmation id token decision (ap_gate s) = (g, Raise e) ->
  g = ap_gate s /\ exn_class e = "ApprovalError" /\ (decision ∉ DECISIONS \/ decision = "approve" /\ wrong_token token (tokens (ap_gate s) !! id)) \/
  g = ap_gate s /\ exn_class e = "TypeError" \/
  permitted id token decision s /\ resolution id decision s = Raise e.
Proof.
  unfold Confirm.decide, resolution, DECISIONS. destruct (bool_decide_reflect (decision ∈ ["approve"; "reject"])) as [Hd|Hd]; cbn [negb]; [|intros [= <- <-]; auto 6].
  destruct (String.eqb_spec decision "approve") as [->|Hna].
  - unfold valid, permitted, wrong_token. destruct (tokens (ap_gate s) !! id) as [u|] eqn:Hu; [|intros [= <- <-]; destruct token; auto 8].
    destruct token as [t|]; [|intros [= <- <-]; auto 8].
    destruct u as [|c u]; [intros [= <- <-]; left; split_and!; [done..|]; right; split; [done|]; destruct t; auto|].
    destruct t as [|c' t]; [intros [= <- <-]; auto 8|]. cbn [truthy andb]. unfold compare_digest.
    destruct (ascii_only (String c u) && ascii_only (String c' t)) eqn:Ha; [|intros [= <- <-]; auto 8]. apply andb_true_iff in Ha as [_ Ha].
    destruct (String.eqb_spec (String c u) (String c' t)) as [E|E]; [|intros [= <- <-]; left; split_and!; [done..|]; right; split; [done|]; left; congruence].
    destruct (resolve_confirmation _ _ _) as [w [st|e']]; intros [= <- <-]. right; right. split; [|done]. right. split; [done|].
    exists (String c' t). rewrite E. done.
  - apply elem_of_cons in Hd as [->|Hd%list_elem_of_singleton]; [done|]. unfold permitted.
    destruct (resolve_confirmation _ _ _) as [w [st|e']]; intros [= <- <-]. auto.
Qed.

Lemma load_notice_raises id g g' e :
  load_notice load_request token_urlsafe id g = (g', Raise e) -> exn_class e = "FileNotFoundError" -> load_request id (world g) = Raise e.
Proof.
  unfold load_notice, mbind, st_bind, st_gets, st_lift, issue_token. destruct (load_request id (world g)) as [p|e'];
    [|by intros [= _ <-]]. cbn. destruct p; cbn; by intros [= _ <-].
Qed.

Lemma route_refused q s code detail :
  (serve_request q s).2 = Refused code detail -> refusal_reason (Request q) s (serve_request q s).1 code detail.
Proof.
  destruct q; try done.
  - cbn. unfold health, handle. by destruct (available net _).
  - cbn. unfold post_model_config, handle, on_slots, set_config.
    pose proof (apply_config_spec MAIN_BACKENDS (field "endpoint" b) (field "model" b) (field "backend" b) (field "paid_key" b) (CONFIG (ap_slots s)))
      as (_ & _ & Hr). destruct (apply_config _ _ _ _ _ _) as [c [v|e]]; [done|]. intros [_ [-> _]]%refuse_one. by destruct (Hr e eq_refl).
  - cbn. unfold post_model_additional, handle, on_slots, set_additional.
    pose proof (apply_config_spec ADDITIONAL_BACKENDS (field "endpoint" b) (field "model" b) (field "backend" b) (field "paid_key" b)
      (ADDITIONAL (ap_slots s))) as (_ & _ & Hr).
    destruct (apply_config _ _ _ _ _ _) as [c [v|e]]; [done|]. intros [_ [-> _]]%refuse_one. by destruct (Hr e eq_refl).
  - cbn. unfold post_session, handle, on_server, mbind, st_bind. destruct (start_session _ _ _ _ _) as [x [se|e]]; [done|].
    intros (Hc & -> & ->)%refuse_one. eauto.
  - cbn. unfold get_session_route. destruct (session_at sid s) eqn:E; [done|]. by intros [= <- _].
  - cbn. unfold list_confirmations, handle. by destruct (list_pending _).
  - rewrite get_confirmation_gate. cbn [fst snd refusal_reason]. destruct (load_notice _ _ _ _) as [g [n|e]] eqn:El; [done|].
    intros (Hc%list_elem_of_singleton & -> & _)%refuse_one. rewrite (load_notice_missing _ _ _ _ El Hc). split; [done|].
    split; [by destruct s|]. exists e. split; [by eapply load_notice_raises|done].
  - rewrite post_confirm_gate. cbn [fst snd refusal_reason]. destruct (Confirm.decide _ _ _ _ _) as [g [v|e]] eqn:Ed; [done|].
    apply decide_raises in Ed. cbn. unfold decision_refused. destruct Ed as [(-> & Hc & Hr)|[(-> & Hc)|[Hp Hr]]].
    + rewrite Hc. cbn. intros [= <- _]. left. split_and!; [done|by destruct s|done].
    + by rewrite Hc.
    + case_bool_decide as Hc; [|case_bool_decide as Hc'; [|done]]; intros [= <- <-]; right; (split; [done|]); exists e; (split; [done|]); [left|right];
        (split; [done|]); split; try done; by apply list_elem_of_singleton.
Qed.

Lemma decide_refused id token decision g g' e :
  Confirm.decide resolve_confirmation id token decision g = (g', Raise e) -> tokens g' = tokens g /\ drawn g' = drawn g.
Proof. by intros [[-> _]|(_ & w & _ & ->)]%decide_cases. Qed.

(** A refused request leaves the tokens, the sessions and the chats *)
Lemma refused_keeps q s code detail :
  let s' := (serve_request q s).1 in
  (serve_request q s).2 = Refused code detail ->
  tokens (ap_gate s') = tokens (ap_gate s) /\ drawn (ap_gate s') = drawn (ap_gate s) /\
  sv_sessions (ap_server s') = sv_sessions (ap_server s) /\ ap_chats s' = ap_chats s.
Proof.
  cbv zeta. intros Hr. destruct (gate_free (Request q)) eqn:Hf.
  - destruct (gate_free_tokens _ s Hf) as [Ht Hd]. rewrite perform_request in Ht, Hd. do 2 (split; [done|]).
    destruct q; try done; revert Hr; cbn.
    + unfold post_model_config, handle, on_slots. by destruct (set_config _ _ _ _ _).
    + unfold post_model_additional, handle, on_slots. by destruct (set_additional _ _ _ _ _).
    + unfold post_session, handle, on_server, mbind, st_bind. destruct (start_session _ _ _ _ _) as [x [se|e]] eqn:E; [done|].
      by apply opener_sessions in E.
    + unfold get_session_route. by destruct (session_at _ _).
  - apply route_refused in Hr as Hreason. destruct q; try done.
    + by destruct Hreason as (_ & -> & _).
    + revert Hr. rewrite post_confirm_gate. cbn [fst snd]. destruct (Confirm.decide _ _ _ _ _) as [g [v|e]] eqn:Ed; [done|].
      intros _. destruct (decide_refused _ _ _ _ _ _ Ed) as [Ht Hd]. by split_and!.
Qed.

(** The three ways a decision goes *)
Lemma decide_refuses id token decision (s : App) :
  decision ∉ DECISIONS \/ decision = "approve" /\ wrong_token token (tokens (ap_gate s) !! id) /\ comparable_tokens token (tokens (ap_gate s) !! id) = true ->
  exists msg, Confirm.decide resolve_confirmation id token decision (ap_gate s) = (ap_gate s, Raise (approval_error msg)).
Proof.
  unfold Confirm.decide, DECISIONS. intros [Hd|(-> & Hw & Hc)]; [rewrite bool_decide_false by done; by eexists|].
  rewrite bool_decide_true by (by left). cbn [negb String.eqb]. replace (valid id token (ap_gate s)) with (@Ok bool false); [by eexists|].
  unfold valid, wrong_token, comparable_tokens in *. destruct (tokens (ap_gate s) !! id) as [u|]; [|done]. destruct token as [t|]; [|done].
  destruct (truthy u && truthy t) eqn:Et; [|done]. cbn [negb orb] in Hc. unfold compare_digest. rewrite Hc. f_equal. symmetry. apply String.eqb_neq.
  destruct Hw as [Hw| ->]; [congruence|]. by rewrite andb_comm in Et.
Qed.

Lemma decide_permitted id token decision (s : App) :
  permitted id token decision s ->
  Confirm.decide resolve_confirmation id token decision (ap_gate s) =
    (let '(w, r) := resolve_confirmation id (String.eqb decision "approve") (world (ap_gate s)) in
     match r with
     | Raise e => (mkGate (tokens (ap_gate s)) (drawn (ap_gate s)) w, Raise e)
     | Ok status => (mkGate (delete id (tokens (ap_gate s))) (drawn (ap_gate s)) w, Ok status)
     end).
Proof.
  unfold Confirm.decide. intros [->|(-> & t & -> & Hne & Ha & Ht)]; [rewrite bool_decide_true by (by right; left); done|].
  rewrite bool_decide_true by (by left). cbn [negb]. unfold valid. rewrite Ht. destruct t as [|c t]; [done|]. cbn [truthy andb].
  unfold compare_digest. rewrite Ha. cbn [andb]. rewrite (String.eqb_refl (String c t)). reflexivity.
Qed.

Lemma decide_crashes id token (s : App) :
  comparable_tokens token (tokens (ap_gate s) !! id) = false ->
  exists e, Confirm.decide resolve_confirmation id token "approve" (ap_gate s) = (ap_gate s, Raise e) /\ exn_class e = "TypeError".
Proof.
  unfold comparable_tokens, Confirm.decide, valid. rewrite bool_decide_true by (by left). cbn [negb String.eqb].
  destruct token as [t|], (tokens (ap_gate s) !! id) as [u|]; try done. intros [Ht%negb_false_iff Ha]%orb_false_iff. rewrite Ht.
  unfold compare_digest. rewrite Ha. by eexists.
Qed.

(** C17. Every refusal has its reason, every reason its refusal, and the books are left
    alone.  Only a 400 answers a backend that the slot does not have or a session manager's
    ValueError, only a 404 an unknown session, or an action whose request is not on file.
    A decision is refused with a 403 when it is neither word, or an approval without the
    outstanding token, and then nothing at all changed; once it is permitted, with a 403
    when carrying it out raised an ApprovalError and a 404 when it raised a
    FileNotFoundError.  Whichever it is, the tokens, the sessions, the chats, the bus, the
    sockets, the turns and the heartbeat stay.  And a token that is not ASCII where one is
    outstanding is not refused but a TypeError, the server's 500, and changes nothing. *)
Theorem refusals_have_reasons s a :
  (forall code detail, (do a s).2 = Some (Refused code detail) ->
     let s' := (do a s).1 in
     refusal_reason a s s' code detail /\ kept s s' /\
     tokens (ap_gate s') = tokens (ap_gate s) /\ drawn (ap_gate s') = drawn (ap_gate s) /\
     sv_sessions (ap_server s') = sv_sessions (ap_server s) /\ ap_chats s' = ap_chats s) /\
  (forall sid b, a = Request (GetSession sid) \/ a = Message sid b -> session_at sid s = None ->
     do a s = (s, Some (Refused 404 "session not found"))) /\
  (forall id e, a = Request (GetConfirmation id) -> load_request id (world (ap_gate s)) = Raise e -> exn_class e = "FileNotFoundError" ->
     do a s = (s, Some (Refused 404 "confirmation not found"))) /\
  (forall id b, a = Request (PostConfirm id b) ->
     let token := field "confirm_token" b in let decision := default "" (field "decision" b) in let out := tokens (ap_gate s) !! id in
     (decision ∉ DECISIONS \/ decision = "approve" /\ wrong_token token out /\ comparable_tokens token out = true ->
        (do a s).1 = s /\ exists detail, (do a s).2 = Some (Refused 403 detail)) /\
     (permitted id token decision s -> forall e, resolution id decision s = Raise e -> exn_class e = "FileNotFoundError" ->
        (do a s).2 = Some (Refused 404 "confirmation not found")) /\
     (decision = "approve" -> comparable_tokens token out = false ->
        (do a s).1 = s /\ exists e, (do a s).2 = Some (Crashed e) /\ exn_class e = "TypeError")).
Proof.
  split; [|split; [|split]].
  - intros code detail Hr. cbv zeta. destruct a as [| | | |q|sid b| | |t o| | | |]; try done.
    + rewrite perform_request in *. cbn [fst snd] in *. injection Hr as Hr.
      split; [by apply route_refused|]. split; [apply route_kept|by eapply refused_keeps].
    + revert Hr. cbn. unfold post_message, no_session. destruct (session_at sid s) eqn:E; [by destruct (assoc "text" b)|].
      intros [= <- _]. done.
    + revert Hr. cbn. unfold turn_returns. destruct (ap_turns s !! t); [|done]. by destruct o.
  - intros sid b [-> | ->] Hs; cbn; unfold get_session_route, post_message; by rewrite Hs.
  - intros id e -> Hl Hc. rewrite perform_request, get_confirmation_gate. unfold load_notice, mbind, st_bind, st_gets, st_lift. rewrite Hl. cbn.
    rewrite Hc. cbn. by destruct s.
  - intros id b ->. cbv zeta. rewrite perform_request, post_confirm_gate. split_and!.
    + intros Hbad%decide_refuses. destruct Hbad as [msg ->]. split; [by destruct s|by eexists].
    + intros Hp e Hr Hc. rewrite (decide_permitted _ _ _ _ Hp). unfold resolution in Hr.
      destruct (resolve_confirmation _ _ _) as [w r]. cbn in Hr. subst r. cbn. by rewrite Hc.
    + intros Hd Ha. rewrite Hd. destruct (decide_crashes _ _ _ Ha) as [e [-> Hc]]. split; [by destruct s|]. exists e. cbn. by rewrite Hc.
Qed.
End observed.

(** ** Executions of a small server *)

Definition demo_status (b : bool) : string := if b then "approved" else "rejected".
Definition demo_queue (_ : list (string * bool)) : option Listing :=
  Some [("c-1", Some (bq "{`confirmation_id`: `c-1`, `action_type`: `write_poc`, `status`: `pending`}")); ("x", Some "[]")].
Definition demo_open (project_path project_id audit_path repo_url : option string) : ST (Server nat) Session :=
  Operator.start any_host names temps git_ok (fun _ => false) demo_disk Ok ["/"; "agent"] ["/"; "ws"] "" names (mret tt)
    project_path project_id audit_path repo_url.

Definition demo_executed : App (list (string * bool)) nat -> Observed (list (string * bool)) -> Prop :=
  executed "http://localhost" ["gemini"] ["glm"] (fun _ => "model") demo_status demo_load demo_resolve demo_token demo_queue
    (fun _ _ _ => []) (fun _ _ _ _ => "") "active" (fun s => s) demo_open.
Definition demo_do : step (list (string * bool)) -> App (list (string * bool)) nat -> App (list (string * bool)) nat * option answer :=
  perform ["gemini"] ["glm"] (fun _ => "model") demo_status demo_load demo_resolve demo_token demo_queue
    (fun _ _ _ => []) (fun _ _ _ _ => "") "active" (fun s => s) demo_open.
Definition demo_observe : step (list (string * bool)) -> App (list (string * bool)) nat -> Observed (list (string * bool)) -> Observed (list (string * bool)) :=
  observe ["gemini"] ["glm"] (fun _ => "model") demo_status demo_load demo_resolve demo_token demo_queue
    (fun _ _ _ => []) (fun _ _ _ _ => "") "active" (fun s => s) demo_open.

Definition demo_run (l : list (step (list (string * bool)))) : App (list (string * bool)) nat * Observed (list (string * bool)) :=
  foldl (fun x a => ((demo_do a x.1).1, demo_observe a x.1 x.2)) (initial "http://localhost" [] 0, mkObserved [] empty_history []) l.

Lemma demo_run_executed l : demo_executed (demo_run l).1 (demo_run l).2.
Proof.
  unfold demo_run. induction l as [|a l IH] using rev_ind; [apply exec_start|]. rewrite foldl_app. by apply exec_step.
Qed.

Definition demo_result (status : string) (pending : option string) : TurnResult :=
  mkResult status (PStr "answer") None pending PNone PNone (PList []).

(** A session, an observer, a message, its turn that traces one event and then pauses *)
Definition demo_paused : list (step (list (string * bool))) :=
  [Startup; Request (PostSession [("project_path", Some "/t")]); Accept "w0"; Message "w0" [("text", Some "hello")]; Callback;
   Push 0 (Ok tt); TurnTraces 0 (PStr "tool"); TurnReturns 0 (Ok (demo_result "paused_confirmation" (Some "c-1"))); Callback; Callback].

Lemma server_keeps_books_witness :
  (got 0 (ob_bus (demo_run demo_paused).2), queue 0 (ap_bus (demo_run demo_paused).1)) =
    ([turn_start (Some "hello")], [PStr "tool"; outcome (demo_result "paused_confirmation" (Some "c-1"))]) /\
  sublist (got 0 (ob_bus (demo_run demo_paused).2) ++ queue 0 (ap_bus (demo_run demo_paused).1))
    (published "w0" (ob_bus (demo_run demo_paused).2)).
Proof.
  split; [vm_compute; reflexivity|].
  destruct (server_keeps_books "http://localhost" ["gemini"] ["glm"] (fun _ => "model") demo_status demo_load demo_resolve demo_token demo_queue
    (fun _ _ _ => []) (fun _ _ _ _ => "") "active" (fun s => s) demo_open _ _ (demo_run_executed demo_paused)) as (_ & H & _).
  apply H. vm_compute. reflexivity.
Defined.

(** The notice is requested, the action approved with its token *)
Definition demo_fetched_steps : list (step (list (string * bool))) := [Request (GetConfirmation "c-1")].
Definition demo_approve : step (list (string * bool)) :=
  Request (PostConfirm "c-1" [("confirm_token", Some "token-0"); ("decision", Some "approve")]).

Lemma approval_takes_reading_witness :
  (demo_do demo_approve (demo_run demo_fetched_steps).1).2
    = Some (Answered (PDict [("confirmation_id", PStr "c-1"); ("status", PStr "approved")])) /\
  exists id b t r, demo_approve = Request (PostConfirm id b) /\ field "confirm_token" b = Some t /\
    (Request (GetConfirmation id), r) ∈ ob_steps (demo_run demo_fetched_steps).2.
Proof.
  split; [vm_compute; reflexivity|].
  destruct (approval_takes_reading "http://localhost" ["gemini"] ["glm"] (fun _ => "model") demo_status demo_load demo_resolve demo_token demo_queue
    (fun _ _ _ => []) (fun _ _ _ _ => "") "active" (fun s => s) demo_open _ _ demo_approve (demo_run_executed demo_fetched_steps))
    as [[Hw|[Ho|(id & b & Ha & [Hd|(_ & t & r & Ht & _ & _ & Hr)])]] _].
  - exfalso. vm_compute in Hw. discriminate Hw.
  - exfalso. vm_compute in Ho. discriminate Ho.
  - exfalso. injection Ha as _ <-. vm_compute in Hd. discriminate Hd.
  - exists id, b, t, r. split; [exact Ha|]. split; [exact Ht|exact Hr].
Defined.

Lemma refusals_have_reasons_witness :
  exists detail, (demo_do demo_approve (demo_run []).1).2 = Some (Refused 403 detail).
Proof.
  destruct (refusals_have_reasons ["gemini"] ["glm"] (fun _ => "model") demo_status demo_load demo_resolve demo_token demo_queue
    (fun _ _ _ => []) (fun _ _ _ _ => "") "active" (fun s => s) demo_open (demo_run []).1 demo_approve) as (_ & _ & _ & H).
  destruct (H "c-1" [("confirm_token", Some "token-0"); ("decision", Some "approve")] eq_refl) as (Hd & _ & _).
  destruct Hd as [_ [detail Hd]]; [|exists detail; exact Hd].
  right. split; [reflexivity|]. split; [exact I|vm_compute; reflexivity].
Defined.

(** A token that is not ASCII is no [ApprovalError] but a [TypeError], the server's 500 *)
Example foreign_token_crashes :
  (demo_do (Request (PostConfirm "c-1" [("confirm_token", Some "é"); ("decision", Some "approve")])) (demo_run demo_fetched_steps).1).2
  = Some (Crashed (Exn "TypeError" "comparing strings with non-ASCII characters is not supported")).
Proof. vm_compute. reflexivity. Qed.

(** One file of the queue that holds no object hides the whole queue *)
Example odd_file_hides_queue :
  (demo_do (Request ListConfirmations) (demo_run []).1).2
  = Some (Crashed (Exn "AttributeError" "'list' object has no attribute 'get'")).
Proof. vm_compute. reflexivity. Qed.

(** A turn that raises ends without an outcome on the bus and leaves the chat's status *)
Example raised_turn_is_silent :
  let x := demo_run [Startup; Request (PostSession [("project_path", Some "/t")]); Accept "w0"; Message "w0" [("text", Some "hello")];
                     TurnReturns 0 (Raise (Exn "RuntimeError" "no model"))] in
  published "w0" (ob_bus x.2) = [turn_start (Some "hello")] /\ ap_turns x.1 = ∅ /\ ap_chats x.1 !! "w0" = Some (mkChat "active" None).
Proof. vm_compute. split_and!; reflexivity. Qed.

(** Two messages that overlap: the one that returns last hides that the other is paused *)
Example overlapping_turn_hides_pause :
  let x := demo_run [Startup; Request (PostSession [("project_path", Some "/t")]); Message "w0" [("text", Some "one")];
                     Message "w0" [("text", Some "two")]; TurnReturns 0 (Ok (demo_result "paused_confirmation" (Some "c-1")));
                     TurnReturns 1 (Ok (demo_result "answered" None))] in
  ap_chats x.1 !! "w0" = Some (mkChat "active" None).
Proof. vm_compute. reflexivity. Qed.

(** A message without its text is a [KeyError]: nothing is published, nothing runs *)
Example message_without_text :
  let s := (demo_run [Startup; Request (PostSession [("project_path", Some "/t")])]).1 in
  demo_do (Message "w0" []) s = (s, Some (Crashed (Exn "KeyError" "'text'"))).
Proof. vm_compute. reflexivity. Qed.
